(* ===== verification/_CoqProject ===== *)
-Q . S2P
Prelude.v
Machine.v
Bitfield.v
IntMath.v
AddrRange.v
AddrRangeMap.v
SimulatorTheorems.v
EventQueue.v
EventShape.v
EventQueueCorrect.v
EventService.v
SimLoop.v
EventTheorems.v
EventOwner.v
Clock.v
ClockTheorems.v
Drain.v
DrainCorrect.v
DrainTheorems.v
Packet.v
PacketTheorems.v
Request.v
AbstractMem.v
AbstractMemCorrect.v
AbstractMemTheorems.v
LockedMem.v
Physical.v
PhysicalCorrect.v
PhysicalTheorems.v
PacketQueue.v
PacketQueueCorrect.v
PacketQueueTheorems.v
Bridge.v
BridgeCorrect.v
BridgeTheorems.v
SimpleMem.v
SimpleMemCorrect.v
SimpleMemTheorems.v
XBarLayer.v
XBarLayerCorrect.v
XBarTheorems.v
XBarRoute.v
XBarRouteTheorems.v
NoncoherentXBar.v
NoncoherentCorrect.v
NoncoherentTheorems.v
Float32.v
Systolic.v
SystolicCorrect.v
Gem5Device.v
TypedArrays.v
IODevice.v
Accelerator.v
SmmGem.v
AcceleratorInstances.v
SparseMM.v
TileProduct.v
SparseRep.v
SparseSpec.v
SparseEncode.v
SparseCorrect.v
MatMul.v
MatMulTest.v
LayoutCorrect.v
Transpose.v
Rows.v
Softmax.v
AddNorm.v
Dense.v
SelfAttention.v
TransformerBlock.v
Inference.v
AttentionCorrect.v
BlockCorrect.v
InferenceCorrect.v
Demo.v
DeviceTheorems.v
TestTheorems.v
ProductTheorems.v
LayerTheorems.v
