(* ===== verification/Prelude.v ===== *)
(** * TiC-SAT: a verified model of a transformer on a tightly coupled systolic array

    ** The program

    TiC-SAT runs a transformer encoder block on ARM cores that have a systolic
    array as a functional unit.  Four layers of code cooperate:

    - the software of the model: [src/transformer.cc] builds weights and runs
      [TransformerBlock], which owns attention heads ([SingleHeadSelfAttn]),
      fully connected layers ([Dense]) and residual normalisation
      ([AddNormalize]); a head owns three dense layers, [Transpose] and
      [Softmax] (all under [src/transformer_layers/]);
    - the matrix product: [SparseMatrixMultiplier]
      ([src/accelerator/sparseMatrixMultiplication.cpp]) walks over the tiles
      of a weight matrix in one of eight formats and runs each through
      [processMultiplication]; the encoders of the formats are in
      [src/transformer_layers/sparse_rep.cc];
    - the intrinsics ([src/accelerator/smm_gem.cc]): a normal build issues custom
      ARM instructions, a DEVELOP build calls a software array;
    - the array: the software class of [src/accelerator/systolic_m2m.cc], and the
      device of the gem5 simulator
      ([src/gem5-X-TiC-SAT/src/dev/arm/systolic_m2m.cc]) with the decoder and the
      instruction definitions that reach it, on top of gem5's base library
      (bit fields, integer mathematics, address ranges and their map) and its
      event queue, which runs everything that happens in the simulated system,
      with the clocks of objects and the drain manager on top of it, the
      bus that programmed I/O takes to a device (packets, the packet queues of
      ports, the crossbar with its address map and its layers, the bridge
      between two buses), and the memory the programs run from: requests, the
      memory with its exclusive accesses, several memories as one address
      space, and the controller that gives a memory its latency;
    - a test program, [src/mat_mult_test.cpp], that drives the array directly and
      compares it with a software product.

    ** Files

    Foundations:
    - [Prelude]: the error monad (option, with [wp] for "returns, and the result
      satisfies"), checked array access, counted loops ([for_up],
      [for_down], [for_break]) with their invariant rules, lemmas on Z-indexed
      lists, sums and bits, tactics and hint databases.
    - [Machine]: the macros of [util.h] as a record [Config] with the class
      [WfConfig]; lanes of a bus word, most significant first and little endian.
    - [Float32]: the unions of a [float] and its bit pattern.
    The array:
    - [Systolic], [SystolicCorrect]: the array, closed forms of
      its stages, and the pipeline invariant [Phase] with its step lemma.
    - [Gem5Device]: the gem5 devices ([Module Gem5], [Module FlagMemory]);
      [TypedArrays]: the types of their arrays, for any sequence of calls.
    - [SmmGem]: the intrinsics, the decoder and the instructions.
    - [Accelerator], [AcceleratorInstances]: the interface (classes [Accelerator]
      and [AcceleratorLaws]) and its two implementations; [element_indexed] is
      an accelerator behind a caller that counts elements instead of words.
    - [MatMulTest]: the test program and its product.
    The product:
    - [SparseMM]: the multiplier; [SparseRep]: the encoders and the layouts.
    - [TileProduct]: one tile, and schedules of tiles; [SparseSpec]: reference
      semantics [sparse_ref]; [SparseEncode]: what the encoders build;
      [SparseCorrect]: every format refines the reference; [MatMul]: the
      reference is the matrix product; [LayoutCorrect]: the two layouts of a
      matrix and the software product.
    The layers:
    - [Transpose], [Rows], [Softmax], [AddNorm], [Dense], [SelfAttention],
      [TransformerBlock], [Inference]: one file per class of
      [src/transformer_layers/] and one for [transformer.cc].
    - [AttentionCorrect], [BlockCorrect]: the refinement of [attend] to attention
      on matrices, and of [Block_compute] to the reference encoder [block_ref].
      Both also have the layers whose kernels are stored in any of
      the formats, and the constructors that build heads and blocks from them.
    - [InferenceCorrect]: the conversion of the weights and the
      whole of [main].
    The base library of the simulator:
    - [Bitfield], [IntMath], [AddrRange], [AddrRangeMap] ([Module RangeMap]).
    The event queue of the simulator:
    - [EventQueue] ([Module Flags], [Module EventQ]): events as heap objects, the
      list of bins with its pointers, and every operation on them;
      [EventShape]: the pointers represent an ordered list ([repr]);
      [EventQueueCorrect]: insertion and removal on that list, [queued] is the
      invariant; [EventService]: servicing events, the class [Handlers] states
      what the actions of events must respect; [SimLoop]: asynchronous
      insertions, [doSimLoop], and the step relation of the queue.
    - [Clock] ([Module Clock]): the edge cache of [sim/clocked_object.hh] and the
      ticked objects of [sim/ticked_object.cc], clients of the queue.
    - [Drain] ([Module Drain]): the drain manager and its objects
      ([sim/drain.cc]); [DrainCorrect]: the class [DrainContract] states what the
      virtual functions [drain] and [drainResume] must respect, and the
      operations against it.
    - [EventOwner]: the queue as an object sees it that owns one event ([calm],
      [owned]); packet queues, layers and ticked objects are proved against it.
    The bus of the devices:
    - [Packet] ([Module Pkt]): packets, their commands, data and functional
      accesses ([mem/packet.hh], [packet.cc], [packet_access.hh]).
    - [Request] ([Module Req]): requests, their flags and constructors
      ([mem/request.hh]).
    - [PacketQueue] ([Module PQ]): the queue of a port ([mem/packet_queue.cc]);
      [PacketQueueCorrect]: its invariant [settled], against a port that
      satisfies the class [Receiver].
    - [Bridge] ([Module Br]): the bridge between two buses ([mem/bridge.cc]);
      [BridgeCorrect]: its invariant [sound] about limits, reserved room and
      events, with neighbours that satisfy the classes [Downstream], [Upstream]
      and [Retrier].
    - [XBarLayer] ([Module XBar]): the arbitration for one port of a crossbar
      ([mem/xbar.cc]); [XBarLayerCorrect]: its invariant [layer_ok], in any
      system that holds a layer (classes [LayerHost] and [LayerLaws]) and with
      ports that satisfy the class [Retrier].
    - [XBarRoute] ([Module Route]): the address map of a crossbar and the timing
      of packets ([mem/xbar.cc]); [XBarRouteTheorems]: its refinement of the map
      from ports to the ranges they have announced ([routes], [target]).
    - [NoncoherentXBar] ([Module NX]): the crossbar of the devices
      ([mem/noncoherent_xbar.cc]), made of the parts above;
      [NoncoherentCorrect]: its layers as instances of [LayerLaws], and one
      request or response with a device that satisfies the class [Peer].
    - [IODevice] ([Module Pio]): the port of a device ([mem/tport.cc],
      [dev/io_device.cc]), with the accesses of the systolic array.
    The memory:
    - [LockedMem]: the exclusive monitor of an ARM core
      ([arch/arm/locked_mem.hh]).
    - [AbstractMem] ([Module AMem]): the memory ([mem/abstract_mem.cc]);
      [AbstractMemCorrect]: its specification [MemSpec], bytes by address and
      reservations by context, and the simulation, branch by branch.
    - [Physical] ([Module Phys]): all memories of a system and their checkpoints
      ([mem/physical.cc]); [PhysicalCorrect]: memories with disjoint ranges as
      one map from addresses to bytes, what the constructor
      builds and what a checkpoint restores.
    - [SimpleMem] ([Module SMem]): the memory controller ([mem/simple_mem.cc]);
      [SimpleMemCorrect]: its invariant, and where it puts a response.
    Results:
    - [SimulatorTheorems], [EventTheorems], [ClockTheorems], [DrainTheorems],
      [PacketTheorems], [PacketQueueTheorems], [XBarTheorems],
      [XBarRouteTheorems], [NoncoherentTheorems], [AbstractMemTheorems],
      [PhysicalTheorems], [BridgeTheorems], [SimpleMemTheorems],
      [DeviceTheorems], [TestTheorems], [ProductTheorems], [LayerTheorems]: the
      properties, the most important ones numbered, with their witnesses;
      [IODevice], [Request] and [LockedMem] end with the theorems of their part;
      [Demo]: the concrete instances that several files of witnesses use.

    ** Conventions

    - Integers are [Z] with their width written out ([uint32], [int32],
      [activation_t], ...).
      Unsigned arithmetic wraps as in C++.  Signed arithmetic of [int] and the
      activation types wraps too, which is what the supported compilers do
      where the code overflows on purpose (accumulators).
    - A buffer is a list of 32-bit words; a pointer is an offset, or the suffix
      of the buffer it points into.  An access out of range, the use of a
      deleted object or of an uninitialised member, a failing assertion, [fatal]
      and [panic] are [None].  Every theorem about a computation shows that it
      returns a result ([wp] is false of [None]) and what the result is.
    - Definitions are executable.  Loops with a computed bound are [for_up] and
      its relatives; the others ([while_fuel]) have fuel.  A block of [computeInterleavedMetaData] has
      [33 * (zlen values + 1)] steps, enough because a metadata word is
      consumed every 32 steps (shown by [interleaved_roundtrip]); [isPrime] and
      [prevPrime] have more fuel than the number they start from, and every
      step changes that number by at least 2.  The walks over the event queue
      have [fuel_of], one step more than there are events; the loops that
      service events are shown to end within [potential] steps, a bound that
      falls with every serviced event because actions schedule at later ticks;
      the drain loop of the test program has one step per output word and per
      word of the array's latency; saving a store has one
      step per [INT_MAX] bytes and one more, restoring it has one per byte, and
      [checkpoint_restores] shows that both loops end within this fuel.
    - Floating point is IEEE single precision with round to nearest even, without
      contraction to fused multiply-add; NaN payloads are not kept.
    - Code that is not part of the repository is a parameter: the results of
      [rand] are a stream, [exp] is a function on doubles.  No theorem assumes
      anything about them except where a hypothesis says so.  The actions of
      events are a parameter of the queue, and what the neighbour of a port does
      is a parameter of the port; classes say what the code relies on.  So are
      the host memory that [mmap] gives, the compression of the files of a
      checkpoint, the random part of a latency and the time a transfer takes,
      and what a core does when it is told that its reservation is gone; their
      hypotheses are that fresh host memory is zero and new, that decompression
      undoes compression, and that times stay far below the width of a tick.

    ** What the theorems show

    - [LayerTheorems]: the whole program, the whole block and a head compute the
      reference encoder, and attention, of the dense kernels, and a layer the
      product with its dense kernel, on any accelerator that satisfies the
      interface and in each format a kernel is stored in, under the conditions
      of the format ([stored], [stored_ptrs]: among them 32 rows of tiles for
      INTERLEAVED and tiles without the key for HIDDEN_KEY); transpositions
      transpose and are involutions; softmax acts on each row by its own sum;
      normalisation of bytes by the floor of the mean and the scale of the
      row's spread, and when it is undefined; the guards of [main].
    - [ProductTheorems]: a product in the format NON_PRUNED is the integer matrix
      product modulo the activation width, and for each format decoding what
      the encoder builds runs exactly the non-zero tiles; the software product agrees with the array.  Three
      more delimit these results: short columns and dense kernels in the
      interleaved format, and the index the software array of a DEVELOP build
      expects.
    - [DeviceTheorems]: a column of cells computes an inner product; the device
      and the software array follow the pipeline step by step, so the output of
      an input vector appears [2 * KERNEL_DIM - 1] steps later; an intrinsic is
      one device call, with just these operands; the tiles of different cores do
      not interfere; no sequence of calls leaves the types of the arrays; taking
      a checkpoint destroys the tiles for good, whatever calls follow.
    - [TestTheorems]: the driver of the test program computes the product it
      compares with, for all matrices, and the program passes.
    - [EventTheorems]: the invariant of the queue in every reachable state;
      scheduling, descheduling and asynchronous scheduling as insertion and
      removal; the loops end, run the actions at ticks that never decrease and
      miss no event that is left alone (in the order of the queue when actions
      do not touch it), and return at an exit event; what a checkpoint loses.
    - [ClockTheorems]: clock edges at 64 bits, and a ticked object is evaluated
      once at every edge; the virtual function [evaluate] works on its own data.
    - [DrainTheorems]: the counter of the manager is right in every state reached
      without creating objects while the system drains, a drain reports the truth, and resuming ends after one pass (so
      one step of fuel is enough); objects created while the system drains.
    - [SimulatorTheorems]: lookup and insertion in the address map, interleaved
      ranges partition their addresses, offsets are unique, bit reversal,
      rounding to powers of two, and where [prevPrime] is right.
    - [PacketTheorems]: a response keeps all of its request but the command and
      one flag; a word written to a packet is read back, in both byte orders;
      what a functional access copies.
    - [PacketQueueTheorems]: where a packet goes in the list, that a list which is
      not empty is always waited for, and when each packet leaves.
    - [XBarTheorems]: a layer is busy while its release event is pending, loses
      no wake-up and wakes the ports in their order.
    - [XBarRouteTheorems]: after any accepted sequence of changes of plain ranges a crossbar
      routes by the ranges announced last, and announces just those.
    - [NoncoherentTheorems]: what becomes of a request and of a response, on every
      branch, and that a response goes back to the port its request came from,
      whatever happens in between.
    - [IODevice]: a request to a device is answered through its queue; the
      systolic array cannot be reached by packets.
    - [Request]: splitting a request, reusing a request object, and a
      constructor that leaves a field uninitialised.
    - [AbstractMemTheorems]: after any sequence of accesses the memory is what its
      specification says, a read returns what was written last, and an
      exclusive store succeeds exactly when its reservation is uninterrupted by the
      stores the code looks at.
    - [LockedMem]: the cores learn of every reservation a store ends; swaps
      and wide stores that leave reservations standing; null memories.
    - [PhysicalTheorems]: memories with disjoint plain ranges are one address
      space; a checkpoint restores bytes and reservations; [isMemAddr].
    - [BridgeTheorems]: the limits, the reserved room and the events of a bridge in
      every reachable state, requests on every branch, and that a stalled
      request enters when there is room.
    - [SimpleMemTheorems]: what a request does and where its response goes, the
      events of the controller in every reachable state, and that a stalled
      request is served; an example has a functional read that sees the
      bytes of a response which a later store has overwritten.

    ** What is not modelled, and what is next

    Left out: console output and timers; the files of [RELOAD_WEIGHT] builds
    (read by a function that is not in the repository); of the event queue the
    locks, threads, names and traces; power states, registration of statistics
    and changes of the period of a clock domain; printing of packets and the
    lookup of ports by name; the rest of gem5 (processors, caches, the coherent
    crossbar, DRAM controllers); and [popCount] (a compiler builtin).

    Open: the scale of rows whose length is not a power of two, or of wider
    activations, in terms of their spread; interleaved ranges in the specification of the address maps and of the
    physical memory (their code is modelled); several threads of the simulation
    loop; the invariants of all layers and queues of a crossbar together, and
    ports that send again while they are told to; atomic and functional accesses
    through the crossbar; a crossbar and a memory controller as one system;
    further parts of gem5's base library. *)

From stdpp Require Import prelude.
From Stdlib Require Import ZArith Lia.

#[global] Open Scope Z_scope.

(** ** Notation

    Array reads with a default are written [l .[ i ]]; the default is only
    ever consulted in specifications, the code itself uses the checked
    accesses [aget] and [aset]. *)

Declare Scope array_scope.
Delimit Scope array_scope with arr.

(** ** Arrays

    A C++ buffer is a list indexed by [Z].  An access out of range is
    undefined behaviour in the source; here it is [None]. *)

Definition zlen {A} (l : list A) : Z := Z.of_nat (length l).

Definition aget {A} (l : list A) (i : Z) : option A :=
  if i <? 0 then None else l !! Z.to_nat i.

Definition aset {A} (l : list A) (i : Z) (v : A) : option (list A) :=
  if (0 <=? i) && (i <? zlen l) then Some (<[Z.to_nat i := v]> l) else None.

(** Total read, used by specifications only. *)
Definition nthZ (l : list Z) (i : Z) : Z := default 0 (aget l i).

Notation "l .[ i ]" := (nthZ l i) (at level 1, left associativity, format "l .[ i ]") : array_scope.
#[global] Open Scope array_scope.

(** A zero-initialised buffer, as [new uint32_t[n]()] gives it. *)
Definition zeros (n : Z) : list Z := replicate (Z.to_nat n) 0.

(** [mkarray n f] is the buffer [f 0, ..., f (n-1)]. *)
Definition mkarray {A} (n : Z) (f : Z -> A) : list A :=
  (fun k => f (Z.of_nat k)) <$> seq 0 (Z.to_nat n).

(** ** Loops *)

(** [for (int i = lo; i < hi; i++) body] *)
Fixpoint loop_up {S} (n : nat) (i : Z) (body : Z -> S -> option S) (s : S) : option S :=
  match n with
  | O => Some s
  | Datatypes.S n' => s' ← body i s; loop_up n' (i + 1) body s'
  end.

Definition for_up {S} (lo hi : Z) (body : Z -> S -> option S) (s : S) : option S :=
  loop_up (Z.to_nat (hi - lo)) lo body s.

(** [for (int i = hi; i >= lo; i--) body] *)
Fixpoint loop_down {S} (n : nat) (i : Z) (body : Z -> S -> option S) (s : S) : option S :=
  match n with
  | O => Some s
  | Datatypes.S n' => s' ← body i s; loop_down n' (i - 1) body s'
  end.

Definition for_down {S} (hi lo : Z) (body : Z -> S -> option S) (s : S) : option S :=
  loop_down (Z.to_nat (hi - lo + 1)) hi body s.

(** A counted loop with [break]: the body answers [(true, s)] to leave. *)
Fixpoint loop_break {S} (n : nat) (i : Z) (body : Z -> S -> option (bool * S)) (s : S) : option S :=
  match n with
  | O => Some s
  | Datatypes.S n' =>
      '(stop, s') ← body i s;
      if (stop : bool) then Some s' else loop_break n' (i + 1) body s'
  end.

Definition for_break {S} (lo hi : Z) (body : Z -> S -> option (bool * S)) (s : S) : option S :=
  loop_break (Z.to_nat (hi - lo)) lo body s.

(** [while (cond) body], with fuel; running out of fuel is [None]. *)
Fixpoint while_fuel {S} (fuel : nat) (cond : S -> bool) (body : S -> option S) (s : S) : option S :=
  match fuel with
  | O => if cond s then None else Some s
  | Datatypes.S n => if cond s then s' ← body s; while_fuel n cond body s' else Some s
  end.

(** ** Total-correctness triples

    [wp m Q]: the computation [m] is defined (no access out of range, no
    assertion failure, no lack of fuel) and its result satisfies [Q]. *)

Definition wp {A} (m : option A) (Q : A -> Prop) : Prop :=
  match m with Some a => Q a | None => False end.

Section Wp.
Context {A B : Type}.
Implicit Types (Q : A -> Prop).

Lemma wp_ret (a : A) Q : Q a -> wp (Some a) Q.
Proof. done. Qed.

Lemma wp_bind (m : option A) (f : A -> option B) (Q : B -> Prop) :
  wp m (fun a => wp (f a) Q) -> wp (m ≫= f) Q.
Proof. by destruct m. Qed.

Lemma wp_mono (m : option A) Q (Q' : A -> Prop) :
  wp m Q -> (forall a, Q a -> Q' a) -> wp m Q'.
Proof. destruct m; simpl; eauto. Qed.

Lemma wp_eqn (m : option A) Q : wp m Q -> wp m (fun a => Q a /\ m = Some a).
Proof. by destruct m. Qed.

Lemma wp_exists (m : option A) Q : wp m Q <-> exists a, m = Some a /\ Q a.
Proof. destruct m; simpl; naive_solver. Qed.

Lemma wp_eq (m : option A) (a : A) : wp m (fun b => b = a) -> m = Some a.
Proof. by destruct m; simpl; intros; subst. Qed.

Lemma wp_get_eq (m : option A) (a : A) Q : m = Some a -> Q a -> wp m Q.
Proof. by intros ->. Qed.

(** What is known of a computation holds of the result it has returned. *)
Lemma wp_some (m : option A) a Q : m = Some a -> wp m Q -> Q a.
Proof. by intros ->. Qed.
End Wp.

Section WpArray.
Context {A : Type}.
Implicit Types l : list A.

Lemma zlen_nonneg l : 0 <= zlen l.
Proof. unfold zlen; lia. Qed.

Lemma aget_Some_bounds l i v : aget l i = Some v -> 0 <= i < zlen l.
Proof.
  unfold aget, zlen. destruct (Z.ltb_spec i 0); [done|].
  intros H1%lookup_lt_Some. lia.
Qed.

Lemma aget_is_Some l i : 0 <= i < zlen l -> exists v, aget l i = Some v.
Proof.
  unfold aget, zlen. intros. destruct (Z.ltb_spec i 0); [lia|].
  apply lookup_lt_is_Some. lia.
Qed.

Lemma aset_spec l i v :
  0 <= i < zlen l -> aset l i v = Some (<[Z.to_nat i := v]> l).
Proof.
  intros. unfold aset.
  destruct (Z.leb_spec 0 i); [|lia]. destruct (Z.ltb_spec i (zlen l)); [done|lia].
Qed.

Lemma zlen_insert l i v : zlen (<[Z.to_nat i := v]> l) = zlen l.
Proof. unfold zlen. by rewrite length_insert. Qed.

Lemma aget_insert l i j v :
  0 <= i < zlen l ->
  aget (<[Z.to_nat i := v]> l) j = if j =? i then Some v else aget l j.
Proof.
  unfold aget, zlen. intros. destruct (Z.ltb_spec j 0), (Z.eqb_spec j i); try lia; [done| |].
  - subst. rewrite list_lookup_insert_eq; [done|lia].
  - rewrite list_lookup_insert_ne; [done|lia].
Qed.

Lemma aget_app_l l1 l2 i : i < zlen l1 -> aget (l1 ++ l2) i = aget l1 i.
Proof.
  unfold aget, zlen. intros. destruct (Z.ltb_spec i 0); [done|].
  apply lookup_app_l. lia.
Qed.

Lemma aget_app_r l1 l2 i : zlen l1 <= i -> aget (l1 ++ l2) i = aget l2 (i - zlen l1).
Proof.
  unfold aget, zlen. intros.
  destruct (Z.ltb_spec i 0), (Z.ltb_spec (i - Z.of_nat (length l1)) 0); try lia.
  rewrite lookup_app_r by lia. f_equal. lia.
Qed.

Lemma zlen_app l1 l2 : zlen (l1 ++ l2) = zlen l1 + zlen l2.
Proof. unfold zlen. rewrite length_app. lia. Qed.

Lemma alist_eq l1 l2 :
  zlen l1 = zlen l2 ->
  (forall i, 0 <= i < zlen l1 -> aget l1 i = aget l2 i) -> l1 = l2.
Proof.
  unfold zlen. intros Hl H. apply list_eq. intros k.
  destruct (decide (k < length l1)%nat) as [Hk|Hk].
  - specialize (H (Z.of_nat k) ltac:(lia)). unfold aget in H.
    destruct (Z.ltb_spec (Z.of_nat k) 0); [lia|]. by rewrite Nat2Z.id in H.
  - rewrite !lookup_ge_None_2; [done|lia|lia].
Qed.

Lemma zlen_mkarray (n : Z) (f : Z -> A) : 0 <= n -> zlen (mkarray n f) = n.
Proof. intros. unfold zlen, mkarray. rewrite length_fmap, length_seq. lia. Qed.

Lemma aget_mkarray (n : Z) (f : Z -> A) i :
  0 <= i < n -> aget (mkarray n f) i = Some (f i).
Proof.
  intros. unfold aget, mkarray. destruct (Z.ltb_spec i 0); [lia|].
  rewrite list_lookup_fmap, lookup_seq_lt by lia. simpl. do 2 f_equal. lia.
Qed.
End WpArray.

(** ** Reads and writes of integer buffers *)

Lemma aget_nthZ (l : list Z) i : 0 <= i < zlen l -> aget l i = Some l.[i].
Proof. intros [v Hv]%aget_is_Some. unfold nthZ. by rewrite Hv. Qed.

Lemma aget_Some_nthZ (l : list Z) i v : aget l i = Some v -> l.[i] = v.
Proof. unfold nthZ. by intros ->. Qed.

Lemma nthZ_insert (l : list Z) i j v :
  0 <= i < zlen l -> (<[Z.to_nat i := v]> l).[j] = if j =? i then v else l.[j].
Proof. intros. unfold nthZ. rewrite aget_insert by done. by destruct (j =? i). Qed.

Lemma list_eq_nthZ (l1 l2 : list Z) :
  zlen l1 = zlen l2 -> (forall i, 0 <= i < zlen l1 -> l1.[i] = l2.[i]) -> l1 = l2.
Proof.
  intros Hl H. apply alist_eq; [done|]. intros i Hi.
  rewrite !aget_nthZ by lia. by rewrite H.
Qed.

Lemma nthZ_mkarray n f i : 0 <= i < n -> (mkarray n f).[i] = f i.
Proof. intros. unfold nthZ. by rewrite aget_mkarray. Qed.

Lemma zlen_zeros n : 0 <= n -> zlen (zeros n) = n.
Proof. intros. unfold zlen, zeros. rewrite length_replicate. lia. Qed.

Lemma nthZ_zeros n i : (zeros n).[i] = 0.
Proof.
  unfold nthZ, aget, zeros. destruct (i <? 0); [done|].
  destruct (replicate (Z.to_nat n) 0 !! Z.to_nat i) eqn:E; [|done].
  apply lookup_replicate in E. naive_solver.
Qed.

Lemma wp_aget (l : list Z) i (Q : Z -> Prop) :
  0 <= i < zlen l -> Q l.[i] -> wp (aget l i) Q.
Proof. intros. by rewrite aget_nthZ. Qed.

Lemma wp_aset (l : list Z) i v (Q : list Z -> Prop) :
  0 <= i < zlen l ->
  (forall l', zlen l' = zlen l ->
     (forall j, l'.[j] = if j =? i then v else l.[j]) -> Q l') ->
  wp (aset l i v) Q.
Proof.
  intros Hi HQ. rewrite aset_spec by done. apply HQ.
  - apply zlen_insert.
  - intros. by apply nthZ_insert.
Qed.

(** ** Loop rules *)

Section WpLoop.
Context {S : Type}.
Implicit Types (P : Z -> S -> Prop) (Q : S -> Prop).

Lemma wp_loop_up n lo (body : Z -> S -> option S) (s : S) P :
  P lo s ->
  (forall i s, lo <= i < lo + Z.of_nat n -> P i s -> wp (body i s) (P (i + 1))) ->
  wp (loop_up n lo body s) (P (lo + Z.of_nat n)).
Proof.
  revert lo s. induction n as [|n IH]; intros lo s H0 Hstep; simpl.
  - by rewrite Z.add_0_r.
  - apply wp_bind. eapply wp_mono; [apply Hstep; [lia|done]|].
    intros s' Hs'. replace (lo + Z.of_nat (Datatypes.S n)) with (lo + 1 + Z.of_nat n) by lia.
    apply IH; [done|]. intros. apply Hstep; [lia|done].
Qed.

(** Loop rule with an invariant indexed by the loop counter. *)
Lemma wp_for_up P lo hi (body : Z -> S -> option S) (s : S) Q :
  lo <= hi ->
  P lo s ->
  (forall i s, lo <= i < hi -> P i s -> wp (body i s) (P (i + 1))) ->
  (forall s, P hi s -> Q s) ->
  wp (for_up lo hi body s) Q.
Proof.
  intros Hle H0 Hstep HQ. unfold for_up.
  pose proof (wp_loop_up (Z.to_nat (hi - lo)) lo body s P H0) as H.
  replace (lo + Z.of_nat (Z.to_nat (hi - lo))) with hi in H by lia.
  eapply wp_mono; [by apply H|done].
Qed.

(** What holds of the result of a loop that has returned. *)
Lemma for_up_Some P lo hi (body : Z -> S -> option S) (s s' : S) :
  lo <= hi -> for_up lo hi body s = Some s' -> P lo s ->
  (forall i s s1, lo <= i < hi -> P i s -> body i s = Some s1 -> P (i + 1) s1) -> P hi s'.
Proof.
  unfold for_up. intros Hle. remember (Z.to_nat (hi - lo)) as n eqn:Hn. revert lo s Hle Hn.
  induction n as [|n IH]; intros lo s Hle Hn; cbn [loop_up].
  - intros [= <-] HP _. by replace hi with lo by lia.
  - intros E HP Hstep. apply bind_Some in E as (s1 & E1 & E). apply (IH (lo + 1) s1); [lia|lia|done| |].
    + by apply (Hstep lo s); [lia| |].
    + intros i s2 s3 Hi. apply Hstep. lia.
Qed.

Lemma for_up_empty lo hi (body : Z -> S -> option S) (s : S) :
  hi <= lo -> for_up lo hi body s = Some s.
Proof. intros. unfold for_up. by replace (Z.to_nat (hi - lo)) with O by lia. Qed.

Lemma for_up_step lo hi (body : Z -> S -> option S) (s : S) :
  lo < hi -> for_up lo hi body s = (body lo s ≫= for_up (lo + 1) hi body).
Proof.
  intros. unfold for_up.
  replace (Z.to_nat (hi - lo)) with (Datatypes.S (Z.to_nat (hi - (lo + 1)))) by lia. done.
Qed.

Lemma wp_loop_down n hi (body : Z -> S -> option S) (s : S) P :
  P hi s ->
  (forall i s, hi - Z.of_nat n < i <= hi -> P i s -> wp (body i s) (P (i - 1))) ->
  wp (loop_down n hi body s) (P (hi - Z.of_nat n)).
Proof.
  revert hi s. induction n as [|n IH]; intros hi s H0 Hstep; simpl.
  - by rewrite Z.sub_0_r.
  - apply wp_bind. eapply wp_mono; [apply Hstep; [lia|done]|].
    intros s' Hs'. replace (hi - Z.of_nat (Datatypes.S n)) with (hi - 1 - Z.of_nat n) by lia.
    apply IH; [done|]. intros. apply Hstep; [lia|done].
Qed.

(** Downward loop: the invariant [P i] holds when the counter is [i], before
    the body runs for [i]. *)
Lemma wp_for_down P hi lo (body : Z -> S -> option S) (s : S) Q :
  lo <= hi + 1 ->
  P hi s ->
  (forall i s, lo <= i <= hi -> P i s -> wp (body i s) (P (i - 1))) ->
  (forall s, P (lo - 1) s -> Q s) ->
  wp (for_down hi lo body s) Q.
Proof.
  intros Hle H0 Hstep HQ. unfold for_down.
  pose proof (wp_loop_down (Z.to_nat (hi - lo + 1)) hi body s P H0) as H.
  replace (hi - Z.of_nat (Z.to_nat (hi - lo + 1))) with (lo - 1) in H by lia.
  eapply wp_mono; [apply H|done]. intros. apply Hstep; [lia|done].
Qed.

Lemma wp_loop_break n lo (body : Z -> S -> option (bool * S)) (s : S) P Q :
  P lo s ->
  (forall i s, lo <= i < lo + Z.of_nat n -> P i s ->
     wp (body i s) (fun '(stop, s') => if (stop : bool) then Q s' else P (i + 1) s')) ->
  (forall s, P (lo + Z.of_nat n) s -> Q s) ->
  wp (loop_break n lo body s) Q.
Proof.
  revert lo s. induction n as [|n IH]; intros lo s H0 Hstep HQ; simpl.
  - apply HQ. by rewrite Z.add_0_r.
  - apply wp_bind. eapply wp_mono; [apply Hstep; [lia|done]|].
    intros [[] s'] Hs'; [done|]. apply IH; [done| |].
    + intros. apply Hstep; [lia|done].
    + intros s'' Hs''. apply HQ. by replace (lo + Z.of_nat (Datatypes.S n)) with (lo + 1 + Z.of_nat n) by lia.
Qed.

Lemma wp_for_break P lo hi (body : Z -> S -> option (bool * S)) (s : S) Q :
  lo <= hi ->
  P lo s ->
  (forall i s, lo <= i < hi -> P i s ->
     wp (body i s) (fun '(stop, s') => if (stop : bool) then Q s' else P (i + 1) s')) ->
  (forall s, P hi s -> Q s) ->
  wp (for_break lo hi body s) Q.
Proof.
  intros Hle H0 Hstep HQ. unfold for_break. eapply wp_loop_break; [done| |].
  - intros. apply Hstep; [lia|done].
  - by replace (lo + Z.of_nat (Z.to_nat (hi - lo))) with hi by lia.
Qed.

Lemma while_fuel_unfold fuel (cond : S -> bool) (body : S -> option S) (s : S) :
  cond s = true ->
  while_fuel (Datatypes.S fuel) cond body s = (body s ≫= while_fuel fuel cond body).
Proof. simpl. by intros ->. Qed.

Lemma while_fuel_done fuel (cond : S -> bool) (body : S -> option S) (s : S) :
  cond s = false -> while_fuel fuel cond body s = Some s.
Proof. intros H. destruct fuel; simpl; by rewrite H. Qed.
End WpLoop.

(** Induction upwards from [g]. *)
Lemma Zup_ind (P : Z -> Prop) g :
  P g -> (forall h, g <= h -> P h -> P (h + 1)) -> forall h, g <= h -> P h.
Proof.
  intros H0 Hs h Hh. replace h with (g + Z.of_nat (Z.to_nat (h - g))) by lia.
  induction (Z.to_nat (h - g)) as [|n IH]; [by rewrite Z.add_0_r|].
  replace (g + Z.of_nat (S n)) with (g + Z.of_nat n + 1) by lia. apply Hs; [lia|done].
Qed.

(** Two loops with bodies that agree on the range compute the same. *)
Lemma for_up_ext {S} lo hi (b1 b2 : Z -> S -> option S) (s : S) :
  (forall i s, lo <= i < hi -> b1 i s = b2 i s) ->
  for_up lo hi b1 s = for_up lo hi b2 s.
Proof.
  unfold for_up. intros H.
  assert (forall n lo' s, lo <= lo' -> lo' + Z.of_nat n <= Z.max lo hi ->
     loop_up n lo' b1 s = loop_up n lo' b2 s) as Hg.
  { induction n as [|n IH]; intros lo' s' ??; simpl; [done|].
    rewrite H by lia. destruct (b2 lo' s'); simpl; [|done]. apply IH; lia. }
  apply Hg; lia.
Qed.

(** A loop whose extra state is a function of the counter simulates the loop
    without it. *)
Lemma for_up_track {S1 S2} (f : Z -> S2 -> S1) lo hi
    (b1 : Z -> S1 -> option S1) (b2 : Z -> S2 -> option S2) (s : S2) :
  lo <= hi ->
  (forall i s, lo <= i < hi -> b1 i (f i s) = (s' ← b2 i s; Some (f (i + 1) s'))) ->
  for_up lo hi b1 (f lo s) = (s' ← for_up lo hi b2 s; Some (f hi s')).
Proof.
  unfold for_up. intros Hle H.
  assert (forall n lo' s, lo <= lo' -> lo' + Z.of_nat n = hi ->
     loop_up n lo' b1 (f lo' s) = (s' ← loop_up n lo' b2 s; Some (f hi s'))) as Hg.
  { induction n as [|n IH]; intros lo' s' ??; simpl.
    - do 2 f_equal. lia.
    - rewrite H by lia. destruct (b2 lo' s'); simpl; [|done]. apply IH; lia. }
  apply Hg; lia.
Qed.

(** Running a loop in two parts. *)
Lemma for_up_app {S} lo mid hi (b : Z -> S -> option S) (s : S) :
  lo <= mid <= hi -> for_up lo hi b s = (s' ← for_up lo mid b s; for_up mid hi b s').
Proof.
  intros H. unfold for_up.
  assert (forall n lo s, loop_up (n + Z.to_nat (hi - mid)) lo b s =
    (s' ← loop_up n lo b s; loop_up (Z.to_nat (hi - mid)) (lo + Z.of_nat n) b s')) as Hg.
  { induction n as [|n IH]; intros lo' s'; simpl; [by rewrite Z.add_0_r|].
    destruct (b lo' s'); simpl; [|done]. rewrite IH.
    destruct (loop_up n (lo' + 1) b s0); simpl; [|done]. f_equal. lia. }
  replace (Z.to_nat (hi - lo)) with (Z.to_nat (mid - lo) + Z.to_nat (hi - mid))%nat by lia.
  rewrite Hg. by replace (lo + Z.of_nat (Z.to_nat (mid - lo))) with mid by lia.
Qed.

Lemma for_up_shift {S} lo hi d (b : Z -> S -> option S) (s : S) :
  for_up (lo + d) (hi + d) b s = for_up lo hi (fun i => b (i + d)) s.
Proof.
  unfold for_up. replace (hi + d - (lo + d)) with (hi - lo) by lia.
  generalize (Z.to_nat (hi - lo)). intros n. revert lo s.
  induction n as [|n IH]; intros lo s; simpl; [done|].
  destruct (b (lo + d) s); simpl; [|done]. rewrite <- IH. f_equal. lia.
Qed.

(** A loop that does nothing. *)
Lemma for_up_skip {S} lo hi (b : Z -> S -> option S) (s : S) :
  (forall i s, lo <= i < hi -> b i s = Some s) -> for_up lo hi b s = Some s.
Proof.
  intros H. destruct (Z.le_ge_cases hi lo); [by apply for_up_empty|].
  apply wp_eq. apply (wp_for_up (fun _ s' => s' = s)); [lia|done| |done].
  intros i s' Hi ->. by rewrite H.
Qed.

(** Two nested loops are one loop over the linear index. *)
Lemma for_up_nest {S} n k (b : Z -> Z -> S -> option S) (s : S) :
  0 <= n -> 0 <= k ->
  for_up 0 n (fun i s => for_up 0 k (b i) s) s =
  for_up 0 (n * k) (fun g => b (g / k) (g mod k)) s.
Proof.
  intros Hn Hk. revert s. pattern n. apply natlike_ind; [| |done].
  - intros s. by rewrite !for_up_empty by lia.
  - clear n Hn. intros n Hn IH s. replace (Z.succ n) with (n + 1) by lia.
    rewrite (for_up_app 0 n (n + 1)), (for_up_app 0 (n * k) ((n + 1) * k)), IH by nia.
    destruct (for_up 0 (n * k) _ s) as [s'|]; simpl; [|done].
    rewrite for_up_step by lia.
    replace (n * k) with (0 + n * k) by lia. replace ((n + 1) * k) with (k + n * k) by lia.
    rewrite for_up_shift.
    transitivity (for_up 0 k (b n) s').
    { destruct (for_up 0 k (b n) s'); simpl; [|done]. by rewrite for_up_empty by lia. }
    apply for_up_ext. intros i s0 Hi.
    rewrite Z.div_add, Z.mod_add, Z.div_small, Z.mod_small by lia. done.
Qed.

(** ** Finite sums *)

Fixpoint zsum_n (f : Z -> Z) (n : nat) : Z :=
  match n with O => 0 | S n' => zsum_n f n' + f (Z.of_nat n') end.

(** [zsum f n = f 0 + ... + f (n - 1)] *)
Definition zsum (f : Z -> Z) (n : Z) : Z := zsum_n f (Z.to_nat n).

Section Sums.
Implicit Types f g : Z -> Z.

Lemma zsum_0 f : zsum f 0 = 0.
Proof. done. Qed.

Lemma zsum_succ f n : 0 <= n -> zsum f (n + 1) = zsum f n + f n.
Proof.
  intros. unfold zsum. replace (Z.to_nat (n + 1)) with (S (Z.to_nat n)) by lia. simpl. by rewrite Z2Nat.id.
Qed.

Lemma zsum_ext f g n : (forall i, 0 <= i < n -> f i = g i) -> zsum f n = zsum g n.
Proof.
  intros H. destruct (Z.le_ge_cases 0 n) as [Hn|]; [|unfold zsum; by replace (Z.to_nat n) with O by lia].
  revert n Hn H. refine (Zup_ind _ 0 _ _); [done|]. intros n Hn IH H.
  rewrite !zsum_succ, H, IH by (lia || (intros; apply H; lia)). done.
Qed.

Lemma zsum_app f a b : 0 <= a -> 0 <= b -> zsum f (a + b) = zsum f a + zsum (fun i => f (a + i)) b.
Proof.
  intros Ha Hb. revert b Hb. refine (Zup_ind _ 0 _ _); [rewrite zsum_0, !Z.add_0_r; done|].
  intros b Hb IH. rewrite Z.add_assoc, !zsum_succ, IH by lia. lia.
Qed.

(** A sum over the linear index is a double sum. *)
Lemma zsum_nest f n k :
  0 <= n -> 0 <= k -> zsum f (n * k) = zsum (fun i => zsum (fun j => f (i * k + j)) k) n.
Proof.
  intros Hn Hk. revert n Hn. refine (Zup_ind _ 0 _ _); [done|]. intros n Hn IH.
  rewrite zsum_succ by lia. replace ((n + 1) * k) with (n * k + k) by lia. rewrite zsum_app, IH by nia. done.
Qed.

Lemma zsum_bound f n b : 0 <= n -> (forall i, 0 <= i < n -> Z.abs (f i) <= b) -> Z.abs (zsum f n) <= n * b.
Proof.
  intros Hn. revert n Hn. refine (Zup_ind _ 0 _ _); [done|]. intros n Hn IH H.
  rewrite zsum_succ by lia. assert (Z.abs (zsum f n) <= n * b) by (apply IH; intros; apply H; lia).
  specialize (H n ltac:(lia)). lia.
Qed.
End Sums.

(** ** Automation *)

Create HintDb arr discriminated.
Create Rewrite HintDb arr.
#[export] Hint Resolve zlen_nonneg : arr.
#[export] Hint Rewrite @zlen_insert @zlen_app : arr.

(** [wp_simp] performs the administrative steps of a triple: binds, returns. *)
Ltac wp_simp :=
  repeat first
    [ apply wp_bind | apply wp_ret | progress (cbn beta iota) ].

(** [wp_get] reads a buffer, leaving the bounds to [t]. *)
Tactic Notation "wp_get" "by" tactic3(t) :=
  apply wp_bind; apply wp_aget; [t|].

(** [wp_set l' Hl Hn] writes a buffer. *)
Tactic Notation "wp_set" ident(l) ident(Hl) ident(Hn) "by" tactic3(t) :=
  apply wp_aset; [t|]; intros l Hl Hn.

(** Case analysis on the integer comparisons of the goal. *)
Ltac zcases :=
  repeat match goal with
  | |- context [?a =? ?b] => destruct (Z.eqb_spec a b)
  | |- context [?a <? ?b] => destruct (Z.ltb_spec a b)
  | |- context [?a <=? ?b] => destruct (Z.leb_spec a b)
  end.

(** ** Assertions *)

(** [assert(b)]: a failing assertion stops the program. *)
Definition assert_ (b : bool) : option unit := if b then Some tt else None.

Lemma wp_assert b (Q : unit -> Prop) : b = true -> Q tt -> wp (assert_ b) Q.
Proof. by intros ->. Qed.

(** ** Two-dimensional views

    [mat l n R f]: the buffer [l] holds an [R]-row matrix with rows of length
    [n], row-major, whose entry [(r, c)] is [f r c]. *)

Definition mat (l : list Z) (n R : Z) (f : Z -> Z -> Z) : Prop :=
  zlen l = R * n /\ forall r c, 0 <= r < R -> 0 <= c < n -> l.[r * n + c] = f r c.

Lemma idx2_bounds n R r c : 0 <= r < R -> 0 <= c < n -> 0 <= r * n + c < R * n.
Proof. nia. Qed.

Lemma idx2_eqb n r c r' c' :
  0 <= c < n -> 0 <= c' < n -> (r * n + c =? r' * n + c') = (r =? r') && (c =? c').
Proof.
  intros. destruct (Z.eqb_spec r r') as [->|Hr]; simpl.
  - destruct (Z.eqb_spec c c'); destruct (Z.eqb_spec (r' * n + c) (r' * n + c')); lia.
  - destruct (Z.eqb_spec (r * n + c) (r' * n + c')) as [He|]; [|done].
    exfalso. assert (r < r' \/ r' < r) as [|] by lia; nia.
Qed.

Section Mat.
Context (n R : Z).
Implicit Types (l : list Z) (f g : Z -> Z -> Z).

Lemma mat_ext l f g :
  mat l n R f -> (forall r c, 0 <= r < R -> 0 <= c < n -> f r c = g r c) -> mat l n R g.
Proof. intros [Hl Hf] H. split; [done|]. intros. rewrite Hf by done. by apply H. Qed.

Lemma wp_mget l f r c (Q : Z -> Prop) :
  mat l n R f -> 0 <= r < R -> 0 <= c < n -> Q (f r c) -> wp (aget l (r * n + c)) Q.
Proof.
  intros [Hl Hf] Hr Hc HQ. apply wp_aget.
  - rewrite Hl. by apply idx2_bounds.
  - by rewrite Hf.
Qed.

Lemma wp_mset l f r c v (Q : list Z -> Prop) :
  mat l n R f -> 0 <= r < R -> 0 <= c < n ->
  (forall l', mat l' n R (fun r' c' => if (r' =? r) && (c' =? c) then v else f r' c') -> Q l') ->
  wp (aset l (r * n + c) v) Q.
Proof.
  intros [Hl Hf] Hr Hc HQ. apply wp_aset.
  - rewrite Hl. by apply idx2_bounds.
  - intros l' Hl' Hn. apply HQ. split; [congruence|]. intros r' c' Hr' Hc'.
    rewrite Hn, idx2_eqb by done. destruct ((r' =? r) && (c' =? c)); [done|by apply Hf].
Qed.
End Mat.

Lemma mat_self l n R : 0 <= n -> zlen l = R * n -> mat l n R (fun r c => l.[r * n + c]).
Proof. done. Qed.
