(* ===== verification/Machine.v ===== *)
(** * Machine: compile-time configuration, machine integers and lanes

    Models [src/transformer_layers/util.h]: the configuration macros
    ([SA_SIZE], [ACTIVATION_BITS], ...), the derived geometry constants, the
    fixed-width types [activation_t], [u_activation_t] and [weight_t], and the
    two views of a 32-bit bus word the program uses: most-significant lane
    first (the order of the bus) and little-endian (the order seen through an
    [activation_t] pointer into a word buffer). *)

From stdpp Require Import prelude.
From Stdlib Require Import ZArith Lia.
From S2P Require Import Prelude.

(** ** Configuration (the [-D] macros of the build) *)

Class Config := {
  SA_SIZE : Z;
  ACTIVATION_BITS : Z;
  WEIGHT_BITS : Z;
  ACTIVATION_FP : bool;
  WEIGHT_FP : bool
}.

Definition CEILING_DIV (x y : Z) : Z := (x + y - 1) / y.
Definition BUS_WIDTH : Z := 32.

Section Geometry.
Context {cfg : Config}.

Definition KERNEL_DIM : Z := SA_SIZE.
Definition ACT_PER_BUS : Z := BUS_WIDTH / ACTIVATION_BITS.
Definition W_PER_BUS : Z := BUS_WIDTH / WEIGHT_BITS.
Definition ACTIVATION_MASK : Z := Z.shiftl 1 ACTIVATION_BITS - 1.
Definition WEIGHT_MASK : Z := Z.shiftl 1 WEIGHT_BITS - 1.
Definition MAX_ACT_COL : Z := CEILING_DIV KERNEL_DIM ACT_PER_BUS.
Definition MAX_W_COL : Z := CEILING_DIV KERNEL_DIM W_PER_BUS.
End Geometry.

(** ** Machine integers *)

(** Conversion to an unsigned [w]-bit integer. *)
Definition wrapU (w x : Z) : Z := x mod 2 ^ w.

(** Conversion to a signed [w]-bit integer (two's complement). *)
Definition wrapS (w x : Z) : Z := (x + 2 ^ (w - 1)) mod 2 ^ w - 2 ^ (w - 1).

Definition uint32 (x : Z) : Z := wrapU 32 x.
Definition int32 (x : Z) : Z := wrapS 32 x.
Definition uint64 (x : Z) : Z := wrapU 64 x.

Section Types.
Context {cfg : Config}.

(** [(activation_t) x], [(u_activation_t) x] and [(weight_t) x]: the typedefs
    pick the fixed-width type by the configured number of bits. *)
Definition activation_t (x : Z) : Z := wrapS ACTIVATION_BITS x.
Definition u_activation_t (x : Z) : Z := wrapU ACTIVATION_BITS x.
Definition weight_t (x : Z) : Z := wrapS WEIGHT_BITS x.
End Types.

(** ** Lanes of a word *)

(** Lane [n] of [x], lane [0] being the most significant of [per] lanes. *)
Definition lane_be (bits per x n : Z) : Z :=
  Z.land (Z.shiftr x (bits * (per - n - 1))) (Z.shiftl 1 bits - 1).

(** Lane [n] of [x], lane [0] being the least significant. *)
Definition lane_le (bits x n : Z) : Z :=
  Z.land (Z.shiftr x (bits * n)) (Z.ones bits).

(** The word [x] after storing [v] through a pointer to its lane [n]. *)
Definition set_lane_le (bits x n v : Z) : Z :=
  Z.lor (Z.ldiff x (Z.shiftl (Z.ones bits) (bits * n)))
        (Z.shiftl (Z.land v (Z.ones bits)) (bits * n)).

(** The word whose lane [i] (most significant first) is [f i]. *)
Fixpoint pack_n (bits per : Z) (f : Z -> Z) (n : nat) : Z :=
  match n with
  | O => 0
  | S n' => Z.lor (pack_n bits per f n')
                  (Z.shiftl (f (Z.of_nat n')) (bits * (per - Z.of_nat n' - 1)))
  end.
Definition pack (bits per : Z) (f : Z -> Z) : Z := pack_n bits per f (Z.to_nat per).

Section Lanes.
Context {cfg : Config}.

(** Element [e] of a word buffer seen as an array of [activation_t]. *)
Definition get_act (buf : list Z) (e : Z) : option Z :=
  w ← aget buf (e / ACT_PER_BUS);
  Some (activation_t (lane_le ACTIVATION_BITS w (e mod ACT_PER_BUS))).

(** The same element seen through a [u_activation_t] pointer. *)
Definition get_uact (buf : list Z) (e : Z) : option Z :=
  w ← aget buf (e / ACT_PER_BUS);
  Some (lane_le ACTIVATION_BITS w (e mod ACT_PER_BUS)).

(** Storing [v] (converted to the lane's width) at element [e]. *)
Definition set_act (buf : list Z) (e v : Z) : option (list Z) :=
  w ← aget buf (e / ACT_PER_BUS);
  aset buf (e / ACT_PER_BUS) (set_lane_le ACTIVATION_BITS w (e mod ACT_PER_BUS) v).
End Lanes.

(** ** Well-formed configurations

    The typedefs exist for 8, 16 and 32 bits only; the unions that give a
    floating-point view exist for 32-bit values only; [storeInput] asserts
    [KERNEL_DIM % 4 == 0]; the flat indices of the arrays are of type [int]. *)

Class WfConfig (cfg : Config) : Prop := {
  wf_act : ACTIVATION_BITS = 8 \/ ACTIVATION_BITS = 16 \/ ACTIVATION_BITS = 32;
  wf_weight : WEIGHT_BITS = 8 \/ WEIGHT_BITS = 16 \/ WEIGHT_BITS = 32;
  wf_size : 0 < SA_SIZE;
  wf_mod4 : SA_SIZE mod 4 = 0;
  wf_int : SA_SIZE * (SA_SIZE + 1) < 2 ^ 31;
  wf_act_fp : ACTIVATION_FP = true -> ACTIVATION_BITS = 32;
  wf_weight_fp : WEIGHT_FP = true -> WEIGHT_BITS = 32 /\ ACTIVATION_FP = true
}.

(** ** Lemmas on machine integers *)

Lemma wrapU_range w x : 0 <= w -> 0 <= wrapU w x < 2 ^ w.
Proof. intros. apply Z.mod_pos_bound. lia. Qed.

Lemma wrapU_small w x : 0 <= x < 2 ^ w -> wrapU w x = x.
Proof. apply Z.mod_small. Qed.

Lemma pow2_half w : 0 < w -> 2 ^ w = 2 * 2 ^ (w - 1).
Proof. intros. rewrite <- Z.pow_succ_r by lia. f_equal. lia. Qed.

Lemma wrapS_range w x : 0 < w -> - 2 ^ (w - 1) <= wrapS w x < 2 ^ (w - 1).
Proof.
  intros. unfold wrapS. pose proof (pow2_half w ltac:(done)).
  pose proof (Z.mod_pos_bound (x + 2 ^ (w - 1)) (2 ^ w) ltac:(lia)). lia.
Qed.

Lemma wrapS_small w x : 0 < w -> - 2 ^ (w - 1) <= x < 2 ^ (w - 1) -> wrapS w x = x.
Proof.
  intros. unfold wrapS. pose proof (pow2_half w ltac:(done)).
  rewrite Z.mod_small by lia. lia.
Qed.

Lemma wrapS_mod w x : 0 < w -> wrapS w x mod 2 ^ w = x mod 2 ^ w.
Proof.
  intros. unfold wrapS. rewrite Zminus_mod_idemp_l. f_equal. lia.
Qed.

Lemma wrapU_wrapS w x : 0 < w -> wrapU w (wrapS w x) = wrapU w x.
Proof. apply wrapS_mod. Qed.

Lemma wrapS_cong w x y : x mod 2 ^ w = y mod 2 ^ w -> wrapS w x = wrapS w y.
Proof. intros H. unfold wrapS. by rewrite Zplus_mod, H, <- Zplus_mod. Qed.

Lemma wrapS_wrapU w x : wrapS w (wrapU w x) = wrapS w x.
Proof. apply wrapS_cong. unfold wrapU. apply Zmod_mod. Qed.

Lemma mod_pow2_weaken a b x y :
  0 <= a <= b -> x mod 2 ^ b = y mod 2 ^ b -> x mod 2 ^ a = y mod 2 ^ a.
Proof.
  intros Hab H.
  assert (2 ^ a | 2 ^ b) as Hd.
  { exists (2 ^ (b - a)). rewrite <- Z.pow_add_r by lia. f_equal. lia. }
  rewrite <- (Z.mod_mod_divide x (2 ^ b) (2 ^ a)), <- (Z.mod_mod_divide y (2 ^ b) (2 ^ a)) by done.
  by rewrite H.
Qed.

(** ** Lemmas on lanes, by bits *)

Lemma testbit_high x w i : 0 <= x < 2 ^ w -> 0 <= w <= i -> Z.testbit x i = false.
Proof.
  intros. rewrite <- (Z.mod_small x (2 ^ w)) by done.
  apply Z.mod_pow2_bits_high. lia.
Qed.

Lemma lt_pow2_of_bits x w :
  0 <= x -> 0 <= w -> (forall i, w <= i -> Z.testbit x i = false) -> x < 2 ^ w.
Proof.
  intros Hx Hw H. apply Z.lt_nge. intros Hge.
  assert (0 < x) by (pose proof (Z.pow_pos_nonneg 2 w); lia).
  pose proof (Z.bit_log2 x ltac:(done)) as Hb.
  rewrite H in Hb; [done|]. apply Z.log2_le_pow2; lia.
Qed.

Lemma land_ones_testbit x w i :
  0 <= w -> Z.testbit (Z.land x (Z.ones w)) i = Z.testbit x i && (i <? w).
Proof.
  intros. destruct (Z.ltb_spec i 0).
  { rewrite !(Z.testbit_neg_r _ i) by done. done. }
  rewrite Z.land_spec, Z.testbit_ones by lia. f_equal.
  destruct (Z.leb_spec 0 i); [done|lia].
Qed.

Lemma mask_ones w : 0 <= w -> Z.shiftl 1 w - 1 = Z.ones w.
Proof. intros. rewrite Z.shiftl_1_l, Z.ones_equiv. lia. Qed.

Lemma lane_le_testbit bits x n i :
  0 <= bits -> 0 <= n ->
  Z.testbit (lane_le bits x n) i = (0 <=? i) && (i <? bits) && Z.testbit x (i + bits * n).
Proof.
  intros. unfold lane_le. rewrite land_ones_testbit by done.
  destruct (Z.leb_spec 0 i); simpl.
  - rewrite Z.shiftr_spec by done. apply andb_comm.
  - by rewrite Z.testbit_neg_r.
Qed.

Lemma lane_be_le bits per x n :
  0 <= bits -> lane_be bits per x n = lane_le bits x (per - n - 1).
Proof. intros. unfold lane_be, lane_le. by rewrite mask_ones. Qed.

Lemma lane_le_range bits x n : 0 <= bits -> 0 <= lane_le bits x n < 2 ^ bits.
Proof.
  intros. unfold lane_le. rewrite Z.land_ones by done.
  apply Z.mod_pos_bound. lia.
Qed.

Lemma lane_be_range bits per x n : 0 <= bits -> 0 <= lane_be bits per x n < 2 ^ bits.
Proof. intros. rewrite lane_be_le by done. by apply lane_le_range. Qed.

Lemma lane_le_0 bits n : lane_le bits 0 n = 0.
Proof. unfold lane_le. by rewrite Z.shiftr_0_l. Qed.

Lemma lane_be_0 bits per n : lane_be bits per 0 n = 0.
Proof. unfold lane_be. by rewrite Z.shiftr_0_l. Qed.

(** Two bit positions in the same lane, from lane arithmetic. *)
Lemma lane_pos_unique bits i j a b :
  0 < bits -> 0 <= a < bits -> 0 <= b < bits ->
  a + bits * i = b + bits * j -> i = j /\ a = b.
Proof. intros. assert (i = j) by nia. subst. lia. Qed.

Lemma lane_set_lane bits x n v m :
  0 < bits -> 0 <= n -> 0 <= m ->
  lane_le bits (set_lane_le bits x n v) m =
    if m =? n then Z.land v (Z.ones bits) else lane_le bits x m.
Proof.
  intros Hb Hn Hm. apply Z.bits_inj'. intros i Hi.
  rewrite lane_le_testbit by lia. unfold set_lane_le.
  destruct (Z.leb_spec 0 i); [|lia]. simpl.
  rewrite Z.lor_spec, Z.ldiff_spec, !Z.shiftl_spec, land_ones_testbit, Z.testbit_ones by nia.
  destruct (Z.ltb_spec i bits) as [Hib|Hib]; simpl.
  - destruct (Z.eqb_spec m n) as [->|Hne].
    + rewrite land_ones_testbit by lia.
      replace (i + bits * n - bits * n) with i by lia. zcases; try lia; simpl.
      rewrite andb_false_r. done.
    + rewrite lane_le_testbit by lia.
      assert (i + bits * m - bits * n < 0 \/ bits <= i + bits * m - bits * n) as [Hk|Hk] by nia.
      * rewrite (Z.testbit_neg_r v) by lia. zcases; try lia. simpl.
        by rewrite andb_true_r, orb_false_r.
      * zcases; try lia. simpl. by rewrite andb_false_r, andb_true_r, orb_false_r.
  - destruct (Z.eqb_spec m n).
    + rewrite land_ones_testbit by lia. zcases; try lia; by rewrite ?andb_false_r.
    + rewrite lane_le_testbit by lia. zcases; try lia; done.
Qed.

Lemma set_lane_range bits per x n v :
  0 < bits -> 0 <= n < per -> 0 <= x < 2 ^ (bits * per) ->
  0 <= set_lane_le bits x n v < 2 ^ (bits * per).
Proof.
  intros Hb Hn Hx.
  assert (0 <= set_lane_le bits x n v).
  { unfold set_lane_le. apply Z.lor_nonneg. split.
    - apply Z.ldiff_nonneg. lia.
    - apply Z.shiftl_nonneg. apply Z.land_nonneg. right. rewrite Z.ones_equiv. lia. }
  split; [done|]. apply lt_pow2_of_bits; [done|nia|]. intros i Hi.
  assert (0 <= i) by nia.
  unfold set_lane_le. rewrite Z.lor_spec, Z.ldiff_spec, !Z.shiftl_spec, land_ones_testbit by lia.
  rewrite (testbit_high x _ i Hx) by nia. simpl.
  zcases; try nia; by rewrite ?andb_false_r.
Qed.

(** Words are determined by their lanes. *)
Lemma lanes_ext bits per x y :
  0 < bits -> 0 < per -> 0 <= x < 2 ^ (bits * per) -> 0 <= y < 2 ^ (bits * per) ->
  (forall n, 0 <= n < per -> lane_le bits x n = lane_le bits y n) -> x = y.
Proof.
  intros Hb Hp Hx Hy H. apply Z.bits_inj'. intros i Hi.
  destruct (Z.lt_ge_cases i (bits * per)) as [Hlt|Hge].
  - pose proof (Z.div_mod i bits ltac:(lia)) as Hdm.
    pose proof (Z.mod_pos_bound i bits Hb).
    assert (0 <= i / bits < per) as Hq.
    { split; [apply Z.div_pos; lia|]. apply Z.div_lt_upper_bound; lia. }
    specialize (H _ Hq). apply (f_equal (fun z => Z.testbit z (i mod bits))) in H.
    rewrite !lane_le_testbit in H by lia.
    replace (i mod bits + bits * (i / bits)) with i in H by lia.
    destruct (Z.leb_spec 0 (i mod bits)); [|lia].
    destruct (Z.ltb_spec (i mod bits) bits); [done|lia].
  - by rewrite (testbit_high x _ i Hx), (testbit_high y _ i Hy) by nia.
Qed.

Lemma pack_n_testbit bits per f n i :
  0 < bits -> Z.of_nat n <= per -> 0 <= i ->
  (forall k, 0 <= k < Z.of_nat n -> 0 <= f k < 2 ^ bits) ->
  Z.testbit (pack_n bits per f n) i =
    let q := per - i / bits - 1 in
    (0 <=? q) && (q <? Z.of_nat n) && Z.testbit (f q) (i mod bits).
Proof.
  intros Hb. induction n as [|n IH]; intros Hn Hi Hf; simpl pack_n.
  - rewrite Z.testbit_0_l. cbv zeta. zcases; try done. lia.
  - rewrite Z.lor_spec, IH by (try lia; intros; apply Hf; lia).
    rewrite Z.shiftl_spec by lia. cbv zeta.
    pose proof (Z.div_mod i bits ltac:(lia)). pose proof (Z.mod_pos_bound i bits Hb).
    set (q := per - i / bits - 1) in *.
    destruct (Z.eq_dec q (Z.of_nat n)) as [Hq|Hq].
    + rewrite Hq. zcases; try lia; simpl. f_equal. nia.
    + replace (Z.testbit (f (Z.of_nat n)) (i - bits * (per - Z.of_nat n - 1))) with false.
      { rewrite orb_false_r. zcases; try lia; done. }
      symmetry. destruct (Z.lt_ge_cases q (Z.of_nat n)).
      * apply (testbit_high _ bits); [apply Hf; lia|nia].
      * apply Z.testbit_neg_r. nia.
Qed.

Lemma pack_n_nonneg bits per f n :
  (forall k, 0 <= k < Z.of_nat n -> 0 <= f k) -> 0 <= pack_n bits per f n.
Proof.
  induction n as [|n IH]; intros Hf; simpl; [done|].
  apply Z.lor_nonneg. split; [apply IH; intros; apply Hf; lia|].
  apply Z.shiftl_nonneg. apply Hf. lia.
Qed.

Lemma pack_range bits per f :
  0 < bits -> 0 < per -> (forall k, 0 <= k < per -> 0 <= f k < 2 ^ bits) ->
  0 <= pack bits per f < 2 ^ (bits * per).
Proof.
  intros Hb Hp Hf. unfold pack.
  assert (0 <= pack_n bits per f (Z.to_nat per)) by (apply pack_n_nonneg; intros; apply Hf; lia).
  split; [done|]. apply lt_pow2_of_bits; [done|nia|]. intros i Hi.
  assert (0 <= i) by nia.
  rewrite pack_n_testbit by (try lia; intros; apply Hf; lia). cbv zeta.
  assert (per <= i / bits) by (apply Z.div_le_lower_bound; lia).
  zcases; try lia; done.
Qed.

Lemma lane_be_pack bits per f n :
  0 < bits -> 0 <= n < per -> (forall k, 0 <= k < per -> 0 <= f k < 2 ^ bits) ->
  lane_be bits per (pack bits per f) n = f n.
Proof.
  intros Hb Hn Hf. rewrite lane_be_le by lia. apply Z.bits_inj'. intros i Hi.
  rewrite lane_le_testbit by lia.
  destruct (Z.leb_spec 0 i); [|lia]. simpl.
  destruct (Z.ltb_spec i bits).
  - unfold pack. rewrite pack_n_testbit by (try nia; intros; apply Hf; lia). cbv zeta.
    assert ((i + bits * (per - n - 1)) / bits = per - n - 1) as ->.
    { rewrite Z.mul_comm, Z.div_add, Z.div_small by lia. lia. }
    assert ((i + bits * (per - n - 1)) mod bits = i) as ->.
    { rewrite Z.mul_comm, Z.mod_add, Z.mod_small by lia. lia. }
    replace (per - (per - n - 1) - 1) with n by lia. zcases; try lia; done.
  - simpl. symmetry. apply (testbit_high _ bits); [by apply Hf|lia].
Qed.

Lemma pack_ext bits per f g :
  (forall k, 0 <= k < per -> f k = g k) -> pack bits per f = pack bits per g.
Proof.
  intros H. unfold pack.
  assert (forall n, Z.of_nat n <= Z.max 0 per -> pack_n bits per f n = pack_n bits per g n) as Hg.
  { induction n as [|n IH]; intros; simpl; [done|]. rewrite IH, H by lia. done. }
  apply Hg. lia.
Qed.

Lemma lane_le_wrapU bits w x n :
  0 < bits -> 0 <= n -> bits * (n + 1) <= w -> lane_le bits (wrapU w x) n = lane_le bits x n.
Proof.
  intros Hb Hn Hw. apply Z.bits_inj'. intros i Hi. rewrite !lane_le_testbit by lia.
  destruct (Z.ltb_spec i bits); [|by rewrite !andb_false_r].
  f_equal. unfold wrapU. rewrite Z.mod_pow2_bits_low; [done|nia].
Qed.

Lemma uint32_int32_uint64 v : uint32 (int32 (uint64 v)) = uint32 v.
Proof.
  unfold uint32, int32, uint64. rewrite wrapU_wrapS by lia. unfold wrapU.
  symmetry. apply (mod_pow2_weaken 32 64); [lia|]. by rewrite Zmod_mod.
Qed.

Lemma int32_uint64_small v : - 2 ^ 31 <= v < 2 ^ 31 -> int32 (uint64 v) = v.
Proof.
  intros. unfold int32, uint64. rewrite <- (wrapS_small 32 v) at 2 by (simpl; lia).
  apply wrapS_cong. apply (mod_pow2_weaken 32 64); [lia|]. unfold wrapU. by rewrite Zmod_mod.
Qed.

Lemma uint64_of_uint32 v : 0 <= v < 2 ^ 32 -> uint64 v = v.
Proof. intros. apply wrapU_small. lia. Qed.

(** ** Geometry lemmas *)

Section WfGeometry.
Context {cfg : Config} {wf : WfConfig cfg}.

Lemma act_bits_pos : 0 < ACTIVATION_BITS.
Proof. destruct wf_act as [-> | [-> | ->]]; lia. Qed.

Lemma act_bits_le : ACTIVATION_BITS <= 32.
Proof. destruct wf_act as [-> | [-> | ->]]; lia. Qed.

Lemma weight_bits_pos : 0 < WEIGHT_BITS.
Proof. destruct wf_weight as [-> | [-> | ->]]; lia. Qed.

Lemma weight_bits_le : WEIGHT_BITS <= 32.
Proof. destruct wf_weight as [-> | [-> | ->]]; lia. Qed.

Lemma act_per_bus_cases : ACT_PER_BUS = 1 \/ ACT_PER_BUS = 2 \/ ACT_PER_BUS = 4.
Proof. unfold ACT_PER_BUS, BUS_WIDTH. destruct wf_act as [-> | [-> | ->]]; vm_compute; tauto. Qed.

Lemma w_per_bus_cases : W_PER_BUS = 1 \/ W_PER_BUS = 2 \/ W_PER_BUS = 4.
Proof. unfold W_PER_BUS, BUS_WIDTH. destruct wf_weight as [-> | [-> | ->]]; vm_compute; tauto. Qed.

Lemma act_per_bus_pos : 0 < ACT_PER_BUS.
Proof. destruct act_per_bus_cases as [-> | [-> | ->]]; lia. Qed.

Lemma w_per_bus_pos : 0 < W_PER_BUS.
Proof. destruct w_per_bus_cases as [-> | [-> | ->]]; lia. Qed.

Lemma act_bits_bus : ACTIVATION_BITS * ACT_PER_BUS = 32.
Proof. unfold ACT_PER_BUS, BUS_WIDTH. destruct wf_act as [-> | [-> | ->]]; reflexivity. Qed.

Lemma weight_bits_bus : WEIGHT_BITS * W_PER_BUS = 32.
Proof. unfold W_PER_BUS, BUS_WIDTH. destruct wf_weight as [-> | [-> | ->]]; reflexivity. Qed.

Lemma kernel_dim_pos : 4 <= KERNEL_DIM.
Proof.
  unfold KERNEL_DIM. pose proof wf_size. pose proof wf_mod4.
  pose proof (Z.div_mod SA_SIZE 4). lia.
Qed.

Lemma ceil_div_exact x y q : 0 < y -> x = y * q -> CEILING_DIV x y = q.
Proof.
  intros Hy ->. unfold CEILING_DIV.
  replace (y * q + y - 1) with (y - 1 + q * y) by lia.
  rewrite Z.div_add, Z.div_small by lia. lia.
Qed.

Lemma kernel_div4 : exists q, SA_SIZE = 4 * q.
Proof. exists (SA_SIZE / 4). pose proof (Z.div_mod SA_SIZE 4). pose proof wf_mod4. lia. Qed.

Lemma max_act_col_spec : KERNEL_DIM = MAX_ACT_COL * ACT_PER_BUS.
Proof.
  destruct kernel_div4 as [q Hq]. unfold MAX_ACT_COL, KERNEL_DIM.
  destruct act_per_bus_cases as [-> | [-> | ->]].
  - rewrite (ceil_div_exact _ _ SA_SIZE) by lia. lia.
  - rewrite (ceil_div_exact _ _ (2 * q)) by lia. lia.
  - rewrite (ceil_div_exact _ _ q) by lia. lia.
Qed.

Lemma max_w_col_spec : KERNEL_DIM = MAX_W_COL * W_PER_BUS.
Proof.
  destruct kernel_div4 as [q Hq]. unfold MAX_W_COL, KERNEL_DIM.
  destruct w_per_bus_cases as [-> | [-> | ->]].
  - rewrite (ceil_div_exact _ _ SA_SIZE) by lia. lia.
  - rewrite (ceil_div_exact _ _ (2 * q)) by lia. lia.
  - rewrite (ceil_div_exact _ _ q) by lia. lia.
Qed.

Lemma max_act_col_pos : 0 < MAX_ACT_COL.
Proof. pose proof max_act_col_spec. pose proof kernel_dim_pos. pose proof act_per_bus_pos. nia. Qed.

Lemma max_w_col_pos : 0 < MAX_W_COL.
Proof. pose proof max_w_col_spec. pose proof kernel_dim_pos. pose proof w_per_bus_pos. nia. Qed.
End WfGeometry.

(** ** Elements of a word buffer *)

Section Elements.
Context {cfg : Config} {wf : WfConfig cfg}.

(** Element [e] of a buffer as an unsigned number, for specifications. *)
Definition uelem (buf : list Z) (e : Z) : Z := lane_le ACTIVATION_BITS buf.[e / ACT_PER_BUS] (e mod ACT_PER_BUS).

Definition elements (buf : list Z) : Z := zlen buf * ACT_PER_BUS.

Lemma elem_word buf e : 0 <= e < elements buf -> 0 <= e / ACT_PER_BUS < zlen buf.
Proof.
  intros He. pose proof act_per_bus_pos. unfold elements in He.
  split; [apply Z.div_pos; lia|apply Z.div_lt_upper_bound; lia].
Qed.

Lemma uelem_range buf e : 0 <= uelem buf e < 2 ^ ACTIVATION_BITS.
Proof. apply lane_le_range. pose proof act_bits_pos. lia. Qed.

Lemma wp_get_uact buf e (Q : Z -> Prop) :
  0 <= e < elements buf -> Q (uelem buf e) -> wp (get_uact buf e) Q.
Proof. intros He HQ. apply wp_bind, wp_aget; [by apply elem_word|]. done. Qed.

Lemma wp_get_act buf e (Q : Z -> Prop) :
  0 <= e < elements buf -> Q (activation_t (uelem buf e)) -> wp (get_act buf e) Q.
Proof. intros He HQ. apply wp_bind, wp_aget; [by apply elem_word|]. done. Qed.

Lemma wp_set_act_word buf e v (Q : list Z -> Prop) :
  0 <= e < elements buf ->
  (forall buf', zlen buf' = zlen buf ->
     (forall e', uelem buf' e' = if e' =? e then u_activation_t v else uelem buf e') ->
     (forall k, k <> e / ACT_PER_BUS -> buf'.[k] = buf.[k]) -> Q buf') ->
  wp (set_act buf e v) Q.
Proof.
  intros He HQ. pose proof act_per_bus_pos as HA. pose proof act_bits_pos as HB. unfold set_act.
  apply wp_bind, wp_aget; [by apply elem_word|]. apply wp_aset; [by apply elem_word|].
  intros buf' Hl Hb. apply HQ; [done| |intros k Hk; rewrite Hb; by zcases].
  intros e'. unfold uelem. rewrite Hb.
  assert (0 <= e mod ACT_PER_BUS < ACT_PER_BUS) by (apply Z.mod_pos_bound; lia).
  assert (0 <= e' mod ACT_PER_BUS < ACT_PER_BUS) by (apply Z.mod_pos_bound; lia).
  destruct (Z.eqb_spec (e' / ACT_PER_BUS) (e / ACT_PER_BUS)) as [Hd|Hd].
  - rewrite lane_set_lane by lia. rewrite Z.land_ones by lia.
    assert ((e' mod ACT_PER_BUS =? e mod ACT_PER_BUS) = (e' =? e)) as ->; [|by rewrite Hd].
    assert (e = ACT_PER_BUS * (e / ACT_PER_BUS) + e mod ACT_PER_BUS) by (apply Z.div_mod; lia).
    assert (e' = ACT_PER_BUS * (e' / ACT_PER_BUS) + e' mod ACT_PER_BUS) by (apply Z.div_mod; lia).
    rewrite Hd in *. zcases; try done; try (subst; done); nia.
  - destruct (Z.eqb_spec e' e) as [->|]; done.
Qed.

Lemma wp_set_act buf e v (Q : list Z -> Prop) :
  0 <= e < elements buf ->
  (forall buf', zlen buf' = zlen buf ->
     (forall e', uelem buf' e' = if e' =? e then u_activation_t v else uelem buf e') -> Q buf') ->
  wp (set_act buf e v) Q.
Proof. intros He HQ. apply wp_set_act_word; [done|]. intros buf' Hl Hb _. by apply HQ. Qed.
End Elements.

Create HintDb geom discriminated.
#[export] Hint Resolve act_bits_pos act_bits_le weight_bits_pos weight_bits_le
  act_per_bus_pos w_per_bus_pos kernel_dim_pos max_act_col_pos max_w_col_pos : geom.

(** [geometry] puts the facts about a well-formed geometry into the context. *)
Ltac geometry :=
  let H := fresh "Hgeo" in pose proof kernel_dim_pos as H;
  let H := fresh "Hgeo" in pose proof act_per_bus_pos as H;
  let H := fresh "Hgeo" in pose proof w_per_bus_pos as H;
  let H := fresh "Hgeo" in pose proof max_act_col_pos as H;
  let H := fresh "Hgeo" in pose proof max_w_col_pos as H;
  let H := fresh "Hgeo" in pose proof act_bits_pos as H;
  let H := fresh "Hgeo" in pose proof weight_bits_pos as H;
  let H := fresh "Hgeo" in pose proof act_bits_le as H;
  let H := fresh "Hgeo" in pose proof weight_bits_le as H.

(** The concrete configurations used in examples and witnesses. *)
Definition int8_cfg (n : Z) : Config :=
  {| SA_SIZE := n; ACTIVATION_BITS := 8; WEIGHT_BITS := 8;
     ACTIVATION_FP := false; WEIGHT_FP := false |}.
Definition fp32_cfg (n : Z) : Config :=
  {| SA_SIZE := n; ACTIVATION_BITS := 32; WEIGHT_BITS := 8;
     ACTIVATION_FP := true; WEIGHT_FP := false |}.

Lemma int8_wf n : 0 < n < 2 ^ 15 -> n mod 4 = 0 -> WfConfig (int8_cfg n).
Proof. intros. split; simpl; try tauto; try done; nia. Qed.

Lemma fp32_wf n : 0 < n < 2 ^ 15 -> n mod 4 = 0 -> WfConfig (fp32_cfg n).
Proof. intros. split; simpl; try tauto; try done; nia. Qed.

#[export] Instance int8_wf4 : WfConfig (int8_cfg 4).
Proof. by apply int8_wf. Qed.
#[export] Instance int8_wf8 : WfConfig (int8_cfg 8).
Proof. by apply int8_wf. Qed.
#[export] Instance fp32_wf4 : WfConfig (fp32_cfg 4).
Proof. by apply fp32_wf. Qed.
