(* ===== verification/Bitfield.v ===== *)
(** * Bitfield: bit manipulation of the simulator

    Translates [gem5-X-TiC-SAT/src/base/bitfield.hh] at the type [uint64_t]: a
    value is a [Z] in [0, 2 ^ 64), bit positions are [Z].  The decoder of the
    accelerator instructions and the interleaved address ranges are written with
    these functions. *)

From stdpp Require Import prelude.
From Stdlib Require Import ZArith Lia.
From S2P Require Import Prelude Machine.

(** [(nbits == 64) ? (uint64_t) -1LL : (1ULL << nbits) - 1] *)
Definition mask (nbits : Z) : Z := if nbits =? 64 then uint64 (-1) else uint64 (Z.shiftl 1 nbits - 1).

(** The bits [first] down to [last] of [val], right justified. *)
Definition bits (val first last : Z) : Z :=
  let nbits := first - last + 1 in
  Z.land (Z.shiftr val last) (mask nbits).

Definition bit_at (val bit : Z) : Z := bits val bit bit.

(** [val & (mask(first + 1) & ~mask(last))] *)
Definition mbits (val first last : Z) : Z :=
  Z.land val (Z.land (mask (first + 1)) (uint64 (Z.lnot (mask last)))).

Definition mask_range (first last : Z) : Z := mbits (uint64 (-1)) first last.

(** Sign extension of an [N]-bit value to 64 bits. *)
Definition sext (N val : Z) : Z :=
  let sign_bit := bits val (N - 1) (N - 1) in
  if negb (sign_bit =? 0) then Z.lor val (uint64 (Z.lnot (mask N))) else val.

Definition insertBits (val first last bit_val : Z) : Z :=
  let bmask := uint64 (Z.shiftl (mask (first - last + 1)) last) in
  Z.lor (Z.land (uint64 (Z.shiftl bit_val last)) bmask) (Z.land val (uint64 (Z.lnot bmask))).

(** [replaceBits] assigns [insertBits] to its first argument. *)
Definition replaceBits (val first last bit_val : Z) : Z := insertBits val first last bit_val.

(** One step of the two searches: [if (cond) { n += k; val >>= k; }] *)
Definition search_step (cond : Z -> bool) (k : Z) (st : Z * Z) : Z * Z :=
  let '(n, val) := st in if cond val then (n + k, Z.shiftr val k) else (n, val).

Definition findMsbSet (val : Z) : Z :=
  if val =? 0 then 0 else
  let nonzero hi lo v := negb (bits v hi lo =? 0) in
  let st := search_step (nonzero 63 32) 32 (0, val) in
  let st := search_step (nonzero 31 16) 16 st in
  let st := search_step (nonzero 15 8) 8 st in
  let st := search_step (nonzero 7 4) 4 st in
  let st := search_step (nonzero 3 2) 2 st in
  let '(msb, val) := st in
  if nonzero 1 1 val then msb + 1 else msb.

Definition findLsbSet (val : Z) : Z :=
  if val =? 0 then 64 else
  let zero hi v := bits v hi 0 =? 0 in
  let st := search_step (zero 31) 32 (0, val) in
  let st := search_step (zero 15) 16 st in
  let st := search_step (zero 7) 8 st in
  let st := search_step (zero 3) 4 st in
  let st := search_step (zero 1) 2 st in
  let '(lsb, val) := st in
  if zero 0 val then lsb + 1 else lsb.

Definition isPow2 (v : Z) : bool := Z.land v (uint64 (v - 1)) =? 0.

(** ** Bit reversal *)

(** The table of reversed bytes of [bitfield.cc]. *)
Definition reverseLookUpTable : list Z :=
  [0x00; 0x80; 0x40; 0xC0; 0x20; 0xA0; 0x60; 0xE0; 0x10; 0x90; 0x50; 0xD0; 0x30; 0xB0; 0x70; 0xF0;
   0x08; 0x88; 0x48; 0xC8; 0x28; 0xA8; 0x68; 0xE8; 0x18; 0x98; 0x58; 0xD8; 0x38; 0xB8; 0x78; 0xF8;
   0x04; 0x84; 0x44; 0xC4; 0x24; 0xA4; 0x64; 0xE4; 0x14; 0x94; 0x54; 0xD4; 0x34; 0xB4; 0x74; 0xF4;
   0x0C; 0x8C; 0x4C; 0xCC; 0x2C; 0xAC; 0x6C; 0xEC; 0x1C; 0x9C; 0x5C; 0xDC; 0x3C; 0xBC; 0x7C; 0xFC;
   0x02; 0x82; 0x42; 0xC2; 0x22; 0xA2; 0x62; 0xE2; 0x12; 0x92; 0x52; 0xD2; 0x32; 0xB2; 0x72; 0xF2;
   0x0A; 0x8A; 0x4A; 0xCA; 0x2A; 0xAA; 0x6A; 0xEA; 0x1A; 0x9A; 0x5A; 0xDA; 0x3A; 0xBA; 0x7A; 0xFA;
   0x06; 0x86; 0x46; 0xC6; 0x26; 0xA6; 0x66; 0xE6; 0x16; 0x96; 0x56; 0xD6; 0x36; 0xB6; 0x76; 0xF6;
   0x0E; 0x8E; 0x4E; 0xCE; 0x2E; 0xAE; 0x6E; 0xEE; 0x1E; 0x9E; 0x5E; 0xDE; 0x3E; 0xBE; 0x7E; 0xFE;
   0x01; 0x81; 0x41; 0xC1; 0x21; 0xA1; 0x61; 0xE1; 0x11; 0x91; 0x51; 0xD1; 0x31; 0xB1; 0x71; 0xF1;
   0x09; 0x89; 0x49; 0xC9; 0x29; 0xA9; 0x69; 0xE9; 0x19; 0x99; 0x59; 0xD9; 0x39; 0xB9; 0x79; 0xF9;
   0x05; 0x85; 0x45; 0xC5; 0x25; 0xA5; 0x65; 0xE5; 0x15; 0x95; 0x55; 0xD5; 0x35; 0xB5; 0x75; 0xF5;
   0x0D; 0x8D; 0x4D; 0xCD; 0x2D; 0xAD; 0x6D; 0xED; 0x1D; 0x9D; 0x5D; 0xDD; 0x3D; 0xBD; 0x7D; 0xFD;
   0x03; 0x83; 0x43; 0xC3; 0x23; 0xA3; 0x63; 0xE3; 0x13; 0x93; 0x53; 0xD3; 0x33; 0xB3; 0x73; 0xF3;
   0x0B; 0x8B; 0x4B; 0xCB; 0x2B; 0xAB; 0x6B; 0xEB; 0x1B; 0x9B; 0x5B; 0xDB; 0x3B; 0xBB; 0x7B; 0xFB;
   0x07; 0x87; 0x47; 0xC7; 0x27; 0xA7; 0x67; 0xE7; 0x17; 0x97; 0x57; 0xD7; 0x37; 0xB7; 0x77; 0xF7;
   0x0F; 0x8F; 0x4F; 0xCF; 0x2F; 0xAF; 0x6F; 0xEF; 0x1F; 0x9F; 0x5F; 0xDF; 0x3F; 0xBF; 0x7F; 0xFF].

(** [reverseBits(val, size)] at the type [uint64_t]. *)
Definition reverseBits (val size : Z) : option Z :=
  _ ← assert_ (size <=? 8);
  '(output, _) ← for_up 0 size (fun _ '(output, val) =>
    b ← aget reverseLookUpTable (Z.land val 0xFF);
    Some (Z.lor (uint64 (Z.shiftl output 8)) b, Z.shiftr val 8)) (0, val);
  Some output.

(** [val |= val >> k] *)
Definition smear (k val : Z) : Z := Z.lor val (Z.shiftr val k).

Definition alignToPowerOfTwo (val : Z) : Z :=
  let val := uint64 (val - 1) in
  let val := smear 1 val in
  let val := smear 2 val in
  let val := smear 4 val in
  let val := smear 8 val in
  let val := smear 16 val in
  let val := smear 32 val in
  uint64 (val + 1).

(** ** Lemmas *)

Lemma mask_ones_eq n : 0 <= n <= 64 -> mask n = Z.ones n.
Proof.
  intros Hn. unfold mask. destruct (Z.eqb_spec n 64) as [->|]; [reflexivity|].
  rewrite mask_ones by lia. apply wrapU_small. rewrite Z.ones_equiv.
  assert (0 < 2 ^ n) by (apply Z.pow_pos_nonneg; lia).
  assert (2 ^ n <= 2 ^ 64) by (apply Z.pow_le_mono_r; lia). lia.
Qed.

Lemma bits_testbit val first last i :
  0 <= last <= first -> first < 64 + last -> 0 <= i ->
  Z.testbit (bits val first last) i = (i <=? first - last) && Z.testbit val (i + last).
Proof.
  intros Hl Hf Hi. unfold bits. rewrite mask_ones_eq, land_ones_testbit, Z.shiftr_spec by lia.
  rewrite andb_comm. f_equal. zcases; lia || done.
Qed.

Lemma bits_range val first last :
  0 <= last <= first -> first < 64 + last -> 0 <= bits val first last < 2 ^ (first - last + 1).
Proof.
  intros. unfold bits. rewrite mask_ones_eq, Z.land_ones by lia. apply Z.mod_pos_bound. apply Z.pow_pos_nonneg; lia.
Qed.

(** A field is zero exactly when the value has no bit in it. *)
Lemma bits_div val first last :
  0 <= last <= first -> first < 64 + last ->
  bits val first last = (val / 2 ^ last) mod 2 ^ (first - last + 1).
Proof.
  intros. unfold bits. rewrite mask_ones_eq, Z.land_ones, Z.shiftr_div_pow2 by lia. done.
Qed.

Lemma uint64_testbit x i : 0 <= i -> Z.testbit (uint64 x) i = (i <? 64) && Z.testbit x i.
Proof.
  intros Hi. unfold uint64, wrapU. destruct (Z.ltb_spec i 64).
  - by rewrite Z.mod_pow2_bits_low by lia.
  - by rewrite Z.mod_pow2_bits_high by lia.
Qed.

Lemma insertBits_testbit val first last v i :
  0 <= last <= first -> first < 64 -> 0 <= i -> 0 <= val < 2 ^ 64 ->
  Z.testbit (insertBits val first last v) i =
    if (last <=? i) && (i <=? first) then Z.testbit v (i - last) else Z.testbit val i.
Proof.
  intros Hl Hf Hi Hv. unfold insertBits. rewrite mask_ones_eq by lia.
  rewrite Z.lor_spec, !Z.land_spec, !uint64_testbit, Z.lnot_spec, !uint64_testbit, !Z.shiftl_spec by lia.
  destruct (Z.ltb_spec i 64) as [Hi64|Hi64].
  - destruct (Z.leb_spec last i).
    + rewrite Z.testbit_ones by lia. zcases; try lia; simpl; by rewrite ?andb_true_r, ?andb_false_r, ?orb_false_r, ?orb_false_l.
    + rewrite !(Z.testbit_neg_r _ (i - last)) by lia. simpl. by rewrite andb_true_r.
  - rewrite (testbit_high val 64 i) by lia. zcases; try lia; done.
Qed.

(** ** The searches *)

Lemma shiftr_log2 val k : 0 <= k -> 2 ^ k <= val -> Z.log2 val = k + Z.log2 (Z.shiftr val k).
Proof.
  intros Hk Hv. assert (0 < 2 ^ k) by (apply Z.pow_pos_nonneg; lia).
  rewrite Z.log2_shiftr by lia. pose proof (Z.log2_le_pow2 val k ltac:(lia)) as H1.
  assert (k <= Z.log2 val) by (by apply H1). lia.
Qed.

(** One halving step of [findMsbSet]. *)
Lemma msb_step w val n (L : Z) :
  0 < w <= 32 -> 0 < val < 2 ^ (2 * w) -> L = n + Z.log2 val ->
  let '(n', v') := search_step (fun v => negb (bits v (2 * w - 1) w =? 0)) w (n, val) in
  0 < v' < 2 ^ w /\ L = n' + Z.log2 v'.
Proof.
  intros Hw Hv HL. assert (0 < 2 ^ w) by (apply Z.pow_pos_nonneg; lia).
  assert (2 ^ (2 * w) = 2 ^ w * 2 ^ w) as E by (rewrite <- Z.pow_add_r by lia; f_equal; lia).
  unfold search_step. rewrite bits_div by lia. replace (2 * w - 1 - w + 1) with w by lia.
  assert (0 <= val / 2 ^ w < 2 ^ w) as Hq by (split; [apply Z.div_pos; lia|apply Z.div_lt_upper_bound; lia]).
  rewrite Z.mod_small by done. destruct (Z.eqb_spec (val / 2 ^ w) 0) as [Hz|Hz]; simpl.
  - split; [|done]. apply Z.div_small_iff in Hz; lia.
  - rewrite Z.shiftr_div_pow2 by lia. split; [lia|].
    assert (2 ^ w <= val) as Hge.
    { apply Z.nlt_ge. intros Hlt. apply Hz. apply Z.div_small. lia. }
    rewrite HL, (shiftr_log2 val w) by lia. rewrite Z.shiftr_div_pow2 by lia. lia.
Qed.

Lemma log2_2bits v : 0 < v < 2 ^ 2 -> Z.log2 v = if v <? 2 then 0 else 1.
Proof.
  intros Hv. assert (v = 1 \/ v = 2 \/ v = 3) as [-> | [-> | ->]] by lia; reflexivity.
Qed.

Lemma findMsbSet_log2 val : 0 < val < 2 ^ 64 -> findMsbSet val = Z.log2 val.
Proof.
  intros Hv. unfold findMsbSet. destruct (Z.eqb_spec val 0); [lia|].
  pose proof (msb_step 32 val 0 (Z.log2 val) ltac:(lia) Hv ltac:(lia)) as H1.
  change (2 * 32 - 1) with 63 in H1. destruct (search_step _ 32 (0, val)) as [n1 v1]. destruct H1 as [R1 L1].
  pose proof (msb_step 16 v1 n1 (Z.log2 val) ltac:(lia) R1 L1) as H2.
  change (2 * 16 - 1) with 31 in H2. destruct (search_step _ 16 (n1, v1)) as [n2 v2]. destruct H2 as [R2 L2].
  pose proof (msb_step 8 v2 n2 (Z.log2 val) ltac:(lia) R2 L2) as H3.
  change (2 * 8 - 1) with 15 in H3. destruct (search_step _ 8 (n2, v2)) as [n3 v3]. destruct H3 as [R3 L3].
  pose proof (msb_step 4 v3 n3 (Z.log2 val) ltac:(lia) R3 L3) as H4.
  change (2 * 4 - 1) with 7 in H4. destruct (search_step _ 4 (n3, v3)) as [n4 v4]. destruct H4 as [R4 L4].
  pose proof (msb_step 2 v4 n4 (Z.log2 val) ltac:(lia) R4 L4) as H5.
  change (2 * 2 - 1) with 3 in H5. destruct (search_step _ 2 (n4, v4)) as [n5 v5]. destruct H5 as [R5 L5].
  rewrite L5, (log2_2bits v5 R5), bits_div by lia. change (2 ^ 1) with 2. change (2 ^ (1 - 1 + 1)) with 2.
  assert (v5 = 1 \/ v5 = 2 \/ v5 = 3) as [-> | [-> | ->]] by lia; simpl; lia.
Qed.

(** One halving step of [findLsbSet]: the bits below [n] are clear, [v] is the
    value from bit [n] on and its low [2 * w] bits are not all clear. *)
Definition lsb_inv (val w n v : Z) : Prop :=
  0 <= n /\ v = Z.shiftr val n /\ (forall i, 0 <= i < n -> Z.testbit val i = false) /\ v mod 2 ^ w <> 0.

Lemma lsb_step val w n v :
  0 < w <= 32 -> lsb_inv val (2 * w) n v ->
  let '(n', v') := search_step (fun v => bits v (w - 1) 0 =? 0) w (n, v) in lsb_inv val w n' v'.
Proof.
  intros Hw (Hn & -> & Hlow & Hmod). assert (0 < 2 ^ w) by (apply Z.pow_pos_nonneg; lia).
  unfold search_step. rewrite bits_div by lia. change (2 ^ 0) with 1. rewrite Z.div_1_r.
  replace (w - 1 - 0 + 1) with w by lia.
  destruct (Z.eqb_spec (Z.shiftr val n mod 2 ^ w) 0) as [Hz|Hz]; [|by unfold lsb_inv].
  split; [lia|]. rewrite Z.shiftr_shiftr by lia. split; [done|]. split.
  - intros i Hi. destruct (Z.lt_ge_cases i n); [apply Hlow; lia|].
    apply (f_equal (fun z => Z.testbit z (i - n))) in Hz.
    rewrite Z.mod_pow2_bits_low, Z.shiftr_spec, Z.testbit_0_l in Hz by lia.
    by replace (i - n + n) with i in Hz by lia.
  - intros Hz2. apply Hmod. apply Z.bits_inj'. intros i Hi. rewrite Z.testbit_0_l.
    destruct (Z.lt_ge_cases i (2 * w)); [|by apply Z.mod_pow2_bits_high; lia].
    rewrite Z.mod_pow2_bits_low by lia. destruct (Z.lt_ge_cases i w).
    + apply (f_equal (fun z => Z.testbit z i)) in Hz. by rewrite Z.mod_pow2_bits_low, Z.testbit_0_l in Hz by lia.
    + apply (f_equal (fun z => Z.testbit z (i - w))) in Hz2.
      rewrite Z.mod_pow2_bits_low, Z.shiftr_spec, Z.testbit_0_l in Hz2 by lia.
      rewrite Z.shiftr_spec by lia. by replace (i - w + (n + w)) with (i + n) in Hz2 by lia.
Qed.

Lemma findLsbSet_least val :
  0 < val < 2 ^ 64 ->
  0 <= findLsbSet val /\ Z.testbit val (findLsbSet val) = true /\
  forall i, 0 <= i < findLsbSet val -> Z.testbit val i = false.
Proof.
  intros Hv. unfold findLsbSet. destruct (Z.eqb_spec val 0); [lia|].
  assert (lsb_inv val (2 * 32) 0 val) as H0.
  { split; [lia|]. split; [done|]. split; [lia|]. rewrite Z.mod_small by lia. lia. }
  pose proof (lsb_step val 32 0 val ltac:(lia) H0) as H1. change (32 - 1) with 31 in H1.
  destruct (search_step _ 32 (0, val)) as [n1 v1].
  pose proof (lsb_step val 16 n1 v1 ltac:(lia) H1) as H2. change (16 - 1) with 15 in H2.
  destruct (search_step _ 16 (n1, v1)) as [n2 v2].
  pose proof (lsb_step val 8 n2 v2 ltac:(lia) H2) as H3. change (8 - 1) with 7 in H3.
  destruct (search_step _ 8 (n2, v2)) as [n3 v3].
  pose proof (lsb_step val 4 n3 v3 ltac:(lia) H3) as H4. change (4 - 1) with 3 in H4.
  destruct (search_step _ 4 (n3, v3)) as [n4 v4].
  pose proof (lsb_step val 2 n4 v4 ltac:(lia) H4) as H5. change (2 - 1) with 1 in H5.
  destruct (search_step _ 2 (n4, v4)) as [n5 v5].
  pose proof (lsb_step val 1 n5 v5 ltac:(lia) H5) as H6. change (1 - 1) with 0 in H6. unfold search_step in H6.
  assert (forall n v, lsb_inv val 1 n v -> 0 <= n /\ Z.testbit val n = true /\ forall i, 0 <= i < n -> Z.testbit val i = false) as Hfin.
  { intros n0 v0 (Hn0 & Ev0 & Hlow & Hm). split; [done|]. split; [|done].
    rewrite <- (Z.add_0_l n0), <- Z.shiftr_spec by lia. rewrite <- Ev0.
    rewrite Z.bit0_odd, Zodd_mod. change (2 ^ 1) with 2 in Hm. pose proof (Z.mod_pos_bound v0 2 ltac:(lia)).
    apply Z.eqb_eq. lia. }
  destruct (bits v5 0 0 =? 0); by apply Hfin in H6.
Qed.

(** ** Rounding up to a power of two *)

(** After smearing by [1, 2, ..., k / 2], bit [i] is set when one of the [k]
    bits from [i] on is. *)
Definition smeared (x k y : Z) : Prop :=
  forall i, 0 <= i -> (Z.testbit y i = true <-> exists d, 0 <= d < k /\ Z.testbit x (i + d) = true).

Lemma smear_step x k y : 0 < k -> smeared x k y -> smeared x (2 * k) (smear k y).
Proof.
  intros Hk Hs i Hi. unfold smear. rewrite Z.lor_spec, Z.shiftr_spec, orb_true_iff by lia.
  rewrite (Hs i), (Hs (i + k)) by lia. split.
  - intros [(d & Hd & Hb)|(d & Hd & Hb)]; [exists d|exists (k + d)]; (split; [lia|]); [done|].
    by replace (i + (k + d)) with (i + k + d) by lia.
  - intros (d & Hd & Hb). destruct (Z.lt_ge_cases d k); [left; exists d; split; [lia|done]|].
    right. exists (d - k). split; [lia|]. by replace (i + k + (d - k)) with (i + d) by lia.
Qed.

Lemma smear_all x :
  0 < x < 2 ^ 64 ->
  smear 32 (smear 16 (smear 8 (smear 4 (smear 2 (smear 1 x))))) = Z.ones (Z.log2 x + 1).
Proof.
  intros Hx. assert (smeared x 1 x) as H0.
  { intros i Hi. split; [intros Hb; exists 0; rewrite Z.add_0_r; by split; [lia|]|].
    intros (d & Hd & Hb). replace d with 0 in Hb by lia. by rewrite Z.add_0_r in Hb. }
  pose proof (smear_step x 1 _ ltac:(lia) H0) as H1. pose proof (smear_step x 2 _ ltac:(lia) H1) as H2.
  pose proof (smear_step x 4 _ ltac:(lia) H2) as H3. pose proof (smear_step x 8 _ ltac:(lia) H3) as H4.
  pose proof (smear_step x 16 _ ltac:(lia) H4) as H5. pose proof (smear_step x 32 _ ltac:(lia) H5) as H6.
  simpl Z.mul in H6. assert (Z.log2 x < 64) by (apply Z.log2_lt_pow2; lia). pose proof (Z.log2_nonneg x).
  apply Z.bits_inj'. intros i Hi. apply eq_true_iff_eq. rewrite (H6 i Hi), Z.testbit_ones_nonneg, Z.ltb_lt by lia. split.
  - intros (d & Hd & Hb). assert (~ Z.log2 x < i + d) as Hn; [|lia].
    intros Hlt. by rewrite Z.bits_above_log2 in Hb by lia.
  - intros Hlt. exists (Z.log2 x - i). split; [lia|]. replace (i + (Z.log2 x - i)) with (Z.log2 x) by lia.
    apply Z.bit_log2. lia.
Qed.

Lemma alignToPowerOfTwo_spec val :
  1 < val <= 2 ^ 63 -> alignToPowerOfTwo val = 2 ^ Z.log2_up val.
Proof.
  intros Hv. unfold alignToPowerOfTwo, uint64. rewrite (wrapU_small 64 (val - 1)) by lia. cbv zeta.
  rewrite smear_all by lia. rewrite Z.log2_up_eqn by lia. rewrite <- Z.sub_1_r.
  assert (Z.log2 (val - 1) < 63) by (apply Z.log2_lt_pow2; lia). pose proof (Z.log2_nonneg (val - 1)).
  rewrite Z.ones_equiv. replace (Z.pred (2 ^ (Z.log2 (val - 1) + 1)) + 1) with (2 ^ (Z.log2 (val - 1) + 1)) by lia.
  rewrite <- Z.add_1_r. apply wrapU_small. split; [apply Z.pow_nonneg; lia|apply Z.pow_lt_mono_r; lia].
Qed.

(** Reading a field back after writing it. *)
Lemma bits_insertBits val first last v :
  0 <= last <= first -> first < 64 -> 0 <= val < 2 ^ 64 -> 0 <= v < 2 ^ (first - last + 1) ->
  bits (insertBits val first last v) first last = v.
Proof.
  intros Hl Hf Hv Hb. apply Z.bits_inj'. intros i Hi.
  rewrite bits_testbit, insertBits_testbit by lia. zcases; simpl; try lia.
  - f_equal. lia.
  - symmetry. apply (testbit_high _ (first - last + 1)); [done|lia].
Qed.

(** ** Bit reversal *)

(** Every byte of the table is the reversal of its index. *)
Lemma reverse_table b i :
  0 <= b < 256 -> 0 <= i -> Z.testbit reverseLookUpTable.[b] i = (i <? 8) && Z.testbit b (7 - i).
Proof.
  intros Hb Hi. destruct (Z.ltb_spec i 8) as [Hlt|Hge]; simpl.
  - assert (forallb (fun b => forallb (fun i =>
      Bool.eqb (Z.testbit reverseLookUpTable.[Z.of_nat b] (Z.of_nat i)) (Z.testbit (Z.of_nat b) (7 - Z.of_nat i)))
      (seq 0 8)) (seq 0 256) = true) as H by (vm_compute; reflexivity).
    rewrite forallb_forall in H. specialize (H (Z.to_nat b)). rewrite in_seq in H.
    specialize (H ltac:(lia)). rewrite forallb_forall in H. specialize (H (Z.to_nat i)). rewrite in_seq in H.
    specialize (H ltac:(lia)). rewrite !Z2Nat.id in H by lia. by apply Bool.eqb_prop.
  - assert (forallb (fun b => (0 <=? reverseLookUpTable.[Z.of_nat b]) && (reverseLookUpTable.[Z.of_nat b] <? 256))
      (seq 0 256) = true) as H by (vm_compute; reflexivity).
    rewrite forallb_forall in H. specialize (H (Z.to_nat b)). rewrite in_seq in H.
    specialize (H ltac:(lia)). rewrite Z2Nat.id in H by lia. apply (testbit_high _ 8); lia.
Qed.

Lemma reverseBits_spec val size :
  0 <= val -> 0 <= size <= 8 ->
  wp (reverseBits val size) (fun out => forall i, 0 <= i ->
    Z.testbit out i = (i <? 8 * size) && Z.testbit val (8 * size - 1 - i)).
Proof.
  intros Hv Hs. unfold reverseBits. apply wp_bind, wp_assert; [lia|]. apply wp_bind.
  apply (wp_for_up (fun k '(out, v) => v = Z.shiftr val (8 * k) /\
    forall i, 0 <= i -> Z.testbit out i = (i <? 8 * k) && Z.testbit val (8 * k - 1 - i))); [lia| | |].
  - split; [by rewrite Z.shiftr_0_r|]. intros i Hi. rewrite Z.bits_0. destruct (Z.ltb_spec i (8 * 0)); [lia|done].
  - intros k [out v] Hk [-> Hout].
    assert (0 <= Z.land (Z.shiftr val (8 * k)) 255 < 256) as Hb.
    { change 255 with (Z.ones 8). rewrite Z.land_ones by lia. apply Z.mod_pos_bound. lia. }
    apply wp_bind, wp_aget; [exact Hb|]. apply wp_ret. split; [rewrite Z.shiftr_shiftr by lia; f_equal; lia|].
    intros i Hi. rewrite Z.lor_spec, uint64_testbit, reverse_table, Z.shiftl_spec by lia.
    change 255 with (Z.ones 8). rewrite Z.land_spec, Z.testbit_ones by lia.
    destruct (Z.ltb_spec i 8).
    + rewrite (Z.testbit_neg_r out), andb_false_r, Z.shiftr_spec by lia. zcases; try lia. simpl.
      rewrite andb_true_r. f_equal. lia.
    + rewrite Hout by lia. simpl. rewrite orb_false_r.
      replace (8 * (k + 1) - 1 - i) with (8 * k - 1 - (i - 8)) by lia. zcases; simpl; try lia; done.
  - intros [out v] [_ H]. apply wp_ret. exact H.
Qed.
