(* ===== verification/IntMath.v ===== *)
(** * IntMath: integer helpers of the simulator

    Translates [gem5-X-TiC-SAT/src/base/intmath.hh] and [intmath.cc].  Unsigned
    types are kept at their width; a failing [assert] is [None]. *)

From stdpp Require Import prelude.
From Stdlib Require Import ZArith Lia Znumtheory.
From S2P Require Import Prelude Machine Bitfield.

(** ** Primes *)

(** [for (i = 5; i * i <= n; i += 6) if (n % i == 0 || n % (i + 2) == 0) return false; return true;]
    at the type [int], where an overflow of [i * i] is undefined. *)
Fixpoint prime_loop (fuel : nat) (i n : Z) : option bool :=
  match fuel with
  | O => None
  | S fuel =>
      _ ← assert_ (i * i <? 2 ^ 31);
      if i * i <=? n then
        if (Z.rem n i =? 0) || (Z.rem n (i + 2) =? 0) then Some false else prime_loop fuel (i + 6) n
      else Some true
  end.

Definition isPrime (n : Z) : option bool :=
  if (n =? 2) || (n =? 3) then Some true else prime_loop (S (Z.to_nat n)) 5 n.

(** [prevPrime], with the toggling decrement. *)
Fixpoint prev_loop (fuel : nat) (n decr : Z) : option Z :=
  match fuel with
  | O => None
  | S fuel =>
      p ← isPrime n;
      if (p : bool) then Some n else prev_loop fuel (n - decr) (6 - decr)
  end.

Definition prevPrime (n : Z) : option Z :=
  let n := if Z.land n 1 =? 0 then n - 1 else n in
  let decr := Z.rem n 3 in
  let '(n, decr) := if decr =? 0 then (n - 2, 2) else if decr =? 1 then (n, 4) else (n, decr) in
  prev_loop (S (Z.to_nat n)) n decr.

(** ** Powers of two *)

Definition leastSigBit (n : Z) : Z := Z.land n (uint64 (Z.lnot (uint64 (n - 1)))).

Definition isPowerOf2 (n : Z) : bool := negb (n =? 0) && (leastSigBit n =? n).

(** [power(n, e)] on [uint64_t]; the overflow warnings have no effect. *)
Definition power (n e : Z) : Z :=
  if e =? 0 then 1 else
  default 0 (for_up 1 e (fun _ result => Some (uint64 (result * n))) n).

(** One step of [floorLog2]: [if (x & m) { y += k; x >>= k; }] *)
Definition log_step (m k : Z) (st : Z * Z) : Z * Z :=
  let '(y, x) := st in if negb (Z.land x m =? 0) then (y + k, Z.shiftr x k) else (y, x).

(** The overload for [unsigned], 32 bits. *)
Definition floorLog2 (x : Z) : option Z :=
  _ ← assert_ (0 <? x);
  let st := log_step 0xffff0000 16 (0, x) in
  let st := log_step 0x0000ff00 8 st in
  let st := log_step 0x000000f0 4 st in
  let st := log_step 0x0000000c 2 st in
  let '(y, x) := st in
  Some (if negb (Z.land x 0x00000002 =? 0) then y + 1 else y).

(** The overloads for [unsigned long] (LP64) and [unsigned long long]. *)
Definition floorLog2_64 (x : Z) : option Z :=
  _ ← assert_ (0 <? x);
  let st := log_step 0xffffffff00000000 32 (0, x) in
  let st := log_step 0xffff0000 16 st in
  let st := log_step 0xff00 8 st in
  let st := log_step 0xf0 4 st in
  let st := log_step 0xc 2 st in
  let '(y, x) := st in
  Some (if negb (Z.land x 0x2 =? 0) then y + 1 else y).

(** The overloads for signed types convert their argument. *)
Definition floorLog2_int (x : Z) : option Z := _ ← assert_ (0 <? x); floorLog2 (uint32 x).
Definition floorLog2_long (x : Z) : option Z := _ ← assert_ (0 <? x); floorLog2_64 (uint64 x).

Definition ceilLog2 (n : Z) : option Z :=
  if n =? 1 then Some 0 else y ← floorLog2_64 (uint64 (n - 1)); Some (y + 1).

Definition floorPow2 (n : Z) : option Z := y ← floorLog2_64 n; Some (uint64 (Z.shiftl 1 y)).
Definition ceilPow2 (n : Z) : option Z := y ← ceilLog2 n; Some (uint64 (Z.shiftl 1 y)).

(** ** Rounding, at the type [uint64_t] *)

Definition divCeil (a b : Z) : option Z := if b =? 0 then None else Some (uint64 (a + b - 1) / b).

Definition roundUp (val align : Z) : Z :=
  let mask := uint64 (align - 1) in Z.land (uint64 (val + mask)) (uint64 (Z.lnot mask)).

Definition roundDown (val align : Z) : Z :=
  let mask := uint64 (align - 1) in Z.land val (uint64 (Z.lnot mask)).

(** ** Characters, as their codes *)

Definition isDec (c : Z) : bool := (48 <=? c) && (c <=? 57).
Definition isOct (c : Z) : bool := (48 <=? c) && (c <=? 55).
Definition isHex (c : Z) : bool :=
  ((48 <=? c) && (c <=? 57)) || ((65 <=? c) && (c <=? 70)) || ((97 <=? c) && (c <=? 102)).

Definition hex2Int (c : Z) : Z :=
  if (48 <=? c) && (c <=? 57) then c - 48
  else if (65 <=? c) && (c <=? 70) then c - 65 + 10
  else if (97 <=? c) && (c <=? 102) then c - 97 + 10
  else 0.

(** ** Logarithms *)

(** A mask of [w] ones at position [w] tests whether a [2 * w]-bit value reaches [2 ^ w]. *)
Lemma high_half w x : 0 < w -> 0 <= x < 2 ^ (2 * w) -> (Z.land x (Z.shiftl (Z.ones w) w) =? 0) = (x <? 2 ^ w).
Proof.
  intros Hw Hx. assert (0 < 2 ^ w) by (apply Z.pow_pos_nonneg; lia).
  destruct (Z.ltb_spec x (2 ^ w)) as [Hlt|Hge].
  - apply Z.eqb_eq, Z.bits_inj'. intros i Hi. rewrite Z.land_spec, Z.shiftl_spec, Z.testbit_0_l by lia.
    destruct (Z.lt_ge_cases i w); [by rewrite (Z.testbit_neg_r _ (i - w)), andb_false_r by lia|].
    by rewrite (testbit_high x w i) by lia.
  - apply Z.eqb_neq. intros Hz. apply (f_equal (fun z => Z.testbit z (Z.log2 x))) in Hz.
    assert (w <= Z.log2 x) by (apply Z.log2_le_pow2; lia).
    assert (Z.log2 x < 2 * w) by (apply Z.log2_lt_pow2; lia).
    rewrite Z.land_spec, Z.shiftl_spec, Z.testbit_0_l, Z.bit_log2, Z.testbit_ones_nonneg in Hz by lia.
    destruct (Z.ltb_spec (Z.log2 x - w) w); [done|lia].
Qed.

Lemma log_step_spec w m y x (L : Z) :
  0 < w -> m = Z.shiftl (Z.ones w) w -> 0 < x < 2 ^ (2 * w) -> L = y + Z.log2 x ->
  let '(y', x') := log_step m w (y, x) in 0 < x' < 2 ^ w /\ L = y' + Z.log2 x'.
Proof.
  intros Hw -> Hx HL. assert (0 < 2 ^ w) by (apply Z.pow_pos_nonneg; lia). unfold log_step.
  assert (2 ^ (2 * w) = 2 ^ w * 2 ^ w) as E by (rewrite <- Z.pow_add_r by lia; f_equal; lia).
  rewrite high_half by lia. destruct (Z.ltb_spec x (2 ^ w)); simpl; [lia|].
  rewrite HL, (shiftr_log2 x w), Z.shiftr_div_pow2 by lia. split; [|lia].
  split; [apply Z.div_str_pos; lia|apply Z.div_lt_upper_bound; lia].
Qed.

(** The last step. *)
Lemma log_last y x L : 0 < x < 2 ^ 2 -> L = y + Z.log2 x -> (if negb (Z.land x 2 =? 0) then y + 1 else y) = L.
Proof.
  intros Hx ->. assert (x = 1 \/ x = 2 \/ x = 3) as [-> | [-> | ->]] by lia; simpl; lia.
Qed.

(** [log_next w] runs one step of the search on the goal. *)
Ltac log_next w R L :=
  match goal with
  | |- context [log_step ?m w (?y, ?x)] =>
      let H := fresh in
      pose proof (log_step_spec w m y x _ ltac:(lia) eq_refl R L) as H;
      destruct (log_step m w (y, x)) as [? ?]; clear R L; destruct H as [R L]
  end.

Lemma floorLog2_spec x : 0 < x < 2 ^ 32 -> floorLog2 x = Some (Z.log2 x).
Proof.
  intros Hx. unfold floorLog2. destruct (Z.ltb_spec 0 x); [|lia]. cbn [assert_ mbind option_bind]. cbv zeta.
  assert (Z.log2 x = 0 + Z.log2 x) as L by lia. pose proof Hx as R.
  log_next 16 R L. log_next 8 R L. log_next 4 R L. log_next 2 R L. f_equal. by apply log_last.
Qed.

Lemma floorLog2_64_spec x : 0 < x < 2 ^ 64 -> floorLog2_64 x = Some (Z.log2 x).
Proof.
  intros Hx. unfold floorLog2_64. destruct (Z.ltb_spec 0 x); [|lia]. cbn [assert_ mbind option_bind]. cbv zeta.
  assert (Z.log2 x = 0 + Z.log2 x) as L by lia. pose proof Hx as R.
  log_next 32 R L. log_next 16 R L. log_next 8 R L. log_next 4 R L. log_next 2 R L. f_equal. by apply log_last.
Qed.

Lemma ceilLog2_spec n : 0 < n < 2 ^ 64 -> ceilLog2 n = Some (Z.log2_up n).
Proof.
  intros Hn. unfold ceilLog2. destruct (Z.eqb_spec n 1) as [->|]; [reflexivity|].
  unfold uint64. rewrite wrapU_small, floorLog2_64_spec by lia. simpl.
  rewrite Z.log2_up_eqn by lia. by rewrite <- Z.sub_1_r, <- Z.add_1_r.
Qed.

(** ** Powers of two and rounding *)

Lemma land_lnot64 x m : 0 <= x < 2 ^ 64 -> Z.land x (uint64 (Z.lnot m)) = Z.ldiff x m.
Proof.
  intros Hx. apply Z.bits_inj'. intros i Hi. rewrite Z.land_spec, uint64_testbit, Z.lnot_spec, Z.ldiff_spec by lia.
  destruct (Z.ltb_spec i 64); [done|]. by rewrite (testbit_high x 64 i) by lia.
Qed.

Lemma isPowerOf2_spec n : 0 <= n < 2 ^ 64 -> isPowerOf2 n = true <-> exists k, 0 <= k /\ n = 2 ^ k.
Proof.
  intros Hn. unfold isPowerOf2, leastSigBit. destruct (Z.eqb_spec n 0) as [->|Hn0]; simpl.
  { split; [done|]. intros (k & Hk & E). pose proof (Z.pow_pos_nonneg 2 k). lia. }
  unfold uint64 at 2. rewrite (wrapU_small 64 (n - 1)), land_lnot64, Z.eqb_eq by lia. split.
  - intros E. exists (Z.log2 n). pose proof (Z.log2_nonneg n). split; [done|].
    destruct (Z.log2_spec n ltac:(lia)) as [Hlo Hhi]. destruct (Z.eq_dec n (2 ^ Z.log2 n)) as [|Hne]; [done|exfalso].
    assert (Z.log2 (n - 1) = Z.log2 n) as El by (apply Z.log2_unique; lia).
    apply (f_equal (fun z => Z.testbit z (Z.log2 n))) in E. rewrite Z.ldiff_spec, Z.bit_log2 in E by lia.
    rewrite <- El in E at 1. rewrite Z.bit_log2 in E; [done|]. 
    assert (1 <= 2 ^ Z.log2 n) by (pose proof (Z.pow_pos_nonneg 2 (Z.log2 n)); lia). lia.
  - intros (k & Hk & ->). replace (2 ^ k - 1) with (Z.ones k) by (rewrite Z.ones_equiv; lia).
    rewrite Z.ldiff_ones_r by done. rewrite Z.shiftr_div_pow2, Z.div_same, Z.shiftl_1_l by (lia || apply Z.pow_nonzero; lia). done.
Qed.

Lemma roundDown_spec val k :
  0 <= k < 64 -> 0 <= val < 2 ^ 64 -> roundDown val (2 ^ k) = val / 2 ^ k * 2 ^ k.
Proof.
  intros Hk Hv. assert (0 < 2 ^ k) by (apply Z.pow_pos_nonneg; lia).
  assert (2 ^ k <= 2 ^ 64) by (apply Z.pow_le_mono_r; lia).
  unfold roundDown. rewrite land_lnot64 by done. unfold uint64. rewrite wrapU_small by lia.
  replace (2 ^ k - 1) with (Z.ones k) by (rewrite Z.ones_equiv; lia).
  rewrite Z.ldiff_ones_r, Z.shiftr_div_pow2, Z.shiftl_mul_pow2 by lia. done.
Qed.

Lemma roundUp_spec val k :
  0 <= k < 64 -> 0 <= val -> val + 2 ^ k - 1 < 2 ^ 64 ->
  roundUp val (2 ^ k) = (val + 2 ^ k - 1) / 2 ^ k * 2 ^ k.
Proof.
  intros Hk Hv Hb. assert (0 < 2 ^ k) by (apply Z.pow_pos_nonneg; lia).
  assert (2 ^ k <= 2 ^ 64) by (apply Z.pow_le_mono_r; lia).
  rewrite <- roundDown_spec by lia. unfold roundUp, roundDown, uint64.
  rewrite (wrapU_small 64 (2 ^ k - 1)), (wrapU_small 64 (val + (2 ^ k - 1))) by lia. f_equal. lia.
Qed.

(** ** Primality *)

(** No divisor below [i]. *)
Definition no_divisor (i n : Z) : Prop := forall d, 1 < d < i -> ~ (d | n).

Lemma rem_divide n i : 0 < i -> (Z.rem n i =? 0) = true <-> (i | n).
Proof. intros. rewrite Z.eqb_eq. apply Z.rem_divide. lia. Qed.

(** The candidates skipped by the loop are multiples of 2 or of 3. *)
Lemma no_divisor_step i n :
  i mod 6 = 5 -> 5 <= i -> ~ (2 | n) -> ~ (3 | n) -> no_divisor i n -> ~ (i | n) -> ~ (i + 2 | n) ->
  no_divisor (i + 6) n.
Proof.
  intros Hm Hi H2 H3 Hd Ni Ni2 d Hdd Hdiv. destruct (Z.lt_ge_cases d i); [apply (Hd d); [lia|done]|].
  assert (d = i \/ d = i + 2 \/ (2 | d) \/ (3 | d)) as Hc.
  { assert (d = i \/ d = i + 1 \/ d = i + 2 \/ d = i + 3 \/ d = i + 4 \/ d = i + 5) as [|[|[|[|[|]]]]] by lia; try tauto.
    - right. right. left. exists ((i + 1) / 2). Z.div_mod_to_equations. lia.
    - right. right. left. exists ((i + 3) / 2). Z.div_mod_to_equations. lia.
    - right. right. right. exists ((i + 4) / 3). Z.div_mod_to_equations. lia.
    - right. right. left. exists ((i + 5) / 2). Z.div_mod_to_equations. lia. }
  destruct Hc as [->|[->|[Hc|Hc]]]; [done|done| |].
  - apply H2. by apply (Z.divide_trans 2 d n).
  - apply H3. by apply (Z.divide_trans 3 d n).
Qed.

(** Without a divisor up to the square root, a number is prime. *)
Lemma no_divisor_prime i n : 1 < n -> 0 < i -> n < i * i -> no_divisor i n -> prime n.
Proof.
  intros Hn Hi Hsq Hd. apply prime_alt. split; [done|]. intros d Hdn [q Hq].
  destruct (Z.lt_ge_cases d i) as [Hlt|Hge]; [apply (Hd d); [lia|by exists q]|].
  assert (1 < q < i) by nia. apply (Hd q); [done|]. exists d. lia.
Qed.

Lemma not_prime_divisor d n : 1 < d < n -> (d | n) -> ~ prime n.
Proof. intros Hd Hdiv Hp. apply prime_alt in Hp as [_ Hp]. by apply (Hp d). Qed.

(** The square of the largest [i] the loop can reach without overflow is [46337 * 46337]. *)
Lemma prime_loop_spec fuel i n :
  5 <= n < 46337 * 46337 -> i mod 6 = 5 -> 5 <= i <= 46337 -> ~ (2 | n) -> ~ (3 | n) -> no_divisor i n ->
  n - i < Z.of_nat fuel -> (0 < fuel)%nat ->
  exists b, prime_loop fuel i n = Some b /\ (b = true <-> prime n).
Proof.
  revert i. induction fuel as [|fuel IH]; intros i Hn Hm Hi H2 H3 Hd Hf Hpos; [lia|]. cbn [prime_loop].
  unfold assert_. destruct (Z.ltb_spec (i * i) (2 ^ 31)); [|nia]. cbn [mbind option_bind].
  destruct (Z.leb_spec (i * i) n) as [Hle|Hgt].
  - assert (i + 6 <= 46337) as Hi6.
    { assert (i < 46337) by nia. pose proof (Z.div_mod i 6 ltac:(lia)). lia. }
    destruct ((Z.rem n i =? 0) || (Z.rem n (i + 2) =? 0)) eqn:E.
    + exists false. split; [done|]. split; [done|]. intros Hp. exfalso. apply orb_true_iff in E as [E|E].
      * apply rem_divide in E; [|lia]. by apply (not_prime_divisor i n); [nia| |].
      * apply rem_divide in E; [|lia]. by apply (not_prime_divisor (i + 2) n); [nia| |].
    + apply orb_false_iff in E as [E1 E2]. apply IH; try done; try lia.
      * rewrite <- Hm. replace (i + 6) with (i + 1 * 6) by lia. by rewrite Z.mod_add by lia.
      * apply no_divisor_step; try done; try lia.
        -- intros Hdiv. apply rem_divide in Hdiv; [congruence|lia].
        -- intros Hdiv. apply rem_divide in Hdiv; [congruence|lia].
      * nia.
  - exists true. split; [done|]. split; [|done]. intros _. apply (no_divisor_prime i); [lia|lia|lia|done].
Qed.

Lemma isPrime_spec n :
  5 <= n < 46337 * 46337 -> ~ (2 | n) -> ~ (3 | n) -> exists b, isPrime n = Some b /\ (b = true <-> prime n).
Proof.
  intros Hn H2 H3. unfold isPrime. destruct (Z.eqb_spec n 2), (Z.eqb_spec n 3); try lia. simpl orb. cbn iota.
  apply prime_loop_spec; try done; try lia.
  intros d Hd Hdiv. assert (d = 2 \/ d = 3 \/ d = 4) as [-> | [-> | ->]] by lia; [done|done|].
  apply H2. apply (Z.divide_trans 2 4 n); [by exists 2|done].
Qed.

(** A number with residue 0, 2, 3 or 4 modulo 6 is not prime beyond 3. *)
Lemma residue_not_prime q :
  3 < q -> q mod 6 <> 1 -> q mod 6 <> 5 -> ~ prime q.
Proof.
  intros Hq H1 H5 Hp. pose proof (Z.div_mod q 6 ltac:(lia)). pose proof (Z.mod_pos_bound q 6 ltac:(lia)).
  destruct (Z.eq_dec (q mod 6) 3).
  - apply (not_prime_divisor 3 q); [lia|exists (2 * (q / 6) + 1); lia|done].
  - apply (not_prime_divisor 2 q); [lia| |done].
    assert (q mod 6 = 0 \/ q mod 6 = 2 \/ q mod 6 = 4) as [E | [E | E]] by lia.
    + exists (3 * (q / 6)). lia.
    + exists (3 * (q / 6) + 1). lia.
    + exists (3 * (q / 6) + 2). lia.
Qed.

Lemma residue_coprime n : n mod 6 = 1 \/ n mod 6 = 5 -> ~ (2 | n) /\ ~ (3 | n).
Proof. intros H. pose proof (Z.div_mod n 6 ltac:(lia)). split; intros [k Hk]; lia. Qed.

(** When the toggling decrement is in phase with the residue, the loop finds the
    next smaller prime. *)
Lemma prev_loop_spec fuel n decr :
  5 <= n < 46337 * 46337 -> (n mod 6 = 1 /\ decr = 2) \/ (n mod 6 = 5 /\ decr = 4) -> n < Z.of_nat fuel ->
  exists p, prev_loop fuel n decr = Some p /\ prime p /\ 5 <= p <= n /\ forall q, p < q <= n -> ~ prime q.
Proof.
  revert n decr. induction fuel as [|fuel IH]; intros n decr Hn Hr Hf; [lia|]. cbn [prev_loop].
  destruct (residue_coprime n) as [H2 H3]; [lia|].
  destruct (isPrime_spec n) as (b & E & Hb); [done|done|done|]. rewrite E. cbn [mbind option_bind]. destruct b.
  { exists n. split; [done|]. split; [by apply Hb|]. split; [lia|]. intros q Hq. lia. }
  assert (n <> 5) as H5 by (intros ->; vm_compute in E; discriminate).
  assert (n <> 7) as H7 by (intros ->; vm_compute in E; discriminate).
  pose proof (Z.div_mod n 6 ltac:(lia)).
  assert ((n - decr) mod 6 = 6 - n mod 6) as Hmod.
  { destruct Hr as [[Hr ->] | [Hr ->]]; rewrite Hr; [symmetry; apply (Z.mod_unique_pos _ _ (n / 6 - 1))|
      symmetry; apply (Z.mod_unique_pos _ _ (n / 6))]; lia. }
  destruct (IH (n - decr) (6 - decr)) as (p & -> & Hp & Hple & Hq); [lia|lia|lia|].
  exists p. split; [done|]. split; [done|]. split; [lia|]. intros q Hqr.
  destruct (Z.le_gt_cases q (n - decr)); [by apply Hq; lia|].
  destruct (Z.eq_dec q n) as [->|]; [intros Hpr; by apply Hb in Hpr|].
  pose proof (Z.div_mod q 6 ltac:(lia)). pose proof (Z.mod_pos_bound q 6 ltac:(lia)).
  apply residue_not_prime; [lia| |]; intros Hm; lia.
Qed.

Lemma prevPrime_spec n :
  9 <= n < 46337 * 46337 -> n mod 6 = 3 \/ n mod 6 = 4 ->
  exists p, prevPrime n = Some p /\ prime p /\ p <= n /\ forall q, p < q <= n -> ~ prime q.
Proof.
  intros Hn Hr. unfold prevPrime. pose proof (Z.div_mod n 6 ltac:(lia)).
  assert (Z.land n 1 = n mod 2) as -> by (change 1 with (Z.ones 1); by rewrite Z.land_ones by lia).
  set (m := if n mod 2 =? 0 then n - 1 else n).
  assert (m = 6 * (n / 6) + 3) as Hm.
  { unfold m. pose proof (Z.div_mod n 2 ltac:(lia)). pose proof (Z.mod_pos_bound n 2 ltac:(lia)).
    destruct (Z.eqb_spec (n mod 2) 0); lia. }
  assert (Z.rem m 3 = 0) as ->.
  { rewrite Z.rem_mod_nonneg by lia. symmetry. apply (Z.mod_unique_pos _ _ (2 * (n / 6) + 1)); lia. }
  cbn [Z.eqb].
  assert ((m - 2) mod 6 = 1) as Hm1 by (symmetry; apply (Z.mod_unique_pos _ _ (n / 6)); lia).
  destruct (prev_loop_spec (S (Z.to_nat (m - 2))) (m - 2) 2) as (p & -> & Hp & Hple & Hq); [lia|lia|lia|].
  exists p. split; [done|]. split; [done|]. split; [lia|]. intros q Hqr.
  destruct (Z.le_gt_cases q (m - 2)); [by apply Hq; lia|].
  pose proof (Z.div_mod q 6 ltac:(lia)). pose proof (Z.mod_pos_bound q 6 ltac:(lia)).
  apply residue_not_prime; [lia| |]; intros Hmq; lia.
Qed.
