(* ===== verification/AddrRange.v ===== *)
(** * AddrRange: address ranges of the simulated memory map

    Translates [gem5-X-TiC-SAT/src/base/addr_range.hh].  An address is a [Z] in
    [0, 2 ^ 64).  [fatal] and [panic] are [None].  The device model of the
    accelerator announces its registers with these ranges. *)

From stdpp Require Import prelude.
From Stdlib Require Import ZArith Lia.
From S2P Require Import Prelude Machine Bitfield.

Record AddrRange := mkRange {
  ar_start : Z;
  ar_end : Z;
  intlvHighBit : Z;
  xorHighBit : Z;
  intlvBits : Z;
  intlvMatch : Z
}.

#[export] Instance AddrRange_eq_dec : EqDecision AddrRange.
Proof. solve_decision. Defined.

Definition MaxAddr : Z := 2 ^ 64 - 1.

(** ** Constructors *)

(** The default, invalid range. *)
Definition AddrRange_default : AddrRange := mkRange 1 0 0 0 0 0.

(** The non-interleaved range. *)
Definition AddrRange_plain (start_ end_ : Z) : AddrRange := mkRange start_ end_ 0 0 0 0.

(** The interleaved range, with its sanity checks. *)
Definition AddrRange_intlv (start_ end_ intlv_high_bit xor_high_bit intlv_bits intlv_match : Z)
  : option AddrRange :=
  _ ← assert_ (negb (negb (intlv_bits =? 0) && (Z.shiftl 1 intlv_bits <=? intlv_match)));
  _ ← (if negb (intlv_bits =? 0) && negb (xor_high_bit =? 0) then
         if xor_high_bit =? intlv_high_bit then None
         else if intlv_high_bit <? xor_high_bit then assert_ (negb (xor_high_bit - intlv_high_bit <? intlv_bits))
         else assert_ (negb (intlv_high_bit - xor_high_bit <? intlv_bits))
       else Some ());
  Some (mkRange start_ end_ intlv_high_bit xor_high_bit intlv_bits intlv_match).

(** ** Queries *)

Definition interleaved (r : AddrRange) : bool := negb (intlvBits r =? 0).
Definition hashed (r : AddrRange) : bool := interleaved r && negb (xorHighBit r =? 0).

Definition size (r : AddrRange) : Z := Z.shiftr (uint64 (ar_end r - ar_start r + 1)) (intlvBits r).

Definition granularity (r : AddrRange) : Z :=
  if interleaved r then
    let intlv_low_bit := wrapU 8 (intlvHighBit r - intlvBits r + 1) in
    if hashed r then
      let xor_low_bit := wrapU 8 (xorHighBit r - intlvBits r + 1) in
      uint64 (Z.shiftl 1 (Z.min intlv_low_bit xor_low_bit))
    else uint64 (Z.shiftl 1 intlv_low_bit)
  else size r.

Definition stripes (r : AddrRange) : Z := uint32 (Z.shiftl 1 (intlvBits r)).

Definition valid (r : AddrRange) : bool := ar_start r <=? ar_end r.

Definition mergesWith (self r : AddrRange) : bool :=
  (ar_start r =? ar_start self) && (ar_end r =? ar_end self) && (intlvHighBit r =? intlvHighBit self) &&
  (xorHighBit r =? xorHighBit self) && (intlvBits r =? intlvBits self).

(** The value that is compared with [intlvMatch]. *)
Definition selector (r : AddrRange) (a : Z) : Z :=
  let sel := bits a (intlvHighBit r) (intlvHighBit r - intlvBits r + 1) in
  if hashed r then Z.lxor sel (bits a (xorHighBit r) (xorHighBit r - intlvBits r + 1)) else sel.

Definition contains (r : AddrRange) (a : Z) : bool :=
  let in_range := (ar_start r <=? a) && (a <=? ar_end r) in
  if negb (interleaved r) then in_range
  else if in_range then selector r a =? intlvMatch r
  else false.

Definition intersects (self r : AddrRange) : option bool :=
  if (ar_end r <? ar_start self) || (ar_end self <? ar_start r) then Some false
  else if negb (interleaved self) && negb (interleaved r) then Some true
  else if size r =? 1 then Some (contains self (ar_start r))
  else if mergesWith self r then Some (intlvMatch self =? intlvMatch r)
  else None.

Definition isSubset (self r : AddrRange) : option bool :=
  if interleaved self then None
  else if interleaved r then
    Some (contains r (ar_start self) && contains r (ar_end self) && (size self <=? granularity r))
  else Some ((ar_start r <=? ar_start self) && (ar_end self <=? ar_end r)).

Definition removeIntlvBits (r : AddrRange) (a : Z) : Z :=
  let intlv_low_bit := intlvHighBit r - intlvBits r + 1 in
  insertBits (Z.shiftr a (intlvBits r)) (intlv_low_bit - 1) 0 a.

Definition getOffset (r : AddrRange) (a : Z) : Z :=
  if negb ((ar_start r <=? a) && (a <=? ar_end r)) then MaxAddr
  else if interleaved r then uint64 (removeIntlvBits r a - removeIntlvBits r (ar_start r))
  else uint64 (a - ar_start r).

(** [operator<] and [operator==] *)
Definition range_lt (self r : AddrRange) : bool :=
  if negb (ar_start self =? ar_start r) then ar_start self <? ar_start r
  else intlvMatch self <? intlvMatch r.

Definition range_eqb (self r : AddrRange) : bool :=
  (ar_start self =? ar_start r) && (ar_end self =? ar_end r) && (intlvBits self =? intlvBits r) &&
  ((intlvBits self =? 0) || ((intlvHighBit self =? intlvHighBit r) && (intlvMatch self =? intlvMatch r))).

(** The constructor that merges a complete set of interleaved ranges. *)
Definition AddrRange_merge (ranges : list AddrRange) : option AddrRange :=
  match ranges with
  | [] => Some AddrRange_default
  | front :: _ =>
      let self := mkRange (ar_start front) (ar_end front) (intlvHighBit front) (xorHighBit front) (intlvBits front) 0 in
      _ ← assert_ (zlen ranges =? Z.shiftl 1 (intlvBits front));
      _ ← foldl (fun acc r => m ← acc;
                   _ ← assert_ (mergesWith self r);
                   _ ← assert_ (intlvMatch r =? m);
                   Some (wrapU 8 (m + 1))) (Some 0) ranges;
      Some (AddrRange_plain (ar_start front) (ar_end front))
  end.

Definition RangeEx (start_ end_ : Z) : AddrRange := AddrRange_plain start_ (uint64 (end_ - 1)).
Definition RangeIn (start_ end_ : Z) : AddrRange := AddrRange_plain start_ end_.
Definition RangeSize (start_ size_ : Z) : AddrRange := AddrRange_plain start_ (uint64 (start_ + size_ - 1)).

(** ** Well-formed ranges *)

Definition addr (a : Z) : Prop := 0 <= a < 2 ^ 64.

(** The fields of the interleaving are inside the address and do not overlap. *)
Record wf_range (r : AddrRange) : Prop := {
  wr_start : addr (ar_start r);
  wr_end : addr (ar_end r);
  wr_bits : 0 <= intlvBits r <= 8;
  wr_match : 0 <= intlvMatch r;
  wr_intlv : interleaved r = true ->
    intlvMatch r < 2 ^ intlvBits r /\ 0 <= intlvHighBit r - intlvBits r + 1 /\ intlvHighBit r < 64;
  wr_xor : hashed r = true ->
    0 <= xorHighBit r - intlvBits r + 1 /\ xorHighBit r < 64 /\
    (xorHighBit r + intlvBits r <= intlvHighBit r \/ intlvHighBit r + intlvBits r <= xorHighBit r)
}.

Lemma lxor_range a b n : 0 <= n -> 0 <= a < 2 ^ n -> 0 <= b < 2 ^ n -> 0 <= Z.lxor a b < 2 ^ n.
Proof.
  intros Hn Ha Hb. assert (0 <= Z.lxor a b) by (apply Z.lxor_nonneg; lia). split; [done|].
  apply lt_pow2_of_bits; [done|done|]. intros i Hi. rewrite Z.lxor_spec.
  by rewrite (testbit_high a n), (testbit_high b n) by lia.
Qed.

Lemma interleaved_bits r : wf_range r -> interleaved r = true -> 0 < intlvBits r.
Proof. intros Hr Hi. unfold interleaved in Hi. apply negb_true_iff, Z.eqb_neq in Hi. pose proof (wr_bits r Hr). lia. Qed.

Lemma selector_range r a : wf_range r -> interleaved r = true -> 0 <= selector r a < 2 ^ intlvBits r.
Proof.
  intros Hr Hi. destruct (wr_intlv r Hr Hi) as (_ & H1 & H2). pose proof (wr_bits r Hr) as Hb.
  pose proof (interleaved_bits r Hr Hi).
  assert (0 <= bits a (intlvHighBit r) (intlvHighBit r - intlvBits r + 1) < 2 ^ intlvBits r) as Hs.
  { pose proof (bits_range a (intlvHighBit r) (intlvHighBit r - intlvBits r + 1) ltac:(lia) ltac:(lia)) as Hx.
    by replace (intlvHighBit r - (intlvHighBit r - intlvBits r + 1) + 1) with (intlvBits r) in Hx by lia. }
  unfold selector. destruct (hashed r) eqn:Eh; [|done]. destruct (wr_xor r Hr Eh) as (H3 & H4 & _).
  apply lxor_range; [lia|done|].
  pose proof (bits_range a (xorHighBit r) (xorHighBit r - intlvBits r + 1) ltac:(lia) ltac:(lia)) as Hx.
  by replace (xorHighBit r - (xorHighBit r - intlvBits r + 1) + 1) with (intlvBits r) in Hx by lia.
Qed.

(** The range that differs in its match value only. *)
Definition with_match (r : AddrRange) (m : Z) : AddrRange :=
  mkRange (ar_start r) (ar_end r) (intlvHighBit r) (xorHighBit r) (intlvBits r) m.

Lemma contains_iff r a :
  contains r a = true <->
  ar_start r <= a <= ar_end r /\ (interleaved r = true -> selector r a = intlvMatch r).
Proof.
  unfold contains. destruct (interleaved r); simpl.
  - destruct (Z.leb_spec (ar_start r) a), (Z.leb_spec a (ar_end r)); simpl; try (split; [done|lia]).
    rewrite Z.eqb_eq. split; [intros; split; [lia|done]|tauto].
  - rewrite andb_true_iff, !Z.leb_le. split; [intros; split; [lia|done]|lia].
Qed.

(** ** Offsets are unique *)

Lemma removeIntlvBits_testbit r a i :
  wf_range r -> interleaved r = true -> addr a -> 0 <= i ->
  Z.testbit (removeIntlvBits r a) i =
    if i <? intlvHighBit r - intlvBits r + 1 then Z.testbit a i else Z.testbit a (i + intlvBits r).
Proof.
  intros Hr Hi Ha Hpos. destruct (wr_intlv r Hr Hi) as (_ & H1 & H2). pose proof (interleaved_bits r Hr Hi).
  pose proof (wr_bits r Hr). unfold removeIntlvBits. set (low := intlvHighBit r - intlvBits r + 1) in *.
  assert (0 <= Z.shiftr a (intlvBits r) < 2 ^ 64) as Hs.
  { unfold addr in Ha. rewrite Z.shiftr_div_pow2 by lia. assert (0 < 2 ^ intlvBits r) by (apply Z.pow_pos_nonneg; lia).
    split; [apply Z.div_pos; lia|]. apply Z.div_lt_upper_bound; nia. }
  destruct (Z.eq_dec low 0) as [E|E].
  - rewrite E. unfold insertBits. replace (0 - 1 - 0 + 1) with 0 by lia. rewrite mask_ones_eq by lia.
    change (uint64 (Z.shiftl (Z.ones 0) 0)) with 0. rewrite Z.land_0_r, Z.lor_0_l.
    rewrite Z.land_spec, uint64_testbit, Z.lnot_spec, Z.testbit_0_l, Z.shiftr_spec by lia.
    destruct (Z.ltb_spec i 0); [lia|]. destruct (Z.ltb_spec i 64); simpl; [apply andb_true_r|].
    rewrite andb_false_r. unfold addr in Ha. symmetry. apply (testbit_high a 64); lia.
  - rewrite insertBits_testbit by lia. rewrite Z.shiftr_spec, Z.sub_0_r by lia. zcases; lia || done.
Qed.

(** The bits of the two fields of the selector. *)
Lemma bits_ext_field a b high n :
  0 < n -> 0 <= high - n + 1 -> high < 64 ->
  (forall i, high - n < i <= high -> Z.testbit a i = Z.testbit b i) ->
  bits a high (high - n + 1) = bits b high (high - n + 1).
Proof.
  intros Hn Hl Hh He. apply Z.bits_inj'. intros i Hi. rewrite !bits_testbit by lia.
  destruct (Z.leb_spec i (high - (high - n + 1))); [|done]. simpl. apply He. lia.
Qed.

Lemma selector_inj r a b :
  wf_range r -> interleaved r = true -> selector r a = selector r b ->
  (forall i, 0 <= i -> i <= intlvHighBit r - intlvBits r \/ intlvHighBit r < i -> Z.testbit a i = Z.testbit b i) ->
  forall i, 0 <= i -> Z.testbit a i = Z.testbit b i.
Proof.
  intros Hr Hi Hsel Hout i Hpos. destruct (wr_intlv r Hr Hi) as (_ & H1 & H2).
  pose proof (interleaved_bits r Hr Hi). pose proof (wr_bits r Hr).
  destruct (Z.le_gt_cases i (intlvHighBit r - intlvBits r)) as [|Hlo]; [apply Hout; lia|].
  destruct (Z.le_gt_cases i (intlvHighBit r)) as [Hhi|]; [|apply Hout; lia].
  assert (bits a (intlvHighBit r) (intlvHighBit r - intlvBits r + 1) =
          bits b (intlvHighBit r) (intlvHighBit r - intlvBits r + 1)) as E.
  { unfold selector in Hsel. destruct (hashed r) eqn:Eh; [|done]. destruct (wr_xor r Hr Eh) as (H3 & H4 & H5).
    rewrite (bits_ext_field a b (xorHighBit r) (intlvBits r)) in Hsel by (try lia; intros j Hj; apply Hout; lia).
    apply (f_equal (fun z => Z.lxor z (bits b (xorHighBit r) (xorHighBit r - intlvBits r + 1)))) in Hsel.
    by rewrite !Z.lxor_assoc, !Z.lxor_nilpotent, !Z.lxor_0_r in Hsel. }
  apply (f_equal (fun z => Z.testbit z (i - (intlvHighBit r - intlvBits r + 1)))) in E.
  rewrite !bits_testbit in E by lia. destruct (Z.leb_spec (i - (intlvHighBit r - intlvBits r + 1)) (intlvHighBit r - (intlvHighBit r - intlvBits r + 1))); [|lia].
  simpl in E. by replace (i - (intlvHighBit r - intlvBits r + 1) + (intlvHighBit r - intlvBits r + 1)) with i in E by lia.
Qed.

Lemma removeIntlvBits_range r a :
  wf_range r -> interleaved r = true -> addr a -> 0 <= removeIntlvBits r a < 2 ^ 64.
Proof.
  intros Hr Hi Ha. pose proof (wr_bits r Hr). pose proof (wr_intlv r Hr Hi) as (_ & H1 & H2).
  assert (0 <= removeIntlvBits r a) as H0.
  { unfold removeIntlvBits, insertBits. apply Z.lor_nonneg. split; apply Z.land_nonneg.
    - right. apply wrapU_range. lia.
    - right. apply wrapU_range. lia. }
  split; [done|]. apply lt_pow2_of_bits; [done|lia|]. intros i Hj.
  rewrite removeIntlvBits_testbit by (done || lia). unfold addr in Ha. zcases; apply (testbit_high a 64); lia.
Qed.

Lemma getOffset_inj r a b :
  wf_range r -> addr a -> addr b -> contains r a = true -> contains r b = true ->
  getOffset r a = getOffset r b -> a = b.
Proof.
  intros Hr Ha Hb [Hra Hsa]%contains_iff [Hrb Hsb]%contains_iff. unfold getOffset.
  assert (forall x, ar_start r <= x <= ar_end r -> (ar_start r <=? x) && (x <=? ar_end r) = true) as Hin.
  { intros x Hx. apply andb_true_iff. rewrite !Z.leb_le. lia. }
  rewrite !Hin by done. simpl. unfold addr in *. pose proof (wr_start r Hr) as Hs. unfold addr in Hs.
  assert (forall x y z, 0 <= x < 2 ^ 64 -> 0 <= y < 2 ^ 64 -> uint64 (x - z) = uint64 (y - z) -> x = y) as Hsub.
  { intros x y z Hx Hy E. apply (f_equal (fun v => uint64 (v + z))) in E. unfold uint64, wrapU in E.
    rewrite !Zplus_mod_idemp_l in E. replace (x - z + z) with x in E by lia. replace (y - z + z) with y in E by lia.
    rewrite !Z.mod_small in E by lia. done. }
  destruct (interleaved r) eqn:Ei.
  - intros E. apply Hsub in E; [|by apply removeIntlvBits_range|by apply removeIntlvBits_range].
    apply Z.bits_inj'. apply (selector_inj r a b Hr Ei); [rewrite Hsa, Hsb by done; done|].
    pose proof (interleaved_bits r Hr Ei). destruct (wr_intlv r Hr Ei) as (_ & H1 & H2).
    intros i Hi Hf. destruct Hf as [Hf|Hf].
    + apply (f_equal (fun z => Z.testbit z i)) in E. rewrite !removeIntlvBits_testbit in E by done.
      destruct (Z.ltb_spec i (intlvHighBit r - intlvBits r + 1)); [done|lia].
    + apply (f_equal (fun z => Z.testbit z (i - intlvBits r))) in E. rewrite !removeIntlvBits_testbit in E by (done || lia).
      destruct (Z.ltb_spec (i - intlvBits r) (intlvHighBit r - intlvBits r + 1)); [lia|].
      by replace (i - intlvBits r + intlvBits r) with i in E by lia.
  - intros E. by apply Hsub in E.
Qed.

(** ** Subsets *)

(** The selector depends on the granule of an address only. *)
Lemma selector_granule r g a b :
  wf_range r -> interleaved r = true -> 0 <= g -> g <= intlvHighBit r - intlvBits r + 1 ->
  (hashed r = true -> g <= xorHighBit r - intlvBits r + 1) ->
  a / 2 ^ g = b / 2 ^ g -> selector r a = selector r b.
Proof.
  intros Hr Hi Hg H1 H2 E. pose proof (interleaved_bits r Hr Hi). destruct (wr_intlv r Hr Hi) as (_ & H3 & H4).
  assert (forall i, g <= i -> Z.testbit a i = Z.testbit b i) as Hbit.
  { intros i Hig. apply (f_equal (fun z => Z.testbit z (i - g))) in E.
    rewrite <- !Z.shiftr_div_pow2, !Z.shiftr_spec in E by lia. by replace (i - g + g) with i in E by lia. }
  unfold selector. rewrite (bits_ext_field a b (intlvHighBit r) (intlvBits r)) by (try lia; intros; apply Hbit; lia).
  destruct (hashed r) eqn:Eh; [|done]. destruct (wr_xor r Hr Eh) as (H5 & H6 & _). specialize (H2 eq_refl).
  f_equal. apply bits_ext_field; try lia. intros. apply Hbit. lia.
Qed.

Lemma granularity_pow r :
  wf_range r -> interleaved r = true ->
  exists g, granularity r = 2 ^ g /\ 0 <= g /\ g <= intlvHighBit r - intlvBits r + 1 /\
    (hashed r = true -> g <= xorHighBit r - intlvBits r + 1).
Proof.
  intros Hr Hi. pose proof (interleaved_bits r Hr Hi). destruct (wr_intlv r Hr Hi) as (_ & H1 & H2).
  unfold granularity. rewrite Hi. rewrite (wrapU_small 8 (intlvHighBit r - intlvBits r + 1)) by lia.
  assert (forall g, 0 <= g < 64 -> uint64 (Z.shiftl 1 g) = 2 ^ g) as Hp.
  { intros g Hg. rewrite Z.shiftl_1_l. apply wrapU_small. split; [apply Z.pow_nonneg; lia|apply Z.pow_lt_mono_r; lia]. }
  destruct (hashed r) eqn:Eh.
  - destruct (wr_xor r Hr Eh) as (H3 & H4 & _). rewrite (wrapU_small 8 (xorHighBit r - intlvBits r + 1)) by lia.
    eexists. rewrite Hp by lia. split; [done|]. lia.
  - eexists. rewrite Hp by lia. split; [done|]. split; [lia|]. split; [lia|done].
Qed.

Lemma isSubset_sound self r a :
  wf_range self -> wf_range r -> ar_end self - ar_start self + 1 < 2 ^ 64 ->
  isSubset self r = Some true -> addr a -> contains self a = true -> contains r a = true.
Proof.
  intros Hself Hr Hfull Hsub Ha Hc. unfold isSubset in Hsub. destruct (interleaved self) eqn:Es; [done|].
  apply contains_iff in Hc as [Hc _]. apply contains_iff. destruct (interleaved r) eqn:Ei.
  - injection Hsub as Hsub. apply andb_true_iff in Hsub as [[H1 H2]%andb_true_iff H3%Z.leb_le].
    apply contains_iff in H1 as [R1 S1]. apply contains_iff in H2 as [R2 S2].
    split; [lia|]. intros _. destruct (granularity_pow r Hr Ei) as (g & Eg & Hg & Hg1 & Hg2).
    rewrite Eg in H3. assert (intlvBits self = 0) as E0 by (unfold interleaved in Es; by apply negb_false_iff, Z.eqb_eq in Es).
    unfold size in H3. rewrite E0, Z.shiftr_0_r in H3.
    pose proof (wr_start self Hself) as A1. pose proof (wr_end self Hself) as A2. unfold addr in *.
    assert (0 < 2 ^ g) by (apply Z.pow_pos_nonneg; lia).
    unfold uint64 in H3. rewrite wrapU_small in H3 by lia.
    assert (ar_start self / 2 ^ g <= a / 2 ^ g) by (apply Z.div_le_mono; lia).
    assert (a / 2 ^ g <= ar_end self / 2 ^ g) by (apply Z.div_le_mono; lia).
    assert (ar_end self / 2 ^ g <= ar_start self / 2 ^ g + 1).
    { rewrite <- Z.div_add by lia. apply Z.div_le_mono; lia. }
    assert (a / 2 ^ g = ar_start self / 2 ^ g \/ a / 2 ^ g = ar_end self / 2 ^ g) as [E|E] by lia.
    + rewrite (selector_granule r g a (ar_start self)) by done. by apply S1.
    + rewrite (selector_granule r g a (ar_end self)) by done. by apply S2.
  - injection Hsub as Hsub. apply andb_true_iff in Hsub as [H1%Z.leb_le H2%Z.leb_le]. split; [lia|done].
Qed.

(** ** Intersections *)

(** Every address of the range has exactly one stripe. *)
Lemma stripe_unique r a :
  wf_range r -> interleaved r = true -> ar_start r <= a <= ar_end r ->
  exists m, 0 <= m < 2 ^ intlvBits r /\ contains (with_match r m) a = true /\
    forall m', contains (with_match r m') a = true -> m' = m.
Proof.
  intros Hr Hi Ha. exists (selector r a). split; [by apply selector_range|]. split.
  - by apply contains_iff.
  - intros m' [_ Hs]%contains_iff. symmetry. by apply Hs.
Qed.

(** Non-interleaved ranges: [intersects] decides whether there is a common address. *)
Lemma intersects_plain self r :
  interleaved self = false -> interleaved r = false -> valid self = true -> valid r = true ->
  exists b, intersects self r = Some b /\
    (b = true <-> exists a, contains self a = true /\ contains r a = true).
Proof.
  intros E1 E2 V1%Z.leb_le V2%Z.leb_le. unfold intersects. rewrite E1, E2. simpl.
  assert (forall x a, interleaved x = false -> contains x a = true <-> ar_start x <= a <= ar_end x) as Hc.
  { intros x a Ex. rewrite contains_iff, Ex. split; [tauto|]. by intros; split. }
  destruct ((ar_end r <? ar_start self) || (ar_end self <? ar_start r)) eqn:E; eexists; (split; [done|]).
  - split; [done|]. intros (a & H1%Hc & H2%Hc); [|done|done]. apply orb_true_iff in E as [E|E]; apply Z.ltb_lt in E; lia.
  - split; [|done]. intros _. apply orb_false_iff in E as [H1%Z.ltb_ge H2%Z.ltb_ge].
    exists (Z.max (ar_start self) (ar_start r)). rewrite !Hc by done. lia.
Qed.

(** Whenever [intersects] answers [false], there is no common address. *)
Lemma intersects_false_disjoint self r a :
  wf_range self -> wf_range r -> valid r = true -> intersects self r = Some false ->
  contains self a = true -> contains r a = true -> size r <> 1 \/ interleaved r = false -> False.
Proof.
  intros H1 H2 Hv Hint [R1 S1]%contains_iff [R2 S2]%contains_iff Hsz. apply Z.leb_le in Hv. unfold intersects in Hint.
  destruct ((ar_end r <? ar_start self) || (ar_end self <? ar_start r)) eqn:E.
  { apply orb_true_iff in E as [E|E]; apply Z.ltb_lt in E; lia. }
  destruct (negb (interleaved self) && negb (interleaved r)) eqn:E2; [done|].
  destruct (Z.eqb_spec (size r) 1) as [Es|Es].
  - destruct Hsz as [|Ei]; [done|]. injection Hint as Hint.
    assert (intlvBits r = 0) as E0 by (unfold interleaved in Ei; by apply negb_false_iff, Z.eqb_eq in Ei).
    unfold size in Es. rewrite E0, Z.shiftr_0_r in Es. pose proof (wr_start r H2) as A1. pose proof (wr_end r H2) as A2.
    unfold addr in *. assert (ar_end r = ar_start r) as Ee.
    { destruct (Z.eq_dec (ar_end r - ar_start r + 1) (2 ^ 64)) as [Ef|]; [rewrite Ef in Es; vm_compute in Es; done|].
      unfold uint64 in Es. rewrite wrapU_small in Es by lia. lia. }
    assert (contains self (ar_start r) = true) as Hc; [|congruence].
    apply contains_iff. replace (ar_start r) with a by lia. done.
  - destruct (mergesWith self r) eqn:Em; [|done]. injection Hint as Hint. apply Z.eqb_neq in Hint.
    unfold mergesWith in Em. rewrite !andb_true_iff, !Z.eqb_eq in Em. destruct Em as [[[[Q1 Q2] Q3] Q4] Q5].
    assert (interleaved self = interleaved r) as Ei by (unfold interleaved; by rewrite Q5).
    assert (interleaved r = true) as Ir by (rewrite Ei in E2; by destruct (interleaved r)).
    apply Hint. rewrite <- S1, <- S2 by congruence. unfold selector, hashed. by rewrite Ei, Q3, Q4, Q5.
Qed.
