(* ===== verification/AddrRangeMap.v ===== *)
(** * AddrRangeMap: address decoding of the simulated memory map

    Translates [gem5-X-TiC-SAT/src/base/addr_range_map.hh].  The [std::map] is a
    list of entries in the order of [AddrRange::operator<]; an iterator is the
    key of the entry it points to, [end()] is [None], and dereferencing an
    iterator whose entry is gone is undefined.  The cache is a list of
    iterators, most recently used first.  The specification is for maps of
    plain (not interleaved) ranges. *)

From stdpp Require Import prelude sorting.
From Stdlib Require Import ZArith Lia.
From S2P Require Import Prelude Machine Bitfield AddrRange.

Module RangeMap.

(** A key with its value. *)
Abbreviation entry V := (AddrRange * V)%type.

Section AddrRangeMap.
Context {V : Type} (max_cache_size : Z).

Record AddrRangeMap := mkMap {
  tree : list (entry V);
  cache : list AddrRange
}.

(** The entry an iterator points to. *)
Definition deref (t : list (entry V)) (k : AddrRange) : option (entry V) :=
  List.find (fun e => bool_decide (e.1 = k)) t.

(** ** The cache *)

Definition addNewEntryToCache (k : AddrRange) (c : list AddrRange) : list AddrRange :=
  if negb (max_cache_size =? 0) then
    if max_cache_size <=? zlen c then
      if 1 <? max_cache_size then k :: removelast c else removelast c ++ [k]
    else k :: c
  else c.

(** The loop over the cache: the entry found, and the cache with it in front. *)
Fixpoint cache_find (t : list (entry V)) (cond : AddrRange -> option bool) (seen rest : list AddrRange)
  : option (option (entry V * list AddrRange)) :=
  match rest with
  | [] => Some None
  | c :: rest =>
      it ← deref t c;
      b ← cond it.1;
      if (b : bool) then Some (Some (it, c :: seen ++ rest)) else cache_find t cond (seen ++ [c]) rest
  end.

(** ** The tree *)

(** The entries before [upper_bound(r)], and those from it on. *)
Fixpoint upper_bound (r : AddrRange) (t : list (entry V)) : list (entry V) * list (entry V) :=
  match t with
  | [] => ([], [])
  | e :: t' => if range_lt r e.1 then ([], t) else let '(b, a) := upper_bound r t' in (e :: b, a)
  end.

(** The backwards loop; its argument lists the entries from [next] down. *)
Fixpoint scan_back (cond : AddrRange -> option bool) (l : list (entry V)) : option (option (entry V)) :=
  match l with
  | [] => Some None
  | i :: rest =>
      b ← cond i.1;
      if (b : bool) then Some (Some i) else
      match rest with
      | [] => Some None
      | next :: _ => if mergesWith next.1 i.1 then scan_back cond rest else Some None
      end
  end.

Definition find (r : AddrRange) (cond : AddrRange -> option bool) (m : AddrRangeMap)
  : option (option (entry V) * AddrRangeMap) :=
  hit ← cache_find (tree m) cond [] (cache m);
  match hit with
  | Some (it, c) => Some (Some it, mkMap (tree m) c)
  | None =>
      let cached it := mkMap (tree m) (addNewEntryToCache it.1 (cache m)) in
      let '(before, after) := upper_bound r (tree m) in
      first ← (match after with [] => Some false | next :: _ => cond next.1 end);
      match first, after with
      | true, next :: _ => Some (Some next, cached next)
      | _, _ =>
          it ← scan_back cond (rev before);
          match it with Some i => Some (Some i, cached i) | None => Some (None, m) end
      end
  end.

(** ** Operations *)

Definition map_contains (r : AddrRange) (m : AddrRangeMap) : option (option (entry V) * AddrRangeMap) :=
  find r (fun r1 => isSubset r r1) m.

Definition map_contains_addr (a : Z) (m : AddrRangeMap) : option (option (entry V) * AddrRangeMap) :=
  map_contains (RangeSize a 1) m.

Definition map_intersects (r : AddrRange) (m : AddrRangeMap) : option (option (entry V) * AddrRangeMap) :=
  find r (fun r1 => intersects r r1) m.

(** [std::map::insert]: an equivalent key keeps the old entry. *)
Fixpoint tree_insert (r : AddrRange) (d : V) (t : list (entry V)) : list (entry V) * entry V :=
  match t with
  | [] => ([(r, d)], (r, d))
  | e :: t' =>
      if range_lt r e.1 then ((r, d) :: t, (r, d))
      else if range_lt e.1 r then let '(t2, x) := tree_insert r d t' in (e :: t2, x)
      else (t, e)
  end.

Definition insert (r : AddrRange) (d : V) (m : AddrRangeMap) : option (option (entry V) * AddrRangeMap) :=
  '(it, m) ← map_intersects r m;
  match it with
  | Some _ => Some (None, m)
  | None => let '(t, x) := tree_insert r d (tree m) in Some (Some x, mkMap t (cache m))
  end.

Definition cache_remove (k : AddrRange) (c : list AddrRange) : list AddrRange :=
  filter (fun k' => k' <> k) c.

Definition erase (p : AddrRange) (m : AddrRangeMap) : option AddrRangeMap :=
  _ ← deref (tree m) p;
  Some (mkMap (filter (fun e => e.1 <> p) (tree m)) (cache_remove p (cache m))).

(** The entries in front of an iterator and those from it on. *)
Fixpoint split_at (k : option AddrRange) (t : list (entry V)) : option (list (entry V) * list (entry V)) :=
  match t, k with
  | [], None => Some ([], [])
  | [], Some _ => None
  | e :: t', Some k' =>
      if bool_decide (e.1 = k') then Some ([], t)
      else '(b, a) ← split_at k t'; Some (e :: b, a)
  | e :: t', None => '(b, a) ← split_at k t'; Some (e :: b, a)
  end.

(** The loop over [p, q) removes the iterator [p] each time. *)
Definition erase_range (p q : option AddrRange) (m : AddrRangeMap) : option AddrRangeMap :=
  '(before, rest) ← split_at p (tree m);
  '(mid, after) ← split_at q rest;
  let c := foldl (fun c _ => match p with Some k => cache_remove k c | None => c end) (cache m) mid in
  Some (mkMap (before ++ after) c).

Definition clear (m : AddrRangeMap) : AddrRangeMap := mkMap [] [].

Definition map_size (m : AddrRangeMap) : Z := zlen (tree m).

Definition empty (m : AddrRangeMap) : bool := map_size m =? 0.

End AddrRangeMap.
Arguments AddrRangeMap : clear implicits.

(** ** Maps of plain, disjoint ranges *)

Section Plain.
Context {V : Type} (max_cache_size : Z).
Hypothesis Hmax : 0 <= max_cache_size.
Implicit Types (m : AddrRangeMap V) (t : list (entry V)).

Record plain (r : AddrRange) : Prop := {
  pl_bits : intlvBits r = 0;
  pl_match : intlvMatch r = 0;
  pl_start : addr (ar_start r);
  pl_end : addr (ar_end r);
  pl_valid : ar_start r <= ar_end r
}.

Definition below (e e' : entry V) : Prop := ar_end e.1 < ar_start e'.1.

(** The invariant of the map: the ranges are plain, disjoint and in order, the
    cache has at most [max_cache_size] iterators, all of entries of the tree. *)
Record map_ok m : Prop := {
  mo_plain : Forall (fun e => plain e.1) (tree m);
  mo_sorted : StronglySorted below (tree m);
  mo_cache : forall k, k ∈ cache m -> exists d, (k, d) ∈ tree m;
  mo_size : zlen (cache m) <= max_cache_size
}.

Lemma plain_interleaved r : plain r -> interleaved r = false.
Proof. intros H. unfold interleaved. by rewrite (pl_bits _ H). Qed.

Lemma plain_lt r r' : plain r -> plain r' -> range_lt r r' = (ar_start r <? ar_start r').
Proof.
  intros H H'. unfold range_lt. rewrite (pl_match _ H), (pl_match _ H').
  destruct (Z.eqb_spec (ar_start r) (ar_start r')) as [->|]; [|done]. simpl. lia.
Qed.

(** Entries of the tree with the same key are the same entry. *)
Lemma sorted_key t k d d' :
  Forall (fun e => plain e.1) t -> StronglySorted below t -> (k, d) ∈ t -> (k, d') ∈ t -> d = d'.
Proof.
  induction t as [|x t IH]; intros HP HS H1 H2; [by apply elem_of_nil in H1|].
  apply Forall_cons in HP as [Hx HP]. apply StronglySorted_inv in HS as [HS HF].
  rewrite Forall_forall in HF.
  assert (forall d, (k, d) ∈ t -> x.1 <> k) as Hne.
  { intros d0 Hd0 <-. pose proof (HF _ Hd0) as Hb. unfold below in Hb. simpl in Hb.
    pose proof (pl_valid _ Hx). lia. }
  apply elem_of_cons in H1 as [<-|H1]; apply elem_of_cons in H2 as [E|H2].
  - by simplify_eq.
  - by destruct (Hne _ H2).
  - subst x. by destruct (Hne _ H1).
  - by apply IH.
Qed.

Lemma deref_Some t k e : deref t k = Some e -> e ∈ t /\ e.1 = k.
Proof.
  intros H. apply List.find_some in H as [H1 H2]. apply bool_decide_eq_true in H2.
  split; [by apply list_elem_of_In|done].
Qed.

Lemma deref_elem t k d : (k, d) ∈ t -> exists e, deref t k = Some e.
Proof.
  intros H. destruct (deref t k) as [e|] eqn:E; [by exists e|].
  apply list_elem_of_In in H. apply (List.find_none _ _ E) in H.
  simpl in H. by rewrite bool_decide_eq_false in H.
Qed.

(** ** The cache *)

Lemma zlen_removelast {A} (l : list A) : zlen (removelast l) = Z.max 0 (zlen l - 1).
Proof.
  destruct l as [|x l]; [done|]. rewrite (app_removelast_last x (l := x :: l)) at 2 by done.
  rewrite zlen_app. unfold zlen at 3. simpl length. pose proof (zlen_nonneg (removelast (x :: l))). lia.
Qed.

Lemma elem_of_removelast {A} (l : list A) x : x ∈ removelast l -> x ∈ l.
Proof.
  destruct l as [|y l]; [done|]. intros H. rewrite (app_removelast_last y (l := y :: l)) by done.
  apply elem_of_app. by left.
Qed.

Lemma addNewEntryToCache_spec k c :
  zlen c <= max_cache_size ->
  zlen (addNewEntryToCache max_cache_size k c) <= max_cache_size /\
  (forall x, x ∈ addNewEntryToCache max_cache_size k c -> x = k \/ x ∈ c).
Proof.
  intros Hc. unfold addNewEntryToCache. pose proof (zlen_removelast c). pose proof (zlen_nonneg c).
  destruct (Z.eqb_spec max_cache_size 0); simpl; [by auto|].
  destruct (Z.leb_spec max_cache_size (zlen c)).
  - destruct (Z.ltb_spec 1 max_cache_size).
    + split; [change (k :: removelast c) with ([k] ++ removelast c); rewrite zlen_app; change (zlen [k]) with 1; lia|].
      intros x Hx. apply elem_of_cons in Hx as [->|Hx]; [by left|right; by apply elem_of_removelast].
    + split; [rewrite zlen_app; change (zlen [k]) with 1; lia|].
      intros x Hx. apply elem_of_app in Hx as [Hx|Hx]; [right; by apply elem_of_removelast|].
      left. by apply list_elem_of_singleton in Hx.
  - split; [change (k :: c) with ([k] ++ c); rewrite zlen_app; change (zlen [k]) with 1; lia|].
    intros x Hx. by apply elem_of_cons in Hx.
Qed.

(** Searching the cache: a hit is an entry that satisfies the condition, and the
    cache is permuted. *)
Lemma cache_find_spec t cond seen rest :
  (forall k, k ∈ rest -> exists d, (k, d) ∈ t) ->
  (forall e, e ∈ t -> exists b, cond e.1 = Some b) ->
  exists hit, cache_find t cond seen rest = Some hit /\
    forall it c, hit = Some (it, c) ->
      it ∈ t /\ cond it.1 = Some true /\ c ≡ₚ seen ++ rest.
Proof.
  revert seen. induction rest as [|k rest IH]; intros seen Hr Hc; simpl; [by exists None|].
  destruct (Hr k) as [d Hd]; [by apply elem_of_cons; left|].
  destruct (deref_elem t k d Hd) as [e He]. rewrite He. simpl.
  apply deref_Some in He as [He1 He2]. destruct (Hc e He1) as [b Hb]. rewrite Hb. simpl.
  destruct b.
  - eexists. split; [done|]. intros it c E. simplify_eq. repeat split; [done|done|].
    by rewrite Permutation_middle.
  - destruct (IH (seen ++ [k])) as (hit & H1 & H2); [intros; apply Hr; apply elem_of_cons; by right|done|].
    exists hit. split; [done|]. intros it c E. rewrite <-app_assoc in H2. by apply H2.
Qed.

(** ** The tree *)

Lemma upper_bound_spec r t before after :
  plain r -> Forall (fun e => plain e.1) t -> StronglySorted below t -> upper_bound r t = (before, after) ->
  t = before ++ after /\
  (forall e, e ∈ before -> ar_start e.1 <= ar_start r) /\
  (forall e, e ∈ after -> ar_start r < ar_start e.1).
Proof.
  intros Hr. revert before after. induction t as [|x t IH]; intros before after HP HS; simpl.
  { intros [= <- <-]. repeat split; intros e He; by apply elem_of_nil in He. }
  apply Forall_cons in HP as [Hx HP]. apply StronglySorted_inv in HS as [HS HF].
  rewrite plain_lt by done. destruct (Z.ltb_spec (ar_start r) (ar_start x.1)).
  - intros [= <- <-]. repeat split; intros e He; [by apply elem_of_nil in He|].
    apply elem_of_cons in He as [->|He]; [done|]. rewrite Forall_forall in HF.
    pose proof (HF e He) as Hb. unfold below in Hb. pose proof (pl_valid _ Hx). lia.
  - destruct (upper_bound r t) as [b a] eqn:E. intros [= <- <-].
    destruct (IH b a HP HS eq_refl) as (-> & H1 & H2). repeat split; [|done].
    intros e He. apply elem_of_cons in He as [->|He]; [done|by apply H1].
Qed.

(** In a map of plain ranges the backwards loop looks at one entry only. *)
Lemma scan_back_spec cond before :
  Forall (fun e => plain e.1) before -> StronglySorted below before ->
  (forall e, e ∈ before -> exists b, cond e.1 = Some b) ->
  exists it, scan_back cond (rev before) = Some it /\
    (forall e, it = Some e -> e ∈ before /\ cond e.1 = Some true) /\
    (it = None -> forall pre e, before = pre ++ [e] -> cond e.1 = Some false).
Proof.
  intros HP HS Hc. destruct before as [|i pre _] using rev_ind.
  { exists None. split; [done|]. split; [done|]. intros _ [|? ?] e E; by simplify_eq. }
  rewrite rev_app_distr. simpl. destruct (Hc i) as [b Hb]; [apply elem_of_app; right; by apply list_elem_of_singleton|].
  rewrite Hb. simpl. destruct b.
  { exists (Some i). split; [done|]. split; [|done]. intros e [= <-]. split; [|done].
    apply elem_of_app; right; by apply list_elem_of_singleton. }
  exists None. split; [|split; [done|]].
  - destruct (rev pre) as [|x l] eqn:E; [done|].
    assert (x ∈ pre) as Hx by (apply list_elem_of_In, in_rev; rewrite E; by left).
    pose proof (StronglySorted_app_1_elem_of below pre [i] x i HS Hx ltac:(by apply list_elem_of_singleton)) as Hb'.
    rewrite Forall_app, Forall_singleton in HP. destruct HP as [HP Hi]. rewrite Forall_forall in HP.
    pose proof (pl_valid _ (HP _ Hx)). unfold below in Hb'.
    destruct (mergesWith x.1 i.1) eqn:Em; [|done].
    unfold mergesWith in Em. rewrite !andb_true_iff, !Z.eqb_eq in Em. lia.
  - intros _ pre' e E. apply app_inj_tail in E as [_ <-]. done.
Qed.

Lemma map_ok_cache m c :
  map_ok m -> zlen c <= max_cache_size -> (forall k, k ∈ c -> exists d, (k, d) ∈ tree m) ->
  map_ok (mkMap (tree m) c).
Proof. by intros [H1 H2 _ _] H3 H4. Qed.

Lemma map_ok_cached m e :
  map_ok m -> e ∈ tree m -> map_ok (mkMap (tree m) (addNewEntryToCache max_cache_size e.1 (cache m))).
Proof.
  intros Hm He. destruct (addNewEntryToCache_spec e.1 (cache m) (mo_size _ Hm)) as [H1 H2].
  apply map_ok_cache; [done|done|]. intros k Hk. destruct (H2 k Hk) as [->|Hk'].
  - exists e.2. by destruct e.
  - by apply (mo_cache _ Hm).
Qed.

(** A condition is local at [r] when it suffices to look at the two neighbours
    of [r] in the order of the starts. *)
Definition local_at (r : AddrRange) (cond : AddrRange -> option bool) m : Prop :=
  forall before after, tree m = before ++ after ->
    (forall e, e ∈ before -> ar_start e.1 <= ar_start r) ->
    (forall e, e ∈ after -> ar_start r < ar_start e.1) ->
    forall e, e ∈ tree m -> cond e.1 = Some true ->
      (exists pre x, before = pre ++ [x] /\ cond x.1 = Some true) \/
      (exists x post, after = x :: post /\ cond x.1 = Some true).

Lemma find_spec r cond m :
  map_ok m -> plain r -> (forall e, e ∈ tree m -> exists b, cond e.1 = Some b) -> local_at r cond m ->
  exists it m', find max_cache_size r cond m = Some (it, m') /\ tree m' = tree m /\ map_ok m' /\
    match it with
    | Some e => e ∈ tree m /\ cond e.1 = Some true
    | None => forall e, e ∈ tree m -> cond e.1 = Some false
    end.
Proof.
  intros Hm Hr Hc Hl. unfold find.
  destruct (cache_find_spec (tree m) cond [] (cache m) (mo_cache _ Hm) Hc) as (hit & -> & Hhit). simpl.
  destruct hit as [[e c]|].
  { destruct (Hhit e c eq_refl) as (He & Ht & Hp). exists (Some e), (mkMap (tree m) c). simpl in Hp.
    repeat split; try done; try apply Hm.
    - intros k Hk. apply (mo_cache _ Hm). by rewrite <-Hp.
    - simpl. unfold zlen. rewrite Hp. apply Hm. }
  clear Hhit. destruct (upper_bound r (tree m)) as [before after] eqn:E.
  destruct (upper_bound_spec _ _ _ _ Hr (mo_plain _ Hm) (mo_sorted _ Hm) E) as (Et & H1 & H2).
  pose proof (Hl before after Et H1 H2) as Hl'.
  destruct (scan_back_spec cond before) as (it & Hs & HsS & HsN).
  { pose proof (mo_plain _ Hm) as HP. rewrite Et, Forall_app in HP. apply HP. }
  { pose proof (mo_sorted _ Hm) as HP. rewrite Et in HP. by apply StronglySorted_app_1_l in HP. }
  { intros e He. apply Hc. rewrite Et. apply elem_of_app. by left. }
  assert ((match after with [] => true | x :: _ => bool_decide (cond x.1 = Some false) end = true) ->
    exists it' m', (it ← scan_back cond (rev before);
       match it with Some i => Some (Some i, mkMap (tree m) (addNewEntryToCache max_cache_size i.1 (cache m)))
       | None => Some (None, m) end) = Some (it', m') /\ tree m' = tree m /\ map_ok m' /\
       match it' with Some e => e ∈ tree m /\ cond e.1 = Some true
       | None => forall e, e ∈ tree m -> cond e.1 = Some false end) as Hback.
  { intros Ha. rewrite Hs. simpl. destruct it as [i|].
    - destruct (HsS i eq_refl) as [Hi Hci]. assert (i ∈ tree m) by (rewrite Et; apply elem_of_app; by left).
      eexists _, _. split; [done|]. split; [done|]. split; [by apply map_ok_cached|done].
    - eexists _, _. split; [done|]. split; [done|]. split; [done|]. intros e He.
      destruct (Hc e He) as [[] Hb]; [|done]. exfalso.
      destruct (Hl' e He Hb) as [(pre & x & Ex & Hx)|(x & post & -> & Hx)].
      + rewrite (HsN eq_refl pre x Ex) in Hx. done.
      + apply bool_decide_eq_true in Ha. rewrite Ha in Hx. done. }
  destruct after as [|x post]; simpl; [by apply Hback|].
  assert (x ∈ tree m) as Hx by (rewrite Et; apply elem_of_app; right; apply elem_of_cons; by left).
  destruct (Hc x Hx) as [[] Hb]; rewrite Hb; simpl.
  - eexists _, _. split; [done|]. split; [done|]. split; [by apply map_ok_cached|done].
  - apply Hback. by apply bool_decide_eq_true.
Qed.

(** ** Lookups *)

(** Two entries with a common address are the same. *)
Lemma overlap_unique t e e' a :
  Forall (fun e => plain e.1) t -> StronglySorted below t -> e ∈ t -> e' ∈ t ->
  ar_start e.1 <= a <= ar_end e.1 -> ar_start e'.1 <= a <= ar_end e'.1 -> e = e'.
Proof.
  induction t as [|x t IH]; intros HP HS H1 H2 Ha Ha'; [by apply elem_of_nil in H1|].
  apply Forall_cons in HP as [_ HP]. apply StronglySorted_inv in HS as [HS HF].
  rewrite Forall_forall in HF. unfold below in HF.
  apply elem_of_cons in H1 as [->|H1]; apply elem_of_cons in H2 as [->|H2]; [done| | |by apply IH].
  - pose proof (HF _ H2). lia.
  - pose proof (HF _ H1). lia.
Qed.

(** The part of the tree before [r] ends with the only entry that can reach [r]. *)
Lemma last_before before after e a :
  StronglySorted below (before ++ after) -> Forall (fun e => plain e.1) (before ++ after) ->
  e ∈ before -> (forall x, x ∈ before -> ar_start x.1 <= a) -> a <= ar_end e.1 -> exists pre, before = pre ++ [e].
Proof.
  intros HS HP He Hs Ha. destruct before as [|x pre _] using rev_ind; [by apply elem_of_nil in He|].
  apply elem_of_app in He as [He|He]; [|apply list_elem_of_singleton in He as ->; by exists pre].
  apply StronglySorted_app_1_l in HS.
  pose proof (StronglySorted_app_1_elem_of below pre [x] e x HS He ltac:(by apply list_elem_of_singleton)) as Hb.
  pose proof (Hs x ltac:(apply elem_of_app; right; by apply list_elem_of_singleton)). unfold below in Hb. lia.
Qed.

Lemma isSubset_plain r r' : plain r -> plain r' ->
  isSubset r r' = Some ((ar_start r' <=? ar_start r) && (ar_end r <=? ar_end r')).
Proof. intros H H'. unfold isSubset. by rewrite !plain_interleaved. Qed.

Lemma intersects_plain_eq r r' : plain r -> plain r' ->
  intersects r r' = Some ((ar_start r <=? ar_end r') && (ar_start r' <=? ar_end r)).
Proof.
  intros H H'. unfold intersects. rewrite !plain_interleaved by done. simpl. zcases; simpl; try done; lia.
Qed.

Lemma map_contains_spec r m :
  map_ok m -> plain r ->
  exists it m', map_contains max_cache_size r m = Some (it, m') /\ tree m' = tree m /\ map_ok m' /\
    forall e, it = Some e <-> e ∈ tree m /\ ar_start e.1 <= ar_start r /\ ar_end r <= ar_end e.1.
Proof.
  intros Hm Hr. pose proof (mo_plain _ Hm) as HP. rewrite Forall_forall in HP.
  assert (forall e, e ∈ tree m -> isSubset r e.1 = Some ((ar_start e.1 <=? ar_start r) && (ar_end r <=? ar_end e.1)))
    as Hsub by (intros e He; apply isSubset_plain; [done|by apply HP]).
  assert (forall e, isSubset r e.1 = Some true -> e ∈ tree m -> ar_start e.1 <= ar_start r /\ ar_end r <= ar_end e.1)
    as Htrue by (intros e Ht He; rewrite Hsub in Ht by done; injection Ht; rewrite andb_true_iff; lia).
  pose proof (pl_valid _ Hr).
  destruct (find_spec r (isSubset r) m Hm Hr) as (it & m' & H1 & H2 & H3 & H4).
  { intros e He. rewrite Hsub by done. by eexists. }
  { intros before after Et Hb Ha e He Ht. left. destruct (Htrue e Ht He).
    rewrite Et in He. apply elem_of_app in He as [He|He]; [|pose proof (Ha e He); lia].
    destruct (last_before before after e (ar_start r)) as [pre Epre];
      [rewrite <-Et; apply Hm|rewrite <-Et; apply Hm|done|done|lia|]. by exists pre, e. }
  exists it, m'. split; [done|]. split; [done|]. split; [done|]. intros e. split.
  - intros ->. destruct H4 as [He Ht]. split; [done|by apply Htrue].
  - intros (He & Hs & Hend). destruct it as [e'|].
    + f_equal. destruct H4 as [He' Ht]. destruct (Htrue e' Ht He').
      by apply (overlap_unique (tree m) _ _ (ar_start r)); [apply Hm|apply Hm|done|done|lia|lia].
    + pose proof (H4 e He) as Hf. rewrite Hsub in Hf by done. injection Hf. rewrite andb_false_iff. lia.
Qed.

Lemma RangeSize_plain a : addr a -> plain (RangeSize a 1).
Proof.
  intros Ha. pose proof Ha as [H1 H2]. unfold RangeSize, AddrRange_plain.
  assert (uint64 (a + 1 - 1) = a) as -> by (unfold uint64; rewrite wrapU_small; lia).
  split; simpl; done || lia.
Qed.

Lemma map_intersects_spec r m :
  map_ok m -> plain r ->
  exists it m', map_intersects max_cache_size r m = Some (it, m') /\ tree m' = tree m /\ map_ok m' /\
    match it with
    | Some e => e ∈ tree m /\ ar_start r <= ar_end e.1 /\ ar_start e.1 <= ar_end r
    | None => forall e, e ∈ tree m -> ar_end r < ar_start e.1 \/ ar_end e.1 < ar_start r
    end.
Proof.
  intros Hm Hr. pose proof (mo_plain _ Hm) as HP. rewrite Forall_forall in HP.
  assert (forall e, e ∈ tree m -> intersects r e.1 = Some ((ar_start r <=? ar_end e.1) && (ar_start e.1 <=? ar_end r)))
    as Hsub by (intros e He; apply intersects_plain_eq; [done|by apply HP]).
  assert (forall e, intersects r e.1 = Some true -> e ∈ tree m -> ar_start r <= ar_end e.1 /\ ar_start e.1 <= ar_end r)
    as Htrue by (intros e Ht He; rewrite Hsub in Ht by done; injection Ht; rewrite andb_true_iff; lia).
  destruct (find_spec r (intersects r) m Hm Hr) as (it & m' & H1 & H2 & H3 & H4).
  { intros e He. rewrite Hsub by done. by eexists. }
  { intros before after Et Hb Ha e He Ht. destruct (Htrue e Ht He). pose proof He as He0.
    rewrite Et in He. apply elem_of_app in He as [He|He].
    - left. destruct (last_before before after e (ar_start r)) as [pre Epre];
        [rewrite <-Et; apply Hm|rewrite <-Et; apply Hm|done|done|lia|]. by exists pre, e.
    - right. destruct after as [|x post]; [by apply elem_of_nil in He|]. exists x, post. split; [done|].
      assert (x ∈ tree m) as Hx by (rewrite Et; apply elem_of_app; right; apply elem_of_cons; by left).
      rewrite Hsub by done. f_equal. rewrite andb_true_iff, !Z.leb_le.
      pose proof (Ha x ltac:(apply elem_of_cons; by left)). pose proof (pl_valid _ (HP x Hx)).
      apply elem_of_cons in He as [->|He]; [lia|].
      pose proof (mo_sorted _ Hm) as HS. rewrite Et in HS. apply StronglySorted_app_1_r in HS.
      apply StronglySorted_inv in HS as [_ HF]. rewrite Forall_forall in HF. pose proof (HF e He) as Hbe.
      unfold below in Hbe. lia. }
  exists it, m'. split; [done|]. split; [done|]. split; [done|]. destruct it as [e|].
  - destruct H4 as [He Ht]. split; [done|by apply Htrue].
  - intros e He. pose proof (H4 e He) as Hf. rewrite Hsub in Hf by done. injection Hf. rewrite andb_false_iff. lia.
Qed.

(** ** Insertion and removal *)

Lemma tree_insert_spec r d t :
  plain r -> Forall (fun e => plain e.1) t -> StronglySorted below t ->
  (forall e, e ∈ t -> ar_end r < ar_start e.1 \/ ar_end e.1 < ar_start r) ->
  exists t', tree_insert r d t = (t', (r, d)) /\ t' ≡ₚ (r, d) :: t /\ StronglySorted below t'.
Proof.
  intros Hr. pose proof (pl_valid _ Hr). induction t as [|x t IH]; intros HP HS Hd; simpl.
  { exists [(r, d)]. repeat split; [done|]. by repeat constructor. }
  pose proof HS as HS0. apply Forall_cons in HP as [Hx HP]. apply StronglySorted_inv in HS as [HS HF].
  pose proof (pl_valid _ Hx). pose proof (Hd x ltac:(apply elem_of_cons; by left)).
  rewrite !plain_lt by done. destruct (Z.ltb_spec (ar_start r) (ar_start x.1)).
  - eexists. repeat split; [done|]. constructor; [done|]. apply Forall_cons. unfold below; simpl. split; [lia|].
    eapply Forall_impl; [exact HF|]. intros e He. unfold below in *; simpl. lia.
  - destruct (Z.ltb_spec (ar_start x.1) (ar_start r)); [|lia].
    destruct IH as (t' & -> & Hp & Hs); [done|done|intros; apply Hd; apply elem_of_cons; by right|].
    exists (x :: t'). split; [done|]. split; [by rewrite Hp; constructor|]. constructor; [done|].
    rewrite Hp. apply Forall_cons. split; [unfold below; simpl; lia|done].
Qed.

Lemma insert_spec r d m :
  map_ok m -> plain r ->
  exists it m', insert max_cache_size r d m = Some (it, m') /\ map_ok m' /\
    ((exists e, e ∈ tree m /\ ar_start r <= ar_end e.1 /\ ar_start e.1 <= ar_end r) /\
       it = None /\ tree m' = tree m \/
     (forall e, e ∈ tree m -> ar_end r < ar_start e.1 \/ ar_end e.1 < ar_start r) /\
       it = Some (r, d) /\ tree m' ≡ₚ (r, d) :: tree m).
Proof.
  intros Hm Hr. unfold insert.
  destruct (map_intersects_spec r m Hm Hr) as (it & m' & -> & Ht & Hm' & Hit). simpl. destruct it as [e|].
  { exists None, m'. split; [done|]. split; [done|]. left. split; [by exists e|done]. }
  destruct (tree_insert_spec r d (tree m)) as (t' & E & Hp & Hs); [done|apply Hm|apply Hm|done|].
  rewrite Ht, E. exists (Some (r, d)), (mkMap t' (cache m')). split; [done|]. split.
  - split; simpl; [|done| |apply Hm'].
    + rewrite Hp. apply Forall_cons. split; [done|apply Hm].
    + intros k Hk. destruct (mo_cache _ Hm' k Hk) as [d' Hd']. exists d'. rewrite Ht in Hd'.
      rewrite Hp. apply elem_of_cons. by right.
  - right. done.
Qed.

Lemma zlen_filter {A} (P : A -> Prop) `{!forall x, Decision (P x)} (l : list A) : zlen (filter P l) <= zlen l.
Proof. unfold zlen. pose proof (length_filter P l). lia. Qed.

Lemma sorted_filter (P : entry V -> Prop) `{!forall x, Decision (P x)} t :
  StronglySorted below t -> StronglySorted below (filter P t).
Proof.
  induction 1 as [|x t HS IH HF]; [constructor|]. rewrite filter_cons. destruct (decide (P x)); [|done].
  constructor; [done|]. rewrite Forall_forall in *. intros y Hy. apply list_elem_of_filter in Hy as [_ Hy]. by apply HF.
Qed.

Lemma erase_spec p d m :
  map_ok m -> (p, d) ∈ tree m ->
  exists m', erase p m = Some m' /\ map_ok m' /\ (forall e, e ∈ tree m' <-> e ∈ tree m /\ e.1 <> p).
Proof.
  intros Hm Hp. destruct (deref_elem _ _ _ Hp) as [e He]. unfold erase. rewrite He. simpl.
  eexists. split; [done|]. split; [split; simpl|].
  - pose proof (mo_plain _ Hm) as HP. rewrite Forall_forall in *. intros x Hx.
    apply list_elem_of_filter in Hx as [_ Hx]. by apply HP.
  - apply sorted_filter. apply Hm.
  - intros k Hk. apply list_elem_of_filter in Hk as [Hne Hk]. destruct (mo_cache _ Hm k Hk) as [d' Hd'].
    exists d'. by apply list_elem_of_filter.
  - pose proof (zlen_filter (fun k' => k' <> p) (cache m)). pose proof (mo_size _ Hm). unfold cache_remove. lia.
  - intros x. simpl. rewrite list_elem_of_filter. tauto.
Qed.

End Plain.
End RangeMap.
