(* ===== verification/SimulatorTheorems.v ===== *)
(** * SimulatorTheorems: the base library of the simulator

    The properties of the gem5 base code the device rests on: address decoding,
    interleaved address ranges, bit fields, logarithms and primes. *)

From stdpp Require Import prelude sorting.
From Stdlib Require Import ZArith Lia Znumtheory.
From S2P Require Import Prelude Machine Bitfield IntMath AddrRange AddrRangeMap.

(** ** Address decoding *)

Section Decoding.
Context {V : Type} (max_cache_size : Z).
Hypothesis Hmax : 0 <= max_cache_size.

(** Address decoding.  In a map of plain, disjoint ranges [contains] finds the
    entry whose range holds the address, and only that one, whatever the lookups
    before have left in the cache; the lookup keeps the tree and the invariant. *)
Theorem map_lookup a (m : RangeMap.AddrRangeMap V) :
  RangeMap.map_ok max_cache_size m -> addr a ->
  exists it m', RangeMap.map_contains_addr max_cache_size a m = Some (it, m') /\
    RangeMap.tree m' = RangeMap.tree m /\ RangeMap.map_ok max_cache_size m' /\
    forall e, it = Some e <-> e ∈ RangeMap.tree m /\ contains e.1 a = true.
Proof.
  intros Hm Ha. destruct (RangeMap.map_contains_spec max_cache_size Hmax (RangeSize a 1) m Hm) as (it & m' & H1 & H2 & H3 & H4).
  { by apply RangeMap.RangeSize_plain. }
  exists it, m'. split; [done|]. split; [done|]. split; [done|]. intros e. rewrite H4.
  destruct Ha. assert (ar_end (RangeSize a 1) = a) as -> by (simpl; unfold uint64; rewrite wrapU_small; lia).
  split; intros [He Hc]; (split; [done|]); pose proof (RangeMap.mo_plain _ _ Hm) as HP;
    rewrite Forall_forall in HP; pose proof (RangeMap.plain_interleaved _ (HP e He)) as Hi; revert Hc;
    rewrite contains_iff, Hi; simpl; intuition (try done; lia).
Qed.

(** Adding a range.  [insert] refuses a range exactly when it has an address in
    common with an entry; otherwise the tree gains exactly the new entry.  Either
    way the ranges stay disjoint and in order and the cache valid. *)
Theorem map_insert r d (m : RangeMap.AddrRangeMap V) :
  RangeMap.map_ok max_cache_size m -> RangeMap.plain r ->
  exists it m', RangeMap.insert max_cache_size r d m = Some (it, m') /\ RangeMap.map_ok max_cache_size m' /\
    (it = None /\ (exists e a, e ∈ RangeMap.tree m /\ contains e.1 a = true /\ contains r a = true) /\
       RangeMap.tree m' = RangeMap.tree m \/
     it = Some (r, d) /\ (forall e a, e ∈ RangeMap.tree m -> contains e.1 a = true -> contains r a = false) /\
       RangeMap.tree m' ≡ₚ (r, d) :: RangeMap.tree m).
Proof.
  intros Hm Hr. destruct (RangeMap.insert_spec max_cache_size Hmax r d m Hm Hr) as (it & m' & H1 & H2 & H3).
  exists it, m'. split; [done|]. split; [done|].
  pose proof (RangeMap.mo_plain _ _ Hm) as HP. rewrite Forall_forall in HP.
  assert (forall e a, e ∈ RangeMap.tree m -> contains e.1 a = true <-> ar_start e.1 <= a <= ar_end e.1) as Hin.
  { intros e a He. rewrite contains_iff, (RangeMap.plain_interleaved _ (HP e He)). naive_solver. }
  assert (forall a, contains r a = true <-> ar_start r <= a <= ar_end r) as Hinr.
  { intros a. rewrite contains_iff, (RangeMap.plain_interleaved _ Hr). naive_solver. }
  destruct H3 as [((e & He & Hs1 & Hs2) & -> & Ht)|(Hd & -> & Ht)]; [left|right]; (split; [done|]); (split; [|done]).
  - exists e, (Z.max (ar_start r) (ar_start e.1)). split; [done|]. rewrite Hin, Hinr by done.
    pose proof (RangeMap.pl_valid _ Hr). pose proof (RangeMap.pl_valid _ (HP e He)). lia.
  - intros e a He Hc. apply Hin in Hc; [|done]. destruct (contains r a) eqn:E; [|done].
    apply Hinr in E. destruct (Hd e He); lia.
Qed.

End Decoding.

(** The range of the accelerator's registers in an otherwise empty map. *)
Definition demo_map : RangeMap.AddrRangeMap Z := RangeMap.mkMap [(RangeSize 0x1000 0x100, 7)] [].

Lemma demo_map_ok : RangeMap.map_ok 2 demo_map.
Proof.
  split; [|repeat constructor|intros k Hk; by apply elem_of_nil in Hk|vm_compute; congruence].
  apply Forall_singleton. split; vm_compute; intuition congruence.
Qed.

Lemma map_lookup_witness :
  exists it m', RangeMap.map_contains_addr 2 0x1010 demo_map = Some (it, m') /\
    RangeMap.tree m' = RangeMap.tree demo_map /\ RangeMap.map_ok 2 m' /\
    forall e, it = Some e <-> e ∈ RangeMap.tree demo_map /\ contains e.1 0x1010 = true.
Proof. apply (map_lookup 2); [lia|exact demo_map_ok|vm_compute; intuition congruence]. Defined.

Lemma map_insert_witness :
  exists it m', RangeMap.insert 2 (RangeSize 0x2000 16) 8 demo_map = Some (it, m') /\ RangeMap.map_ok 2 m' /\
    (it = None /\ (exists e a, e ∈ RangeMap.tree demo_map /\ contains e.1 a = true /\ contains (RangeSize 0x2000 16) a = true) /\
       RangeMap.tree m' = RangeMap.tree demo_map \/
     it = Some (RangeSize 0x2000 16, 8) /\
       (forall e a, e ∈ RangeMap.tree demo_map -> contains e.1 a = true -> contains (RangeSize 0x2000 16) a = false) /\
       RangeMap.tree m' ≡ₚ (RangeSize 0x2000 16, 8) :: RangeMap.tree demo_map).
Proof. apply (map_insert 2); [lia|exact demo_map_ok|split; vm_compute; intuition congruence]. Defined.

(** The loop of [erase(p, q)] removes [p] from the cache each time and leaves the
    iterators of the other erased entries there; the next lookup dereferences
    one of them. *)
Example erase_range_dangling :
  let r k := RangeSize (k * 16) 16 in
  let m := RangeMap.mkMap [(r 1, 1); (r 2, 2); (r 3, 3)] [r 2] in
  exists m', RangeMap.erase_range (Some (r 1)) (Some (r 3)) m = Some m' /\
    RangeMap.cache m' = [r 2] /\ RangeMap.map_contains_addr 2 48 m' = None.
Proof. eexists. split; [vm_compute; reflexivity|]. split; vm_compute; reflexivity. Qed.

(** ** Interleaved ranges *)

(** The stripes partition the range.  Every address of an interleaved range,
    hashed or not, is contained in exactly one of the ranges that differ from it
    in the match value only. *)
Theorem stripe_partition r a :
  wf_range r -> interleaved r = true -> ar_start r <= a <= ar_end r ->
  exists m, 0 <= m < 2 ^ intlvBits r /\ contains (with_match r m) a = true /\
    forall m', contains (with_match r m') a = true -> m' = m.
Proof. apply stripe_unique. Qed.

(** Offsets identify addresses.  Two different addresses contained in the same
    range, interleaved and hashed or not, have different offsets. *)
Theorem offset_injective r a b :
  wf_range r -> addr a -> addr b -> contains r a = true -> contains r b = true -> a <> b ->
  getOffset r a <> getOffset r b.
Proof. intros Hr Ha Hb Ca Cb Hne E. apply Hne. by apply (getOffset_inj r). Qed.

(** Four channels interleaved on bits 7:6, hashed with bits 13:12. *)
Definition demo_range : AddrRange := mkRange 0 0xFFFF 7 13 2 1.

Lemma demo_range_wf : wf_range demo_range.
Proof. split; vm_compute; intuition congruence. Qed.

Lemma stripe_partition_witness :
  exists m, 0 <= m < 2 ^ intlvBits demo_range /\ contains (with_match demo_range m) 0x3040 = true /\
    forall m', contains (with_match demo_range m') 0x3040 = true -> m' = m.
Proof. apply (stripe_partition demo_range 0x3040 demo_range_wf); [reflexivity|vm_compute; intuition congruence]. Defined.

Lemma offset_injective_witness : getOffset demo_range 0x40 <> getOffset demo_range 0x1000.
Proof.
  apply (offset_injective demo_range 0x40 0x1000 demo_range_wf);
    [vm_compute; intuition congruence|vm_compute; intuition congruence|reflexivity|reflexivity|lia].
Defined.

(** [isSubset] compares the size of the range with the granularity of the other;
    the size of the whole address space overflows to 0, so the whole space is
    reported to be a subset of one stripe. *)
Example isSubset_whole_space :
  let all := AddrRange_plain 0 MaxAddr in
  let stripe := mkRange 0 MaxAddr 6 63 1 0 in
  size all = 0 /\ isSubset all stripe = Some true /\ contains all 64 = true /\ contains stripe 64 = false.
Proof. vm_compute. repeat split; reflexivity. Qed.

(** ** Bit fields *)

(** Reversing twice is the identity.  [reverseBits] on [size] bytes puts bit
    [i] at [8 * size - 1 - i], and reversing again gives the value back. *)
Theorem reverse_involution val size :
  0 <= size <= 8 -> 0 <= val < 2 ^ (8 * size) ->
  (once ← reverseBits val size; reverseBits once size) = Some val.
Proof.
  intros Hs Hv. apply wp_eq, wp_bind. eapply wp_mono; [apply reverseBits_spec; lia|]. cbn beta. intros once H1.
  assert (0 <= once) as Hpos.
  { apply Z.bits_iff_nonneg_ex. exists (8 * size). intros i Hi. rewrite H1 by lia. destruct (Z.ltb_spec i (8 * size)); [lia|done]. }
  eapply wp_mono; [apply reverseBits_spec; lia|]. cbn beta. intros twice H2. apply Z.bits_inj'. intros i Hi.
  rewrite H2 by lia. destruct (Z.ltb_spec i (8 * size)); simpl.
  - rewrite H1 by lia. destruct (Z.ltb_spec (8 * size - 1 - i) (8 * size)); [|lia]. simpl. f_equal. lia.
  - symmetry. apply (testbit_high _ (8 * size)); lia.
Qed.

Lemma reverse_involution_witness : (once ← reverseBits 0x1234 2; reverseBits once 2) = Some 0x1234.
Proof. apply (reverse_involution 0x1234 2); lia. Defined.

(** ** Powers of two *)

(** The logarithms and the roundings to powers of two agree: [findMsbSet] and
    [floorLog2] give the integer logarithm, and [alignToPowerOfTwo] and
    [ceilPow2] the smallest power of two that is not below the value. *)
Theorem power_of_two_rounding val :
  1 < val <= 2 ^ 63 ->
  floorLog2_64 val = Some (findMsbSet val) /\ findMsbSet val = Z.log2 val /\
  ceilPow2 val = Some (alignToPowerOfTwo val) /\
  val <= alignToPowerOfTwo val /\ (forall k, 0 <= k -> val <= 2 ^ k -> alignToPowerOfTwo val <= 2 ^ k) /\
  isPowerOf2 (alignToPowerOfTwo val) = true.
Proof.
  intros Hv. rewrite findMsbSet_log2, floorLog2_64_spec, alignToPowerOfTwo_spec by lia.
  pose proof (Z.log2_up_nonneg val). pose proof (Z.log2_log2_up_spec val ltac:(lia)) as [_ Hup].
  assert (Z.log2_up val <= 63) as H63 by (rewrite <- (Z.log2_up_pow2 63) by lia; apply Z.log2_up_le_mono; lia).
  assert (2 ^ Z.log2_up val <= 2 ^ 63) by (apply Z.pow_le_mono_r; lia).
  assert (0 < 2 ^ Z.log2_up val) by lia.
  split; [done|]. split; [done|]. split; [|split; [done|split]].
  - unfold ceilPow2. rewrite ceilLog2_spec by lia. cbn [mbind option_bind]. f_equal.
    rewrite Z.shiftl_1_l. unfold uint64. rewrite wrapU_small; [done|]. lia.
  - intros k Hk Hle. apply Z.pow_le_mono_r; [lia|].
    rewrite <- (Z.log2_up_pow2 k) by lia. by apply Z.log2_up_le_mono.
  - apply isPowerOf2_spec; [lia|]. by exists (Z.log2_up val).
Qed.

Lemma power_of_two_rounding_witness : ceilPow2 100 = Some (alignToPowerOfTwo 100).
Proof. apply (power_of_two_rounding 100). lia. Defined.

(** ** Primes *)

(** [prevPrime] is right only for some residues.  For [n] congruent to 3 or 4
    modulo 6 it returns the largest prime that is not above [n].  For the others
    the toggling decrement starts out of phase, visits multiples of 3, and
    [isPrime], which never tries 2 and 3, accepts them: for 25 it returns 21. *)
Theorem prevPrime_residues :
  (forall n, 9 <= n < 46337 * 46337 -> n mod 6 = 3 \/ n mod 6 = 4 ->
     exists p, prevPrime n = Some p /\ prime p /\ p <= n /\ forall q, p < q <= n -> ~ prime q) /\
  prevPrime 25 = Some 21 /\ ~ prime 21.
Proof.
  split; [exact prevPrime_spec|]. split; [vm_compute; reflexivity|].
  apply (not_prime_divisor 3 21); [lia|by exists 7].
Qed.
