(* ===== verification/EventQueue.v ===== *)
(** * EventQueue: the event queue of the simulator

    Translates [gem5-X-TiC-SAT/src/sim/eventq.hh], [eventq_impl.hh] and
    [eventq.cc], and the flag words of [base/flags.hh].  Events are heap objects:
    the heap is a finite map from addresses to events, a pointer is an optional
    address.  The queue is the linked list of linked lists of the source, with
    its stale [nextBin] pointers.  Dereferencing a null or dangling pointer, a
    failing [assert], [panic] and a loop that does not come to an end are [None].
    The code is that of one thread holding the queue: the locks have no effect.
    [process], the action of an event, is a parameter. *)

From stdpp Require Import prelude gmap.
From Stdlib Require Import ZArith Lia.
From S2P Require Import Prelude Machine.

(** ** Flag words *)

Module Flags.
Definition isSet (flags mask : Z) : bool := negb (Z.land flags mask =? 0).
Definition allSet (flags mask : Z) : bool := Z.land flags mask =? mask.
Definition noneSet (flags mask : Z) : bool := Z.land flags mask =? 0.
Definition clear (flags mask : Z) : Z := Z.ldiff flags mask.
Definition set (flags mask : Z) : Z := Z.lor flags mask.
Definition set_val (flags f : Z) (val : bool) : Z := Z.lor (Z.ldiff flags f) (if val then f else 0).
Definition update (flags fl mask : Z) : Z := Z.lor (Z.ldiff flags mask) (Z.land fl mask).
End Flags.

Module EventQ.

(** ** Events *)

(** The flags of [EventBase], 16 bits. *)
Definition PublicRead : Z := 0x003f.
Definition PublicWrite : Z := 0x001d.
Definition Squashed : Z := 0x0001.
Definition Scheduled : Z := 0x0002.
Definition Managed : Z := 0x0004.
Definition IsExitEvent : Z := 0x0010.
Definition IsMainQueue : Z := 0x0020.
Definition Initialized : Z := 0x7a40.
Definition InitMask : Z := 0xffc0.

Abbreviation ptr := positive.

Record Event := mkEvent {
  nextBin : option ptr;
  nextInBin : option ptr;
  when_ : Z;
  priority : Z;
  flags : Z;
  queue : option Z
}.

Definition set_nextBin (p : option ptr) (e : Event) : Event :=
  mkEvent p (nextInBin e) (when_ e) (priority e) (flags e) (queue e).
Definition set_nextInBin (p : option ptr) (e : Event) : Event :=
  mkEvent (nextBin e) p (when_ e) (priority e) (flags e) (queue e).
Definition set_flags (f : Z) (e : Event) : Event :=
  mkEvent (nextBin e) (nextInBin e) (when_ e) (priority e) f (queue e).
Definition setWhen (when q : Z) (e : Event) : Event :=
  mkEvent (nextBin e) (nextInBin e) when (priority e) (flags e) (Some q).

Definition initialized (e : Event) : bool := Z.land (flags e) InitMask =? Initialized.
Definition scheduled (e : Event) : bool := Flags.isSet (flags e) Scheduled.
Definition squashed (e : Event) : bool := Flags.isSet (flags e) Squashed.
Definition isExitEvent (e : Event) : bool := Flags.isSet (flags e) IsExitEvent.
Definition isManaged (e : Event) : bool := Flags.isSet (flags e) Managed.
Definition squash (e : Event) : Event := set_flags (Flags.set (flags e) Squashed) e.

Definition getFlags (e : Event) : Z := Z.land (flags e) PublicRead.
Definition isFlagSet (f : Z) (e : Event) : option bool :=
  _ ← assert_ (Flags.noneSet f (Z.lnot PublicRead)); Some (Flags.isSet (flags e) f).
Definition setFlags (f : Z) (e : Event) : option Event :=
  _ ← assert_ (Flags.noneSet f (Z.lnot PublicWrite)); Some (set_flags (Flags.set (flags e) f) e).
Definition clearFlags (f : Z) (e : Event) : option Event :=
  _ ← assert_ (Flags.noneSet f (Z.lnot PublicWrite)); Some (set_flags (Flags.clear (flags e) f) e).

(** The constructor. *)
Definition Event_new (p f : Z) : option Event :=
  _ ← assert_ (Flags.noneSet f (Z.lnot PublicWrite));
  Some (mkEvent None None 0 p (Z.lor Initialized f) None).

(** The comparison operators. *)
Definition ev_lt (l r : Event) : bool :=
  (when_ l <? when_ r) || ((when_ l =? when_ r) && (priority l <? priority r)).
Definition ev_le (l r : Event) : bool :=
  (when_ l <? when_ r) || ((when_ l =? when_ r) && (priority l <=? priority r)).
Definition ev_eq (l r : Event) : bool := (when_ l =? when_ r) && (priority l =? priority r).

(** ** The queue *)

Record State := mkState {
  heap : gmap ptr Event;
  qid : Z;                    (* the address of the queue itself *)
  head : option ptr;
  curTick : Z;
  async_queue : list ptr
}.

Definition set_heap (h : gmap ptr Event) (st : State) : State :=
  mkState h (qid st) (head st) (curTick st) (async_queue st).
Definition set_head (p : option ptr) (st : State) : State :=
  mkState (heap st) (qid st) p (curTick st) (async_queue st).
Definition setCurTick (t : Z) (st : State) : State :=
  mkState (heap st) (qid st) (head st) t (async_queue st).
Definition set_async (l : list ptr) (st : State) : State :=
  mkState (heap st) (qid st) (head st) (curTick st) l.

Definition EventQueue_new (h : gmap ptr Event) (q : Z) : State := mkState h q None 0 [].

(** [p->...] as an assignment. *)
Definition upd (p : ptr) (f : Event -> Event) (st : State) : option State :=
  e ← heap st !! p; Some (set_heap (<[p := f e]> (heap st)) st).

Definition deref (p : ptr) (st : State) : option Event := heap st !! p.

Definition insertBefore (event : ptr) (curr : option ptr) (st : State) : option (ptr * State) :=
  e ← deref event st;
  match curr with
  | None => st ← upd event (fun e => set_nextInBin None (set_nextBin None e)) st; Some (event, st)
  | Some c =>
      ce ← deref c st;
      if ev_lt e ce then
        st ← upd event (fun e => set_nextInBin None (set_nextBin (Some c) e)) st; Some (event, st)
      else
        st ← upd event (fun e => set_nextInBin (Some c) (set_nextBin (nextBin ce) e)) st; Some (event, st)
  end.

(** [while (curr && *curr < *event) { prev = curr; curr = curr->nextBin; }] *)
Fixpoint find_bin (fuel : nat) (h : gmap ptr Event) (e : Event) (prev : ptr) (curr : option ptr)
  : option (ptr * option ptr) :=
  match fuel with
  | O => None
  | S fuel =>
      match curr with
      | None => Some (prev, None)
      | Some c => ce ← h !! c; if ev_lt ce e then find_bin fuel h e c (nextBin ce) else Some (prev, Some c)
      end
  end.

(** Enough iterations to walk over every event of the heap. *)
Definition fuel_of (st : State) : nat := S (size (heap st)).

Definition insert (event : ptr) (st : State) : option State :=
  e ← deref event st;
  match head st with
  | None => '(x, st) ← insertBefore event None st; Some (set_head (Some x) st)
  | Some h =>
      he ← deref h st;
      if ev_le e he then '(x, st) ← insertBefore event (Some h) st; Some (set_head (Some x) st)
      else
        '(prev, curr) ← find_bin (fuel_of st) (heap st) e h (nextBin he);
        '(x, st) ← insertBefore event curr st;
        upd prev (set_nextBin (Some x)) st
  end.

(** [while (event != next) { if (!next) panic(); curr = next; next = next->nextInBin; }] *)
Fixpoint find_item (fuel : nat) (h : gmap ptr Event) (event curr : ptr) (next : option ptr) : option ptr :=
  match fuel with
  | O => None
  | S fuel =>
      match next with
      | None => None
      | Some n => if decide (n = event) then Some curr else ne ← h !! n; find_item fuel h event n (nextInBin ne)
      end
  end.

(** The new top of the bin, null when the bin has become empty and the next bin
    takes its place. *)
Definition removeItem (event top : ptr) (st : State) : option (option ptr * State) :=
  te ← deref top st;
  if decide (event = top) then
    match nextInBin te with
    | None => Some (nextBin te, st)
    | Some n => st ← upd n (set_nextBin (nextBin te)) st; Some (Some n, st)
    end
  else
    curr ← find_item (fuel_of st) (heap st) event top (nextInBin te);
    ee ← deref event st;
    st ← upd curr (set_nextInBin (nextInBin ee)) st;
    Some (Some top, st).

Definition remove (event : ptr) (st : State) : option State :=
  h ← head st;
  e ← deref event st;
  _ ← assert_ (bool_decide (queue e = Some (qid st)));
  he ← deref h st;
  if ev_eq he e then '(x, st) ← removeItem event h st; Some (set_head x st)
  else
    '(prev, curr) ← find_bin (fuel_of st) (heap st) e h (nextBin he);
    c ← curr;
    ce ← deref c st;
    _ ← assert_ (ev_eq ce e);
    '(x, st) ← removeItem event c st;
    upd prev (set_nextBin x) st.

(** Managed events: [acquireImpl] does nothing, [releaseImpl] deletes an event that
    is not scheduled. *)
Definition acquire (event : ptr) (st : State) : option State := _ ← deref event st; Some st.
Definition release (event : ptr) (st : State) : option State :=
  e ← deref event st;
  Some (if isManaged e && negb (scheduled e) then set_heap (delete event (heap st)) st else st).

Section Queue.
(** [inParallelMode], and whether [this] is the current event queue. *)
Context (inParallelMode isCurrent : bool).

Definition asyncInsert (event : ptr) (st : State) : State := set_async (async_queue st ++ [event]) st.

Definition schedule (event : ptr) (when : Z) (global : bool) (st : State) : option State :=
  _ ← assert_ (curTick st <=? when);
  e ← deref event st;
  _ ← assert_ (negb (scheduled e));
  _ ← assert_ (initialized e);
  st ← upd event (setWhen when (qid st)) st;
  st ← (if inParallelMode && (negb isCurrent || global) then Some (asyncInsert event st) else insert event st);
  st ← upd event (fun e => set_flags (Flags.set (flags e) Scheduled) e) st;
  acquire event st.

Definition deschedule (event : ptr) (st : State) : option State :=
  e ← deref event st;
  _ ← assert_ (scheduled e);
  _ ← assert_ (initialized e);
  _ ← assert_ (negb inParallelMode || isCurrent);
  st ← remove event st;
  st ← upd event (fun e => set_flags (Flags.clear (Flags.clear (flags e) Squashed) Scheduled) e) st;
  release event st.

Definition reschedule (event : ptr) (when : Z) (always : bool) (st : State) : option State :=
  _ ← assert_ (curTick st <=? when);
  e ← deref event st;
  _ ← assert_ (always || scheduled e);
  _ ← assert_ (initialized e);
  _ ← assert_ (negb inParallelMode || isCurrent);
  st ← (if scheduled e then remove event st else acquire event st);
  st ← upd event (setWhen when (qid st)) st;
  st ← insert event st;
  upd event (fun e => set_flags (Flags.set (Flags.clear (flags e) Squashed) Scheduled) e) st.

Fixpoint insert_all (l : list ptr) (st : State) : option State :=
  match l with
  | [] => Some (set_async [] st)
  | e :: l => st ← insert e st; insert_all l st
  end.

(** The loop pops the front of the list after each insertion. *)
Definition handleAsyncInsertions (st : State) : option State :=
  _ ← assert_ isCurrent; insert_all (async_queue st) st.
End Queue.

Section Service.
(** [process] acts on the rest of the simulated system, [U], and on the queue. *)
Context {U : Type}.
Variable process : ptr -> U * State -> option (U * State).

Definition serviceOne (us : U * State) : option (option ptr * (U * State)) :=
  let '(u, st) := us in
  event ← head st;
  e ← deref event st;
  st ← upd event (fun e => set_flags (Flags.clear (flags e) Scheduled) e) st;
  st ← match nextInBin e with
       | Some n => st ← upd n (set_nextBin (nextBin e)) st; Some (set_head (Some n) st)
       | None => Some (set_head (nextBin e) st)
       end;
  if negb (squashed e) then
    '(u, st) ← process event (u, setCurTick (when_ e) st);
    e' ← deref event st;
    if isExitEvent e' then
      _ ← assert_ (negb (isManaged e') || negb (Flags.isSet (flags e') IsMainQueue));
      Some (Some event, (u, st))
    else st ← release event st; Some (None, (u, st))
  else
    st ← upd event (fun e => set_flags (Flags.clear (flags e) Squashed) e) st;
    st ← release event st; Some (None, (u, st)).

Definition nextTick (st : State) : option Z := h ← head st; e ← deref h st; Some (when_ e).

Fixpoint serviceEvents (fuel : nat) (when : Z) (us : U * State) : option (U * State) :=
  match fuel with
  | O => None
  | S fuel =>
      let '(u, st) := us in
      match head st with
      | None => Some (u, setCurTick when st)
      | Some _ =>
          t ← nextTick st;
          if when <? t then Some (u, setCurTick when st)
          else '(_, us) ← serviceOne us; serviceEvents fuel when us
      end
  end.
End Service.

(** [debugVerify]: the walk over one bin, then over the bins. *)
Fixpoint verify_bin (fuel : nat) (h : gmap ptr Event) (next : option ptr) (acc : gset ptr * Z * Z)
  : option (option (gset ptr * Z * Z)) :=
  match fuel with
  | O => None
  | S fuel =>
      match next with
      | None => Some (Some acc)
      | Some n =>
          let '(seen, time, prio) := acc in
          e ← h !! n;
          if (when_ e <? time) || ((when_ e =? time) && (priority e <? prio)) || bool_decide (n ∈ seen)
          then Some None
          else verify_bin fuel h (nextInBin e) ({[n]} ∪ seen, when_ e, priority e)
      end
  end.

Fixpoint verify_bins (fuel : nat) (h : gmap ptr Event) (next : option ptr) (acc : gset ptr * Z * Z) : option bool :=
  match fuel with
  | O => None
  | S fuel =>
      match next with
      | None => Some true
      | Some n =>
          r ← verify_bin (S (size h)) h (Some n) acc;
          match r with
          | None => Some false
          | Some acc => e ← h !! n; verify_bins fuel h (nextBin e) acc
          end
      end
  end.

Definition debugVerify (st : State) : option bool := verify_bins (fuel_of st) (heap st) (head st) (∅, 0, 0).

Definition replaceHead (s : option ptr) (st : State) : option ptr * State := (head st, set_head s st).

(** ** Checkpoints *)

(** The three scalars an event writes to a checkpoint; [_flags] is a [short]. *)
Definition serialize (e : Event) : Z * Z * Z := (when_ e, priority e, wrapS 16 (flags e)).

Definition unserialize (cp : Z * Z * Z) (e : Event) : option Event :=
  let '(w, p, f) := cp in
  _ ← assert_ (negb (scheduled e));
  _ ← assert_ (initialized e);
  let f := Flags.set (wrapU 16 f) Initialized in
  let f := if Flags.isSet f Scheduled && negb (Flags.isSet f Squashed)
           then Flags.clear f (Z.lor Squashed Scheduled) else f in
  Some (mkEvent (nextBin e) (nextInBin e) w p f (queue e)).

Definition checkpointReschedule (event : ptr) (st : State) : option State :=
  e ← deref event st;
  if scheduled e then insert event st else Some st.

End EventQ.
