(* ===== verification/EventShape.v ===== *)
(** * EventShape: the linked lists of the event queue

    The event queue is a list of bins, each a stack of events with the same time
    and priority.  This file describes the pointer structure: [in_bin] is a chain
    of [nextInBin] pointers, [bins_at] the chain of the tops of the bins through
    [nextBin]; the [nextBin] pointers below the top of a bin are not constrained,
    they may be stale.  Both speak of the pointer fields as functions of the
    address, so that an assignment is a change at one point.  The lemmas say what
    [insertBefore], [insert], [removeItem] and [remove] do to the structure. *)

From stdpp Require Import prelude gmap.
From Stdlib Require Import ZArith Lia.
From S2P Require Import Prelude Machine EventQueue.
Import EventQ.

(** ** Keys *)

(** The order of events: earlier first, then by priority. *)
Definition klt (a b : Z * Z) : Prop := a.1 < b.1 \/ a.1 = b.1 /\ a.2 < b.2.
Definition key_of (e : Event) : Z * Z := (when_ e, priority e).
Definition key (h : gmap ptr Event) (p : ptr) : Z * Z := default (0, 0) (key_of <$> h !! p).

#[export] Instance klt_dec a b : Decision (klt a b).
Proof. unfold klt. apply _. Defined.

Lemma klt_trans a b c : klt a b -> klt b c -> klt a c.
Proof. unfold klt. lia. Qed.

Lemma klt_irrefl a : ~ klt a a.
Proof. unfold klt. lia. Qed.

Lemma klt_total a b : klt a b \/ a = b \/ klt b a.
Proof.
  destruct a as [a1 a2], b as [b1 b2]. unfold klt. simpl.
  destruct (Z.lt_trichotomy a1 b1) as [|[->|]]; [lia| |lia].
  destruct (Z.lt_trichotomy a2 b2) as [|[->|]]; [lia|auto|lia].
Qed.

Lemma ev_lt_key l r : ev_lt l r = true <-> klt (key_of l) (key_of r).
Proof. unfold ev_lt, klt, key_of. simpl. lia. Qed.

Lemma ev_le_key l r : ev_le l r = true <-> ~ klt (key_of r) (key_of l).
Proof. unfold ev_le, klt, key_of. simpl. lia. Qed.

Lemma ev_eq_key l r : ev_eq l r = true <-> key_of l = key_of r.
Proof.
  unfold ev_eq, key_of. rewrite andb_true_iff, !Z.eqb_eq. split; [by intros [-> ->]|by intros [=]].
Qed.

(** ** The pointer structure *)

Section Shape.
Implicit Types (nib nb : ptr -> option (option ptr)) (p q : option ptr) (b l : list ptr) (bins : list (list ptr)).

Fixpoint in_bin nib p l : Prop :=
  match l with
  | [] => p = None
  | x :: l => p = Some x /\ exists q, nib x = Some q /\ in_bin nib q l
  end.

Fixpoint bins_at nib nb p bins : Prop :=
  match bins with
  | [] => p = None
  | b :: bins => in_bin nib p b /\ exists x q, p = Some x /\ nb x = Some q /\ bins_at nib nb q bins
  end.

(** A walk over whole bins, from the top [x] of one to the top [y] of another. *)
Fixpoint seg nib nb (x : ptr) bins (y : ptr) : Prop :=
  match bins with
  | [] => x = y
  | b :: bins => exists c, nb x = Some (Some c) /\ in_bin nib (Some c) b /\ seg nib nb c bins y
  end.

Lemma in_bin_frame nib nib' p l :
  (forall x, x ∈ l -> nib' x = nib x) -> in_bin nib p l -> in_bin nib' p l.
Proof.
  revert p. induction l as [|x l IH]; intros p Hf; simpl; [done|]. intros (-> & q & Hq & Hl).
  split; [done|]. exists q. rewrite Hf by set_solver. split; [done|]. apply IH; [|done]. set_solver.
Qed.

Lemma top_in_bin nib x b : in_bin nib (Some x) b -> x ∈ b.
Proof. destruct b as [|y b]; [done|]. intros ([= ->] & _). set_solver. Qed.

Lemma bins_at_frame nib nb nib' nb' p bins :
  (forall x, x ∈ concat bins -> nib' x = nib x) -> (forall x, x ∈ concat bins -> nb' x = nb x) ->
  bins_at nib nb p bins -> bins_at nib' nb' p bins.
Proof.
  revert p. induction bins as [|b bins IH]; intros p H1 H2; simpl in *; [done|].
  intros (Hb & x & q & -> & Hq & Hr). split; [eapply in_bin_frame; [|done]; set_solver|].
  pose proof (top_in_bin _ _ _ Hb) as Hx.
  exists x, q. rewrite H2 by set_solver. do 2 (split; [done|]). apply IH; [set_solver|set_solver|done].
Qed.

Lemma in_bin_top nib p b : in_bin nib p b -> b <> [] -> exists x b', b = x :: b' /\ p = Some x.
Proof. destruct b as [|x b']; [done|]. intros [-> _] _. by exists x, b'. Qed.

(** A walk followed by the rest of the queue. *)
Lemma seg_bins nib nb x bins y q rest :
  seg nib nb x bins y -> nb y = Some q -> bins_at nib nb q rest ->
  exists q', nb x = Some q' /\ bins_at nib nb q' (bins ++ rest).
Proof.
  revert x. induction bins as [|b bins IH]; intros x; simpl; [intros -> Hy Hr; by exists q|].
  intros (c & Hc & Hb & Hs) Hy Hr. exists (Some c). split; [done|]. split; [done|].
  destruct (IH c Hs Hy Hr) as (q' & Hq' & Hr'). by exists c, q'.
Qed.

Lemma seg_end nib nb x bins y : seg nib nb x bins y -> y ∈ x :: concat bins.
Proof.
  revert x. induction bins as [|b bins IH]; intros x; simpl; [intros ->; set_solver|].
  intros (c & _ & Hb & Hs). pose proof (top_in_bin _ _ _ Hb). specialize (IH c Hs). set_solver.
Qed.

(** A walk does not look at the [nextBin] pointer of its end. *)
Lemma seg_frame nib nb nib' nb' x bins y :
  (forall z, z ∈ concat bins -> nib' z = nib z) ->
  (forall z, z ∈ x :: concat bins -> z <> y -> nb' z = nb z) ->
  NoDup (x :: concat bins) -> seg nib nb x bins y -> seg nib' nb' x bins y.
Proof.
  revert x. induction bins as [|b bins IH]; intros x H1 H2 Hnd; simpl in *; [done|].
  intros (c & Hc & Hb & Hs).
  pose proof (top_in_bin _ _ _ Hb) as Hcb. pose proof (seg_end _ _ _ _ _ Hs) as Hy.
  assert (x <> y) as Hxy by (intros ->; apply NoDup_cons in Hnd as [Hn _]; set_solver).
  exists c. rewrite H2 by set_solver. split; [done|]. split; [eapply in_bin_frame; [|done]; set_solver|].
  apply IH; [set_solver|set_solver| |done].
  apply NoDup_cons in Hnd as [_ Hnd]. apply NoDup_app in Hnd as (_ & Hd & Hnd).
  apply NoDup_cons. split; [by apply Hd|done].
Qed.

End Shape.

(** ** Bins in order *)

Section Order.
Variable k : ptr -> Z * Z.

(** Every bin has one key, and the keys of the bins increase. *)
Fixpoint binned (bins : list (list ptr)) : Prop :=
  match bins with
  | [] => True
  | b :: bins =>
      (forall x y, x ∈ b -> y ∈ b -> k x = k y) /\
      (forall x y, x ∈ b -> y ∈ concat bins -> klt (k x) (k y)) /\ binned bins
  end.

(** Where an event goes in the flat list: before the first event that is not
    earlier, so that the last one inserted with a key is the first one out. *)
Fixpoint place (e : ptr) (l : list ptr) : list ptr :=
  match l with
  | [] => [e]
  | x :: l => if decide (klt (k x) (k e)) then x :: place e l else e :: x :: l
  end.

(** The same on the bins, when the first one is not earlier. *)
Definition ins_top (e : ptr) (bins : list (list ptr)) : list (list ptr) :=
  match bins with
  | [] => [[e]]
  | b :: rest =>
      match b with
      | x :: _ => if decide (klt (k e) (k x)) then [e] :: bins else (e :: b) :: rest
      | [] => (e :: b) :: rest
      end
  end.

(** [bins] is empty or its first event is not before [e]. *)
Definition not_before (e : ptr) (bins : list (list ptr)) : Prop :=
  forall x, hd_error (concat bins) = Some x -> ~ klt (k x) (k e).

Lemma binned_app bl br :
  binned (bl ++ br) <-> binned bl /\ binned br /\ forall x y, x ∈ concat bl -> y ∈ concat br -> klt (k x) (k y).
Proof.
  induction bl as [|b bl IH]; simpl; [set_solver|]. rewrite IH, concat_app. set_solver.
Qed.

Lemma concat_ins_top e bins : concat (ins_top e bins) = e :: concat bins.
Proof. destruct bins as [|[|x b] rest]; simpl; [done|done|]. by case_decide. Qed.

Lemma place_app e l1 l2 :
  Forall (fun x => klt (k x) (k e)) l1 -> place e (l1 ++ l2) = l1 ++ place e l2.
Proof. induction 1 as [|x l1 Hx _ IH]; simpl; [done|]. rewrite decide_True by done. by rewrite IH. Qed.

Lemma place_front e l : (forall x, hd_error l = Some x -> ~ klt (k x) (k e)) -> place e l = e :: l.
Proof. destruct l as [|x l]; simpl; [done|]. intros H. rewrite decide_False; [done|]. by apply H. Qed.

Lemma elem_of_place e l x : x ∈ place e l <-> x = e \/ x ∈ l.
Proof. induction l as [|y l IH]; simpl; [set_solver|]. case_decide; set_solver. Qed.

Lemma place_perm e l : place e l ≡ₚ e :: l.
Proof.
  induction l as [|x l IH]; simpl; [done|]. case_decide; [|done]. rewrite IH. apply Permutation_swap.
Qed.

(** In a list of bins whose first one is not before [e], nothing is. *)
Lemma binned_not_before e bins :
  Forall (fun b => b <> []) bins -> binned bins -> not_before e bins ->
  forall x, x ∈ concat bins -> ~ klt (k x) (k e).
Proof.
  intros Hne Hb Hn x Hx. destruct bins as [|b rest]; [set_solver|]. inversion Hne as [|? ? Hb0 _]; subst.
  destruct b as [|y b]; [done|]. destruct Hb as (H1 & H2 & _). specialize (Hn y). simpl in Hn, Hx.
  intros Hlt. apply Hn; [done|]. apply elem_of_cons in Hx as [->|Hx]; [done|].
  apply elem_of_app in Hx as [Hx|Hx].
  - by rewrite (H1 y x) by set_solver.
  - eapply klt_trans; [apply H2|exact Hlt]; set_solver.
Qed.

Lemma binned_ins_top e bins :
  Forall (fun b => b <> []) bins -> binned bins -> not_before e bins -> binned (ins_top e bins).
Proof.
  intros Hne Hb Hn. pose proof (binned_not_before e bins Hne Hb Hn) as Hall. destruct bins as [|b rest].
  { simpl. set_solver. }
  inversion Hne as [|? ? Hb0 _]; subst. destruct b as [|x b]; [done|]. unfold ins_top. case_decide as Hd.
  - split; [set_solver|]. split; [|done]. intros y z Hy Hz. apply list_elem_of_singleton in Hy as ->.
    destruct Hb as (H1 & H2 & _). simpl in Hz. apply elem_of_cons in Hz as [->|Hz]; [done|].
    apply elem_of_app in Hz as [Hz|Hz]; [by rewrite (H1 z x) by set_solver|].
    eapply klt_trans; [exact Hd|]. apply H2; set_solver.
  - destruct Hb as (H1 & H2 & H3). simpl in Hall.
    assert (k e = k x) as Ek.
    { destruct (klt_total (k e) (k x)) as [|[|Hlt]]; [done|done|]. by apply Hall in Hlt; [|set_solver]. }
    assert (forall y, y ∈ e :: x :: b -> k y = k x) as Ey.
    { intros y Hy. apply elem_of_cons in Hy as [->|Hy]; [done|]. apply H1; set_solver. }
    split; [intros y z Hy Hz; by rewrite (Ey y), (Ey z)|]. split; [|done].
    intros y z Hy Hz. rewrite (Ey y) by done. apply H2; set_solver.
Qed.
End Order.
