(* ===== verification/EventQueueCorrect.v ===== *)
(** * EventQueueCorrect: the event queue is an ordered list

    [repr h p l]: the pointers from [p] on represent the flat list of events [l]
    in the heap [h].  [queued st l] adds the flags: the events of [l] are exactly
    the scheduled ones.  Each operation of the queue is shown to return and to
    refine an operation on the flat list: insertion at a place determined by
    time and priority, removal, and taking the first event. *)

From stdpp Require Import prelude gmap.
From Stdlib Require Import ZArith Lia Sorted.
From S2P Require Import Prelude Machine EventQueue EventShape.
Import EventQ.

Section Heap.
Implicit Types (h : gmap ptr Event) (p : option ptr) (e x : ptr) (l : list ptr) (bins : list (list ptr)).

Definition nibf h x : option (option ptr) := nextInBin <$> h !! x.
Definition nbf h x : option (option ptr) := nextBin <$> h !! x.

(** Everything of an event but its pointers. *)
Definition data (ev : Event) : Z * Z * Z * option Z := (when_ ev, priority ev, flags ev, queue ev).
Definition same_data h h' : Prop := forall x, data <$> h' !! x = data <$> h !! x.

Record chain h p bins : Prop := {
  ch_shape : bins_at (nibf h) (nbf h) p bins;
  ch_nodup : NoDup (concat bins);
  ch_order : binned (key h) bins
}.

Definition repr h p l : Prop := exists bins, chain h p bins /\ concat bins = l.

Lemma same_data_refl h : same_data h h.
Proof. done. Qed.

Lemma same_data_trans h1 h2 h3 : same_data h1 h2 -> same_data h2 h3 -> same_data h1 h3.
Proof. intros H1 H2 x. by rewrite H2, H1. Qed.

Lemma same_data_insert h x ev ev' : h !! x = Some ev -> data ev' = data ev -> same_data h (<[x := ev']> h).
Proof.
  intros Hx Hd y. rewrite lookup_insert. case_decide; subst; [|done]. by rewrite Hx; simpl; rewrite Hd.
Qed.

Lemma same_data_lookup h h' x ev : same_data h h' -> h !! x = Some ev -> exists ev', h' !! x = Some ev' /\ data ev' = data ev.
Proof.
  intros Hs Hx. specialize (Hs x). rewrite Hx in Hs. destruct (h' !! x) as [ev'|]; simpl in Hs; [|done].
  exists ev'. split; [done|]. congruence.
Qed.

Lemma same_data_key h h' x : same_data h h' -> key h' x = key h x.
Proof.
  intros Hs. specialize (Hs x). unfold key, key_of.
  destruct (h' !! x), (h !! x); simpl in *; try done. by injection Hs as -> -> _ _.
Qed.

Lemma same_data_size h h' : same_data h h' -> size h' = size h.
Proof.
  intros Hs. rewrite <- !size_dom. f_equal. apply set_eq. intros x. rewrite !elem_of_dom. specialize (Hs x).
  destruct (h' !! x), (h !! x); simpl in Hs; try done; split; intros [? ?]; by eexists.
Qed.

Lemma key_lookup h x ev : h !! x = Some ev -> key h x = key_of ev.
Proof. unfold key. by intros ->. Qed.

Lemma binned_ext k k' bins : (forall x, x ∈ concat bins -> k' x = k x) -> binned k bins -> binned k' bins.
Proof.
  induction bins as [|b bins IH]; simpl; [done|]. intros Hk (H1 & H2 & H3). split; [|split].
  - intros x y Hx Hy. rewrite !Hk by set_solver. by apply H1.
  - intros x y Hx Hy. rewrite !Hk by set_solver. by apply H2.
  - apply IH; [|done]. set_solver.
Qed.

Lemma place_ext k k' e l : (forall x, x ∈ e :: l -> k' x = k x) -> place k' e l = place k e l.
Proof.
  induction l as [|x l IH]; simpl; [done|]. intros Hk. rewrite !Hk by set_solver. rewrite IH by set_solver. done.
Qed.

(** ** Members of a queue *)

Lemma in_bin_members h p b x : in_bin (nibf h) p b -> x ∈ b -> is_Some (h !! x).
Proof.
  revert p. induction b as [|y b IH]; intros p; simpl; [set_solver|]. intros (_ & q & Hq & Hb) Hx.
  apply elem_of_cons in Hx as [->|Hx]; [|by apply (IH q)]. unfold nibf in Hq. destruct (h !! y); [by eexists|done].
Qed.

Lemma bins_at_members h p bins x : bins_at (nibf h) (nbf h) p bins -> x ∈ concat bins -> is_Some (h !! x).
Proof.
  revert p. induction bins as [|b bins IH]; intros p; simpl; [set_solver|]. intros (Hb & c & q & _ & _ & Hr) Hx.
  apply elem_of_app in Hx as [Hx|Hx]; [by eapply in_bin_members|by apply (IH q)].
Qed.

Lemma bins_at_nonempty nib nb p bins : bins_at nib nb p bins -> Forall (fun b => b <> []) bins.
Proof.
  revert p. induction bins as [|b bins IH]; intros p; simpl; [constructor|].
  intros (Hb & c & q & -> & _ & Hr). constructor; [by destruct b|by apply (IH q)].
Qed.

Lemma members_length h l : NoDup l -> (forall x, x ∈ l -> is_Some (h !! x)) -> (length l <= size h)%nat.
Proof.
  intros Hnd Hm. rewrite <- (size_list_to_set (C := gset ptr)) by done. rewrite <- size_dom.
  apply subseteq_size. intros x Hx. apply elem_of_list_to_set in Hx. by apply elem_of_dom, Hm.
Qed.

Lemma bins_length bins : Forall (fun b : list ptr => b <> []) bins -> (length bins <= length (concat bins))%nat.
Proof.
  induction 1 as [|b bins Hb _ IH]; simpl; [lia|]. rewrite length_app. destruct b; [done|]. simpl. lia.
Qed.

Lemma chain_fuel h p bins : chain h p bins -> (length (concat bins) <= size h)%nat /\ (length bins <= size h)%nat.
Proof.
  intros [Hs Hnd _]. assert (length (concat bins) <= size h)%nat.
  { apply members_length; [done|]. intros x. by apply (bins_at_members h p). }
  pose proof (bins_length bins (bins_at_nonempty _ _ _ _ Hs)). lia.
Qed.

Lemma nibf_insert h x y ev : nibf (<[x := ev]> h) y = if decide (x = y) then Some (nextInBin ev) else nibf h y.
Proof. unfold nibf. rewrite lookup_insert. by case_decide. Qed.

Lemma nbf_insert h x y ev : nbf (<[x := ev]> h) y = if decide (x = y) then Some (nextBin ev) else nbf h y.
Proof. unfold nbf. rewrite lookup_insert. by case_decide. Qed.

(** An event outside a chain can be overwritten. *)
Lemma bins_at_insert h x ev p bins :
  x ∉ concat bins -> bins_at (nibf h) (nbf h) p bins -> bins_at (nibf (<[x := ev]> h)) (nbf (<[x := ev]> h)) p bins.
Proof.
  intros Hx. apply bins_at_frame; intros y Hy; rewrite ?nibf_insert, ?nbf_insert; case_decide; [set_solver|done|set_solver|done].
Qed.

Lemma in_bin_insert h x ev p b :
  x ∉ b -> in_bin (nibf h) p b -> in_bin (nibf (<[x := ev]> h)) p b.
Proof. intros Hx. apply in_bin_frame. intros y Hy. rewrite nibf_insert. case_decide; [set_solver|done]. Qed.
End Heap.

(** ** Insertion *)

Lemma set_heap_same (h : gmap ptr Event) st : heap (set_heap h st) = h.
Proof. done. Qed.

(** The new event becomes the top of the first bin or a bin of its own. *)
Lemma insertBefore_spec st e ev p bins :
  heap st !! e = Some ev -> e ∉ concat bins -> chain (heap st) p bins -> not_before (key (heap st)) e bins ->
  exists ev', data ev' = data ev /\ insertBefore e p st = Some (e, set_heap (<[e := ev']> (heap st)) st) /\
    bins_at (nibf (<[e := ev']> (heap st))) (nbf (<[e := ev']> (heap st))) (Some e) (ins_top (key (heap st)) e bins).
Proof.
  intros He Hn [Hs Hnd Ho] Hb. unfold insertBefore, deref, upd. rewrite He. simpl.
  destruct bins as [|b rest].
  { simpl in Hs. subst p. eexists. split; [|split; [reflexivity|]]; [done|]. simpl.
    split; [rewrite nibf_insert, decide_True by done; by eauto|]. exists e, None.
    by rewrite nbf_insert, decide_True by done. }
  pose proof Hs as (Hin & x & q & -> & Hq & Hr). destruct (in_bin_top _ _ _ Hin) as (y & b' & -> & [= <-]).
  { by destruct b. }
  assert (exists xe, heap st !! x = Some xe) as [xe Hx] by (unfold nbf in Hq; destruct (heap st !! x); [by eexists|done]).
  assert (e <> x) as Hex by (simpl in Hn; set_solver).
  rewrite Hx. simpl. rewrite (key_lookup _ _ _ He), (key_lookup _ _ _ Hx).
  destruct (ev_lt ev xe) eqn:Hlt.
  - apply ev_lt_key in Hlt. rewrite decide_True by done. eexists. split; [|split; [reflexivity|]]; [done|].
    split; [simpl; rewrite nibf_insert, decide_True by done; by eauto|].
    exists e, (Some x). rewrite nbf_insert, decide_True by done. do 2 (split; [done|]). by apply bins_at_insert.
  - rewrite decide_False by (intros Hk; apply ev_lt_key in Hk; congruence).
    eexists. split; [|split; [reflexivity|]]; [done|].
    assert (e ∉ x :: b') by (simpl in Hn; set_solver).
    split; [simpl; rewrite nibf_insert, decide_True by done; split; [done|]; exists (Some x); split; [done|];
      by apply (in_bin_insert (heap st) e _ (Some x) (x :: b'))|].
    exists e, q. rewrite nbf_insert, decide_True by done. split; [done|].
    split; [unfold nbf in Hq; rewrite Hx in Hq; simpl in *; congruence|]. apply bins_at_insert; [simpl in Hn; set_solver|done].
Qed.

(** The search for a bin stops at the first one that is not before the event. *)
Lemma find_bin_spec h ev k fuel prev p bins :
  k = key_of ev -> nbf h prev = Some p -> bins_at (nibf h) (nbf h) p bins -> binned (key h) bins ->
  (length bins < fuel)%nat ->
  exists bl br last q, bins = bl ++ br /\ find_bin fuel h ev prev p = Some (last, q) /\
    seg (nibf h) (nbf h) prev bl last /\ nbf h last = Some q /\ bins_at (nibf h) (nbf h) q br /\
    Forall (fun x => klt (key h x) k) (concat bl) /\
    (forall x, hd_error (concat br) = Some x -> ~ klt (key h x) k).
Proof.
  intros ->. revert prev p bins. induction fuel as [|fuel IH]; intros prev p bins Hprev Hs Ho Hf; [lia|].
  destruct bins as [|b bins].
  { simpl in Hs. subst p. exists [], [], prev, None. simpl. by repeat split. }
  destruct Hs as (Hin & x & q & -> & Hq & Hr). simpl.
  assert (exists xe, h !! x = Some xe) as [xe Hx] by (unfold nbf in Hq; destruct (h !! x); [by eexists|done]).
  rewrite Hx. simpl. destruct Ho as (O1 & O2 & O3). pose proof (top_in_bin _ _ _ Hin) as Hxb.
  destruct (ev_lt xe ev) eqn:Hlt.
  - apply ev_lt_key in Hlt. destruct (IH x (nextBin xe) bins) as (bl & br & last & q' & -> & Hf' & Hsg & Hl & Hbr & Hall & Hhd);
      [unfold nbf; by rewrite Hx|unfold nbf in Hq; rewrite Hx in Hq; injection Hq as ->; done|done|simpl in Hf; lia|].
    exists (b :: bl), br, last, q'. split; [done|]. split; [done|]. split; [by exists x|].
    do 2 (split; [done|]). split; [|done]. simpl. apply Forall_app. split; [|done].
    apply Forall_forall. intros y Hy. rewrite (O1 y x) by done. by rewrite (key_lookup _ _ _ Hx).
  - exists [], (b :: bins), prev, (Some x). do 2 (split; [done|]). split; [done|]. split; [done|].
    split; [simpl; by eauto 6|]. split; [constructor|].
    destruct (in_bin_top _ _ _ Hin) as (y & b' & -> & [= <-]); [by destruct b|].
    intros z [= <-]. rewrite (key_lookup _ _ _ Hx). intros Hk. apply ev_lt_key in Hk. congruence.
Qed.

#[local] Arguments find_bin : simpl never.

(** An operation that only moves pointers. *)
Record moved (st st' : State) : Prop := {
  mv_data : same_data (heap st) (heap st');
  mv_qid : qid st' = qid st;
  mv_tick : curTick st' = curTick st;
  mv_async : async_queue st' = async_queue st
}.

Lemma chain_same_data h h' p bins :
  same_data h h' -> bins_at (nibf h') (nbf h') p bins -> NoDup (concat bins) -> binned (key h) bins -> chain h' p bins.
Proof.
  intros Hs Hb Hn Ho. split; [done|done|]. eapply binned_ext; [|exact Ho]. intros x _. by apply same_data_key.
Qed.

(** The chain with [e] placed in a suffix of the bins. *)
Lemma place_bins k e bl br :
  Forall (fun x => klt (k x) (k e)) (concat bl) -> not_before k e br -> binned k (bl ++ br) ->
  Forall (fun b => b <> []) br -> NoDup (concat (bl ++ br)) -> e ∉ concat (bl ++ br) ->
  concat (bl ++ ins_top k e br) = place k e (concat (bl ++ br)) /\
  binned k (bl ++ ins_top k e br) /\ NoDup (concat (bl ++ ins_top k e br)).
Proof.
  intros Hbl Hbr Ho Hne Hnd Hn. rewrite !concat_app, concat_ins_top in *. apply binned_app in Ho as (O1 & O2 & O3).
  split; [by rewrite place_app, place_front|]. split.
  - apply binned_app. split; [done|]. split; [by apply binned_ins_top|]. rewrite concat_ins_top.
    intros x y Hx Hy. apply elem_of_cons in Hy as [->|Hy]; [by eapply Forall_forall in Hbl|by apply O3].
  - rewrite <- Permutation_middle. by constructor.
Qed.

(** The top of the first bin. *)
Lemma chain_head h p b bins :
  chain h p (b :: bins) -> exists x b' xe q, b = x :: b' /\ p = Some x /\ h !! x = Some xe /\
    nextBin xe = q /\ bins_at (nibf h) (nbf h) q bins.
Proof.
  intros [(Hin & x & q & -> & Hq & Hr) _ _]. destruct (in_bin_top _ _ _ Hin) as (y & b' & -> & [= <-]); [by destruct b|].
  unfold nbf in Hq. destruct (h !! x) as [xe|] eqn:Hx; simpl in Hq; [|done]. injection Hq as <-. by exists x, b', xe, (nextBin xe).
Qed.

Lemma insert_front st e ev bins :
  heap st !! e = Some ev -> e ∉ concat bins -> chain (heap st) (head st) bins -> not_before (key (heap st)) e bins ->
  exists st', insert e st = Some st' /\ moved st st' /\ repr (heap st') (head st') (place (key (heap st)) e (concat bins)).
Proof.
  intros He Hn Hc Hnb. pose proof Hc as [Hs Hnd Ho].
  destruct (insertBefore_spec st e ev (head st) bins He Hn Hc Hnb) as (ev' & Hd & Hib & Hb').
  exists (set_head (Some e) (set_heap (<[e := ev']> (heap st)) st)). split; [|split].
  - unfold insert, deref. rewrite He. simpl. destruct bins as [|b rest].
    + simpl in Hs. rewrite Hs in *. by rewrite Hib.
    + destruct (chain_head _ _ _ _ Hc) as (x & b' & xe & q & -> & Hh & Hx & _ & _). rewrite Hh in *. simpl. rewrite Hx. simpl.
      assert (ev_le ev xe = true) as ->; [|by rewrite Hib].
      apply ev_le_key. rewrite <- (key_lookup _ _ _ Hx), <- (key_lookup _ _ _ He). by apply Hnb.
  - split; try done. by apply (same_data_insert _ _ ev).
  - destruct (place_bins (key (heap st)) e [] bins) as (Hp & Ho' & Hnd'); try done; [by eapply bins_at_nonempty|].
    exists (ins_top (key (heap st)) e bins). split; [|exact Hp]. apply (chain_same_data (heap st)); try done.
    by apply (same_data_insert _ _ ev).
Qed.

(** Replacing what follows the bin with the top [last]. *)
Lemma splice h h' x b bl last q rest :
  in_bin (nibf h) (Some x) (x :: b) -> seg (nibf h) (nbf h) x bl last -> NoDup (x :: concat bl) ->
  (forall y, y ∈ x :: b ++ concat bl -> nibf h' y = nibf h y) ->
  (forall y, y ∈ x :: concat bl -> y <> last -> nbf h' y = nbf h y) ->
  nbf h' last = Some q -> bins_at (nibf h') (nbf h') q rest ->
  bins_at (nibf h') (nbf h') (Some x) ((x :: b) :: bl ++ rest).
Proof.
  intros Hin Hsg Hnd Hnib Hnb Hl Hr.
  destruct (seg_bins (nibf h') (nbf h') x bl last q rest) as (qx & Hqx & Hfin); [|done|done|].
  { eapply seg_frame; [| | |exact Hsg]; [intros z Hz; apply Hnib; set_solver|done|done]. }
  split; [|by exists x, qx]. eapply in_bin_frame; [|exact Hin]. intros y Hy. apply Hnib. set_solver.
Qed.

(** The search of [insert] and [remove] behind the first bin. *)
Lemma search_rest st ev x xe b rest :
  chain (heap st) (head st) ((x :: b) :: rest) -> heap st !! x = Some xe ->
  exists bl br last le q, rest = bl ++ br /\
    find_bin (fuel_of st) (heap st) ev x (nextBin xe) = Some (last, q) /\
    seg (nibf (heap st)) (nbf (heap st)) x bl last /\ heap st !! last = Some le /\ chain (heap st) q br /\
    Forall (fun y => klt (key (heap st) y) (key_of ev)) (concat bl) /\
    (forall y, hd_error (concat br) = Some y -> ~ klt (key (heap st) y) (key_of ev)) /\
    NoDup (x :: concat bl) /\ last ∈ x :: concat bl /\ last ∉ concat br.
Proof.
  intros Hc Hx. pose proof Hc as [Hs Hnd (O1 & O2 & O3)]. pose proof (proj2 (chain_fuel _ _ _ Hc)) as Hfuel.
  destruct (chain_head _ _ _ _ Hc) as (x' & b' & xe' & q & [= <- <-] & Hh & Hx' & Hq & Hr).
  rewrite Hx in Hx'. injection Hx' as <-.
  destruct (find_bin_spec (heap st) ev (key_of ev) (fuel_of st) x q rest)
    as (bl & br & last & q' & -> & Hfb & Hsg & Hlast & Hbr & Hbl & Hhd); try done.
  { unfold nbf. rewrite Hx. by subst q. }
  { unfold fuel_of. simpl in Hfuel. lia. }
  simpl in Hnd. rewrite concat_app in Hnd. pose proof (seg_end _ _ _ _ _ Hsg) as Hin.
  apply NoDup_cons in Hnd as [Hnx Hnd]. apply NoDup_app in Hnd as (_ & Hbd & Hnd).
  apply NoDup_app in Hnd as (Hnbl & Hdis & Hnbr). apply binned_app in O3 as (_ & O3 & _).
  assert (exists le, heap st !! last = Some le) as [le Hl] by (unfold nbf in Hlast; destruct (heap st !! last); [by eexists|done]).
  exists bl, br, last, le, q'. rewrite Hq. do 4 (split; [done|]). split; [by split|]. do 2 (split; [done|]).
  split; [apply NoDup_cons; split; [set_solver|done]|]. split; [done|]. set_solver.
Qed.

Lemma insert_later st e ev x xe b rest :
  heap st !! e = Some ev -> e ∉ concat ((x :: b) :: rest) -> chain (heap st) (head st) ((x :: b) :: rest) ->
  heap st !! x = Some xe -> klt (key_of xe) (key_of ev) ->
  exists st', insert e st = Some st' /\ moved st st' /\
    repr (heap st') (head st') (place (key (heap st)) e (concat ((x :: b) :: rest))).
Proof.
  intros He Hn Hc Hx Hlt. pose proof Hc as [Hs Hnd Ho].
  destruct (search_rest st ev x xe b rest Hc Hx)
    as (bl & br & last & le & q & -> & Hfb & Hsg & Hl & Hcbr & Hbl & Hhd & Hndx & Hin & Hlbr).
  rewrite <- (key_lookup _ _ _ He) in Hbl, Hhd. simpl in Hn. rewrite concat_app in Hn.
  destruct (insertBefore_spec st e ev q br He) as (ev' & Hd & Hib & Hb'); [set_solver|done|done|].
  set (h1 := <[e := ev']> (heap st)) in *. assert (last <> e) as Hle by set_solver.
  assert (h1 !! last = Some le) as Hl1 by (unfold h1; by rewrite lookup_insert_ne).
  set (h2 := <[last := set_nextBin (Some e) le]> h1).
  assert (same_data (heap st) h2) as Hsame.
  { apply (same_data_trans _ h1); [by apply (same_data_insert _ _ ev)|]. by apply (same_data_insert _ _ le). }
  destruct (chain_head _ _ _ _ Hc) as (x' & b' & xe' & q' & [= <- <-] & Hh & _).
  exists (set_heap h2 st). split; [|split; [by split|]].
  - unfold insert, deref. rewrite He. simpl. rewrite Hh. simpl. rewrite Hx. simpl.
    assert (ev_le ev xe = false) as -> by (apply not_true_iff_false; rewrite ev_le_key; tauto).
    rewrite Hfb. simpl. rewrite Hib. simpl. unfold upd. simpl. fold h1. by rewrite Hl1.
  - destruct (place_bins (key (heap st)) e ((x :: b) :: bl) br) as (Hp & Ho' & Hnd'); try done.
    { simpl. constructor; [by rewrite (key_lookup _ _ _ Hx), (key_lookup _ _ _ He)|]. apply Forall_app. split; [|done].
      apply Forall_forall. intros y Hy. destruct Ho as (O1 & _).
      by rewrite (O1 y x), (key_lookup _ _ _ Hx), (key_lookup _ _ _ He) by set_solver. }
    { eapply bins_at_nonempty, Hcbr. }
    { simpl. rewrite concat_app. set_solver. }
    exists (((x :: b) :: bl) ++ ins_top (key (heap st)) e br). split; [|exact Hp].
    apply (chain_same_data (heap st)); try done. change (head (set_heap h2 st)) with (head st). rewrite Hh in *.
    apply (splice (heap st) h2 x b bl last (Some e)); try done; [apply Hs|..].
    + intros y Hy. unfold h2, h1. rewrite !nibf_insert. case_decide; subst; [unfold nibf; by rewrite Hl|].
      by rewrite decide_False by set_solver.
    + intros y Hy Hyl. unfold h2, h1. by rewrite !nbf_insert, !decide_False by set_solver.
    + unfold h2. by rewrite nbf_insert, decide_True.
    + apply bins_at_insert; [rewrite concat_ins_top; set_solver|done].
Qed.

Lemma insert_place st e ev l :
  heap st !! e = Some ev -> e ∉ l -> repr (heap st) (head st) l ->
  exists st', insert e st = Some st' /\ moved st st' /\ repr (heap st') (head st') (place (key (heap st)) e l).
Proof.
  intros He Hn (bins & Hc & <-). destruct bins as [|b rest]; [by eapply insert_front|].
  destruct (chain_head _ _ _ _ Hc) as (x & b' & xe & q & -> & Hh & Hx & _ & _).
  destruct (decide (klt (key_of xe) (key_of ev))) as [Hlt|Hge]; [by eapply insert_later|].
  eapply insert_front; try done. intros y [= <-]. by rewrite (key_lookup _ _ _ Hx), (key_lookup _ _ _ He).
Qed.

(** ** Removal *)

Abbreviation without e l := (@filter ptr (list ptr) _ (fun y : ptr => y <> e) _ l).

Lemma without_id e l : e ∉ l -> without e l = l.
Proof. intros H. induction l as [|y l IH]; [done|]. rewrite filter_cons_True, IH by set_solver. done. Qed.

Lemma without_NoDup e l : NoDup l -> NoDup (without e l).
Proof. apply NoDup_filter. Qed.

(** The walk down a bin finds the predecessor of the event. *)
Lemma find_item_spec h e fuel curr ce l :
  h !! curr = Some ce -> in_bin (nibf h) (nextInBin ce) l -> e ∈ l -> NoDup (curr :: l) -> (length l <= fuel)%nat ->
  exists c cev ee, find_item fuel h e curr (nextInBin ce) = Some c /\ h !! c = Some cev /\ h !! e = Some ee /\
    c ∈ curr :: l /\
    in_bin (nibf (<[c := set_nextInBin (nextInBin ee) cev]> h)) (Some curr) (curr :: without e l).
Proof.
  revert fuel curr ce. induction l as [|n l IH]; intros fuel curr ce Hc Hin He Hnd Hf; [set_solver|].
  destruct fuel as [|fuel]; [simpl in Hf; lia|]. destruct Hin as (Hn & q & Hq & Hin). rewrite Hn. simpl.
  apply NoDup_cons in Hnd as [Hnc Hnd]. pose proof Hnd as Hnd'. apply NoDup_cons in Hnd' as [Hnn Hndl].
  assert (exists ne, h !! n = Some ne) as [ne Hne] by (unfold nibf in Hq; destruct (h !! n); [by eexists|done]).
  assert (nextInBin ne = q) as Eq by (unfold nibf in Hq; rewrite Hne in Hq; simpl in Hq; congruence).
  destruct (decide (n = e)) as [->|Hnee].
  - exists curr, ce, ne. do 3 (split; [done|]). split; [set_solver|]. rewrite filter_cons_False by tauto.
    rewrite without_id by done. split; [done|]. exists q. rewrite nibf_insert, decide_True by done. simpl. split; [by rewrite Eq|].
    apply in_bin_insert; [set_solver|done].
  - rewrite Hne. simpl. rewrite <- Eq in Hin.
    destruct (IH fuel n ne Hne Hin) as (c & cev & ee & Hfi & Hcc & Hee & Hcin & Hb); [set_solver|done|simpl in Hf; lia|].
    exists c, cev, ee. do 3 (split; [done|]). split; [set_solver|]. rewrite filter_cons_True by done.
    split; [done|]. exists (Some n). rewrite nibf_insert, decide_False by set_solver. unfold nibf. rewrite Hc. simpl.
    split; [by rewrite Hn|done].
Qed.

Lemma find_item_missing h e fuel curr p l :
  in_bin (nibf h) p l -> e ∉ l -> find_item fuel h e curr p = None.
Proof.
  revert fuel curr p. induction l as [|n l IH]; intros fuel curr p Hin He; destruct fuel as [|fuel]; try done; simpl.
  - simpl in Hin. by subst p.
  - destruct Hin as (-> & q & Hq & Hin). rewrite decide_False by set_solver. unfold nibf in Hq.
    destruct (h !! n) as [ne|]; [|done]. simpl in Hq |- *. injection Hq as ->. apply IH; [done|set_solver].
Qed.

#[local] Arguments find_item : simpl never.

(** The bins without [e], which is in the first one. *)
Definition drop_item (e : ptr) (b : list ptr) (rest : list (list ptr)) : list (list ptr) :=
  match without e b with [] => rest | b' => b' :: rest end.

Lemma concat_drop_item e b rest : e ∉ concat rest -> concat (drop_item e b rest) = without e (concat (b :: rest)).
Proof.
  intros He. simpl. rewrite filter_app, (without_id e (concat rest)) by done. unfold drop_item. by destruct (without e b).
Qed.

Lemma binned_drop_item k e b rest : binned k (b :: rest) -> binned k (drop_item e b rest).
Proof.
  intros (H1 & H2 & H3). unfold drop_item. destruct (without e b) as [|y b'] eqn:E; [done|]. rewrite <- E.
  split; [|split; [|done]]; intros x z Hx Hz; [apply H1|apply H2]; try done;
    repeat match goal with H : _ ∈ without _ _ |- _ => apply list_elem_of_filter in H as [_ H] end; done.
Qed.

Lemma removeItem_spec st e top b rest :
  chain (heap st) (Some top) (b :: rest) -> e ∈ b ->
  exists p' h', removeItem e top st = Some (p', set_heap h' st) /\ same_data (heap st) h' /\
    bins_at (nibf h') (nbf h') p' (drop_item e b rest) /\ (forall y, y ∉ b -> h' !! y = heap st !! y).
Proof.
  intros Hc He. pose proof Hc as [Hs Hnd Ho].
  destruct (chain_head _ _ _ _ Hc) as (x & b' & te & q & -> & [= <-] & Ht & Hq & Hr).
  destruct Hs as ((_ & qi & Hqi & Hin) & _). simpl in Hnd. apply NoDup_cons in Hnd as [Hnt Hnd].
  apply NoDup_app in Hnd as (Hndb & Hdis & Hndr).
  assert (nextInBin te = qi) as Eqi by (unfold nibf in Hqi; rewrite Ht in Hqi; simpl in Hqi; congruence).
  unfold removeItem, deref. rewrite Ht. simpl. destruct (decide (e = top)) as [->|Hne].
  - unfold drop_item. rewrite filter_cons_False, without_id by set_solver. destruct b' as [|n b'].
    + simpl in Hin. rewrite Eqi, Hin. exists q, (heap st). rewrite Hq. split; [by destruct st|]. split; [done|]. by split.
    + destruct Hin as (Hqn & qn & Hn & Hin). rewrite Eqi, Hqn.
      assert (exists ne, heap st !! n = Some ne) as [ne Hne] by (unfold nibf in Hn; destruct (heap st !! n); [by eexists|done]).
      unfold upd. rewrite Hne. simpl. eexists _, _. split; [reflexivity|]. split; [by apply (same_data_insert _ _ ne)|].
      apply NoDup_cons in Hndb as [Hnn _]. split; [|intros y Hy; apply lookup_insert_ne; set_solver]. split.
      * split; [done|]. exists qn. rewrite nibf_insert, decide_True by done. unfold nibf in Hn. rewrite Hne in Hn.
        split; [done|]. by apply in_bin_insert.
      * exists n, q. rewrite nbf_insert, decide_True by done. split; [done|]. split; [by rewrite <- Hq|].
        apply bins_at_insert; [set_solver|done].
  - pose proof (proj1 (chain_fuel _ _ _ Hc)) as Hfuel. rewrite <- Eqi in Hin.
    destruct (find_item_spec (heap st) e (fuel_of st) top te b' Ht Hin) as (c & cev & ee & Hfi & Hcc & Hee & Hcin & Hb);
      [set_solver|by apply NoDup_cons; split; [set_solver|]|unfold fuel_of; simpl in Hfuel; rewrite length_app in Hfuel; lia|].
    rewrite Hfi. simpl. rewrite Hee. simpl. unfold upd. rewrite Hcc. simpl. eexists _, _. split; [reflexivity|].
    split; [by apply (same_data_insert _ _ cev)|]. split; [|intros y Hy; apply lookup_insert_ne; set_solver].
    unfold drop_item. rewrite filter_cons_True by done. split; [exact Hb|]. exists top, q. split; [done|].
    split; [rewrite nbf_insert; unfold nbf; case_decide; subst; [rewrite Ht in Hcc; by injection Hcc as <-|by rewrite Ht]|].
    apply bins_at_insert; [set_solver|done].
Qed.

(** Events of different bins have different keys. *)
Lemma binned_first k b rest x e :
  binned k (b :: rest) -> x ∈ b -> e ∈ concat (b :: rest) -> (e ∈ b <-> k x = k e).
Proof.
  intros (H1 & H2 & _) Hx He. simpl in He. split; [by intros; apply H1|].
  intros Hk. apply elem_of_app in He as [|He]; [done|]. specialize (H2 x e Hx He). rewrite Hk in H2. by apply klt_irrefl in H2.
Qed.

(** The bins with [e] dropped from one of them. *)
Lemma drop_bins k e pre c br :
  binned k (pre ++ c :: br) -> NoDup (concat (pre ++ c :: br)) -> e ∈ c ->
  concat (pre ++ drop_item e c br) = without e (concat (pre ++ c :: br)) /\
  binned k (pre ++ drop_item e c br) /\ NoDup (concat (pre ++ drop_item e c br)).
Proof.
  intros Ho Hnd He. rewrite !concat_app in *. apply binned_app in Ho as (O1 & O2 & O3).
  pose proof Hnd as Hnd'. apply NoDup_app in Hnd' as (_ & Hdis & Hnd'). simpl in Hnd'. apply NoDup_app in Hnd' as (_ & Hd & _).
  assert (concat pre ++ concat (drop_item e c br) = without e (concat pre ++ concat (c :: br))) as E.
  { rewrite concat_drop_item, filter_app, (without_id e (concat pre)) by (set_solver || by apply Hd). done. }
  split; [done|]. split; [|rewrite E; by apply without_NoDup]. apply binned_app. split; [done|].
  split; [by apply binned_drop_item|]. intros x y Hx Hy. apply O3; [done|].
  rewrite concat_drop_item in Hy by (by apply Hd). by apply list_elem_of_filter in Hy as [_ Hy].
Qed.

Lemma remove_head st e ev b rest :
  heap st !! e = Some ev -> queue ev = Some (qid st) -> chain (heap st) (head st) (b :: rest) -> e ∈ b ->
  exists st', remove e st = Some st' /\ moved st st' /\ repr (heap st') (head st') (without e (concat (b :: rest))).
Proof.
  intros He Hq Hc Hin. pose proof Hc as [Hs Hnd Ho].
  destruct (chain_head _ _ _ _ Hc) as (x & b' & xe & q & Hb & Hh & Hx & _ & _). rewrite Hh in *.
  destruct (removeItem_spec st e x b rest Hc Hin) as (p' & h' & Hri & Hsame & Hb' & _).
  assert (key_of xe = key_of ev) as Hk.
  { rewrite <- (key_lookup _ _ _ Hx), <- (key_lookup _ _ _ He). apply Ho; [subst b; set_solver|done]. }
  exists (set_head p' (set_heap h' st)). split; [|split; [by split|]].
  - unfold remove, deref. rewrite Hh. simpl. rewrite He. simpl. rewrite bool_decide_true by done. simpl. rewrite Hx. simpl.
    assert (ev_eq xe ev = true) as -> by (by apply ev_eq_key). by rewrite Hri.
  - destruct (drop_bins (key (heap st)) e [] b rest Ho Hnd Hin) as (Hp & Ho' & Hnd').
    exists (drop_item e b rest). split; [|exact Hp]. by apply (chain_same_data (heap st)).
Qed.

Lemma remove_later st e ev b rest :
  heap st !! e = Some ev -> queue ev = Some (qid st) -> chain (heap st) (head st) (b :: rest) -> e ∉ b -> e ∈ concat rest ->
  exists st', remove e st = Some st' /\ moved st st' /\ repr (heap st') (head st') (without e (concat (b :: rest))).
Proof.
  intros He Hq Hc Hnb Hin. pose proof Hc as [Hs Hnd Ho].
  destruct (chain_head _ _ _ _ Hc) as (x & b' & xe & qx & -> & Hh & Hx & _ & _).
  destruct (search_rest st ev x xe b' rest Hc Hx)
    as (bl & br & last & le & q & -> & Hfb & Hsg & Hl & Hcbr & Hbl & Hhd & Hndx & Hlin & Hlbr).
  rewrite <- (key_lookup _ _ _ He) in Hbl, Hhd. rewrite concat_app in Hin. apply elem_of_app in Hin as [Hin|Hin].
  { eapply Forall_forall in Hbl; [|exact Hin]. by apply klt_irrefl in Hbl. }
  destruct br as [|c br]; [set_solver|]. pose proof Hcbr as [Hsbr Hndbr Hobr].
  destruct (chain_head _ _ _ _ Hcbr) as (y & c' & ye & qy & -> & -> & Hy & _ & _).
  assert (e ∈ y :: c') as Hec.
  { simpl in Hin. apply (elem_of_app (y :: c')) in Hin as [|Hin]; [done|]. destruct Hobr as (_ & H2 & _).
    destruct (Hhd y); [done|]. apply H2; [set_solver|done]. }
  assert (key_of ye = key_of ev) as Hk.
  { rewrite <- (key_lookup _ _ _ Hy), <- (key_lookup _ _ _ He). apply Hobr; [set_solver|done]. }
  destruct (removeItem_spec st e y (y :: c') br Hcbr Hec) as (p' & h' & Hri & Hsame & Hb' & Hfr).
  assert (last ∉ y :: c') as Hlc by (simpl in Hlbr; set_solver).
  set (h2 := <[last := set_nextBin p' le]> h').
  assert (h' !! last = Some le) as Hl' by (by rewrite Hfr).
  assert (same_data (heap st) h2) as Hsame2 by (eapply same_data_trans; [exact Hsame|by apply (same_data_insert _ _ le)]).
  assert (e ∉ concat br) as Hebr by (simpl in Hndbr; apply (NoDup_app (y :: c')) in Hndbr as (_ & Hd & _); by apply Hd).
  exists (set_heap h2 st). split; [|split; [by split|]].
  - unfold remove, deref. rewrite Hh. simpl. rewrite He. simpl. rewrite bool_decide_true by done. simpl. rewrite Hx. simpl.
    assert (ev_eq xe ev = false) as ->.
    { apply not_true_iff_false. rewrite ev_eq_key, <- (key_lookup _ _ _ Hx), <- (key_lookup _ _ _ He). intros E.
      apply Hnb. apply (binned_first _ _ _ x e Ho); [set_solver|simpl; rewrite concat_app; simpl in *; set_solver|done]. }
    rewrite Hfb. simpl. rewrite Hy. simpl.
    assert (ev_eq ye ev = true) as -> by (by apply ev_eq_key). simpl. rewrite Hri. simpl. unfold upd. simpl. by rewrite Hl'.
  - destruct (drop_bins (key (heap st)) e ((x :: b') :: bl) (y :: c') br Ho Hnd Hec) as (Hp & Ho' & Hnd').
    exists (((x :: b') :: bl) ++ drop_item e (y :: c') br). split; [|exact Hp].
    apply (chain_same_data (heap st)); try done. change (head (set_heap h2 st)) with (head st). rewrite Hh in *.
    assert (forall z, z ∈ (x :: b') ++ concat bl -> z ∉ y :: c') as Hdis.
    { simpl in Hnd. rewrite concat_app, app_comm_cons, app_assoc in Hnd. apply NoDup_app in Hnd as (_ & Hd & _).
      intros z Hz. specialize (Hd z Hz). simpl in Hd. set_solver. }
    apply (splice (heap st) h2 x b' bl last p'); try done; [apply Hs|..].
    + intros z Hz. unfold h2. rewrite nibf_insert. case_decide; subst; [unfold nibf; by rewrite Hl|].
      unfold nibf. by rewrite Hfr by (apply Hdis; set_solver).
    + intros z Hz Hzl. unfold h2. rewrite nbf_insert, decide_False by done. unfold nbf. by rewrite Hfr by (apply Hdis; set_solver).
    + unfold h2. by rewrite nbf_insert, decide_True.
    + apply bins_at_insert; [|done]. rewrite concat_drop_item by done. intros Hz.
      apply list_elem_of_filter in Hz as [_ Hz]. done.
Qed.

Lemma remove_spec st e ev l :
  heap st !! e = Some ev -> queue ev = Some (qid st) -> repr (heap st) (head st) l -> e ∈ l ->
  exists st', remove e st = Some st' /\ moved st st' /\ repr (heap st') (head st') (without e l).
Proof.
  intros He Hq (bins & Hc & <-) Hin. destruct bins as [|b rest]; [set_solver|].
  destruct (decide (e ∈ b)); [by eapply remove_head|]. eapply remove_later; try done. simpl in Hin. set_solver.
Qed.

(** Removing an event that is not in the queue ends in a panic. *)
Lemma remove_missing st e l : repr (heap st) (head st) l -> e ∉ l -> remove e st = None.
Proof.
  intros (bins & Hc & <-) Hn. unfold remove, deref. destruct bins as [|b rest].
  { destruct Hc as [Hs _ _]. simpl in Hs. by rewrite Hs. }
  destruct (chain_head _ _ _ _ Hc) as (x & b' & xe & qx & -> & Hh & Hx & _ & _). rewrite Hh. simpl.
  destruct (heap st !! e) as [ev|] eqn:He; [|done]. simpl. case_bool_decide; [|done]. simpl. rewrite Hx. simpl.
  assert (forall p y c br, chain (heap st) p ((y :: c) :: br) -> e ∉ y :: c -> removeItem e y st = None) as Hri.
  { intros p y c br Hcy Hny. destruct (chain_head _ _ _ _ Hcy) as (y' & c' & ye & qy & [= <- <-] & _ & Hy & _ & _).
    unfold removeItem, deref. rewrite Hy. simpl. rewrite decide_False by set_solver.
    destruct Hcy as [((_ & qi & Hqi & Hib) & _) _ _]. unfold nibf in Hqi. rewrite Hy in Hqi. simpl in Hqi. injection Hqi as ->.
    rewrite (find_item_missing (heap st) e _ y _ c); [done|done|set_solver]. }
  destruct (ev_eq xe ev); [by rewrite (Hri _ _ _ _ Hc) by set_solver|].
  destruct (search_rest st ev x xe b' rest Hc Hx)
    as (bl & br & last & le & q & -> & Hfb & _ & _ & Hcbr & _). rewrite Hfb. simpl.
  destruct q as [y|]; [|done]. simpl. destruct br as [|c br]; [by destruct Hcbr as [Hs _ _]|].
  destruct (chain_head _ _ _ _ Hcbr) as (y' & c' & ye & qy & -> & [= <-] & Hy & _ & _). rewrite Hy. simpl.
  destruct (ev_eq ye ev); [|done]. simpl. rewrite (Hri _ _ _ _ Hcbr); [done|].
  simpl in Hn. rewrite concat_app in Hn. simpl in Hn. set_solver.
Qed.

(** ** Updates that keep the structure *)

(** The fields of an event that the structure depends on. *)
Definition links (ev : Event) : option ptr * option ptr * (Z * Z) := (nextBin ev, nextInBin ev, key_of ev).

Lemma repr_ext h h' p l :
  (forall x, x ∈ l -> links <$> h' !! x = links <$> h !! x) -> repr h p l -> repr h' p l.
Proof.
  intros Hl (bins & [Hs Hnd Ho] & <-). exists bins. split; [|done].
  assert (forall x, x ∈ concat bins -> nibf h' x = nibf h x /\ nbf h' x = nbf h x /\ key h' x = key h x) as Hx.
  { intros x Hx. specialize (Hl x Hx). unfold nibf, nbf, key, links in *.
    destruct (h' !! x), (h !! x); simpl in *; try done. unfold key_of; by injection Hl as -> -> -> ->. }
  split; [|done|]; [eapply bins_at_frame; [| |exact Hs]; intros x Hx'; by apply Hx|].
  eapply binned_ext; [|exact Ho]. intros x Hx'. by apply Hx.
Qed.

Lemma repr_insert h p l x ev ev' :
  h !! x = Some ev -> links ev' = links ev -> repr h p l -> repr (<[x := ev']> h) p l.
Proof.
  intros Hx Hl. apply repr_ext. intros y _. rewrite lookup_insert. case_decide; subst; [|done].
  rewrite Hx. simpl. by rewrite Hl.
Qed.

Lemma repr_insert_out h p l x ev : x ∉ l -> repr h p l -> repr (<[x := ev]> h) p l.
Proof. intros Hx. apply repr_ext. intros y Hy. rewrite lookup_insert_ne; [done|]. by intros ->. Qed.

Lemma repr_delete h p l x : x ∉ l -> repr h p l -> repr (delete x h) p l.
Proof. intros Hx. apply repr_ext. intros y Hy. rewrite lookup_delete_ne; [done|]. by intros ->. Qed.

Lemma repr_NoDup h p l : repr h p l -> NoDup l.
Proof. by intros (bins & [_ Hnd _] & <-). Qed.

Lemma repr_members h p l x : repr h p l -> x ∈ l -> is_Some (h !! x).
Proof. intros (bins & [Hs _ _] & <-). by apply (bins_at_members h p). Qed.

(** The flat list is ordered by time and priority. *)
Lemma binned_sorted k bins : binned k bins -> StronglySorted (fun x y => ~ klt (k y) (k x)) (concat bins).
Proof.
  induction bins as [|b bins IH]; simpl; [constructor|]. intros (H1 & H2 & H3). specialize (IH H3).
  assert (forall x y, x ∈ b -> y ∈ b ++ concat bins -> ~ klt (k y) (k x)) as Hx.
  { intros x y Hx Hy. apply elem_of_app in Hy as [Hy|Hy]; [rewrite (H1 x y) by done; apply klt_irrefl|].
    intros Hk. apply (klt_irrefl (k x)). eapply klt_trans; [by apply H2|done]. }
  clear H1 H2 H3. induction b as [|x b IHb]; [done|]. simpl. constructor; [apply IHb; set_solver|].
  apply Forall_forall. intros y Hy. apply Hx; set_solver.
Qed.

Lemma repr_sorted h p l : repr h p l -> StronglySorted (fun x y => ~ klt (key h y) (key h x)) l.
Proof. intros (bins & [_ _ Ho] & <-). by apply binned_sorted. Qed.

Lemma repr_head h p l : repr h p l -> p = hd_error l.
Proof.
  intros (bins & Hc & <-). destruct bins as [|b rest]; [by destruct Hc as [Hs _ _]|].
  by destruct (chain_head _ _ _ _ Hc) as (x & b' & xe & q & -> & -> & _).
Qed.

(** ** Flags *)

Lemma isSet_set f m : m <> 0 -> Flags.isSet (Flags.set f m) m = true.
Proof.
  intros Hm. unfold Flags.isSet, Flags.set. rewrite Z.land_lor_distr_l, Z.land_diag.
  apply negb_true_iff, Z.eqb_neq. intros E. apply Z.lor_eq_0_iff in E. tauto.
Qed.

Lemma isSet_clear f m : Flags.isSet (Flags.clear f m) m = false.
Proof. unfold Flags.isSet, Flags.clear. by rewrite Z.land_ldiff. Qed.

Lemma isSet_clear_other f m n : Z.land m n = 0 -> Flags.isSet (Flags.clear f m) n = Flags.isSet f n.
Proof.
  intros Hmn. unfold Flags.isSet, Flags.clear. do 2 f_equal. apply Z.bits_inj'. intros i Hi.
  rewrite !Z.land_spec, Z.ldiff_spec. apply (f_equal (fun z => Z.testbit z i)) in Hmn.
  rewrite Z.land_spec, Z.bits_0 in Hmn. destruct (Z.testbit f i), (Z.testbit m i), (Z.testbit n i); simpl in *; done.
Qed.

Lemma land_set_other f m n : Z.land m n = 0 -> Z.land (Flags.set f m) n = Z.land f n.
Proof. intros Hmn. unfold Flags.set. by rewrite Z.land_lor_distr_l, Hmn, Z.lor_0_r. Qed.

Lemma land_clear_other f m n : Z.land m n = 0 -> Z.land (Flags.clear f m) n = Z.land f n.
Proof.
  intros Hmn. unfold Flags.clear. apply Z.bits_inj'. intros i Hi.
  rewrite !Z.land_spec, Z.ldiff_spec. apply (f_equal (fun z => Z.testbit z i)) in Hmn.
  rewrite Z.land_spec, Z.bits_0 in Hmn. destruct (Z.testbit f i), (Z.testbit m i), (Z.testbit n i); simpl in *; done.
Qed.

Lemma isSet_clear_sub f m n : Z.land n (Z.lnot m) = 0 -> Flags.isSet (Flags.clear f m) n = false.
Proof.
  unfold Flags.isSet, Flags.clear. rewrite negb_false_iff, Z.eqb_eq. intros H. apply Z.bits_inj'. intros i Hi.
  apply (f_equal (fun z => Z.testbit z i)) in H. rewrite Z.land_spec, Z.lnot_spec, Z.bits_0 in H by done.
  rewrite Z.land_spec, Z.ldiff_spec, Z.bits_0. destruct (Z.testbit f i), (Z.testbit m i), (Z.testbit n i); simpl in *; done.
Qed.
