(* ===== verification/EventService.v ===== *)
(** * EventService: scheduling and servicing events

    [queued st l]: the queue of [st] holds the flat list [l], its events are
    exactly the scheduled ones, none of them is in the past.  This is the
    invariant of the event queue; every public operation is shown to return and
    to preserve it, and the loop [serviceEvents] to come to an end. *)

From stdpp Require Import prelude gmap.
From Stdlib Require Import ZArith Lia Sorted.
From S2P Require Import Prelude Machine EventQueue EventShape EventQueueCorrect.
Import EventQ.

Record queued (st : State) (l : list ptr) : Prop := {
  qd_repr : repr (heap st) (head st) l;
  qd_flags : forall x ev, heap st !! x = Some ev -> (scheduled ev = true <-> x ∈ l);
  qd_init : forall x ev, x ∈ l -> heap st !! x = Some ev -> initialized ev = true /\ queue ev = Some (qid st);
  qd_future : forall x ev, x ∈ l -> heap st !! x = Some ev -> curTick st <= when_ ev;
  qd_async : async_queue st = []
}.

(** What an operation does to the data of the events. *)
Definition data_is (st st' : State) (f : ptr -> option (Z * Z * Z * option Z)) : Prop :=
  forall x, data <$> heap st' !! x = f x.

Lemma moved_lookup st st' x ev' :
  moved st st' -> heap st' !! x = Some ev' -> exists ev, heap st !! x = Some ev /\ data ev' = data ev.
Proof.
  intros [Hd _ _ _] Hx. specialize (Hd x). rewrite Hx in Hd. destruct (heap st !! x) as [ev|]; simpl in Hd; [|done].
  exists ev. split; [done|]. congruence.
Qed.

Lemma data_eq ev ev' : data ev' = data ev ->
  when_ ev' = when_ ev /\ priority ev' = priority ev /\ flags ev' = flags ev /\ queue ev' = queue ev.
Proof. unfold data. by intros [= -> -> -> ->]. Qed.

(** The invariant only depends on the structure and the data. *)
Lemma scheduled_data ev ev' : data ev' = data ev -> scheduled ev' = scheduled ev.
Proof. intros H. apply data_eq in H as (_ & _ & H & _). unfold scheduled. by rewrite H. Qed.

Lemma initialized_data ev ev' : data ev' = data ev -> initialized ev' = initialized ev.
Proof. intros H. apply data_eq in H as (_ & _ & H & _). unfold initialized. by rewrite H. Qed.

(** The flag [IsMainQueue] is not publicly writable and nothing sets it. *)
Definition off_main (f : Z) : bool := negb (Flags.isSet f IsMainQueue).
Definition sane (st : State) : Prop := forall x ev, heap st !! x = Some ev -> off_main (flags ev) = true.

Lemma isSet_clear_le f m n : Flags.isSet f n = false -> Flags.isSet (Flags.clear f m) n = false.
Proof.
  unfold Flags.isSet, Flags.clear. rewrite !negb_false_iff, !Z.eqb_eq. intros H. apply Z.bits_inj'. intros i Hi.
  apply (f_equal (fun z => Z.testbit z i)) in H. rewrite Z.land_spec, Z.bits_0 in *. rewrite Z.ldiff_spec.
  destruct (Z.testbit f i), (Z.testbit m i), (Z.testbit n i); simpl in *; done.
Qed.

Lemma off_main_clear f m : off_main f = true -> off_main (Flags.clear f m) = true.
Proof. unfold off_main. rewrite !negb_true_iff. apply isSet_clear_le. Qed.

Lemma off_main_set f m : Z.land m IsMainQueue = 0 -> off_main f = true -> off_main (Flags.set f m) = true.
Proof. intros Hm. unfold off_main, Flags.isSet. by rewrite land_set_other. Qed.

Section Ops.
Context (inParallelMode isCurrent : bool).

(** The invariant for all events but [e], which is not in the queue. *)
Record queued_but (e : ptr) (st : State) (l : list ptr) : Prop := {
  qb_repr : repr (heap st) (head st) l;
  qb_out : e ∉ l;
  qb_flags : forall x ev, x <> e -> heap st !! x = Some ev -> (scheduled ev = true <-> x ∈ l);
  qb_init : forall x ev, x ∈ l -> heap st !! x = Some ev -> initialized ev = true /\ queue ev = Some (qid st);
  qb_future : forall x ev, x ∈ l -> heap st !! x = Some ev -> curTick st <= when_ ev;
  qb_async : async_queue st = []
}.

Lemma queued_but_intro e st l : queued st l -> e ∉ l -> queued_but e st l.
Proof. intros [Q1 Q2 Q3 Q4 Q5] He. split; try done. intros x ev _. apply Q2. Qed.

Lemma queued_but_done e st l :
  queued_but e st l -> (forall ev, heap st !! e = Some ev -> scheduled ev = false) -> queued st l.
Proof.
  intros [Q1 Q2 Q3 Q4 Q5 Q6] He. split; try done. intros x ev Hx. destruct (decide (x = e)) as [->|Hne]; [|by apply Q3].
  rewrite (He ev Hx). split; [done|]. by intros.
Qed.

(** Anything may happen to [e]. *)
Lemma queued_but_set e h st l :
  queued_but e st l -> (forall x, x <> e -> h !! x = heap st !! x) -> queued_but e (set_heap h st) l.
Proof.
  intros [Q1 Q2 Q3 Q4 Q5 Q6] Hh. assert (forall x, x ∈ l -> x <> e) as Hne by (intros x Hx ->; done). split; simpl; try done.
  - eapply repr_ext; [|exact Q1]. intros x Hx. by rewrite Hh by (by apply Hne).
  - intros x ev Hx. rewrite Hh by done. by apply Q3.
  - intros x ev Hx. rewrite Hh by (by apply Hne). by apply Q4.
  - intros x ev Hx. rewrite Hh by (by apply Hne). by apply Q5.
Qed.

Lemma without_spec (e : ptr) l x : x ∈ without e l <-> x <> e /\ x ∈ l.
Proof. by rewrite list_elem_of_filter. Qed.

(** An event leaves the queue. *)
Lemma leave_spec st e ev l :
  queued st l -> heap st !! e = Some ev -> e ∈ l ->
  exists st' ev', remove e st = Some st' /\ moved st st' /\ queued_but e st' (without e l) /\
    heap st' !! e = Some ev' /\ data ev' = data ev.
Proof.
  intros Hq He Hin. destruct (qd_init _ _ Hq e ev Hin He) as [_ Hqe].
  destruct (remove_spec st e ev l He Hqe (qd_repr _ _ Hq) Hin) as (st' & Hr & Hm & Hrep).
  destruct (same_data_lookup _ _ _ _ (mv_data _ _ Hm) He) as (ev' & He' & Hd). exists st', ev'.
  split; [done|]. split; [done|]. split; [|done]. destruct Hq as [Q1 Q2 Q3 Q4 Q5].
  split; [done|rewrite without_spec; tauto| | | |by rewrite (mv_async _ _ Hm)]; intros x xe Hx Hxe;
    destruct (moved_lookup _ _ _ _ Hm Hxe) as (xe0 & Hx0 & Hdx); destruct (data_eq _ _ Hdx) as (D1 & _ & _ & D4);
    rewrite ?without_spec in *.
  - rewrite (scheduled_data _ _ Hdx), (Q2 x xe0) by done. tauto.
  - rewrite (initialized_data _ _ Hdx), D4, (mv_qid _ _ Hm). apply (Q3 x); tauto.
  - rewrite D1, (mv_tick _ _ Hm). apply (Q4 x); tauto.
Qed.

(** The keys after [e] has been given the time [t]. *)
Definition rekey (k : ptr -> Z * Z) (e : ptr) (t : Z) (x : ptr) : Z * Z := if decide (x = e) then (t, (k e).2) else k x.

Lemma key_setWhen h e ev t q x : h !! e = Some ev -> key (<[e := setWhen t q ev]> h) x = rekey (key h) e t x.
Proof.
  intros He. unfold rekey. case_decide as Hx.
  - subst x. by rewrite (key_lookup _ _ (setWhen t q ev)), (key_lookup _ _ _ He) by apply lookup_insert_eq.
  - unfold key. by rewrite lookup_insert_ne.
Qed.

(** The data of the other events. *)
Definition others (e : ptr) (st st' : State) : Prop :=
  curTick st' = curTick st /\ qid st' = qid st /\
  forall x, x <> e -> data <$> heap st' !! x = data <$> heap st !! x.

Lemma others_trans e st1 st2 st3 : others e st1 st2 -> others e st2 st3 -> others e st1 st3.
Proof. intros (A1 & A2 & A3) (B1 & B2 & B3). split; [congruence|]. split; [congruence|]. intros x Hx. by rewrite B3, A3. Qed.

Lemma moved_others e st st' : moved st st' -> others e st st'.
Proof. intros [M1 M2 M3 _]. split; [done|]. split; [done|]. by intros x _. Qed.

Lemma others_sane e st st' :
  others e st st' -> sane st -> (forall ev', heap st' !! e = Some ev' -> off_main (flags ev') = true) -> sane st'.
Proof.
  intros (_ & _ & Ho) Hs He x xe Hx. destruct (decide (x = e)) as [->|Hne]; [by apply He|]. specialize (Ho x Hne).
  rewrite Hx in Ho. destruct (heap st !! x) as [xe0|] eqn:Hx0; [|done]. simpl in Ho.
  assert (data xe = data xe0) as Hd by congruence. destruct (data_eq _ _ Hd) as (_ & _ & -> & _). by apply (Hs x).
Qed.

(** [e] has been put in the queue at time [t]. *)
Definition enqueued (st : State) (l : list ptr) (e : ptr) (t : Z) (st' : State) : Prop :=
  queued st' (place (rekey (key (heap st)) e t) e l) /\ others e st st' /\ (sane st -> sane st') /\
  exists ev', heap st' !! e = Some ev' /\ when_ ev' = t.

(** [e] has been taken out of the queue. *)
Definition dequeued (st : State) (l : list ptr) (e : ptr) (st' : State) : Prop :=
  queued st' (without e l) /\ others e st st' /\ (sane st -> sane st') /\ (forall ev', heap st' !! e = Some ev' -> scheduled ev' = false).

(** Setting the time, inserting, and a change of flags that leaves [e] scheduled. *)
Lemma wp_enter st e ev l t f :
  queued_but e st l -> heap st !! e = Some ev -> curTick st <= t ->
  (forall g, flags g = flags ev -> scheduled (f g) = true /\ initialized (f g) = true) ->
  (forall g, links (f g) = links g /\ queue (f g) = queue g) ->
  (forall g, off_main (flags g) = true -> off_main (flags (f g)) = true) ->
  wp (st1 ← upd e (setWhen t (qid st)) st; st2 ← insert e st1; upd e f st2) (enqueued st l e t).
Proof.
  intros Hq He Ht Hf1 Hf2 Hf3. apply wp_bind. unfold upd at 1. rewrite He. simpl.
  set (h1 := <[e := setWhen t (qid st) ev]> (heap st)).
  assert (queued_but e (set_heap h1 st) l) as Hq1.
  { apply queued_but_set; [done|]. intros x Hx. unfold h1. by rewrite lookup_insert_ne. }
  assert (h1 !! e = Some (setWhen t (qid st) ev)) as He1 by (unfold h1; by rewrite lookup_insert_eq).
  destruct (insert_place (set_heap h1 st) e _ l He1 (qb_out _ _ _ Hq1) (qb_repr _ _ _ Hq1)) as (st2 & Hi & Hm & Hr).
  destruct (same_data_lookup _ _ _ _ (mv_data _ _ Hm) He1) as (ev2 & He2 & Hd2).
  destruct (data_eq _ _ Hd2) as (D1 & D2 & D3 & D4). destruct (Hf1 ev2 D3) as [F1 F2]. destruct (Hf2 ev2) as (F3 & F4).
  rewrite Hi. simpl. unfold upd. rewrite He2. simpl. simpl in Hr. pose proof Hq1 as [Q1 Q2 Q3 Q4 Q5 Q6].
  rewrite (place_ext (rekey (key (heap st)) e t)) in Hr by (intros x _; by apply (key_setWhen (heap st) e ev)).
  assert (when_ (f ev2) = t) as F5 by (unfold links, key_of in F3; injection F3 as _ _ -> _; done).
  assert (others e st (set_heap (<[e := f ev2]> (heap st2)) st2)) as Hoth.
  { split; [simpl; by rewrite (mv_tick _ _ Hm)|]. split; [simpl; by rewrite (mv_qid _ _ Hm)|]. intros x Hx. simpl.
    rewrite lookup_insert_ne by done. rewrite (mv_data _ _ Hm x). simpl. unfold h1. by rewrite lookup_insert_ne. }
  split; [|split; [done|split]].
  - split; simpl; [by apply (repr_insert _ _ _ _ ev2)| | | |by rewrite (mv_async _ _ Hm)]; intros x xe.
    + rewrite lookup_insert, elem_of_place. case_decide as Hx; [intros [= <-]; subst x; tauto|]. intros Hxe.
      destruct (moved_lookup _ _ _ _ Hm Hxe) as (xe0 & Hx0 & Hdx). rewrite (scheduled_data _ _ Hdx), (Q3 x xe0) by done.
      set_solver.
    + rewrite elem_of_place, lookup_insert, (mv_qid _ _ Hm). intros Hx. case_decide as Hxe; [intros [= <-]; by rewrite F4, D4|].
      intros Hx1. destruct (moved_lookup _ _ _ _ Hm Hx1) as (xe0 & Hx0 & Hdx). rewrite (initialized_data _ _ Hdx).
      destruct (data_eq _ _ Hdx) as (_ & _ & _ & ->). apply (Q4 x); [set_solver|done].
    + rewrite elem_of_place, lookup_insert, (mv_tick _ _ Hm). intros Hx. case_decide as Hxe; [intros [= <-]; by rewrite F5|].
      intros Hx1. destruct (moved_lookup _ _ _ _ Hm Hx1) as (xe0 & Hx0 & Hdx).
      destruct (data_eq _ _ Hdx) as (-> & _). apply (Q5 x); [set_solver|done].
  - intros Hsn. apply (others_sane e st); [done|done|]. simpl. rewrite lookup_insert_eq. intros ev' [= <-]. apply Hf3.
    rewrite D3. simpl. by apply (Hsn e).
  - exists (f ev2). simpl. rewrite lookup_insert_eq. by split.
Qed.

(** A chain of three steps and a last one that does not change the state. *)
Lemma wp_then {A B C D} (m : option A) (f : A -> option B) (g : B -> option C) (k : C -> option D) (Q : D -> Prop) :
  wp (a ← m; b ← f a; g b) (fun c => wp (k c) Q) -> wp (a ← m; b ← f a; c ← g b; k c) Q.
Proof. destruct m as [a|]; [|done]. simpl. destruct (f a) as [b|]; [|done]. simpl. by destruct (g b). Qed.

Lemma schedule_spec st e ev l t global :
  queued st l -> heap st !! e = Some ev -> scheduled ev = false -> initialized ev = true ->
  curTick st <= t -> inParallelMode && (negb isCurrent || global) = false ->
  wp (schedule inParallelMode isCurrent e t global st) (enqueued st l e t).
Proof.
  intros Hq He Hs Hi Ht Hp. unfold schedule, deref. rewrite Hp.
  assert (e ∉ l) as Hn by (intros Hin; apply (qd_flags _ _ Hq e ev He) in Hin; congruence).
  apply wp_bind, wp_assert; [lia|]. rewrite He. simpl. rewrite Hs, Hi. simpl. apply wp_then.
  eapply wp_mono; [eapply (wp_enter st e ev l t); try done; [by apply queued_but_intro| |]|].
  - intros g Hg. unfold scheduled, initialized in *. simpl. rewrite Hg. split; [by apply isSet_set|].
    by rewrite land_set_other.
  - intros g. by apply off_main_set.
  - intros st' Hst. pose proof Hst as (_ & _ & _ & ev' & He' & _). unfold acquire, deref. by rewrite He'.
Qed.

(** [release] after the event has been taken out of the queue. *)
Lemma wp_release st e ev l :
  queued_but e st l -> heap st !! e = Some ev -> scheduled ev = false ->
  wp (release e st) (fun st' => queued st' l /\ others e st st' /\ (sane st -> sane st') /\
    (forall ev', heap st' !! e = Some ev' -> scheduled ev' = false)).
Proof.
  intros Hq He Hs. unfold release, deref. rewrite He. simpl. rewrite Hs, andb_true_r.
  assert (forall ev', delete e (heap st) !! e = Some ev' -> scheduled ev' = false) as Hdel by (intros ev'; by rewrite lookup_delete_eq).
  destruct (isManaged ev); (split; [|split; [|split; [|done || (intros ev' E; simpl in E; congruence)]]]).
  - eapply queued_but_done; [|exact Hdel]. apply queued_but_set; [done|]. intros x Hx. by rewrite lookup_delete_ne.
  - split; [done|]. split; [done|]. intros x Hx. simpl. by rewrite lookup_delete_ne.
  - intros Hsn x xe. simpl. rewrite lookup_delete. case_decide; [done|]. apply Hsn.
  - eapply queued_but_done; [done|]. intros ev' E. congruence.
  - by split.
  - done.
Qed.

Lemma deschedule_spec st e ev l :
  queued st l -> heap st !! e = Some ev -> e ∈ l -> negb inParallelMode || isCurrent = true ->
  wp (deschedule inParallelMode isCurrent e st) (dequeued st l e).
Proof.
  intros Hq He Hin Hp. unfold deschedule, deref. rewrite He. simpl.
  destruct (qd_init _ _ Hq e ev Hin He) as [Hi Hqe]. assert (scheduled ev = true) as Hs by (by apply (qd_flags _ _ Hq e)).
  rewrite Hs, Hi, Hp. simpl. destruct (leave_spec st e ev l Hq He Hin) as (st1 & ev1 & Hr & Hm & Hqb & He1 & Hd).
  rewrite Hr. simpl. unfold upd. rewrite He1. simpl.
  set (h2 := <[e := _]> (heap st1)). assert (forall x, x <> e -> h2 !! x = heap st1 !! x) as Hh2.
  { intros x Hx. unfold h2. by rewrite lookup_insert_ne. }
  eapply wp_mono; [eapply (wp_release (set_heap h2 st1) e _ (without e l))|].
  - by apply queued_but_set.
  - unfold h2. simpl. by rewrite lookup_insert_eq.
  - apply isSet_clear.
  - assert (others e st (set_heap h2 st1)) as Ho2.
    { eapply others_trans; [by apply moved_others|]. split; [done|]. split; [done|]. intros x Hx. simpl. by rewrite Hh2. }
    intros st' (H1 & H2 & H3 & H4). split; [done|]. split; [by eapply others_trans|]. split; [|done]. intros Hsn. apply H3.
    apply (others_sane e st); [done|done|]. unfold h2. simpl. rewrite lookup_insert_eq. intros ev' [= <-]. simpl.
    do 2 apply off_main_clear. destruct (data_eq _ _ Hd) as (_ & _ & -> & _). by apply (Hsn e).
Qed.

Lemma reschedule_spec st e ev l t always :
  queued st l -> heap st !! e = Some ev -> always || scheduled ev = true -> initialized ev = true ->
  curTick st <= t -> negb inParallelMode || isCurrent = true ->
  wp (reschedule inParallelMode isCurrent e t always st) (enqueued st (without e l) e t).
Proof.
  intros Hq He Ha Hi Ht Hp. unfold reschedule, deref.
  apply wp_bind, wp_assert; [lia|]. rewrite He. simpl. rewrite Ha, Hi, Hp. simpl.
  assert (forall g, flags g = flags ev -> let f := set_flags (Flags.set (Flags.clear (flags g) Squashed) Scheduled) g in
    scheduled f = true /\ initialized f = true) as Hfl.
  { intros g Hg f. unfold f, scheduled, initialized in *. simpl. rewrite Hg. split; [by apply isSet_set|].
    by rewrite land_set_other, land_clear_other. }
  destruct (scheduled ev) eqn:Hs.
  - assert (e ∈ l) as Hin by (by apply (qd_flags _ _ Hq e ev)).
    destruct (leave_spec st e ev l Hq He Hin) as (st1 & ev1 & Hr & Hm & Hqb & He1 & Hd). rewrite Hr. simpl.
    destruct (data_eq _ _ Hd) as (_ & _ & D3 & _).
    eapply wp_mono; [eapply (wp_enter st1 e ev1 (without e l) t); try done|].
    + by rewrite (mv_tick _ _ Hm).
    + intros g Hg. apply Hfl. congruence.
    + intros g Hg. simpl. by apply off_main_set, off_main_clear.
    + intros st' (E1 & E2 & E3 & E4). split; [|split; [by eapply others_trans; [apply moved_others|]|split; [|done]]].
      2: { intros Hsn. apply E3. intros x xe Hx. destruct (moved_lookup _ _ _ _ Hm Hx) as (xe0 & Hx0 & Hdx).
           destruct (data_eq _ _ Hdx) as (_ & _ & -> & _). by apply (Hsn x). }
      erewrite place_ext; [exact E1|]. intros x _. unfold rekey. by rewrite !(same_data_key _ _ _ (mv_data _ _ Hm)).
  - assert (e ∉ l) as Hn by (intros Hin; apply (qd_flags _ _ Hq e ev He) in Hin; congruence). rewrite without_id by done.
    unfold acquire, deref. rewrite He. simpl. eapply (wp_enter st e ev l t); try done; [by apply queued_but_intro|].
    intros g Hg. simpl. by apply off_main_set, off_main_clear.
Qed.
End Ops.

(** ** Taking the first event *)

(** The first part of [serviceOne], before the action. *)
Definition pop (event : ptr) (e : Event) (st : State) : option State :=
  st ← upd event (fun e => set_flags (Flags.clear (flags e) Scheduled) e) st;
  match nextInBin e with
  | Some n => st ← upd n (set_nextBin (nextBin e)) st; Some (set_head (Some n) st)
  | None => Some (set_head (nextBin e) st)
  end.

Lemma pop_spec st e ev l :
  queued st (e :: l) -> heap st !! e = Some ev ->
  exists st1 ev1, pop e ev st = Some st1 /\ queued_but e st1 l /\ others e st st1 /\ heap st1 !! e = Some ev1 /\
    data ev1 = (when_ ev, priority ev, Flags.clear (flags ev) Scheduled, queue ev) /\ dom (heap st1) = dom (heap st).
Proof.
  intros Hq He. pose proof Hq as [Q1 Q2 Q3 Q4 Q5]. set (ev0 := set_flags (Flags.clear (flags ev) Scheduled) ev).
  set (st0 := set_heap (<[e := ev0]> (heap st)) st).
  assert (heap st0 !! e = Some ev0) as He0 by (simpl; by rewrite lookup_insert_eq).
  assert (repr (heap st0) (head st0) (e :: l)) as (bins & Hc & Hcat) by (by apply (repr_insert _ _ _ _ ev)).
  pose proof (repr_NoDup _ _ _ Q1) as Hnd. apply NoDup_cons in Hnd as [Hnl Hndl].
  destruct bins as [|b rest]; [done|].
  destruct (chain_head _ _ _ _ Hc) as (y & b' & ye & q & -> & Hh & _ & _ & _). simpl in Hcat. injection Hcat as -> Hcat.
  rewrite Hh in Hc. pose proof Hc as [_ Hnd' Ho'].
  destruct (removeItem_spec st0 e e (e :: b') rest Hc) as (p' & h' & Hri & Hsame & Hb' & _); [set_solver|].
  destruct (same_data_lookup _ _ _ _ Hsame He0) as (ev1 & He1 & Hd1).
  destruct (drop_bins (key (heap st0)) e [] (e :: b') rest Ho' Hnd') as (Hp & Ho2 & Hnd2); [set_solver|].
  assert (repr h' p' l) as Hr.
  { exists (drop_item e (e :: b') rest). split; [by apply (chain_same_data (heap st0))|].
    simpl in Hp. rewrite Hcat, filter_cons_False, without_id in Hp; [done|done|tauto]. }
  assert (forall x, x <> e -> data <$> h' !! x = data <$> heap st !! x) as Hold.
  { intros x Hx. rewrite (Hsame x). simpl. by rewrite lookup_insert_ne. }
  assert (forall x xe, x <> e -> h' !! x = Some xe -> exists xe0, heap st !! x = Some xe0 /\ data xe = data xe0) as Hold'.
  { intros x xe Hx Hxe. specialize (Hold x Hx). rewrite Hxe in Hold. destruct (heap st !! x) as [xe0|]; [|done].
    exists xe0. split; [done|]. simpl in Hold. congruence. }
  assert (forall x, x ∈ l -> x <> e) as Hne by (intros x Hx ->; done).
  exists (set_head p' (set_heap h' st0)), ev1. split; [|split; [|split; [by split|split; [exact He1|split; [by rewrite Hd1|]]]]].
  - unfold pop, upd. rewrite He. simpl. fold ev0. unfold removeItem, deref in Hri. rewrite He0 in Hri. simpl in Hri.
    rewrite decide_True in Hri by done. destruct (nextInBin ev) as [n|]; [|by injection Hri as <- <-].
    unfold upd in Hri. simpl in Hri. destruct (<[e:=ev0]> (heap st) !! n); [|done]. simpl in *. by injection Hri as <- <-.
  - split; simpl; try done; intros x xe Hx Hxe;
      destruct (Hold' x xe) as (xe0 & Hx0 & Hdx); try done; try (by apply Hne); destruct (data_eq _ _ Hdx) as (D1 & _ & _ & D4).
    + rewrite (scheduled_data _ _ Hdx), (Q2 x xe0) by done. set_solver.
    + rewrite (initialized_data _ _ Hdx), D4. apply (Q3 x); [set_solver|done].
    + rewrite D1. apply (Q4 x); [set_solver|done].
  - simpl. apply set_eq. intros x. rewrite !elem_of_dom. destruct (decide (x = e)) as [->|Hx]; [rewrite He1, He; naive_solver|].
    specialize (Hold x Hx). destruct (h' !! x), (heap st !! x); simpl in Hold; naive_solver.
Qed.

(** ** Servicing *)

(** The time of an event. *)
Definition time (h : gmap ptr Event) (x : ptr) : Z := (key h x).1.

Lemma time_lookup h x ev : h !! x = Some ev -> time h x = when_ ev.
Proof. intros Hx. unfold time. by rewrite (key_lookup _ _ _ Hx). Qed.

(** What the queue relies on in the actions of events: they keep the invariant and
    the current tick, neither allocate nor free events, and what they put in the
    queue is later than now. *)
Class Handlers {U : Type} (process : ptr -> U * State -> option (U * State)) : Prop := {
  handler_ok e ev u st l :
    queued st l -> sane st -> heap st !! e = Some ev -> initialized ev = true -> e ∉ l ->
    wp (process e (u, st)) (fun '(_, st') => exists l', queued st' l' /\ sane st' /\ curTick st' = curTick st /\
      dom (heap st') = dom (heap st) /\
      (forall x, x ∈ l' -> curTick st < time (heap st') x \/ x ∈ l /\ time (heap st') x = time (heap st) x))
}.

(** Actions that leave the queue alone. *)
Definition passive {U} (act : ptr -> U -> U) (e : ptr) (us : U * State) : option (U * State) := Some (act e us.1, us.2).

#[export] Instance passive_handlers {U} (act : ptr -> U -> U) : Handlers (passive act).
Proof. split. intros e ev u st l Hq Hs He Hi Hn. simpl. exists l. do 4 (split; [done|]). auto. Qed.

(** The part of [serviceOne] after the action. *)
Definition finish {U} (e : ptr) (us : U * State) : option (option ptr * (U * State)) :=
  let '(u, st) := us in
  e' ← deref e st;
  if isExitEvent e' then
    _ ← assert_ (negb (isManaged e') || negb (Flags.isSet (flags e') IsMainQueue));
    Some (Some e, (u, st))
  else st ← release e st; Some (None, (u, st)).

Section Service.
Context {U : Type} (process : ptr -> U * State -> option (U * State)).

Lemma serviceOne_pop u st e ev :
  head st = Some e -> heap st !! e = Some ev ->
  serviceOne process (u, st) =
  (st ← pop e ev st;
   if negb (squashed ev) then us ← process e (u, setCurTick (when_ ev) st); finish e us
   else
     st ← upd e (fun e => set_flags (Flags.clear (flags e) Squashed) e) st;
     st ← release e st; Some (None, (u, st))).
Proof.
  intros Hh He. unfold serviceOne, pop, deref. rewrite Hh. simpl. rewrite He. simpl.
  destruct (upd e _ st) as [st0|]; [|done]. simpl. destruct (nextInBin ev); [|done]. by destruct (upd p _ st0).
Qed.

(** Nothing in a queue is earlier than its first event. *)
Lemma queued_first st e ev l x :
  queued st (e :: l) -> heap st !! e = Some ev -> x ∈ l -> when_ ev <= time (heap st) x.
Proof.
  intros Hq He Hx. pose proof (repr_sorted _ _ _ (qd_repr _ _ Hq)) as Hs. inversion Hs as [|? ? _ Hall]; subst.
  eapply Forall_forall in Hall; [|exact Hx]. rewrite (key_lookup _ _ _ He) in Hall. unfold klt, key_of, time in *. simpl in *. lia.
Qed.

Lemma queued_head st l : queued st l -> head st = hd_error l.
Proof. intros Hq. apply (repr_head (heap st)), Hq. Qed.

Lemma data_time h h' x : data <$> h' !! x = data <$> h !! x -> time h' x = time h x.
Proof.
  intros Hd. unfold time, key, key_of. destruct (h' !! x), (h !! x); simpl in *; try done. by injection Hd as -> _ _ _.
Qed.

(** The current tick moves forward to a time that no queued event precedes. *)
Lemma queued_tick e st l t :
  queued_but e st l -> curTick st <= t -> (forall x, x ∈ l -> t <= time (heap st) x) -> queued_but e (setCurTick t st) l.
Proof.
  intros [Q1 Q2 Q3 Q4 Q5 Q6] Ht Hl. split; try done. intros x ev Hx Hxe. simpl in *. rewrite <- (time_lookup _ _ _ Hxe). by apply Hl.
Qed.

(** The state after an event has been released. *)
Record released (st : State) (l : list ptr) (st' : State) : Prop := {
  rl_queued : queued st' l;
  rl_sane : sane st';
  rl_tick : curTick st' = curTick st;
  rl_dom : dom (heap st') ⊆ dom (heap st);
  rl_data : forall x, x ∈ l -> data <$> heap st' !! x = data <$> heap st !! x
}.

Lemma wp_release_any st e ev l :
  queued st l -> sane st -> heap st !! e = Some ev -> wp (release e st) (released st l).
Proof.
  intros Hq Hsn He. unfold release, deref. rewrite He. simpl. destruct (scheduled ev) eqn:Hs; [by rewrite andb_false_r|].
  destruct (isManaged ev); simpl; [|done].
  assert (e ∉ l) as Hn by (intros Hin; apply (qd_flags _ _ Hq e ev He) in Hin; congruence). split; [|..].
  - eapply queued_but_done; [apply queued_but_set; [by apply queued_but_intro|]|]; simpl.
    + intros x Hx. by rewrite lookup_delete_ne.
    + intros ev'. by rewrite lookup_delete_eq.
  - intros x xe. simpl. rewrite lookup_delete. case_decide; [done|]. apply Hsn.
  - done.
  - simpl. rewrite dom_delete_L. set_solver.
  - intros x Hx. simpl. by rewrite lookup_delete_ne by (intros ->; done).
Qed.

Lemma wp_finish (u : U) st e l :
  queued st l -> sane st -> is_Some (heap st !! e) ->
  wp (finish e (u, st)) (fun '(_, (u', st')) => u' = u /\ released st l st').
Proof.
  intros Hq Hsn [ev He]. unfold finish, deref. rewrite He. simpl. destruct (isExitEvent ev) eqn:Hx.
  - assert (negb (isManaged ev) || negb (Flags.isSet (flags ev) IsMainQueue) = true) as ->; [|done].
    specialize (Hsn e ev He). unfold off_main in Hsn. by rewrite Hsn, orb_true_r.
  - eapply wp_bind, wp_mono; [by apply (wp_release_any st e ev l)|]. intros st' Hr. by apply wp_ret.
Qed.

(** The two ways [serviceOne] goes: a squashed event is dropped, the action of
    another one runs in a state without it, at its time. *)
Lemma serviceOne_cases u st e ev l :
  queued st (e :: l) -> sane st -> heap st !! e = Some ev ->
  exists st1, queued st1 l /\ sane st1 /\ curTick st <= when_ ev /\
    (exists ev1, heap st1 !! e = Some ev1 /\ initialized ev1 = true /\ isExitEvent ev1 = isExitEvent ev /\ squashed ev1 = false /\
      isManaged ev1 = isManaged ev) /\ dom (heap st1) = dom (heap st) /\
    (forall x, x <> e -> data <$> heap st1 !! x = data <$> heap st !! x) /\
    if squashed ev then
      curTick st1 = curTick st /\ serviceOne process (u, st) = (st2 ← release e st1; Some (None, (u, st2)))
    else
      curTick st1 = when_ ev /\ serviceOne process (u, st) = (us ← process e (u, st1); finish e us).
Proof.
  intros Hq Hsn He. rewrite (serviceOne_pop _ _ e ev) by (done || by rewrite (queued_head _ _ Hq)).
  destruct (pop_spec st e ev l Hq He) as (st1 & ev1 & Hp & Hq1 & Ho & He1 & Hd1 & Hdom). rewrite Hp. simpl.
  pose proof (qb_out _ _ _ Hq1) as Hn. assert (forall x, x ∈ l -> x <> e) as Hne by (intros x Hx ->; done).
  assert (forall x, x <> e -> data <$> heap st1 !! x = data <$> heap st !! x) as Hdat by apply Ho.
  assert (curTick st <= when_ ev) as Hcur by (apply (qd_future _ _ Hq e); [set_solver|done]).
  pose proof (proj1 Ho) as Htick. unfold data in Hd1. injection Hd1 as Hw1 _ Hf1 _.
  assert (scheduled ev1 = false) as Hs1 by (unfold scheduled; rewrite Hf1; apply isSet_clear).
  assert (initialized ev1 = true) as Hi1.
  { destruct (qd_init _ _ Hq e ev) as [Hi _]; [set_solver|done|]. unfold initialized in *. by rewrite Hf1, land_clear_other. }
  assert (isExitEvent ev1 = isExitEvent ev) as Hx1 by (unfold isExitEvent; by rewrite Hf1, isSet_clear_other).
  assert (squashed ev1 = squashed ev) as Hsq1 by (unfold squashed; by rewrite Hf1, isSet_clear_other).
  assert (isManaged ev1 = isManaged ev) as Hmg1 by (unfold isManaged; by rewrite Hf1, isSet_clear_other).
  assert (sane st1) as Hsn1.
  { intros x xe Hxe. destruct (decide (x = e)) as [->|Hx].
    - assert (xe = ev1) as -> by congruence. rewrite Hf1. apply off_main_clear. by apply (Hsn e).
    - destruct Ho as (_ & _ & Ho). specialize (Ho x Hx). rewrite Hxe in Ho. destruct (heap st !! x) as [xe0|] eqn:Hx0; [|done].
      simpl in Ho. assert (data xe = data xe0) as Hd by congruence. destruct (data_eq _ _ Hd) as (_ & _ & -> & _). by apply (Hsn x). }
  destruct (squashed ev) eqn:Hsq; simpl.
  - set (ev2 := set_flags (Flags.clear (flags ev1) Squashed) ev1). exists (set_heap (<[e := ev2]> (heap st1)) st1).
    assert (forall x, x <> e -> <[e := ev2]> (heap st1) !! x = heap st1 !! x) as Hh2 by (intros x Hx; by rewrite lookup_insert_ne).
    split; [|split; [|split; [done|split; [|split; [|split]]]]]; simpl.
    + eapply queued_but_done; [by apply queued_but_set|]. simpl. rewrite lookup_insert_eq. intros ev' [= <-].
      unfold scheduled. simpl. rewrite isSet_clear_other by done. exact Hs1.
    + intros x xe. simpl. rewrite lookup_insert. case_decide as Hx; [|apply Hsn1]. intros [= <-]. simpl. apply off_main_clear. by apply (Hsn1 e).
    + exists ev2. rewrite lookup_insert_eq. split; [done|]. unfold initialized, isExitEvent, squashed, isManaged in *. simpl.
      rewrite land_clear_other, (isSet_clear_other _ _ IsExitEvent), (isSet_clear_other _ _ Managed), isSet_clear by done. done.
    + by rewrite dom_insert_lookup_L.
    + intros x Hx. rewrite Hh2 by done. by apply Hdat.
    + split; [done|]. unfold upd. by rewrite He1.
  - exists (setCurTick (when_ ev) st1). split; [|split; [done|split; [done|split; [by exists ev1|split; [done|split; [done|by split]]]]]].
    eapply queued_but_done; [apply queued_tick; [done|lia|]|simpl; intros ev' E; congruence].
    intros x Hx. rewrite (data_time (heap st)) by (apply Hdat, Hne, Hx). by apply (queued_first st e ev l).
Qed.

Context {HH : Handlers process}.

(** One event is serviced: the queue afterwards holds events of before, at their
    time, and events at later times. *)
Lemma serviceOne_spec u st e l :
  queued st (e :: l) -> sane st ->
  wp (serviceOne process (u, st)) (fun '(_, (_, st')) => exists l', queued st' l' /\ sane st' /\
    curTick st <= curTick st' <= time (heap st) e /\ dom (heap st') ⊆ dom (heap st) /\
    forall x, x ∈ l' -> time (heap st) e < time (heap st') x \/ x ∈ l /\ time (heap st') x = time (heap st) x).
Proof.
  intros Hq Hsn. destruct (repr_members _ _ _ e (qd_repr _ _ Hq)) as [ev He]; [set_solver|].
  assert (e ∉ l) as Hn by (pose proof (repr_NoDup _ _ _ (qd_repr _ _ Hq)) as Hnd; by apply NoDup_cons in Hnd as [? _]).
  destruct (serviceOne_cases u st e ev l Hq Hsn He) as (st1 & Hq1 & Hs1 & Hcur & (ev1 & He1 & Hi1 & _ & _) & Hdom & Hdat & Hc).
  assert (forall x, x ∈ l -> x <> e) as Hne by (by intros x Hx ->).
  rewrite (time_lookup _ _ _ He). destruct (squashed ev); destruct Hc as [Htick ->]; apply wp_bind.
  - eapply wp_mono; [by apply (wp_release_any st1 e ev1 l)|]. intros st2 [R1 R2 R3 R4 R5]. apply wp_ret. exists l.
    split; [done|]. split; [done|]. split; [lia|]. split; [by rewrite <- Hdom|]. intros x Hx. right. split; [done|].
    apply data_time. rewrite R5 by done. auto.
  - eapply wp_mono; [by apply (handler_ok e ev1 u st1 l Hq1 Hs1)|].
    intros [u2 st2] (l' & Hq2 & Hs2 & Htk & Hd2 & Hl2). eapply wp_mono; [apply (wp_finish u2 st2 e l'); try done|].
    { apply elem_of_dom. rewrite Hd2. apply elem_of_dom. by eexists. }
    intros [? [u3 st3]] (-> & [R1 R2 R3 R4 R5]). exists l'. split; [done|]. split; [done|]. split; [lia|].
    split; [by rewrite <- Hdom, <- Hd2|]. intros x Hx. rewrite (data_time (heap st2)) by (by apply R5).
    destruct (Hl2 x Hx) as [|[Hxl E]]; [left; lia|right]. split; [done|]. rewrite E. apply data_time. auto.
Qed.

(** *** The loop *)

(** The potential of the events that are due until [T]: an event at time [t] can
    be replaced by [N] events at later times. *)
Definition weight (N T t : Z) : Z := if t <=? T then (N + 1) ^ (T - t) else 0.
Definition potential (N T : Z) (h : gmap ptr Event) (l : list ptr) : Z :=
  foldr (fun x s => weight N T (time h x) + s) 0 l.

Lemma weight_nonneg N T t : 0 <= N -> 0 <= weight N T t.
Proof. intros HN. unfold weight. destruct (Z.leb_spec t T); [apply Z.pow_nonneg; lia|lia]. Qed.

Lemma weight_mono N T t t' : 0 <= N -> t <= t' -> weight N T t' <= weight N T t.
Proof.
  intros HN Ht. unfold weight. destruct (Z.leb_spec t' T), (Z.leb_spec t T); try lia.
  apply Z.pow_le_mono_r; lia.
Qed.

Lemma weight_step N T t : 0 <= N -> t <= T -> N * weight N T (t + 1) < weight N T t.
Proof.
  intros HN Ht. unfold weight. destruct (Z.leb_spec (t + 1) T), (Z.leb_spec t T); try lia.
  replace (T - t) with (Z.succ (T - (t + 1))) by lia. rewrite Z.pow_succ_r by lia.
    pose proof (Z.pow_pos_nonneg (N + 1) (T - (t + 1))). lia.
Qed.

(** Sums over lists. *)
Abbreviation total f l := (foldr (fun (x : ptr) s => f x + s) 0 l).

Lemma total_perm (f : ptr -> Z) l k : l ≡ₚ k -> total f l = total f k.
Proof. induction 1; simpl; lia. Qed.

Lemma total_app (f : ptr -> Z) l k : total f (l ++ k) = total f l + total f k.
Proof. induction l as [|x l IH]; simpl; lia. Qed.

Lemma total_nonneg (f : ptr -> Z) l : (forall x, 0 <= f x) -> 0 <= total f l.
Proof. intros Hf. induction l as [|x l IH]; simpl; [lia|]. specialize (Hf x). lia. Qed.

Lemma total_sub (f : ptr -> Z) l k : (forall x, 0 <= f x) -> l ⊆+ k -> total f l <= total f k.
Proof.
  intros Hf Hs. apply submseteq_Permutation in Hs as [r Hp]. rewrite (total_perm f k (l ++ r)), total_app by done.
  pose proof (total_nonneg f r Hf). lia.
Qed.

(** Events of before, or events of weight at most [B]. *)
Lemma total_replace (f g : ptr -> Z) B l l' :
  (forall x, 0 <= f x) -> 0 <= B -> NoDup l' -> (forall x, x ∈ l' -> g x <= B \/ x ∈ l /\ g x = f x) ->
  total g l' <= total f l + Z.of_nat (length l') * B.
Proof.
  intros Hf HB Hnd Hg.
  assert (total g l' <= total f (filter (fun x => x ∈ l) l') + Z.of_nat (length l') * B) as H1.
  { clear Hnd. induction l' as [|x l' IH]; simpl; [lia|]. specialize (IH (fun y Hy => Hg y (list_elem_of_further _ _ _ Hy))).
    specialize (Hg x (list_elem_of_here _ _)). specialize (Hf x). rewrite filter_cons. case_decide; simpl; destruct Hg as [|[? ?]]; try done; lia. }
  assert (filter (fun x => x ∈ l) l' ⊆+ l) as H2.
  { apply NoDup_submseteq; [by apply NoDup_filter|]. intros x Hx. by apply list_elem_of_filter in Hx as [Hx _]. }
  pose proof (total_sub f _ _ Hf H2). lia.
Qed.

(** When nothing is due the loop ends. *)
Lemma queued_end st l T : queued st l -> (forall x, x ∈ l -> T < time (heap st) x) -> queued (setCurTick T st) l.
Proof.
  intros [Q1 Q2 Q3 Q4 Q5] Hl. split; try done. intros x ev Hx Hxe. simpl in *. rewrite <- (time_lookup _ _ _ Hxe).
  specialize (Hl x Hx). lia.
Qed.

(** Servicing the first event lowers the potential. *)
Lemma potential_step N T st st' e ev l l' :
  queued st (e :: l) -> queued st' l' -> heap st !! e = Some ev -> when_ ev <= T -> Z.of_nat (size (heap st')) <= N ->
  (forall x, x ∈ l' -> when_ ev < time (heap st') x \/ x ∈ l /\ time (heap st') x = time (heap st) x) ->
  potential N T (heap st') l' < potential N T (heap st) (e :: l).
Proof.
  intros Hq Hq' He Hge HN Hl'. pose proof (weight_nonneg N T (when_ ev + 1)). pose proof (weight_step N T (when_ ev)).
  pose proof (repr_NoDup _ _ _ (qd_repr _ _ Hq')) as Hnd.
  assert (length l' <= size (heap st'))%nat as Hlen.
  { apply members_length; [done|]. intros x Hx. by apply (repr_members _ (head st') l'), Hx; apply Hq'. }
  assert (potential N T (heap st') l' <= potential N T (heap st) l + Z.of_nat (length l') * weight N T (when_ ev + 1)).
  { apply (total_replace (fun x => weight N T (time (heap st) x)) (fun x => weight N T (time (heap st') x))); try lia; try done.
    - intros x. apply weight_nonneg. lia.
    - intros x Hx. destruct (Hl' x Hx) as [Hlt|[Hxl E]]; [left; apply weight_mono; lia|right]. by rewrite E. }
  simpl. rewrite (time_lookup _ _ _ He). fold (potential N T (heap st) l). nia.
Qed.

Lemma serviceEvents_spec fuel N T u st l :
  queued st l -> sane st -> curTick st <= T -> Z.of_nat (size (heap st)) <= N -> potential N T (heap st) l < Z.of_nat fuel ->
  wp (serviceEvents process fuel T (u, st)) (fun '(_, st') => exists l', queued st' l' /\ sane st' /\ curTick st' = T /\
    forall x, x ∈ l' -> T < time (heap st') x).
Proof.
  revert u st l. induction fuel as [|fuel IH]; intros u st l Hq Hsn Ht HN Hp.
  { pose proof (total_nonneg (fun x => weight N T (time (heap st) x)) l (fun x => weight_nonneg N T _ ltac:(lia))).
    unfold potential in Hp. lia. }
  cbn [serviceEvents]. unfold nextTick. rewrite (queued_head _ _ Hq). destruct l as [|e l]; simpl.
  { exists []. split; [apply queued_end; [done|set_solver]|]. split; [done|]. split; [done|]. set_solver. }
  destruct (repr_members _ _ _ e (qd_repr _ _ Hq)) as [ev He]; [set_solver|]. unfold deref. rewrite He. simpl.
  destruct (Z.ltb_spec T (when_ ev)) as [Hlt|Hge].
  { assert (forall x, x ∈ e :: l -> T < time (heap st) x) as Hl.
    { intros x Hx. apply elem_of_cons in Hx as [->|Hx]; [by rewrite (time_lookup _ _ _ He)|].
      pose proof (queued_first st e ev l x Hq He Hx). lia. }
    exists (e :: l). split; [by apply queued_end|]. split; [done|]. by split. }
  apply wp_bind. eapply wp_mono; [by apply (serviceOne_spec u st e l)|].
  intros [_ [u' st']] (l' & Hq' & Hsn' & Htick & Hdom & Hl'). rewrite (time_lookup _ _ _ He) in Htick, Hl'.
  assert (size (heap st') <= size (heap st))%nat as Hsz by (rewrite <- !size_dom; by apply subseteq_size).
  apply (IH u' st' l'); [done|done|lia|lia|]. pose proof (potential_step N T st st' e ev l l' Hq Hq' He Hge ltac:(lia) Hl'). lia.
Qed.
End Service.

(** ** Actions that leave the queue alone *)

Lemma filter_ext_in {A} (P Q : A -> Prop) `{!forall x, Decision (P x), !forall x, Decision (Q x)} (l : list A) :
  (forall x, x ∈ l -> P x <-> Q x) -> filter P l = filter Q l.
Proof.
  induction l as [|x l IH]; intros Hpq; [done|]. rewrite !filter_cons, IH by set_solver.
  specialize (Hpq x ltac:(set_solver)). repeat case_decide; tauto.
Qed.

Lemma filter_none {A} (P : A -> Prop) `{!forall x, Decision (P x)} (l : list A) :
  (forall x, x ∈ l -> ~ P x) -> filter P l = [].
Proof. intros HP. induction l as [|x l IH]; [done|]. rewrite filter_cons_False, IH by set_solver. done. Qed.

Lemma filter_whole {A} (P : A -> Prop) `{!forall x, Decision (P x)} (l : list A) :
  (forall x, x ∈ l -> P x) -> filter P l = l.
Proof. intros HP. induction l as [|x l IH]; [done|]. rewrite filter_cons_True, IH by set_solver. done. Qed.

Definition is_squashed (h : gmap ptr Event) (x : ptr) : bool := default false (squashed <$> h !! x).

(** The events whose actions run until [T], in the order of the queue, and those
    that stay. *)
Definition due (h : gmap ptr Event) (T : Z) (l : list ptr) : list ptr :=
  filter (fun x => time h x <= T /\ is_squashed h x = false) l.
Definition later (h : gmap ptr Event) (T : Z) (l : list ptr) : list ptr := filter (fun x => T < time h x) l.

Lemma due_later_data h h' T l :
  (forall x, x ∈ l -> data <$> h' !! x = data <$> h !! x) -> due h' T l = due h T l /\ later h' T l = later h T l.
Proof.
  intros Hd. split; apply filter_ext_in; intros x Hx; specialize (Hd x Hx); rewrite (data_time _ _ _ Hd); [|done].
  assert (is_squashed h' x = is_squashed h x) as ->; [|done].
  unfold is_squashed, squashed. destruct (h' !! x), (h !! x); simpl in *; try done. by injection Hd as _ _ -> _.
Qed.

Lemma serviceOne_passive {U} (act : ptr -> U -> U) u st e ev l :
  queued st (e :: l) -> sane st -> heap st !! e = Some ev ->
  wp (serviceOne (passive act) (u, st)) (fun '(_, (u', st')) =>
    u' = (if squashed ev then u else act e u) /\ queued st' l /\ sane st' /\ curTick st' <= when_ ev /\
    forall x, x ∈ l -> data <$> heap st' !! x = data <$> heap st !! x).
Proof.
  intros Hq Hsn He. destruct (serviceOne_cases (passive act) u st e ev l Hq Hsn He)
    as (st1 & Hq1 & Hs1 & Hcur & (ev1 & He1 & Hi1 & _ & _) & Hdom & Hdat & Hc).
  assert (forall x, x ∈ l -> x <> e) as Hne.
  { intros x Hx ->. pose proof (repr_NoDup _ _ _ (qd_repr _ _ Hq)) as Hnd. by apply NoDup_cons in Hnd as [? _]. }
  destruct (squashed ev); destruct Hc as [Htick ->]; apply wp_bind.
  - eapply wp_mono; [by apply (wp_release_any st1 e ev1 l)|]. intros st2 [R1 R2 R3 R4 R5]. apply wp_ret.
    do 3 (split; [done|]). split; [lia|]. intros x Hx. rewrite R5 by done. auto.
  - simpl. eapply wp_mono; [apply (wp_finish (act e u) st1 e l); try done; by eexists|].
    intros [? [u3 st3]] (-> & [R1 R2 R3 R4 R5]). do 3 (split; [done|]). split; [lia|]. intros x Hx. rewrite R5 by done. auto.
Qed.

Lemma passive_run {U} (act : ptr -> U -> U) fuel T u st l :
  queued st l -> sane st -> curTick st <= T -> (length l < fuel)%nat ->
  wp (serviceEvents (passive act) fuel T (u, st)) (fun '(u', st') =>
    u' = fold_left (fun u x => act x u) (due (heap st) T l) u /\ queued st' (later (heap st) T l) /\ curTick st' = T).
Proof.
  revert u st l. induction fuel as [|fuel IH]; intros u st l Hq Hsn Ht Hf; [lia|].
  cbn [serviceEvents]. unfold nextTick. rewrite (queued_head _ _ Hq). destruct l as [|e l]; simpl.
  { split; [done|]. split; [apply queued_end; [done|set_solver]|done]. }
  destruct (repr_members _ _ _ e (qd_repr _ _ Hq)) as [ev He]; [set_solver|]. unfold deref. rewrite He. simpl.
  destruct (Z.ltb_spec T (when_ ev)) as [Hlt|Hge].
  { assert (forall x, x ∈ e :: l -> T < time (heap st) x) as Hl.
    { intros x Hx. apply elem_of_cons in Hx as [->|Hx]; [by rewrite (time_lookup _ _ _ He)|].
      pose proof (queued_first st e ev l x Hq He Hx). lia. }
    unfold due, later. rewrite filter_none, filter_whole by (intros x Hx; specialize (Hl x Hx); lia).
    split; [done|]. split; [by apply queued_end|done]. }
  apply wp_bind. eapply wp_mono; [by apply (serviceOne_passive act u st e ev l)|].
  intros [_ [u' st']] (-> & Hq' & Hsn' & Htk & Hd).
  eapply wp_mono; [apply (IH _ st' l Hq' Hsn'); [lia|simpl in Hf; lia]|]. intros [u2 st2] (-> & Hq2 & Htk2).
  destruct (due_later_data _ _ T l Hd) as [Ed El]. rewrite Ed, El in *.
  assert (time (heap st) e = when_ ev) as Et by (by apply time_lookup).
  assert (is_squashed (heap st) e = squashed ev) as Es by (unfold is_squashed; by rewrite He).
  unfold due at 2, later. rewrite filter_cons, (filter_cons_False _ e l), Et, Es by lia.
  split; [|by split]. case_decide as Hc; [by rewrite (proj2 Hc)|]. destruct (squashed ev); [done|]. tauto.
Qed.

(** ** The checker *)

Lemma verify_bin_spec h fuel p b seen t pr k :
  in_bin (nibf h) p b -> (forall x, x ∈ b -> key h x = k) -> (b <> [] -> ~ klt k (t, pr)) -> NoDup b ->
  (forall x, x ∈ b -> x ∉ seen) -> (length b < fuel)%nat ->
  verify_bin fuel h p (seen, t, pr) =
  Some (Some (list_to_set b ∪ seen, (if b is [] then t else k.1), (if b is [] then pr else k.2))).
Proof.
  revert p b seen t pr. induction fuel as [|fuel IH]; intros p b seen t pr Hin Hk Hge Hnd Hs Hf; [lia|].
  destruct b as [|x b]; cbn [verify_bin].
  { simpl in Hin. subst p. simpl. by rewrite (left_id_L ∅ (∪)). }
  destruct Hin as (-> & q & Hq & Hin). unfold nibf in Hq. destruct (h !! x) as [ev|] eqn:Hx; [|done]. simpl in Hq |- *.
  injection Hq as <-. assert (key_of ev = k) as Ek by (rewrite <- (key_lookup _ _ _ Hx); apply Hk; set_solver).
  assert (~ klt k (t, pr)) as Hge' by (by apply Hge). rewrite <- Ek in Hge'. unfold klt, key_of in Hge'. simpl in Hge'.
  apply NoDup_cons in Hnd as [Hnx Hnd]. rewrite bool_decide_false by (apply Hs; set_solver).
  assert ((when_ ev <? t) || ((when_ ev =? t) && (priority ev <? pr)) || false = false) as -> by lia.
  rewrite (IH _ b); [|done|set_solver| |done|set_solver|simpl in Hf; lia].
  - assert (list_to_set b ∪ ({[x]} ∪ seen) = list_to_set (x :: b) ∪ seen :> gset ptr) as -> by (apply set_eq; set_solver).
    rewrite <- Ek. by destruct b.
  - intros _. rewrite <- Ek. apply klt_irrefl.
Qed.

#[local] Arguments verify_bin : simpl never.

Lemma verify_bins_spec h fuel p bins seen t pr :
  bins_at (nibf h) (nbf h) p bins -> binned (key h) bins -> NoDup (concat bins) ->
  (forall x, x ∈ concat bins -> x ∉ seen /\ ~ klt (key h x) (t, pr)) -> (length bins < fuel)%nat ->
  (length (concat bins) <= size h)%nat -> verify_bins fuel h p (seen, t, pr) = Some true.
Proof.
  revert p bins seen t pr. induction fuel as [|fuel IH]; intros p bins seen t pr Hb Ho Hnd Hx Hf Hl; [lia|].
  destruct bins as [|b bins]; cbn [verify_bins]; [simpl in Hb; by subst p|].
  destruct Hb as (Hin & x & q & -> & Hq & Hr). destruct Ho as (O1 & O2 & O3).
  destruct (in_bin_top _ _ _ Hin) as (y & b' & Eb & [= <-]); [by destruct b|]. assert (x ∈ b) as Hxb by (subst b; set_solver).
  simpl in Hnd, Hx, Hl, Hf. rewrite length_app in Hl. apply NoDup_app in Hnd as (Hndb & Hdis & Hndr).
  rewrite (verify_bin_spec h _ _ b seen t pr (key h x)); [|done|by intros; apply O1| |done|set_solver|lia].
  2: { intros _. apply Hx. set_solver. }
  simpl. unfold nbf in Hq. destruct (h !! x) as [ev|]; [|done]. simpl in Hq |- *. injection Hq as ->.
  subst b. apply (IH _ bins); [done|done|done| |lia|lia]. intros z Hz. split.
  - specialize (Hdis z). set_solver.
  - assert (klt (key h x) (key h z)) as Hlt by (apply O2; [set_solver|done]). unfold klt in *. simpl in *. lia.
Qed.

Lemma debugVerify_spec st l :
  queued st l -> (forall x, x ∈ l -> ~ klt (key (heap st) x) (0, 0)) -> debugVerify st = Some true.
Proof.
  intros Hq Hl. destruct (qd_repr _ _ Hq) as (bins & Hc & <-). destruct (chain_fuel _ _ _ Hc) as [H1 H2].
  destruct Hc as [Hs Hnd Ho]. unfold debugVerify, fuel_of. apply (verify_bins_spec _ _ _ bins); try done; [|lia].
  intros x Hx. split; [set_solver|by apply Hl].
Qed.
