(* ===== verification/SimLoop.v ===== *)
(** * SimLoop: asynchronous insertions and the simulation loop

    Translates [doSimLoop] of [gem5-X-TiC-SAT/src/sim/simulate.cc].  Events that
    another thread schedules, and global events, wait in [async_queue];
    [pending st l p] is the invariant of a queue with the waiting events [p].
    The loop is shown to return as soon as an exit event is due. *)

From stdpp Require Import prelude gmap.
From Stdlib Require Import ZArith Lia Sorted.
From S2P Require Import Prelude Machine EventQueue EventShape EventQueueCorrect EventService.
Import EventQ.

Definition empty (st : State) : bool := bool_decide (head st = None).

Section SimLoop.
Context {U : Type}.
(** The actions of the events, and what the loop does for the host: dumping
    statistics, polling, a user interrupt.  The host can end the loop. *)
Variable process : ptr -> U * State -> option (U * State).
Variable host : U * State -> option (bool * (U * State)).

Fixpoint sim_loop (fuel : nat) (us : U * State) : option (option ptr * (U * State)) :=
  match fuel with
  | O => None
  | S fuel =>
      _ ← assert_ (negb (empty us.2));
      t ← nextTick us.2;
      _ ← assert_ (curTick us.2 <=? t);
      '(stop, us) ← host us;
      if (stop : bool) then Some (None, us)
      else
        '(exit_event, us) ← serviceOne process us;
        match exit_event with
        | Some e => Some (Some e, us)
        | None => sim_loop fuel us
        end
  end.

Definition doSimLoop (fuel : nat) (us : U * State) : option (option ptr * (U * State)) :=
  st ← handleAsyncInsertions true us.2; sim_loop fuel (us.1, st).
End SimLoop.

(** ** Waiting events *)

Record pending (st : State) (l p : list ptr) : Prop := {
  pd_repr : repr (heap st) (head st) l;
  pd_nodup : NoDup (l ++ p);
  pd_alloc : forall x, x ∈ p -> is_Some (heap st !! x);
  pd_flags : forall x ev, heap st !! x = Some ev -> (scheduled ev = true <-> x ∈ l ++ p);
  pd_init : forall x ev, x ∈ l ++ p -> heap st !! x = Some ev -> initialized ev = true /\ queue ev = Some (qid st);
  pd_future : forall x ev, x ∈ l ++ p -> heap st !! x = Some ev -> curTick st <= when_ ev
}.

Lemma queued_pending st l : queued st l <-> pending st l [] /\ async_queue st = [].
Proof.
  split.
  - intros [Q1 Q2 Q3 Q4 Q5]. split; [|done]. pose proof (repr_NoDup _ _ _ Q1). split; rewrite ?app_nil_r; try done. set_solver.
  - intros [[Q1 Q2 Q3 Q4 Q5 Q6] Ha]. rewrite app_nil_r in *. by split.
Qed.

(** The place of an event depends on the keys only. *)
Definition place_all (k : ptr -> Z * Z) (p l : list ptr) : list ptr := fold_left (fun l e => place k e l) p l.

Lemma place_all_ext k k' p l : (forall x, k' x = k x) -> place_all k' p l = place_all k p l.
Proof.
  intros Hk. revert l. induction p as [|e p IH]; intros l; [done|]. simpl. rewrite IH. f_equal. apply place_ext. auto.
Qed.

Lemma pending_insert st l e p :
  pending st l (e :: p) ->
  exists st', insert e st = Some st' /\ moved st st' /\ pending st' (place (key (heap st)) e l) p.
Proof.
  intros [Q1 Q2 Q3 Q4 Q5 Q6]. destruct (Q3 e) as [ev He]; [set_solver|].
  pose proof Q2 as Hnd. apply NoDup_app in Hnd as (_ & Hdis & _).
  assert (e ∉ l) as Hn by (intros Hin; apply (Hdis e Hin); set_solver).
  destruct (insert_place st e ev l He Hn Q1) as (st' & Hi & Hm & Hr). exists st'. split; [done|]. split; [done|].
  assert (forall x, x ∈ place (key (heap st)) e l ++ p <-> x ∈ l ++ e :: p) as Hx.
  { intros x. rewrite !elem_of_app, elem_of_place, elem_of_cons. tauto. }
  split; [done| | | | |].
  - rewrite place_perm, <- Permutation_middle in *. done.
  - intros x Hp. destruct (Q3 x) as [xe Hxe]; [set_solver|].
    destruct (same_data_lookup _ _ _ _ (mv_data _ _ Hm) Hxe) as (xe' & -> & _). by eexists.
  - intros x xe Hxe. rewrite Hx. destruct (moved_lookup _ _ _ _ Hm Hxe) as (xe0 & Hx0 & Hd).
    rewrite (scheduled_data _ _ Hd). by apply Q4.
  - intros x xe. rewrite Hx. intros Hin Hxe. destruct (moved_lookup _ _ _ _ Hm Hxe) as (xe0 & Hx0 & Hd).
    destruct (data_eq _ _ Hd) as (_ & _ & _ & ->). rewrite (initialized_data _ _ Hd), (mv_qid _ _ Hm). by apply (Q5 x).
  - intros x xe. rewrite Hx. intros Hin Hxe. destruct (moved_lookup _ _ _ _ Hm Hxe) as (xe0 & Hx0 & Hd).
    destruct (data_eq _ _ Hd) as (-> & _). rewrite (mv_tick _ _ Hm). by apply (Q6 x).
Qed.

Lemma insert_all_spec st l p :
  pending st l p ->
  wp (insert_all p st) (fun st' => queued st' (place_all (key (heap st)) p l) /\ same_data (heap st) (heap st') /\
    curTick st' = curTick st).
Proof.
  revert st l. induction p as [|e p IH]; intros st l Hp; simpl.
  { split; [|by split]. apply queued_pending. by destruct Hp. }
  destruct (pending_insert _ _ _ _ Hp) as (st1 & -> & Hm & Hp1). simpl. eapply wp_mono; [by apply (IH st1 _ Hp1)|].
  intros st' (Hq & Hd & Ht). split; [|split; [by eapply same_data_trans; [apply (mv_data _ _ Hm)|]|by rewrite Ht, (mv_tick _ _ Hm)]].
  erewrite place_all_ext; [exact Hq|]. intros x. symmetry. by apply same_data_key, (mv_data _ _ Hm).
Qed.

Lemma upd_lookup st e ev f : heap st !! e = Some ev -> upd e f st = Some (set_heap (<[e := f ev]> (heap st)) st).
Proof. intros He. unfold upd. by rewrite He. Qed.

Lemma async_schedule_spec isCurrent st e ev l p t global :
  pending st l p -> async_queue st = p -> heap st !! e = Some ev -> scheduled ev = false -> initialized ev = true -> curTick st <= t ->
  negb isCurrent || global = true ->
  wp (schedule true isCurrent e t global st) (fun st' => pending st' l (p ++ [e]) /\ async_queue st' = p ++ [e] /\
    others e st st' /\ forall x, key (heap st') x = rekey (key (heap st)) e t x).
Proof.
  intros [Q1 Q2 Q3 Q4 Q5 Q6] Ha He Hs Hi Ht Hg. unfold schedule, deref. apply wp_bind, wp_assert; [lia|]. rewrite He. simpl.
  rewrite Hs, Hi, Hg. cbn [andb]. rewrite (upd_lookup _ _ _ _ He). simpl.
  erewrite upd_lookup by (simpl; apply lookup_insert_eq). simpl.
  unfold acquire, deref. simpl. rewrite insert_insert_eq, lookup_insert_eq. simpl.
  set (ev' := set_flags _ _). assert (e ∉ l ++ p) as Hn by (intros Hin; apply (Q4 e ev He) in Hin; congruence).
  assert (scheduled ev' = true) as Hs' by (by apply isSet_set).
  assert (initialized ev' = true) as Hi' by (unfold initialized in *; simpl; by rewrite land_set_other).
  assert (forall x, x ∈ l ++ p ++ [e] <-> x = e \/ x ∈ l ++ p) as Hx by (intros x; set_solver).
  split; [|split; [simpl; by rewrite Ha|split]].
  - split; simpl.
    + apply repr_insert_out; [set_solver|done].
    + rewrite app_assoc. apply NoDup_app. split; [done|]. split; [set_solver|apply NoDup_singleton].
    + intros x Hxp. rewrite lookup_insert_is_Some. destruct (decide (e = x)); [by left|right]. split; [done|]. apply Q3. set_solver.
    + intros x xe. rewrite Hx, lookup_insert. case_decide; [intros [= <-]; naive_solver|]. intros Hxe. rewrite (Q4 x xe Hxe). naive_solver.
    + intros x xe. rewrite Hx, lookup_insert. case_decide; [by intros _ [= <-]|]. intros Hin. apply Q5. naive_solver.
    + intros x xe. rewrite Hx, lookup_insert. case_decide; [by intros _ [= <-]|]. intros Hin. apply Q6. naive_solver.
  - split; [done|]. split; [done|]. intros x Hne. simpl. by rewrite lookup_insert_ne.
  - intros x. simpl. unfold rekey. case_decide as Hxe; [subst x|].
    + by rewrite (key_lookup _ _ ev'), (key_lookup _ _ _ He) by apply lookup_insert_eq.
    + unfold key. by rewrite lookup_insert_ne.
Qed.

(** ** The order of service *)

Lemma wp_and {A} (m : option A) P Q : wp m P -> wp m Q -> wp m (fun a => P a /\ Q a).
Proof. by destruct m. Qed.

(** Actions that record when they run. *)
Definition logged {U} (process : ptr -> U * State -> option (U * State)) (e : ptr) (us : list (Z * ptr) * U * State)
  : option (list (Z * ptr) * U * State) :=
  let '(log, u, st) := us in
  '(u, st') ← process e (u, st);
  Some (log ++ [(curTick st, e)], u, st').

(** The actions of other events leave the event [x] alone. *)
Definition left_alone {U} (process : ptr -> U * State -> option (U * State)) (x : ptr) : Prop :=
  forall e ev u st l u' st', queued st l -> heap st !! e = Some ev -> initialized ev = true -> e ∉ l -> e <> x ->
    process e (u, st) = Some (u', st') -> data <$> heap st' !! x = data <$> heap st !! x.

Section Order.
Context {U : Type} (process : ptr -> U * State -> option (U * State)) {HH : Handlers process}.

#[local] Instance logged_handlers : Handlers (logged process).
Proof.
  split. intros e ev [log u] st l Hq Hs He Hi Hn. unfold logged. apply wp_bind.
  eapply wp_mono; [by apply (handler_ok e ev u st l)|]. intros [u' st'] H. exact H.
Qed.

Lemma serviceOne_logged log u st e ev l :
  queued st (e :: l) -> sane st -> heap st !! e = Some ev ->
  wp (serviceOne (logged process) (log, u, st)) (fun '(_, (log', _, st')) =>
    log' = (if squashed ev then log else log ++ [(when_ ev, e)]) /\
    forall x, x ∈ l -> left_alone process x -> data <$> heap st' !! x = data <$> heap st !! x).
Proof.
  intros Hq Hsn He. assert (e ∉ l) as Hn by (pose proof (repr_NoDup _ _ _ (qd_repr _ _ Hq)) as Hnd; by apply NoDup_cons in Hnd as [? _]).
  destruct (serviceOne_cases (logged process) (log, u) st e ev l Hq Hsn He) as (st1 & Hq1 & Hs1 & _ & (ev1 & He1 & Hi1 & _) & _ & Hdat & Hc).
  assert (forall x, x ∈ l -> x <> e) as Hne by (by intros x Hx ->).
  destruct (squashed ev); destruct Hc as [Htk ->]; apply wp_bind.
  - eapply wp_mono; [by apply (wp_release_any st1 e ev1 l)|]. intros st2 Hr. apply wp_ret. split; [done|]. intros x Hx _.
    rewrite (rl_data _ _ _ Hr) by done. auto.
  - unfold logged. apply wp_bind. eapply wp_mono; [apply wp_eqn; by apply (handler_ok e ev1 u st1 l Hq1 Hs1)|].
    intros [u2 st2] ((l2 & Hq2 & Hs2 & _ & Hd2 & _) & Hp). apply wp_ret.
    eapply wp_mono; [apply (wp_finish (log ++ [(curTick st1, e)], u2) st2 e l2 Hq2 Hs2)|].
    { apply elem_of_dom. rewrite Hd2. apply elem_of_dom. by eexists. }
    intros [? [[log3 u3] st3]] ([= -> ->] & Hr). rewrite Htk. split; [done|]. intros x Hx Hal.
    assert (data <$> heap st2 !! x = data <$> heap st1 !! x) as E1 by (by apply (Hal e ev1 u st1 l u2 st2); auto using not_eq_sym).
    assert (x ∈ l2) as Hx2.
    { destruct (repr_members _ _ _ x (qd_repr _ _ Hq1) Hx) as [xe Hxe]. rewrite Hxe in E1. destruct (heap st2 !! x) as [xe2|] eqn:Hx2; [|done].
      simpl in E1. apply (qd_flags _ _ Hq2 x xe2 Hx2). assert (data xe2 = data xe) as E by congruence.
      rewrite (scheduled_data _ _ E). by apply (qd_flags _ _ Hq1 x xe Hxe). }
    rewrite (rl_data _ _ _ Hr) by done. rewrite E1. auto.
Qed.

(** The actions run at ticks that never decrease, and an event that is left alone runs at its own. *)
Lemma logged_run fuel N T lo log u st l :
  queued st l -> sane st -> curTick st <= T -> (forall x, x ∈ l -> lo <= time (heap st) x) -> Z.of_nat (size (heap st)) <= N -> potential N T (heap st) l < Z.of_nat fuel ->
  wp (serviceEvents (logged process) fuel T (log, u, st)) (fun '(log', _, _) => exists new, log' = log ++ new /\
    StronglySorted Z.le new.*1 /\ Forall (fun t => lo <= t <= T) new.*1 /\
    forall x, x ∈ l -> left_alone process x -> is_squashed (heap st) x = false -> time (heap st) x <= T -> (time (heap st) x, x) ∈ new).
Proof.
  revert lo log u st l. induction fuel as [|fuel IH]; intros lo log u st l Hq Hsn Ht Hlo HN Hp.
  { pose proof (total_nonneg (fun x => weight N T (time (heap st) x)) l (fun x => weight_nonneg N T _ ltac:(lia))). unfold potential in Hp. lia. }
  cbn [serviceEvents]. unfold nextTick. rewrite (queued_head _ _ Hq). destruct l as [|e l]; simpl.
  { exists []. rewrite app_nil_r. split; [done|]. split; [constructor|]. split; [constructor|]. set_solver. }
  destruct (repr_members _ _ _ e (qd_repr _ _ Hq)) as [ev He]; [set_solver|]. unfold deref. rewrite He. simpl.
  pose proof (time_lookup _ _ _ He) as Ete. destruct (Z.ltb_spec T (when_ ev)) as [Hlt|Hge].
  { exists []. rewrite app_nil_r. split; [done|]. split; [constructor|]. split; [constructor|]. intros x Hx _ _ Hxt. exfalso.
    apply elem_of_cons in Hx as [->|Hx]; [lia|]. pose proof (queued_first st e ev l x Hq He Hx). lia. }
  apply wp_bind. eapply wp_mono; [apply wp_and; [exact (serviceOne_spec (logged process) (log, u) st e l Hq Hsn)|exact (serviceOne_logged log u st e ev l Hq Hsn He)]|].
  intros [_ [[log' u'] st']] ((l' & Hq' & Hsn' & Htick & Hdom & Hl') & Hlog & Hal). rewrite Ete in Htick, Hl'.
  assert (size (heap st') <= size (heap st))%nat as Hsz by (rewrite <- !size_dom; by apply subseteq_size).
  assert (forall x, x ∈ l' -> when_ ev <= time (heap st') x) as Hafter.
  { intros x Hx. destruct (Hl' x Hx) as [|[Hxl ->]]; [lia|]. by apply (queued_first st e ev l x Hq He). }
  assert (lo <= when_ ev) as Hlow by (rewrite <- Ete; apply Hlo; set_solver).
  eapply wp_mono; [apply (IH (when_ ev) log' u' st' l'); [done|done|lia|done|lia|]|].
  { pose proof (potential_step N T st st' e ev l l' Hq Hq' He Hge ltac:(lia) Hl'). lia. }
  intros [[log2 u2] st2] (new & -> & Hso & Hall & Hin).
  assert (forall x, x ∈ e :: l -> left_alone process x -> is_squashed (heap st) x = false -> time (heap st) x <= T ->
    x = e \/ (time (heap st) x, x) ∈ new) as Hrun.
  { intros x Hx Hax Hsq Hxt. apply elem_of_cons in Hx as [->|Hx]; [by left|right]. specialize (Hal x Hx Hax). pose proof (data_time _ _ _ Hal) as Et.
    destruct (repr_members _ _ _ x (qd_repr _ _ Hq)) as [xe Hxe]; [set_solver|]. rewrite Hxe in Hal.
    destruct (heap st' !! x) as [xe'|] eqn:Hxe'; [|done]. simpl in Hal. assert (data xe' = data xe) as E by congruence.
    rewrite <- Et. apply Hin; [|done| |lia].
    - apply (qd_flags _ _ Hq' x xe' Hxe'). rewrite (scheduled_data _ _ E). apply (qd_flags _ _ Hq x xe Hxe). set_solver.
    - unfold is_squashed in *. rewrite Hxe' . rewrite Hxe in Hsq. simpl in *. destruct (data_eq _ _ E) as (_ & _ & D & _). unfold squashed in *. by rewrite D. }
  assert (Forall (fun t => lo <= t <= T) new.*1) as Hall' by (eapply Forall_impl; [exact Hall|simpl; lia]).
  subst log'. destruct (squashed ev) eqn:Hsq.
  - exists new. split; [done|]. split; [done|]. split; [done|]. intros x Hx Hax Hxs Hxt. destruct (Hrun x Hx Hax Hxs Hxt) as [->|]; [|done].
    unfold is_squashed in Hxs. rewrite He in Hxs. simpl in Hxs. congruence.
  - exists ((when_ ev, e) :: new). split; [by rewrite <- app_assoc|]. simpl. split; [constructor; [done|]; eapply Forall_impl; [exact Hall|simpl; lia]|].
    split; [constructor; [lia|done]|]. intros x Hx Hax Hxs Hxt. destruct (Hrun x Hx Hax Hxs Hxt) as [->|]; [|set_solver]. rewrite Ete. set_solver.
Qed.
End Order.

(** ** The loop *)

(** The actions of other events leave the event [x] alone, its own action does not
    change that it is an exit event. *)
Class Spares {U : Type} (process : ptr -> U * State -> option (U * State)) (x : ptr) : Prop := {
  spares e ev u st l u' st' :
    queued st l -> heap st !! e = Some ev -> initialized ev = true -> e ∉ l -> process e (u, st) = Some (u', st') ->
    if decide (e = x) then isExitEvent ev = true -> isExitEvent <$> heap st' !! x = Some true
    else data <$> heap st' !! x = data <$> heap st !! x
}.

Section Loop.
Context {U : Type} (process : ptr -> U * State -> option (U * State)) (host : U * State -> option (bool * (U * State))).
Context {HH : Handlers process} (x : ptr) {HS : Spares process x}.

(** An exit event that is waiting for its turn. *)
Definition exit_waits (T : Z) (st : State) : Prop :=
  exists xe, heap st !! x = Some xe /\ scheduled xe = true /\ squashed xe = false /\ isExitEvent xe = true /\ when_ xe = T.

Lemma exit_waits_data T st st' : data <$> heap st' !! x = data <$> heap st !! x -> exit_waits T st -> exit_waits T st'.
Proof.
  intros Hd (xe & Hx & H). rewrite Hx in Hd. destruct (heap st' !! x) as [xe'|] eqn:Hx'; [|done]. simpl in Hd.
  exists xe'. split; [done|]. assert (data xe' = data xe) as E by congruence.
  destruct (data_eq _ _ E) as (D1 & _ & D3 & _). unfold scheduled, squashed, isExitEvent in *. by rewrite D1, D3.
Qed.

(** An exit event stays until an exit event is returned. *)
Lemma serviceOne_waits T u st e l :
  queued st (e :: l) -> sane st -> exit_waits T st ->
  wp (serviceOne process (u, st)) (fun '(r, (_, st')) => r = None -> exit_waits T st').
Proof.
  intros Hq Hsn Hw. destruct (repr_members _ _ _ e (qd_repr _ _ Hq)) as [ev He]; [set_solver|].
  assert (e ∉ l) as Hn by (pose proof (repr_NoDup _ _ _ (qd_repr _ _ Hq)) as Hnd; by apply NoDup_cons in Hnd as [? _]).
  pose proof Hw as (xe & Hx & Hxs & Hxq & Hxx & Hxt).
  assert (x ∈ e :: l) as Hin by (by apply (qd_flags _ _ Hq x xe)).
  destruct (serviceOne_cases process u st e ev l Hq Hsn He) as (st1 & Hq1 & Hs1 & _ & (ev1 & He1 & Hi1 & Hx1 & _) & _ & Hdat & Hc).
  assert (x <> e -> exit_waits T st1) as Hw1.
  { intros Hne. apply (exit_waits_data T st); [apply Hdat; set_solver|done]. }
  destruct (squashed ev) eqn:Hsq; destruct Hc as [_ ->]; apply wp_bind.
  - assert (x <> e) as Hne by congruence. eapply wp_mono; [by apply (wp_release_any st1 e ev1 l)|]. intros st2 Hr. apply wp_ret.
    intros _. apply (exit_waits_data T st1); [apply (rl_data _ _ _ Hr); set_solver|auto].
  - eapply wp_mono; [apply wp_eqn; by apply (handler_ok e ev1 u st1 l Hq1 Hs1)|].
    intros [u2 st2] ((l2 & Hq2 & Hs2 & _ & Hd2 & _) & Hp). apply (spares e ev1 u st1 l u2 st2 Hq1 He1 Hi1 Hn) in Hp.
    destruct (heap st2 !! e) as [ev2|] eqn:He2.
    2: { apply not_elem_of_dom in He2. rewrite Hd2 in He2. apply not_elem_of_dom in He2. congruence. }
    unfold finish, deref. rewrite He2. simpl. destruct (isExitEvent ev2) eqn:Hex.
    + specialize (Hs2 e ev2 He2). unfold off_main in Hs2. by rewrite Hs2, orb_true_r.
    + case_decide as Hxe; [subst e; rewrite He2 in Hp; simpl in Hp|].
      { assert (Some (isExitEvent ev2) = Some true) by (apply Hp; congruence). congruence. }
      assert (exit_waits T st2) as (xe2 & Hx2 & Hw2) by (apply (exit_waits_data T st1); auto).
      apply wp_bind. eapply wp_mono; [by apply (wp_release_any st2 e ev2 l2)|]. intros st3 Hr. apply wp_ret. intros _.
      apply (exit_waits_data T st2); [|by exists xe2]. apply (rl_data _ _ _ Hr). apply (qd_flags _ _ Hq2 x xe2 Hx2). tauto.
Qed.

Lemma sim_loop_spec fuel N T u st l :
  (forall us, host us = Some (false, us)) -> queued st l -> sane st -> exit_waits T st ->
  Z.of_nat (size (heap st)) <= N -> potential N T (heap st) l < Z.of_nat fuel ->
  wp (sim_loop process host fuel (u, st)) (fun '(r, (_, st')) => is_Some r /\ curTick st' <= T /\
    exists l', queued st' l' /\ sane st').
Proof.
  intros Hhost. revert u st l. induction fuel as [|fuel IH]; intros u st l Hq Hsn Hw HN Hp.
  { pose proof (total_nonneg (fun x => weight N T (time (heap st) x)) l (fun x => weight_nonneg N T _ ltac:(lia))).
    unfold potential in Hp. lia. }
  pose proof Hw as (xe & Hx & Hxs & _ & _ & Hxt). assert (x ∈ l) as Hin by (by apply (qd_flags _ _ Hq x xe)).
  destruct l as [|e l]; [set_solver|]. destruct (repr_members _ _ _ e (qd_repr _ _ Hq)) as [ev He]; [set_solver|].
  assert (when_ ev <= T) as Hge.
  { apply elem_of_cons in Hin as [->|Hin]; [rewrite Hx in He; injection He as <-; lia|].
    pose proof (queued_first st e ev l x Hq He Hin). rewrite (time_lookup _ _ _ Hx) in *. lia. }
  cbn [sim_loop fst snd]. unfold empty, nextTick, deref. rewrite (queued_head _ _ Hq). simpl. rewrite He. simpl.
  apply wp_bind, wp_assert; [apply Z.leb_le, (qd_future _ _ Hq e); [set_solver|done]|]. rewrite Hhost. simpl.
  apply wp_bind. eapply wp_mono; [apply wp_and; [exact (serviceOne_spec process u st e l Hq Hsn)|exact (serviceOne_waits T u st e l Hq Hsn Hw)]|].
  intros [r [u' st']] ((l' & Hq' & Hsn' & Htick & Hdom & Hl') & Hw'). rewrite (time_lookup _ _ _ He) in Htick, Hl'.
  destruct r as [y|]; [split; [by eexists|split; [lia|by exists l']]|].
  assert (size (heap st') <= size (heap st))%nat as Hsz by (rewrite <- !size_dom; by apply subseteq_size).
  apply (IH u' st' l'); [done|done|auto|lia|].
  pose proof (potential_step N T st st' e ev l l' Hq Hq' He Hge ltac:(lia) Hl'). lia.
Qed.

(** What the loop returns is an exit event. *)
Lemma sim_loop_returns fuel us y u' st' :
  sim_loop process host fuel us = Some (Some y, (u', st')) -> exists ye, heap st' !! y = Some ye /\ isExitEvent ye = true.
Proof.
  revert us. induction fuel as [|fuel IH]; intros us; [done|]. cbn [sim_loop]. intros H.
  apply bind_Some in H as (? & _ & H). apply bind_Some in H as (t & _ & H). apply bind_Some in H as (? & _ & H).
  apply bind_Some in H as ([stop us1] & _ & H). destruct stop; [done|]. apply bind_Some in H as ([r us2] & Hs & H).
  destruct r as [e|]; [|by apply (IH us2)]. injection H as -> ->. clear IH. destruct us1 as [u st]. unfold serviceOne in Hs.
  apply bind_Some in Hs as (event & _ & Hs). apply bind_Some in Hs as (ev & _ & Hs). apply bind_Some in Hs as (st1 & _ & Hs).
  apply bind_Some in Hs as (st2 & _ & Hs). destruct (negb (squashed ev)).
  - apply bind_Some in Hs as ([u3 st3] & _ & Hs). apply bind_Some in Hs as (e' & He & Hs). destruct (isExitEvent e') eqn:Hx.
    + apply bind_Some in Hs as (? & _ & [= -> -> ->]). by exists e'.
    + by apply bind_Some in Hs as (? & _ & ?).
  - apply bind_Some in Hs as (? & _ & Hs). by apply bind_Some in Hs as (? & _ & ?).
Qed.

(** The loop with the events that wait in the asynchronous queue. *)
Lemma doSimLoop_spec fuel N T u st l p :
  (forall us, host us = Some (false, us)) -> pending st l p -> async_queue st = p -> sane st -> exit_waits T st ->
  Z.of_nat (size (heap st)) <= N -> potential N T (heap st) (place_all (key (heap st)) p l) < Z.of_nat fuel ->
  wp (doSimLoop process host fuel (u, st)) (fun '(r, (_, st')) => is_Some r /\ curTick st' <= T /\
    exists l', queued st' l' /\ sane st').
Proof.
  intros Hh Hp Ha Hsn Hw HN Hf. unfold doSimLoop, handleAsyncInsertions. simpl. rewrite Ha. apply wp_bind.
  eapply wp_mono; [by apply (insert_all_spec st l p)|]. intros st1 (Hq & Hd & Ht).
  apply (sim_loop_spec fuel N T u st1 _ Hh Hq).
  - intros y ye Hy. specialize (Hd y). rewrite Hy in Hd. destruct (heap st !! y) as [ye0|] eqn:Hy0; [|done]. simpl in Hd.
    assert (data ye = data ye0) as E by congruence. destruct (data_eq _ _ E) as (_ & _ & -> & _). by apply (Hsn y).
  - by apply (exit_waits_data T st).
  - by rewrite (same_data_size _ _ Hd).
  - replace (potential N T (heap st1) _) with (potential N T (heap st) (place_all (key (heap st)) p l)); [done|].
    unfold potential. apply foldr_ext; [|done|done]. intros y s. unfold time. by rewrite (same_data_key _ _ _ Hd).
Qed.
End Loop.

(** ** Periodic events *)

(** The action of a clock: an event that is not an exit event schedules itself
    again, [period] ticks later. *)
Definition ticker (period : Z) (e : ptr) (us : nat * State) : option (nat * State) :=
  let '(n, st) := us in
  ev ← deref e st;
  if isExitEvent ev then Some (n, st)
  else st ← schedule false true e (curTick st + period) false st; Some (S n, st).

Lemma ticker_cases period e ev n st l :
  0 < period -> queued st l -> heap st !! e = Some ev -> initialized ev = true -> e ∉ l ->
  if isExitEvent ev then ticker period e (n, st) = Some (n, st)
  else exists st', ticker period e (n, st) = Some (S n, st') /\ enqueued st l e (curTick st + period) st'.
Proof.
  intros Hp Hq He Hi Hn. unfold ticker, deref. rewrite He. simpl. destruct (isExitEvent ev); [done|].
  assert (scheduled ev = false) as Hs.
  { destruct (scheduled ev) eqn:E; [|done]. by apply (qd_flags _ _ Hq e ev He) in E. }
  destruct (proj1 (wp_exists _ _) (schedule_spec false true st e ev l (curTick st + period) false Hq He Hs Hi ltac:(lia) eq_refl))
    as (st' & -> & Hst). by exists st'.
Qed.

Lemma others_dom e st st' : others e st st' -> is_Some (heap st !! e) -> is_Some (heap st' !! e) -> dom (heap st') = dom (heap st).
Proof.
  intros (_ & _ & Ho) H1 H2. apply set_eq. intros x. rewrite !elem_of_dom. destruct (decide (x = e)) as [->|Hx]; [done|].
  specialize (Ho x Hx). destruct (heap st' !! x), (heap st !! x); simpl in Ho; naive_solver.
Qed.

Lemma ticker_handlers period : 0 < period -> Handlers (ticker period).
Proof.
  intros Hp. split. intros e ev n st l Hq Hs He Hi Hn. pose proof (ticker_cases period e ev n st l Hp Hq He Hi Hn) as Ht.
  destruct (isExitEvent ev); [rewrite Ht; simpl; exists l; do 4 (split; [done|]); auto|].
  destruct Ht as (st' & -> & Hq' & Ho & Hs' & ev' & He' & Hw). simpl. eexists. split; [exact Hq'|]. split; [auto|].
  split; [apply Ho|]. split; [by apply (others_dom e); [|eexists..]|]. intros x. rewrite elem_of_place. intros [->|Hx].
  - left. rewrite (time_lookup _ _ _ He'). lia.
  - right. split; [done|]. apply data_time, Ho. by intros ->.
Qed.

Lemma ticker_spares period x : 0 < period -> Spares (ticker period) x.
Proof.
  intros Hp. split. intros e ev n st l n' st' Hq He Hi Hn Hr. pose proof (ticker_cases period e ev n st l Hp Hq He Hi Hn) as Ht.
  destruct (isExitEvent ev) eqn:Hx.
  - rewrite Ht in Hr. injection Hr as <- <-. case_decide; [|done]. subst e. intros _. rewrite He. simpl. by rewrite Hx.
  - destruct Ht as (st2 & E & _ & Ho & _). rewrite E in Hr. injection Hr as <- <-. case_decide; [done|]. by apply Ho.
Qed.

(** * The event queue as a state machine

    One step is one call of a public operation of [Event] or [EventQueue]
    ([gem5-X-TiC-SAT/src/sim/eventq.hh]) on the thread that owns the queue.  The
    invariant [queued] holds in every state reachable from the empty queue: the
    asserts of the source are enough to keep it. *)

(** ** Public flags *)

Lemma land_disjoint a b c : Z.land a (Z.lnot b) = 0 -> Z.land b c = 0 -> Z.land a c = 0.
Proof.
  intros Ha Hb. apply Z.bits_inj'. intros i Hi. apply (f_equal (fun z => Z.testbit z i)) in Ha, Hb.
  rewrite Z.land_spec, ?Z.lnot_spec, Z.bits_0 in * by done. destruct (Z.testbit a i), (Z.testbit b i), (Z.testbit c i); simpl in *; done.
Qed.

Lemma noneSet_public f m : Flags.noneSet f (Z.lnot PublicWrite) = true -> Z.land PublicWrite m = 0 -> Z.land f m = 0.
Proof. unfold Flags.noneSet. rewrite Z.eqb_eq. apply land_disjoint. Qed.

(** The flags that a client of the queue cannot write. *)
Definition private_same (f f' : Z) : Prop :=
  Z.land f' Scheduled = Z.land f Scheduled /\ Z.land f' InitMask = Z.land f InitMask /\ Z.land f' IsMainQueue = Z.land f IsMainQueue.

Lemma private_set f m : Flags.noneSet m (Z.lnot PublicWrite) = true -> private_same f (Flags.set f m).
Proof. intros Hm. repeat split; apply land_set_other; by apply (noneSet_public m). Qed.

Lemma private_clear f m : Flags.noneSet m (Z.lnot PublicWrite) = true -> private_same f (Flags.clear f m).
Proof. intros Hm. repeat split; apply land_clear_other; by apply (noneSet_public m). Qed.

Lemma queued_flags st l e ev f :
  queued st l -> sane st -> heap st !! e = Some ev -> private_same (flags ev) f ->
  let st' := set_heap (<[e := set_flags f ev]> (heap st)) st in queued st' l /\ sane st'.
Proof.
  intros [Q1 Q2 Q3 Q4 Q5] Hs He (P1 & P2 & P3). split; [split; simpl; [by apply (repr_insert _ _ _ _ ev)| | | |done]|].
  - intros x xe. rewrite lookup_insert. case_decide as Hx; [|apply Q2]. subst x. intros [= <-].
    specialize (Q2 e ev He). unfold scheduled, Flags.isSet in *. simpl. by rewrite P1.
  - intros x xe Hin. rewrite lookup_insert. case_decide as Hx; [|by apply Q3]. subst x. intros [= <-].
    specialize (Q3 e ev Hin He). unfold initialized in *. simpl. by rewrite P2.
  - intros x xe Hin. rewrite lookup_insert. case_decide as Hx; [|by apply Q4]. subst x. intros [= <-]. apply (Q4 e ev Hin He).
  - intros x xe. simpl. rewrite lookup_insert. case_decide as Hx; [|apply Hs]. intros [= <-].
    specialize (Hs e ev He). unfold off_main, Flags.isSet in *. simpl. by rewrite P3.
Qed.

(** ** New events *)

Lemma Event_new_fresh p f ev :
  Event_new p f = Some ev -> scheduled ev = false /\ initialized ev = true /\ off_main (flags ev) = true.
Proof.
  unfold Event_new. destruct (Flags.noneSet f (Z.lnot PublicWrite)) eqn:Hf; [|done]. simpl. intros [= <-].
  unfold scheduled, initialized, off_main, Flags.isSet. simpl. rewrite !Z.land_lor_distr_l.
  by rewrite !(noneSet_public f).
Qed.

Lemma queued_alloc st l e ev :
  queued st l -> sane st -> heap st !! e = None -> scheduled ev = false -> off_main (flags ev) = true ->
  let st' := set_heap (<[e := ev]> (heap st)) st in queued st' l /\ sane st'.
Proof.
  intros Hq Hs He Hev Hm.
  assert (e ∉ l) as Hn.
  { intros Hin. destruct (repr_members _ _ _ e (qd_repr _ _ Hq) Hin) as [? ?]. congruence. }
  split.
  - eapply queued_but_done; [apply queued_but_set; [by apply queued_but_intro|]|]; simpl.
    + intros x Hx. by rewrite lookup_insert_ne.
    + intros ev'. rewrite lookup_insert_eq. by intros [= <-].
  - intros x xe. simpl. rewrite lookup_insert. case_decide; [by intros [= <-]|apply Hs].
Qed.

Lemma queued_new q : queued (EventQueue_new ∅ q) [] /\ sane (EventQueue_new ∅ q).
Proof.
  split; [|done]. apply queued_pending. split; [|done].
  split; try done; [exists []; split; [split; [done|apply NoDup_nil_2|done]|done]|apply NoDup_nil_2|set_solver].
Qed.

(** ** Steps *)

(** The invariant, for some contents. *)
Definition kept (st : State) : Prop := exists l, queued st l /\ sane st.

Section Steps.
Context {U : Type} (process : ptr -> U * State -> option (U * State)) (isCurrent : bool).

Inductive step : U * State -> U * State -> Prop :=
| step_new u st e p f ev :
    heap st !! e = None -> Event_new p f = Some ev -> step (u, st) (u, set_heap (<[e := ev]> (heap st)) st)
| step_setFlags u st e f ev ev' :
    heap st !! e = Some ev -> setFlags f ev = Some ev' -> step (u, st) (u, set_heap (<[e := ev']> (heap st)) st)
| step_clearFlags u st e f ev ev' :
    heap st !! e = Some ev -> clearFlags f ev = Some ev' -> step (u, st) (u, set_heap (<[e := ev']> (heap st)) st)
| step_squash u st e ev :
    heap st !! e = Some ev -> step (u, st) (u, set_heap (<[e := squash ev]> (heap st)) st)
| step_schedule u st e t global st' :
    schedule false isCurrent e t global st = Some st' -> step (u, st) (u, st')
| step_deschedule u st e st' :
    deschedule false isCurrent e st = Some st' -> step (u, st) (u, st')
| step_reschedule u st e t always st' :
    reschedule false isCurrent e t always st = Some st' -> step (u, st) (u, st')
| step_serviceOne us r us' :
    serviceOne process us = Some (r, us') -> step us us'
| step_serviceEvents fuel T us us' :
    serviceEvents process fuel T us = Some us' -> step us us'.

Lemma assert_inv {A} b (m : option A) a : (_ ← assert_ b; m) = Some a -> b = true /\ m = Some a.
Proof. by destruct b. Qed.

Lemma deref_inv {A} e st (f : Event -> option A) a :
  (ev ← deref e st; f ev) = Some a -> exists ev, heap st !! e = Some ev /\ f ev = Some a.
Proof. unfold deref. destruct (heap st !! e) as [ev|]; [|done]. by exists ev. Qed.

(** A call of [schedule] that returns has been made under the conditions of its
    specification; likewise the other two. *)
Lemma schedule_inv st l e t global st' :
  queued st l -> sane st -> schedule false isCurrent e t global st = Some st' -> kept st'.
Proof.
  intros Hq Hs H. pose proof H as H0. unfold schedule in H0. apply assert_inv in H0 as [Ht H0].
  apply deref_inv in H0 as (ev & He & H0). apply assert_inv in H0 as [Hn H0]. apply assert_inv in H0 as [Hi _].
  apply (wp_some _ _ kept H). eapply wp_mono; [apply (schedule_spec false isCurrent st e ev l t global Hq He); [|done|lia|done]|].
  { by apply negb_true_iff. }
  intros st2 (Hq2 & _ & Hs2 & _). eexists. split; [exact Hq2|auto].
Qed.

Lemma deschedule_inv st l e st' :
  queued st l -> sane st -> deschedule false isCurrent e st = Some st' -> kept st'.
Proof.
  intros Hq Hs H. pose proof H as H0. unfold deschedule in H0. apply deref_inv in H0 as (ev & He & H0).
  apply assert_inv in H0 as [Hn _]. apply (wp_some _ _ kept H).
  eapply wp_mono; [apply (deschedule_spec false isCurrent st e ev l Hq He); [by apply (qd_flags _ _ Hq e ev He)|done]|].
  intros st2 (Hq2 & _ & Hs2 & _). eexists. split; [exact Hq2|auto].
Qed.

Lemma reschedule_inv st l e t always st' :
  queued st l -> sane st -> reschedule false isCurrent e t always st = Some st' -> kept st'.
Proof.
  intros Hq Hs H. pose proof H as H0. unfold reschedule in H0. apply assert_inv in H0 as [Ht H0].
  apply deref_inv in H0 as (ev & He & H0). apply assert_inv in H0 as [Hn H0]. apply assert_inv in H0 as [Hi _].
  apply (wp_some _ _ kept H). eapply wp_mono; [apply (reschedule_spec false isCurrent st e ev l t always Hq He); [done|done|lia|done]|].
  intros st2 (Hq2 & _ & Hs2 & _). eexists. split; [exact Hq2|auto].
Qed.

Context {HH : Handlers process}.

Lemma serviceOne_inv us r us' : kept us.2 -> serviceOne process us = Some (r, us') -> kept us'.2.
Proof.
  intros (l & Hq & Hs) H. destruct us as [u st]. destruct l as [|e l].
  { unfold serviceOne in H. simpl in Hq. by rewrite (queued_head _ _ Hq) in H. }
  pose proof (wp_some _ _ _ H (serviceOne_spec process u st e l Hq Hs)) as Hr. destruct us' as [u' st'].
  destruct Hr as (l' & Hq' & Hs' & _). by exists l'.
Qed.

(** The last thing [serviceEvents] does is to set the time, when no event is left until then. *)
Lemma serviceEvents_inv fuel T us us' : kept us.2 -> serviceEvents process fuel T us = Some us' -> kept us'.2.
Proof.
  revert us. induction fuel as [|fuel IH]; intros [u st]; [done|]. intros Hk H. cbn [serviceEvents] in H. pose proof Hk as (l & Hq & Hs). simpl in Hq, Hs.
  rewrite (queued_head _ _ Hq) in H. destruct l as [|e l]; cbn [hd_error] in H.
  { injection H as <-. exists []. split; [apply queued_end; [done|set_solver]|done]. }
  destruct (repr_members _ _ _ e (qd_repr _ _ Hq)) as [ev He]; [set_solver|]. unfold nextTick, deref in H.
  rewrite (queued_head _ _ Hq) in H. cbn [hd_error mbind option_bind] in H. rewrite He in H. cbn [mbind option_bind] in H. destruct (Z.ltb_spec T (when_ ev)) as [Hlt|_].
  - injection H as <-. exists (e :: l). split; [|done]. apply queued_end; [done|]. intros x Hx. apply elem_of_cons in Hx as [->|Hx].
    + by rewrite (time_lookup _ _ _ He).
    + pose proof (queued_first st e ev l x Hq He Hx). lia.
  - apply bind_Some in H as ([r us1] & H1 & H). apply (IH us1); [|done]. by apply (serviceOne_inv (u, st) r).
Qed.

Lemma step_ok us us' : step us us' -> kept us.2 -> kept us'.2.
Proof.
  intros Hstep (l & Hq & Hs). destruct Hstep; simpl in *.
  - apply Event_new_fresh in H0 as (H1 & _ & H2). exists l. by apply queued_alloc.
  - unfold setFlags in H0. apply assert_inv in H0 as [Hf [= <-]]. exists l. apply queued_flags; [done..|]. by apply private_set.
  - unfold clearFlags in H0. apply assert_inv in H0 as [Hf [= <-]]. exists l. apply queued_flags; [done..|]. by apply private_clear.
  - exists l. apply queued_flags; [done..|]. by apply private_set.
  - by apply (schedule_inv st l e t global).
  - by apply (deschedule_inv st l e).
  - by apply (reschedule_inv st l e t always).
  - apply (serviceOne_inv us r); [by exists l|done].
  - apply (serviceEvents_inv fuel T us); [by exists l|done].
Qed.

Lemma reachable_ok q u us : rtc step (u, EventQueue_new ∅ q) us -> kept us.2.
Proof.
  intros Hr. assert (kept (EventQueue_new ∅ q)) as H0 by (exists []; apply queued_new).
  change (kept (u, EventQueue_new ∅ q).2) in H0. induction Hr; eauto using step_ok.
Qed.
End Steps.
