(* ===== verification/EventTheorems.v ===== *)
(** * EventTheorems: what the event queue of the simulator promises

    The contract of [sim/eventq.cc], [sim/eventq_impl.hh] and the loop of
    [sim/simulate.cc]: the queue is an ordered list of exactly the scheduled
    events, scheduling and descheduling are insertion and removal, the loops come
    to an end and run the actions in order.  The witnesses run a queue with two
    periodic events and an exit event. *)

From stdpp Require Import prelude gmap.
From Stdlib Require Import ZArith Lia Sorted.
From S2P Require Import Prelude Machine EventQueue EventShape EventQueueCorrect EventService SimLoop.
Import EventQ.

(** ** A concrete queue *)

(** Events 1 and 2 are periodic, event 3 is an exit event. *)
Definition demo_events : gmap ptr Event :=
  {[ 1%positive := mkEvent None None 0 0 Initialized None;
     2%positive := mkEvent None None 0 50 Initialized None;
     3%positive := mkEvent None None 0 100 (Z.lor Initialized IsExitEvent) None ]}.

Definition demo_alloc : State := set_heap demo_events (EventQueue_new ∅ 7).

Definition demo_run (m : option State) : State := default demo_alloc m.

(** All three scheduled, at ticks 10, 10 and 35. *)
Definition demo_1 : State := demo_run (schedule false true 2%positive 10 false demo_alloc).
Definition demo_2 : State := demo_run (schedule false true 3%positive 35 false demo_1).
Definition demo_queue : State := demo_run (schedule false true 1%positive 10 false demo_2).

Lemma demo_alloc_steps (process : ptr -> nat * State -> option (nat * State)) isCurrent :
  rtc (step process isCurrent) (0%nat, EventQueue_new ∅ 7) (0%nat, demo_alloc).
Proof.
  eapply rtc_l; [eapply (step_new _ _ _ _ 3%positive 100 IsExitEvent); reflexivity|].
  eapply rtc_l; [eapply (step_new _ _ _ _ 2%positive 50 0); reflexivity|].
  eapply rtc_l; [eapply (step_new _ _ _ _ 1%positive 0 0); reflexivity|].
  match goal with |- rtc _ (_, ?st) _ => replace st with demo_alloc by (vm_compute; reflexivity) end. apply rtc_refl.
Qed.

Lemma demo_queue_steps (process : ptr -> nat * State -> option (nat * State)) :
  rtc (step process true) (0%nat, EventQueue_new ∅ 7) (0%nat, demo_queue).
Proof.
  etrans; [apply demo_alloc_steps|].
  apply (rtc_l _ _ (0%nat, demo_1)); [apply (step_schedule _ _ _ _ 2%positive 10 false); vm_compute; reflexivity|].
  apply (rtc_l _ _ (0%nat, demo_2)); [apply (step_schedule _ _ _ _ 3%positive 35 false); vm_compute; reflexivity|].
  apply (rtc_l _ _ (0%nat, demo_queue)); [apply (step_schedule _ _ _ _ 1%positive 10 false); vm_compute; reflexivity|apply rtc_refl].
Qed.

Lemma demo_alloc_queued : queued demo_alloc [] /\ sane demo_alloc.
Proof.
  destruct (queued_new 7) as [Q0 S0].
  destruct (queued_alloc _ [] 3%positive (mkEvent None None 0 100 (Z.lor Initialized IsExitEvent) None) Q0 S0 eq_refl eq_refl eq_refl) as [Q1 S1].
  destruct (queued_alloc _ [] 2%positive (mkEvent None None 0 50 Initialized None) Q1 S1 eq_refl eq_refl eq_refl) as [Q2 S2].
  exact (queued_alloc _ [] 1%positive (mkEvent None None 0 0 Initialized None) Q2 S2 eq_refl eq_refl eq_refl).
Qed.

Lemma demo_schedule st st' l l' e t :
  queued st l /\ sane st ->
  (if heap st !! e is Some ev then negb (scheduled ev) && initialized ev && (curTick st <=? t) else false) = true ->
  schedule false true e t false st = Some st' -> place (rekey (key (heap st)) e t) e l = l' -> queued st' l' /\ sane st'.
Proof.
  intros [Hq Hs] He Hr <-. destruct (heap st !! e) as [ev|] eqn:Hev; [|done].
  rewrite !andb_true_iff, negb_true_iff, Z.leb_le in He. destruct He as [[Hn Hi] Ht].
  destruct (wp_some _ _ _ Hr (schedule_spec false true st e ev l t false Hq Hev Hn Hi Ht eq_refl)) as (Hq' & _ & Hs' & _). auto.
Qed.

Lemma demo_queued : queued demo_queue [1; 2; 3]%positive /\ sane demo_queue.
Proof.
  apply (demo_schedule demo_2 _ [2; 3]%positive _ 1 10); [|reflexivity..].
  apply (demo_schedule demo_1 _ [2]%positive _ 3 35); [|reflexivity..].
  apply (demo_schedule demo_alloc _ [] _ 2 10); [apply demo_alloc_queued|reflexivity..].
Qed.

(** ** The claims *)

Section Claims.
Context {U : Type} (process : ptr -> U * State -> option (U * State)).

(** C11: the queue between operations.  The steps are the calls that the owning thread makes
    outside parallel mode: creating an event, setting and clearing its public
    flags, squashing it, [schedule], [deschedule], [reschedule], [serviceOne] and
    [serviceEvents], with actions that keep the contract [Handlers] (they leave
    an intact queue and the time alone and schedule at later ticks only).  In
    every state they reach from an empty queue, the pointers of the queue represent
    a list of events without repetition, ordered by time and, for equal times, by
    priority, none in the past; its members are exactly the events that are
    flagged as scheduled, the first of them is the head; and [debugVerify] accepts
    the queue unless an event waits at tick 0 with a negative priority. *)
Theorem event_queue_invariant (HH : Handlers process) (isCurrent : bool) (q : Z) (u : U) (us : U * State) :
  rtc (step process isCurrent) (u, EventQueue_new ∅ q) us ->
  let st := us.2 in
  exists l, repr (heap st) (head st) l /\ NoDup l /\ StronglySorted (fun x y => ~ klt (key (heap st) y) (key (heap st) x)) l /\
    head st = hd_error l /\
    (forall x ev, heap st !! x = Some ev -> (scheduled ev = true <-> x ∈ l) /\ (x ∈ l -> curTick st <= when_ ev)) /\
    ((forall x, x ∈ l -> ~ klt (key (heap st) x) (0, 0)) -> debugVerify st = Some true).
Proof.
  intros Hr st. destruct (reachable_ok process isCurrent q u us Hr) as (l & Hq & _). exists l.
  split; [apply Hq|]. split; [by eapply repr_NoDup, qd_repr|]. split; [by eapply repr_sorted, qd_repr|].
  split; [by apply queued_head|]. split; [|by apply debugVerify_spec].
  intros x ev Hx. split; [by apply (qd_flags _ _ Hq)|]. intros Hin. by apply (qd_future _ _ Hq x).
Qed.

(** C12: Scheduling an event puts it in the queue in front of the first event that
    is not before it in time and priority, so events of one bin run last in first
    out, and changes nothing of the other events; rescheduling, also of an event
    that is not scheduled, takes the event out first. *)
Theorem event_schedule (isCurrent : bool) st l e ev t global :
  queued st l -> heap st !! e = Some ev -> initialized ev = true -> curTick st <= t ->
  (scheduled ev = false -> wp (schedule false isCurrent e t global st) (enqueued st l e t)) /\
  wp (reschedule false isCurrent e t true st) (enqueued st (without e l) e t).
Proof.
  intros Hq He Hi Ht. split; [intros Hs; by apply (schedule_spec false isCurrent st e ev)|].
  by apply (reschedule_spec false isCurrent st e ev).
Qed.

(** Descheduling takes a scheduled event out of the queue and leaves the order
    of the others; of an event that is not in the queue both [deschedule] and the
    underlying [remove] stop the program. *)
Theorem event_deschedule (isCurrent : bool) st l e ev :
  queued st l -> heap st !! e = Some ev ->
  if decide (e ∈ l) then wp (deschedule false isCurrent e st) (dequeued st l e)
  else deschedule false isCurrent e st = None /\ remove e st = None.
Proof.
  intros Hq He. case_decide as Hin; [by apply (deschedule_spec false isCurrent st e ev)|].
  split; [|by apply (remove_missing st e l); [apply Hq|]]. unfold deschedule, deref. rewrite He. simpl.
  destruct (scheduled ev) eqn:Hs; [|done]. by apply (qd_flags _ _ Hq e ev He) in Hs.
Qed.

(** In parallel mode an event that another thread schedules, and every global
    event, waits in the asynchronous queue and is in no bin; the next
    [handleAsyncInsertions] of the owning thread puts the waiting events in the
    queue one after the other in the order in which they were scheduled, each at
    the place [schedule] would have given it. *)
Theorem event_async (isCurrent : bool) st l p e ev t global :
  pending st l p -> async_queue st = p -> heap st !! e = Some ev -> scheduled ev = false -> initialized ev = true ->
  curTick st <= t -> negb isCurrent || global = true ->
  wp (schedule true isCurrent e t global st) (fun st' => pending st' l (p ++ [e]) /\
    wp (handleAsyncInsertions true st') (fun st2 =>
      let k := rekey (key (heap st)) e t in queued st2 (place k e (place_all k p l)))).
Proof.
  intros Hp Ha He Hs Hi Ht Hg. eapply wp_mono; [by apply (async_schedule_spec isCurrent st e ev l p t global)|].
  intros st' (Hp' & Ha' & _ & Hk). split; [done|]. unfold handleAsyncInsertions. simpl. rewrite Ha'.
  eapply wp_mono; [by apply insert_all_spec|]. intros st2 (Hq & _). rewrite (place_all_ext _ _ _ _ Hk) in Hq.
  unfold place_all in *. rewrite fold_left_app in Hq. exact Hq.
Qed.

(** C14: [serviceEvents(T)] comes to an end, whatever the actions do that schedule
    at later ticks than the current one: it returns, at tick [T], with an intact
    queue of events that are all later than [T].  [potential] bounds the number of
    events it services. *)
Theorem event_loop_terminates (HH : Handlers process) (N T : Z) (fuel : nat) u st l :
  queued st l -> sane st -> curTick st <= T -> Z.of_nat (size (heap st)) <= N -> potential N T (heap st) l < Z.of_nat fuel ->
  wp (serviceEvents process fuel T (u, st)) (fun '(_, st') => exists l', queued st' l' /\ sane st' /\ curTick st' = T /\
    forall x, x ∈ l' -> T < time (heap st') x).
Proof. by apply (serviceEvents_spec process). Qed.

(** C15: the simulation loop exits.  The actions keep the contract [Handlers], they leave an
    unsquashed exit event [x] alone that is scheduled at tick [T] ([Spares]), and the
    host neither stops the loop nor touches the queue.  Then the loop, after
    inserting the events that wait in the asynchronous queue, returns: it returns an
    event that is an exit event, at a tick not after [T], and leaves an intact
    queue. *)
Theorem sim_loop_exits (HH : Handlers process) host x (HS : Spares process x) (N T : Z) (fuel : nat) u st l p :
  (forall us, host us = Some (false, us)) -> pending st l p -> async_queue st = p -> sane st -> exit_waits x T st ->
  Z.of_nat (size (heap st)) <= N -> potential N T (heap st) (place_all (key (heap st)) p l) < Z.of_nat fuel ->
  wp (doSimLoop process host fuel (u, st)) (fun '(r, (_, st')) =>
    (exists y ye, r = Some y /\ heap st' !! y = Some ye /\ isExitEvent ye = true) /\ curTick st' <= T /\
    exists l', queued st' l' /\ sane st').
Proof.
  intros H1 H2 H3 H4 H5 H6 H7. eapply wp_mono; [apply wp_eqn; by apply (doSimLoop_spec process host x fuel N T u st l p)|].
  intros [r [u' st']] (([y ->] & H) & E). split; [|done]. unfold doSimLoop in E. apply bind_Some in E as (st1 & _ & E).
  destruct (sim_loop_returns process host _ _ _ _ _ E) as (ye & ? & ?). by exists y, ye.
Qed.

(** C13: the order of service.  [serviceEvents(T)] with actions that keep the contract
    [Handlers], which may schedule at later ticks and deschedule: the ticks at which
    actions run never decrease and are between the current one and [T], and an
    unsquashed event due until [T] that the actions of the others leave alone runs at
    its tick.  With actions that do not touch the queue at all, the unsquashed events
    due until [T] run exactly once each, in the order of the queue, and the later
    ones stay queued in their order. *)
Theorem event_service_order (HH : Handlers process) (act : ptr -> U -> U) (N T : Z) (fuel : nat) u st l :
  queued st l -> sane st -> curTick st <= T -> Z.of_nat (size (heap st)) <= N -> potential N T (heap st) l < Z.of_nat fuel ->
  (length l < fuel)%nat ->
  wp (serviceEvents (logged process) fuel T ([], u, st)) (fun '(log, _, _) =>
    StronglySorted Z.le log.*1 /\ Forall (fun t => curTick st <= t <= T) log.*1 /\
    forall x, x ∈ l -> left_alone process x -> is_squashed (heap st) x = false -> time (heap st) x <= T -> (time (heap st) x, x) ∈ log) /\
  wp (serviceEvents (passive act) fuel T (u, st)) (fun '(u', st') =>
    u' = fold_left (fun u x => act x u) (due (heap st) T l) u /\ queued st' (later (heap st) T l) /\ curTick st' = T).
Proof.
  intros Hq Hs Ht HN Hp Hf. split; [|by apply passive_run].
  eapply wp_mono; [apply (logged_run process fuel N T (curTick st) [] u st l); try done|].
  { intros x Hx. destruct (repr_members _ _ _ x (qd_repr _ _ Hq) Hx) as [xe Hxe]. rewrite (time_lookup _ _ _ Hxe). by apply (qd_future _ _ Hq x). }
  intros [[log u'] st'] (new & -> & H). exact H.
Qed.
End Claims.

(** A checkpoint loses the scheduled events: an event that was scheduled and not
    squashed comes back from [serialize] and [unserialize] with the flag
    [Scheduled] cleared, and [checkpointReschedule], which looks at that flag,
    leaves the queue without it; an event that was scheduled and squashed comes
    back flagged as scheduled and is put in the queue. *)
Theorem checkpoint_drops_events (e fresh : Event) (p : ptr) :
  0 <= flags e < 2 ^ 16 -> scheduled e = true -> scheduled fresh = false -> initialized fresh = true ->
  exists e', unserialize (serialize e) fresh = Some e' /\ when_ e' = when_ e /\ priority e' = priority e /\
    scheduled e' = squashed e /\
    forall st, checkpointReschedule p (set_heap (<[p := e']> (heap st)) st) =
      (let st' := set_heap (<[p := e']> (heap st)) st in if squashed e then insert p st' else Some st').
Proof.
  intros Hf Hs Hn Hi. unfold unserialize, serialize. rewrite Hn, Hi. simpl. eexists. split; [done|].
  rewrite wrapU_wrapS, wrapU_small by lia. set (f := Flags.set (flags e) Initialized).
  assert (forall m, Z.land Initialized m = 0 -> Flags.isSet f m = Flags.isSet (flags e) m) as Hbit.
  { intros m Hm. unfold Flags.isSet, f. by rewrite land_set_other. }
  unfold checkpointReschedule, deref, scheduled in *. unfold squashed. simpl. rewrite !Hbit, Hs by done. simpl.
  do 2 (split; [done|]). destruct (Flags.isSet (flags e) Squashed) eqn:Hq; simpl.
  - rewrite Hbit by done. split; [done|]. intros st. rewrite lookup_insert_eq. simpl. by rewrite Hbit, Hs.
  - split; [by apply isSet_clear_sub|]. intros st. rewrite lookup_insert_eq. simpl. by rewrite isSet_clear_sub.
Qed.

(** ** Witnesses *)

Lemma event_queue_invariant_witness :
  exists l, head demo_queue = hd_error l /\
    (forall x ev, heap demo_queue !! x = Some ev -> (scheduled ev = true <-> x ∈ l) /\ (x ∈ l -> curTick demo_queue <= when_ ev)).
Proof.
  destruct (event_queue_invariant (ticker 10) (ticker_handlers 10 eq_refl) true 7 0%nat (0%nat, demo_queue) (demo_queue_steps _))
    as (l & _ & _ & _ & Hh & Hl & _). by exists l.
Defined.

Lemma event_schedule_witness :
  wp (schedule false true 2%positive 10 false demo_alloc) (enqueued demo_alloc [] 2%positive 10).
Proof.
  destruct (event_schedule true demo_alloc [] 2%positive (mkEvent None None 0 50 Initialized None) 10 false) as [H _];
    [apply demo_alloc_queued|reflexivity|reflexivity|done|]. by apply H.
Defined.

Lemma event_deschedule_witness :
  wp (deschedule false true 2%positive demo_queue) (dequeued demo_queue [1; 2; 3]%positive 2%positive).
Proof.
  assert (exists ev, heap demo_queue !! 2%positive = Some ev) as [ev Hev] by (by eexists).
  exact (event_deschedule true demo_queue [1; 2; 3]%positive 2%positive ev (proj1 demo_queued) Hev).
Defined.

Lemma event_async_witness :
  wp (schedule true false 1%positive 10 false demo_2) (fun st' => pending st' [2; 3]%positive [1%positive] /\
    wp (handleAsyncInsertions true st') (fun st2 => queued st2 [1; 2; 3]%positive)).
Proof.
  apply (event_async false demo_2 [2; 3]%positive [] 1%positive (mkEvent None None 0 0 Initialized None) 10 false);
    [|reflexivity|reflexivity|reflexivity|reflexivity|done|reflexivity].
  apply (proj1 (queued_pending demo_2 [2; 3]%positive)), (demo_schedule demo_1 _ [2]%positive _ 3 35); [|reflexivity..].
  apply (demo_schedule demo_alloc _ [] _ 2 10); [apply demo_alloc_queued|reflexivity..].
Defined.

Lemma event_loop_terminates_witness :
  exists fuel, wp (serviceEvents (ticker 10) fuel 30 (0%nat, demo_queue)) (fun '(_, st') =>
    exists l', queued st' l' /\ sane st' /\ curTick st' = 30 /\ forall x, x ∈ l' -> 30 < time (heap st') x).
Proof.
  exists (Z.to_nat (1 + potential 3 30 (heap demo_queue) [1; 2; 3]%positive)).
  apply (event_loop_terminates (ticker 10) (ticker_handlers 10 eq_refl) 3 30 _ 0%nat demo_queue [1; 2; 3]%positive);
    [apply demo_queued|apply demo_queued|done|done|]. rewrite Z2Nat.id by (vm_compute; congruence). lia.
Defined.

Lemma sim_loop_exits_witness :
  exists fuel, wp (doSimLoop (ticker 10) (fun us => Some (false, us)) fuel (0%nat, demo_queue)) (fun '(r, (_, st')) =>
    (exists y ye, r = Some y /\ heap st' !! y = Some ye /\ isExitEvent ye = true) /\ curTick st' <= 35 /\ exists l', queued st' l' /\ sane st').
Proof.
  exists (Z.to_nat (1 + potential 3 35 (heap demo_queue) [1; 2; 3]%positive)).
  apply (sim_loop_exits (ticker 10) (ticker_handlers 10 eq_refl) _ 3%positive (ticker_spares 10 _ eq_refl) 3 35 _ 0%nat demo_queue [1; 2; 3]%positive []);
    [done|apply (proj1 (queued_pending _ _)), demo_queued|done|apply demo_queued|by eexists|done|].
  change (place_all _ [] ?l) with l. rewrite Z2Nat.id by (vm_compute; congruence). lia.
Defined.

(** The periodic events leave the exit event alone, which runs at its tick 35. *)
Lemma ticker_leaves_exit : left_alone (ticker 10) 3%positive.
Proof.
  intros e ev n st l n' st' Hq He Hi Hn Hne Hr. pose proof (ticker_spares 10 3%positive eq_refl) as [Hs].
  specialize (Hs e ev n st l n' st' Hq He Hi Hn Hr). by rewrite decide_False in Hs.
Qed.

Lemma demo_exit_time : time (heap demo_queue) 3%positive = 35 /\ is_squashed (heap demo_queue) 3%positive = false.
Proof. split; vm_compute; reflexivity. Qed.

Definition demo_fuel : Z := potential 3 40 (heap demo_queue) [1; 2; 3]%positive.

Lemma demo_fuel_enough : demo_fuel < Z.of_nat (Z.to_nat (4 + demo_fuel)) /\ (length [1; 2; 3]%positive < Z.to_nat (4 + demo_fuel))%nat.
Proof. assert (0 <= demo_fuel) by (vm_compute; congruence). split; simpl; lia. Qed.

Lemma event_service_order_witness :
  exists fuel, wp (serviceEvents (logged (ticker 10)) fuel 40 ([], 0%nat, demo_queue)) (fun '(log, _, _) => (35, 3%positive) ∈ log) /\
    wp (serviceEvents (passive (fun _ => S)) fuel 40 (0%nat, demo_queue)) (fun '(n, st') => n = 3%nat /\ curTick st' = 40).
Proof.
  exists (Z.to_nat (4 + demo_fuel)). destruct demo_queued as [Hq Hs]. destruct demo_fuel_enough as [F1 F2]. destruct demo_exit_time as [E1 E2].
  destruct (event_service_order (ticker 10) (ticker_handlers 10 eq_refl) (fun _ => S) 3 40 _ 0%nat demo_queue [1; 2; 3]%positive Hq Hs
    ltac:(vm_compute; congruence) ltac:(vm_compute; congruence) F1 F2) as [H1 H2]. split.
  - eapply wp_mono; [exact H1|]. intros [[log u] st'] (_ & _ & Hin). rewrite <- E1.
    apply Hin; [apply (bool_decide_unpack _); vm_compute; exact I|exact ticker_leaves_exit|exact E2|rewrite E1; lia].
  - eapply wp_mono; [exact H2|]. intros [u st'] (-> & _ & ->). split; [vm_compute; reflexivity|reflexivity].
Defined.

Lemma checkpoint_drops_events_witness :
  exists e', unserialize (serialize (mkEvent None None 10 50 (Z.lor Initialized Scheduled) (Some 7))) (mkEvent None None 0 0 Initialized None) = Some e' /\
    when_ e' = 10 /\ scheduled e' = false.
Proof.
  destruct (checkpoint_drops_events (mkEvent None None 10 50 (Z.lor Initialized Scheduled) (Some 7)) (mkEvent None None 0 0 Initialized None) 1)
    as (e' & He' & Hw & _ & Hs & _); [done|done|done|done|]. by exists e'.
Defined.

(** ** Runs *)

(** The two periodic events run at ticks 10, 20 and 30, the exit event at 35. *)
Example demo_sim : ((fun r => (r.1, r.2.1, curTick r.2.2)) <$> doSimLoop (ticker 10) (fun us => Some (false, us)) 20 (0%nat, demo_queue))
  = Some (Some 3%positive, 6%nat, 35).
Proof. by vm_compute. Qed.

(** [debugVerify] starts with priority 0 at time 0 and rejects a sound queue whose
    first event waits at tick 0 with a negative priority. *)
Example verify_negative_priority :
  (st ← schedule false true 1%positive 0 false (set_heap {[1%positive := mkEvent None None 0 (-31) Initialized None]} (EventQueue_new ∅ 7));
   debugVerify st) = Some false.
Proof. by vm_compute. Qed.
