(* ===== verification/EventOwner.v ===== *)
(** * EventOwner: a component and its own event

    Many objects of the simulator own one event: a packet queue its send event, a
    layer of a crossbar its release event.  [owned e a st] says that the event is
    idle ([a = None]) or waits for a tick ([a = Some t]); the lemmas say what
    scheduling, rescheduling, firing and the actions of others do to it, so that
    the owners are verified without the list of bins. *)

From stdpp Require Import prelude gmap.
From Stdlib Require Import ZArith Lia.
From S2P Require Import Prelude Machine EventQueue EventShape EventQueueCorrect EventService SimLoop.
Import EventQ.

(** The invariant of the queue, whatever it holds. *)
Definition calm (st : State) : Prop := (exists l, queued st l) /\ sane st.

Definition owned (e : ptr) (a : option Z) (st : State) : Prop :=
  exists ev, heap st !! e = Some ev /\ initialized ev = true /\ squashed ev = false /\ isManaged ev = false /\
    isExitEvent ev = false /\ scheduled ev = bool_decide (is_Some a) /\ (forall t, a = Some t -> when_ ev = t).

(** An event that is created for an object. *)
Definition fresh_event (priority : Z) : Event := mkEvent None None 0 priority Initialized None.

Lemma calm_new q : calm (EventQueue_new ∅ q).
Proof. destruct (queued_new q) as [Hq Hs]. split; [by exists []|done]. Qed.

Lemma owned_fresh st e pr :
  calm st -> heap st !! e = None -> calm (set_heap (<[e := fresh_event pr]> (heap st)) st) /\ owned e None (set_heap (<[e := fresh_event pr]> (heap st)) st).
Proof.
  intros [[l Hq] Hs] He. destruct (queued_alloc _ l e (fresh_event pr) Hq Hs He eq_refl eq_refl) as [Q S].
  split; [split; [by exists l|done]|]. exists (fresh_event pr). split; [apply lookup_insert_eq|]. by repeat split.
Qed.

(** Ownership depends on the data of the event only. *)
Lemma owned_data e a st st' : data <$> heap st' !! e = data <$> heap st !! e -> owned e a st -> owned e a st'.
Proof.
  intros Hd (ev & He & H). rewrite He in Hd. destruct (heap st' !! e) as [ev'|] eqn:He'; [|done]. exists ev'. split; [done|].
  simpl in Hd. assert (data ev' = data ev) as D by congruence. destruct (data_eq _ _ D) as (D1 & _ & D3 & _).
  unfold initialized, squashed, isManaged, isExitEvent, scheduled in *. by rewrite D3, D1.
Qed.

Lemma owned_others e e' a st st' : others e' st st' -> e <> e' -> owned e a st -> owned e a st'.
Proof. intros (_ & _ & Hd) Hne. apply owned_data. by apply Hd. Qed.

Lemma owned_agree e a a' st : owned e a st -> owned e a' st -> a = a'.
Proof.
  intros (ev & He & _ & _ & _ & _ & Hs & Hw) (ev' & He' & _ & _ & _ & _ & Hs' & Hw'). assert (ev' = ev) as -> by congruence. rewrite Hs in Hs'.
  destruct a as [t|], a' as [t'|]; try done. f_equal. by rewrite <- (Hw t), <- (Hw' t').
Qed.

Lemma owned_not_past e t st : calm st -> owned e (Some t) st -> curTick st <= t.
Proof.
  intros [[l Hq] _] (ev & He & _ & _ & _ & _ & Hs & Hw). rewrite <- (Hw t eq_refl). apply (qd_future _ _ Hq e); [|done].
  by apply (qd_flags _ _ Hq e ev).
Qed.

(** The flags after scheduling. *)
Lemma schedule_flags st e ev l t st' :
  queued st l -> heap st !! e = Some ev -> scheduled ev = false -> schedule false true e t false st = Some st' ->
  exists ev', heap st' !! e = Some ev' /\ flags ev' = Flags.set (flags ev) Scheduled.
Proof.
  intros Hq He Hs. unfold schedule, deref. destruct (assert_ (curTick st <=? t)); [|done]. simpl. rewrite He. simpl. rewrite Hs. simpl.
  destruct (assert_ (initialized ev)); [|done]. simpl. unfold upd. rewrite He. simpl.
  assert (e ∉ l) as Hn by (intros Hin; apply (qd_flags _ _ Hq e ev He) in Hin; congruence).
  set (h1 := <[e := setWhen t (qid st) ev]> (heap st)).
  assert (h1 !! e = Some (setWhen t (qid st) ev)) as He1 by apply lookup_insert_eq.
  destruct (insert_place (set_heap h1 st) e _ l He1 Hn) as (st2 & -> & Hm & _); [apply repr_insert_out; [done|apply Hq]|].
  destruct (same_data_lookup _ _ _ _ (mv_data _ _ Hm) He1) as (ev2 & He2 & Hd2). destruct (data_eq _ _ Hd2) as (_ & _ & D3 & _).
  simpl. rewrite He2. simpl. unfold acquire, deref. simpl. rewrite lookup_insert_eq. simpl. intros [= <-]. simpl.
  rewrite lookup_insert_eq. eexists. split; [done|]. simpl. by rewrite D3.
Qed.

(** What an owner's operation leaves: a sound queue, the owner's event at [a], and
    the time and the other events as before. *)
Definition rearmed (e : ptr) (a : option Z) (st st' : State) : Prop := calm st' /\ owned e a st' /\ others e st st'.

Lemma isSet_set_other f m n : Z.land m n = 0 -> Flags.isSet (Flags.set f m) n = Flags.isSet f n.
Proof. intros H. unfold Flags.isSet. by rewrite land_set_other. Qed.

Lemma schedule_owned e t st :
  calm st -> owned e None st -> curTick st <= t -> wp (schedule false true e t false st) (rearmed e (Some t) st).
Proof.
  intros [[l Hq] Hsn] (ev & He & Hi & Hsq & Hm & Hx & Hs & _) Ht.
  destruct (proj1 (wp_exists _ _) (schedule_spec false true st e ev l t false Hq He Hs Hi Ht eq_refl)) as (st' & E & Hq' & Ho & Hsn' & ev' & He' & Hw').
  destruct (schedule_flags st e ev l t st' Hq He Hs E) as (ev2 & He2 & Hf). assert (ev2 = ev') as -> by congruence.
  rewrite E. split; [split; [by eexists|auto]|]. split; [|done]. exists ev'. split; [done|].
  unfold initialized, squashed, isManaged, isExitEvent, scheduled in *. rewrite Hf.
  rewrite land_set_other, !isSet_set_other by done. do 4 (split; [done|]). split; [by apply isSet_set|]. by intros ? [= <-].
Qed.

(** The flags after setting the time, inserting and updating. *)
Lemma enter_flags st e ev l t f st' :
  queued_but e st l -> heap st !! e = Some ev -> (st1 ← upd e (setWhen t (qid st)) st; st2 ← insert e st1; upd e f st2) = Some st' ->
  exists ev2, heap st' !! e = Some (f ev2) /\ flags ev2 = flags ev.
Proof.
  intros Hq He. unfold upd. rewrite He. simpl. set (h1 := <[e := setWhen t (qid st) ev]> (heap st)).
  assert (queued_but e (set_heap h1 st) l) as Hq1 by (apply queued_but_set; [done|]; intros x Hx; unfold h1; by rewrite lookup_insert_ne).
  assert (h1 !! e = Some (setWhen t (qid st) ev)) as He1 by (unfold h1; by rewrite lookup_insert_eq).
  destruct (insert_place (set_heap h1 st) e _ l He1 (qb_out _ _ _ Hq1) (qb_repr _ _ _ Hq1)) as (st2 & -> & Hm & _).
  destruct (same_data_lookup _ _ _ _ (mv_data _ _ Hm) He1) as (ev2 & He2 & Hd2). destruct (data_eq _ _ Hd2) as (_ & _ & D3 & _).
  simpl. rewrite He2. intros [= <-]. exists ev2. simpl. by rewrite lookup_insert_eq.
Qed.

Lemma reschedule_flags st e ev l t st' :
  queued st l -> heap st !! e = Some ev -> initialized ev = true -> reschedule false true e t true st = Some st' ->
  exists ev', heap st' !! e = Some ev' /\ flags ev' = Flags.set (Flags.clear (flags ev) Squashed) Scheduled.
Proof.
  intros Hq He Hi. unfold reschedule, deref. destruct (assert_ (curTick st <=? t)); [|done]. simpl. rewrite He. simpl. rewrite Hi. simpl.
  destruct (scheduled ev) eqn:Hs.
  - assert (e ∈ l) as Hin by (by apply (qd_flags _ _ Hq e ev)).
    destruct (leave_spec st e ev l Hq He Hin) as (st1 & ev1 & Hr & Hm & Hqb & He1 & Hd). rewrite Hr. simpl. destruct (data_eq _ _ Hd) as (_ & _ & D3 & _).
    intros E. destruct (enter_flags _ _ _ _ _ _ _ Hqb He1 E) as (ev2 & H1 & H2). eexists. split; [exact H1|]. simpl. by rewrite H2, D3.
  - assert (e ∉ l) as Hn by (intros Hin; apply (qd_flags _ _ Hq e ev He) in Hin; congruence). unfold acquire, deref. rewrite He. simpl.
    intros E. assert (queued_but e st l) as Hqb by (by apply queued_but_intro).
    destruct (enter_flags _ _ _ _ _ _ _ Hqb He E) as (ev2 & H1 & H2). eexists. split; [exact H1|]. simpl. by rewrite H2.
Qed.

Lemma reschedule_owned e a t st :
  calm st -> owned e a st -> curTick st <= t -> wp (reschedule false true e t true st) (rearmed e (Some t) st).
Proof.
  intros [[l Hq] Hsn] (ev & He & Hi & Hsq & Hm & Hx & Hs & _) Ht.
  destruct (proj1 (wp_exists _ _) (reschedule_spec false true st e ev l t true Hq He eq_refl Hi Ht eq_refl)) as (st' & E & Hq' & Ho & Hsn' & ev' & He' & Hw').
  destruct (reschedule_flags st e ev l t st' Hq He Hi E) as (ev2 & He2 & Hf). assert (ev2 = ev') as -> by congruence.
  rewrite E. split; [split; [by eexists|auto]|]. split; [|done]. exists ev'. split; [done|].
  unfold initialized, squashed, isManaged, isExitEvent, scheduled in *. rewrite Hf.
  rewrite land_set_other, land_clear_other, !isSet_set_other by done.
  split; [done|]. split; [apply isSet_clear|]. rewrite !isSet_clear_other by done. do 2 (split; [done|]). split; [by apply isSet_set|]. by intros ? [= <-].
Qed.

Section Fire.
Context {U : Type} (process : ptr -> U * State -> option (U * State)).

(** The event of an owner that has run leaves no trace. *)
Lemma finish_owned e a (u : U) st : owned e a st -> finish e (u, st) = Some (None, (u, st)).
Proof. intros (ev & He & _ & _ & Hm & Hx & _). unfold finish, release, deref. rewrite He. simpl. by rewrite Hx, Hm. Qed.

(** Servicing the owner's event: its action runs at its time, with the event idle. *)
Lemma serviceOne_owned e t u st l :
  queued st (e :: l) -> sane st -> owned e (Some t) st ->
  exists st1, calm st1 /\ queued st1 l /\ owned e None st1 /\ curTick st1 = t /\
    (forall x, x <> e -> data <$> heap st1 !! x = data <$> heap st !! x) /\
    serviceOne process (u, st) = (us ← process e (u, st1); finish e us).
Proof.
  intros Hq Hsn (ev & He & Hi & Hsq & Hm & Hx & Hs & Hw).
  destruct (serviceOne_cases process u st e ev l Hq Hsn He) as (st1 & Hq1 & Hs1 & Hcur & (ev1 & He1 & Hi1 & Hx1 & Hsq1 & Hm1) & _ & Hdat & Hc).
  rewrite Hsq in Hc. destruct Hc as [Ht1 Hc]. exists st1. split; [split; [by eexists|done]|]. split; [done|]. split.
  - exists ev1. rewrite Hx1, Hm1. do 5 (split; [done|]). split; [|done]. destruct (scheduled ev1) eqn:E; [|done].
    apply (qd_flags _ _ Hq1 e ev1 He1) in E. pose proof (repr_NoDup _ _ _ (qd_repr _ _ Hq)) as Hnd. by apply NoDup_cons in Hnd as [? _].
  - rewrite Ht1. split; [by apply Hw|]. by split.
Qed.
End Fire.

(** The owner's event is the only one that can be in the queue. *)
Lemma queued_single e a st st' :
  queued st [] -> others e st st' -> calm st' -> owned e a st' -> queued st' (if a is Some _ then [e] else []).
Proof.
  intros Hq (_ & _ & Ho) [[l Hq'] _] (ev & He & _ & _ & _ & _ & Hs & _).
  assert (forall x, x ∈ l -> x = e) as Hl.
  { intros x Hx. destruct (decide (x = e)) as [|Hne]; [done|]. destruct (repr_members _ _ _ x (qd_repr _ _ Hq') Hx) as [xe Hxe].
    specialize (Ho x Hne). rewrite Hxe in Ho. destruct (heap st !! x) as [xe0|] eqn:E; [|done]. simpl in Ho.
    assert (data xe = data xe0) as Hd by congruence. apply scheduled_data in Hd. assert (x ∈ []) as Hin; [|by apply not_elem_of_nil in Hin].
    apply (qd_flags _ _ Hq x xe0 E). rewrite <- Hd. by apply (qd_flags _ _ Hq' x xe). }
  pose proof (qd_flags _ _ Hq' e ev He) as Hf. pose proof (repr_NoDup _ _ _ (qd_repr _ _ Hq')) as Hnd.
  assert (l = if a is Some _ then [e] else []) as <-; [|done].
  destruct a; rewrite Hs in Hf; simpl in Hf.
  - destruct l as [|y l]; [exfalso; by apply (not_elem_of_nil e), Hf|]. assert (y = e) as -> by (apply Hl; set_solver).
    f_equal. destruct l as [|y l]; [done|]. exfalso. apply NoDup_cons in Hnd as [Hn _]. apply Hn. rewrite (Hl y); set_solver.
  - destruct l as [|y l]; [done|]. exfalso. assert (y = e) as -> by (apply Hl; set_solver). by assert (false = true) by (apply Hf; set_solver).
Qed.


(** An owner's event at the head of the queue has a time. *)
Lemma owned_head e a st l : queued st (e :: l) -> owned e a st -> exists t, a = Some t /\ nextTick st = Some t.
Proof.
  intros Hq (ev & He & _ & _ & _ & _ & Hs & Hw). assert (scheduled ev = true) as Hsd by (apply (qd_flags _ _ Hq _ ev He); set_solver).
  rewrite Hsd in Hs. destruct a as [t|]; [|done]. exists t. split; [done|]. unfold nextTick, deref. rewrite (queued_head _ _ Hq). simpl.
  rewrite He. simpl. f_equal. by apply Hw.
Qed.
