(* ===== verification/Clock.v ===== *)
(** * Clock: clocked objects and objects that tick

    Translates the class [Clocked] of [gem5-X-TiC-SAT/src/sim/clocked_object.hh] and
    the class [Ticked] of [sim/ticked_object.hh] and [ticked_object.cc].  A clocked
    object caches the tick and the number of the clock edge it has seen last; a
    ticked object is evaluated at every edge of its clock, by an event that
    schedules itself again.  The period of the clock domain, the virtual function
    [evaluate] and the statistics callback [countCycles] are parameters; counters
    of statistics are integers. *)

From stdpp Require Import prelude gmap.
From Stdlib Require Import ZArith Lia.
From S2P Require Import Prelude Machine Bitfield IntMath EventQueue EventShape EventQueueCorrect EventService.

Module Clock.
Import EventQ.

(** [Cycles::operator-] throws when the difference would be negative. *)
Definition Cycles_sub (a b : Z) : option Z := if b <=? a then Some (a - b) else None.

Record Clocked := mkClocked { tick : Z; cycle : Z }.

Definition Clocked_new : Clocked := mkClocked 0 0.

Section Clocked.
Variable clockPeriod : Z.

(** [now] is [curTick()]. *)
Definition update (now : Z) (c : Clocked) : option Clocked :=
  if now <=? tick c then Some c
  else
    let c := mkClocked (uint64 (tick c + clockPeriod)) (uint64 (cycle c + 1)) in
    if now <=? tick c then Some c
    else
      elapsedCycles ← divCeil (uint64 (now - tick c)) clockPeriod;
      Some (mkClocked (uint64 (tick c + uint64 (elapsedCycles * clockPeriod))) (uint64 (cycle c + elapsedCycles))).

Definition resetClock (now : Z) : option Clocked :=
  elapsedCycles ← divCeil now clockPeriod;
  Some (mkClocked (uint64 (elapsedCycles * clockPeriod)) elapsedCycles).

Definition clockEdge (now cycles : Z) (c : Clocked) : option (Z * Clocked) :=
  c ← update now c; Some (uint64 (tick c + uint64 (clockPeriod * cycles)), c).

Definition curCycle (now : Z) (c : Clocked) : option (Z * Clocked) := c ← update now c; Some (cycle c, c).

Definition nextCycle (now : Z) (c : Clocked) : option (Z * Clocked) := clockEdge now 1 c.

Definition ticksToCycles (t : Z) : option Z := divCeil t clockPeriod.
Definition cyclesToTicks (c : Z) : Z := uint64 (clockPeriod * c).
End Clocked.

(** ** Ticked objects *)

Record Ticked := mkTicked {
  event : ptr;
  clk : Clocked;
  running : bool;
  lastStopped : Z;
  numCycles : Z;
  tickCycles : Z
}.

(** [e] is the event, allocated with the object. *)
Definition Ticked_new (e : ptr) : Ticked := mkTicked e Clocked_new false 0 0 0.

Definition set_clk (c : Clocked) (t : Ticked) : Ticked :=
  mkTicked (event t) c (running t) (lastStopped t) (numCycles t) (tickCycles t).
Definition set_running (b : bool) (t : Ticked) : Ticked :=
  mkTicked (event t) (clk t) b (lastStopped t) (numCycles t) (tickCycles t).
Definition set_lastStopped (n : Z) (t : Ticked) : Ticked :=
  mkTicked (event t) (clk t) (running t) n (numCycles t) (tickCycles t).
Definition add_cycles (num ticked : Z) (t : Ticked) : Ticked :=
  mkTicked (event t) (clk t) (running t) (lastStopped t) (numCycles t + num) (tickCycles t + ticked).

Section Ticked.
Context {V : Type} (clockPeriod : Z).
Variable evaluate : Ticked * V * State -> option (Ticked * V * State).
Variable countCycles : Z -> V -> V.

(** [object.schedule(event, object.clockEdge(Cycles(1)))] *)
Definition schedule_next (t : Ticked) (st : State) : option (Ticked * State) :=
  '(when, c) ← clockEdge clockPeriod (curTick st) 1 (clk t);
  st ← schedule false true (event t) when false st;
  Some (set_clk c t, st).

Definition processClockEvent (tvs : Ticked * V * State) : option (Ticked * V * State) :=
  let '(t, v, st) := tvs in
  '(t, v, st) ← evaluate (add_cycles 1 1 t, countCycles 1 v, st);
  if running t then '(t, st) ← schedule_next t st; Some (t, v, st) else Some (t, v, st).

Definition cyclesSinceLastStopped (t : Ticked) (st : State) : option (Z * Ticked) :=
  '(n, c) ← curCycle clockPeriod (curTick st) (clk t); d ← Cycles_sub n (lastStopped t); Some (d, set_clk c t).

Definition start (tvs : Ticked * V * State) : option (Ticked * V * State) :=
  let '(t, v, st) := tvs in
  if running t then Some (t, v, st)
  else
    e ← deref (event t) st;
    '(t, st) ← (if scheduled e then Some (t, st) else schedule_next t st);
    let t := set_running true t in
    '(n, t) ← cyclesSinceLastStopped t st;
    let t := add_cycles n 0 t in
    '(n, t) ← cyclesSinceLastStopped t st;
    Some (t, countCycles n v, st).

Definition resetLastStopped (t : Ticked) (st : State) : option Ticked :=
  '(n, c) ← curCycle clockPeriod (curTick st) (clk t); Some (set_lastStopped n (set_clk c t)).

Definition stop (tvs : Ticked * V * State) : option (Ticked * V * State) :=
  let '(t, v, st) := tvs in
  if running t then
    e ← deref (event t) st;
    st ← (if scheduled e then deschedule false true (event t) st else Some st);
    t ← resetLastStopped (set_running false t) st;
    Some (t, v, st)
  else Some (t, v, st).
End Ticked.

(** The object as the action of its event in the queue. *)
Definition ticked_process {V} (clockPeriod : Z) (evaluate : Ticked * V * State -> option (Ticked * V * State))
    (countCycles : Z -> V -> V) (e : ptr) (us : (Ticked * V) * State) : option ((Ticked * V) * State) :=
  processClockEvent clockPeriod evaluate countCycles us.

(** ** Clock edges *)

Section Edges.
Context (P : Z).
Hypothesis HP : 0 < P.

(** The first edge at or after [now]. *)
Definition next_edge (now : Z) : Z := (now + P - 1) / P.

Lemma next_edge_spec now n : n = next_edge now <-> now <= n * P < now + P.
Proof.
  unfold next_edge. split.
  - intros ->. pose proof (Z.div_mod (now + P - 1) P ltac:(lia)). pose proof (Z.mod_pos_bound (now + P - 1) P HP). nia.
  - intros H. apply (Z.div_unique _ _ _ (now + P - 1 - P * n)); lia.
Qed.

(** The cached edge is one of the clock's, and not after the next one. *)
Record on_edge (now : Z) (c : Clocked) : Prop := {
  oe_tick : tick c = cycle c * P;
  oe_pos : 0 <= cycle c;
  oe_next : tick c < now + P
}.

Lemma on_edge_new now : 0 <= now -> on_edge now Clocked_new.
Proof. intros Hn. split; simpl; lia. Qed.

Lemma on_edge_later now now' c : on_edge now c -> now <= now' -> on_edge now' c.
Proof. intros [E1 E2 E3] H. split; lia. Qed.

Definition edge_clock (now : Z) : Clocked := mkClocked (next_edge now * P) (next_edge now).

Lemma edge_clock_on now : 0 <= now -> on_edge now (edge_clock now).
Proof.
  intros Hn. pose proof (proj1 (next_edge_spec now _) eq_refl). split; simpl; [done| |lia].
  unfold next_edge. apply Z.div_pos; lia.
Qed.

Lemma update_spec now c : 0 <= now -> now + 2 * P < 2 ^ 64 -> on_edge now c -> update P now c = Some (edge_clock now).
Proof.
  intros Hn Hb [E1 E2 E3]. unfold update. destruct (Z.leb_spec now (tick c)) as [Hle|Hlt].
  { f_equal. destruct c as [t n]. simpl in *. assert (n = next_edge now) as -> by (apply next_edge_spec; lia). by subst t. }
  assert (cycle c <= tick c) by nia. simpl.
  assert (uint64 (tick c + P) = (cycle c + 1) * P) as -> by (unfold uint64; rewrite wrapU_small; lia).
  assert (uint64 (cycle c + 1) = cycle c + 1) as -> by (unfold uint64; rewrite wrapU_small; lia).
  destruct (Z.leb_spec now ((cycle c + 1) * P)) as [Hle|Hlt2].
  { unfold edge_clock. assert (cycle c + 1 = next_edge now) as -> by (apply next_edge_spec; lia). done. }
  unfold divCeil. destruct (Z.eqb_spec P 0); [lia|]. cbn [mbind option_bind tick cycle].
  set (t1 := (cycle c + 1) * P) in *. assert (0 <= t1) by (unfold t1; nia).
  assert (uint64 (now - t1) = now - t1) as -> by (unfold uint64; rewrite wrapU_small; lia).
  assert (uint64 (now - t1 + P - 1) = now - t1 + P - 1) as -> by (unfold uint64; rewrite wrapU_small; lia).
  set (k := (now - t1 + P - 1) / P). assert (now - t1 <= k * P < now - t1 + P) as Hk.
  { unfold k. pose proof (Z.div_mod (now - t1 + P - 1) P ltac:(lia)). pose proof (Z.mod_pos_bound (now - t1 + P - 1) P HP). nia. }
  assert (0 <= k <= k * P) by nia.
  assert (cycle c + 1 + k = next_edge now) as Hedge by (apply next_edge_spec; unfold t1 in Hk; lia).
  assert (uint64 (k * P) = k * P) as -> by (unfold uint64; rewrite wrapU_small; lia).
  assert (uint64 (t1 + k * P) = t1 + k * P) as -> by (unfold uint64; rewrite wrapU_small; lia).
  assert (cycle c + 1 + k <= t1 + k * P) by (unfold t1; nia).
  assert (uint64 (cycle c + 1 + k) = cycle c + 1 + k) as -> by (unfold uint64; rewrite wrapU_small; lia).
  unfold edge_clock. rewrite <- Hedge. do 2 f_equal. unfold t1. lia.
Qed.

Lemma clockEdge_spec now k c :
  0 <= now -> 0 <= k -> now + (k + 2) * P < 2 ^ 64 -> on_edge now c ->
  clockEdge P now k c = Some ((next_edge now + k) * P, edge_clock now).
Proof.
  intros Hn Hk Hb Hc. unfold clockEdge. rewrite update_spec by (done || nia). cbn [mbind option_bind edge_clock tick].
  pose proof (proj1 (next_edge_spec now _) eq_refl) as He.
  assert (uint64 (P * k) = P * k) as -> by (unfold uint64; rewrite wrapU_small; nia).
  do 2 f_equal. unfold uint64. rewrite wrapU_small; nia.
Qed.
End Edges.
End Clock.
