(* ===== verification/ClockTheorems.v ===== *)
(** * ClockTheorems: clock edges, and objects that tick

    The clock of an object names its edges exactly, at 64 bits, and an object
    that ticks is evaluated once at each edge: the composition of the clock, the
    ticked object and the event queue. *)

From stdpp Require Import prelude gmap.
From Stdlib Require Import ZArith Lia.
From S2P Require Import Prelude Machine Bitfield IntMath EventQueue EventShape EventQueueCorrect EventService SimLoop EventOwner Clock.
Import EventQ Clock.

#[local] Arguments serviceEvents : simpl never.
#[local] Arguments serviceOne : simpl never.

(** C31: clock edges.  Between calls the cached edge of a clocked object is an edge of
    its clock and at most the next one; then, whatever edge it has cached,
    [clockEdge] answers the edge [k] periods after the first one that is not
    before the current tick, in the range its documentation gives, [curCycle]
    its number and [nextCycle] the edge one period later, without overflow. *)
Theorem clock_edges P now k c :
  0 < P -> 0 <= now -> 0 <= k -> now + (k + 3) * P < 2 ^ 64 -> on_edge P now c ->
  (exists t c', clockEdge P now k c = Some (t, c') /\ on_edge P now c' /\ t mod P = 0 /\ now + k * P <= t < now + (k + 1) * P) /\
  (exists n c', curCycle P now c = Some (n, c') /\ on_edge P now c' /\ now <= n * P < now + P) /\
  (exists t c', nextCycle P now c = Some (t, c') /\ now + P <= t < now + 2 * P).
Proof.
  intros HP Hn Hk Hb Hc. pose proof (proj1 (next_edge_spec P HP now _) eq_refl) as He. pose proof (edge_clock_on P HP now Hn) as Ho.
  split; [|split].
  - exists ((next_edge P now + k) * P), (edge_clock P now). rewrite clockEdge_spec by (done || nia).
    split; [done|]. split; [done|]. split; [apply Z.mod_mul; lia|nia].
  - exists (next_edge P now), (edge_clock P now). unfold curCycle. rewrite update_spec by (done || nia). done.
  - exists ((next_edge P now + 1) * P), (edge_clock P now). unfold nextCycle. rewrite clockEdge_spec by (done || nia).
    split; [done|]. nia.
Qed.

Section Ticking.
Context {V : Type} (P : Z) (act : V -> V) (countCycles : Z -> V -> V).
Hypothesis HP : 0 < P.

(** An [evaluate] that works on its own data. *)
Definition plain (tvs : Ticked * V * State) : option (Ticked * V * State) := let '(t, v, st) := tvs in Some (t, act v, st).
Abbreviation process := (ticked_process P plain countCycles).
Definition one_tick (v : V) : V := act (countCycles 1 v).

(** The object is running and its event waits for edge [n]. *)
Record ticking (n : Z) (t : Ticked) (st : State) : Prop := {
  tk_queued : queued st [event t];
  tk_sane : sane st;
  tk_running : running t = true;
  tk_edge : on_edge P (curTick st) (clk t);
  tk_now : 0 <= curTick st;
  tk_event : exists ev, heap st !! event t = Some ev /\ when_ ev = n * P /\ squashed ev = false
}.

(** What a tick changes of the object. *)
Definition ticked_once (t t' : Ticked) : Prop :=
  event t' = event t /\ running t' = running t /\ tickCycles t' = tickCycles t + 1 /\ numCycles t' = numCycles t + 1.

(** Scheduling the event of a running object at the next edge but one. *)
Lemma wp_schedule_next t st ev :
  queued st [] -> sane st -> 0 <= curTick st -> curTick st + 3 * P < 2 ^ 64 -> on_edge P (curTick st) (clk t) ->
  heap st !! event t = Some ev -> initialized ev = true -> squashed ev = false ->
  wp (schedule_next P t st) (fun '(t', st') => t' = set_clk (edge_clock P (curTick st)) t /\ curTick st' = curTick st /\
    (forall r, event r = event t -> running r = true -> clk r = edge_clock P (curTick st) -> ticking (next_edge P (curTick st) + 1) r st')).
Proof.
  intros Hq Hsn Hn Hb Hc He Hi Hsq. unfold schedule_next. rewrite clockEdge_spec by (done || nia). cbn [mbind option_bind].
  pose proof (proj1 (next_edge_spec P HP (curTick st) _) eq_refl) as Hnow.
  assert (scheduled ev = false) as Hs by (destruct (scheduled ev) eqn:E; [apply (qd_flags _ _ Hq _ _ He) in E; set_solver|done]).
  destruct (proj1 (wp_exists _ _) (schedule_spec false true st (event t) ev [] ((next_edge P (curTick st) + 1) * P) false Hq He Hs Hi ltac:(nia) eq_refl))
    as (st2 & E & Hq2 & Ho & Hs2 & ev2 & He2 & Hw2). rewrite E. simpl.
  destruct (schedule_flags st (event t) ev [] _ st2 Hq He Hs E) as (ev2' & He2' & Hf2). rewrite He2 in He2'. injection He2' as <-.
  assert (curTick st2 = curTick st) as Ht2 by apply Ho. split; [done|]. split; [done|]. intros r Hr Hrun Hclk.
  split; rewrite ?Hr, ?Ht2, ?Hclk; try done; [auto|by apply edge_clock_on|].
  exists ev2. split; [done|]. split; [done|]. unfold squashed, Flags.isSet in *. by rewrite Hf2, land_set_other.
Qed.

(** Starting an object whose event does not wait. *)
Lemma start_ticking t v st ev :
  queued st [] -> sane st -> running t = false -> 0 <= curTick st -> curTick st + 3 * P < 2 ^ 64 -> on_edge P (curTick st) (clk t) ->
  lastStopped t <= next_edge P (curTick st) -> heap st !! event t = Some ev -> initialized ev = true -> squashed ev = false ->
  wp (start P countCycles (t, v, st)) (fun '(t', v', st') =>
    let d := next_edge P (curTick st) - lastStopped t in
    ticking (next_edge P (curTick st) + 1) t' st' /\ curTick st' = curTick st /\ event t' = event t /\
    tickCycles t' = tickCycles t /\ numCycles t' = numCycles t + d /\ v' = countCycles d v).
Proof.
  intros Hq Hsn Hrun Hn Hb Hc Hl He Hi Hsq. unfold start, deref. rewrite Hrun, He. simpl.
  assert (scheduled ev = false) as -> by (destruct (scheduled ev) eqn:E; [apply (qd_flags _ _ Hq _ _ He) in E; set_solver|done]).
  apply wp_bind. eapply wp_mono; [by eapply wp_schedule_next|]. intros [t1 st1] (-> & Ht1 & Hk).
  unfold cyclesSinceLastStopped, curCycle, Cycles_sub. simpl. rewrite Ht1.
  pose proof (edge_clock_on P HP _ Hn) as Ho. rewrite update_spec by (done || lia). simpl. rewrite (proj2 (Z.leb_le _ _) Hl). simpl.
  rewrite update_spec by (done || lia). simpl. rewrite (proj2 (Z.leb_le _ _) Hl). simpl. split; [by apply Hk|]. repeat split; (done || lia).
Qed.

(** The action of the event at edge [n]: the next one is scheduled. *)
Lemma wp_process n t v st ev :
  queued st [] -> sane st -> running t = true -> curTick st = n * P -> 0 <= n -> n * P + 3 * P < 2 ^ 64 -> on_edge P (n * P) (clk t) ->
  heap st !! event t = Some ev -> initialized ev = true -> squashed ev = false ->
  wp (process (event t) (t, v, st)) (fun '(t', v', st') => v' = one_tick v /\ ticked_once t t' /\ ticking (n + 1) t' st' /\ curTick st' = n * P).
Proof.
  intros Hq Hsn Hrun Hnow Hn Hb Hc He Hi Hsq. unfold ticked_process, processClockEvent, plain. simpl. rewrite Hrun. apply wp_bind.
  assert (n = next_edge P (n * P)) as En by (apply next_edge_spec; lia).
  assert (0 <= n * P) as Hpos by (apply Z.mul_nonneg_nonneg; lia).
  eapply wp_mono; [apply (wp_schedule_next (add_cycles 1 1 t) st ev); rewrite ?Hnow; done|].
  intros [t1 st1] (-> & Ht1 & Hk). simpl. rewrite Hnow, <- En in Hk. split; [done|]. split; [done|]. split; [|congruence].
  apply Hk; [done..|]. simpl. by rewrite Hnow.
Qed.

Lemma ticking_step n t v st :
  0 <= n -> n * P + 3 * P < 2 ^ 64 -> ticking n t st ->
  wp (serviceOne process (t, v, st)) (fun '(_, (t', v', st')) =>
    v' = one_tick v /\ ticked_once t t' /\ ticking (n + 1) t' st' /\ curTick st' = n * P).
Proof.
  intros Hn Hb [T1 T2 T3 T4 T5 (ev & He & Hw & Hsq)].
  destruct (serviceOne_cases process (t, v) st (event t) ev [] T1 T2 He) as (st1 & Hq1 & Hs1 & Hcur & (ev1 & He1 & Hi1 & _ & Hsq1 & _) & _ & _ & Hc).
  rewrite Hsq in Hc. destruct Hc as [Ht1 ->]. apply wp_bind. rewrite Hw in *.
  eapply wp_mono; [apply (wp_process n t v st1 ev1); try done; by apply (on_edge_later _ (curTick st))|].
  intros [[t2 v2] st2] (-> & Ho & [K1 K2 K3 K4 K5 (ev2 & He2 & Hw2 & Hsq2)] & Ht2).
  destruct (Ho) as (He' & _). rewrite He' in K1, He2.
  eapply wp_mono; [apply (wp_finish (t2, one_tick v) st2 (event t) [event t]); try done; by eexists|].
  intros [r [[t3 v3] st3]] ([= -> ->] & [R1 R2 R3 R4 R5]). split; [done|]. split; [done|]. split; [|by rewrite R3].
  specialize (R5 (event t) ltac:(set_solver)). rewrite He2 in R5. destruct (heap st3 !! event t) as [ev3|] eqn:He3; [|done].
  simpl in R5. assert (data ev3 = data ev2) as Hd by congruence. destruct (data_eq _ _ Hd) as (D1 & _ & D3 & _).
  split; rewrite ?He', ?R3; try done. exists ev3. split; [done|]. split; [by rewrite D1|]. unfold squashed in *. by rewrite D3.
Qed.

(** The number of edges from [n] on until [T]. *)
Definition edges (n T : Z) : nat := Z.to_nat (T / P - n + 1).

Lemma edges_none n T : T < n * P -> edges n T = O.
Proof. intros H. unfold edges. assert (T / P < n) by (apply Z.div_lt_upper_bound; lia). lia. Qed.

Lemma edges_some n T : n * P <= T -> edges n T = S (edges (n + 1) T).
Proof. intros H. unfold edges. assert (n <= T / P) by (apply Z.div_le_lower_bound; lia). lia. Qed.

(** A ticked object ticks at every edge.  Servicing the queue until [T] evaluates a
    running object exactly once for each edge of its clock from that of its event
    until [T], counts those cycles, and leaves its event waiting for the first
    edge after [T]. *)
Theorem ticked_edges (fuel : nat) n T t v st :
  0 <= n -> T + 3 * P < 2 ^ 64 -> curTick st <= T -> (edges n T < fuel)%nat -> ticking n t st ->
  wp (serviceEvents process fuel T (t, v, st)) (fun '(t', v', st') =>
    v' = Nat.iter (edges n T) one_tick v /\ tickCycles t' = tickCycles t + Z.of_nat (edges n T) /\
    ticking (n + Z.of_nat (edges n T)) t' st' /\ curTick st' = T).
Proof.
  revert n t v st. induction fuel as [|fuel IH]; intros n t v st Hn Hb Ht Hf Hk; [lia|].
  pose proof Hk as [T1 T2 T3 T4 T5 (ev & He & Hw & Hsq)]. unfold serviceEvents. fold (@serviceEvents (Ticked * V)).
  rewrite (queued_head _ _ T1). simpl. unfold nextTick. rewrite (queued_head _ _ T1). simpl. unfold deref. rewrite He. simpl. rewrite Hw.
  destruct (Z.ltb_spec T (n * P)) as [Hlt|Hle].
  - rewrite edges_none by done. simpl. split; [done|]. split; [lia|]. split; [|done]. rewrite Z.add_0_r.
    split; simpl; try done; [|by apply (on_edge_later _ (curTick st))|lia|by exists ev].
    apply queued_end; [done|]. intros x Hx. apply list_elem_of_singleton in Hx as ->. rewrite (time_lookup _ _ _ He). lia.
  - rewrite edges_some by done. rewrite edges_some in Hf by done. apply wp_bind.
    eapply wp_mono; [apply (ticking_step n); (done || lia)|]. intros [r [[t1 v1] st1]] (-> & (E1 & E2 & E3 & E4) & Hk1 & Ht1).
    eapply wp_mono; [apply (IH (n + 1)); try done; lia|]. intros [[t2 v2] st2] (-> & Hc & Hk2 & Ht2).
    split; [by rewrite Nat.iter_succ_r|]. split; [lia|]. split; [|done]. by replace (n + Z.of_nat (S (edges (n + 1) T))) with (n + 1 + Z.of_nat (edges (n + 1) T)) by lia.
Qed.
End Ticking.

(** ** Witnesses *)

Example clock_edges_witness :
  (exists t c', clockEdge 500 1200 3 Clocked_new = Some (t, c') /\ on_edge 500 1200 c' /\ t mod 500 = 0 /\ 1200 + 3 * 500 <= t < 1200 + (3 + 1) * 500) /\
  (exists n c', curCycle 500 1200 Clocked_new = Some (n, c') /\ on_edge 500 1200 c' /\ 1200 <= n * 500 < 1200 + 500) /\
  (exists t c', nextCycle 500 1200 Clocked_new = Some (t, c') /\ 1200 + 500 <= t < 1200 + 2 * 500).
Proof. apply (clock_edges 500 1200 3 Clocked_new); [lia..|]. by apply on_edge_new. Defined.

(** Event 1 of an object with a period of 10 ticks that counts its evaluations. *)
Definition tick_alloc : State := set_heap {[ 1%positive := mkEvent None None 0 50 Initialized None ]} (EventQueue_new ∅ 7).
Definition tick_started : Ticked * nat * State :=
  default (Ticked_new 1%positive, 0%nat, tick_alloc) (start 10 (fun _ v => v) (Ticked_new 1%positive, 0%nat, tick_alloc)).

Lemma tick_started_ticking : ticking 10 1 (tick_started.1.1) (tick_started.2).
Proof.
  destruct (queued_new 7) as [Q0 S0].
  destruct (queued_alloc _ [] 1%positive (mkEvent None None 0 50 Initialized None) Q0 S0 eq_refl eq_refl eq_refl) as [Q1 S1].
  destruct (proj1 (wp_exists _ _) (start_ticking 10 (fun _ (v : nat) => v) ltac:(lia) (Ticked_new 1%positive) 0%nat tick_alloc _
    Q1 S1 eq_refl ltac:(done) ltac:(done) ltac:(by apply on_edge_new) ltac:(done) eq_refl eq_refl eq_refl)) as ([[t v] st] & E & Hk & _).
  unfold tick_started. rewrite E. exact Hk.
Qed.

Example ticked_edges_witness :
  wp (serviceEvents (ticked_process 10 (plain S) (fun _ v => v)) 5 35 tick_started) (fun '(t', v', st') =>
    v' = 3%nat /\ tickCycles t' = 3 /\ ticking 10 4 t' st' /\ curTick st' = 35).
Proof.
  assert (edges 10 1 35 = 3%nat) as E by reflexivity.
  pose proof (ticked_edges 10 S (fun _ v => v) ltac:(lia) 5 1 35 (tick_started.1.1) (tick_started.1.2) (tick_started.2)) as H.
  rewrite E in H. exact (H ltac:(lia) ltac:(lia) ltac:(by vm_compute) ltac:(lia) tick_started_ticking).
Defined.
