(* ===== verification/Drain.v ===== *)
(** * Drain: bringing the simulated system to a standstill

    Translates [gem5-X-TiC-SAT/src/sim/drain.cc] and [drain.hh]: the drain manager,
    which counts the objects that still have work to finish, and the drain state
    of each object.  An object is its address; [objects] holds the drain state
    of every live object, [all_drainable] is the vector of the manager.  The
    virtual functions [drain] and [drainResume] are parameters that act on the
    rest of the system and on the drain states.  A failing assertion, [panic] and
    a change of the vector during a loop over it are [None]; warnings and traces
    are left out, and the count of [exits] stands for the calls of [exitSimLoop]. *)

From stdpp Require Import prelude gmap.
From Stdlib Require Import ZArith Lia.
From S2P Require Import Prelude Machine.

Module Drain.

Inductive DrainState := Running | Draining | Drained | Resuming.

#[export] Instance DrainState_eq_dec : EqDecision DrainState.
Proof. solve_decision. Defined.

Abbreviation obj := positive.

Record System := mkSystem {
  objects : gmap obj DrainState;
  all_drainable : list obj;
  count : Z;
  state : DrainState;
  exits : nat
}.

Definition set_objects (m : gmap obj DrainState) (sys : System) : System :=
  mkSystem m (all_drainable sys) (count sys) (state sys) (exits sys).
Definition set_all (l : list obj) (sys : System) : System :=
  mkSystem (objects sys) l (count sys) (state sys) (exits sys).
Definition set_count (c : Z) (sys : System) : System :=
  mkSystem (objects sys) (all_drainable sys) c (state sys) (exits sys).
Definition set_state (s : DrainState) (sys : System) : System :=
  mkSystem (objects sys) (all_drainable sys) (count sys) s (exits sys).
Definition exitSimLoop (sys : System) : System :=
  mkSystem (objects sys) (all_drainable sys) (count sys) (state sys) (S (exits sys)).

Definition DrainManager_new : System := mkSystem ∅ [] 0 Running 0.

Definition drainState (p : obj) (sys : System) : option DrainState := objects sys !! p.
Definition set_drainState (p : obj) (s : DrainState) (sys : System) : System :=
  set_objects (<[p := s]> (objects sys)) sys.

(** ** Signals *)

Definition manager_signalDrainDone (sys : System) : option System :=
  _ ← assert_ (0 <? count sys);
  let sys := set_count (uint32 (count sys - 1)) sys in
  Some (if count sys =? 0 then exitSimLoop sys else sys).

Definition signalDrainDone (p : obj) (sys : System) : option System :=
  s ← drainState p sys;
  match s with
  | Running | Drained | Resuming => Some sys
  | Draining => manager_signalDrainDone (set_drainState p Drained sys)
  end.

(** ** Registration *)

Definition registerDrainable (p : obj) (sys : System) : option System :=
  _ ← assert_ (bool_decide (p ∉ all_drainable sys)); Some (set_all (all_drainable sys ++ [p]) sys).

(** [erase(find(...))]. *)
Fixpoint erase_first (p : obj) (l : list obj) : list obj :=
  match l with
  | [] => []
  | q :: l => if decide (q = p) then l else q :: erase_first p l
  end.

Definition unregisterDrainable (p : obj) (sys : System) : option System :=
  _ ← assert_ (bool_decide (p ∈ all_drainable sys)); Some (set_all (erase_first p (all_drainable sys)) sys).

(** The constructor at an unused address, and the destructor. *)
Definition Drainable_new (p : obj) (sys : System) : option System :=
  _ ← assert_ (bool_decide (objects sys !! p = None));
  registerDrainable p (set_drainState p (state sys) sys).

Definition Drainable_delete (p : obj) (sys : System) : option System :=
  _ ← drainState p sys;
  sys ← unregisterDrainable p sys;
  Some (set_objects (delete p (objects sys)) sys).

Definition allInState (s : DrainState) (sys : System) : option bool :=
  foldr (fun p r => s' ← drainState p sys; if decide (s' = s) then r else Some false) (Some true) (all_drainable sys).

(** [preCheckpointRestore]: every object is taken to be drained. *)
Definition preCheckpointRestore (sys : System) : option System :=
  _ ← assert_ (bool_decide (state sys = Running));
  Some (foldl (fun sys p => set_drainState p Drained sys) (set_state Drained sys) (all_drainable sys)).

(** ** Draining and resuming *)

Section Manager.
Context {U : Type}.
Variable drain : obj -> U * System -> option (DrainState * (U * System)).
Variable drainResume : obj -> U * System -> option (U * System).

Definition dmDrain (p : obj) (us : U * System) : option (DrainState * (U * System)) :=
  _ ← drainState p us.2;
  '(s, (u, sys)) ← drain p (us.1, set_drainState p Draining us.2);
  let sys := set_drainState p s sys in
  _ ← assert_ (bool_decide (s = Draining) || bool_decide (s = Drained));
  Some (s, (u, sys)).

Definition dmDrainResume (p : obj) (us : U * System) : option (U * System) :=
  s ← drainState p us.2;
  _ ← assert_ (bool_decide (s = Drained) || bool_decide (s = Resuming));
  drainResume p (us.1, set_drainState p Running us.2).

(** [for (auto *obj : _allDrainable)]: the vector must not change meanwhile. *)
Fixpoint for_each (v l : list obj) (body : obj -> U * System -> option (U * System)) (us : U * System)
  : option (U * System) :=
  match l with
  | [] => Some us
  | p :: l =>
      us ← body p us;
      _ ← assert_ (bool_decide (all_drainable us.2 = v));
      for_each v l body us
  end.

Definition drain_one (p : obj) (us : U * System) : option (U * System) :=
  '(s, (u, sys)) ← dmDrain p us;
  Some (u, set_count (uint32 (count sys + (if decide (s = Drained) then 0 else 1))) sys).

Definition tryDrain (us : U * System) : option (bool * (U * System)) :=
  let '(u, sys) := us in
  _ ← assert_ (negb (bool_decide (state sys = Drained)));
  _ ← assert_ (count sys =? 0);
  '(u, sys) ← for_each (all_drainable sys) (all_drainable sys) drain_one (u, set_state Draining sys);
  if count sys =? 0 then Some (true, (u, set_state Drained sys)) else Some (false, (u, sys)).

Definition resume_one (p : obj) (us : U * System) : option (U * System) :=
  s ← drainState p us.2;
  if decide (s = Running) then Some us
  else _ ← assert_ (bool_decide (s = Drained) || bool_decide (s = Resuming)); dmDrainResume p us.

(** [do ... while (!allInState(Running))] *)
Fixpoint resume_loop (fuel : nat) (us : U * System) : option (U * System) :=
  match fuel with
  | O => None
  | S fuel =>
      us ← for_each (all_drainable us.2) (all_drainable us.2) resume_one us;
      b ← allInState Running us.2;
      if (b : bool) then Some us else resume_loop fuel us
  end.

Definition resume (fuel : nat) (us : U * System) : option (U * System) :=
  let '(u, sys) := us in
  _ ← assert_ (negb (bool_decide (state sys = Running)));
  _ ← assert_ (negb (bool_decide (state sys = Resuming)));
  _ ← assert_ (count sys =? 0);
  '(u, sys) ← resume_loop fuel (u, set_state Resuming sys);
  Some (u, set_state Running sys).
End Manager.
End Drain.
