(* ===== verification/DrainCorrect.v ===== *)
(** * DrainCorrect: the drain manager counts right

    [counted] is the invariant of the drain protocol: the manager's counter is the
    number of objects that are draining, and the drain states of the objects
    agree with the state of the manager.  The class [DrainContract] states what
    the manager relies on in the objects: [drain] answers [Draining] or [Drained],
    and otherwise the virtual functions only signal that other objects are done.
    Under it every operation keeps the invariant; the step relation [dstep]
    collects the operations. *)

From stdpp Require Import prelude gmap.
From Stdlib Require Import ZArith Lia.
From S2P Require Import Prelude Machine Drain.
Import Drain.

(** ** Counting *)

(** The number of objects of [l] that are draining. *)
Definition dcount (m : gmap obj DrainState) (l : list obj) : Z :=
  foldr (fun p n => (if decide (m !! p = Some Draining) then 1 else 0) + n) 0 l.

Definition indicator (o : option DrainState) : Z := if decide (o = Some Draining) then 1 else 0.

Lemma dcount_bounds m l : 0 <= dcount m l <= zlen l.
Proof.
  unfold zlen. induction l as [|p l IH]; simpl; [lia|]. case_decide; simpl in *; lia.
Qed.

Lemma dcount_notin m l p s : p ∉ l -> dcount (<[p := s]> m) l = dcount m l.
Proof.
  induction l as [|q l IH]; [done|]. intros Hp. simpl. rewrite IH by set_solver. rewrite lookup_insert_ne by set_solver. done.
Qed.

Lemma dcount_insert m l p s :
  NoDup l -> p ∈ l -> dcount (<[p := s]> m) l = dcount m l - indicator (m !! p) + indicator (Some s).
Proof.
  induction l as [|q l IH]; [set_solver|]. intros Hnd Hp. apply NoDup_cons in Hnd as [Hq Hnd]. simpl.
  destruct (decide (p = q)) as [->|Hne].
  - rewrite lookup_insert_eq, dcount_notin by done. unfold indicator. lia.
  - rewrite lookup_insert_ne, IH by (done || set_solver). lia.
Qed.

Lemma dcount_zero m l : dcount m l = 0 <-> forall p, p ∈ l -> m !! p <> Some Draining.
Proof.
  induction l as [|q l IH]; simpl; [set_solver|]. pose proof (dcount_bounds m l) as Hb. case_decide as Hq.
  - split; [lia|]. intros H. exfalso. apply (H q); [set_solver|done].
  - rewrite Z.add_0_l, IH. split; intros H p Hp; [apply elem_of_cons in Hp as [->|Hp]; auto|apply H; set_solver].
Qed.

Lemma dcount_app m l1 l2 : dcount m (l1 ++ l2) = dcount m l1 + dcount m l2.
Proof. induction l1 as [|p l1 IH]; simpl; lia. Qed.

(** ** The invariant *)

(** The drain states objects may have in a state of the manager. *)
Definition agrees (m s : DrainState) : Prop :=
  match m with
  | Running => s = Running
  | Draining => s = Draining \/ s = Drained
  | Drained => s = Drained
  | Resuming => s = Running \/ s = Drained
  end.

Record live (sys : System) : Prop := {
  lv_nodup : NoDup (all_drainable sys);
  lv_all : forall p, p ∈ all_drainable sys <-> is_Some (objects sys !! p);
  lv_size : zlen (all_drainable sys) < 2 ^ 32
}.

Record counted (sys : System) : Prop := {
  ct_live : live sys;
  ct_count : count sys = dcount (objects sys) (all_drainable sys);
  ct_agrees : forall p s, objects sys !! p = Some s -> agrees (state sys) s;
  ct_state : state sys <> Resuming
}.

Lemma live_ext sys sys' : live sys -> dom (objects sys') = dom (objects sys) -> all_drainable sys' = all_drainable sys -> live sys'.
Proof. intros [L1 L2 L3] Hd Ha. split; rewrite Ha; try done. intros p. by rewrite L2, <- !elem_of_dom, Hd. Qed.

(** Changing the drain state of a live object. *)
Lemma live_set sys sys' p s :
  live sys -> p ∈ all_drainable sys -> objects sys' = <[p := s]> (objects sys) -> all_drainable sys' = all_drainable sys -> live sys'.
Proof. intros L Hp Ho Ha. apply (live_ext sys); [done| |done]. rewrite Ho. by apply dom_insert_lookup_L, (lv_all _ L). Qed.

Lemma counted_idle sys : counted sys -> state sys <> Draining -> count sys = 0.
Proof.
  intros [C1 C2 C3 C4] Hs. rewrite C2. apply dcount_zero. intros p Hp E. specialize (C3 p Draining E). destruct (state sys); simpl in C3; naive_solver.
Qed.

(** ** Signals *)

(** The two outcomes of a signal. *)
Inductive signalled (p : obj) (sys : System) : System -> Prop :=
| signalled_idle : objects sys !! p <> Some Draining -> signalled p sys sys
| signalled_done n : objects sys !! p = Some Draining -> 0 < count sys ->
    signalled p sys (mkSystem (<[p := Drained]> (objects sys)) (all_drainable sys) (uint32 (count sys - 1)) (state sys) n).

Lemma signal_inv p sys sys' : signalDrainDone p sys = Some sys' -> signalled p sys sys'.
Proof.
  unfold signalDrainDone, drainState, manager_signalDrainDone. destruct (objects sys !! p) as [s|] eqn:E; [|done]. simpl.
  destruct s; try (intros [= <-]; constructor; congruence). simpl. destruct (Z.ltb_spec 0 (count sys)); [|done]. simpl.
  intros [= <-]. unfold exitSimLoop, set_count, set_drainState, set_objects. simpl. destruct (_ =? 0); by apply signalled_done.
Qed.

(** A signal of a live object never fails and keeps the invariant. *)
Lemma signal_counted p sys : counted sys -> p ∈ all_drainable sys -> wp (signalDrainDone p sys) (fun sys' =>
  counted sys' /\ all_drainable sys' = all_drainable sys /\ state sys' = state sys).
Proof.
  intros [[L1 L2 L3] C2 C3 C4] Hp. destruct (proj1 (L2 p) Hp) as [s Hs].
  assert (wp (signalDrainDone p sys) (fun _ => True)) as Hw.
  { unfold signalDrainDone, drainState, manager_signalDrainDone. rewrite Hs. simpl. destruct s; try done. simpl.
    assert (0 < count sys) as Hc.
    { pose proof (dcount_bounds (objects sys) (all_drainable sys)). assert (dcount (objects sys) (all_drainable sys) <> 0); [|lia].
      intros E. by apply (proj1 (dcount_zero _ _) E p). }
    by destruct (Z.ltb_spec 0 (count sys)); [|lia]. }
  apply wp_exists in Hw as (sys' & E & _). rewrite E. simpl. apply signal_inv in E as [Hn|n Hd Hc]; [done|].
  split; [|done]. split; simpl; [| | |done].
  - by apply (live_set sys _ p Drained).
  - rewrite C2, dcount_insert, Hd by done. unfold indicator. rewrite decide_True, decide_False by done.
    pose proof (dcount_bounds (objects sys) (all_drainable sys)). rewrite C2 in Hc. unfold uint32. rewrite wrapU_small; lia.
  - intros q s'. rewrite lookup_insert. case_decide; [|apply C3]. intros [= <-]. specialize (C3 p Draining Hd).
    destruct (state sys); simpl in *; naive_solver.
Qed.

(** An object that has signalled is not draining any more. *)
Lemma signal_leaves p sys sys' : signalDrainDone p sys = Some sys' -> objects sys !! p = Some Draining -> objects sys' !! p <> Some Draining.
Proof.
  intros E Hp. unfold signalDrainDone, drainState in E. rewrite Hp in E. simpl in E. unfold manager_signalDrainDone in E.
  destruct (assert_ _); [|done]. simpl in E. injection E as <-. by destruct (_ =? _); simpl; rewrite lookup_insert_eq.
Qed.

(** ** The objects *)

(** Signals of objects other than [p]. *)
Definition others_signal (p : obj) : System -> System -> Prop :=
  rtc (fun sys sys' => exists q, q <> p /\ signalDrainDone q sys = Some sys').

Class DrainContract {U : Type} (drain : obj -> U * System -> option (DrainState * (U * System)))
    (drainResume : obj -> U * System -> option (U * System)) : Prop := {
  drain_ok p u sys : p ∈ all_drainable sys ->
    wp (drain p (u, sys)) (fun '(s, (_, sys')) => (s = Draining \/ s = Drained) /\ others_signal p sys sys');
  resume_ok p u sys : p ∈ all_drainable sys ->
    wp (drainResume p (u, sys)) (fun '(_, sys') => others_signal p sys sys')
}.

(** What such signals keep, when [k] objects are draining and not counted. *)
Record midway (v : list obj) (k : Z) (sys : System) : Prop := {
  mw_all : all_drainable sys = v;
  mw_live : live sys;
  mw_state : state sys = Draining;
  mw_count : count sys + k = dcount (objects sys) v
}.

Lemma signals_midway p v k sys sys' :
  0 <= k -> 0 <= count sys -> midway v k sys -> p ∈ v -> others_signal p sys sys' ->
  midway v k sys' /\ 0 <= count sys' /\ objects sys' !! p = objects sys !! p /\
  forall q, objects sys' !! q = objects sys !! q \/ objects sys !! q = Some Draining /\ objects sys' !! q = Some Drained.
Proof.
  intros Hk Hc Hm Hp Hr. induction Hr as [sys|sys1 sys2 sys3 (q & Hqp & Hsig) _ IH]; [by auto|].
  apply signal_inv in Hsig. destruct Hsig as [Hn|n Hd Hpos]; [by apply IH|].
  destruct Hm as [M1 M2 M3 M4]. assert (q ∈ v) as Hqv by (rewrite <- M1; apply (lv_all _ M2); by eexists).
  pose proof (dcount_bounds (objects sys1) v) as Hb. pose proof (lv_size _ M2) as Hsz. rewrite M1 in Hsz.
  assert (uint32 (count sys1 - 1) = count sys1 - 1) as Hu by (apply wrapU_small; lia).
  destruct IH as (I1 & I2 & I3 & I4); simpl; [lia| |].
  { split; simpl; [done| |done|].
    - apply (live_set sys1 _ q Drained); try done. by rewrite M1.
    - rewrite Hu, dcount_insert by (done || by rewrite <- M1; apply M2). rewrite Hd. unfold indicator.
      rewrite decide_True, decide_False by done. lia. }
  split; [done|]. split; [done|]. simpl in *. split; [by rewrite I3, lookup_insert_ne|]. intros x. specialize (I4 x).
  rewrite lookup_insert in I4. case_decide; [subst x; naive_solver|done].
Qed.

(** ** Draining *)

(** The loop of [tryDrain] has drained [l1] and has [l2] before it. *)
Record drained_upto (l1 l2 : list obj) (sys : System) : Prop := {
  du_midway : midway (l1 ++ l2) 0 sys;
  du_done : forall p, p ∈ l1 -> objects sys !! p = Some Draining \/ objects sys !! p = Some Drained;
  du_todo : forall p, p ∈ l2 -> objects sys !! p <> Some Draining
}.

(** [p] takes the state [s] it has answered, and is counted. *)
Lemma count_answer v p s sys n :
  midway v 1 sys -> objects sys !! p = Some Draining -> s = Draining \/ s = Drained ->
  n = (if decide (s = Drained) then 0 else 1) -> 0 <= count sys ->
  midway v 0 (set_count (uint32 (count sys + n)) (set_drainState p s sys)).
Proof.
  intros [M1 M2 M3 M4] Hd Hs -> Hc. assert (p ∈ v) as Hp by (rewrite <- M1; apply (lv_all _ M2); by eexists).
  pose proof (lv_nodup _ M2) as Hnd. pose proof (lv_size _ M2) as Hsz. rewrite M1 in Hnd, Hsz.
  pose proof (dcount_bounds (objects sys) v).
  split; simpl; try done; [by apply (live_set sys _ p s); rewrite ?M1|].
  rewrite dcount_insert, Hd by done. unfold indicator.
  unfold uint32. rewrite wrapU_small by (case_decide; lia). destruct Hs as [-> | ->]; repeat case_decide; try done; lia.
Qed.

Section Manager.
Context {U : Type} (drain : obj -> U * System -> option (DrainState * (U * System))).
Context (drainResume : obj -> U * System -> option (U * System)).
Context {DC : DrainContract drain drainResume}.

Lemma drain_one_spec l1 p l2 u sys :
  drained_upto l1 (p :: l2) sys -> wp (drain_one drain p (u, sys)) (fun '(_, sys') => drained_upto (l1 ++ [p]) l2 sys').
Proof.
  intros [Hm Hdone Htodo]. pose proof Hm as [M1 M2 M3 M4]. set (v := l1 ++ p :: l2) in *.
  assert (p ∈ v) as Hp by (unfold v; set_solver). pose proof (lv_nodup _ M2) as Hnd. rewrite M1 in Hnd.
  destruct (proj1 (lv_all _ M2 p) ltac:(by rewrite M1)) as [s0 Hs0]. pose proof (dcount_bounds (objects sys) v).
  set (sys1 := set_drainState p Draining sys).
  assert (midway v 1 sys1) as Hm1.
  { split; simpl; try done; [by apply (live_set sys _ p Draining); rewrite ?M1|]. rewrite dcount_insert by done. unfold indicator.
    rewrite decide_False, decide_True by (done || apply Htodo; set_solver). lia. }
  unfold drain_one, dmDrain, drainState. simpl. rewrite Hs0. simpl. apply wp_bind, wp_bind.
  eapply wp_mono; [apply (drain_ok p u sys1); simpl; by rewrite M1|]. intros [s [u2 sys2]] [Hs Hsig].
  destruct (signals_midway p v 1 sys1 sys2) as (Hm2 & Hc2 & Hp2 & Hq2); try done; [simpl; lia|]. simpl in Hp2. rewrite lookup_insert_eq in Hp2.
  assert (bool_decide (s = Draining) || bool_decide (s = Drained) = true) as -> by (destruct Hs as [-> | ->]; done). simpl.
  assert (forall q, objects sys2 !! q = Some Draining -> q = p \/ objects sys !! q = Some Draining) as Hback.
  { intros q Hq. destruct (decide (q = p)); [by left|right]. destruct (Hq2 q) as [E|[_ E]]; [|congruence]. simpl in E.
    rewrite lookup_insert_ne in E by done. congruence. }
  assert (l1 ++ p :: l2 = (l1 ++ [p]) ++ l2) as Ev by (by rewrite <- app_assoc).
  split; simpl.
  - rewrite <- Ev. by apply (count_answer v p s sys2).
  - intros q Hq. rewrite lookup_insert. case_decide; [subst q; naive_solver|]. specialize (Hdone q ltac:(set_solver)).
    destruct (Hq2 q) as [E|[_ E]]; [|by right]. simpl in E. rewrite lookup_insert_ne in E by done. by rewrite E.
  - intros q Hq. assert (q <> p) as Hne. { intros ->. unfold v in Hnd. apply NoDup_app in Hnd as (_ & _ & Hnd). by apply NoDup_cons in Hnd as [? _]. }
    rewrite lookup_insert_ne by done. intros E. destruct (Hback q E) as [|E']; [done|]. apply (Htodo q); [set_solver|done].
Qed.

Lemma drain_all_spec l2 l1 u sys :
  drained_upto l1 l2 sys ->
  wp (for_each (l1 ++ l2) l2 (drain_one drain) (u, sys)) (fun '(_, sys') => drained_upto (l1 ++ l2) [] sys').
Proof.
  revert l1 u sys. induction l2 as [|p l2 IH]; intros l1 u sys Hd; simpl; [by rewrite app_nil_r|].
  apply wp_bind. eapply wp_mono; [by apply drain_one_spec|]. intros [u' sys'] Hd'. simpl.
  replace (l1 ++ p :: l2) with ((l1 ++ [p]) ++ l2) by (by rewrite <- app_assoc).
  rewrite bool_decide_true by apply Hd'. simpl. by apply IH.
Qed.

(** What [tryDrain] leaves. *)
Definition tried (sys : System) (b : bool) (sys' : System) : Prop :=
  counted sys' /\ all_drainable sys' = all_drainable sys /\
  if b then state sys' = Drained /\ forall p, p ∈ all_drainable sys -> objects sys' !! p = Some Drained
  else state sys' = Draining /\ 0 < count sys'.

Lemma tryDrain_spec u sys :
  counted sys -> state sys <> Drained -> count sys = 0 ->
  wp (tryDrain drain (u, sys)) (fun '(b, (_, sys')) => tried sys b sys').
Proof.
  intros [C1 C2 C3 C4] Hs Hc. unfold tryDrain. rewrite bool_decide_false by done. simpl. rewrite Hc. simpl. apply wp_bind.
  eapply wp_mono; [apply (drain_all_spec (all_drainable sys) [])|].
  { split; simpl; [split; simpl; try done; [by apply (live_ext sys)|lia]|set_solver|]. apply dcount_zero. lia. }
  intros [u' sys'] [[M1 M2 M3 M4] Hd _]. rewrite app_nil_r in *. simpl in *.
  assert (forall p s, objects sys' !! p = Some s -> s = Draining \/ s = Drained) as Ha.
  { intros p s Hp. destruct (Hd p) as [E|E]; [rewrite <- M1; apply (lv_all _ M2); by eexists|..]; rewrite E in Hp; injection Hp as <-; auto. }
  destruct (Z.eqb_spec (count sys') 0) as [E|E]; simpl.
  - assert (forall p, p ∈ all_drainable sys -> objects sys' !! p = Some Drained) as Hall.
    { intros p Hp. destruct (Hd p Hp) as [E'|E']; [|done]. exfalso. apply (proj1 (dcount_zero (objects sys') (all_drainable sys)) ltac:(lia) p Hp E'). }
    split; [|done]. split; simpl; [by apply (live_ext sys')|by rewrite M1; lia| |done].
    intros p s Hp. assert (p ∈ all_drainable sys) as Hin by (rewrite <- M1; apply (lv_all _ M2); by eexists). rewrite (Hall p Hin) in Hp. congruence.
  - pose proof (dcount_bounds (objects sys') (all_drainable sys)). split; [|split; [done|split; [done|lia]]].
    split; [done|by rewrite M1; lia| |by rewrite M3]. intros p s Hp. rewrite M3. simpl. eauto.
Qed.

(** *** Resuming *)

Lemma signals_idle p sys sys' : (forall q, objects sys !! q <> Some Draining) -> others_signal p sys sys' -> sys' = sys.
Proof.
  intros Hi Hr. induction Hr as [sys|sys1 sys2 sys3 (q & _ & Hsig) _ IH]; [done|].
  apply signal_inv in Hsig. destruct Hsig as [_|n Hd _]; [by apply IH|by destruct (Hi q)].
Qed.

(** The loop of [resume] has resumed [l1] and has [l2] before it. *)
Record resumed_upto (l1 l2 : list obj) (sys : System) : Prop := {
  ru_all : all_drainable sys = l1 ++ l2;
  ru_live : live sys;
  ru_state : state sys = Resuming;
  ru_count : count sys = 0;
  ru_done : forall p, p ∈ l1 -> objects sys !! p = Some Running;
  ru_todo : forall p, p ∈ l2 -> objects sys !! p = Some Drained
}.

Lemma resumed_idle l1 l2 sys q : resumed_upto l1 l2 sys -> objects sys !! q <> Some Draining.
Proof.
  intros [R1 R2 _ _ R5 R6] E. assert (q ∈ l1 ++ l2) as Hq by (rewrite <- R1; apply (lv_all _ R2); by eexists).
  apply elem_of_app in Hq as [Hq|Hq]; [rewrite (R5 q Hq) in E|rewrite (R6 q Hq) in E]; done.
Qed.

Lemma resume_one_spec l1 p l2 u sys :
  resumed_upto l1 (p :: l2) sys -> wp (resume_one drainResume p (u, sys)) (fun '(_, sys') => resumed_upto (l1 ++ [p]) l2 sys').
Proof.
  intros Hr. pose proof Hr as [R1 R2 R3 R4 R5 R6]. assert (p ∈ all_drainable sys) as Hp by (rewrite R1; set_solver).
  pose proof (lv_nodup _ R2) as Hnd. rewrite R1 in Hnd. apply NoDup_app in Hnd as (_ & Hdis & Hnd). apply NoDup_cons in Hnd as [Hp2 _].
  assert (resumed_upto (l1 ++ [p]) l2 (set_drainState p Running sys)) as Hnew.
  { split; simpl; try done; [by rewrite <- app_assoc|by apply (live_set sys _ p Running)| |].
    - intros q Hq. rewrite lookup_insert. case_decide; [done|]. apply R5. set_solver.
    - intros q Hq. rewrite lookup_insert_ne by (intros ->; done). apply R6. set_solver. }
  unfold resume_one, dmDrainResume, drainState. simpl. rewrite (R6 p) by set_solver. simpl.
  eapply wp_mono; [apply (resume_ok p u (set_drainState p Running sys) Hp)|]. intros [u' sys'] Hsig.
  apply signals_idle in Hsig as ->; [done|]. intros q. by apply (resumed_idle _ _ _ q Hnew).
Qed.

Lemma resume_all_spec l2 l1 u sys :
  resumed_upto l1 l2 sys ->
  wp (for_each (l1 ++ l2) l2 (resume_one drainResume) (u, sys)) (fun '(_, sys') => resumed_upto (l1 ++ l2) [] sys').
Proof.
  revert l1 u sys. induction l2 as [|p l2 IH]; intros l1 u sys Hd; simpl; [by rewrite app_nil_r|].
  apply wp_bind. eapply wp_mono; [by apply resume_one_spec|]. intros [u' sys'] Hd'. simpl.
  replace (l1 ++ p :: l2) with ((l1 ++ [p]) ++ l2) by (by rewrite <- app_assoc).
  rewrite bool_decide_true by apply Hd'. simpl. by apply IH.
Qed.

Lemma allInState_true s sys : (forall p, p ∈ all_drainable sys -> objects sys !! p = Some s) -> allInState s sys = Some true.
Proof.
  unfold allInState, drainState. generalize (all_drainable sys) as l. induction l as [|p l IH]; [done|]. intros Hs. simpl.
  rewrite (Hs p) by set_solver. simpl. rewrite decide_True by done. apply IH. intros q Hq. apply Hs. set_solver.
Qed.

(** Objects of a system whose drain has finished are drained. *)
Lemma counted_drained sys p :
  counted sys -> count sys = 0 -> state sys = Draining \/ state sys = Drained -> p ∈ all_drainable sys -> objects sys !! p = Some Drained.
Proof.
  intros [C1 C2 C3 C4] Hc Hs Hp. destruct (proj1 (lv_all _ C1 p) Hp) as [s E]. specialize (C3 p s E).
  assert (objects sys !! p <> Some Draining) as Hn by (apply (proj1 (dcount_zero _ _) ltac:(by rewrite <- C2) p Hp)).
  destruct Hs as [Hs|Hs]; rewrite Hs in C3; simpl in C3; naive_solver.
Qed.

(** [resume] needs one pass over the objects. *)
Lemma resume_spec (fuel : nat) u sys :
  counted sys -> count sys = 0 -> state sys = Draining \/ state sys = Drained -> (0 < fuel)%nat ->
  wp (resume drainResume fuel (u, sys)) (fun '(_, sys') => counted sys' /\ state sys' = Running /\ all_drainable sys' = all_drainable sys).
Proof.
  intros Hc H0 Hs Hf. destruct fuel as [|fuel]; [lia|]. unfold resume. rewrite !bool_decide_false by (destruct Hs as [-> | ->]; done).
  simpl. rewrite H0. simpl. apply wp_bind, wp_bind. eapply wp_mono; [apply (resume_all_spec (all_drainable sys) [])|].
  { split; simpl; try done; [by apply (live_ext sys); [apply Hc|..]|set_solver|]. intros p Hp. by apply counted_drained. }
  intros [u' sys'] [R1 R2 R3 R4 R5 _]. rewrite app_nil_r in *. simpl in *. rewrite allInState_true by (rewrite R1; apply R5). simpl.
  split; [|done]. split; simpl; [by apply (live_ext sys')| | |done].
  - rewrite R4. symmetry. apply dcount_zero. intros p Hp. rewrite R1 in Hp. by rewrite (R5 p Hp).
  - intros p s E. assert (p ∈ all_drainable sys) as Hp by (rewrite <- R1; apply (lv_all _ R2); by eexists). rewrite (R5 p Hp) in E. congruence.
Qed.
End Manager.

(** ** The other operations *)

Lemma all_set_drained l sys :
  let f := foldl (fun sys p => set_drainState p Drained sys) sys l in
  all_drainable f = all_drainable sys /\ state f = state sys /\ count f = count sys /\
  forall p, objects f !! p = if decide (p ∈ l) then Some Drained else objects sys !! p.
Proof.
  induction l as [|q l IH] using rev_ind; [done|]. rewrite foldl_app. simpl in *. destruct IH as (I1 & I2 & I3 & I4).
  do 3 (split; [done|]). intros p. rewrite lookup_insert, I4. repeat case_decide; set_solver.
Qed.

Lemma restore_spec sys :
  counted sys -> state sys = Running ->
  wp (preCheckpointRestore sys) (fun sys' => counted sys' /\ state sys' = Drained /\ all_drainable sys' = all_drainable sys).
Proof.
  intros [C1 C2 C3 C4] Hs. unfold preCheckpointRestore. rewrite bool_decide_true by done. simpl.
  destruct (all_set_drained (all_drainable sys) (set_state Drained sys)) as (F1 & F2 & F3 & F4). set (f := foldl _ _ _) in *. simpl in *.
  assert (forall p s, objects f !! p = Some s -> s = Drained) as Hd.
  { intros p s. rewrite F4. case_decide as Hp; [congruence|]. intros E. exfalso. apply Hp, (lv_all _ C1). by eexists. }
  split; [|done]. split; [| | |by rewrite F2].
  - destruct C1 as [L1 L2 L3]. split; rewrite F1; try done. intros p. rewrite F4. case_decide; [naive_solver|]. apply L2.
  - rewrite F1, F3, (counted_idle sys) by (done || by rewrite Hs). symmetry. apply dcount_zero. intros p _ E. by apply Hd in E.
  - intros p s E. rewrite F2. by apply Hd in E.
Qed.

Lemma new_spec p sys :
  counted sys -> state sys = Running \/ state sys = Drained -> objects sys !! p = None -> zlen (all_drainable sys) + 1 < 2 ^ 32 ->
  wp (Drainable_new p sys) counted.
Proof.
  intros [[L1 L2 L3] C2 C3 C4] Hs Hp Hz. assert (p ∉ all_drainable sys) as Hn by (intros Hin; apply L2 in Hin as [? ?]; congruence).
  unfold Drainable_new, registerDrainable. rewrite bool_decide_true by done. simpl. rewrite bool_decide_true by done. simpl.
  assert (state sys <> Draining) as Hnd by (destruct Hs as [-> | ->]; done).
  split; simpl; [| | |done].
  - split; simpl; [apply NoDup_app; split; [done|]; split; [set_solver|apply NoDup_singleton]| |by rewrite zlen_app].
    intros q. rewrite elem_of_app, list_elem_of_singleton, lookup_insert_is_Some, L2. destruct (decide (p = q)); naive_solver.
  - rewrite dcount_app, dcount_notin, C2 by done. simpl. rewrite lookup_insert_eq, decide_False by congruence. lia.
  - intros q s. rewrite lookup_insert. case_decide; [|apply C3]. intros [= <-]. destruct Hs as [-> | ->]; done.
Qed.

Lemma erase_first_notin p l : p ∉ l -> erase_first p l = l.
Proof. induction l as [|q l IH]; [done|]. intros Hp. simpl. rewrite decide_False by set_solver. rewrite IH by set_solver. done. Qed.

Lemma erase_first_spec p l q : NoDup l -> q ∈ erase_first p l <-> q <> p /\ q ∈ l.
Proof.
  induction l as [|x l IH]; [set_solver|]. intros Hnd. apply NoDup_cons in Hnd as [Hx Hnd]. simpl.
  case_decide as E; [subst x; set_solver|]. rewrite !elem_of_cons, IH by done. naive_solver.
Qed.

Lemma erase_first_NoDup p l : NoDup l -> NoDup (erase_first p l).
Proof.
  induction l as [|x l IH]; [done|]. intros Hnd. pose proof (NoDup_cons_1_1 _ _ Hnd) as Hx. apply NoDup_cons in Hnd as [_ Hnd]. simpl.
  case_decide; [done|]. apply NoDup_cons. split; [|by apply IH]. rewrite erase_first_spec by done. tauto.
Qed.

Lemma erase_first_len p l : zlen (erase_first p l) <= zlen l.
Proof. unfold zlen. induction l as [|x l IH]; simpl; [lia|]. case_decide; simpl; lia. Qed.

Lemma dcount_delete_notin m l p : p ∉ l -> dcount (delete p m) l = dcount m l.
Proof. induction l as [|q l IH]; [done|]. intros Hp. simpl. rewrite IH by set_solver. rewrite lookup_delete_ne by set_solver. done. Qed.

(** An object that is not draining does not count. *)
Lemma dcount_erase m l p : NoDup l -> m !! p <> Some Draining -> dcount (delete p m) (erase_first p l) = dcount m l.
Proof.
  intros Hnd Hp. induction l as [|q l IH]; [done|]. apply NoDup_cons in Hnd as [Hq Hnd]. simpl. case_decide as E.
  - subst q. rewrite dcount_delete_notin by done. by rewrite decide_False.
  - simpl. rewrite IH by done. by rewrite lookup_delete_ne by done.
Qed.

Lemma delete_spec p sys :
  counted sys -> objects sys !! p <> Some Draining -> p ∈ all_drainable sys -> wp (Drainable_delete p sys) counted.
Proof.
  intros Hc Hs Hp. pose proof Hc as [[L1 L2 L3] C2 C3 C4]. destruct (proj1 (L2 p) Hp) as [s E].
  unfold Drainable_delete, unregisterDrainable, drainState. rewrite E. simpl. rewrite bool_decide_true by done. simpl.
  assert (forall q s', delete p (objects sys) !! q = Some s' -> objects sys !! q = Some s') as Hdel
    by (intros q s'; rewrite lookup_delete; by case_decide).
  split; simpl; [| | |done].
  - split; simpl; [by apply erase_first_NoDup| |pose proof (erase_first_len p (all_drainable sys)); lia].
    intros q. rewrite erase_first_spec, L2, lookup_delete by done. destruct (decide (p = q)) as [->|]; [|naive_solver].
    split; [naive_solver|]. intros [? ?]. done.
  - by rewrite dcount_erase.
  - intros q s' Hq. by apply (C3 q), Hdel.
Qed.
