(* ===== verification/DrainTheorems.v ===== *)
(** * DrainTheorems: what the drain protocol promises

    The manager's counter is right in every reachable state, so a drain ends
    exactly when every object has finished, and a drained system resumes in one
    pass; and what happens to objects that are created while the system drains
    or resumes. *)

From stdpp Require Import prelude gmap.
From Stdlib Require Import ZArith Lia.
From S2P Require Import Prelude Machine Drain DrainCorrect.
Import Drain.

Lemma new_counted : counted DrainManager_new.
Proof.
  split; simpl; [|done|by intros p s; rewrite lookup_empty|done]. split; simpl; [apply NoDup_nil_2| |done].
  intros p. rewrite lookup_empty. split; [set_solver|]. by intros [? ?].
Qed.

Section Steps.
Context {U : Type} (drain : obj -> U * System -> option (DrainState * (U * System))).
Context (drainResume : obj -> U * System -> option (U * System)).

(** What happens in a system: simulation that leaves the drain states alone, a
    signal of an object, the operations of the manager, the creation of objects
    while the system is not draining (see [drain_new_object] for the other case), and
    the destruction of objects that are not draining themselves. *)
Inductive dstep : U * System -> U * System -> Prop :=
| dstep_work u u' sys : dstep (u, sys) (u', sys)
| dstep_signal u p sys sys' : p ∈ all_drainable sys -> signalDrainDone p sys = Some sys' -> dstep (u, sys) (u, sys')
| dstep_try us b us' : tryDrain drain us = Some (b, us') -> dstep us us'
| dstep_resume fuel us us' : resume drainResume fuel us = Some us' -> dstep us us'
| dstep_restore u sys sys' : preCheckpointRestore sys = Some sys' -> dstep (u, sys) (u, sys')
| dstep_new u p sys sys' :
    state sys <> Draining -> zlen (all_drainable sys) + 1 < 2 ^ 32 -> Drainable_new p sys = Some sys' -> dstep (u, sys) (u, sys')
| dstep_delete u p sys sys' : objects sys !! p <> Some Draining -> Drainable_delete p sys = Some sys' -> dstep (u, sys) (u, sys').

Context {DC : DrainContract drain drainResume}.

(** An assertion that has succeeded. *)
Lemma asserted {X} b (k : unit -> option X) x : (r ← assert_ b; k r) = Some x -> b = true /\ k tt = Some x.
Proof. by destruct b. Qed.

Lemma tryDrain_counted us b us' : tryDrain drain us = Some (b, us') -> counted us.2 -> counted us'.2.
Proof.
  destruct us as [u sys]. intros E Hc. pose proof E as E'. unfold tryDrain in E'. apply asserted in E' as [H1 E'].
  apply asserted in E' as [H2 _]. rewrite negb_true_iff, bool_decide_eq_false in H1. apply Z.eqb_eq in H2.
  pose proof (wp_some _ _ _ E (tryDrain_spec drain drainResume u sys Hc H1 H2)) as H. destruct us' as [u' sys']. apply H.
Qed.

Lemma resume_counted fuel us us' : resume drainResume fuel us = Some us' -> counted us.2 -> counted us'.2.
Proof.
  destruct us as [u sys]. intros E Hc. pose proof E as E'. unfold resume in E'. apply asserted in E' as [H1 E'].
  apply asserted in E' as [H2 E']. apply asserted in E' as [H3 E']. rewrite negb_true_iff, bool_decide_eq_false in H1, H2. apply Z.eqb_eq in H3.
  assert (0 < fuel)%nat as Hf by (destruct fuel; [done|lia]).
  assert (state sys = Draining \/ state sys = Drained) as Hs by (destruct (state sys); auto; done).
  pose proof (wp_some _ _ _ E (resume_spec drain drainResume fuel u sys Hc H3 Hs Hf)) as H. destruct us' as [u' sys']. apply H.
Qed.

Lemma dstep_counted us us' : dstep us us' -> counted us.2 -> counted us'.2.
Proof.
  intros Hs Hc. destruct Hs as [u u' sys|u p sys sys' Hp E|us b us' E|fuel us us' E|u sys sys' E|u p sys sys' Hs Hz E|u p sys sys' Hs E];
    simpl in *; [done| |by eapply tryDrain_counted|by eapply resume_counted| | |].
  - exact (proj1 (wp_some _ _ _ E (signal_counted p sys Hc Hp))).
  - assert (state sys = Running) as Hr by (unfold preCheckpointRestore in E; apply asserted in E as [H _]; by apply bool_decide_eq_true in H).
    exact (proj1 (wp_some _ _ _ E (restore_spec sys Hc Hr))).
  - apply (wp_some _ _ _ E), new_spec; try done; [pose proof (ct_state _ Hc); destruct (state sys); auto; done|].
    unfold Drainable_new in E. apply asserted in E as [H _]. by apply bool_decide_eq_true in H.
  - apply (wp_some _ _ _ E), delete_spec; try done. unfold Drainable_delete, unregisterDrainable in E.
    destruct (drainState p sys); [|done]. simpl in E. case_bool_decide; done.
Qed.

Lemma reachable_counted us us' : rtc dstep us us' -> counted us.2 -> counted us'.2.
Proof. induction 1; [done|]. intros Hc. eauto using dstep_counted. Qed.

(** C16: the drain protocol.  The steps are simulation, signals of objects, [tryDrain], [resume],
    [preCheckpointRestore], the creation of objects while the system is not draining
    and the destruction of objects that are not draining; [drain] answers [Draining] or
    [Drained], and both it and [drainResume] do nothing else to the drain states than
    let other objects signal (they create no objects).  In every state the steps reach from a
    new manager, its counter is the number of objects that are draining; no signal of
    an object fails; a drain that may be started runs to its end and reports success
    exactly when every object is drained; and in a drained system every object is. *)
Theorem drain_protocol u u' sys :
  rtc dstep (u, DrainManager_new) (u', sys) ->
  count sys = dcount (objects sys) (all_drainable sys) /\
  (state sys = Drained -> forall p, p ∈ all_drainable sys -> objects sys !! p = Some Drained) /\
  (forall p, p ∈ all_drainable sys -> is_Some (signalDrainDone p sys)) /\
  (state sys <> Drained -> count sys = 0 -> wp (tryDrain drain (u', sys)) (fun '(b, (_, sys')) => tried sys b sys')).
Proof.
  intros Hr. pose proof (reachable_counted _ _ Hr new_counted) as Hc. simpl in Hc. split; [apply Hc|]. split; [|split].
  - intros Hs p Hp. apply counted_drained; auto. apply counted_idle; [done|]. by rewrite Hs.
  - intros p Hp. pose proof (signal_counted p sys Hc Hp) as H. by destruct (signalDrainDone p sys).
  - intros Hs H0. by apply (tryDrain_spec drain drainResume).
Qed.

(** A system whose objects have all finished draining resumes: [resume] comes to
    an end after one pass over the objects, with every object running. *)
Theorem drain_resume u u' sys (fuel : nat) :
  rtc dstep (u, DrainManager_new) (u', sys) -> state sys = Draining \/ state sys = Drained -> count sys = 0 -> (0 < fuel)%nat ->
  wp (resume drainResume fuel (u', sys)) (fun '(_, sys') => state sys' = Running /\ all_drainable sys' = all_drainable sys /\
    forall p, p ∈ all_drainable sys -> objects sys' !! p = Some Running).
Proof.
  intros Hr Hs H0 Hf. pose proof (reachable_counted _ _ Hr new_counted) as Hc. simpl in Hc.
  eapply wp_mono; [by apply (resume_spec drain drainResume)|]. intros [u2 sys2] (Hc2 & Hs2 & Ha). do 2 (split; [done|]).
  intros p Hp. rewrite <- Ha in Hp. destruct (proj1 (lv_all _ (ct_live _ Hc2) p) Hp) as [s E]. pose proof (ct_agrees _ Hc2 p s E) as A.
  rewrite Hs2 in A. simpl in A. congruence.
Qed.
End Steps.

(** An object that is created while the system drains is not counted.  It
    inherits the state [Draining], so its signal counts down for another object:
    the simulation loop is left as if the drain had finished while [p] is still
    draining, and the signal of [p] fails the assertion of the manager. *)
Theorem drain_new_object p q sys :
  counted sys -> state sys = Draining -> count sys = 1 -> objects sys !! p = Some Draining -> objects sys !! q = None ->
  exists sys1 sys2, Drainable_new q sys = Some sys1 /\ signalDrainDone q sys1 = Some sys2 /\
    exits sys2 = S (exits sys) /\ objects sys2 !! p = Some Draining /\ signalDrainDone p sys2 = None.
Proof.
  intros Hc Hs H1 Hp Hq. assert (q ∉ all_drainable sys) as Hn.
  { intros Hin. apply (lv_all _ (ct_live _ Hc)) in Hin as [? ?]. congruence. }
  assert (p <> q) as Hne by congruence.
  unfold Drainable_new, registerDrainable. rewrite bool_decide_true by done. simpl. rewrite bool_decide_true by done. simpl.
  do 2 eexists. split; [done|]. unfold signalDrainDone, manager_signalDrainDone, drainState. simpl. rewrite lookup_insert_eq, Hs. simpl.
  rewrite H1. simpl. split; [done|]. simpl. split; [done|]. rewrite !lookup_insert_ne, Hp by done. done.
Qed.

(** ** Witnesses *)

(** Object 1 needs the system to run on before it is drained, the others do not. *)
Definition slow_drain (p : obj) (us : unit * System) : option (DrainState * (unit * System)) :=
  Some (if decide (p = 1%positive) then Draining else Drained, us).
Definition quick_resume (p : obj) (us : unit * System) : option (unit * System) := Some us.

#[export] Instance slow_contract : DrainContract slow_drain quick_resume.
Proof.
  split; intros p u sys Hp; simpl.
  - split; [case_decide; auto|apply rtc_refl].
  - apply rtc_refl.
Qed.

Definition two_objects : System := default DrainManager_new (sys ← Drainable_new 1%positive DrainManager_new; Drainable_new 2%positive sys).
Definition two_draining : System := default two_objects (snd <$> (snd <$> tryDrain slow_drain (tt, two_objects))).
Definition two_signalled : System := default two_objects (signalDrainDone 1%positive two_draining).

Lemma two_reachable : rtc (dstep slow_drain quick_resume) (tt, DrainManager_new) (tt, two_draining).
Proof.
  eapply rtc_l; [apply (dstep_new _ _ tt 1%positive); [done|done|reflexivity]|].
  eapply rtc_l; [apply (dstep_new _ _ tt 2%positive); [done|done|reflexivity]|].
  eapply rtc_l; [eapply (dstep_try _ _ _ false); reflexivity|]. apply rtc_refl.
Qed.

Lemma drain_protocol_witness : count two_draining = 1 /\ dcount (objects two_draining) (all_drainable two_draining) = 1.
Proof.
  destruct (drain_protocol slow_drain quick_resume tt tt two_draining two_reachable) as (H & _). split; [reflexivity|]. by rewrite <- H.
Defined.

Lemma drain_resume_witness :
  wp (resume quick_resume 1 (tt, two_signalled)) (fun '(_, sys') => state sys' = Running /\ objects sys' !! 1%positive = Some Running).
Proof.
  eapply wp_mono; [apply (drain_resume slow_drain quick_resume tt tt two_signalled 1)|].
  - eapply rtc_r; [exact two_reachable|]. apply (dstep_signal _ _ tt 1%positive); [|reflexivity].
    change (all_drainable two_draining) with [1%positive; 2%positive]. set_solver.
  - left. reflexivity.
  - reflexivity.
  - lia.
  - intros [u sys] (H1 & _ & H2). split; [done|]. apply H2. change (all_drainable two_signalled) with [1%positive; 2%positive]. set_solver.
Defined.

Lemma drain_new_object_witness :
  exists sys1 sys2, Drainable_new 3%positive two_draining = Some sys1 /\ signalDrainDone 3%positive sys1 = Some sys2 /\
    exits sys2 = 1%nat /\ signalDrainDone 1%positive sys2 = None.
Proof.
  destruct (drain_new_object 1 3 two_draining) as (sys1 & sys2 & H1 & H2 & H3 & _ & H4); [|reflexivity ..|by exists sys1, sys2].
  exact (reachable_counted slow_drain quick_resume _ _ two_reachable new_counted).
Defined.

(** ** Creating an object while resuming *)

(** The comment in [drain.hh] allows [drainResume] to create objects; the constructor
    appends to the vector that the loop of [resume] runs over. *)
Definition creating_resume (p : obj) (us : unit * System) : option (unit * System) :=
  if decide (p = 1%positive) then sys ← Drainable_new 3%positive us.2; Some (us.1, sys) else Some us.

Example resume_creates : resume creating_resume 5 (tt, two_signalled) = None.
Proof. by vm_compute. Qed.
