(* ===== verification/Packet.v ===== *)
(** * Packet: memory-system packets

    Translates [gem5-X-TiC-SAT/src/mem/packet.hh], [packet.cc] and
    [packet_access.hh], and the byte swapping of [sim/byteswap.hh].  A packet is a
    record of its members; its data pointer is an address in a store of byte
    buffers, so packets that share static data share a buffer.  The stack of
    sender states is a list of their addresses.  A failing [assert], [panic],
    and a copy out of range or between overlapping parts of one buffer are
    [None].  Labels and printing of PrintReq packets, and the packet id, are
    left out; the host is little endian. *)

From stdpp Require Import prelude gmap strings.
From Stdlib Require Import ZArith Lia.
From S2P Require Import Prelude Machine EventQueue.

Open Scope Z_scope.

Module Pkt.

(** ** Commands *)

Inductive Command :=
  | InvalidCmd | ReadReq | ReadResp | ReadRespWithInvalidate | WriteReq | WriteResp
  | WritebackDirty | WritebackClean | WriteClean | CleanEvict | SoftPFReq | HardPFReq
  | SoftPFResp | HardPFResp | WriteLineReq | UpgradeReq | SCUpgradeReq | UpgradeResp
  | SCUpgradeFailReq | UpgradeFailResp | ReadExReq | ReadExResp | ReadCleanReq | ReadSharedReq
  | LoadLockedReq | StoreCondReq | StoreCondFailReq | StoreCondResp | SwapReq | SwapResp
  | MessageReq | MessageResp | MemFenceReq | MemFenceResp | CleanSharedReq | CleanSharedResp
  | CleanInvalidReq | CleanInvalidResp | InvalidDestError | BadAddressError
  | FunctionalReadError | FunctionalWriteError | PrintReq | FlushReq | InvalidateReq
  | InvalidateResp.

Inductive Attribute :=
  | IsRead | IsWrite | IsUpgrade | IsInvalidate | IsClean | NeedsWritable | IsRequest
  | IsResponse | NeedsResponse | IsEviction | IsSWPrefetch | IsHWPrefetch | IsLlsc | HasData
  | IsError | IsPrint | IsFlush | FromCache.

#[export] Instance Command_eq_dec : EqDecision Command.
Proof. solve_decision. Defined.

(** The numbers of the two enumerations. *)
Definition commands : list Command :=
  [InvalidCmd; ReadReq; ReadResp; ReadRespWithInvalidate; WriteReq; WriteResp; WritebackDirty;
  WritebackClean; WriteClean; CleanEvict; SoftPFReq; HardPFReq; SoftPFResp; HardPFResp;
  WriteLineReq; UpgradeReq; SCUpgradeReq; UpgradeResp; SCUpgradeFailReq; UpgradeFailResp;
  ReadExReq; ReadExResp; ReadCleanReq; ReadSharedReq; LoadLockedReq; StoreCondReq;
  StoreCondFailReq; StoreCondResp; SwapReq; SwapResp; MessageReq; MessageResp; MemFenceReq;
  MemFenceResp; CleanSharedReq; CleanSharedResp; CleanInvalidReq; CleanInvalidResp;
  InvalidDestError; BadAddressError; FunctionalReadError; FunctionalWriteError; PrintReq;
  FlushReq; InvalidateReq; InvalidateResp].

Definition toInt (c : Command) : Z :=
  match c with
  | InvalidCmd => 0 | ReadReq => 1 | ReadResp => 2 | ReadRespWithInvalidate => 3
  | WriteReq => 4 | WriteResp => 5 | WritebackDirty => 6 | WritebackClean => 7
  | WriteClean => 8 | CleanEvict => 9 | SoftPFReq => 10 | HardPFReq => 11 | SoftPFResp => 12
  | HardPFResp => 13 | WriteLineReq => 14 | UpgradeReq => 15 | SCUpgradeReq => 16
  | UpgradeResp => 17 | SCUpgradeFailReq => 18 | UpgradeFailResp => 19 | ReadExReq => 20
  | ReadExResp => 21 | ReadCleanReq => 22 | ReadSharedReq => 23 | LoadLockedReq => 24
  | StoreCondReq => 25 | StoreCondFailReq => 26 | StoreCondResp => 27 | SwapReq => 28
  | SwapResp => 29 | MessageReq => 30 | MessageResp => 31 | MemFenceReq => 32
  | MemFenceResp => 33 | CleanSharedReq => 34 | CleanSharedResp => 35 | CleanInvalidReq => 36
  | CleanInvalidResp => 37 | InvalidDestError => 38 | BadAddressError => 39
  | FunctionalReadError => 40 | FunctionalWriteError => 41 | PrintReq => 42 | FlushReq => 43
  | InvalidateReq => 44 | InvalidateResp => 45
  end.

Definition attr_bit (a : Attribute) : Z :=
  match a with
  | IsRead => 0 | IsWrite => 1 | IsUpgrade => 2 | IsInvalidate => 3 | IsClean => 4
  | NeedsWritable => 5 | IsRequest => 6 | IsResponse => 7 | NeedsResponse => 8
  | IsEviction => 9 | IsSWPrefetch => 10 | IsHWPrefetch => 11 | IsLlsc => 12 | HasData => 13
  | IsError => 14 | IsPrint => 15 | IsFlush => 16 | FromCache => 17
  end.

Record CommandInfo := mkInfo { attributes : Z; response : Command; str : string }.

(** [SET1], ..., [SET7]. *)
Definition SET (l : list Attribute) : Z := foldr (fun a m => Z.lor (Z.shiftl 1 (attr_bit a)) m) 0 l.

Definition commandInfo : list CommandInfo :=
  [mkInfo (SET []) InvalidCmd "InvalidCmd";
   mkInfo (SET [IsRead; IsRequest; NeedsResponse]) ReadResp "ReadReq";
   mkInfo (SET [IsRead; IsResponse; HasData]) InvalidCmd "ReadResp";
   mkInfo (SET [IsRead; IsResponse; HasData; IsInvalidate]) InvalidCmd "ReadRespWithInvalidate";
   mkInfo (SET [IsWrite; NeedsWritable; IsRequest; NeedsResponse; HasData]) WriteResp "WriteReq";
   mkInfo (SET [IsWrite; IsResponse]) InvalidCmd "WriteResp";
   mkInfo (SET [IsWrite; IsRequest; IsEviction; HasData; FromCache]) InvalidCmd "WritebackDirty";
   mkInfo (SET [IsWrite; IsRequest; IsEviction; HasData; FromCache]) InvalidCmd "WritebackClean";
   mkInfo (SET [IsWrite; IsRequest; HasData; FromCache]) InvalidCmd "WriteClean";
   mkInfo (SET [IsRequest; IsEviction; FromCache]) InvalidCmd "CleanEvict";
   mkInfo (SET [IsRead; IsRequest; IsSWPrefetch; NeedsResponse]) SoftPFResp "SoftPFReq";
   mkInfo (SET [IsRead; IsRequest; IsHWPrefetch; NeedsResponse; FromCache]) HardPFResp "HardPFReq";
   mkInfo (SET [IsRead; IsResponse; IsSWPrefetch; HasData]) InvalidCmd "SoftPFResp";
   mkInfo (SET [IsRead; IsResponse; IsHWPrefetch; HasData]) InvalidCmd "HardPFResp";
   mkInfo (SET [IsWrite; NeedsWritable; IsRequest; NeedsResponse; HasData]) WriteResp "WriteLineReq";
   mkInfo (SET [IsInvalidate; NeedsWritable; IsUpgrade; IsRequest; NeedsResponse; FromCache]) UpgradeResp "UpgradeReq";
   mkInfo (SET [IsInvalidate; NeedsWritable; IsUpgrade; IsLlsc; IsRequest; NeedsResponse; FromCache]) UpgradeResp "SCUpgradeReq";
   mkInfo (SET [IsUpgrade; IsResponse]) InvalidCmd "UpgradeResp";
   mkInfo (SET [IsRead; NeedsWritable; IsInvalidate; IsLlsc; IsRequest; NeedsResponse; FromCache]) UpgradeFailResp "SCUpgradeFailReq";
   mkInfo (SET [IsRead; IsResponse; HasData]) InvalidCmd "UpgradeFailResp";
   mkInfo (SET [IsRead; NeedsWritable; IsInvalidate; IsRequest; NeedsResponse; FromCache]) ReadExResp "ReadExReq";
   mkInfo (SET [IsRead; IsResponse; HasData]) InvalidCmd "ReadExResp";
   mkInfo (SET [IsRead; IsRequest; NeedsResponse; FromCache]) ReadResp "ReadCleanReq";
   mkInfo (SET [IsRead; IsRequest; NeedsResponse; FromCache]) ReadResp "ReadSharedReq";
   mkInfo (SET [IsRead; IsLlsc; IsRequest; NeedsResponse]) ReadResp "LoadLockedReq";
   mkInfo (SET [IsWrite; NeedsWritable; IsLlsc; IsRequest; NeedsResponse; HasData]) StoreCondResp "StoreCondReq";
   mkInfo (SET [IsWrite; NeedsWritable; IsLlsc; IsRequest; NeedsResponse; HasData]) StoreCondResp "StoreCondFailReq";
   mkInfo (SET [IsWrite; IsLlsc; IsResponse]) InvalidCmd "StoreCondResp";
   mkInfo (SET [IsRead; IsWrite; NeedsWritable; IsRequest; HasData; NeedsResponse]) SwapResp "SwapReq";
   mkInfo (SET [IsRead; IsWrite; IsResponse; HasData]) InvalidCmd "SwapResp";
   mkInfo (SET [IsWrite; IsRequest; NeedsResponse; HasData]) MessageResp "MessageReq";
   mkInfo (SET [IsWrite; IsResponse]) InvalidCmd "MessageResp";
   mkInfo (SET [IsRequest; NeedsResponse]) MemFenceResp "MemFenceReq";
   mkInfo (SET [IsResponse]) InvalidCmd "MemFenceResp";
   mkInfo (SET [IsRequest; IsClean; NeedsResponse; FromCache]) CleanSharedResp "CleanSharedReq";
   mkInfo (SET [IsResponse; IsClean]) InvalidCmd "CleanSharedResp";
   mkInfo (SET [IsRequest; IsInvalidate; IsClean; NeedsResponse; FromCache]) CleanInvalidResp "CleanInvalidReq";
   mkInfo (SET [IsResponse; IsInvalidate; IsClean]) InvalidCmd "CleanInvalidResp";
   mkInfo (SET [IsResponse; IsError]) InvalidCmd "InvalidDestError";
   mkInfo (SET [IsResponse; IsError]) InvalidCmd "BadAddressError";
   mkInfo (SET [IsRead; IsResponse; IsError]) InvalidCmd "FunctionalReadError";
   mkInfo (SET [IsWrite; IsResponse; IsError]) InvalidCmd "FunctionalWriteError";
   mkInfo (SET [IsRequest; IsPrint]) InvalidCmd "PrintReq";
   mkInfo (SET [IsRequest; IsFlush; NeedsWritable]) InvalidCmd "FlushReq";
   mkInfo (SET [IsInvalidate; IsRequest; NeedsWritable; NeedsResponse; FromCache]) InvalidateResp "InvalidateReq";
   mkInfo (SET [IsInvalidate; IsResponse]) InvalidCmd "InvalidateResp"].

Definition info (c : Command) : CommandInfo := default (mkInfo 0 InvalidCmd EmptyString) (aget commandInfo (toInt c)).

Definition testCmdAttrib (c : Command) (a : Attribute) : bool := Z.testbit (attributes (info c)) (attr_bit a).

Definition cmd_isRead (c : Command) : bool := testCmdAttrib c IsRead.
Definition cmd_isWrite (c : Command) : bool := testCmdAttrib c IsWrite.
Definition cmd_isRequest (c : Command) : bool := testCmdAttrib c IsRequest.
Definition cmd_isResponse (c : Command) : bool := testCmdAttrib c IsResponse.
Definition cmd_needsResponse (c : Command) : bool := testCmdAttrib c NeedsResponse.
Definition cmd_isEviction (c : Command) : bool := testCmdAttrib c IsEviction.
Definition cmd_isClean (c : Command) : bool := testCmdAttrib c IsClean.
Definition cmd_hasData (c : Command) : bool := testCmdAttrib c HasData.
Definition cmd_isWriteback (c : Command) : bool := testCmdAttrib c IsEviction && testCmdAttrib c HasData.
Definition cmd_isPrefetch (c : Command) : bool := testCmdAttrib c IsSWPrefetch || testCmdAttrib c IsHWPrefetch.
Definition responseCommand (c : Command) : Command := response (info c).
Definition toString (c : Command) : string := str (info c).

(** ** Packets *)

Definition COPY_FLAGS : Z := 0x3F.
Definition HAS_SHARERS : Z := 0x1.
Definition EXPRESS_SNOOP : Z := 0x2.
Definition RESPONDER_HAD_WRITABLE : Z := 0x4.
Definition CACHE_RESPONDING : Z := 0x8.
Definition WRITE_THROUGH : Z := 0x10.
Definition SATISFIED : Z := 0x20.
Definition VALID_ADDR : Z := 0x100.
Definition VALID_SIZE : Z := 0x200.
Definition STATIC_DATA : Z := 0x1000.
Definition DYNAMIC_DATA : Z := 0x2000.
Definition SUPPRESS_FUNC_ERROR : Z := 0x8000.
Definition BLOCK_CACHED : Z := 0x10000.

(** What a packet asks of its request. *)
Record Request := mkRequest {
  paddr : option Z;
  rsize : option Z;
  rsecure : bool;
  rLLSC : bool;
  rPrefetch : bool;
  rSwap : bool;
  rAtomic : bool;
  rCacheInvalidate : bool;
  rCacheClean : bool
}.

Record Packet := mkPacket {
  flags : Z;
  cmd : Command;
  req : positive;
  data : option positive;
  addr : Z;
  secure : bool;
  size : Z;
  bytesValid : list bool;
  headerDelay : Z;
  snoopDelay : Z;
  payloadDelay : Z;
  senderState : list positive
}.

Definition set_flags (f : Z) (p : Packet) : Packet :=
  mkPacket f (cmd p) (req p) (data p) (addr p) (secure p) (size p) (bytesValid p) (headerDelay p) (snoopDelay p) (payloadDelay p) (senderState p).
Definition set_cmd (c : Command) (p : Packet) : Packet :=
  mkPacket (flags p) c (req p) (data p) (addr p) (secure p) (size p) (bytesValid p) (headerDelay p) (snoopDelay p) (payloadDelay p) (senderState p).
Definition set_data (d : option positive) (p : Packet) : Packet :=
  mkPacket (flags p) (cmd p) (req p) d (addr p) (secure p) (size p) (bytesValid p) (headerDelay p) (snoopDelay p) (payloadDelay p) (senderState p).
Definition set_addr (a : Z) (p : Packet) : Packet :=
  mkPacket (flags p) (cmd p) (req p) (data p) a (secure p) (size p) (bytesValid p) (headerDelay p) (snoopDelay p) (payloadDelay p) (senderState p).
Definition set_size (n : Z) (p : Packet) : Packet :=
  mkPacket (flags p) (cmd p) (req p) (data p) (addr p) (secure p) n (bytesValid p) (headerDelay p) (snoopDelay p) (payloadDelay p) (senderState p).
Definition set_bytesValid (v : list bool) (p : Packet) : Packet :=
  mkPacket (flags p) (cmd p) (req p) (data p) (addr p) (secure p) (size p) v (headerDelay p) (snoopDelay p) (payloadDelay p) (senderState p).
Definition set_delays (h l : Z) (p : Packet) : Packet :=
  mkPacket (flags p) (cmd p) (req p) (data p) (addr p) (secure p) (size p) (bytesValid p) h (snoopDelay p) l (senderState p).
Definition set_senderState (s : list positive) (p : Packet) : Packet :=
  mkPacket (flags p) (cmd p) (req p) (data p) (addr p) (secure p) (size p) (bytesValid p) (headerDelay p) (snoopDelay p) (payloadDelay p) s.

Definition isRead (p : Packet) : bool := cmd_isRead (cmd p).
Definition isWrite (p : Packet) : bool := cmd_isWrite (cmd p).
Definition isRequest (p : Packet) : bool := cmd_isRequest (cmd p).
Definition isResponse (p : Packet) : bool := cmd_isResponse (cmd p).
Definition needsResponse (p : Packet) : bool := cmd_needsResponse (cmd p).
Definition hasData (p : Packet) : bool := cmd_hasData (cmd p).
Definition hasRespData (p : Packet) : bool := cmd_hasData (responseCommand (cmd p)).
Definition isError (p : Packet) : bool := testCmdAttrib (cmd p) IsError.
Definition isPrint (p : Packet) : bool := testCmdAttrib (cmd p) IsPrint.
Definition isLLSC (p : Packet) : bool := testCmdAttrib (cmd p) IsLlsc.
Definition needsWritable (p : Packet) : option bool :=
  _ ← assert_ (isRequest p); Some (testCmdAttrib (cmd p) NeedsWritable).

Definition cacheResponding (p : Packet) : bool := Flags.isSet (flags p) CACHE_RESPONDING.
Definition isExpressSnoop (p : Packet) : bool := Flags.isSet (flags p) EXPRESS_SNOOP.
Definition responderHadWritable (p : Packet) : bool := Flags.isSet (flags p) RESPONDER_HAD_WRITABLE.
Definition set_flag (f : Z) (p : Packet) : Packet := set_flags (Flags.set (flags p) f) p.

Definition setCacheResponding (p : Packet) : option Packet :=
  _ ← assert_ (isRequest p);
  _ ← assert_ (negb (Flags.isSet (flags p) CACHE_RESPONDING));
  Some (set_flag CACHE_RESPONDING p).

Definition setResponderHadWritable (p : Packet) : option Packet :=
  _ ← assert_ (cacheResponding p);
  _ ← assert_ (negb (responderHadWritable p));
  Some (set_flag RESPONDER_HAD_WRITABLE p).

Definition setWriteThrough (p : Packet) : option Packet :=
  _ ← assert_ (cmd_isWrite (cmd p) && (cmd_isEviction (cmd p) || bool_decide (cmd p = WriteClean)));
  Some (set_flag WRITE_THROUGH p).

Definition setSatisfied (p : Packet) : option Packet :=
  _ ← assert_ (cmd_isClean (cmd p));
  _ ← assert_ (negb (Flags.isSet (flags p) SATISFIED));
  Some (set_flag SATISFIED p).

Definition setBadAddress (p : Packet) : option Packet :=
  _ ← assert_ (isResponse p); Some (set_cmd BadAddressError p).

Definition copyError (pkt p : Packet) : option Packet := _ ← assert_ (isError pkt); Some (set_cmd (cmd pkt) p).

Definition getAddr (p : Packet) : option Z := _ ← assert_ (Flags.isSet (flags p) VALID_ADDR); Some (addr p).
Definition setAddr (a : Z) (p : Packet) : option Packet :=
  _ ← assert_ (Flags.isSet (flags p) VALID_ADDR); Some (set_addr a p).
Definition getSize (p : Packet) : option Z := _ ← assert_ (Flags.isSet (flags p) VALID_SIZE); Some (size p).
Definition isSecure (p : Packet) : option bool := _ ← assert_ (Flags.isSet (flags p) VALID_ADDR); Some (secure p).

Definition setSize (n : Z) (p : Packet) : option Packet :=
  _ ← assert_ (negb (Flags.isSet (flags p) VALID_SIZE)); Some (set_flag VALID_SIZE (set_size n p)).

(** [blk_size] is an [unsigned int]. *)
Definition getOffset (blk_size : Z) (p : Packet) : option Z := a ← getAddr p; Some (Z.land a (uint32 (blk_size - 1))).
Definition getBlockAddr (blk_size : Z) (p : Packet) : option Z :=
  a ← getAddr p; Some (Z.land a (uint64 (Z.lnot (uint32 (blk_size - 1))))).

Definition convertScToWrite (p : Packet) : option Packet :=
  _ ← assert_ (isLLSC p); _ ← assert_ (isWrite p); Some (set_cmd WriteReq p).
Definition convertLlToRead (p : Packet) : option Packet :=
  _ ← assert_ (isLLSC p); _ ← assert_ (isRead p); Some (set_cmd ReadReq p).

(** The constructors for a request, and for a block of [_blkSize] bytes (an [int]). *)
Definition Packet_new (r : positive) (q : Request) (c : Command) : Packet :=
  let p := mkPacket 0 c r None 0 false 0 [] 0 0 0 [] in
  let p := match paddr q with
           | Some a => mkPacket (Flags.set 0 VALID_ADDR) c r None a (rsecure q) 0 [] 0 0 0 []
           | None => p
           end in
  match rsize q with
  | Some n => set_flag VALID_SIZE (set_size n p)
  | None => p
  end.

Definition Packet_block (r : positive) (q : Request) (c : Command) (blkSize : Z) : Packet :=
  let p := match paddr q with
           | Some a => mkPacket (Flags.set 0 VALID_ADDR) c r None (Z.land a (uint64 (Z.lnot (blkSize - 1)))) (rsecure q) 0 [] 0 0 0 []
           | None => mkPacket 0 c r None 0 false 0 [] 0 0 0 []
           end in
  set_flag VALID_SIZE (set_size (uint32 blkSize) p).

Definition makeReadCmd (q : Request) : Command :=
  if rLLSC q then LoadLockedReq else if rPrefetch q then SoftPFReq else ReadReq.

Definition makeWriteCmd (q : Request) : Command :=
  if rLLSC q then StoreCondReq
  else if rSwap q || rAtomic q then SwapReq
  else if rCacheInvalidate q then (if rCacheClean q then CleanInvalidReq else InvalidateReq)
  else if rCacheClean q then CleanSharedReq
  else WriteReq.

Definition createRead (r : positive) (q : Request) : Packet := Packet_new r q (makeReadCmd q).
Definition createWrite (r : positive) (q : Request) : Packet := Packet_new r q (makeWriteCmd q).

Definition makeResponse (p : Packet) : option Packet :=
  _ ← assert_ (needsResponse p);
  _ ← assert_ (isRequest p);
  let p := set_cmd (responseCommand (cmd p)) p in
  Some (set_flags (Flags.clear (flags p) EXPRESS_SNOOP) p).

Definition setFunctionalResponseStatus (success : bool) (p : Packet) : Packet :=
  if success then p else set_cmd (if isWrite p then FunctionalWriteError else FunctionalReadError) p.

Definition pushSenderState (s : positive) (p : Packet) : Packet := set_senderState (s :: senderState p) p.
Definition popSenderState (p : Packet) : option (positive * Packet) :=
  match senderState p with
  | [] => None
  | s :: l => Some (s, set_senderState l p)
  end.

(** ** Data *)

Abbreviation Bufs := (gmap positive (list Z)).

(** [n] bytes of [s] from [soff] on over those of [d] from [doff] on. *)
Definition blit (d : list Z) (doff : Z) (s : list Z) (soff n : Z) : list Z :=
  mkarray (zlen d) (fun k => if (doff <=? k) && (k <? doff + n) then nthZ s (soff + (k - doff)) else nthZ d k).

Definition memcpy (dst : positive) (doff : Z) (src : positive) (soff n : Z) (b : Bufs) : option Bufs :=
  d ← b !! dst;
  s ← b !! src;
  _ ← assert_ ((0 <=? doff) && (doff + n <=? zlen d) && (0 <=? soff) && (soff + n <=? zlen s));
  _ ← assert_ (negb (bool_decide (dst = src)) || (doff + n <=? soff) || (soff + n <=? doff));
  Some (<[dst := blit d doff s soff n]> b).

Definition dataStatic (d : positive) (p : Packet) : option Packet :=
  _ ← assert_ (Flags.noneSet (flags p) (Z.lor STATIC_DATA DYNAMIC_DATA)); Some (set_flag STATIC_DATA (set_data (Some d) p)).
Definition dataDynamic (d : positive) (p : Packet) : option Packet :=
  _ ← assert_ (Flags.noneSet (flags p) (Z.lor STATIC_DATA DYNAMIC_DATA)); Some (set_flag DYNAMIC_DATA (set_data (Some d) p)).
Definition getPtr (p : Packet) : option positive :=
  _ ← assert_ (Flags.isSet (flags p) (Z.lor STATIC_DATA DYNAMIC_DATA)); data p.

(** [d] is a fresh address, [junk] what the new array holds. *)
Definition allocate (d : positive) (junk : list Z) (p : Packet) (b : Bufs) : option (Packet * Bufs) :=
  if hasData p || hasRespData p then
    _ ← assert_ (Flags.noneSet (flags p) (Z.lor STATIC_DATA DYNAMIC_DATA));
    n ← getSize p;
    _ ← assert_ (bool_decide (b !! d = None) && (zlen junk =? n));
    Some (set_data (Some d) (set_flag DYNAMIC_DATA p), <[d := junk]> b)
  else Some (p, b).

Definition deleteData (p : Packet) (b : Bufs) : option (Packet * Bufs) :=
  b ← (if Flags.isSet (flags p) DYNAMIC_DATA then d ← data p; _ ← b !! d; Some (delete d b) else Some b);
  Some (set_data None (set_flags (Flags.clear (flags p) (Z.lor STATIC_DATA DYNAMIC_DATA)) p), b).

(** The copying constructor; [snoopDelay] is not copied. *)
Definition Packet_copy (pkt : Packet) (clear_flags alloc_data : bool) (d : positive) (junk : list Z) (b : Bufs) : option (Packet * Bufs) :=
  let f := if clear_flags then 0 else Flags.set 0 (Z.land (flags pkt) COPY_FLAGS) in
  let f := Flags.set f (Z.land (flags pkt) (Z.lor VALID_ADDR VALID_SIZE)) in
  let p := mkPacket f (cmd pkt) (req pkt) None (addr pkt) (secure pkt) (size pkt) (bytesValid pkt)
             (headerDelay pkt) 0 (payloadDelay pkt) (senderState pkt) in
  if alloc_data then
    if Flags.isSet (flags pkt) STATIC_DATA then Some (set_flag STATIC_DATA (set_data (data pkt) p), b)
    else allocate d junk p b
  else Some (p, b).

(** [s] points [off] bytes into a buffer. *)
Definition setData (s : positive) (off : Z) (p : Packet) (b : Bufs) : option Bufs :=
  d ← getPtr p;
  let same := bool_decide (s = d) && (off =? 0) in
  _ ← assert_ (negb same || Flags.isSet (flags p) STATIC_DATA);
  if same then Some b else n ← getSize p; memcpy d 0 s off n b.

Definition setDataFromBlock (blk : positive) (blkSize : Z) (p : Packet) (b : Bufs) : option Bufs :=
  o ← getOffset (uint32 blkSize) p; setData blk o p b.

Definition writeData (d : positive) (off : Z) (p : Packet) (b : Bufs) : option Bufs :=
  s ← getPtr p; n ← getSize p; memcpy d off s 0 n b.

Definition writeDataToBlock (blk : positive) (blkSize : Z) (p : Packet) (b : Bufs) : option Bufs :=
  o ← getOffset (uint32 blkSize) p; writeData blk o p b.

(** ** Functional accesses *)

Definition all_valid (lo hi : Z) (v : list bool) (all : bool) : option bool :=
  for_up lo hi (fun i all => if (all : bool) then x ← aget v i; Some (all && x) else Some all) all.

Definition mark_valid (lo hi : Z) (v : list bool) : option (list bool) := for_up lo hi (fun i v => aset v i true) v.

(** [other] is the buffer of the other packet, [n] its size (an [int]). *)
Definition trySatisfyFunctional_data (a : Z) (is_secure : bool) (n : Z) (other : option positive) (p : Packet) (b : Bufs)
  : option (bool * Packet * Bufs) :=
  func_start ← getAddr p;
  func_size ← getSize p;
  let func_end := uint64 (func_start + func_size - 1) in
  let val_start := a in
  let val_end := uint64 (val_start + n - 1) in
  if negb (eqb is_secure (secure p)) || (val_end <? func_start) || (func_end <? val_start) then Some (false, p, b)
  else if isPrint p then _ ← assert_ (match other with None => true | Some _ => false end); Some (false, p, b)
  else
    match other with
    | None => Some (false, p, b)
    | Some o =>
        let val_offset := if val_start <? func_start then uint64 (func_start - val_start) else 0 in
        let func_offset := if func_start <? val_start then uint64 (val_start - func_start) else 0 in
        let overlap_size := uint64 (Z.min val_end func_end + 1 - Z.max val_start func_start) in
        if isRead p then
          d ← getPtr p;
          b ← memcpy d func_offset o val_offset overlap_size b;
          let v := match bytesValid p with [] => replicate (Z.to_nat func_size) false | v => v end in
          all ← all_valid 0 func_offset v true;
          v ← mark_valid func_offset (func_offset + overlap_size) v;
          all ← all_valid (func_offset + overlap_size) func_size v all;
          Some (all, set_bytesValid v p, b)
        else if isWrite p then
          d ← getPtr p;
          b ← memcpy o val_offset d func_offset overlap_size b;
          Some (false, p, b)
        else None
    end.

Definition trySatisfyFunctional (other p : Packet) (b : Bufs) : option (bool * Packet * Bufs) :=
  a ← getAddr other;
  s ← isSecure other;
  n ← getSize other;
  o ← (if hasData other then d ← getPtr other; Some (Some d) else Some None);
  trySatisfyFunctional_data a s (int32 n) o p b.

(** ** Words *)

Definition swap_byte64 (x : Z) : Z :=
  Z.lor (uint64 (Z.shiftl (Z.land x 0xff) 56)) (Z.lor (uint64 (Z.shiftl (Z.land x 0xff00) 40))
  (Z.lor (uint64 (Z.shiftl (Z.land x 0xff0000) 24)) (Z.lor (uint64 (Z.shiftl (Z.land x 0xff000000) 8))
  (Z.lor (Z.shiftr (Z.land x 0xff00000000) 8) (Z.lor (Z.shiftr (Z.land x 0xff0000000000) 24)
  (Z.lor (Z.shiftr (Z.land x 0xff000000000000) 40) (Z.shiftr (Z.land x 0xff00000000000000) 56))))))).
Definition swap_byte32 (x : Z) : Z :=
  Z.lor (uint32 (Z.shiftl (Z.land x 0xff) 24)) (Z.lor (uint32 (Z.shiftl (Z.land x 0xff00) 8))
  (Z.lor (Z.shiftr (Z.land x 0xff0000) 8) (Z.shiftr (Z.land x 0xff000000) 24))).
Definition swap_byte16 (x : Z) : Z :=
  Z.lor (wrapU 16 (Z.shiftl (Z.land x 0xff) 8)) (Z.shiftr (Z.land x 0xff00) 8).

(** [n] is [sizeof(T)]. *)
Definition swap_byte (n x : Z) : option Z :=
  if n =? 8 then Some (swap_byte64 x) else if n =? 4 then Some (swap_byte32 x)
  else if n =? 2 then Some (swap_byte16 x) else if n =? 1 then Some x else None.

Inductive ByteOrder := BigEndianByteOrder | LittleEndianByteOrder.

(** [htobe], [betoh], [htole] and [letoh]. *)
Definition in_order (e : ByteOrder) (n x : Z) : option Z :=
  match e with BigEndianByteOrder => swap_byte n x | LittleEndianByteOrder => Some x end.

(** The value of the first [n] bytes of a buffer, and a value as [n] bytes. *)
Fixpoint le_value (n : nat) (l : list Z) : Z :=
  match n, l with
  | S n, x :: l => x + 256 * le_value n l
  | _, _ => 0
  end.
Fixpoint le_bytes (n : nat) (x : Z) : list Z :=
  match n with
  | O => []
  | S n => x mod 256 :: le_bytes n (x / 256)
  end.

Definition getRaw (n : Z) (p : Packet) (b : Bufs) : option Z :=
  _ ← assert_ (Flags.isSet (flags p) (Z.lor STATIC_DATA DYNAMIC_DATA));
  _ ← assert_ (n <=? size p);
  d ← data p;
  l ← b !! d;
  _ ← assert_ (n <=? zlen l);
  Some (le_value (Z.to_nat n) l).

Definition setRaw (n x : Z) (p : Packet) (b : Bufs) : option Bufs :=
  _ ← assert_ (Flags.isSet (flags p) (Z.lor STATIC_DATA DYNAMIC_DATA));
  _ ← assert_ (n <=? size p);
  d ← data p;
  l ← b !! d;
  _ ← assert_ (n <=? zlen l);
  Some (<[d := le_bytes (Z.to_nat n) x ++ drop (Z.to_nat n) l]> b).

Definition get (n : Z) (e : ByteOrder) (p : Packet) (b : Bufs) : option Z :=
  x ← getRaw n p b; in_order e n x.

Definition set (n x : Z) (e : ByteOrder) (p : Packet) (b : Bufs) : option Bufs :=
  x ← in_order e n x; setRaw n x p b.

Definition word_size (n : Z) : bool := (n =? 1) || (n =? 2) || (n =? 4) || (n =? 8).

Definition getUintX (e : ByteOrder) (p : Packet) (b : Bufs) : option Z :=
  n ← getSize p; if word_size n then get n e p b else None.

Definition setUintX (w : Z) (e : ByteOrder) (p : Packet) (b : Bufs) : option Bufs :=
  n ← getSize p; if word_size n then set n (wrapU (8 * n) w) e p b else None.

(** ** The other attribute tests and snoop flags *)

Definition cmd_isUpgrade (c : Command) : bool := testCmdAttrib c IsUpgrade.
Definition cmd_needsWritable (c : Command) : bool := testCmdAttrib c NeedsWritable.
Definition cmd_isInvalidate (c : Command) : bool := testCmdAttrib c IsInvalidate.
Definition cmd_fromCache (c : Command) : bool := testCmdAttrib c FromCache.
Definition cmd_isSWPrefetch (c : Command) : bool := testCmdAttrib c IsSWPrefetch.
Definition cmd_isHWPrefetch (c : Command) : bool := testCmdAttrib c IsHWPrefetch.
Definition cmd_isFlush (c : Command) : bool := testCmdAttrib c IsFlush.

Definition isUpgrade (p : Packet) : bool := cmd_isUpgrade (cmd p).
Definition isInvalidate (p : Packet) : bool := cmd_isInvalidate (cmd p).
Definition isEviction (p : Packet) : bool := cmd_isEviction (cmd p).
Definition isClean (p : Packet) : bool := cmd_isClean (cmd p).
Definition fromCache (p : Packet) : bool := cmd_fromCache (cmd p).
Definition isWriteback (p : Packet) : bool := cmd_isWriteback (cmd p).
Definition isFlush (p : Packet) : bool := cmd_isFlush (cmd p).

Definition clear_flag (f : Z) (p : Packet) : Packet := set_flags (Flags.clear (flags p) f) p.

Definition setHasSharers (p : Packet) : Packet := set_flag HAS_SHARERS p.
Definition hasSharers (p : Packet) : bool := Flags.isSet (flags p) HAS_SHARERS.
Definition setExpressSnoop (p : Packet) : Packet := set_flag EXPRESS_SNOOP p.
Definition clearWriteThrough (p : Packet) : Packet := clear_flag WRITE_THROUGH p.
Definition writeThrough (p : Packet) : bool := Flags.isSet (flags p) WRITE_THROUGH.
Definition satisfied (p : Packet) : bool := Flags.isSet (flags p) SATISFIED.
Definition setSuppressFuncError (p : Packet) : Packet := set_flag SUPPRESS_FUNC_ERROR p.
Definition suppressFuncError (p : Packet) : bool := Flags.isSet (flags p) SUPPRESS_FUNC_ERROR.
Definition setBlockCached (p : Packet) : Packet := set_flag BLOCK_CACHED p.
Definition isBlockCached (p : Packet) : bool := Flags.isSet (flags p) BLOCK_CACHED.
Definition clearBlockCached (p : Packet) : Packet := clear_flag BLOCK_CACHED p.

Definition mustCheckAbove (p : Packet) : bool := bool_decide (cmd p = HardPFReq) || isEviction p.
Definition isCleanEviction (p : Packet) : bool := bool_decide (cmd p = CleanEvict) || bool_decide (cmd p = WritebackClean).

End Pkt.
