(* ===== verification/PacketTheorems.v ===== *)
(** * PacketTheorems: what packets promise

    The table of commands is consistent, words survive a round trip through a
    packet in both byte orders, and a functional access copies exactly the bytes
    two packets share. *)

From stdpp Require Import prelude gmap strings.
From Stdlib Require Import ZArith Lia.
From S2P Require Import Prelude Machine EventQueue Packet.
Import Pkt.

Open Scope Z_scope.

(** ** Commands *)

Lemma commands_all c : aget commands (toInt c) = Some c.
Proof. by destruct c. Qed.

(** Responses.  [makeResponse] is defined for a packet exactly when its command
    needs a response; then the command was a request, and the result is a
    response that is neither a request nor an error, cannot be turned round
    again, is not an express snoop, carries data exactly when the request was a
    read, and is otherwise the same packet. *)
Theorem make_response p :
  (is_Some (makeResponse p) <-> needsResponse p = true) /\
  (forall q, makeResponse p = Some q ->
    isRequest p = true /\ isResponse q = true /\ isRequest q = false /\ isError q = false /\ makeResponse q = None /\
    isExpressSnoop q = false /\ hasData q = isRead p /\ hasRespData p = hasData q /\
    q = set_cmd (cmd q) (set_flags (flags q) p)).
Proof.
  assert (forall f, Flags.isSet (Flags.clear f EXPRESS_SNOOP) EXPRESS_SNOOP = false) as Hf.
  { intros f. unfold Flags.isSet, Flags.clear. rewrite negb_false_iff. apply Z.eqb_eq.
    apply Z.bits_inj_0. intros n. rewrite Z.land_spec, Z.ldiff_spec. by destruct (Z.testbit f n), (Z.testbit EXPRESS_SNOOP n). }
  split.
  - unfold makeResponse, needsResponse, isRequest, is_Some. destruct p as [f c r d a s n v h sn pl ss]. simpl.
    destruct c; vm_compute; split; (intros [? ?]; done) || (intros; done) || eauto.
  - unfold makeResponse, needsResponse, isRequest. destruct p as [f c r d a s n v h sn pl ss]. simpl.
    intros q. destruct c; cbv -[Flags.clear Flags.isSet EXPRESS_SNOOP]; try done; intros [= <-]; repeat split; try done; apply Hf.
Qed.

(** ** Words *)

Definition byte_list (l : list Z) : Prop := Forall (fun x => 0 <= x < 256) l.

Lemma le_bytes_range n x : byte_list (le_bytes n x).
Proof. revert x. induction n as [|n IH]; intros x; constructor; [apply Z.mod_pos_bound; lia|apply IH]. Qed.

Lemma length_le_bytes n x : length (le_bytes n x) = n.
Proof. revert x. induction n; intros x; simpl; auto. Qed.

Lemma le_bytes_value l : byte_list l -> le_bytes (length l) (le_value (length l) l) = l.
Proof.
  induction 1 as [|x l Hx _ IH]; [done|]. simpl. f_equal.
  - rewrite (Z.mul_comm 256), Z.mod_add by lia. by apply Z.mod_small.
  - rewrite (Z.mul_comm 256), Z.div_add by lia. rewrite Z.div_small by lia. exact IH.
Qed.

Lemma le_value_bytes n x l : le_value n (le_bytes n x ++ l) = x mod 256 ^ Z.of_nat n.
Proof.
  revert x. induction n as [|n IH]; intros x; simpl; [by rewrite Z.mod_1_r|].
  rewrite IH. replace (256 ^ Z.of_nat (S n)) with (256 * 256 ^ Z.of_nat n) by (rewrite Nat2Z.inj_succ, Z.pow_succ_r; lia).
  rewrite Z.rem_mul_r by (apply Z.pow_nonzero || lia; lia). lia.
Qed.

Lemma le_value_app n l l' : length l = n -> le_value n (l ++ l') = le_value n l.
Proof. revert n. induction l as [|x l IH]; intros n <-; simpl; [by destruct l'|]. by rewrite IH. Qed.

(** Byte [i] of a number. *)
Definition byte_of (x i : Z) : Z := (x / 2 ^ (8 * i)) mod 256.

Lemma byte_of_range x i : 0 <= byte_of x i < 256.
Proof. apply Z.mod_pos_bound. lia. Qed.

Lemma land_byte x i : 0 <= i -> Z.land x (Z.shiftl 255 (8 * i)) = byte_of x i * 2 ^ (8 * i).
Proof.
  intros Hi. unfold byte_of. rewrite <- Z.shiftr_div_pow2, <- Z.shiftl_mul_pow2 by lia.
  change 256 with (2 ^ 8). rewrite <- Z.land_ones by lia. change 255 with (Z.ones 8).
  apply Z.bits_inj'. intros n Hn. rewrite Z.land_spec, !Z.shiftl_spec, Z.land_spec by lia.
  destruct (Z.ltb_spec n (8 * i)).
  - by rewrite !(Z.testbit_neg_r _ (n - 8 * i)), !andb_false_r by lia.
  - rewrite Z.shiftr_spec by lia. by replace (n - 8 * i + 8 * i) with n by lia.
Qed.

Lemma lor_high a k b : 0 <= k -> 0 <= b < 2 ^ k -> Z.lor (a * 2 ^ k) b = a * 2 ^ k + b.
Proof.
  intros Hk Hb. rewrite Z.add_nocarry_lxor, Z.lxor_lor; [done| |];
    apply Z.bits_inj_0; intros n; rewrite Z.land_spec, <- Z.shiftl_mul_pow2 by lia;
    (destruct (Z.ltb_spec n 0); [by rewrite !Z.testbit_neg_r|]); rewrite Z.shiftl_spec by lia;
    (destruct (Z.ltb_spec n k); [by rewrite Z.testbit_neg_r by lia|]); by rewrite (testbit_high b k), andb_false_r by lia.
Qed.

Lemma bytes_of_le n x : le_bytes n x = (fun i => byte_of x (Z.of_nat i)) <$> seq 0 n.
Proof.
  revert x. induction n as [|n IH]; intros x; [done|]. simpl. f_equal; [unfold byte_of; by rewrite Z.div_1_r|].
  rewrite IH, <- fmap_S_seq, <- list_fmap_compose. apply list_fmap_ext. intros i y Hy. unfold byte_of, compose. simpl.
  rewrite Z.div_div by lia. do 2 f_equal. change 256 with (2 ^ 8). rewrite <- Z.pow_add_r by lia. f_equal. lia.
Qed.

Ltac bounds_of x :=
  pose proof (byte_of_range x 0); pose proof (byte_of_range x 1); pose proof (byte_of_range x 2); pose proof (byte_of_range x 3);
  pose proof (byte_of_range x 4); pose proof (byte_of_range x 5); pose proof (byte_of_range x 6); pose proof (byte_of_range x 7).

Lemma shl_byte w x i s m :
  m = Z.shiftl 255 (8 * i) -> 0 <= i -> 0 <= s -> 8 * i + s + 8 <= w -> wrapU w (Z.shiftl (Z.land x m) s) = byte_of x i * 2 ^ (8 * i + s).
Proof.
  intros -> Hi Hs Hw. pose proof (byte_of_range x i). rewrite land_byte, Z.shiftl_mul_pow2, <- Z.mul_assoc, <- Z.pow_add_r by lia.
  apply wrapU_small. assert (2 ^ w = 2 ^ (w - 8 - (8 * i + s)) * (256 * 2 ^ (8 * i + s))) as ->.
  { change 256 with (2 ^ 8). rewrite <- !Z.pow_add_r by lia. f_equal. lia. }
  assert (0 < 2 ^ (8 * i + s)) by (apply Z.pow_pos_nonneg; lia). assert (0 < 2 ^ (w - 8 - (8 * i + s))) by (apply Z.pow_pos_nonneg; lia). nia.
Qed.

Lemma shr_byte x i s m :
  m = Z.shiftl 255 (8 * i) -> 0 <= i -> 0 <= s <= 8 * i -> Z.shiftr (Z.land x m) s = byte_of x i * 2 ^ (8 * i - s).
Proof.
  intros -> Hi Hs. rewrite land_byte, Z.shiftr_div_pow2 by lia. replace (8 * i) with (8 * i - s + s) at 1 by lia.
  rewrite Z.pow_add_r, Z.mul_assoc, Z.div_mul by (lia || apply Z.pow_nonzero; lia). done.
Qed.

Ltac norm_pow :=
  repeat match goal with
  | |- context [2 ^ (?a + ?b)] => let v := eval vm_compute in (a + b) in change (a + b) with v
  | |- context [2 ^ (?a - ?b)] => let v := eval vm_compute in (a - b) in change (a - b) with v
  | |- context [byte_of ?x (Z.of_nat ?k)] => let v := eval vm_compute in (Z.of_nat k) in change (Z.of_nat k) with v
  end.

Lemma swap_value n x y : 0 <= x < 2 ^ (8 * n) -> swap_byte n x = Some y -> y = le_value (Z.to_nat n) (rev (le_bytes (Z.to_nat n) x)).
Proof.
  intros Hx H. rewrite bytes_of_le. unfold swap_byte in H. bounds_of x.
  destruct (Z.eqb_spec n 8) as [->|]; [|destruct (Z.eqb_spec n 4) as [->|]; [|destruct (Z.eqb_spec n 2) as [->|]; [|destruct (Z.eqb_spec n 1) as [->|]; [|done]]]];
    injection H as <-; simpl.
  - unfold swap_byte64, uint64.
    rewrite (shl_byte 64 x 0 56 0xff), (shl_byte 64 x 1 40 0xff00), (shl_byte 64 x 2 24 0xff0000), (shl_byte 64 x 3 8 0xff000000), (shr_byte x 4 8 0xff00000000), (shr_byte x 5 24 0xff0000000000),
      (shr_byte x 6 40 0xff000000000000), (shr_byte x 7 56 0xff00000000000000) by (done || lia).
    norm_pow. rewrite (lor_high (byte_of x 6) 8), (lor_high (byte_of x 5) 16), (lor_high (byte_of x 4) 24), (lor_high (byte_of x 3) 32), (lor_high (byte_of x 2) 40), (lor_high (byte_of x 1) 48), (lor_high (byte_of x 0) 56) by lia. lia.
  - unfold swap_byte32, uint32. rewrite (shl_byte 32 x 0 24 0xff), (shl_byte 32 x 1 8 0xff00), (shr_byte x 2 8 0xff0000), (shr_byte x 3 24 0xff000000) by (done || lia).
    norm_pow. rewrite (lor_high (byte_of x 2) 8), (lor_high (byte_of x 1) 16), (lor_high (byte_of x 0) 24) by lia. lia.
  - unfold swap_byte16. rewrite (shl_byte 16 x 0 8 0xff), (shr_byte x 1 8 0xff00) by (done || lia). norm_pow. rewrite (lor_high (byte_of x 0) 8) by lia. lia.
  - norm_pow. unfold byte_of. rewrite Z.div_1_r, Z.mod_small; lia.
Qed.

Lemma swap_bytes n x y : 0 <= x < 2 ^ (8 * n) -> swap_byte n x = Some y -> le_bytes (Z.to_nat n) y = rev (le_bytes (Z.to_nat n) x).
Proof.
  intros Hx H. rewrite (swap_value _ _ _ Hx H). rewrite <- (length_le_bytes (Z.to_nat n) x) at 1 2. rewrite <- length_rev.
  apply le_bytes_value. unfold byte_list. apply Forall_rev, le_bytes_range.
Qed.

Lemma le_value_range n l : byte_list l -> 0 <= le_value n l < 256 ^ Z.of_nat n.
Proof.
  intros Hl. revert l Hl. induction n as [|n IH]; intros l Hl; [simpl; lia|].
  replace (256 ^ Z.of_nat (S n)) with (256 * 256 ^ Z.of_nat n) by (rewrite Nat2Z.inj_succ, Z.pow_succ_r; lia).
  assert (0 < 256 ^ Z.of_nat n) by (apply Z.pow_pos_nonneg; lia). simpl.
  destruct Hl as [|x l Hx Hl]; [lia|]. specialize (IH l Hl). lia.
Qed.

(** The bytes of a word in a byte order. *)
Definition word_bytes (e : ByteOrder) (n : nat) (w : Z) : list Z :=
  match e with BigEndianByteOrder => rev (le_bytes n w) | LittleEndianByteOrder => le_bytes n w end.

Lemma swap_some n x : word_size n = true -> exists y, swap_byte n x = Some y.
Proof.
  unfold word_size, swap_byte. intros H. repeat case_match; eauto. by rewrite !orb_false_r in H.
Qed.

Lemma le_bytes_wrap n x : le_bytes n (x mod 256 ^ Z.of_nat n) = le_bytes n x.
Proof.
  rewrite <- (le_value_bytes n x []), app_nil_r. rewrite <- (length_le_bytes n x) at 1 2. apply le_bytes_value, le_bytes_range.
Qed.

Lemma word_size_pos n : word_size n = true -> 0 < n <= 8.
Proof. unfold word_size. rewrite !orb_true_iff, !Z.eqb_eq. lia. Qed.

(** Encoding a word and decoding it again. *)
Lemma encode_word e n w :
  word_size n = true ->
  exists y, in_order e n (wrapU (8 * n) w) = Some y /\ le_bytes (Z.to_nat n) y = word_bytes e (Z.to_nat n) w /\ 0 <= y < 2 ^ (8 * n) /\
    in_order e n y = Some (w mod 2 ^ (8 * n)).
Proof.
  intros Hw. pose proof (word_size_pos _ Hw) as Hn.
  assert (256 ^ Z.of_nat (Z.to_nat n) = 2 ^ (8 * n)) as Hpow by (rewrite Z2Nat.id by lia; change 256 with (2 ^ 8); by rewrite <- Z.pow_mul_r by lia).
  assert (0 <= wrapU (8 * n) w < 2 ^ (8 * n)) as Hwr by (apply wrapU_range; lia).
  assert (le_bytes (Z.to_nat n) (wrapU (8 * n) w) = le_bytes (Z.to_nat n) w) as Hbw by (unfold wrapU; by rewrite <- Hpow, le_bytes_wrap).
  destruct e; simpl; [|by exists (wrapU (8 * n) w)]. destruct (swap_some n (wrapU (8 * n) w) Hw) as [y Ey].
  assert (0 <= y < 2 ^ (8 * n)) as Hy.
  { rewrite (swap_value _ _ _ Hwr Ey), <- Hpow. apply le_value_range. unfold byte_list. apply Forall_rev, le_bytes_range. }
  exists y. split; [done|]. pose proof (swap_bytes _ _ _ Hwr Ey) as Hb. rewrite Hbw in Hb. split; [done|]. split; [done|].
  destruct (swap_some n y Hw) as [z Ez]. rewrite Ez. f_equal. rewrite (swap_value _ _ _ Hy Ez), Hb, rev_involutive, <- Hpow.
  by rewrite <- (le_value_bytes _ w []), app_nil_r.
Qed.

(** Words in packets.  Writing a word into a packet of 1, 2, 4 or 8 bytes stores
    its bytes in the byte order asked for, least or most significant first,
    leaves the rest of the buffer and all other buffers alone, and reading it
    back in the same order gives the word modulo its width; for every other
    size both functions panic. *)
Theorem word_roundtrip e w p (b : Bufs) d l :
  Flags.isSet (flags p) (Z.lor STATIC_DATA DYNAMIC_DATA) = true -> Flags.isSet (flags p) VALID_SIZE = true ->
  data p = Some d -> b !! d = Some l -> size p <= zlen l ->
  (word_size (size p) = true ->
   exists b', setUintX w e p b = Some b' /\ b' = <[d := word_bytes e (Z.to_nat (size p)) w ++ drop (Z.to_nat (size p)) l]> b /\
     getUintX e p b' = Some (w mod 2 ^ (8 * size p))) /\
  (word_size (size p) = false -> setUintX w e p b = None /\ getUintX e p b = None).
Proof.
  intros Hf Hs Hd Hb Hl. unfold setUintX, getUintX, set, get, setRaw, getRaw, getSize. rewrite Hf, Hs, Hd. simpl. split; intros Hw; rewrite Hw; [|done].
  pose proof (word_size_pos _ Hw) as Hn. destruct (encode_word e _ w Hw) as (y & Ey & Hy & Hr & Hdec). simpl in *.
  rewrite Ey. simpl. rewrite Z.leb_refl, Hb. simpl. rewrite (proj2 (Z.leb_le _ _) Hl). simpl.
  eexists. split; [done|]. rewrite Hy. split; [done|]. rewrite lookup_insert_eq. simpl.
  rewrite (proj2 (Z.leb_le _ _)) by (rewrite <- Hy, zlen_app; unfold zlen in *; rewrite length_le_bytes, length_drop; lia).
  simpl. rewrite <- Hy, le_value_bytes, Z2Nat.id by lia. rewrite Z.mod_small by (change 256 with (2 ^ 8); rewrite <- Z.pow_mul_r; lia). done.
Qed.

(** ** Functional accesses *)

Definition inside (a n x : Z) : bool := (a <=? x) && (x <? a + n).

Definition validity (p : Packet) : list bool :=
  match bytesValid p with [] => replicate (Z.to_nat (size p)) false | v => v end.

(** A packet with a valid address and size and a buffer [l] at [d]. *)
Record accessible (p : Packet) (b : Bufs) (d : positive) (l : list Z) : Prop := {
  ac_addr : Flags.isSet (flags p) VALID_ADDR = true;
  ac_size : Flags.isSet (flags p) VALID_SIZE = true;
  ac_ptr : Flags.isSet (flags p) (Z.lor STATIC_DATA DYNAMIC_DATA) = true;
  ac_data : data p = Some d;
  ac_buf : b !! d = Some l;
  ac_len : zlen l = size p;
  ac_pos : 0 <= addr p /\ 0 < size p < 2 ^ 31;
  ac_end : addr p + size p <= 2 ^ 64;
  ac_valid : zlen (validity p) = size p
}.

Lemma all_valid_spec lo hi v all :
  0 <= lo <= hi -> hi <= zlen v ->
  wp (all_valid lo hi v all) (fun r => r = true <-> all = true /\ forall i, lo <= i < hi -> aget v i = Some true).
Proof.
  intros Hlo Hhi. unfold all_valid.
  apply (wp_for_up (fun k r => r = true <-> all = true /\ forall i, lo <= i < k -> aget v i = Some true)); [lia| | |].
  - split; [intros ->; split; [done|]; intros i Hi; lia|by intros [-> _]].
  - intros k r Hk Hr. destruct r.
    + destruct (aget_is_Some v k ltac:(lia)) as [x Hx]. rewrite Hx. simpl. destruct (proj1 Hr eq_refl) as [-> Hv]. split.
      * intros ->. split; [done|]. intros i Hi. destruct (Z.eq_dec i k) as [->|]; [done|]. apply Hv. lia.
      * intros [_ H]. specialize (H k ltac:(lia)). congruence.
    + simpl. split; [done|]. intros [-> H]. apply Hr. split; [done|]. intros i Hi. apply H. lia.
  - auto.
Qed.

Lemma mark_valid_spec lo hi v :
  0 <= lo <= hi -> hi <= zlen v ->
  wp (mark_valid lo hi v) (fun v' => zlen v' = zlen v /\
    forall i, 0 <= i < zlen v -> aget v' i = if (lo <=? i) && (i <? hi) then Some true else aget v i).
Proof.
  intros Hlo Hhi. unfold mark_valid.
  apply (wp_for_up (fun k v' => zlen v' = zlen v /\
    forall i, 0 <= i < zlen v -> aget v' i = if (lo <=? i) && (i <? k) then Some true else aget v i)); [lia| | |].
  - split; [done|]. intros i Hi. zcases; (done || lia).
  - intros k v' Hk [Hz Hv]. rewrite aset_spec by lia. simpl. rewrite zlen_insert. split; [done|]. intros i Hi.
    rewrite aget_insert, Hv by lia. zcases; simpl; (done || lia).
  - auto.
Qed.

(** What a functional access of [p] leaves when another packet holds [m] at [a]. *)
Record access_read (p : Packet) (l m : list Z) (a : Z) (all : bool) (p' : Packet) (l' : list Z) : Prop := {
  ar_data : l' = mkarray (size p) (fun k => if inside a (zlen m) (addr p + k) then nthZ m (addr p + k - a) else nthZ l k);
  ar_same : p' = set_bytesValid (bytesValid p') p;
  ar_valid : forall k, 0 <= k < size p -> aget (bytesValid p') k = if inside a (zlen m) (addr p + k) then Some true else aget (validity p) k;
  ar_all : all = true <-> forall k, 0 <= k < size p -> aget (bytesValid p') k = Some true
}.

Definition overlap (p q : Packet) : bool := (addr p <? addr q + size q) && (addr q <? addr p + size p).

Lemma memcpy_ok {b : Bufs} dst doff src soff n x y :
  b !! dst = Some x -> b !! src = Some y -> dst <> src -> 0 <= doff -> 0 <= soff -> doff + n <= zlen x -> soff + n <= zlen y ->
  memcpy dst doff src soff n b = Some (<[dst := blit x doff y soff n]> b).
Proof.
  intros Hx Hy Hd H1 H2 H3 H4. unfold memcpy. rewrite Hx, Hy. simpl. rewrite bool_decide_false by done. simpl.
  zcases; simpl; (done || lia).
Qed.

Section Functional.
Context (p other : Packet) (b : Bufs) (d o : positive) (l m : list Z).
Hypothesis (Hp : accessible p b d l) (Ho : accessible other b o m).
Hypothesis (Hne : d <> o) (Hsec : secure p = secure other) (Hdata : hasData other = true) (Hprint : isPrint p = false).

(** The offsets the code computes, without wrap-around. *)
Definition val_off : Z := Z.max 0 (addr p - addr other).
Definition func_off : Z := Z.max 0 (addr other - addr p).
Definition olap : Z := Z.min (addr other + size other) (addr p + size p) - Z.max (addr other) (addr p).

Lemma access_unfold :
  trySatisfyFunctional other p b =
  if negb (overlap p other) then Some (false, p, b)
  else if isRead p then
    b ← memcpy d func_off o val_off olap b;
    all ← all_valid 0 func_off (validity p) true;
    v ← mark_valid func_off (func_off + olap) (validity p);
    all ← all_valid (func_off + olap) (size p) v all;
    Some (all, set_bytesValid v p, b)
  else if isWrite p then b ← memcpy o val_off d func_off olap b; Some (false, p, b)
  else None.
Proof.
  pose proof (ac_pos _ _ _ _ Hp) as P1. pose proof (ac_pos _ _ _ _ Ho) as P2. pose proof (ac_end _ _ _ _ Hp) as E1. pose proof (ac_end _ _ _ _ Ho) as E2.
  unfold trySatisfyFunctional, getAddr, isSecure, getSize, getPtr. rewrite (ac_addr _ _ _ _ Ho), (ac_size _ _ _ _ Ho), (ac_ptr _ _ _ _ Ho), (ac_data _ _ _ _ Ho), Hdata.
  simpl. unfold trySatisfyFunctional_data, getAddr, getSize, getPtr. rewrite (ac_addr _ _ _ _ Hp), (ac_size _ _ _ _ Hp), (ac_ptr _ _ _ _ Hp), (ac_data _ _ _ _ Hp), Hprint, Hsec.
  simpl. rewrite eqb_reflx. simpl. unfold int32. rewrite wrapS_small by lia.
  unfold uint64. rewrite !(wrapU_small _ (addr p + size p - 1)), !(wrapU_small _ (addr other + size other - 1)) by lia.
  fold (validity p). unfold overlap.
  assert ((addr other + size other - 1 <? addr p) || (addr p + size p - 1 <? addr other) =
    negb ((addr p <? addr other + size other) && (addr other <? addr p + size p))) as -> by (zcases; simpl; (done || lia)).
  destruct (negb _) eqn:En; [done|].
  assert ((if addr other <? addr p then wrapU 64 (addr p - addr other) else 0) = val_off) as ->.
  { unfold val_off. zcases; [rewrite wrapU_small; lia|lia]. }
  assert ((if addr p <? addr other then wrapU 64 (addr other - addr p) else 0) = func_off) as ->.
  { unfold func_off. zcases; [rewrite wrapU_small; lia|lia]. }
  assert (wrapU 64 (Z.min (addr other + size other - 1) (addr p + size p - 1) + 1 - Z.max (addr other) (addr p)) = olap) as ->; [|done].
  apply negb_false_iff, andb_true_iff in En as [En1%Z.ltb_lt En2%Z.ltb_lt]. unfold olap. rewrite wrapU_small; lia.
Qed.

Lemma offsets_ok :
  addr p < addr other + size other -> addr other < addr p + size p ->
  0 <= func_off /\ 0 <= val_off /\ 0 < olap /\ func_off + olap <= size p /\ val_off + olap <= size other.
Proof. pose proof (ac_pos _ _ _ _ Hp). pose proof (ac_pos _ _ _ _ Ho). unfold func_off, val_off, olap. lia. Qed.

(** Functional accesses.  Let a functional access look at another packet that
    carries data.  Without common addresses it does nothing.  A read receives
    exactly the common bytes, marks them as valid, and reports that it is
    satisfied exactly when all its bytes are valid; a write updates exactly the
    common bytes of the other packet, and goes on. *)
Theorem functional_access :
  (overlap p other = false -> trySatisfyFunctional other p b = Some (false, p, b)) /\
  (overlap p other = true -> isRead p = true ->
    wp (trySatisfyFunctional other p b) (fun '(all, p', b') => exists l', b' = <[d := l']> b /\ access_read p l m (addr other) all p' l')) /\
  (overlap p other = true -> isRead p = false -> isWrite p = true ->
    trySatisfyFunctional other p b = Some (false, p, <[o := mkarray (size other) (fun k =>
      if inside (addr p) (size p) (addr other + k) then nthZ l (addr other + k - addr p) else nthZ m k)]> b)).
Proof.
  pose proof (ac_pos _ _ _ _ Hp) as P1. pose proof (ac_pos _ _ _ _ Ho) as P2. pose proof (ac_len _ _ _ _ Hp) as L1. pose proof (ac_len _ _ _ _ Ho) as L2.
  rewrite access_unfold. split; [by intros ->|]. split.
  - intros Hov ->. rewrite Hov. simpl. apply andb_true_iff in Hov as [O1%Z.ltb_lt O2%Z.ltb_lt].
    destruct offsets_ok as (F1 & F2 & F3 & F4 & F5); [done..|].
    rewrite (memcpy_ok d func_off o val_off olap l m) by (try apply Hp; try apply Ho; (done || lia)). simpl.
    pose proof (ac_valid _ _ _ _ Hp) as Hv. apply wp_bind. eapply wp_mono; [apply all_valid_spec; lia|]. intros a1 Ha1.
    apply wp_bind. eapply wp_mono; [apply mark_valid_spec; lia|]. intros v [Hz Hm]. apply wp_bind.
    eapply wp_mono; [apply all_valid_spec; lia|]. intros a2 Ha2. simpl. eexists. split; [done|].
    assert (forall k, 0 <= k < size p -> inside (addr other) (zlen m) (addr p + k) = (func_off <=? k) && (k <? func_off + olap)) as Hin.
    { intros k Hk. unfold inside, func_off, olap. rewrite L2. zcases; simpl; (done || lia). }
    split; simpl.
    + unfold blit. rewrite L1. apply alist_eq; [rewrite !zlen_mkarray; lia|]. rewrite zlen_mkarray by lia. intros k Hk. rewrite !aget_mkarray by done. f_equal.
      rewrite Hin by done.
      destruct (_ && _); [|done]. f_equal. unfold func_off, val_off. lia.
    + done.
    + intros k Hk. rewrite Hm by lia. by rewrite Hin.
    + rewrite Ha2, Ha1. split.
      * intros [[_ H1] H2] k Hk. destruct (Z.ltb_spec k func_off); [rewrite Hm by lia; zcases; simpl; (lia || apply H1; lia)|].
        destruct (Z.ltb_spec k (func_off + olap)); [rewrite Hm by lia; zcases; simpl; (lia || done)|]. apply H2. lia.
      * intros H. split; [split; [done|]|]; intros k Hk; [|apply H; lia]. specialize (H k ltac:(lia)). rewrite Hm in H by lia.
        revert H. zcases; simpl; (lia || done).
  - intros Hov -> ->. rewrite Hov. simpl. apply andb_true_iff in Hov as [O1%Z.ltb_lt O2%Z.ltb_lt].
    destruct offsets_ok as (F1 & F2 & F3 & F4 & F5); [done..|].
    rewrite (memcpy_ok o val_off d func_off olap m l) by (try apply Hp; try apply Ho; (done || lia)). simpl. do 3 f_equal. unfold blit. rewrite L2.
    apply alist_eq; [rewrite !zlen_mkarray; lia|]. rewrite zlen_mkarray by lia. intros k Hk. rewrite !aget_mkarray by done. f_equal.
    assert (inside (addr p) (size p) (addr other + k) = (val_off <=? k) && (k <? val_off + olap)) as ->.
    { unfold inside, val_off, olap. zcases; simpl; (done || lia). }
    destruct (_ && _); [|done]. f_equal. unfold func_off, val_off. lia.
Qed.
End Functional.

(** ** Witnesses *)

(** A write of eight bytes to address 0x104 and a read of four bytes from 0x102. *)
Definition demo_request (a n : Z) : Request := mkRequest (Some a) (Some n) false false false false false false false.
Definition demo_writer : Packet := set_flag STATIC_DATA (set_data (Some 1%positive) (createWrite 1 (demo_request 0x104 8))).
Definition demo_reader : Packet := set_flag STATIC_DATA (set_data (Some 2%positive) (createRead 2 (demo_request 0x102 4))).
Definition demo_buffers : Bufs := {[ 1%positive := [1; 2; 3; 4; 5; 6; 7; 8]; 2%positive := [0; 0; 0; 0] ]}.

Lemma word_roundtrip_witness :
  exists b', setUintX 0x11223344 BigEndianByteOrder demo_reader demo_buffers = Some b' /\ b' !! 2%positive = Some [0x11; 0x22; 0x33; 0x44] /\
    getUintX BigEndianByteOrder demo_reader b' = Some 0x11223344.
Proof.
  destruct (word_roundtrip BigEndianByteOrder 0x11223344 demo_reader demo_buffers 2 [0; 0; 0; 0]) as [H _]; [reflexivity..|done|].
  destruct (H eq_refl) as (b' & E1 & -> & E3). eexists. split; [exact E1|]. split; [reflexivity|exact E3].
Defined.

Lemma functional_access_witness :
  wp (trySatisfyFunctional demo_writer demo_reader demo_buffers) (fun '(all, _, b') => all = false /\ b' !! 2%positive = Some [0; 0; 1; 2]).
Proof.
  assert (accessible demo_reader demo_buffers 2 [0; 0; 0; 0]) as H1 by (by split).
  assert (accessible demo_writer demo_buffers 1 [1; 2; 3; 4; 5; 6; 7; 8]) as H2 by (by split).
  destruct (functional_access demo_reader demo_writer demo_buffers 2 1 [0; 0; 0; 0] [1; 2; 3; 4; 5; 6; 7; 8] H1 H2) as (_ & H & _); [done|reflexivity..|].
  eapply wp_mono; [exact (H eq_refl eq_refl)|]. intros [[all p'] b'] (l' & -> & [D1 D2 D3 D4]). split.
  - destruct all; [|done]. specialize (proj1 D4 eq_refl 0 ltac:(done)) as E. rewrite D3 in E by done. discriminate E.
  - rewrite D1. reflexivity.
Defined.
