(* ===== verification/Request.v ===== *)
(** * Request: what a memory access is for

    Translates [gem5-X-TiC-SAT/src/mem/request.hh]: a request is made once by the
    master of an access and travels with the packets that carry it out.  Its
    fields are valid only where a private flag says so; the accessors assert the
    flag, and a failing assertion is [None].  [Tick] and addresses are 64-bit
    words, sizes 32-bit words, [now] is [curTick()].  A pointer to an atomic
    operation is the operation itself, [None] for a null pointer: the operation is
    owned by one request, and copying a request clones it. *)

From stdpp Require Import prelude.
From Stdlib Require Import ZArith Lia.
From S2P Require Import Prelude Machine Bitfield EventQueue Packet.

Open Scope Z_scope.

Module Req.

(** ** Flags *)

Definition ARCH_BITS : Z := 0x000000FF.
Definition INST_FETCH : Z := 0x00000100.
Definition PHYSICAL : Z := 0x00000200.
Definition UNCACHEABLE : Z := 0x00000400.
Definition STRICT_ORDER : Z := 0x00000800.
Definition MMAPPED_IPR : Z := 0x00002000.
Definition PRIVILEGED : Z := 0x00008000.
Definition CACHE_BLOCK_ZERO : Z := 0x00010000.
Definition NO_ACCESS : Z := 0x00080000.
Definition LOCKED_RMW : Z := 0x00100000.
Definition LLSC : Z := 0x00200000.
Definition MEM_SWAP : Z := 0x00400000.
Definition MEM_SWAP_COND : Z := 0x00800000.
Definition PREFETCH : Z := 0x01000000.
Definition PF_EXCLUSIVE : Z := 0x02000000.
Definition EVICT_NEXT : Z := 0x04000000.
Definition ACQUIRE : Z := 0x00020000.
Definition RELEASE : Z := 0x00040000.
Definition ATOMIC_RETURN_OP : Z := 0x40000000.
Definition ATOMIC_NO_RETURN_OP : Z := 0x80000000.
Definition KERNEL : Z := 0x00001000.
Definition GENERIC_IPR : Z := 0x08000000.
Definition SECURE : Z := 0x10000000.
Definition PT_WALK : Z := 0x20000000.
Definition INVALIDATE : Z := 0x0000000100000000.
Definition CLEAN : Z := 0x0000000200000000.
Definition DST_POU : Z := 0x0000001000000000.
Definition DST_POC : Z := 0x0000002000000000.
Definition DST_BITS : Z := 0x0000003000000000.
Definition STICKY_FLAGS : Z := INST_FETCH.
Definition STORE_NO_DATA : Z := Z.lor CACHE_BLOCK_ZERO (Z.lor CLEAN INVALIDATE).

Definition wbMasterId : Z := 0.
Definition funcMasterId : Z := 1.
Definition intMasterId : Z := 2.
Definition invldMasterId : Z := 0xFFFF.

Definition SCOPE_VALID : Z := 0x00000001.
Definition WAVEFRONT_SCOPE : Z := 0x00000002.
Definition WORKGROUP_SCOPE : Z := 0x00000004.
Definition DEVICE_SCOPE : Z := 0x00000008.
Definition SYSTEM_SCOPE : Z := 0x00000010.
Definition GLOBAL_SEGMENT : Z := 0x00000020.
Definition GROUP_SEGMENT : Z := 0x00000040.
Definition PRIVATE_SEGMENT : Z := 0x00000080.
Definition KERNARG_SEGMENT : Z := 0x00000100.
Definition READONLY_SEGMENT : Z := 0x00000200.
Definition SPILL_SEGMENT : Z := 0x00000400.
Definition ARG_SEGMENT : Z := 0x00000800.

(** Private flags, 8 bits. *)
Definition VALID_SIZE : Z := 0x01.
Definition VALID_PADDR : Z := 0x02.
Definition VALID_VADDR : Z := 0x04.
Definition VALID_INST_SEQ_NUM : Z := 0x08.
Definition VALID_PC : Z := 0x10.
Definition VALID_CONTEXT_ID : Z := 0x20.
Definition VALID_EXTRA_DATA : Z := 0x80.
Definition STICKY_PRIVATE_FLAGS : Z := VALID_CONTEXT_ID.

(** [ContextSwitchTaskId::Unknown] *)
Definition Unknown : Z := 1024.

(** ** Atomic operations *)

(** A [TypedAtomicOpFunctor<T>]: the size of [T] and what [execute] does to the
    value it points at. *)
Record AtomicOp := mkOp { sizeof_T : Z; execute : Z -> Z }.

(** [operator()] at offset [off] of a buffer. *)
Definition run_op (op : AtomicOp) (off : Z) (l : list Z) : option (list Z) :=
  let n := sizeof_T op in
  _ ← assert_ ((0 <=? off) && (0 <=? n) && (off + n <=? zlen l));
  let v := Pkt.le_value (Z.to_nat n) (drop (Z.to_nat off) l) in
  Some (Pkt.blit l off (Pkt.le_bytes (Z.to_nat n) (execute op v)) 0 n).

(** ** Requests *)

Record Request := mkRequest {
  _paddr : Z;
  _size : Z;
  _masterId : Z;
  _flags : Z;
  _memSpaceConfigFlags : Z;
  privateFlags : Z;
  _time : Z;
  _taskId : Z;
  _asid : Z;
  _vaddr : Z;
  _extraData : Z;
  _contextId : Z;
  _pc : Z;
  _reqInstSeqNum : Z;
  atomicOpFunctor : option AtomicOp;
  translateDelta : Z;
  accessDelta : Z;
  depth : Z
}.

(** The minimal constructor. *)
Definition Request_new : Request :=
  mkRequest 0 0 invldMasterId 0 0 0 0 Unknown 0 0 0 0 0 0 None 0 0 0.

Definition set_private (f : Z) (r : Request) : Request :=
  mkRequest (_paddr r) (_size r) (_masterId r) (_flags r) (_memSpaceConfigFlags r) f (_time r) (_taskId r) (_asid r) (_vaddr r)
    (_extraData r) (_contextId r) (_pc r) (_reqInstSeqNum r) (atomicOpFunctor r) (translateDelta r) (accessDelta r) (depth r).
Definition validate (f : Z) (r : Request) : Request := set_private (Flags.set (privateFlags r) f) r.

(** [setPhys]; [translateDelta] is left alone. *)
Definition setPhys (paddr size flags mid time : Z) (r : Request) : Request :=
  mkRequest paddr size mid (Flags.set (Flags.clear (_flags r) (uint64 (Z.lnot STICKY_FLAGS))) flags) (_memSpaceConfigFlags r)
    (Flags.set (Flags.clear (privateFlags r) (wrapU 8 (Z.lnot STICKY_PRIVATE_FLAGS))) (Z.lor VALID_PADDR VALID_SIZE))
    time (_taskId r) (_asid r) (_vaddr r) (_extraData r) (_contextId r) (_pc r) (_reqInstSeqNum r) (atomicOpFunctor r)
    (translateDelta r) 0 0.

Definition setVirt (asid vaddr size flags mid pc : Z) (amo_op : option AtomicOp) (now : Z) (r : Request) : Request :=
  mkRequest (_paddr r) size mid (Flags.set (Flags.clear (_flags r) (uint64 (Z.lnot STICKY_FLAGS))) flags) (_memSpaceConfigFlags r)
    (Flags.set (Flags.clear (privateFlags r) (wrapU 8 (Z.lnot STICKY_PRIVATE_FLAGS))) (Z.lor VALID_VADDR (Z.lor VALID_SIZE VALID_PC)))
    now (_taskId r) asid vaddr (_extraData r) (_contextId r) pc (_reqInstSeqNum r) amo_op 0 0 0.

Definition setContext (context_id : Z) (r : Request) : Request :=
  validate VALID_CONTEXT_ID
    (mkRequest (_paddr r) (_size r) (_masterId r) (_flags r) (_memSpaceConfigFlags r) (privateFlags r) (_time r) (_taskId r) (_asid r)
       (_vaddr r) (_extraData r) context_id (_pc r) (_reqInstSeqNum r) (atomicOpFunctor r) (translateDelta r) (accessDelta r) (depth r)).

Definition setPaddr (paddr : Z) (r : Request) : Request :=
  validate VALID_PADDR
    (mkRequest paddr (_size r) (_masterId r) (_flags r) (_memSpaceConfigFlags r) (privateFlags r) (_time r) (_taskId r) (_asid r)
       (_vaddr r) (_extraData r) (_contextId r) (_pc r) (_reqInstSeqNum r) (atomicOpFunctor r) (translateDelta r) (accessDelta r) (depth r)).

Definition setExtraData (extraData : Z) (r : Request) : Request :=
  validate VALID_EXTRA_DATA
    (mkRequest (_paddr r) (_size r) (_masterId r) (_flags r) (_memSpaceConfigFlags r) (privateFlags r) (_time r) (_taskId r) (_asid r)
       (_vaddr r) extraData (_contextId r) (_pc r) (_reqInstSeqNum r) (atomicOpFunctor r) (translateDelta r) (accessDelta r) (depth r)).

Definition setPC (pc : Z) (r : Request) : Request :=
  validate VALID_PC
    (mkRequest (_paddr r) (_size r) (_masterId r) (_flags r) (_memSpaceConfigFlags r) (privateFlags r) (_time r) (_taskId r) (_asid r)
       (_vaddr r) (_extraData r) (_contextId r) pc (_reqInstSeqNum r) (atomicOpFunctor r) (translateDelta r) (accessDelta r) (depth r)).

Definition setReqInstSeqNum (seq_num : Z) (r : Request) : Request :=
  validate VALID_INST_SEQ_NUM
    (mkRequest (_paddr r) (_size r) (_masterId r) (_flags r) (_memSpaceConfigFlags r) (privateFlags r) (_time r) (_taskId r) (_asid r)
       (_vaddr r) (_extraData r) (_contextId r) (_pc r) seq_num (atomicOpFunctor r) (translateDelta r) (accessDelta r) (depth r)).

(** ** The other constructors *)

Definition Request_phys (paddr size flags mid now : Z) : Request := setPhys paddr size flags mid now Request_new.
Definition Request_time (paddr size flags mid time : Z) : Request := setPhys paddr size flags mid time Request_new.
Definition Request_seq (paddr size flags mid seq_num cid now : Z) : Request :=
  setReqInstSeqNum seq_num (setContext cid (setPhys paddr size flags mid now Request_new)).
Definition Request_pc (paddr size flags mid time pc : Z) : Request := setPC pc (setPhys paddr size flags mid time Request_new).
Definition Request_virt (asid vaddr size flags mid pc cid now : Z) : Request :=
  setContext cid (setVirt asid vaddr size flags mid pc None now Request_new).

(** The constructor with an atomic operation has no member initialisers: apart from the flag words, which are
    cleared by their own constructors, the members that [setVirt] does not write keep what is in [junk]. *)
Definition Request_atomic (junk : Request) (asid vaddr size flags mid pc cid : Z) (atomic_op : option AtomicOp) (now : Z) : Request :=
  let r := mkRequest (_paddr junk) (_size junk) (_masterId junk) 0 0 0 (_time junk) (_taskId junk) (_asid junk) (_vaddr junk)
             (_extraData junk) (_contextId junk) (_pc junk) (_reqInstSeqNum junk) (atomicOpFunctor junk) (translateDelta junk)
             (accessDelta junk) (depth junk) in
  setContext cid (setVirt asid vaddr size flags mid pc atomic_op now r).

(** ** Accessors *)

Definition hasPaddr (r : Request) : bool := Flags.isSet (privateFlags r) VALID_PADDR.
Definition getPaddr (r : Request) : option Z := _ ← assert_ (Flags.isSet (privateFlags r) VALID_PADDR); Some (_paddr r).
Definition hasSize (r : Request) : bool := Flags.isSet (privateFlags r) VALID_SIZE.
Definition getSize (r : Request) : option Z := _ ← assert_ (Flags.isSet (privateFlags r) VALID_SIZE); Some (_size r).
Definition addressed (r : Request) : option unit := assert_ (Flags.isSet (privateFlags r) (Z.lor VALID_PADDR VALID_VADDR)).
Definition time (r : Request) : option Z := _ ← addressed r; Some (_time r).
Definition hasAtomicOpFunctor (r : Request) : bool := match atomicOpFunctor r with Some _ => true | None => false end.
Definition getAtomicOpFunctor (r : Request) : option AtomicOp := atomicOpFunctor r.
Definition getFlags (r : Request) : option Z := _ ← addressed r; Some (_flags r).
Definition setFlags (f : Z) (r : Request) : option Request :=
  _ ← addressed r;
  Some (mkRequest (_paddr r) (_size r) (_masterId r) (Flags.set (_flags r) f) (_memSpaceConfigFlags r) (privateFlags r) (_time r) (_taskId r)
          (_asid r) (_vaddr r) (_extraData r) (_contextId r) (_pc r) (_reqInstSeqNum r) (atomicOpFunctor r) (translateDelta r) (accessDelta r) (depth r)).
Definition setMemSpaceConfigFlags (f : Z) (r : Request) : option Request :=
  _ ← addressed r;
  Some (mkRequest (_paddr r) (_size r) (_masterId r) (_flags r) (Flags.set (_memSpaceConfigFlags r) f) (privateFlags r) (_time r) (_taskId r)
          (_asid r) (_vaddr r) (_extraData r) (_contextId r) (_pc r) (_reqInstSeqNum r) (atomicOpFunctor r) (translateDelta r) (accessDelta r) (depth r)).
Definition hasVaddr (r : Request) : bool := Flags.isSet (privateFlags r) VALID_VADDR.
Definition getVaddr (r : Request) : option Z := _ ← assert_ (Flags.isSet (privateFlags r) VALID_VADDR); Some (_vaddr r).
Definition masterId (r : Request) : Z := _masterId r.
Definition taskId (r : Request) : Z := _taskId r.
Definition set_taskId (id : Z) (r : Request) : Request :=
  mkRequest (_paddr r) (_size r) (_masterId r) (_flags r) (_memSpaceConfigFlags r) (privateFlags r) (_time r) id (_asid r) (_vaddr r)
    (_extraData r) (_contextId r) (_pc r) (_reqInstSeqNum r) (atomicOpFunctor r) (translateDelta r) (accessDelta r) (depth r).
Definition getAsid (r : Request) : option Z := _ ← assert_ (Flags.isSet (privateFlags r) VALID_VADDR); Some (_asid r).
Definition setAsid (asid : Z) (r : Request) : Request :=
  mkRequest (_paddr r) (_size r) (_masterId r) (_flags r) (_memSpaceConfigFlags r) (privateFlags r) (_time r) (_taskId r) asid (_vaddr r)
    (_extraData r) (_contextId r) (_pc r) (_reqInstSeqNum r) (atomicOpFunctor r) (translateDelta r) (accessDelta r) (depth r).
Definition getArchFlags (r : Request) : option Z := _ ← addressed r; Some (wrapU 8 (Z.land (_flags r) ARCH_BITS)).
Definition extraDataValid (r : Request) : bool := Flags.isSet (privateFlags r) VALID_EXTRA_DATA.
Definition getExtraData (r : Request) : option Z := _ ← assert_ (Flags.isSet (privateFlags r) VALID_EXTRA_DATA); Some (_extraData r).
Definition hasContextId (r : Request) : bool := Flags.isSet (privateFlags r) VALID_CONTEXT_ID.
Definition contextId (r : Request) : option Z := _ ← assert_ (Flags.isSet (privateFlags r) VALID_CONTEXT_ID); Some (_contextId r).
Definition hasPC (r : Request) : bool := Flags.isSet (privateFlags r) VALID_PC.
Definition getPC (r : Request) : option Z := _ ← assert_ (Flags.isSet (privateFlags r) VALID_PC); Some (_pc r).
Definition hasInstSeqNum (r : Request) : bool := Flags.isSet (privateFlags r) VALID_INST_SEQ_NUM.
Definition getReqInstSeqNum (r : Request) : option Z :=
  _ ← assert_ (Flags.isSet (privateFlags r) VALID_INST_SEQ_NUM); Some (_reqInstSeqNum r).

Definition set_deltas (t a d : Z) (r : Request) : Request :=
  mkRequest (_paddr r) (_size r) (_masterId r) (_flags r) (_memSpaceConfigFlags r) (privateFlags r) (_time r) (_taskId r) (_asid r) (_vaddr r)
    (_extraData r) (_contextId r) (_pc r) (_reqInstSeqNum r) (atomicOpFunctor r) t a d.
Definition incAccessDepth (r : Request) : Request := set_deltas (translateDelta r) (accessDelta r) (depth r + 1) r.
Definition getAccessDepth (r : Request) : Z := depth r.
Definition setTranslateLatency (now : Z) (r : Request) : Request := set_deltas (uint64 (now - _time r)) (accessDelta r) (depth r) r.
Definition getTranslateLatency (r : Request) : Z := translateDelta r.
Definition setAccessLatency (now : Z) (r : Request) : Request :=
  set_deltas (translateDelta r) (uint64 (now - _time r - translateDelta r)) (depth r) r.
Definition getAccessLatency (r : Request) : Z := accessDelta r.

(** ** Flag tests *)

Definition isUncacheable (r : Request) : bool := Flags.isSet (_flags r) UNCACHEABLE.
Definition isStrictlyOrdered (r : Request) : bool := Flags.isSet (_flags r) STRICT_ORDER.
Definition isInstFetch (r : Request) : bool := Flags.isSet (_flags r) INST_FETCH.
Definition isPrefetch (r : Request) : bool := Flags.isSet (_flags r) PREFETCH.
Definition isLLSC (r : Request) : bool := Flags.isSet (_flags r) LLSC.
Definition isPriv (r : Request) : bool := Flags.isSet (_flags r) PRIVILEGED.
Definition isLockedRMW (r : Request) : bool := Flags.isSet (_flags r) LOCKED_RMW.
Definition isSwap (r : Request) : bool := Flags.isSet (_flags r) (Z.lor MEM_SWAP MEM_SWAP_COND).
Definition isCondSwap (r : Request) : bool := Flags.isSet (_flags r) MEM_SWAP_COND.
Definition isMmappedIpr (r : Request) : bool := Flags.isSet (_flags r) MMAPPED_IPR.
Definition isSecure (r : Request) : bool := Flags.isSet (_flags r) SECURE.
Definition isPTWalk (r : Request) : bool := Flags.isSet (_flags r) PT_WALK.
Definition isAcquire (r : Request) : bool := Flags.isSet (_flags r) ACQUIRE.
Definition isRelease (r : Request) : bool := Flags.isSet (_flags r) RELEASE.
Definition isKernel (r : Request) : bool := Flags.isSet (_flags r) KERNEL.
Definition isAtomicReturn (r : Request) : bool := Flags.isSet (_flags r) ATOMIC_RETURN_OP.
Definition isAtomicNoReturn (r : Request) : bool := Flags.isSet (_flags r) ATOMIC_NO_RETURN_OP.
Definition isAtomic (r : Request) : bool := Flags.isSet (_flags r) ATOMIC_RETURN_OP || Flags.isSet (_flags r) ATOMIC_NO_RETURN_OP.
Definition isToPOU (r : Request) : bool := Flags.isSet (_flags r) DST_POU.
Definition isToPOC (r : Request) : bool := Flags.isSet (_flags r) DST_POC.
Definition getDest (r : Request) : Z := Z.land (_flags r) DST_BITS.

Definition isScoped (r : Request) : bool := Flags.isSet (_memSpaceConfigFlags r) SCOPE_VALID.
Definition isWavefrontScope (r : Request) : option bool := _ ← assert_ (isScoped r); Some (Flags.isSet (_memSpaceConfigFlags r) WAVEFRONT_SCOPE).
Definition isWorkgroupScope (r : Request) : option bool := _ ← assert_ (isScoped r); Some (Flags.isSet (_memSpaceConfigFlags r) WORKGROUP_SCOPE).
Definition isDeviceScope (r : Request) : option bool := _ ← assert_ (isScoped r); Some (Flags.isSet (_memSpaceConfigFlags r) DEVICE_SCOPE).
Definition isSystemScope (r : Request) : option bool := _ ← assert_ (isScoped r); Some (Flags.isSet (_memSpaceConfigFlags r) SYSTEM_SCOPE).

Definition isGroupSegment (r : Request) : bool := Flags.isSet (_memSpaceConfigFlags r) GROUP_SEGMENT.
Definition isPrivateSegment (r : Request) : bool := Flags.isSet (_memSpaceConfigFlags r) PRIVATE_SEGMENT.
Definition isKernargSegment (r : Request) : bool := Flags.isSet (_memSpaceConfigFlags r) KERNARG_SEGMENT.
Definition isReadonlySegment (r : Request) : bool := Flags.isSet (_memSpaceConfigFlags r) READONLY_SEGMENT.
Definition isSpillSegment (r : Request) : bool := Flags.isSet (_memSpaceConfigFlags r) SPILL_SEGMENT.
Definition isArgSegment (r : Request) : bool := Flags.isSet (_memSpaceConfigFlags r) ARG_SEGMENT.
Definition isGlobalSegment (r : Request) : bool :=
  Flags.isSet (_memSpaceConfigFlags r) GLOBAL_SEGMENT ||
  (negb (isGroupSegment r) && negb (isPrivateSegment r) && negb (isKernargSegment r) && negb (isReadonlySegment r) &&
   negb (isSpillSegment r) && negb (isArgSegment r)).

Definition isCacheClean (r : Request) : bool := Flags.isSet (_flags r) CLEAN.
Definition isCacheInvalidate (r : Request) : bool := Flags.isSet (_flags r) INVALIDATE.
Definition isCacheMaintenance (r : Request) : bool := Flags.isSet (_flags r) (Z.lor CLEAN INVALIDATE).

(** ** Splitting *)

Definition set_virt_part (vaddr size : Z) (r : Request) : Request :=
  mkRequest (_paddr r) size (_masterId r) (_flags r) (_memSpaceConfigFlags r) (privateFlags r) (_time r) (_taskId r) (_asid r) vaddr
    (_extraData r) (_contextId r) (_pc r) (_reqInstSeqNum r) (atomicOpFunctor r) (translateDelta r) (accessDelta r) (depth r).

(** [_size] is 32 bits wide, the difference of the addresses 64. *)
Definition splitOnVaddr (split_addr : Z) (r : Request) : option (Request * Request) :=
  _ ← assert_ (Flags.isSet (privateFlags r) VALID_VADDR);
  _ ← assert_ (Flags.noneSet (privateFlags r) VALID_PADDR);
  _ ← assert_ ((_vaddr r <? split_addr) && (split_addr <? uint64 (_vaddr r + _size r)));
  let size1 := uint32 (split_addr - _vaddr r) in
  Some (set_virt_part (_vaddr r) size1 r, set_virt_part split_addr (uint32 (_size r - size1)) r).

(** What a packet asks of its request. *)
Definition view (r : Request) : Pkt.Request :=
  Pkt.mkRequest (if hasPaddr r then Some (_paddr r) else None) (if hasSize r then Some (_size r) else None)
    (isSecure r) (isLLSC r) (isPrefetch r) (isSwap r) (isAtomic r) (isCacheInvalidate r) (isCacheClean r).

End Req.

(** * What requests promise

    Splitting a request at an address, reusing a request object, and the packet that
    is made from a request. *)

Import Req.

(** A request for addresses that do not run over the end of the address space. *)
Definition virtual (r : Request) : Prop :=
  hasVaddr r = true /\ hasPaddr r = false /\ 0 <= _vaddr r /\ 0 <= _size r < 2 ^ 32 /\ _vaddr r + _size r < 2 ^ 64.

(** Splitting.  A virtual request can be split exactly at the addresses strictly inside
    it.  The two halves are not empty, lie side by side and cover exactly the
    addresses of the request, their sizes are exact 32-bit numbers, and apart from
    address and size both are copies of the request. *)
Theorem split_request r x :
  virtual r ->
  (is_Some (splitOnVaddr x r) <-> _vaddr r < x < _vaddr r + _size r) /\
  (forall r1 r2, splitOnVaddr x r = Some (r1, r2) ->
    _vaddr r1 = _vaddr r /\ _vaddr r1 + _size r1 = x /\ _vaddr r2 = x /\ _vaddr r2 + _size r2 = _vaddr r + _size r /\
    0 < _size r1 /\ 0 < _size r2 /\ set_virt_part (_vaddr r) (_size r) r1 = r /\ set_virt_part (_vaddr r) (_size r) r2 = r).
Proof.
  intros (Hv & Hp & H1 & H2 & H3). unfold splitOnVaddr. unfold hasVaddr in Hv. rewrite Hv. unfold hasPaddr, Flags.isSet in Hp. unfold Flags.noneSet.
  apply negb_false_iff in Hp. rewrite Hp. cbn [assert_ mbind option_bind]. unfold uint64. rewrite wrapU_small by lia.
  destruct ((_vaddr r <? x) && (x <? _vaddr r + _size r)) eqn:E; cbn [assert_ mbind option_bind].
  - apply andb_true_iff in E as [E1%Z.ltb_lt E2%Z.ltb_lt]. split; [split; [intros _; lia|eauto]|]. intros r1 r2 [= <- <-].
    unfold uint32. rewrite (wrapU_small 32 (x - _vaddr r)) by lia. rewrite (wrapU_small 32 (_size r - (x - _vaddr r))) by lia. simpl.
    destruct r. simpl in *. unfold set_virt_part. simpl. repeat (split; [lia|]). done.
  - split; [|done]. split; [by intros [? ?]|]. intros [E1 E2]. apply andb_false_iff in E as [E%Z.ltb_ge|E%Z.ltb_ge]; lia.
Qed.

(** ** Reuse *)

Lemma clear_mask_testbit f m i : 0 <= i -> Z.testbit (Flags.clear f m) i = Z.testbit f i && negb (Z.testbit m i).
Proof. intros Hi. unfold Flags.clear. by rewrite Z.ldiff_spec. Qed.

Lemma clear_but_sticky f : 0 <= f < 2 ^ 64 -> Flags.clear f (uint64 (Z.lnot STICKY_FLAGS)) = Z.land f INST_FETCH.
Proof.
  intros Hf. apply Z.bits_inj'. intros i Hi. rewrite clear_mask_testbit, Z.land_spec by done. unfold STICKY_FLAGS.
  rewrite uint64_testbit, Z.lnot_spec by done. destruct (Z.ltb_spec i 64).
  - by rewrite andb_true_l, negb_involutive.
  - by rewrite (testbit_high f 64) by lia.
Qed.

Lemma isSet_bit f k m : 0 <= k -> m = 2 ^ k -> Flags.isSet f m = Z.testbit f k.
Proof.
  intros Hk ->. unfold Flags.isSet. destruct (Z.testbit f k) eqn:E.
  - apply negb_true_iff, Z.eqb_neq. intros E0. apply (f_equal (fun z => Z.testbit z k)) in E0.
    rewrite Z.land_spec, Z.pow2_bits_true, E in E0 by done. by rewrite Z.testbit_0_l in E0.
  - apply negb_false_iff, Z.eqb_eq, Z.bits_inj_0. intros j. rewrite Z.land_spec, Z.pow2_bits_eqb by done.
    destruct (Z.eqb_spec k j) as [<-|]; [by rewrite E|apply andb_false_r].
Qed.

(** Reusing a request object for a physical access keeps two things of its earlier use
    only: the context, and the mark of an instruction fetch. *)
Theorem reuse_request r paddr size flags mid time :
  0 <= _flags r < 2 ^ 64 ->
  let r' := setPhys paddr size flags mid time r in
  _flags r' = Z.lor (Z.land (_flags r) INST_FETCH) flags /\ contextId r' = contextId r /\
  getPaddr r' = Some paddr /\ getSize r' = Some size /\ getVaddr r' = None /\ getExtraData r' = None /\ getPC r' = None /\ getReqInstSeqNum r' = None.
Proof.
  intros Hf r'. unfold r', contextId, getPaddr, getSize, getVaddr, getExtraData, getPC, getReqInstSeqNum, setPhys. simpl.
  set (pf := Flags.set (Flags.clear (privateFlags r) _) _).
  assert (forall i, 0 <= i -> Z.testbit pf i = Z.testbit (privateFlags r) i && negb (Z.testbit 0xDF i) || Z.testbit 0x03 i) as Hb.
  { intros i Hi. unfold pf, Flags.set. rewrite Z.lor_spec, clear_mask_testbit by done.
    change (wrapU 8 (Z.lnot STICKY_PRIVATE_FLAGS)) with 0xDF. change (Z.lor VALID_PADDR VALID_SIZE) with 0x03. reflexivity. }
  assert (Flags.isSet pf VALID_CONTEXT_ID = Flags.isSet (privateFlags r) VALID_CONTEXT_ID) as Hc.
  { rewrite !(isSet_bit _ 5) by done. rewrite Hb by done. simpl. by rewrite andb_true_r, orb_false_r. }
  rewrite clear_but_sticky by done. split; [done|]. rewrite Hc. split; [done|].
  rewrite (isSet_bit _ 1 VALID_PADDR), (isSet_bit _ 0 VALID_SIZE), (isSet_bit _ 2 VALID_VADDR), (isSet_bit _ 7 VALID_EXTRA_DATA),
    (isSet_bit _ 4 VALID_PC), (isSet_bit _ 3 VALID_INST_SEQ_NUM) by done.
  rewrite !Hb by done. simpl. rewrite !andb_false_r, !orb_true_r. done.
Qed.

(** The constructor for atomic operations leaves the task id uninitialised. *)
Theorem atomic_request_task junk asid vaddr size flags mid pc cid op now :
  taskId (Request_atomic junk asid vaddr size flags mid pc cid op now) = _taskId junk /\
  taskId (Request_virt asid vaddr size flags mid pc cid now) = Unknown.
Proof. done. Qed.

Lemma split_request_witness :
  virtual (Request_virt 0 0x3c 8 0 1 0 2 0) /\ exists r1 r2, splitOnVaddr 0x40 (Request_virt 0 0x3c 8 0 1 0 2 0) = Some (r1, r2) /\ _size r1 = 4 /\ _size r2 = 4.
Proof.
  assert (virtual (Request_virt 0 0x3c 8 0 1 0 2 0)) as Hv by (repeat split; done). split; [exact Hv|].
  destruct (split_request _ 0x40 Hv) as [[_ H1] H2]. destruct (H1 ltac:(done)) as [[r1 r2] E]. exists r1, r2. split; [exact E|].
  destruct (H2 _ _ E) as (E1 & E2 & E3 & E4 & _). rewrite E1 in E2. rewrite E3 in E4. change (_vaddr (Request_virt 0 0x3c 8 0 1 0 2 0)) with 0x3c in *.
  change (_size (Request_virt 0 0x3c 8 0 1 0 2 0)) with 8 in *. lia.
Defined.

Lemma reuse_request_witness :
  contextId (setPhys 0x80 4 0 1 5 (Request_virt 0 0x3c 8 INST_FETCH 1 0 2 0)) = Some 2 /\
  isInstFetch (setPhys 0x80 4 0 1 5 (Request_virt 0 0x3c 8 INST_FETCH 1 0 2 0)) = true.
Proof.
  destruct (reuse_request (Request_virt 0 0x3c 8 INST_FETCH 1 0 2 0) 0x80 4 0 1 5) as (H1 & H2 & _); [done|].
  split; [by rewrite H2|]. unfold isInstFetch. by rewrite H1.
Defined.
