(* ===== verification/AbstractMem.v ===== *)
(** * AbstractMem: the memory behind the buses

    Translates [gem5-X-TiC-SAT/src/mem/abstract_mem.cc] and [abstract_mem.hh]: the
    backing store of a range of addresses, the accesses that read and write it, and
    the list of addresses locked by exclusive loads.  The backing store is a buffer
    of the same store as the data of packets, and [hostAddr] an offset in it; a null
    pointer is [None].  Packets and requests are objects at addresses.  What happens
    to the context that loses a reservation is a parameter that acts on the rest
    [X] of the system.  Statistics are integers by master; printing is left out. *)

From stdpp Require Import prelude gmap.
From Stdlib Require Import ZArith Lia.
From S2P Require Import Prelude Machine AddrRange EventQueue Packet Request.

Open Scope Z_scope.

#[local] Existing Instance Pkt.Command_eq_dec.

Module AMem.

(** ** Locked addresses *)

Definition Addr_Mask : Z := 0xf.

Record LockedAddr := mkLocked { la_addr : Z; la_contextId : Z }.

#[export] Instance LockedAddr_eq_dec : EqDecision LockedAddr.
Proof. solve_decision. Defined.

Definition mask (paddr : Z) : Z := Z.land paddr (uint64 (Z.lnot Addr_Mask)).

Definition matchesContext (l : LockedAddr) (req : Req.Request) : option bool :=
  c ← Req.contextId req; Some (la_contextId l =? c).

Definition LockedAddr_new (req : Req.Request) : option LockedAddr :=
  a ← Req.getPaddr req; c ← Req.contextId req; Some (mkLocked (mask a) c).

(** The first record of the context gets the new address. *)
Fixpoint update_record (paddr : Z) (req : Req.Request) (l : list LockedAddr) : option (bool * list LockedAddr) :=
  match l with
  | [] => Some (false, [])
  | i :: l =>
      m ← matchesContext i req;
      if (m : bool) then Some (true, mkLocked paddr (la_contextId i) :: l)
      else '(found, l) ← update_record paddr req l; Some (found, i :: l)
  end.

Definition trackLoadLocked (req : Req.Request) (l : list LockedAddr) : option (list LockedAddr) :=
  a ← Req.getPaddr req;
  '(found, l) ← update_record (mask a) req l;
  if (found : bool) then Some l else i ← LockedAddr_new req; Some (i :: l).

(** Is there a record of the context for this address? *)
Fixpoint find_record (paddr : Z) (req : Req.Request) (l : list LockedAddr) : option bool :=
  match l with
  | [] => Some false
  | i :: l =>
      m ← (if la_addr i =? paddr then matchesContext i req else Some false);
      if (m : bool) then Some true else find_record paddr req l
  end.

(** ** The memory *)

Record Stats := mkStats {
  bytesRead : gmap Z Z;
  bytesInstRead : gmap Z Z;
  bytesWritten : gmap Z Z;
  numReads : gmap Z Z;
  numWrites : gmap Z Z;
  numOther : gmap Z Z
}.

Definition bump (k n : Z) (m : gmap Z Z) : gmap Z Z := <[k := default 0 (m !! k) + n]> m.

Record Memory := mkMemory {
  range : AddrRange;
  pmemAddr : option positive;
  confTableReported : bool;
  inAddrMap : bool;
  kvmMap : bool;
  lockedAddrList : list LockedAddr;
  stats : Stats;
  hasSystem : bool
}.

Definition AbstractMemory_new (r : AddrRange) (conf_table_reported in_addr_map kvm_map : bool) : Memory :=
  mkMemory r None conf_table_reported in_addr_map kvm_map [] (mkStats ∅ ∅ ∅ ∅ ∅ ∅) false.

Definition set_locks (l : list LockedAddr) (m : Memory) : Memory :=
  mkMemory (range m) (pmemAddr m) (confTableReported m) (inAddrMap m) (kvmMap m) l (stats m) (hasSystem m).
Definition set_mstats (s : Stats) (m : Memory) : Memory :=
  mkMemory (range m) (pmemAddr m) (confTableReported m) (inAddrMap m) (kvmMap m) (lockedAddrList m) s (hasSystem m).

Definition setBackingStore (pmem_addr : option positive) (m : Memory) : Memory :=
  mkMemory (range m) pmem_addr (confTableReported m) (inAddrMap m) (kvmMap m) (lockedAddrList m) (stats m) (hasSystem m).
Definition set_system (sys : bool) (m : Memory) : Memory :=
  mkMemory (range m) (pmemAddr m) (confTableReported m) (inAddrMap m) (kvmMap m) (lockedAddrList m) (stats m) sys.

Definition getAddrRange (m : Memory) : AddrRange := range m.
Definition mem_size (m : Memory) : Z := AddrRange.size (range m).
Definition mem_start (m : Memory) : Z := ar_start (range m).
Definition getLockedAddrList (m : Memory) : list LockedAddr := lockedAddrList m.
Definition addLockedAddr (i : LockedAddr) (m : Memory) : Memory := set_locks (lockedAddrList m ++ [i]) m.
Definition isConfReported (m : Memory) : bool := confTableReported m.
Definition isInAddrMap (m : Memory) : bool := inAddrMap m.
Definition isKvmMap (m : Memory) : bool := kvmMap m.

Definition init (pageBytes : Z) (m : Memory) : option unit :=
  _ ← assert_ (hasSystem m); assert_ (mem_size m mod pageBytes =? 0).

Definition count_read (id n : Z) (fetch : bool) (m : Memory) : Memory :=
  let s := stats m in
  set_mstats (mkStats (bump id n (bytesRead s)) (if fetch then bump id n (bytesInstRead s) else bytesInstRead s) (bytesWritten s)
                (bump id 1 (numReads s)) (numWrites s) (numOther s)) m.
Definition count_write (id n : Z) (m : Memory) : Memory :=
  let s := stats m in
  set_mstats (mkStats (bytesRead s) (bytesInstRead s) (bump id n (bytesWritten s)) (numReads s) (bump id 1 (numWrites s)) (numOther s)) m.
Definition count_other (id : Z) (m : Memory) : Memory :=
  let s := stats m in
  set_mstats (mkStats (bytesRead s) (bytesInstRead s) (bytesWritten s) (numReads s) (numWrites s) (bump id 1 (numOther s))) m.

Section World.
Context {X : Type}.

Record World := mkWorld {
  mem : Memory;
  requests : gmap positive Req.Request;
  packets : gmap positive Pkt.Packet;
  bufs : Pkt.Bufs;
  rest : X
}.

Definition set_mem (m : Memory) (w : World) : World := mkWorld m (requests w) (packets w) (bufs w) (rest w).
Definition set_request (r : positive) (q : Req.Request) (w : World) : World :=
  mkWorld (mem w) (<[r := q]> (requests w)) (packets w) (bufs w) (rest w).
Definition set_packet (pkt : positive) (p : Pkt.Packet) (w : World) : World :=
  mkWorld (mem w) (requests w) (<[pkt := p]> (packets w)) (bufs w) (rest w).
Definition set_bufs (b : Pkt.Bufs) (w : World) : World := mkWorld (mem w) (requests w) (packets w) b (rest w).
Definition set_rest (x : X) (w : World) : World := mkWorld (mem w) (requests w) (packets w) (bufs w) x.

(** [globalClearExclusive] on the thread context with a given id. *)
Variable globalClearExclusive : Z -> X -> option X.

(** All records with an address are erased; their other owners are told. *)
Fixpoint erase_records (paddr : Z) (req : Req.Request) (l : list LockedAddr) (x : X) : option (list LockedAddr * X) :=
  match l with
  | [] => Some ([], x)
  | i :: l =>
      if la_addr i =? paddr then
        c ← Req.contextId req;
        x ← (if negb (la_contextId i =? c) then globalClearExclusive (la_contextId i) x else Some x);
        erase_records paddr req l x
      else '(l, x) ← erase_records paddr req l x; Some (i :: l, x)
  end.

Definition checkLockedAddrList (p : Pkt.Packet) (w : World) : option (bool * World) :=
  req ← requests w !! Pkt.req p;
  a ← Req.getPaddr req;
  let paddr := mask a in
  let isLLSC := Pkt.isLLSC p in
  let l := lockedAddrList (mem w) in
  '(allowStore, w) ← (if isLLSC then
      found ← find_record paddr req l;
      Some (found, set_request (Pkt.req p) (Req.setExtraData (if (found : bool) then 1 else 0) req) w)
    else Some (true, w));
  if (allowStore : bool) then
    '(l, x) ← erase_records paddr req l (rest w);
    Some (true, set_rest x (set_mem (set_locks l (mem w)) w))
  else Some (false, w).

Definition writeOK (p : Pkt.Packet) (w : World) : option (bool * World) :=
  match lockedAddrList (mem w) with
  | [] =>
      let isLLSC := Pkt.isLLSC p in
      w ← (if isLLSC then req ← requests w !! Pkt.req p; Some (set_request (Pkt.req p) (Req.setExtraData 0 req) w) else Some w);
      Some (negb isLLSC, w)
  | _ => checkLockedAddrList p w
  end.

(** ** Accesses *)

(** The [n] bytes at an offset of a buffer. *)
Definition bytes_at (off n : Z) (l : list Z) : option (list Z) :=
  _ ← assert_ ((0 <=? off) && (0 <=? n) && (off + n <=? zlen l)); Some (take (Z.to_nat n) (drop (Z.to_nat off) l)).

(** The bytes of the memory into the packet, and of the packet into the memory; [off] is [hostAddr]. *)
Definition load (p : Pkt.Packet) (off n : Z) (w : World) : option World :=
  match pmemAddr (mem w) with
  | None => Some w
  | Some h => d ← Pkt.getPtr p; b ← Pkt.memcpy d 0 h off n (bufs w); Some (set_bufs b w)
  end.
Definition store (p : Pkt.Packet) (off n : Z) (w : World) : option World :=
  match pmemAddr (mem w) with
  | None => Some w
  | Some h => d ← Pkt.getPtr p; b ← Pkt.memcpy h off d 0 n (bufs w); Some (set_bufs b w)
  end.

Definition atomic_op (p : Pkt.Packet) (req : Req.Request) (off n : Z) (w : World) : option World :=
  match pmemAddr (mem w) with
  | None => Some w
  | Some h =>
      w ← load p off n w;
      op ← Req.getAtomicOpFunctor req;
      l ← bufs w !! h;
      l ← Req.run_op op off l;
      Some (set_bufs (<[h := l]> (bufs w)) w)
  end.

(** Does a conditional swap overwrite the memory? *)
Definition swap_condition (req : Req.Request) (off n : Z) (host : list Z) : option bool :=
  if Req.isCondSwap req then
    if n =? 8 then e ← Req.getExtraData req; c ← bytes_at off 8 host; Some (bool_decide (Pkt.le_bytes 8 e = c))
    else if n =? 4 then e ← Req.getExtraData req; c ← bytes_at off 4 host; Some (bool_decide (Pkt.le_bytes 4 (uint32 e) = c))
    else None
  else Some true.

Definition swap (p : Pkt.Packet) (req : Req.Request) (off n : Z) (w : World) : option World :=
  h ← pmemAddr (mem w);
  d ← Pkt.getPtr p;
  v ← bufs w !! d;
  overwrite_val ← bytes_at 0 n v;
  w ← load p off n w;
  host ← bufs w !! h;
  overwrite_mem ← swap_condition req off n host;
  let w := if (overwrite_mem : bool) then set_bufs (<[h := Pkt.blit host off overwrite_val 0 n]> (bufs w)) w else w in
  _ ← assert_ (negb (Req.isInstFetch req));
  Some (set_mem (count_other (Req.masterId req) (mem w)) w).

Definition read (p : Pkt.Packet) (req : Req.Request) (off n : Z) (w : World) : option World :=
  _ ← assert_ (negb (Pkt.isWrite p));
  w ← (if Pkt.isLLSC p then
         _ ← assert_ (negb (Pkt.fromCache p));
         l ← trackLoadLocked req (lockedAddrList (mem w));
         Some (set_mem (set_locks l (mem w)) w)
       else Some w);
  w ← load p off n w;
  Some (set_mem (count_read (Req.masterId req) n (Req.isInstFetch req) (mem w)) w).

Definition write (p : Pkt.Packet) (off n : Z) (w : World) : option World :=
  '(ok, w) ← writeOK p w;
  if (ok : bool) then
    w ← store p off n w;
    req ← requests w !! Pkt.req p;
    _ ← assert_ (negb (Req.isInstFetch req));
    Some (set_mem (count_write (Req.masterId req) n (mem w)) w)
  else Some w.

(** The access itself, by the command of the packet. *)
Definition dispatch (p : Pkt.Packet) (req : Req.Request) (off n : Z) (w : World) : option World :=
  if bool_decide (Pkt.cmd p = Pkt.SwapReq) then
    if Req.isAtomic req then atomic_op p req off n w else swap p req off n w
  else if Pkt.isRead p then read p req off n w
  else if Pkt.isInvalidate p || Pkt.isClean p then _ ← assert_ (negb (Pkt.isWrite p)); Some w
  else if Pkt.isWrite p then write p off n w
  else None.

Definition access (pkt : positive) (w : World) : option World :=
  p ← packets w !! pkt;
  if Pkt.cacheResponding p then Some w
  else if Pkt.isCleanEviction p then Some w
  else
    a ← Pkt.getAddr p;
    n ← Pkt.getSize p;
    inside ← isSubset (AddrRange_plain a (uint64 (a + uint32 (n - 1)))) (range (mem w));
    _ ← assert_ inside;
    req ← requests w !! Pkt.req p;
    w ← dispatch p req (a - ar_start (range (mem w))) n w;
    if Pkt.needsResponse p then p ← Pkt.makeResponse p; Some (set_packet pkt p w) else Some w.

Definition functionalAccess (pkt : positive) (w : World) : option World :=
  p ← packets w !! pkt;
  a ← Pkt.getAddr p;
  n ← Pkt.getSize p;
  inside ← isSubset (AddrRange_plain a (uint64 (a + n - 1))) (range (mem w));
  _ ← assert_ inside;
  let off := a - ar_start (range (mem w)) in
  if Pkt.isRead p then w ← load p off n w; p ← Pkt.makeResponse p; Some (set_packet pkt p w)
  else if Pkt.isWrite p then w ← store p off n w; p ← Pkt.makeResponse p; Some (set_packet pkt p w)
  else if Pkt.isPrint p then
    _ ← assert_ (match Pkt.senderState p with [] => false | _ => true end);
    h ← pmemAddr (mem w); l ← bufs w !! h; _ ← aget l off; Some w
  else None.
End World.
#[global] Arguments World : clear implicits.
End AMem.
