(* ===== verification/AbstractMemCorrect.v ===== *)
(** * AbstractMemCorrect: a specification of the memory, and its parts

    [MemSpec] is what the memory of [AbstractMem] promises: bytes by address, and for
    every context at most one reserved granule of sixteen bytes.  The lemmas relate
    the list of locked addresses to the reservations, and copies to the bytes. *)

From stdpp Require Import prelude gmap.
From Stdlib Require Import ZArith Lia.
From S2P Require Import Prelude Machine AddrRange EventQueue Packet PacketTheorems Request AbstractMem.

Open Scope Z_scope.

(** ** The specification *)

Module MemSpec.

(** Bytes by address, granules by context. *)
Record State := mkState { contents : Z -> Z; reserved : gmap Z Z }.

(** [Rmw a n op] is a read of [n] bytes followed by an update of the word at [a]. *)
Inductive Op :=
  | Load (a n : Z)
  | LoadLocked (c a n : Z)
  | Store (a : Z) (v : list Z)
  | StoreCond (c a : Z) (v : list Z)
  | Exchange (a : Z) (v : list Z) (expected : option (list Z))
  | Rmw (a n : Z) (op : Req.AtomicOp)
  | Touch (v : list Z).

Definition granule (a : Z) : Z := 16 * (a / 16).

Definition read_bytes (a n : Z) (f : Z -> Z) : list Z := mkarray n (fun k => f (a + k)).
Definition write_bytes (a : Z) (v : list Z) (f : Z -> Z) : Z -> Z := fun x => if (a <=? x) && (x <? a + zlen v) then nthZ v (x - a) else f x.
Definition unreserve (g : Z) (r : gmap Z Z) : gmap Z Z := filter (fun e => e.2 <> g) r.

(** What an operation does, the bytes it returns, and whether a conditional store is performed. *)
Definition step (o : Op) (s : State) : State * list Z * option bool :=
  match o with
  | Load a n => (s, read_bytes a n (contents s), None)
  | LoadLocked c a n => (mkState (contents s) (<[c := granule a]> (reserved s)), read_bytes a n (contents s), None)
  | Store a v => (mkState (write_bytes a v (contents s)) (unreserve (granule a) (reserved s)), v, None)
  | StoreCond c a v =>
      if bool_decide (reserved s !! c = Some (granule a))
      then (mkState (write_bytes a v (contents s)) (unreserve (granule a) (reserved s)), v, Some true)
      else (s, v, Some false)
  | Exchange a v e =>
      let old := read_bytes a (zlen v) (contents s) in
      (if match e with None => true | Some e => bool_decide (e = old) end then mkState (write_bytes a v (contents s)) (reserved s) else s, old, None)
  | Rmw a n op =>
      let k := Z.to_nat (Req.sizeof_T op) in
      let w := Pkt.le_value k (read_bytes a (Req.sizeof_T op) (contents s)) in
      (mkState (write_bytes a (Pkt.le_bytes k (Req.execute op w)) (contents s)) (reserved s), read_bytes a n (contents s), None)
  | Touch v => (s, v, None)
  end.

End MemSpec.

Import AMem MemSpec.

(** ** Reservations *)

Lemma mask_granule a : 0 <= a < 2 ^ 64 -> mask a = granule a.
Proof.
  intros Ha. unfold mask, Addr_Mask, granule. change (uint64 (Z.lnot 15)) with (Z.shiftl (Z.ones 60) 4).
  replace (16 * (a / 16)) with (Z.shiftl (Z.shiftr a 4) 4).
  - apply Z.bits_inj'. intros i Hi. rewrite Z.land_spec, !Z.shiftl_spec by lia. destruct (Z.ltb_spec i 4).
    + by rewrite !(Z.testbit_neg_r _ (i - 4)), andb_false_r by lia.
    + rewrite Z.shiftr_spec by lia. replace (i - 4 + 4) with i by lia. destruct (Z.ltb_spec (i - 4) 60).
      * by rewrite Z.ones_spec_low, andb_true_r by lia.
      * rewrite (testbit_high a 64) by lia. done.
  - rewrite Z.shiftl_mul_pow2, Z.shiftr_div_pow2 by lia. change (2 ^ 4) with 16. lia.
Qed.

Definition reservations (l : list LockedAddr) : gmap Z Z := list_to_map ((fun i => (la_contextId i, la_addr i)) <$> l).
Definition single (l : list LockedAddr) : Prop := NoDup (la_contextId <$> l).

Lemma reservations_cons i l : reservations (i :: l) = <[la_contextId i := la_addr i]> (reservations l).
Proof. done. Qed.

Lemma pairs_contexts l : ((fun i => (la_contextId i, la_addr i)) <$> l).*1 = la_contextId <$> l.
Proof. by rewrite <- list_fmap_compose. Qed.

Lemma reservations_elem l c g : single l -> reservations l !! c = Some g <-> mkLocked g c ∈ l.
Proof.
  intros Hs. unfold reservations. rewrite <- elem_of_list_to_map by (rewrite pairs_contexts; exact Hs).
  rewrite list_elem_of_fmap. split.
  - intros ([a c'] & [= -> ->] & Hi). done.
  - intros Hi. by exists (mkLocked g c).
Qed.

Lemma single_filter (P : LockedAddr -> Prop) `{forall i, Decision (P i)} l : single l -> single (filter P l).
Proof.
  unfold single. intros Hs. eapply sublist_NoDup; [exact Hs|]. apply fmap_sublist, sublist_filter.
Qed.

Lemma reservations_filter g l :
  single l -> reservations (filter (fun i => la_addr i <> g) l) = unreserve g (reservations l).
Proof.
  intros Hs. apply map_eq. intros c. apply option_eq. intros g'. unfold unreserve. rewrite map_lookup_filter_Some.
  rewrite !reservations_elem by (done || by apply single_filter). rewrite list_elem_of_filter. simpl. tauto.
Qed.

Section Request.
Context (req : Req.Request) (c : Z).
Hypothesis Hc : Req.contextId req = Some c.

Lemma find_record_spec g l : find_record g req l = Some (bool_decide (mkLocked g c ∈ l)).
Proof.
  induction l as [|[a c'] l IH]; cbn [find_record].
  { by rewrite bool_decide_false by apply not_elem_of_nil. }
  unfold matchesContext. rewrite Hc, IH. cbn.
  destruct (Z.eqb_spec a g) as [->|Ha]; cbn; [destruct (Z.eqb_spec c' c) as [->|Hn]; cbn|].
  - f_equal. symmetry. apply bool_decide_true. left.
  - f_equal. apply bool_decide_ext. rewrite elem_of_cons. split; [by right|]. intros [[= Hx]|]; [congruence|done].
  - f_equal. apply bool_decide_ext. rewrite elem_of_cons. split; [by right|]. intros [[= Hx]|]; [congruence|done].
Qed.

Lemma update_record_spec g l :
  single l ->
  wp (update_record g req l) (fun '(found, l') => (found = true <-> c ∈ la_contextId <$> l) /\ la_contextId <$> l' = la_contextId <$> l /\
    (found = false -> l' = l) /\ (found = true -> reservations l' = <[c := g]> (reservations l))).
Proof.
  induction l as [|[a c'] l IH]; intros Hs; simpl.
  { split; [split; [done|by intros H%not_elem_of_nil]|]. done. }
  unfold single in Hs. simpl in Hs. apply NoDup_cons in Hs as [Hn Hs].
  unfold matchesContext. rewrite Hc. simpl. destruct (Z.eqb_spec c' c) as [->|Hne].
  - simpl. split; [split; [intros; left|done]|]. split; [done|]. split; [done|]. intros _. rewrite !reservations_cons. simpl.
    by rewrite insert_insert_eq.
  - apply wp_bind. eapply wp_mono; [exact (IH Hs)|]. intros [found l'] (H1 & H2 & H3 & H4). simpl. split.
    { rewrite H1, elem_of_cons. split; [by right|]. intros [|]; [congruence|done]. }
    split; [by f_equal|]. split; [intros Hf; by rewrite H3|]. intros Hf. rewrite !reservations_cons, (H4 Hf). simpl.
    by rewrite insert_insert_ne.
Qed.

Lemma track_spec a l :
  Req.getPaddr req = Some a -> single l ->
  wp (trackLoadLocked req l) (fun l' => single l' /\ reservations l' = <[c := mask a]> (reservations l) /\
    forall i, i ∈ la_contextId <$> l' -> i = c \/ i ∈ la_contextId <$> l).
Proof.
  intros Ha Hs. unfold trackLoadLocked. rewrite Ha. simpl. apply wp_bind. eapply wp_mono; [by apply update_record_spec|].
  intros [found l'] (H1 & H2 & H3 & H4). destruct found; simpl.
  - unfold single. rewrite H2. split; [done|]. split; [by apply H4|]. auto.
  - unfold LockedAddr_new. rewrite Ha, Hc. simpl. rewrite H3 by done. split.
    + unfold single. simpl. constructor; [|exact Hs]. intros Hi. by apply H1 in Hi.
    + split; [done|]. intros i Hi. by apply elem_of_cons in Hi.
Qed.
End Request.

(** Erasing the records of a granule tells their owners, which can be told. *)
Lemma erase_records_spec {X} (clear : Z -> X -> option X) (known : Z -> Prop) (I : X -> Prop) g req l x :
  (forall c x, known c -> I x -> exists x', clear c x = Some x' /\ I x') ->
  I x -> Forall (fun i => known (la_contextId i)) l -> (is_Some (Req.contextId req) \/ Forall (fun i => la_addr i <> g) l) ->
  wp (erase_records clear g req l x) (fun '(l', x') => l' = filter (fun i => la_addr i <> g) l /\ I x').
Proof.
  intros Hclear. revert x. induction l as [|i l IH]; intros x Hx Hk Hc; [done|].
  apply Forall_cons in Hk as [Hi Hk]. simpl. rewrite filter_cons. destruct (Z.eqb_spec (la_addr i) g) as [Eg|Ng].
  - rewrite decide_False by tauto. destruct Hc as [[c Ec]|Hc]; [|by apply Forall_cons in Hc as [? _]]. rewrite Ec. simpl.
    destruct (negb (la_contextId i =? c)).
    + destruct (Hclear (la_contextId i) x Hi Hx) as (x' & Ex & Hx'). rewrite Ex. simpl. apply IH; eauto.
    + simpl. apply IH; eauto.
  - rewrite decide_True by done. apply wp_bind. eapply wp_mono.
    + apply IH; [done|done|]. destruct Hc as [|Hc]; [by left|right]. by apply Forall_cons in Hc as [_ ?].
    + intros [l' x'] [-> Hx']. done.
Qed.

(** ** Copies *)

Lemma blit_bytes d doff s soff n k :
  0 <= k < zlen d -> nthZ (Pkt.blit d doff s soff n) k = if (doff <=? k) && (k <? doff + n) then nthZ s (soff + (k - doff)) else nthZ d k.
Proof. intros Hk. unfold Pkt.blit. by rewrite nthZ_mkarray. Qed.

Lemma zlen_blit d doff s soff n : zlen (Pkt.blit d doff s soff n) = zlen d.
Proof. unfold Pkt.blit. apply zlen_mkarray, zlen_nonneg. Qed.

Lemma subset_bounds a e r :
  isSubset (AddrRange_plain a e) r = Some true -> ar_start r <= a /\ e <= ar_end r.
Proof.
  unfold isSubset. simpl. destruct (interleaved r).
  - intros [= H]. apply andb_true_iff in H as [[H1 H2]%andb_true_iff _]. apply contains_iff in H1 as [H1 _]. apply contains_iff in H2 as [H2 _].
    simpl in *. lia.
  - intros [= H]. apply andb_true_iff in H as [H1%Z.leb_le H2%Z.leb_le]. simpl in *. done.
Qed.

(** * Every access implements its operation

    The simulation between [AbstractMem] and [MemSpec], one lemma for each branch
    of [access]. *)

#[local] Existing Instance Pkt.Command_eq_dec.
#[local] Arguments Z.add : simpl never.
#[local] Arguments Z.sub : simpl never.
#[local] Arguments erase_records : simpl never.
#[local] Arguments find_record : simpl never.

(** The operation a packet asks for; [v] is its data. *)
Definition expected (n : Z) (req : Req.Request) : option (option (list Z)) :=
  if Req.isCondSwap req then
    if n =? 8 then e ← Req.getExtraData req; Some (Some (Pkt.le_bytes 8 e))
    else if n =? 4 then e ← Req.getExtraData req; Some (Some (Pkt.le_bytes 4 (uint32 e)))
    else None
  else Some None.

Definition operation (p : Pkt.Packet) (req : Req.Request) (v : list Z) : option Op :=
  let a := Pkt.addr p in
  let n := Pkt.size p in
  if bool_decide (Pkt.cmd p = Pkt.SwapReq) then
    if Req.isAtomic req then op ← Req.getAtomicOpFunctor req; _ ← assert_ (Req.sizeof_T op =? n); Some (Rmw a n op)
    else _ ← assert_ (negb (Req.isInstFetch req)); e ← expected n req; Some (Exchange a v e)
  else if Pkt.isRead p then
    _ ← assert_ (negb (Pkt.isWrite p));
    if Pkt.isLLSC p then _ ← assert_ (negb (Pkt.fromCache p)); c ← Req.contextId req; Some (LoadLocked c a n)
    else Some (Load a n)
  else if Pkt.isInvalidate p || Pkt.isClean p then _ ← assert_ (negb (Pkt.isWrite p)); Some (Touch v)
  else if Pkt.isWrite p then
    _ ← assert_ (negb (Req.isInstFetch req));
    if Pkt.isLLSC p then c ← Req.contextId req; Some (StoreCond c a v) else Some (Store a v)
  else None.

(** The buffer of a memory holds the bytes of its range. *)
Definition stored (r : AddrRange) (l : list Z) (f : Z -> Z) : Prop :=
  zlen l = ar_end r - ar_start r + 1 /\ forall x, ar_start r <= x <= ar_end r -> nthZ l (x - ar_start r) = f x.

Section Access.
Context {X : Type} (clear : Z -> X -> option X) (known : Z -> Prop) (I : X -> Prop).
Hypothesis Hclear : forall c x, known c -> I x -> exists x', clear c x = Some x' /\ I x'.

Record represents (h : positive) (w : World X) (s : State) : Prop := {
  rp_pmem : pmemAddr (mem w) = Some h;
  rp_bytes : exists l, bufs w !! h = Some l /\ stored (range (mem w)) l (contents s);
  rp_single : single (lockedAddrList (mem w));
  rp_reserved : reserved s = reservations (lockedAddrList (mem w));
  rp_known : Forall (fun i => known (la_contextId i)) (lockedAddrList (mem w));
  rp_rest : I (rest w)
}.

(** A packet the memory can serve: valid, inside the range, with data of its own. *)
Record ready (h pkt : positive) (w : World X) (p : Pkt.Packet) (req : Req.Request) (d : positive) (v : list Z) : Prop := {
  rd_packet : packets w !! pkt = Some p;
  rd_request : requests w !! Pkt.req p = Some req;
  rd_data : accessible p (bufs w) d v;
  rd_other : d <> h;
  rd_cache : Pkt.cacheResponding p = false;
  rd_evict : Pkt.isCleanEviction p = false;
  rd_range : isSubset (AddrRange_plain (Pkt.addr p) (Pkt.addr p + Pkt.size p - 1)) (range (mem w)) = Some true;
  rd_paddr : Req.getPaddr req = Some (Pkt.addr p);
  rd_known : forall c, Req.contextId req = Some c -> known c
}.

(** The state after the access itself, before the packet becomes a response. *)
Record after (h : positive) (w : World X) (p : Pkt.Packet) (d : positive) (r : State * list Z * option bool) (w' : World X) : Prop := {
  af_rep : represents h w' r.1.1;
  af_data : bufs w' !! d = Some r.1.2;
  af_packets : packets w' = packets w;
  af_range : range (mem w') = range (mem w);
  af_requests : requests w' = match r.2 with
    | None => requests w
    | Some b => match requests w !! Pkt.req p with
                | Some q => <[Pkt.req p := Req.setExtraData (if (b : bool) then 1 else 0) q]> (requests w)
                | None => requests w
                end
    end;
  af_frame : forall e, e <> d -> e <> h -> bufs w' !! e = bufs w !! e
}.

Context (h pkt : positive) (w : World X) (s : State) (p : Pkt.Packet) (req : Req.Request) (d : positive) (v : list Z).
Hypothesis (Hrep : represents h w s) (Hrd : ready h pkt w p req d v).

Let a := Pkt.addr p.
Let n := Pkt.size p.
Let off := a - ar_start (range (mem w)).

Lemma ready_bounds : 0 < n /\ zlen v = n /\ ar_start (range (mem w)) <= a /\ a + n - 1 <= ar_end (range (mem w)).
Proof.
  pose proof (rd_data _ _ _ _ _ _ _ Hrd) as Hac. pose proof (ac_pos _ _ _ _ Hac). pose proof (ac_len _ _ _ _ Hac).
  pose proof (subset_bounds _ _ _ (rd_range _ _ _ _ _ _ _ Hrd)). unfold a, n. lia.
Qed.

Lemma ready_ptr : Pkt.getPtr p = Some d.
Proof. pose proof (rd_data _ _ _ _ _ _ _ Hrd) as Hac. unfold Pkt.getPtr. rewrite (ac_ptr _ _ _ _ Hac). exact (ac_data _ _ _ _ Hac). Qed.

Lemma read_slice l f m :
  stored (range (mem w)) l f -> 0 <= m <= n -> take (Z.to_nat m) (drop (Z.to_nat off) l) = read_bytes a m f.
Proof.
  intros [Hl Hf] Hm. pose proof ready_bounds as (H1 & H2 & H3 & H4). unfold read_bytes.
  apply alist_eq; [rewrite zlen_mkarray by lia; unfold zlen in *; rewrite length_take, length_drop; unfold off; lia|].
  intros k Hk. assert (0 <= k < m) as Hkm.
  { revert Hk. unfold zlen. rewrite length_take, length_drop. lia. }
  rewrite aget_mkarray by lia. rewrite <- (Hf (a + k)) by lia.
  replace (a + k - ar_start (range (mem w))) with (off + k) by (unfold off; lia).
  rewrite <- aget_nthZ by (unfold off; lia). unfold aget. zcases; try lia.
  rewrite lookup_take_lt, lookup_drop by lia. f_equal. lia.
Qed.

(** [load] copies the bytes of the memory over those of the packet. *)
Lemma load_eq (w1 : World X) f :
  pmemAddr (mem w1) = Some h -> bufs w1 = bufs w -> (exists l, bufs w !! h = Some l /\ stored (range (mem w)) l f) ->
  load p off n w1 = Some (set_bufs (<[d := read_bytes a n f]> (bufs w)) w1).
Proof.
  intros Hm Hb (l & Hl & Hst). pose proof (rd_data _ _ _ _ _ _ _ Hrd) as Hac. pose proof ready_bounds as (H1 & H2 & H3 & H4).
  unfold load. rewrite Hm, ready_ptr. simpl. rewrite Hb.
  rewrite (memcpy_ok d 0 h off n v l); [|apply Hac|done|apply (rd_other _ _ _ _ _ _ _ Hrd)|lia|unfold off; lia|lia|destruct Hst; unfold off; lia].
  simpl. do 3 f_equal. destruct Hst as [Hz Hf]. apply list_eq_nthZ.
  - rewrite zlen_blit. unfold read_bytes. rewrite zlen_mkarray by lia. done.
  - intros k Hk. rewrite zlen_blit, H2 in Hk. rewrite blit_bytes by lia. unfold read_bytes. rewrite nthZ_mkarray by done.
    rewrite <- Hf by lia. zcases; try lia. simpl. f_equal. unfold off. lia.
Qed.

(** A write of [m] over the buffer of the memory. *)
Lemma blit_stored l f m :
  stored (range (mem w)) l f -> zlen m = n -> stored (range (mem w)) (Pkt.blit l off m 0 n) (write_bytes a m f).
Proof.
  intros [Hz Hf] Hm. pose proof ready_bounds as (H1 & H2 & H3 & H4). split; [by rewrite zlen_blit|].
  intros x Hx. rewrite blit_bytes by lia. unfold write_bytes. rewrite Hm, <- Hf by done.
  assert ((off <=? x - ar_start (range (mem w))) && (x - ar_start (range (mem w)) <? off + n) = (a <=? x) && (x <? a + n)) as ->
    by (unfold off; zcases; simpl; (done || lia)).
  destruct (_ && _); [|done]. f_equal. unfold off. lia.
Qed.

(** [store] copies the bytes of the packet into the memory. *)
Lemma store_eq (w1 : World X) l :
  pmemAddr (mem w1) = Some h -> bufs w1 = bufs w -> bufs w !! h = Some l -> stored (range (mem w)) l (contents s) ->
  store p off n w1 = Some (set_bufs (<[h := Pkt.blit l off v 0 n]> (bufs w)) w1).
Proof.
  intros Hm Hb Hl [Hz Hf]. pose proof (rd_data _ _ _ _ _ _ _ Hrd) as Hac. pose proof ready_bounds as (H1 & H2 & H3 & H4).
  unfold store. rewrite Hm, ready_ptr. simpl. rewrite Hb.
  rewrite (memcpy_ok h off d 0 n l v); [done|done|apply Hac|symmetry; apply (rd_other _ _ _ _ _ _ _ Hrd)|unfold off; lia|lia|unfold off; lia|lia].
Qed.
(** ** Reads *)

Lemma read_plain :
  Pkt.isWrite p = false -> Pkt.isLLSC p = false -> wp (read p req off n w) (after h w p d (step (Load a n) s)).
Proof.
  intros Hw Hl. unfold read. rewrite Hw, Hl. cbn [negb assert_ mbind option_bind].
  rewrite (load_eq w (contents s)); [|apply Hrep|done|apply Hrep]. simpl.
  pose proof (rd_other _ _ _ _ _ _ _ Hrd). destruct Hrep as [R1 (l & R2 & R3) R4 R5 R6 R7]. split; simpl; try done.
  - split; simpl; try done. exists l. by rewrite lookup_insert_ne.
  - by rewrite lookup_insert_eq.
  - intros e H1 H2. by rewrite lookup_insert_ne.
Qed.

Lemma addr_range : 0 <= a < 2 ^ 64.
Proof. pose proof (rd_data _ _ _ _ _ _ _ Hrd) as Hac. pose proof (ac_pos _ _ _ _ Hac). pose proof (ac_end _ _ _ _ Hac). unfold a. lia. Qed.

Lemma read_locked c :
  Pkt.isWrite p = false -> Pkt.isLLSC p = true -> Pkt.fromCache p = false -> Req.contextId req = Some c ->
  wp (read p req off n w) (after h w p d (step (LoadLocked c a n) s)).
Proof.
  intros Hw Hl Hf Hc. unfold read. rewrite Hw, Hl, Hf. cbn [negb assert_ mbind option_bind].
  apply wp_bind, wp_bind. eapply wp_mono; [apply (track_spec req c Hc a); [apply Hrd|apply Hrep]|]. intros l' (T1 & T2 & T3).
  simpl. rewrite (load_eq _ (contents s)); [|apply Hrep|done|apply Hrep]. simpl.
  pose proof (rd_other _ _ _ _ _ _ _ Hrd). pose proof (rd_known _ _ _ _ _ _ _ Hrd c Hc) as Hkc.
  destruct Hrep as [R1 (l & R2 & R3) R4 R5 R6 R7]. split; simpl; try done.
  - split; simpl; try done.
    + exists l. by rewrite lookup_insert_ne.
    + by rewrite T2, R5, mask_granule by apply addr_range.
    + apply (Forall_fmap _ known) in R6. rewrite Forall_forall in R6. apply (Forall_fmap _ known), Forall_forall. intros i Hi.
      destruct (T3 i Hi) as [->|Hi']; [done|by apply R6].
  - by rewrite lookup_insert_eq.
  - intros e H1 H2. by rewrite lookup_insert_ne.
Qed.

(** ** Writes *)

(** The reservations on the granule of the packet are gone. *)
Definition released (x : X) : World X := set_rest x (set_mem (set_locks (filter (fun i => la_addr i <> mask a) (lockedAddrList (mem w))) (mem w)) w).

Lemma writeOK_store :
  Pkt.isLLSC p = false -> (is_Some (Req.contextId req) \/ Forall (fun i => la_addr i <> mask a) (lockedAddrList (mem w))) ->
  wp (writeOK clear p w) (fun '(ok, w1) => ok = true /\ exists x, I x /\ w1 = released x).
Proof.
  intros Hl Hc. unfold writeOK. destruct (lockedAddrList (mem w)) as [|i l] eqn:El.
  - rewrite Hl. simpl. split; [done|]. exists (rest w). split; [apply Hrep|]. unfold released. rewrite El. simpl.
    destruct w as [[? ? ? ? ? lk ? ?] ? ? ? ?]. simpl in *. by subst lk.
  - unfold checkLockedAddrList. rewrite (rd_request _ _ _ _ _ _ _ Hrd). simpl. rewrite (rd_paddr _ _ _ _ _ _ _ Hrd), Hl. simpl. rewrite El.
    apply wp_bind. eapply wp_mono.
    + apply (erase_records_spec clear known I); [exact Hclear|apply Hrep|rewrite <- El; apply Hrep|exact Hc].
    + intros [l' x] [-> Hx]. simpl. split; [done|]. exists x. split; [done|]. unfold released. by rewrite El.
Qed.

Lemma writeOK_cond c :
  Pkt.isLLSC p = true -> Req.contextId req = Some c ->
  wp (writeOK clear p w) (fun '(ok, w1) => ok = bool_decide (reservations (lockedAddrList (mem w)) !! c = Some (mask a)) /\
    exists x, I x /\ w1 = set_request (Pkt.req p) (Req.setExtraData (if ok then 1 else 0) req) (if ok then released x else w)).
Proof.
  intros Hl Hc. pose proof (rp_rest _ _ _ Hrep) as HI. pose proof (rp_single _ _ _ Hrep) as Hs. unfold writeOK. destruct (lockedAddrList (mem w)) as [|i l] eqn:El.
  - rewrite Hl, (rd_request _ _ _ _ _ _ _ Hrd). simpl. unfold reservations. simpl. rewrite lookup_empty, bool_decide_false by done. split; [done|]. by exists (rest w).
  - unfold checkLockedAddrList. rewrite (rd_request _ _ _ _ _ _ _ Hrd). simpl. rewrite (rd_paddr _ _ _ _ _ _ _ Hrd), Hl. simpl. rewrite El.
    rewrite (find_record_spec _ _ Hc). simpl. fold a.
    assert (bool_decide (mkLocked (mask a) c ∈ i :: l) = bool_decide (reservations (i :: l) !! c = Some (mask a))) as ->.
    { apply bool_decide_ext. symmetry. by apply reservations_elem. }
    destruct (bool_decide _).
    + apply wp_bind. eapply wp_mono.
      * apply (erase_records_spec clear known I); [exact Hclear|apply Hrep|rewrite <- El; apply Hrep|left; by rewrite Hc].
      * intros [l' x] [-> Hx]. simpl. split; [done|]. exists x. split; [done|]. unfold released. by rewrite El.
    + simpl. split; [done|]. by exists (rest w).
Qed.

(** Writing the packet after its reservations are released. *)
Lemma write_released x (sc : option bool) (w1 : World X) :
  I x -> mem w1 = mem (released x) -> packets w1 = packets w -> bufs w1 = bufs w -> rest w1 = x -> Req.isInstFetch req = false ->
  (exists q, requests w1 !! Pkt.req p = Some q /\ Req._flags q = Req._flags req) ->
  requests w1 = match sc with
    | None => requests w
    | Some b => match requests w !! Pkt.req p with
                | Some q => <[Pkt.req p := Req.setExtraData (if (b : bool) then 1 else 0) q]> (requests w)
                | None => requests w
                end
    end ->
  wp (w ← store p off n w1; req ← requests w !! Pkt.req p; _ ← assert_ (negb (Req.isInstFetch req));
      Some (set_mem (count_write (Req.masterId req) n (mem w)) w))
     (after h w p d (mkState (write_bytes a v (contents s)) (unreserve (granule a) (reserved s)), v, sc)).
Proof.
  intros Hx Hm Hp Hb Hr Hi (q & Hq & Hfl) Hreq. pose proof (rd_other _ _ _ _ _ _ _ Hrd). pose proof (rd_data _ _ _ _ _ _ _ Hrd) as Hac.
  pose proof ready_bounds as (_ & Hlen & _). destruct Hrep as [R1 (l & R2 & R3) R4 R5 R6 R7].
  rewrite (store_eq w1 l); [|by rewrite Hm|done|done|done]. simpl. rewrite Hq. simpl.
  assert (Req.isInstFetch q = false) as -> by (unfold Req.isInstFetch; rewrite Hfl; exact Hi). simpl.
  split; simpl; rewrite ?Hm; simpl; try done.
  - split; simpl; rewrite ?Hm; simpl; try done.
    + eexists. rewrite lookup_insert_eq. split; [done|]. by apply blit_stored.
    + by apply single_filter.
    + by rewrite reservations_filter, R5, mask_granule by (done || apply addr_range).
    + rewrite Forall_forall in R6 |- *. intros i Hin. apply list_elem_of_filter in Hin as [_ Hin]. by apply R6.
    + by rewrite Hr.
  - rewrite lookup_insert_ne by done. apply Hac.
  - intros e H1 H2. by rewrite lookup_insert_ne.
Qed.

Lemma write_plain :
  Pkt.isLLSC p = false -> Req.isInstFetch req = false ->
  (is_Some (Req.contextId req) \/ Forall (fun i => la_addr i <> mask a) (lockedAddrList (mem w))) ->
  wp (write clear p off n w) (after h w p d (step (Store a v) s)).
Proof.
  intros Hl Hi Hc. unfold write. apply wp_bind. eapply wp_mono; [by apply writeOK_store|]. intros [ok w1] (-> & x & Hx & ->).
  apply (write_released x None); try done. exists req. by rewrite <- (rd_request _ _ _ _ _ _ _ Hrd).
Qed.

Lemma write_cond c :
  Pkt.isLLSC p = true -> Req.isInstFetch req = false -> Req.contextId req = Some c ->
  wp (write clear p off n w) (after h w p d (step (StoreCond c a v) s)).
Proof.
  intros Hl Hi Hc. pose proof (rd_request _ _ _ _ _ _ _ Hrd) as Hq. unfold write. apply wp_bind. eapply wp_mono; [by apply (writeOK_cond c)|].
  intros [ok w1] (Hok & x & Hx & ->). unfold step. rewrite (rp_reserved _ _ _ Hrep), <- mask_granule by apply addr_range. rewrite <- Hok.
  clear Hok. destruct ok.
  - rewrite mask_granule by apply addr_range. rewrite <- (rp_reserved _ _ _ Hrep).
    apply (write_released x (Some true)); try done; simpl.
    + rewrite lookup_insert_eq. eexists. by split.
    + by rewrite Hq.
  - simpl. destruct Hrep as [R1 R2 R3 R4 R5 R6]. split; simpl; try done.
    + apply (rd_data _ _ _ _ _ _ _ Hrd).
    + by rewrite Hq.
Qed.
(** ** Swaps *)

Lemma swap_condition_spec l f e :
  expected n req = Some e -> stored (range (mem w)) l f ->
  swap_condition req off n l = Some (match e with None => true | Some e => bool_decide (e = read_bytes a n f) end).
Proof.
  intros He Hst. pose proof ready_bounds as (H1 & H2 & H3 & H4). unfold swap_condition. unfold expected in He.
  assert (forall m, 0 <= m <= n -> bytes_at off m l = Some (read_bytes a m f)) as Hb.
  { intros m Hm. unfold bytes_at. rewrite (read_slice l f) by done. destruct Hst as [Hz _].
    assert ((0 <=? off) && (0 <=? m) && (off + m <=? zlen l) = true) as -> by (unfold off; zcases; simpl; (done || lia)). done. }
  destruct (Req.isCondSwap req); [|by injection He as <-].
  destruct (Z.eqb_spec n 8) as [E8|]; [|destruct (Z.eqb_spec n 4) as [E4|]; [|done]].
  - apply bind_Some in He as (x & -> & [= <-]). cbn [mbind option_bind]. by rewrite Hb, E8 by lia.
  - apply bind_Some in He as (x & -> & [= <-]). cbn [mbind option_bind]. by rewrite Hb, E4 by lia.
Qed.

Lemma take_all : take (Z.to_nat n) v = v.
Proof. pose proof ready_bounds as (H1 & H2 & _). apply take_ge. unfold zlen in H2. lia. Qed.

Lemma swap_exchange e :
  Req.isInstFetch req = false -> expected n req = Some e -> wp (swap p req off n w) (after h w p d (step (Exchange a v e) s)).
Proof.
  intros Hi He. pose proof ready_bounds as (H1 & H2 & H3 & H4). pose proof (rd_other _ _ _ _ _ _ _ Hrd) as Hne.
  pose proof (rd_data _ _ _ _ _ _ _ Hrd) as Hac. pose proof Hrep as [R1 (l & R2 & R3) R4 R5 R6 R7].
  unfold swap. rewrite R1, ready_ptr. cbn [mbind option_bind]. rewrite (ac_buf _ _ _ _ Hac). cbn [mbind option_bind].
  unfold bytes_at at 1. rewrite drop_0, take_all.
  assert ((0 <=? 0) && (0 <=? n) && (0 + n <=? zlen v) = true) as -> by (zcases; simpl; (done || lia)).
  cbn [assert_ mbind option_bind]. rewrite (load_eq w (contents s)); [|done|done|by exists l]. cbn [mbind option_bind set_bufs bufs].
  rewrite lookup_insert_ne, R2 by done. cbn [mbind option_bind].
  rewrite (swap_condition_spec l (contents s) e) by done. cbn [mbind option_bind]. rewrite Hi. cbn [negb assert_ mbind option_bind].
  unfold step. rewrite H2. set (b := match e with None => true | Some e => bool_decide (e = read_bytes a n (contents s)) end).
  destruct b; split; simpl; try done.
  - split; simpl; try done. eexists. rewrite lookup_insert_eq. split; [done|]. by apply blit_stored.
  - by rewrite lookup_insert_ne, lookup_insert_eq by done.
  - intros x E1 E2. by rewrite !lookup_insert_ne.
  - split; simpl; try done. exists l. by rewrite lookup_insert_ne.
  - by rewrite lookup_insert_eq.
  - intros x E1 E2. by rewrite lookup_insert_ne.
Qed.

Lemma le_value_take k l : Pkt.le_value k (take k l) = Pkt.le_value k l.
Proof. revert l. induction k as [|k IH]; intros [|x l]; simpl; try done. by rewrite IH. Qed.

Lemma rmw_after op :
  Req.getAtomicOpFunctor req = Some op -> Req.sizeof_T op = n -> wp (atomic_op p req off n w) (after h w p d (step (Rmw a n op) s)).
Proof.
  intros Ho Hn. pose proof ready_bounds as (H1 & H2 & H3 & H4). pose proof (rd_other _ _ _ _ _ _ _ Hrd) as Hne.
  pose proof Hrep as [R1 (l & R2 & R3) R4 R5 R6 R7].
  unfold atomic_op. rewrite R1. rewrite (load_eq w (contents s)); [|done|done|by exists l]. cbn [mbind option_bind set_bufs bufs].
  rewrite Ho. cbn [mbind option_bind]. rewrite lookup_insert_ne, R2 by done. cbn [mbind option_bind].
  unfold Req.run_op. rewrite Hn.
  assert ((0 <=? off) && (0 <=? n) && (off + n <=? zlen l) = true) as -> by (destruct R3; unfold off; zcases; simpl; (done || lia)).
  cbn [assert_ mbind option_bind]. rewrite <- (le_value_take (Z.to_nat n) (drop _ _)), (read_slice l (contents s)) by (done || lia).
  unfold step. rewrite Hn. split; simpl; try done.
  - split; simpl; try done. eexists. rewrite lookup_insert_eq. split; [done|]. apply blit_stored; [done|].
    unfold zlen. rewrite length_le_bytes. lia.
  - by rewrite lookup_insert_ne, lookup_insert_eq by done.
  - intros x E1 E2. by rewrite !lookup_insert_ne.
Qed.

(** ** Every access *)

(** A plain store needs a context when its granule is reserved. *)
Definition granted (o : Op) : Prop :=
  match o with
  | Store a _ => is_Some (Req.contextId req) \/ forall c, reserved s !! c <> Some (granule a)
  | _ => True
  end.

Definition turned_round : gmap positive Pkt.Packet :=
  match Pkt.makeResponse p with Some q => <[pkt := q]> (packets w) | None => packets w end.

Lemma dispatch_after o :
  operation p req v = Some o -> granted o -> wp (dispatch clear p req off n w) (after h w p d (step o s)).
Proof.
  intros Ho Hg. unfold operation in Ho. unfold dispatch. destruct (bool_decide (Pkt.cmd p = Pkt.SwapReq)).
  { destruct (Req.isAtomic req).
    - apply bind_Some in Ho as (op & Eo & Ho). destruct (Z.eqb_spec (Req.sizeof_T op) (Pkt.size p)); [|done].
      injection Ho as <-. by apply rmw_after.
    - destruct (Req.isInstFetch req) eqn:Ei; [done|]. simpl in Ho. apply bind_Some in Ho as (e & Ee & [= <-]). by apply swap_exchange. }
  destruct (Pkt.isRead p).
  { destruct (Pkt.isWrite p) eqn:Ew; [done|]. simpl in Ho. destruct (Pkt.isLLSC p) eqn:El.
    - destruct (Pkt.fromCache p) eqn:Ef; [done|]. simpl in Ho. apply bind_Some in Ho as (c & Ec & [= <-]). by apply read_locked.
    - injection Ho as <-. by apply read_plain. }
  destruct (Pkt.isInvalidate p || Pkt.isClean p).
  { destruct (Pkt.isWrite p); [done|]. injection Ho as <-. simpl. split; simpl; try done. apply (rd_data _ _ _ _ _ _ _ Hrd). }
  destruct (Pkt.isWrite p); [|done]. destruct (Req.isInstFetch req) eqn:Ei; [done|]. simpl in Ho. destruct (Pkt.isLLSC p) eqn:El.
  - apply bind_Some in Ho as (c & Ec & [= <-]). by apply write_cond.
  - injection Ho as <-. apply write_plain; [done|done|]. destruct Hg as [|Hg]; [by left|right].
    apply Forall_forall. intros [a' c'] Hin Eq. simpl in Eq. apply (Hg c'). rewrite (rp_reserved _ _ _ Hrep).
    rewrite <- mask_granule by apply addr_range. fold a. rewrite <- Eq. apply reservations_elem; [apply Hrep|done].
Qed.

(** A packet that is ready is dispatched and turned round. *)
Lemma access_eq :
  access clear pkt w =
  (w1 ← dispatch clear p req off n w; if Pkt.needsResponse p then q ← Pkt.makeResponse p; Some (set_packet pkt q w1) else Some w1).
Proof.
  pose proof (rd_data _ _ _ _ _ _ _ Hrd) as Hac. pose proof (ac_pos _ _ _ _ Hac). pose proof (ac_end _ _ _ _ Hac).
  unfold access. rewrite (rd_packet _ _ _ _ _ _ _ Hrd). cbn [mbind option_bind].
  rewrite (rd_cache _ _ _ _ _ _ _ Hrd), (rd_evict _ _ _ _ _ _ _ Hrd). unfold Pkt.getAddr, Pkt.getSize.
  rewrite (ac_addr _ _ _ _ Hac), (ac_size _ _ _ _ Hac). cbn [assert_ mbind option_bind].
  unfold uint64, uint32. rewrite (wrapU_small 32), (wrapU_small 64) by lia.
  replace (Pkt.addr p + (Pkt.size p - 1)) with (Pkt.addr p + Pkt.size p - 1) by lia.
  rewrite (rd_range _ _ _ _ _ _ _ Hrd). cbn [assert_ mbind option_bind]. by rewrite (rd_request _ _ _ _ _ _ _ Hrd).
Qed.

Lemma access_after o :
  operation p req v = Some o -> granted o ->
  wp (access clear pkt w) (fun w' => exists w1, after h w p d (step o s) w1 /\
    w' = mkWorld (mem w1) (requests w1) turned_round (bufs w1) (rest w1)).
Proof.
  intros Ho Hg. rewrite access_eq. apply wp_bind. eapply wp_mono; [by apply (dispatch_after o)|]. intros w1 Haf. unfold turned_round.
  destruct (make_response p) as [Hm _]. destruct (Pkt.needsResponse p) eqn:En.
  - destruct (proj2 Hm eq_refl) as [q Eq]. rewrite Eq. simpl. exists w1. split; [done|]. unfold set_packet. by rewrite (af_packets _ _ _ _ _ _ Haf).
  - assert (Pkt.makeResponse p = None) as -> by (destruct (Pkt.makeResponse p); [discriminate (proj1 Hm ltac:(eauto))|done]).
    simpl. exists w1. split; [done|]. rewrite <- (af_packets _ _ _ _ _ _ Haf). by destruct w1.
Qed.

(** ** Stores *)

Definition is_store (o : Op) : bool := match o with Store _ _ | StoreCond _ _ _ => true | _ => false end.

Lemma store_dispatch o :
  operation p req v = Some o -> is_store o = true ->
  dispatch clear p req off n w = write clear p off n w /\
  (o = Store a v /\ Pkt.isLLSC p = false \/ exists c, o = StoreCond c a v /\ Pkt.isLLSC p = true /\ Req.contextId req = Some c).
Proof.
  intros Ho Hst. unfold operation in Ho. unfold dispatch. destruct (bool_decide _).
  { destruct (Req.isAtomic req); apply bind_Some in Ho as (? & _ & (? & _ & [= <-])%bind_Some); done. }
  destruct (Pkt.isRead p).
  { apply bind_Some in Ho as (? & _ & Ho). destruct (Pkt.isLLSC p); [apply bind_Some in Ho as (? & _ & (? & _ & Ho)%bind_Some)|]; by injection Ho as <-. }
  destruct (Pkt.isInvalidate p || Pkt.isClean p); [apply bind_Some in Ho as (? & _ & [= <-]); done|]. destruct (Pkt.isWrite p); [|done].
  split; [done|]. apply bind_Some in Ho as (? & _ & Ho). destruct (Pkt.isLLSC p); [right|by injection Ho as <-; left].
  apply bind_Some in Ho as (c & Ec & [= <-]). by exists c.
Qed.
End Access.
