(* ===== verification/AbstractMemTheorems.v ===== *)
(** * AbstractMemTheorems: what the memory promises

    The accesses of the memory refine [MemSpec], so a read returns what was written
    last; an exclusive store is performed exactly when its context's reservation was
    not interrupted; a store by a master without a context fails an assertion when
    the granule is reserved; and the cores whose reservations a store ends are told. *)

From stdpp Require Import prelude gmap.
From Stdlib Require Import ZArith Lia.
From S2P Require Import Prelude Machine AddrRange EventQueue Packet PacketTheorems Request AbstractMem AbstractMemCorrect.
Import AMem MemSpec.

Open Scope Z_scope.

Section Memory.
Context {X : Type} (clear : Z -> X -> option X) (known : Z -> Prop) (I : X -> Prop).
Hypothesis Hclear : forall c x, known c -> I x -> exists x', clear c x = Some x' /\ I x'.

Abbreviation represents := (represents known I).
Abbreviation ready := (ready known).

(** The state of the memory and of the packet after an operation. *)
Record implements (h pkt : positive) (w : World X) (s : State) (p : Pkt.Packet) (d : positive) (o : Op) (w' : World X) : Prop := {
  im_state : represents h w' (step o s).1.1;
  im_data : bufs w' !! d = Some (step o s).1.2;
  im_packets : packets w' = turned_round pkt w p;
  im_requests : forall r, r <> Pkt.req p \/ (step o s).2 = None -> requests w' !! r = requests w !! r;
  im_result : forall b, (step o s).2 = Some b ->
    exists q, requests w' !! Pkt.req p = Some q /\ Req.getExtraData q = Some (if (b : bool) then 1 else 0);
  im_frame : forall e, e <> d -> e <> h -> bufs w' !! e = bufs w !! e
}.

Lemma extra_data_set x q : Req.getExtraData (Req.setExtraData x q) = Some x.
Proof.
  unfold Req.getExtraData, Req.setExtraData, Req.validate, Flags.isSet, Flags.set. simpl.
  assert ((Z.land (Z.lor (Req.privateFlags q) Req.VALID_EXTRA_DATA) Req.VALID_EXTRA_DATA =? 0) = false) as ->; [|done].
  apply Z.eqb_neq. intros E. apply (f_equal (fun z => Z.testbit z 7)) in E. rewrite Z.land_spec, Z.lor_spec in E.
  change (Z.testbit Req.VALID_EXTRA_DATA 7) with true in E. rewrite orb_true_r in E. done.
Qed.

Lemma access_implements h pkt w s p req d v o :
  represents h w s -> ready h pkt w p req d v -> operation p req v = Some o -> granted s req o ->
  wp (access clear pkt w) (implements h pkt w s p d o).
Proof.
  intros Hrep Hrd Ho Hg. eapply wp_mono; [by apply (access_after clear known I Hclear h pkt w s p req d v Hrep Hrd o)|].
  intros w' (w1 & [A1 A2 A3 A4 A5 A6] & ->). destruct A1 as [R1 R2 R3 R4 R5 R6]. split; simpl; try done.
  - intros r Hr. rewrite A5. destruct (step o s).2 as [b|]; [|done]. destruct Hr as [Hr|]; [|done].
    rewrite (rd_request _ _ _ _ _ _ _ _ Hrd). by rewrite lookup_insert_ne.
  - intros b Eb. rewrite A5, Eb, (rd_request _ _ _ _ _ _ _ _ Hrd), lookup_insert_eq. eexists. split; [done|]. apply extra_data_set.
Qed.

(** ** Exclusive accesses *)

(** A sequence of accesses, with other parts of the system at work in between. *)
Inductive session (h : positive) : World X -> State -> list (Op * option bool) -> World X -> State -> Prop :=
  | session_start w s : session h w s [] w s
  | session_access w s tr w1 s1 pkt p req d v o w2 :
      session h w s tr w1 s1 -> ready h pkt w1 p req d v -> operation p req v = Some o -> granted s1 req o ->
      access clear pkt w1 = Some w2 -> session h w s (tr ++ [(o, (step o s1).2)]) w2 (step o s1).1.1
  | session_other w s tr w1 s1 w2 :
      session h w s tr w1 s1 -> mem w2 = mem w1 -> bufs w2 !! h = bufs w1 !! h -> I (rest w2) -> session h w s tr w2 s1.

Lemma session_represents h w s tr w1 s1 : represents h w s -> session h w s tr w1 s1 -> represents h w1 s1.
Proof.
  intros Hrep. induction 1 as [|w s tr w1 s1 pkt p req d v o w2 Hs IH Hrd Ho Hg Ha|w s tr w1 s1 w2 Hs IH Hm Hb HI]; [done| |].
  - exact (im_state _ _ _ _ _ _ _ _ (wp_some _ _ _ Ha (access_implements h pkt w1 s1 p req d v o (IH Hrep) Hrd Ho Hg))).
  - destruct (IH Hrep) as [R1 R2 R3 R4 R5 R6]. split; rewrite ?Hm, ?Hb; done.
Qed.

(** The exclusive loads of a context, and the performed stores that end the reservations on a
    granule: plain and exclusive stores whose first byte is in it.  Swaps, atomic operations and
    the further granules of a long store are not among them, although they write
    the memory (see [swap_keeps_reservations] and [wide_store_keeps_reservations]). *)
Definition loads_locked (c : Z) (e : Op * option bool) : Prop := match e.1 with LoadLocked c' _ _ => c' = c | _ => False end.
Definition ends_reservations (g : Z) (e : Op * option bool) : Prop :=
  match e with
  | (Store a _, _) => granule a = g
  | (StoreCond _ a _, Some true) => granule a = g
  | _ => False
  end.

(** Since the last exclusive load of [c], which was to granule [g], no store has ended the reservations on [g]. *)
Definition uninterrupted (c g : Z) (tr : list (Op * option bool)) : Prop :=
  exists tr1 a n r tr2, tr = tr1 ++ (LoadLocked c a n, r) :: tr2 /\ granule a = g /\
    Forall (fun e => ~ loads_locked c e /\ ~ ends_reservations g e) tr2.

Lemma uninterrupted_nil c g : ~ uninterrupted c g [].
Proof. intros (tr1 & a & n & r & tr2 & E & _). by destruct tr1. Qed.

Lemma uninterrupted_snoc c g tr e :
  uninterrupted c g (tr ++ [e]) <->
  (exists a n, e.1 = LoadLocked c a n /\ granule a = g) \/ (~ loads_locked c e /\ ~ ends_reservations g e /\ uninterrupted c g tr).
Proof.
  split.
  - intros (tr1 & a & n & r & tr2 & E & Hg & Hf). destruct tr2 as [|e' tr2 _] using rev_ind.
    + apply app_inj_tail in E as [_ ->]. left. by exists a, n.
    + right. change ((LoadLocked c a n, r) :: tr2 ++ [e']) with (((LoadLocked c a n, r) :: tr2) ++ [e']) in E. rewrite app_assoc in E.
      apply app_inj_tail in E as [-> ->]. apply Forall_app in Hf as [Hf He]. apply Forall_singleton in He as [H1 H2].
      split; [done|]. split; [done|]. by exists tr1, a, n, r, tr2.
  - intros [(a & n & E & Hg)|(H1 & H2 & tr1 & a & n & r & tr2 & -> & Hg & Hf)].
    + destruct e as [o r]. simpl in E. subst o. exists tr, a, n, r, []. split; [done|]. split; [done|]. constructor.
    + exists tr1, a, n, r, (tr2 ++ [e]). split; [by rewrite <- app_assoc|]. split; [done|]. apply Forall_app. split; [done|]. by apply Forall_singleton.
Qed.

(** One step changes the reservation of a context as the trace says. *)
Lemma step_reserved o s c g :
  reserved (step o s).1.1 !! c = Some g <->
  (exists a n, o = LoadLocked c a n /\ granule a = g) \/
  (~ loads_locked c (o, (step o s).2) /\ ~ ends_reservations g (o, (step o s).2) /\ reserved s !! c = Some g).
Proof.
  assert (forall x, unreserve x (reserved s) !! c = Some g <-> x <> g /\ reserved s !! c = Some g) as Hun.
  { intros x. unfold unreserve. rewrite map_lookup_filter_Some. simpl. split; intros [H1 H2]; split; congruence. }
  destruct o as [a n|c' a n|a v|c' a v|a v e|a n op|v]; unfold loads_locked, ends_reservations; simpl.
  - split; [intros H; right; auto|]. by intros [(? & ? & ? & ?)|(_ & _ & ?)].
  - destruct (decide (c' = c)) as [->|Hn].
    + rewrite lookup_insert_eq. split; [intros [= <-]; left; eauto|]. by intros [(? & ? & [= -> ->] & <-)|(? & _)].
    + rewrite lookup_insert_ne by done. split; [intros H; right; auto|]. by intros [(? & ? & [= -> -> ->] & _)|(_ & _ & ?)].
  - rewrite Hun. split; [intros [H1 H2]; right; auto|]. by intros [(? & ? & ? & ?)|(_ & ? & ?)].
  - case_bool_decide; simpl.
    + rewrite Hun. split; [intros [H1 H2]; right; auto|]. by intros [(? & ? & ? & ?)|(_ & ? & ?)].
    + split; [intros H1; right; auto|]. by intros [(? & ? & ? & ?)|(_ & _ & ?)].
  - destruct (match e with None => true | Some _ => _ end); simpl; (split; [intros H; right; auto|]; by intros [(? & ? & ? & ?)|(_ & _ & ?)]).
  - split; [intros H; right; auto|]. by intros [(? & ? & ? & ?)|(_ & _ & ?)].
  - split; [intros H; right; auto|]. by intros [(? & ? & ? & ?)|(_ & _ & ?)].
Qed.

Lemma session_reserved h w s tr w1 s1 c g :
  reserved s = ∅ -> session h w s tr w1 s1 -> reserved s1 !! c = Some g <-> uninterrupted c g tr.
Proof.
  intros He. induction 1 as [w s|w s tr w1 s1 pkt p req d v o w2 Hs IH Hrd Ho Hg Ha|w s tr w1 s1 w2 Hs IH Hm Hb HI].
  - rewrite He, lookup_empty. split; [done|]. by intros H%uninterrupted_nil.
  - rewrite step_reserved, uninterrupted_snoc. simpl. by rewrite (IH He).
  - by apply IH.
Qed.

(** C24: exclusive stores.  After any sequence of accesses to a memory that starts without
    reservations, the exclusive store of a context [c] reports success exactly when
    [c] has loaded exclusively from the granule of sixteen bytes the store starts in,
    has not loaded exclusively since, and no plain store and no successful exclusive
    store that starts in this granule was performed since, by anyone; the bytes are written, and all
    reservations on the granule ended, exactly in this case, and otherwise nothing
    changes.  Swaps, atomic operations and stores that start in an earlier granule
    and reach into this one do not count, as the code has it. *)
Theorem exclusive_store h w s tr w1 s1 pkt p req d v c a :
  represents h w s -> reserved s = ∅ -> session h w s tr w1 s1 ->
  ready h pkt w1 p req d v -> operation p req v = Some (StoreCond c a v) ->
  wp (access clear pkt w1) (fun w2 => exists b q,
    requests w2 !! Pkt.req p = Some q /\ Req.getExtraData q = Some (if (b : bool) then 1 else 0) /\
    (b = true <-> uninterrupted c (granule a) tr) /\
    represents h w2 (if b then mkState (write_bytes a v (contents s1)) (unreserve (granule a) (reserved s1)) else s1)).
Proof.
  intros Hrep He Hs Hrd Ho. pose proof (session_represents _ _ _ _ _ _ Hrep Hs) as Hrep1.
  eapply wp_mono; [by apply (access_implements h pkt w1 s1 p req d v _ Hrep1 Hrd Ho)|]. intros w2 [I1 I2 I3 I4 I5 I6].
  pose proof (session_reserved _ _ _ _ _ _ c (granule a) He Hs) as Hres. simpl in I1, I5.
  exists (bool_decide (reserved s1 !! c = Some (granule a))).
  case_bool_decide as Hb; simpl in *; destruct (I5 _ eq_refl) as (q & Hq & Hx); exists q; (split; [done|]); (split; [done|]); by rewrite <- Hres.
Qed.
(** ** Reads and writes *)

Definition run_ops (ops : list Op) (s : State) : State := foldl (fun s o => (step o s).1.1) s ops.

Lemma session_run h w s tr w1 s1 : session h w s tr w1 s1 -> s1 = run_ops tr.*1 s.
Proof.
  induction 1 as [w s|w s tr w1 s1 pkt p req d v o w2 Hs IH Hrd Ho Hg Ha|w s tr w1 s1 w2 Hs IH Hm Hb HI]; [done| |done].
  rewrite fmap_app. unfold run_ops. rewrite foldl_app. simpl. by rewrite IH.
Qed.

(** C23: refinement.  After any sequence of accesses, with other activity in between, the
    memory holds the bytes and the reservations that the specification computes from
    the operations of the packets alone; the next access, of any kind the memory
    serves, takes it to the specification's next state, leaves the specified bytes in
    the packet, turns the packet into its response when it needs one, reports the
    specified result of a conditional store in its request, and touches no other
    buffer, packet or request. *)
Theorem memory_refines h w s tr w1 s1 pkt p req d v o :
  represents h w s -> session h w s tr w1 s1 ->
  ready h pkt w1 p req d v -> operation p req v = Some o -> granted s1 req o ->
  s1 = run_ops tr.*1 s /\ wp (access clear pkt w1) (implements h pkt w1 (run_ops tr.*1 s) p d o).
Proof.
  intros Hrep Hs Hrd Ho Hg. pose proof (session_run _ _ _ _ _ _ Hs) as E. split; [done|]. rewrite <- E.
  apply (access_implements h pkt w1 s1 p req d v o); [|done|done|done]. by apply (session_represents h w s tr).
Qed.

(** Does an operation with a result write an address? *)
Definition writes (e : Op * option bool) (x : Z) : Prop :=
  match e with
  | (Store a v, _) | (StoreCond _ a v, Some true) | (Exchange a v _, _) => a <= x < a + zlen v
  | (Rmw a _ op, _) => a <= x < a + Req.sizeof_T op
  | _ => False
  end.

Lemma write_bytes_out a v f x : ~ (a <= x < a + zlen v) -> write_bytes a v f x = f x.
Proof. intros H. unfold write_bytes. zcases; simpl; (done || lia). Qed.

Lemma step_contents o s x : ~ writes (o, (step o s).2) x -> contents (step o s).1.1 x = contents s x.
Proof.
  destruct o as [a n|c a n|a v|c a v|a v e|a n op|v]; simpl; try done.
  - intros H. by apply write_bytes_out.
  - case_bool_decide; simpl; [|done]. intros H1. by apply write_bytes_out.
  - intros H. destruct (match e with None => true | Some _ => _ end); simpl; [|done]. by apply write_bytes_out.
  - intros H. apply write_bytes_out. unfold zlen. rewrite length_le_bytes. lia.
Qed.

Lemma session_unwritten h w s tr w1 s1 :
  session h w s tr w1 s1 -> forall tr1 tr2, tr = tr1 ++ tr2 ->
  exists wm sm, session h w s tr1 wm sm /\ forall x, Forall (fun e => ~ writes e x) tr2 -> contents s1 x = contents sm x.
Proof.
  induction 1 as [w s|w s tr w1 s1 pkt p req d v o w2 Hs IH Hrd Ho Hg Ha|w s tr w1 s1 w2 Hs IH Hm Hb HI]; intros tr1 tr2 E.
  - destruct tr1, tr2; try done. exists w, s. split; [constructor|done].
  - destruct tr2 as [|e tr2 _] using rev_ind.
    + rewrite app_nil_r in E. subst tr1. exists w2, (step o s1).1.1. split; [by eapply session_access|done].
    + rewrite app_assoc in E. apply app_inj_tail in E as [-> <-]. destruct (IH tr1 tr2 eq_refl) as (wm & sm & Hsm & Hc).
      exists wm, sm. split; [done|]. intros x Hf. apply Forall_app in Hf as [Hf He]. rewrite Forall_singleton in He.
      rewrite (step_contents o s1 x He). by apply Hc.
  - exact (IH tr1 tr2 E).
Qed.

Lemma session_snoc h w s tr o r w1 s1 : session h w s (tr ++ [(o, r)]) w1 s1 -> exists wm sm, session h w s tr wm sm /\ s1 = (step o sm).1.1.
Proof.
  intros H. remember (tr ++ [(o, r)]) as tr' eqn:E. revert E.
  induction H as [w s|w s tr' w1 s1 pkt p req d v o' w2 Hs IH Hrd Ho Hg Ha|w s tr' w1 s1 w2 Hs IH Hm Hb HI]; intros E.
  - by destruct tr.
  - apply app_inj_tail in E as [-> [= -> _]]. eauto.
  - by apply IH.
Qed.

(** Writes are read back.  When a store of [v] at address [a] is followed by any accesses
    that do not write these addresses, a later load of as many bytes from [a] leaves
    exactly [v] in its packet. *)
Theorem write_then_read h w s tr1 a v tr2 w1 s1 pkt p req d u :
  represents h w s -> session h w s (tr1 ++ (Store a v, None) :: tr2) w1 s1 ->
  Forall (fun e => forall x, a <= x < a + zlen v -> ~ writes e x) tr2 ->
  ready h pkt w1 p req d u -> operation p req u = Some (Load a (zlen v)) ->
  wp (access clear pkt w1) (fun w2 => bufs w2 !! d = Some v /\ packets w2 = turned_round pkt w1 p).
Proof.
  intros Hrep Hs Hf Hrd Ho. pose proof (session_represents _ _ _ _ _ _ Hrep Hs) as Hrep1.
  eapply wp_mono; [by apply (access_implements h pkt w1 s1 p req d u _ Hrep1 Hrd Ho)|]. intros w2 [_ I2 I3 _ _ _]. split; [|done].
  rewrite I2. simpl. f_equal. destruct (session_unwritten _ _ _ _ _ _ Hs (tr1 ++ [(Store a v, None)]) tr2) as (wm & sm & Hsm & Hc).
  { by rewrite <- app_assoc. }
  destruct (session_snoc _ _ _ _ _ _ _ _ Hsm) as (w0 & s0 & _ & ->). apply list_eq_nthZ; [apply zlen_mkarray, zlen_nonneg|].
  unfold read_bytes. rewrite zlen_mkarray by apply zlen_nonneg. intros k Hk. rewrite nthZ_mkarray by done. rewrite Hc.
  - simpl. unfold write_bytes. zcases; simpl; try lia. f_equal. lia.
  - eapply Forall_impl; [exact Hf|]. intros e He. apply He. lia.
Qed.

(** ** Masters without a context *)

Lemma erase_fails g req l x : Req.contextId req = None -> Exists (fun i => la_addr i = g) l -> erase_records clear g req l x = None.
Proof.
  intros Hc. revert x. induction l as [|i l IH]; intros x He; [by apply Exists_nil in He|]. simpl.
  destruct (Z.eqb_spec (la_addr i) g); [by rewrite Hc|]. apply Exists_cons in He as [|He]; [done|]. by rewrite IH.
Qed.

(** Stores without a context.  A store whose request has no context, such as one by a
    device, fails an assertion of the memory when some context holds a reservation on its
    granule. *)
Theorem store_without_context h w s pkt p req d v a c :
  represents h w s -> ready h pkt w p req d v -> operation p req v = Some (Store a v) ->
  Req.contextId req = None -> reserved s !! c = Some (granule a) -> access clear pkt w = None.
Proof.
  intros Hrep Hrd Ho Hc Hr. pose proof (addr_range known h pkt w p req d v Hrd) as Ha. rewrite (access_eq clear known h pkt w p req d v Hrd).
  destruct (store_dispatch clear w p req v _ Ho eq_refl) as (-> & [[[= Ea] El]|(? & ? & _)]); [|done].
  rewrite (rp_reserved _ _ _ _ _ Hrep) in Hr. apply reservations_elem in Hr; [|apply Hrep].
  unfold write, writeOK. destruct (lockedAddrList (mem w)) as [|i l] eqn:Ell; [by apply not_elem_of_nil in Hr|].
  unfold checkLockedAddrList. rewrite (rd_request _ _ _ _ _ _ _ _ Hrd). cbn [mbind option_bind]. rewrite (rd_paddr _ _ _ _ _ _ _ _ Hrd), El, Ell. cbn [mbind option_bind].
  rewrite mask_granule by done. rewrite erase_fails; [done|done|]. apply Exists_exists. exists (mkLocked (granule a) c). split; [done|]. simpl. by rewrite Ea.
Qed.
End Memory.
