(* ===== verification/LockedMem.v ===== *)
(** * LockedMem: the exclusive monitor of an ARM core

    Translates [gem5-X-TiC-SAT/src/arch/arm/locked_mem.hh]: what a core does when it
    loads exclusively, stores exclusively, sees a snoop, or is told by the memory
    that its reservation is gone.  A context has the three registers the code uses
    and its count of failed exclusive stores; [wakeups] counts the calls of
    [wakeup] of its CPU.  The warning about long sequences of failures is left out. *)

From stdpp Require Import prelude gmap.
From Stdlib Require Import ZArith Lia.
From S2P Require Import Prelude Machine AddrRange EventQueue Packet PacketTheorems Request AbstractMem AbstractMemCorrect AbstractMemTheorems.

Open Scope Z_scope.

Module Monitor.

Record Context := mkContext {
  lockFlag : bool;
  lockAddr : Z;
  sevMailbox : bool;
  stCondFailures : Z;
  wakeups : Z
}.

Definition clear_lock (x : Context) : Context := mkContext false (lockAddr x) (sevMailbox x) (stCondFailures x) (wakeups x).

(** [LOCKFLAG] is cleared, [SEV_MAILBOX] set, and the CPU woken up. *)
Definition globalClearExclusive (x : Context) : Context :=
  mkContext false (lockAddr x) true (stCondFailures x) (wakeups x + 1).

Definition handleLockedSnoop (pkt : Pkt.Packet) (cacheBlockMask : Z) (x : Context) : option Context :=
  _ ← assert_ (Pkt.isInvalidate pkt || Pkt.isWrite pkt);
  if negb (lockFlag x) then Some x
  else
    let locked_addr := Z.land (lockAddr x) cacheBlockMask in
    a ← Pkt.getAddr pkt;
    let snoop_addr := Z.land a cacheBlockMask in
    if locked_addr =? snoop_addr then Some (mkContext false (lockAddr x) true (stCondFailures x) (wakeups x + 1)) else Some x.

Definition handleLockedRead (req : Req.Request) (x : Context) : option Context :=
  a ← Req.getPaddr req; Some (mkContext true a (sevMailbox x) (stCondFailures x) (wakeups x)).

Definition handleLockedSnoopHit (x : Context) : Context :=
  mkContext false (lockAddr x) true (stCondFailures x) (wakeups x).

(** The answer says whether the store is sent to the memory system. *)
Definition handleLockedWrite (req : Req.Request) (cacheBlockMask : Z) (x : Context) : option (bool * Req.Request * Context) :=
  if Req.isSwap req then Some (true, req, x)
  else
    let lock_addr := Z.land (lockAddr x) cacheBlockMask in
    wrong ← (if negb (lockFlag x) then Some true else a ← Req.getPaddr req; Some (negb (Z.land a cacheBlockMask =? lock_addr)));
    if (wrong : bool) then
      let x := clear_lock x in
      Some (false, Req.setExtraData 0 req, mkContext (lockFlag x) (lockAddr x) (sevMailbox x) (stCondFailures x + 1) (wakeups x))
    else Some (true, req, x).

End Monitor.

(** * Cores and memory together

    The memory of [AbstractMem] tells the exclusive monitors of [LockedMem] when a
    store ends their reservations; what swaps, wide stores and memories without a
    backing store do; and the examples on which the theorems about the memory are
    run. *)

Import AMem MemSpec.

#[local] Arguments erase_records : simpl never.

(** ** The monitors of the cores *)

Abbreviation Cores := (gmap Z Monitor.Context).

(** [globalClearExclusive(system()->getThreadContext(c))] *)
Definition tell (c : Z) (x : Cores) : option Cores := m ← x !! c; Some (<[c := Monitor.globalClearExclusive m]> x).

Lemma erase_tell g req c0 l x l' x' :
  single l -> Req.contextId req = Some c0 -> erase_records tell g req l x = Some (l', x') ->
  forall c, x' !! c = if bool_decide (mkLocked g c ∈ l) && negb (c =? c0) then Monitor.globalClearExclusive <$> x !! c else x !! c.
Proof.
  intros Hs Hc. revert x l' Hs. induction l as [|[a ci] l IH]; intros x l' Hs E c.
  { injection E as _ <-. by rewrite bool_decide_false by apply not_elem_of_nil. }
  unfold single in Hs. cbn in Hs. apply NoDup_cons in Hs as [Hn Hs].
  assert (forall g', mkLocked g' ci ∉ l) as Hn'.
  { intros g' Hin. apply Hn, list_elem_of_fmap. by exists (mkLocked g' ci). }
  unfold erase_records in E. fold (erase_records tell) in E. cbn [la_addr la_contextId] in E.
  destruct (Z.eqb_spec a g) as [->|Ha].
  - rewrite Hc in E. cbn [mbind option_bind] in E. apply bind_Some in E as (x1 & E1 & E). rewrite (IH x1 l' Hs E c).
    destruct (decide (c = ci)) as [->|Hci].
    + rewrite (bool_decide_false _ (Hn' g)), (bool_decide_true (_ ∈ _ :: _)) by left. cbn [andb].
      destruct (Z.eqb_spec ci c0); cbn [negb] in *; [by injection E1 as <-|]. unfold tell in E1. apply bind_Some in E1 as (m & Em & [= <-]).
      by rewrite lookup_insert_eq, Em.
    + assert (x1 !! c = x !! c) as ->.
      { destruct (negb (ci =? c0)); [|by injection E1 as <-]. unfold tell in E1. apply bind_Some in E1 as (m & _ & [= <-]). by rewrite lookup_insert_ne. }
      by rewrite (bool_decide_ext (mkLocked g c ∈ mkLocked g ci :: l) (mkLocked g c ∈ l))
        by (rewrite elem_of_cons; split; [intros [[= ?]|]; [congruence|done]|by right]).
  - apply bind_Some in E as ([l1 x1] & E1 & [= _ <-]). rewrite (IH x l1 Hs E1 c).
    by rewrite (bool_decide_ext (mkLocked g c ∈ mkLocked a ci :: l) (mkLocked g c ∈ l))
      by (rewrite elem_of_cons; split; [intros [[= ?]|]; [congruence|done]|by right]).
Qed.

Lemma writeOK_erases {X} (clear : Z -> X -> option X) p w w1 req a :
  requests w !! Pkt.req p = Some req -> Req.getPaddr req = Some a -> writeOK clear p w = Some (true, w1) ->
  exists l', erase_records clear (mask a) req (lockedAddrList (mem w)) (rest w) = Some (l', rest w1).
Proof.
  intros Hq Ha H. unfold writeOK in H. destruct (lockedAddrList (mem w)) as [|i l] eqn:El.
  - apply bind_Some in H as (w2 & H1 & [= H2 <-]). rewrite negb_true_iff in H2. rewrite H2 in H1. injection H1 as <-. by exists [].
  - unfold checkLockedAddrList in H. rewrite Hq in H. cbn [mbind option_bind] in H. rewrite Ha, El in H. cbn [mbind option_bind] in H.
    apply bind_Some in H as ([allow w2] & H1 & H2). destruct allow; [|done]. apply bind_Some in H2 as ([l' x] & H2 & [= <-]).
    assert (rest w2 = rest w) as Er.
    { destruct (Pkt.isLLSC p); [apply bind_Some in H1 as (f & _ & [= _ <-]); done|by injection H1 as <-]. }
    exists l'. by rewrite <- Er.
Qed.

(** A store leaves the rest of the system as [writeOK] does. *)
Lemma write_rest {X} (clear : Z -> X -> option X) p off n w w' :
  write clear p off n w = Some w' -> exists ok w1, writeOK clear p w = Some (ok, w1) /\ rest w' = rest w1.
Proof.
  intros H. unfold write in H. apply bind_Some in H as ([ok w1] & H1 & H). exists ok, w1. split; [done|].
  destruct ok; [|by injection H as <-]. apply bind_Some in H as (w2 & H2 & (q & _ & (? & _ & [= <-])%bind_Some)%bind_Some). simpl.
  unfold store in H2. destruct (pmemAddr (mem w1)); [|by injection H2 as <-]. by apply bind_Some in H2 as (? & _ & (? & _ & [= <-])%bind_Some).
Qed.

Section Monitors.
Context (known : Z -> Prop).

Definition all_known (x : Cores) : Prop := forall c, known c -> is_Some (x !! c).

Lemma tell_known c x : known c -> all_known x -> exists x', tell c x = Some x' /\ all_known x'.
Proof.
  intros Hc Hx. unfold tell. destruct (Hx c Hc) as [m Hm]. rewrite Hm. simpl. eexists. split; [done|].
  intros c' Hc'. destruct (decide (c' = c)) as [->|]; [by rewrite lookup_insert_eq|]. rewrite lookup_insert_ne by done. by apply Hx.
Qed.

(** The cores are told.  When a core stores to a granule, with a plain store or with an
    exclusive one whose reservation still holds, the monitor of every other core with
    a reservation on this granule is open afterwards, its event flag is set and it is
    woken up; the exclusive store that such a core attempts next is not even sent to
    the memory, and reports failure.  The monitors of all other cores stay as they were. *)
Theorem cores_are_told h w s pkt p req d v o c0 :
  represents known all_known h w s -> ready known h pkt w p req d v -> operation p req v = Some o ->
  Req.contextId req = Some c0 -> o = Store (Pkt.addr p) v \/ (o = StoreCond c0 (Pkt.addr p) v /\ reserved s !! c0 = Some (granule (Pkt.addr p))) ->
  wp (access tell pkt w) (fun w' => forall c m, rest w !! c = Some m ->
    if bool_decide (reserved s !! c = Some (granule (Pkt.addr p))) && negb (c =? c0)
    then rest w' !! c = Some (Monitor.globalClearExclusive m) /\
      forall q mask, Req.isSwap q = false -> exists m', Monitor.handleLockedWrite q mask (Monitor.globalClearExclusive m) = Some (false, Req.setExtraData 0 q, m')
    else rest w' !! c = Some m).
Proof.
  intros Hrep Hrd Ho Hc Hst. pose proof (addr_range known h pkt w p req d v Hrd) as Ha.
  assert (granted s req o) as Hg by (destruct Hst as [->|[-> _]]; [left; by rewrite Hc|done]).
  eapply wp_mono; [apply wp_eqn, (access_implements tell known all_known tell_known h pkt w s p req d v o Hrep Hrd Ho Hg)|].
  intros w' [_ E] c m Hm. rewrite (access_eq tell known h pkt w p req d v Hrd) in E. apply bind_Some in E as (w1 & E & Er).
  assert (rest w' = rest w1) as ->.
  { destruct (Pkt.needsResponse p); [apply bind_Some in Er as (? & _ & [= <-]); done|by injection Er as <-]. }
  rewrite (proj1 (store_dispatch tell w p req v o Ho ltac:(by destruct Hst as [->|[-> _]]))) in E.
  destruct (write_rest _ _ _ _ _ _ E) as (ok & w2 & E2 & ->).
  assert (ok = true) as ->.
  { destruct Hst as [->|[-> Hr]].
    - destruct (store_dispatch tell w p req v _ Ho eq_refl) as (_ & [[_ El]|(? & ? & _)]); [|done].
      apply (wp_some _ _ _ E2 (writeOK_store tell known all_known tell_known h pkt w s p req d v Hrep Hrd El (or_introl (ex_intro _ c0 Hc)))).
    - destruct (store_dispatch tell w p req v _ Ho eq_refl) as (_ & [[? _]|(c' & [= ->] & El & Ec)]); [done|].
      destruct (wp_some _ _ _ E2 (writeOK_cond tell known all_known tell_known h pkt w s p req d v Hrep Hrd c' El Ec)) as [-> _].
      apply bool_decide_true. rewrite mask_granule by done. by rewrite <- (rp_reserved _ _ _ _ _ Hrep). }
  destruct (writeOK_erases tell p w w2 req (Pkt.addr p)) as [l' El]; [apply Hrd|apply Hrd|done|].
  rewrite (erase_tell _ _ _ _ _ _ _ (rp_single _ _ _ _ _ Hrep) Hc El c), mask_granule by done.
  rewrite (bool_decide_ext (mkLocked _ c ∈ _) (reserved s !! c = Some (granule (Pkt.addr p)))).
  2: { rewrite (rp_reserved _ _ _ _ _ Hrep). symmetry. apply reservations_elem, Hrep. }
  destruct (_ && _); [|done]. rewrite Hm. split; [done|]. intros q k Hq. unfold Monitor.handleLockedWrite. rewrite Hq. simpl. eauto.
Qed.
End Monitors.

(** ** Stores that keep reservations *)

Section Kept.
Context {X : Type} (clear : Z -> X -> option X) (known : Z -> Prop) (I : X -> Prop).
Hypothesis Hclear : forall c x, known c -> I x -> exists x', clear c x = Some x' /\ I x'.
Context (h pkt : positive) (w : World X) (s : State) (p : Pkt.Packet) (req : Req.Request) (d : positive) (v : list Z).
Hypothesis (Hrep : represents known I h w s) (Hrd : ready known h pkt w p req d v).

(** Swaps keep reservations.  An unconditional swap writes the memory and leaves every
    reservation in place, also those on the granule it has written. *)
Theorem swap_keeps_reservations :
  operation p req v = Some (Exchange (Pkt.addr p) v None) ->
  wp (access clear pkt w) (fun w' => reservations (lockedAddrList (mem w')) = reserved s /\
    represents known I h w' (mkState (write_bytes (Pkt.addr p) v (contents s)) (reserved s))).
Proof.
  intros Ho. eapply wp_mono; [by apply (access_implements clear known I Hclear h pkt w s p req d v _ Hrep Hrd Ho)|].
  intros w' [I1 _ _ _ _ _]. split; [|exact I1]. symmetry. exact (rp_reserved _ _ _ _ _ I1).
Qed.

(** Wide stores keep reservations.  A store that runs over the end of its first granule
    writes the next granule and leaves the reservations on that one in place. *)
Theorem wide_store_keeps_reservations c :
  operation p req v = Some (Store (Pkt.addr p) v) -> is_Some (Req.contextId req) ->
  granule (Pkt.addr p) + 16 < Pkt.addr p + Pkt.size p -> reserved s !! c = Some (granule (Pkt.addr p) + 16) ->
  wp (access clear pkt w) (fun w' => reservations (lockedAddrList (mem w')) !! c = Some (granule (Pkt.addr p) + 16) /\
    exists s', represents known I h w' s' /\
      contents s' (granule (Pkt.addr p) + 16) = nthZ v (granule (Pkt.addr p) + 16 - Pkt.addr p)).
Proof.
  intros Ho Hc Hw Hr. pose proof (rd_data _ _ _ _ _ _ _ _ Hrd) as Hac. pose proof (ac_len _ _ _ _ Hac) as Hl. pose proof (ac_pos _ _ _ _ Hac).
  eapply wp_mono; [by apply (access_implements clear known I Hclear h pkt w s p req d v _ Hrep Hrd Ho); left|].
  intros w' [I1 _ _ _ _ _]. split.
  - rewrite <- (rp_reserved _ _ _ _ _ I1). simpl. unfold unreserve. apply map_lookup_filter_Some. split; [done|]. simpl. lia.
  - eexists. split; [exact I1|]. simpl. unfold write_bytes. rewrite Hl.
    assert (Pkt.addr p <= granule (Pkt.addr p) + 16) by (unfold granule; pose proof (Z.mod_pos_bound (Pkt.addr p) 16); pose proof (Z.div_mod (Pkt.addr p) 16); lia).
    zcases; simpl; (done || lia).
Qed.
End Kept.

(** Memories without a backing store.  A read from such a memory is answered with
    whatever the buffer of its packet held before: no byte of any buffer changes. *)
Theorem null_memory_read {X} (clear : Z -> X -> option X) pkt (w w' : World X) p :
  packets w !! pkt = Some p -> Pkt.isRead p = true -> Pkt.isWrite p = false -> pmemAddr (mem w) = None ->
  access clear pkt w = Some w' -> bufs w' = bufs w.
Proof.
  intros Hp Hr Hw Hm H. unfold access in H. rewrite Hp in H. cbn [mbind option_bind] in H.
  destruct (Pkt.cacheResponding p); [by injection H as <-|]. destruct (Pkt.isCleanEviction p); [by injection H as <-|].
  apply bind_Some in H as (a & _ & (n & _ & (b & _ & (? & _ & (req & _ & (w1 & H & Ht)%bind_Some)%bind_Some)%bind_Some)%bind_Some)%bind_Some).
  transitivity (bufs w1).
  { destruct (Pkt.needsResponse p); [by apply bind_Some in Ht as (? & _ & [= <-])|by injection Ht as <-]. }
  unfold dispatch in H. destruct (bool_decide (Pkt.cmd p = Pkt.SwapReq)) eqn:Es.
  { apply bool_decide_eq_true in Es. unfold Pkt.isWrite in Hw. by rewrite Es in Hw. }
  rewrite Hr in H. unfold read in H. rewrite Hw in H. cbn [negb assert_ mbind option_bind] in H. apply bind_Some in H as (w2 & H2 & (w3 & H3 & [= <-])%bind_Some).
  assert (pmemAddr (mem w2) = None /\ bufs w2 = bufs w) as [E1 E2].
  { destruct (Pkt.isLLSC p); [|by injection H2 as <-]. by apply bind_Some in H2 as (? & _ & (? & _ & [= <-])%bind_Some). }
  unfold load in H3. rewrite E1 in H3. injection H3 as <-. exact E2.
Qed.

(** ** Examples *)

(** A memory of 64 bytes at 0x1000, and a word at 0x1004 that two cores use. *)
Definition demo_req (c : option Z) (a n flags : Z) : Req.Request :=
  let r := Req.Request_phys a n flags 7 0 in match c with Some c => Req.setContext c r | None => r end.
Definition demo_pkt (r : positive) (q : Req.Request) (write : bool) (d : positive) : Pkt.Packet :=
  Pkt.set_flag Pkt.STATIC_DATA (Pkt.set_data (Some d) (if write then Pkt.createWrite r (Req.view q) else Pkt.createRead r (Req.view q))).

Definition demo_requests : gmap positive Req.Request :=
  {[ 1%positive := demo_req (Some 0) 0x1004 4 Req.LLSC; 2%positive := demo_req (Some 0) 0x1004 4 Req.LLSC;
     3%positive := demo_req (Some 1) 0x1004 4 0; 4%positive := demo_req (Some 1) 0x1004 4 0;
     5%positive := demo_req None 0x1008 4 0; 6%positive := demo_req (Some 1) 0x1004 4 Req.MEM_SWAP;
     7%positive := demo_req (Some 1) 0x1000 32 0 ]}.
Definition demo_packets : gmap positive Pkt.Packet :=
  {[ 1%positive := demo_pkt 1 (demo_req (Some 0) 0x1004 4 Req.LLSC) false 11; 2%positive := demo_pkt 2 (demo_req (Some 0) 0x1004 4 Req.LLSC) true 12;
     3%positive := demo_pkt 3 (demo_req (Some 1) 0x1004 4 0) true 13; 4%positive := demo_pkt 4 (demo_req (Some 1) 0x1004 4 0) false 14;
     5%positive := demo_pkt 5 (demo_req None 0x1008 4 0) true 15; 6%positive := demo_pkt 6 (demo_req (Some 1) 0x1004 4 Req.MEM_SWAP) true 16;
     7%positive := demo_pkt 7 (demo_req (Some 1) 0x1000 32 0) true 17 ]}.
Definition demo_bufs : Pkt.Bufs :=
  {[ 11%positive := [0; 0; 0; 0]; 12%positive := [1; 2; 3; 4]; 13%positive := [5; 6; 7; 8]; 14%positive := [0; 0; 0; 0];
     15%positive := [9; 9; 9; 9]; 16%positive := [6; 6; 6; 6]; 17%positive := replicate 32 8; 100%positive := replicate 64 0 ]}.
Definition demo_memory : Memory := setBackingStore (Some 100%positive) (AbstractMemory_new (AddrRange_plain 0x1000 0x103f) true true true).
Definition demo_core : Monitor.Context := Monitor.mkContext true 0x1004 false 0 0.
Definition demo_cores : Cores := {[ 0 := demo_core; 1 := demo_core ]}.
Definition demo_world : World Cores := mkWorld demo_memory demo_requests demo_packets demo_bufs demo_cores.
Definition demo_state : State := mkState (fun _ => 0) ∅.
Definition demo_known (c : Z) : Prop := c = 0 \/ c = 1.

(** The world after the exclusive load of core 0. *)
Definition demo_locked : World Cores := default demo_world (access tell 1 demo_world).
(** Then core 1 stores. *)
Definition demo_stored : World Cores := default demo_world (access tell 3 demo_locked).

Lemma demo_represents : represents demo_known (all_known demo_known) 100 demo_world demo_state.
Proof.
  split; try done.
  - exists (replicate 64 0). split; [done|]. split; [done|]. intros x _. exact (nthZ_zeros 64 _).
  - apply NoDup_nil_2.
  - by intros c [-> | ->].
Qed.

Ltac demo_ready := split; try reflexivity; [split; (reflexivity || done)|done|try (intros ? [= <-]; unfold demo_known; by auto)].

Lemma demo_ready_1 : ready demo_known 100 1 demo_world (demo_pkt 1 (demo_req (Some 0) 0x1004 4 Req.LLSC) false 11) (demo_req (Some 0) 0x1004 4 Req.LLSC) 11 [0; 0; 0; 0].
Proof. demo_ready. Qed.

Lemma demo_session_1 :
  session tell demo_known (all_known demo_known) 100 demo_world demo_state [(LoadLocked 0 0x1004 4, None)] demo_locked (step (LoadLocked 0 0x1004 4) demo_state).1.1.
Proof.
  eapply (session_access _ _ _ _ _ _ [] _ _ 1 _ _ 11 [0; 0; 0; 0] (LoadLocked 0 0x1004 4)); [constructor|exact demo_ready_1|reflexivity|done|].
  vm_compute. reflexivity.
Qed.

Lemma demo_ready_2 : ready demo_known 100 2 demo_locked (demo_pkt 2 (demo_req (Some 0) 0x1004 4 Req.LLSC) true 12) (demo_req (Some 0) 0x1004 4 Req.LLSC) 12 [1; 2; 3; 4].
Proof. demo_ready. Qed.

Lemma demo_ready_3 : ready demo_known 100 3 demo_locked (demo_pkt 3 (demo_req (Some 1) 0x1004 4 0) true 13) (demo_req (Some 1) 0x1004 4 0) 13 [5; 6; 7; 8].
Proof. demo_ready. Qed.

Lemma demo_ready_4 : ready demo_known 100 4 demo_stored (demo_pkt 4 (demo_req (Some 1) 0x1004 4 0) false 14) (demo_req (Some 1) 0x1004 4 0) 14 [0; 0; 0; 0].
Proof. demo_ready. Qed.

Lemma demo_session_3 :
  session tell demo_known (all_known demo_known) 100 demo_world demo_state
    ([(LoadLocked 0 0x1004 4, None)] ++ [(Store 0x1004 [5; 6; 7; 8], None)]) demo_stored
    (step (Store 0x1004 [5; 6; 7; 8]) (step (LoadLocked 0 0x1004 4) demo_state).1.1).1.1.
Proof.
  eapply (session_access _ _ _ _ _ _ _ _ _ 3 _ _ 13 [5; 6; 7; 8] (Store 0x1004 [5; 6; 7; 8]));
    [exact demo_session_1|exact demo_ready_3|reflexivity|left; by exists 1|vm_compute; reflexivity].
Qed.

Lemma demo_locked_represents : represents demo_known (all_known demo_known) 100 demo_locked (step (LoadLocked 0 0x1004 4) demo_state).1.1.
Proof. exact (session_represents tell demo_known _ (tell_known demo_known) _ _ _ _ _ _ demo_represents demo_session_1). Qed.

(** Core 0 stores after its exclusive load, with and without a store of core 1 in between. *)
Lemma exclusive_store_witness :
  wp (access tell 2 demo_locked) (fun w2 => exists b q, requests w2 !! 2%positive = Some q /\ Req.getExtraData q = Some (if (b : bool) then 1 else 0) /\
    (b = true <-> uninterrupted 0 0x1000 [(LoadLocked 0 0x1004 4, None)])).
Proof.
  eapply wp_mono; [exact (exclusive_store tell demo_known _ (tell_known demo_known) 100 demo_world demo_state _ _ _ 2 _ _ 12 [1; 2; 3; 4] 0 0x1004
    demo_represents eq_refl demo_session_1 demo_ready_2 eq_refl)|].
  intros w2 (b & q & H1 & H2 & H3 & _). exists b, q. split; [exact H1|]. split; [exact H2|exact H3].
Defined.

Lemma memory_refines_witness :
  wp (access tell 3 demo_locked) (fun w2 => represents demo_known (all_known demo_known) 100 w2
    (mkState (write_bytes 0x1004 [5; 6; 7; 8] (fun _ => 0)) (unreserve 0x1000 {[0 := 0x1000]}))).
Proof.
  destruct (memory_refines tell demo_known _ (tell_known demo_known) 100 demo_world demo_state _ _ _ 3 _ _ 13 [5; 6; 7; 8] (Store 0x1004 [5; 6; 7; 8])
    demo_represents demo_session_1 demo_ready_3 eq_refl (or_introl (ex_intro _ 1 eq_refl))) as [_ H].
  eapply wp_mono; [exact H|]. intros w2 [I1 _ _ _ _ _]. exact I1.
Defined.

Lemma write_then_read_witness : wp (access tell 4 demo_stored) (fun w2 => bufs w2 !! 14%positive = Some [5; 6; 7; 8]).
Proof.
  eapply wp_mono; [exact (write_then_read tell demo_known _ (tell_known demo_known) 100 demo_world demo_state [(LoadLocked 0 0x1004 4, None)] 0x1004 [5; 6; 7; 8] [] _ _ 4 _ _ 14 [0; 0; 0; 0]
    demo_represents demo_session_3 (List.Forall_nil _) demo_ready_4 eq_refl)|].
  by intros w2 [H _].
Defined.

(** A device stores next to the word core 0 has reserved. *)
Lemma store_without_context_witness : access tell 5 demo_locked = None.
Proof.
  apply (store_without_context tell demo_known (all_known demo_known) 100 demo_locked (step (LoadLocked 0 0x1004 4) demo_state).1.1 5
    (demo_pkt 5 (demo_req None 0x1008 4 0) true 15) (demo_req None 0x1008 4 0) 15 [9; 9; 9; 9] 0x1008 0); try reflexivity.
  - exact demo_locked_represents.
  - demo_ready.
Defined.

Lemma cores_are_told_witness :
  wp (access tell 3 demo_locked) (fun w' => rest w' !! 0 = Some (Monitor.mkContext false 0x1004 true 0 1) /\ rest w' !! 1 = Some demo_core).
Proof.
  eapply wp_mono; [exact (cores_are_told demo_known 100 demo_locked _ 3 _ _ 13 [5; 6; 7; 8] (Store 0x1004 [5; 6; 7; 8]) 1
    demo_locked_represents demo_ready_3 eq_refl eq_refl (or_introl eq_refl))|].
  intros w' H. pose proof (H 0 demo_core eq_refl) as H0. pose proof (H 1 demo_core eq_refl) as H1. split; [exact (proj1 H0)|exact H1].
Defined.
