(* ===== verification/Physical.v ===== *)
(** * Physical: the memories of a system as one address space

    Translates [gem5-X-TiC-SAT/src/mem/physical.cc] and [physical.hh].  The memories are
    objects of [mems], named by pointers; a host region is a byte buffer.  [mmap], which
    gives a region of zeros, and the compression of checkpoint files are parameters, as
    is [isNull], a configuration parameter of each memory.  A checkpoint is a record: a
    store section holds the contents of its file.  Names and traces are left out. *)

From stdpp Require Import prelude gmap.
From Stdlib Require Import ZArith Lia.
From S2P Require Import Prelude Machine AddrRange AddrRangeMap EventQueue Packet Request AbstractMem.

Open Scope Z_scope.

Module Phys.

Record BackingStoreEntry := mkStore {
  bs_range : AddrRange;
  pmem : positive;
  bs_confTableReported : bool;
  bs_inAddrMap : bool;
  bs_kvmMap : bool
}.

Record PhysicalMemory := mkPhys {
  addrMap : RangeMap.AddrRangeMap positive;
  memories : list positive;
  total : Z;
  backingStore : list BackingStoreEntry
}.

(** The address map caches one entry. *)
Definition cache_size : Z := 1.

Definition set_addrMap (m : RangeMap.AddrRangeMap positive) (p : PhysicalMemory) : PhysicalMemory := mkPhys m (memories p) (total p) (backingStore p).

Section World.
Context {X : Type}.

Record World := mkWorld {
  phys : PhysicalMemory;
  mems : gmap positive AMem.Memory;
  requests : gmap positive Req.Request;
  packets : gmap positive Pkt.Packet;
  bufs : Pkt.Bufs;
  rest : X
}.

Definition set_phys (p : PhysicalMemory) (w : World) : World := mkWorld p (mems w) (requests w) (packets w) (bufs w) (rest w).
Definition set_mem (m : positive) (x : AMem.Memory) (w : World) : World := mkWorld (phys w) (<[m := x]> (mems w)) (requests w) (packets w) (bufs w) (rest w).
Definition set_bufs (b : Pkt.Bufs) (w : World) : World := mkWorld (phys w) (mems w) (requests w) (packets w) b (rest w).

(** The world as memory [x] sees it, and what its access leaves. *)
Definition seen (x : AMem.Memory) (w : World) : AMem.World X := AMem.mkWorld x (requests w) (packets w) (bufs w) (rest w).
Definition update (m : positive) (v : AMem.World X) (w : World) : World :=
  mkWorld (phys w) (<[m := AMem.mem v]> (mems w)) (AMem.requests v) (AMem.packets v) (AMem.bufs v) (AMem.rest v).

Variable isNull : positive -> bool.
Variable mmap : Z -> Pkt.Bufs -> option (positive * Pkt.Bufs).

(** ** Construction *)

Fixpoint point_memories (ms : list positive) (h : positive) (w : World) : option World :=
  match ms with
  | [] => Some w
  | m :: ms => x ← mems w !! m; point_memories ms h (set_mem m (AMem.setBackingStore (Some h) x) w)
  end.

Definition createBackingStore (range : AddrRange) (ms : list positive) (conf_table_reported in_addr_map kvm_map : bool) (w : World) : option World :=
  _ ← assert_ (negb (interleaved range));
  '(h, b) ← mmap (AddrRange.size range) (bufs w);
  let p := phys w in
  let w := set_phys (mkPhys (addrMap p) (memories p) (total p) (backingStore p ++ [mkStore range h conf_table_reported in_addr_map kvm_map])) (set_bufs b w) in
  point_memories ms h w.

(** One memory of the system. *)
Definition add_memory (m : positive) (w : World) : option World :=
  x ← mems w !! m;
  if AMem.isInAddrMap x then
    let p := phys w in
    '(it, am) ← RangeMap.insert cache_size (AMem.getAddrRange x) m (addrMap p);
    match it with
    | Some _ => Some (set_phys (mkPhys am (memories p ++ [m]) (uint64 (total p + AMem.mem_size x)) (backingStore p)) w)
    | None => None
    end
  else
    _ ← assert_ (negb (interleaved (AMem.getAddrRange x)));
    createBackingStore (AMem.getAddrRange x) [m] (AMem.isConfReported x) (AMem.isInAddrMap x) (AMem.isKvmMap x) w.

Fixpoint add_memories (ms : list positive) (w : World) : option World :=
  match ms with [] => Some w | m :: ms => w ← add_memory m w; add_memories ms w end.

Definition same_flags (x y : AMem.Memory) : bool :=
  Bool.eqb (AMem.isConfReported x) (AMem.isConfReported y) && Bool.eqb (AMem.isInAddrMap x) (AMem.isInAddrMap y) && Bool.eqb (AMem.isKvmMap x) (AMem.isKvmMap y).

Fixpoint check_flags (f : AMem.Memory) (ms : list positive) (w : World) : option () :=
  match ms with
  | [] => Some ()
  | m :: ms => x ← mems w !! m; _ ← assert_ (same_flags f x); check_flags f ms w
  end.

(** The interleaved ranges collected so far become one store. *)
Definition merge_stores (intlv : list AddrRange) (curr : list positive) (w : World) : option World :=
  merged ← AddrRange_merge intlv;
  m ← hd_error curr;
  f ← mems w !! m;
  _ ← check_flags f curr w;
  createBackingStore merged curr (AMem.isConfReported f) (AMem.isInAddrMap f) (AMem.isKvmMap f) w.

(** [(intlv_ranges, curr_memories)] and the world after one more entry of the map. *)
Definition back_entry (e : AddrRange * positive) (acc : list AddrRange * list positive * World) : option (list AddrRange * list positive * World) :=
  let '(intlv, curr, w) := acc in
  if isNull e.2 then Some acc
  else if interleaved e.1 then
    '(intlv, curr, w) ← (match last intlv with
                         | Some b => if negb (mergesWith b e.1) then w ← merge_stores intlv curr w; Some ([], [], w) else Some (intlv, curr, w)
                         | None => Some (intlv, curr, w)
                         end);
    Some (intlv ++ [e.1], curr ++ [e.2], w)
  else
    x ← mems w !! e.2;
    w ← createBackingStore e.1 [e.2] (AMem.isConfReported x) (AMem.isInAddrMap x) (AMem.isKvmMap x) w;
    Some (intlv, curr, w).

Fixpoint back_entries (es : list (AddrRange * positive)) (acc : list AddrRange * list positive * World) : option (list AddrRange * list positive * World) :=
  match es with [] => Some acc | e :: es => acc ← back_entry e acc; back_entries es acc end.

Definition PhysicalMemory_new (ms : list positive) (w : World) : option World :=
  w ← add_memories ms (set_phys (mkPhys (RangeMap.mkMap [] []) [] 0 []) w);
  '(intlv, curr, w) ← back_entries (RangeMap.tree (addrMap (phys w))) ([], [], w);
  match intlv with [] => Some w | _ => merge_stores intlv curr w end.

(** The destructor unmaps the stores. *)
Definition PhysicalMemory_delete (w : World) : World :=
  set_bufs (foldl (fun b s => delete (pmem s) b) (bufs w) (backingStore (phys w))) w.

(** ** Addresses *)

Definition isMemAddr (a : Z) (w : World) : option (bool * World) :=
  '(it, am) ← RangeMap.map_contains_addr cache_size a (addrMap (phys w));
  Some (match it with Some _ => true | None => false end, set_phys (set_addrMap am (phys w)) w).

Definition conf_step (w : World) (acc : list AddrRange * list AddrRange) (e : AddrRange * positive) : option (list AddrRange * list AddrRange) :=
  let '(ranges, intlv) := acc in
  x ← mems w !! e.2;
  if AMem.isConfReported x then
    if interleaved e.1 then
      '(ranges, intlv) ← (match last intlv with
                          | Some b => if negb (mergesWith b e.1) then merged ← AddrRange_merge intlv; Some (ranges ++ [merged], []) else Some (ranges, intlv)
                          | None => Some (ranges, intlv)
                          end);
      Some (ranges, intlv ++ [e.1])
    else Some (ranges ++ [e.1], intlv)
  else Some acc.

Fixpoint conf_loop (w : World) (es : list (AddrRange * positive)) (acc : list AddrRange * list AddrRange) : option (list AddrRange * list AddrRange) :=
  match es with [] => Some acc | e :: es => acc ← conf_step w acc e; conf_loop w es acc end.

Definition getConfAddrRanges (w : World) : option (list AddrRange) :=
  '(ranges, intlv) ← conf_loop w (RangeMap.tree (addrMap (phys w))) ([], []);
  match intlv with [] => Some ranges | _ => merged ← AddrRange_merge intlv; Some (ranges ++ [merged]) end.

Definition totalSize (w : World) : Z := total (phys w).
Definition getBackingStore (w : World) : list BackingStoreEntry := backingStore (phys w).

(** ** Accesses *)

Variable globalClearExclusive : Z -> X -> option X.

(** The memory whose range contains the packet. *)
Definition find_memory (pkt : positive) (w : World) : option (positive * World) :=
  p ← packets w !! pkt;
  _ ← assert_ (Pkt.isRequest p);
  a ← Pkt.getAddr p;
  n ← Pkt.getSize p;
  '(it, am) ← RangeMap.map_contains cache_size (RangeSize a n) (addrMap (phys w));
  e ← it;
  Some (e.2, set_phys (set_addrMap am (phys w)) w).

Definition access (pkt : positive) (w : World) : option World :=
  '(m, w) ← find_memory pkt w;
  x ← mems w !! m;
  v ← AMem.access globalClearExclusive pkt (seen x w);
  Some (update m v w).

Definition functionalAccess (pkt : positive) (w : World) : option World :=
  '(m, w) ← find_memory pkt w;
  x ← mems w !! m;
  v ← AMem.functionalAccess pkt (seen x w);
  Some (update m v w).

(** ** Checkpoints *)

Context {File : Type}.
Variables (compress : list Z -> File) (uncompress : File -> list Z).

Record StoreSection := mkSection { store_id : Z; range_size : Z; file : File }.

Record Checkpoint := mkCheckpoint {
  lal_addr : list Z;
  lal_cid : list Z;
  nbr_of_stores : Z;
  stores : list StoreSection
}.

Definition INT_MAX : Z := 2 ^ 31 - 1.
Definition chunk_size : Z := 16384.
Definition sizeof_long : Z := 8.

(** The loop of [gzwrite]; [out] is what the file holds. *)
Fixpoint write_passes (fuel : nat) (size written : Z) (l out : list Z) : option (list Z) :=
  if written <? size then
    match fuel with
    | O => None
    | S fuel =>
        let pass_size := if INT_MAX <? size - written then INT_MAX else size - written in
        b ← AMem.bytes_at written pass_size l;
        write_passes fuel size (written + pass_size) l (out ++ b)
    end
  else Some out.

Definition serializeStore (id : Z) (s : BackingStoreEntry) (w : World) : option StoreSection :=
  l ← bufs w !! pmem s;
  let n := AddrRange.size (bs_range s) in
  out ← write_passes (Z.to_nat (n / INT_MAX + 1)) n 0 l [];
  Some (mkSection id (wrapS 64 n) (compress out)).

Fixpoint serialize_stores (id : Z) (ss : list BackingStoreEntry) (w : World) : option (list StoreSection) :=
  match ss with
  | [] => Some []
  | s :: ss => x ← serializeStore id s w; l ← serialize_stores (uint32 (id + 1)) ss w; Some (x :: l)
  end.

Fixpoint locks_of (ms : list positive) (w : World) : option (list AMem.LockedAddr) :=
  match ms with
  | [] => Some []
  | m :: ms => x ← mems w !! m; l ← locks_of ms w; Some (AMem.getLockedAddrList x ++ l)
  end.

Definition serialize (w : World) : option Checkpoint :=
  locks ← locks_of (memories (phys w)) w;
  l ← serialize_stores 0 (backingStore (phys w)) w;
  Some (mkCheckpoint (AMem.la_addr <$> locks) (AMem.la_contextId <$> locks) (uint32 (zlen (backingStore (phys w)))) l).

(** The words of a chunk that are not zero are copied. *)
Fixpoint copy_words (n : nat) (chunk : list Z) (off : Z) (l : list Z) : option (list Z) :=
  match n with
  | O => Some l
  | S n =>
      let word := take (Z.to_nat sizeof_long) chunk in
      l ← (if forallb (fun b => b =? 0) word then Some l
           else _ ← assert_ (off + sizeof_long <=? zlen l); Some (Pkt.blit l off word 0 sizeof_long));
      copy_words n (drop (Z.to_nat sizeof_long) chunk) (off + sizeof_long) l
  end.

(** The loop of [gzread]; [f] is what is left of the file. *)
Fixpoint read_chunks (fuel : nat) (size curr : Z) (f l : list Z) : option (list Z) :=
  if curr <? size then
    match fuel with
    | O => None
    | S fuel =>
        let temp_page := take (Z.to_nat chunk_size) f in
        let bytes_read := zlen temp_page in
        if bytes_read =? 0 then Some l
        else
          _ ← assert_ (bytes_read mod sizeof_long =? 0);
          l ← copy_words (Z.to_nat (bytes_read / sizeof_long)) temp_page curr l;
          read_chunks fuel size (curr + bytes_read) (drop (Z.to_nat chunk_size) f) l
    end
  else Some l.

Definition unserializeStore (sec : StoreSection) (w : World) : option World :=
  s ← backingStore (phys w) !! Z.to_nat (store_id sec);
  let n := AddrRange.size (bs_range s) in
  _ ← assert_ (uint64 (range_size sec) =? n);
  l ← bufs w !! pmem s;
  l ← read_chunks (Z.to_nat n) n 0 (uncompress (file sec)) l;
  Some (set_bufs (<[pmem s := l]> (bufs w)) w).

Fixpoint unserialize_stores (secs : list StoreSection) (w : World) : option World :=
  match secs with [] => Some w | sec :: secs => w ← unserializeStore sec w; unserialize_stores secs w end.

Fixpoint unserialize_locks (addrs cids : list Z) (w : World) : option World :=
  match addrs, cids with
  | [], _ => Some w
  | a :: addrs, c :: cids =>
      '(it, am) ← RangeMap.map_contains_addr cache_size a (addrMap (phys w));
      e ← it;
      x ← mems w !! e.2;
      unserialize_locks addrs cids (set_mem e.2 (AMem.addLockedAddr (AMem.mkLocked a c) x) (set_phys (set_addrMap am (phys w)) w))
  | _ :: _, [] => None
  end.

Definition unserialize (cp : Checkpoint) (w : World) : option World :=
  w ← unserialize_locks (lal_addr cp) (lal_cid cp) w;
  _ ← assert_ (nbr_of_stores cp <=? zlen (stores cp));
  unserialize_stores (take (Z.to_nat (nbr_of_stores cp)) (stores cp)) w.
End World.
#[global] Arguments World : clear implicits.
#[global] Arguments StoreSection : clear implicits.
#[global] Arguments Checkpoint : clear implicits.
End Phys.
