(* ===== verification/PhysicalCorrect.v ===== *)
(** * PhysicalCorrect: several memories are one

    The memories of [Physical] behind plain, disjoint ranges: each has a store of its own,
    and together they represent one function from addresses to bytes. *)

From stdpp Require Import prelude gmap.
From Stdlib Require Import ZArith Lia.
From S2P Require Import Prelude Machine AddrRange AddrRangeMap EventQueue EventService Packet PacketTheorems Request AbstractMem.
From S2P Require Import AbstractMemCorrect AbstractMemTheorems Physical.
Import Phys MemSpec.

Open Scope Z_scope.
#[local] Arguments Z.add : simpl never.
#[local] Arguments Z.sub : simpl never.
#[local] Arguments RangeMap.map_contains : simpl never.
#[local] Arguments RangeMap.insert : simpl never.
#[local] Arguments AMem.access : simpl never.

(** ** Operations inside a region *)

Definition inside (o : Op) (lo hi : Z) : Prop :=
  match o with
  | Load a n | LoadLocked _ a n => lo <= a /\ a + n - 1 <= hi
  | Store a v | StoreCond _ a v | Exchange a v _ => lo <= a /\ a + zlen v - 1 <= hi
  | Rmw a n op => lo <= a /\ a + n - 1 <= hi /\ 0 <= n /\ Req.sizeof_T op = n
  | Touch _ => True
  end.

Section Flat.
Context (s : State) (f : Z -> Z) (lo hi : Z).
Hypothesis Hf : forall x, lo <= x <= hi -> f x = contents s x.

Lemma read_flat a n : lo <= a -> a + n - 1 <= hi -> read_bytes a n f = read_bytes a n (contents s).
Proof.
  intros H1 H2. unfold read_bytes. destruct (Z.le_gt_cases n 0); [unfold mkarray; by replace (Z.to_nat n) with 0%nat by lia|].
  apply list_eq_nthZ; [by rewrite !zlen_mkarray by lia|]. rewrite zlen_mkarray by lia. intros k Hk. rewrite !nthZ_mkarray by lia. apply Hf. lia.
Qed.

Lemma write_flat a v : lo <= a -> a + zlen v - 1 <= hi ->
  (forall x, lo <= x <= hi -> write_bytes a v f x = write_bytes a v (contents s) x) /\ (forall x, ~ lo <= x <= hi -> write_bytes a v f x = f x).
Proof.
  intros H1 H2. unfold write_bytes. split; intros x Hx; destruct (Z.leb_spec a x), (Z.ltb_spec x (a + zlen v)); simpl; try done; try (by apply Hf); lia.
Qed.

(** An operation inside the region does the same on both contents. *)
Lemma step_flat o :
  inside o lo hi ->
  let r := step o s in let r' := step o (mkState f (reserved s)) in
  r'.1.2 = r.1.2 /\ r'.2 = r.2 /\ reserved r'.1.1 = reserved r.1.1 /\
  (forall x, lo <= x <= hi -> contents r'.1.1 x = contents r.1.1 x) /\ (forall x, ~ lo <= x <= hi -> contents r'.1.1 x = f x).
Proof.
  destruct o as [a n|c a n|a v|c a v|a v e|a n op|v]; simpl; intros Hi.
  - rewrite read_flat by tauto. done.
  - rewrite read_flat by tauto. done.
  - do 3 (split; [done|]). apply write_flat; tauto.
  - destruct (bool_decide _); simpl; [|done]. do 3 (split; [done|]). apply write_flat; tauto.
  - rewrite read_flat by tauto. destruct (match e with None => true | Some _ => _ end); simpl; [|done]. do 3 (split; [done|]). apply write_flat; tauto.
  - destruct Hi as (H1 & H2 & H3 & <-). rewrite read_flat by done. do 3 (split; [done|]). apply write_flat; [done|]. unfold zlen. rewrite length_le_bytes. lia.
  - done.
Qed.
End Flat.

(** The operation of a packet stays inside the bytes of the packet. *)
Lemma operation_inside p req v o lo hi :
  operation p req v = Some o -> zlen v = Pkt.size p -> lo <= Pkt.addr p -> Pkt.addr p + Pkt.size p - 1 <= hi -> inside o lo hi.
Proof.
  intros Ho Hv H1 H2. pose proof (zlen_nonneg v). unfold operation in Ho. destruct (bool_decide _).
  { destruct (Req.isAtomic req).
    - apply bind_Some in Ho as (op & _ & Ho). destruct (Z.eqb_spec (Req.sizeof_T op) (Pkt.size p)); [|done]. injection Ho as <-. simpl. lia.
    - apply bind_Some in Ho as (? & _ & (e & _ & [= <-])%bind_Some). simpl. lia. }
  destruct (Pkt.isRead p).
  { apply bind_Some in Ho as (? & _ & Ho). destruct (Pkt.isLLSC p); [apply bind_Some in Ho as (? & _ & (? & _ & Ho)%bind_Some)|]; injection Ho as <-; simpl; lia. }
  destruct (Pkt.isInvalidate p || Pkt.isClean p); [by apply bind_Some in Ho as (? & _ & [= <-])|]. destruct (Pkt.isWrite p); [|done].
  apply bind_Some in Ho as (? & _ & Ho). destruct (Pkt.isLLSC p); [apply bind_Some in Ho as (? & _ & Ho)|]; injection Ho as <-; simpl; lia.
Qed.

(** ** The memories *)

Lemma Forall2_on {A B} (P Q : A -> B -> Prop) l k : Forall2 P l k -> (forall x y, y ∈ k -> P x y -> Q x y) -> Forall2 Q l k.
Proof.
  induction 1 as [|x y l k Hxy _ IH]; intros HPQ; constructor; [apply HPQ; [by left|done]|]. apply IH. intros x' y' Hy. apply HPQ. by right.
Qed.

Section Memories.
Context {X : Type} (clear : Z -> X -> option X) (known : Z -> Prop) (I : X -> Prop).
Hypothesis Hclear : forall c x, known c -> I x -> exists x', clear c x = Some x' /\ I x'.
Implicit Types (w : World X) (S : positive -> State).

Abbreviation mapped w := (RangeMap.tree (addrMap (phys w))).

(** Memory [m] has its range, and the store [h] holds its bytes. *)
Record behind w S (r : AddrRange) (m h : positive) : Prop := {
  bh_memory : exists x, mems w !! m = Some x /\ AMem.range x = r /\ represents known I h (seen x w) (S m)
}.

(** The stores and the entries of the address map correspond. *)
Record backed w S : Prop := {
  bk_map : RangeMap.map_ok cache_size (addrMap (phys w));
  bk_listed : Forall2 (fun s e => bs_range s = e.1 /\ behind w S e.1 e.2 (pmem s)) (backingStore (phys w)) (mapped w);
  bk_nodup : NoDup (pmem <$> backingStore (phys w))
}.

(** One function from addresses to bytes. *)
Definition flat w S (f : Z -> Z) : Prop :=
  forall r m x, (r, m) ∈ mapped w -> ar_start r <= x <= ar_end r -> f x = contents (S m) x.

Lemma behind_agree w S r m h r' h' : behind w S r m h -> behind w S r' m h' -> r = r' /\ h = h'.
Proof.
  intros [(x & Hx & <- & Hr)] [(x' & Hx' & <- & Hr')]. assert (x' = x) as -> by congruence. split; [done|].
  pose proof (rp_pmem _ _ _ _ _ Hr) as E. pose proof (rp_pmem _ _ _ _ _ Hr') as E'. simpl in *. congruence.
Qed.

Lemma bk_store w S r m : backed w S -> (r, m) ∈ mapped w -> exists i s, backingStore (phys w) !! i = Some s /\ mapped w !! i = Some (r, m) /\ behind w S r m (pmem s).
Proof.
  intros [_ B2 _] Hin. apply list_elem_of_lookup_1 in Hin as [i Hi]. destruct (Forall2_lookup_r _ _ _ _ _ B2 Hi) as (s & Hs & _ & Hb). by exists i, s.
Qed.

Lemma bk_apart w S r m h r' m' : backed w S -> (r, m) ∈ mapped w -> (r', m') ∈ mapped w -> behind w S r m h -> behind w S r' m' h -> m = m'.
Proof.
  intros Hb H1 H2 Hb1 Hb2. destruct (bk_store _ _ _ _ Hb H1) as (i & s & Hs & Hi & Hbs), (bk_store _ _ _ _ Hb H2) as (i' & s' & Hs' & Hi' & Hbs').
  destruct (behind_agree _ _ _ _ _ _ _ Hb1 Hbs) as [_ E1], (behind_agree _ _ _ _ _ _ _ Hb2 Hbs') as [_ E2].
  assert (i' = i) as ->; [|congruence]. eapply (NoDup_lookup _ _ _ (pmem s) (bk_nodup _ _ Hb)); rewrite list_lookup_fmap, ?Hs, ?Hs'; simpl; congruence.
Qed.

(** A packet inside one of the ranges, whose data is in no store. *)
Record routed w S (pkt : positive) (p : Pkt.Packet) (req : Req.Request) (d : positive) (v : list Z) (r : AddrRange) (m h : positive) : Prop := {
  rt_entry : (r, m) ∈ mapped w;
  rt_behind : behind w S r m h;
  rt_request : Pkt.isRequest p = true;
  rt_ready : forall x, mems w !! m = Some x -> ready known h pkt (seen x w) p req d v;
  rt_data : forall r' m' h', (r', m') ∈ mapped w -> behind w S r' m' h' -> d <> h'
}.

Lemma find_memory_spec w S pkt p req d v r m h :
  backed w S -> routed w S pkt p req d v r m h ->
  exists am, find_memory pkt w = Some (m, set_phys (set_addrMap am (phys w)) w) /\ RangeMap.tree am = mapped w /\ RangeMap.map_ok cache_size am.
Proof.
  intros [B1 _ _] [E1 [(x & Hx & Er & Hrep)] E3 E4 E5]. specialize (E4 x Hx). pose proof (rd_data _ _ _ _ _ _ _ _ E4) as Hac.
  pose proof (ac_pos _ _ _ _ Hac). pose proof (ac_end _ _ _ _ Hac).
  unfold find_memory. rewrite (rd_packet _ _ _ _ _ _ _ _ E4 : packets w !! pkt = Some p). cbn [mbind option_bind]. rewrite E3. cbn [assert_ mbind option_bind].
  unfold Pkt.getAddr, Pkt.getSize. rewrite (ac_addr _ _ _ _ Hac), (ac_size _ _ _ _ Hac). cbn [assert_ mbind option_bind].
  assert (ar_end (RangeSize (Pkt.addr p) (Pkt.size p)) = Pkt.addr p + Pkt.size p - 1) as Ee by (simpl; unfold uint64; apply wrapU_small; lia).
  assert (RangeMap.plain (RangeSize (Pkt.addr p) (Pkt.size p))) as Hpl.
  { split; try done; try (rewrite Ee); unfold addr; simpl; lia. }
  destruct (RangeMap.map_contains_spec cache_size ltac:(done) _ (addrMap (phys w)) B1 Hpl) as (it & am & -> & Ht & Hok & Hit). cbn [mbind option_bind].
  pose proof (subset_bounds _ _ _ (rd_range _ _ _ _ _ _ _ _ E4)) as Hsub. simpl in Hsub.
  assert (it = Some (r, m)) as ->.
  { apply Hit. split; [done|]. rewrite Ee. simpl. rewrite <- Er. exact Hsub. }
  cbn [mbind option_bind snd]. by exists am.
Qed.

(** The states of the memories after an operation on one of them. *)
Definition moved (m : positive) (s : State) S : positive -> State := fun m' => if decide (m' = m) then s else S m'.

Lemma moved_at m s S : moved m s S m = s.
Proof. unfold moved. by rewrite decide_True. Qed.

Lemma moved_other m s S m' : m' <> m -> moved m s S m' = S m'.
Proof. intros. unfold moved. by rewrite decide_False. Qed.

(** One memory changes its state and its store; the others are as before. *)
Lemma backed_moved w S w' m h r s' :
  backed w S -> (r, m) ∈ mapped w -> behind w S r m h -> RangeMap.map_ok cache_size (addrMap (phys w')) -> mapped w' = mapped w -> backingStore (phys w') = backingStore (phys w) ->
  (exists x, mems w' !! m = Some x /\ AMem.range x = r /\ represents known I h (seen x w') s') ->
  (forall m', m' <> m -> mems w' !! m' = mems w !! m') ->
  (forall r' m' h', (r', m') ∈ mapped w -> behind w S r' m' h' -> m' <> m -> bufs w' !! h' = bufs w !! h') -> I (rest w') ->
  backed w' (moved m s' S).
Proof.
  intros Hbk Hin Hbh Hok Ht Hst Hm Hmems Hbufs HI. pose proof Hbk as [B1 B2 B3].
  assert (forall r' m' h', (r', m') ∈ mapped w -> behind w' (moved m s' S) r' m' h' <-> behind w S r' m' h') as Hiff.
  { intros r' m' h' Hin'. destruct (decide (m' = m)) as [->|Hne].
    - destruct Hm as (x & Hx & Er & Hrep). split.
      + intros [(x' & Hx' & Er' & Hrep')]. assert (x' = x) as -> by congruence. pose proof (rp_pmem _ _ _ _ _ Hrep) as P1. pose proof (rp_pmem _ _ _ _ _ Hrep') as P2. simpl in *.
        assert (h' = h) as -> by congruence. congruence.
      + intros Hb. destruct (behind_agree _ _ _ _ _ _ _ Hbh Hb) as [<- <-]. split. exists x. rewrite moved_at. done.
    - split.
      + intros [(x & Hx & Er & [R1 R2 R3 R4 R5 R6])]. destruct (bk_store _ _ _ _ Hbk Hin') as (i0 & s0 & _ & _ & Hb0). pose proof Hb0 as [(x0 & Hx0 & Er0 & Q)].
        rewrite Hmems in Hx by done. assert (x0 = x) as -> by congruence. pose proof (rp_pmem _ _ _ _ _ Q). simpl in *. assert (pmem s0 = h') as <- by congruence. done.
      + intros Hb. pose proof (Hbufs r' m' h' Hin' Hb Hne) as Eb. destruct Hb as [(x & Hx & Er & [R1 R2 R3 R4 R5 R6])]. split. exists x. rewrite Hmems, moved_other by done.
        do 2 (split; [done|]). split; simpl in *; rewrite ?Eb; done. }
  split; [done| |by rewrite Hst]. rewrite Hst, Ht. eapply Forall2_on; [exact B2|]. intros s [r' m'] He [E1 E2]. split; [done|]. by apply Hiff.
Qed.

Lemma physical_access_spec w S pkt p req d v r m h o :
  backed w S -> routed w S pkt p req d v r m h -> operation p req v = Some o -> granted (S m) req o ->
  wp (access clear pkt w) (fun w' => backed w' (moved m (step o (S m)).1.1 S) /\ mapped w' = mapped w /\
    exists x v', mems w !! m = Some x /\ implements known I h pkt (seen x w) (S m) p d o v' /\
      bufs w' = AMem.bufs v' /\ packets w' = AMem.packets v' /\ requests w' = AMem.requests v').
Proof.
  intros Hb Hr Ho Hg. destruct (find_memory_spec _ _ _ _ _ _ _ _ _ _ Hb Hr) as (am & Ef & Et & Eok). unfold access. rewrite Ef. cbn [mbind option_bind].
  pose proof Hr as [E1 Hbh E3 E4 E5]. pose proof Hbh as [(x & Hx & Er & Hrep)]. specialize (E4 x Hx). cbn [mems set_phys]. rewrite Hx. cbn [mbind option_bind].
  apply wp_bind. change (seen x (set_phys (set_addrMap am (phys w)) w)) with (seen x w).
  eapply wp_mono; [apply wp_eqn, (access_implements clear known I Hclear h pkt (seen x w) (S m) p req d v o Hrep E4 Ho Hg)|].
  intros v' [Him Ea]. pose proof Him as [I1 I2 I3 I4 I5 I6]. cbn [wp].
  assert (AMem.range (AMem.mem v') = AMem.range x) as Erange.
  { pose proof (access_after clear known I Hclear h pkt (seen x w) (S m) p req d v Hrep E4 o Ho Hg) as Haf. rewrite Ea in Haf. destruct Haf as (w1 & Haf & ->). apply Haf. }
  split; [|split; [done|]].
  - apply (backed_moved w S _ m h r); [done|done|done|exact Eok|exact Et|done| | | |].
    + exists (AMem.mem v'). simpl. rewrite lookup_insert_eq. split; [done|]. split; [congruence|]. destruct v'. exact I1.
    + intros m' Hne. simpl. by rewrite lookup_insert_ne.
    + intros r' m' h' Hin' Hb' Hne. simpl. apply I6; [intros E; by apply (E5 r' m' h')|]. intros ->. apply Hne. symmetry. by apply (bk_apart w S r m h r' m').
    + apply I1.
  - exists x, v'. done.
Qed.
End Memories.

(** * Building the stores, saving and restoring them

    What the constructor of [Physical] builds from new memories with plain, disjoint
    ranges, and what the checkpoint of a store and of the locked addresses restores. *)

#[local] Arguments Z.add : simpl never.
#[local] Arguments Z.sub : simpl never.
#[local] Arguments RangeMap.insert : simpl never.
#[local] Arguments RangeMap.map_contains_addr : simpl never.
#[local] Arguments createBackingStore : simpl never.
#[local] Arguments add_memory : simpl never.

(** ** Construction *)

Section New.
Context {X : Type} (known : Z -> Prop) (I : X -> Prop) (isNull : positive -> bool) (mmap : Z -> Pkt.Bufs -> option (positive * Pkt.Bufs)).
(** [mmap] gives an unused region of zeros. *)
Hypothesis Hmmap : forall n b, 0 < n -> exists h, b !! h = None /\ mmap n b = Some (h, <[h := replicate (Z.to_nat n) 0]> b).
Implicit Types (w : World X).

(** A memory that has just been created, for the address map. *)
Record new_memory (x : AMem.Memory) : Prop := {
  nm_mapped : AMem.isInAddrMap x = true;
  nm_plain : RangeMap.plain (AMem.range x);
  nm_size : ar_end (AMem.range x) - ar_start (AMem.range x) + 1 < 2 ^ 64;
  nm_locks : AMem.lockedAddrList x = []
}.

Definition apart (r r' : AddrRange) : Prop := ar_end r < ar_start r' \/ ar_end r' < ar_start r.

(** The entry of memory [m]. *)
Definition entry_of w (e : AddrRange * positive) : Prop := exists x, mems w !! e.2 = Some x /\ AMem.range x = e.1.

Lemma add_memories_spec ms w :
  RangeMap.map_ok cache_size (addrMap (phys w)) -> NoDup ms ->
  (forall m, m ∈ ms -> exists x, mems w !! m = Some x /\ new_memory x) ->
  (forall m x e, m ∈ ms -> mems w !! m = Some x -> e ∈ RangeMap.tree (addrMap (phys w)) -> apart (AMem.range x) e.1) ->
  (forall m m' x x', m ∈ ms -> m' ∈ ms -> m <> m' -> mems w !! m = Some x -> mems w !! m' = Some x' -> apart (AMem.range x) (AMem.range x')) ->
  wp (add_memories mmap ms w) (fun w' => exists p', w' = set_phys p' w /\ RangeMap.map_ok cache_size (addrMap p') /\
    (forall e, e ∈ RangeMap.tree (addrMap p') <-> e ∈ RangeMap.tree (addrMap (phys w)) \/ e.2 ∈ ms /\ entry_of w e) /\
    (RangeMap.tree (addrMap p')).*2 ≡ₚ rev ms ++ (RangeMap.tree (addrMap (phys w))).*2 /\
    memories p' = memories (phys w) ++ ms /\ backingStore p' = backingStore (phys w)).
Proof.
  revert w. induction ms as [|m ms IH]; intros w Hok Hnd Hnew Hold Hdis; simpl.
  { exists (phys w). split; [by destruct w|]. split; [done|]. split; [|by rewrite app_nil_r].
    intros e. split; [by left|]. by intros [?|[?%not_elem_of_nil _]]. }
  apply NoDup_cons in Hnd as [Hn Hnd]. destruct (Hnew m) as (x & Hx & [N1 N2 N3 N4]); [by left|].
  assert (forall e, e ∈ RangeMap.tree (addrMap (phys w)) -> apart (AMem.range x) e.1) as Hap by (intros e He; apply (Hold m x e); [by left|done|done]).
  destruct (RangeMap.insert_spec cache_size ltac:(done) (AMem.range x) m (addrMap (phys w)) Hok N2) as (it & am & Ei & Hok' & [((e & He & O1 & O2) & _)|(Hd & -> & Ht)]).
  { destruct (Hap e He); lia. }
  apply wp_bind. unfold add_memory. rewrite Hx. cbn [mbind option_bind]. rewrite N1. unfold AMem.getAddrRange. rewrite Ei. cbn [mbind option_bind wp].
  set (w1 := set_phys _ w). eapply wp_mono; [apply (IH w1)|].
  - exact Hok'.
  - done.
  - intros m' Hm'. apply Hnew. by right.
  - intros m' x' e Hm' Hx' He. simpl in He. rewrite Ht in He. apply elem_of_cons in He as [->|He]; simpl.
    + apply (Hdis m' m); [by right|by left|by intros ->|done|done].
    + apply (Hold m'); [by right|done|done].
  - intros m1 m2 x1 x2 H1 H2. apply Hdis; by right.
  - intros w' (p' & -> & P1 & P2 & P3 & P4 & P5). exists p'. split; [done|]. split; [done|]. split; [|split; [|split; [|done]]].
    + intros e. rewrite P2. simpl. rewrite Ht, !elem_of_cons. unfold entry_of. simpl. split.
      * intros [[->|?]|[? ?]]; [right; split; [by left|by exists x]|by left|right; auto].
      * intros [?|[[E|?] (x' & Hx' & Er)]]; [by left; right|left; left|by right; eauto]. destruct e as [r m']. simpl in *. subst m' r. congruence.
    + rewrite P3. simpl. rewrite Ht. simpl. rewrite <- app_assoc. done.
    + rewrite P4. simpl. by rewrite <- app_assoc.
Qed.

Lemma plain_size r : RangeMap.plain r -> ar_end r - ar_start r + 1 < 2 ^ 64 -> AddrRange.size r = ar_end r - ar_start r + 1 /\ 0 < AddrRange.size r.
Proof.
  intros [P1 P2 [P3 P3'] [P4 P4'] P5] Hs. unfold AddrRange.size. rewrite P1, Z.shiftr_0_r. unfold uint64. rewrite wrapU_small by lia. lia.
Qed.

(** The store of one memory. *)
Lemma store_spec r m w x c i k :
  RangeMap.plain r -> ar_end r - ar_start r + 1 < 2 ^ 64 -> mems w !! m = Some x ->
  exists h, bufs w !! h = None /\ createBackingStore mmap r [m] c i k w = Some (mkWorld
    (mkPhys (addrMap (phys w)) (memories (phys w)) (total (phys w)) (backingStore (phys w) ++ [mkStore r h c i k]))
    (<[m := AMem.setBackingStore (Some h) x]> (mems w)) (requests w) (packets w) (<[h := replicate (Z.to_nat (AddrRange.size r)) 0]> (bufs w)) (rest w)).
Proof.
  intros Hp Hs Hx. unfold createBackingStore. rewrite (RangeMap.plain_interleaved _ Hp). cbn [negb assert_ mbind option_bind].
  destruct (Hmmap (AddrRange.size r) (bufs w)) as (h & Hh & ->); [by apply plain_size|]. exists h. split; [done|]. cbn [mbind option_bind]. simpl. by rewrite Hx.
Qed.

(** What is known of the stores [ss] for the entries [es]. *)
Definition stored_for w w' (s : BackingStoreEntry) (e : AddrRange * positive) : Prop :=
  bs_range s = e.1 /\ bufs w !! pmem s = None /\ bufs w' !! pmem s = Some (replicate (Z.to_nat (AddrRange.size e.1)) 0) /\
  exists x, mems w !! e.2 = Some x /\ mems w' !! e.2 = Some (AMem.setBackingStore (Some (pmem s)) x).

Lemma back_entries_spec es w :
  NoDup es.*2 ->
  Forall (fun e => RangeMap.plain e.1 /\ ar_end e.1 - ar_start e.1 + 1 < 2 ^ 64 /\ isNull e.2 = false /\ is_Some (mems w !! e.2)) es ->
  wp (back_entries isNull mmap es ([], [], w)) (fun '(intlv, curr, w') => intlv = [] /\ rest w' = rest w /\ packets w' = packets w /\ requests w' = requests w /\
    addrMap (phys w') = addrMap (phys w) /\ memories (phys w') = memories (phys w) /\
    (forall m, m ∉ es.*2 -> mems w' !! m = mems w !! m) /\ (forall h, is_Some (bufs w !! h) -> bufs w' !! h = bufs w !! h) /\
    exists ss, backingStore (phys w') = backingStore (phys w) ++ ss /\ Forall2 (stored_for w w') ss es /\ NoDup (pmem <$> ss)).
Proof.
  revert w. induction es as [|[r m] es IH]; intros w Hnd Hes.
  { simpl. do 8 (split; [done|]). exists []. rewrite app_nil_r. split; [done|]. split; [constructor|apply NoDup_nil_2]. }
  simpl in Hnd. apply NoDup_cons in Hnd as [Hn Hnd]. apply Forall_cons in Hes as [(H1 & H2 & H3 & (x & Hx)) Hes]. simpl in H1, H2, H3, Hx.
  destruct (store_spec r m w x (AMem.isConfReported x) (AMem.isInAddrMap x) (AMem.isKvmMap x) H1 H2 Hx) as (h & Hh & E).
  cbn [back_entries]. apply wp_bind. unfold back_entry. cbn [fst snd]. rewrite H3, (RangeMap.plain_interleaved _ H1), Hx. cbn [mbind option_bind]. rewrite E. cbn [mbind option_bind wp].
  set (w1 := mkWorld _ _ _ _ _ _). assert (forall m', m' <> m -> mems w1 !! m' = mems w !! m') as Hm1 by (intros m' Hne; simpl; by rewrite lookup_insert_ne).
  eapply wp_mono; [apply (IH w1 Hnd)|].
  { rewrite Forall_forall in Hes |- *. intros e He. destruct (Hes e He) as (Q1 & Q2 & Q3 & Q4). do 3 (split; [done|]). rewrite Hm1; [done|].
    intros Em. apply Hn, list_elem_of_fmap. by exists e. }
  intros [[intlv curr] w'] (R1 & R2 & R3 & R4 & R5 & R6 & R7 & R8 & ss & R9 & R10 & R11). do 6 (split; [done|]). split; [|split].
  - intros m' Hm'. simpl in Hm'. rewrite not_elem_of_cons in Hm'. rewrite R7 by tauto. apply Hm1. tauto.
  - intros h' Hh'. assert (h' <> h) as Hne by (intros ->; rewrite Hh in Hh'; by destruct Hh'). rewrite R8; simpl; by rewrite lookup_insert_ne.
  - assert (bufs w1 !! h = Some (replicate (Z.to_nat (AddrRange.size r)) 0)) as Hb1 by (simpl; apply lookup_insert_eq).
    exists (mkStore r h (AMem.isConfReported x) (AMem.isInAddrMap x) (AMem.isKvmMap x) :: ss). split; [rewrite R9; simpl; by rewrite <- app_assoc|]. split.
    + constructor.
      * split; [done|]. split; [done|]. split; [simpl; rewrite R8 by eauto; done|]. exists x. split; [done|]. simpl. rewrite R7 by done. simpl. by rewrite lookup_insert_eq.
      * eapply Forall2_on; [exact R10|]. intros s e He (Q1 & Q2 & Q3 & y & Q4 & Q5). simpl in Q2, Q4. split; [done|].
        assert (pmem s <> h) as Hne by (intros Eh; rewrite Eh, lookup_insert_eq in Q2; done). rewrite lookup_insert_ne in Q2 by done. do 2 (split; [done|]).
        exists y. split; [|done]. rewrite <- Q4. symmetry. apply lookup_insert_ne. intros Em. apply Hn, list_elem_of_fmap. by exists e.
    + cbn. apply NoDup_cons. split; [|done]. intros Hin. apply list_elem_of_fmap in Hin as (s & Es & Hs). apply list_elem_of_lookup_1 in Hs as [j Hj].
      destruct (Forall2_lookup_l _ _ _ _ _ R10 Hj) as (e & _ & _ & Q2 & _). rewrite <- Es in Q2. simpl in Q2. by rewrite lookup_insert_eq in Q2.
Qed.

(** No byte is set and nothing is reserved. *)
Definition blank (m : positive) : State := mkState (fun _ => 0) ∅.

Lemma new_backed ms w :
  I (rest w) -> NoDup ms -> (forall m, m ∈ ms -> isNull m = false /\ exists x, mems w !! m = Some x /\ new_memory x) ->
  (forall m m' x x', m ∈ ms -> m' ∈ ms -> m <> m' -> mems w !! m = Some x -> mems w !! m' = Some x' -> apart (AMem.range x) (AMem.range x')) ->
  wp (PhysicalMemory_new isNull mmap ms w) (fun w' => backed known I w' blank /\ memories (phys w') = ms /\
    (forall e, e ∈ RangeMap.tree (addrMap (phys w')) <-> e.2 ∈ ms /\ entry_of w e) /\
    rest w' = rest w /\ packets w' = packets w /\ requests w' = requests w /\ (forall h, is_Some (bufs w !! h) -> bufs w' !! h = bufs w !! h)).
Proof.
  intros HI Hnd Hnew Hdis. unfold PhysicalMemory_new. set (w0 := set_phys _ w). apply wp_bind.
  eapply wp_mono; [apply (add_memories_spec ms w0)|].
  - split; [by apply Forall_nil|constructor|intros k Hk; by apply not_elem_of_nil in Hk|done].
  - done.
  - intros m Hm. by apply Hnew.
  - intros m x e _ _ He. by apply not_elem_of_nil in He.
  - exact Hdis.
  - intros w1 (p' & -> & P1 & P2 & P3 & P4 & P5). apply wp_bind. simpl in P3, P4. rewrite app_nil_r in P3.
    assert (forall e, e ∈ RangeMap.tree (addrMap p') -> e.2 ∈ ms /\ isNull e.2 = false /\ exists x, mems w !! e.2 = Some x /\ AMem.range x = e.1 /\ new_memory x) as Hent.
    { intros e He. apply P2 in He as [He|[Hm (x & Hx & Er)]]; [by apply not_elem_of_nil in He|]. destruct (Hnew _ Hm) as [Hnl (x' & Hx' & Hnm)].
      split; [done|]. split; [done|]. exists x. simpl in Hx. assert (x' = x) as -> by congruence. done. }
    eapply wp_mono; [apply (back_entries_spec (RangeMap.tree (addrMap p')) (set_phys p' w0))|].
    + by rewrite P3, <- (Permutation_rev ms).
    + rewrite Forall_forall. intros e He. destruct (Hent e He) as (_ & Hnl & x & Hx & Er & [N1 N2 N3 N4]). rewrite <- Er. do 3 (split; [done|]). by exists x.
    + intros [[intlv curr] w2] (-> & R2 & R3 & R4 & R5 & R6 & R7 & R8 & ss & R9 & R10 & R11). simpl. simpl in R5, R6, R9. rewrite P5 in R9. simpl in R9.
      split; [|rewrite R6, P4; split; [done|]; rewrite R5; split; [|done]].
      * split; rewrite ?R5, ?R9; [done| |done]. eapply Forall2_on; [exact R10|]. intros s e He (Q1 & Q2 & Q3 & x & Q4 & Q5). split; [done|].
        destruct (Hent e He) as (_ & _ & y & Hy & Er & [N1 N2 N3 N4]). simpl in Q4. assert (y = x) as -> by congruence.
        split. eexists. split; [exact Q5|]. split; [done|]. split; simpl; try done.
        -- eexists. split; [exact Q3|]. split.
           ++ unfold zlen. rewrite length_replicate. destruct (plain_size _ N2 N3) as [E1 E2]. rewrite <- Er. lia.
           ++ intros a Ha. exact (nthZ_zeros _ _).
        -- unfold single. rewrite N4. apply NoDup_nil_2.
        -- by rewrite N4.
        -- by rewrite N4.
        -- by rewrite R2.
      * intros e. rewrite P2. split; [|by right]. intros [He|]; [by apply not_elem_of_nil in He|done].
Qed.
End New.

(** ** The contents of a store *)

Lemma INT_MAX_pos : 0 < INT_MAX.
Proof. done. Qed.

Lemma bytes_at_ok off n l : 0 <= off -> 0 <= n -> off + n <= zlen l -> AMem.bytes_at off n l = Some (take (Z.to_nat n) (drop (Z.to_nat off) l)).
Proof. intros H1 H2 H3. unfold AMem.bytes_at. assert ((0 <=? off) && (0 <=? n) && (off + n <=? zlen l) = true) as -> by (zcases; simpl; (done || lia)). done. Qed.

Lemma write_passes_spec fuel size written l out :
  0 <= written <= size -> size <= zlen l -> size - written <= Z.of_nat fuel * INT_MAX ->
  write_passes fuel size written l out = Some (out ++ take (Z.to_nat (size - written)) (drop (Z.to_nat written) l)).
Proof.
  pose proof INT_MAX_pos as HM. revert written out. induction fuel as [|fuel IH]; intros written out Hw Hl Hf; cbn [write_passes].
  { assert (size = written) as -> by lia. rewrite Z.ltb_irrefl, Z.sub_diag. simpl. by rewrite app_nil_r. }
  destruct (Z.ltb_spec written size) as [Hlt|]; [|assert (size = written) as -> by lia; rewrite Z.sub_diag; simpl; by rewrite app_nil_r].
  set (pass := if INT_MAX <? size - written then INT_MAX else size - written).
  assert (0 < pass <= size - written /\ (pass = INT_MAX \/ pass = size - written)) as [Hp1 Hp2] by (unfold pass; destruct (Z.ltb_spec INT_MAX (size - written)); lia).
  rewrite bytes_at_ok by lia. cbn [mbind option_bind]. rewrite IH by lia. f_equal. rewrite <- app_assoc. f_equal.
  replace (Z.to_nat (size - written)) with (Z.to_nat pass + Z.to_nat (size - (written + pass)))%nat by lia.
  replace (Z.to_nat (written + pass)) with (Z.to_nat written + Z.to_nat pass)%nat by lia. rewrite <- drop_drop. apply take_take_drop.
Qed.

Lemma forallb_zero l i : forallb (fun b => b =? 0) l = true -> nthZ l i = 0.
Proof.
  intros H. unfold nthZ, aget. destruct (i <? 0); [done|]. destruct (l !! Z.to_nat i) as [b|] eqn:E; [|done]. simpl.
  rewrite forallb_forall in H. apply Z.eqb_eq, H, list_elem_of_In. by eapply list_elem_of_lookup_2.
Qed.

Lemma nthZ_take n l i : 0 <= i < n -> nthZ (take (Z.to_nat n) l) i = nthZ l i.
Proof. intros H. unfold nthZ, aget. zcases; try lia. by rewrite lookup_take_lt by lia. Qed.

Lemma nthZ_drop n l i : 0 <= n -> 0 <= i -> nthZ (drop (Z.to_nat n) l) i = nthZ l (n + i).
Proof. intros H1 H2. unfold nthZ, aget. zcases; try lia. rewrite lookup_drop. f_equal. f_equal. lia. Qed.

Lemma zlen_drop_exact (l : list Z) n : 0 <= n <= zlen l -> zlen (drop (Z.to_nat n) l) = zlen l - n.
Proof. unfold zlen. rewrite length_drop. lia. Qed.

(** Copying the words of a chunk over zeros copies its bytes. *)
Lemma copy_words_spec n chunk off l :
  zlen chunk = 8 * Z.of_nat n -> 0 <= off -> off + zlen chunk <= zlen l -> (forall i, off <= i < off + zlen chunk -> nthZ l i = 0) ->
  wp (copy_words n chunk off l) (fun l' => zlen l' = zlen l /\
    forall i, 0 <= i < zlen l -> nthZ l' i = if (off <=? i) && (i <? off + zlen chunk) then nthZ chunk (i - off) else nthZ l i).
Proof.
  revert chunk off l. induction n as [|n IH]; intros chunk off l Hc Ho Hl Hz; cbn [copy_words].
  { split; [done|]. intros i Hi. destruct (Z.leb_spec off i), (Z.ltb_spec i (off + zlen chunk)); simpl; try done; lia. }
  unfold sizeof_long. set (word := take (Z.to_nat 8) chunk).
  assert (wp (if forallb (fun b => b =? 0) word then Some l else _ ← assert_ (off + 8 <=? zlen l); Some (Pkt.blit l off word 0 8)) (fun l1 => zlen l1 = zlen l /\
    forall i, 0 <= i < zlen l -> nthZ l1 i = if (off <=? i) && (i <? off + 8) then nthZ chunk (i - off) else nthZ l i)) as H1.
  { destruct (forallb _ word) eqn:Ew.
    - split; [done|]. intros i Hi. destruct (Z.leb_spec off i), (Z.ltb_spec i (off + 8)); simpl; try done.
      rewrite Hz by lia. symmetry. rewrite <- (nthZ_take 8) by lia. by apply forallb_zero.
    - apply wp_bind, wp_assert; [lia|]. simpl. split; [apply zlen_blit|]. intros i Hi. rewrite blit_bytes by lia.
      destruct (Z.leb_spec off i), (Z.ltb_spec i (off + 8)); simpl; try done. unfold word. replace (0 + (i - off)) with (i - off) by lia. by rewrite nthZ_take by lia. }
  apply wp_bind. eapply wp_mono; [exact H1|]. intros l1 [L1 L2].
  assert (zlen (drop (Z.to_nat 8) chunk) = zlen chunk - 8) as Hd by (apply zlen_drop_exact; lia).
  eapply wp_mono; [apply (IH (drop (Z.to_nat 8) chunk) (off + 8) l1)|]; [lia|lia|lia| |].
  - intros i Hi. rewrite L2 by lia. destruct (Z.leb_spec off i), (Z.ltb_spec i (off + 8)); simpl; try lia. apply Hz. lia.
  - intros l' [L3 L4]. split; [lia|]. intros i Hi. rewrite L4, L2, Hd by lia.
    destruct (Z.leb_spec (off + 8) i), (Z.ltb_spec i (off + 8 + (zlen chunk - 8))), (Z.leb_spec off i), (Z.ltb_spec i (off + 8)), (Z.ltb_spec i (off + zlen chunk)); simpl; try lia; try done.
    rewrite nthZ_drop by lia. f_equal. lia.
Qed.

Lemma chunk_size_ok : 0 < chunk_size /\ chunk_size mod 8 = 0.
Proof. done. Qed.
#[local] Opaque chunk_size.

(** Reading a file into zeros gives the file. *)
Lemma read_chunks_spec fuel size curr f l :
  0 <= curr -> zlen f = size - curr -> zlen f mod 8 = 0 -> zlen l = size -> size - curr <= Z.of_nat fuel -> (forall i, curr <= i < size -> nthZ l i = 0) ->
  wp (read_chunks fuel size curr f l) (fun l' => zlen l' = size /\ forall i, 0 <= i < size -> nthZ l' i = if curr <=? i then nthZ f (i - curr) else nthZ l i).
Proof.
  revert curr f l. induction fuel as [|fuel IH]; intros curr f l Hc Hf Hm Hl Hfu Hz; pose proof (zlen_nonneg f) as Hf0; cbn [read_chunks].
  { assert (size = curr) as -> by lia. rewrite Z.ltb_irrefl. split; [done|]. intros i Hi. destruct (Z.leb_spec curr i); [lia|done]. }
  destruct (Z.ltb_spec curr size) as [Hlt|].
  2: { split; [done|]. intros i Hi. destruct (Z.leb_spec curr i); [lia|done]. }
  unfold sizeof_long. destruct chunk_size_ok as [HC1 HC2]. set (page := take (Z.to_nat chunk_size) f).
  assert (zlen page = Z.min chunk_size (zlen f)) as Hpg by (unfold page, zlen; rewrite length_take; lia).
  assert (zlen page mod 8 = 0 /\ (zlen f - zlen page) mod 8 = 0) as [Hp8 Hr8].
  { rewrite Hpg. destruct (Z.min_spec chunk_size (zlen f)) as [[_ ->]|[_ ->]]; [split; [done|]|split; [done|]; by rewrite Z.sub_diag].
    by rewrite Zminus_mod, Hm, HC2. }
  destruct (Z.eqb_spec (zlen page) 0); [lia|]. apply wp_bind, wp_assert; [lia|]. apply wp_bind.
  assert (zlen page = 8 * (zlen page / 8)) as Hdiv by (pose proof (Z.div_mod (zlen page) 8); lia).
  eapply wp_mono; [apply (copy_words_spec (Z.to_nat (zlen page / 8)) page curr l)|]; [rewrite Z2Nat.id by (apply Z.div_pos; lia); lia|done|lia|intros i Hi; apply Hz; lia|].
  intros l1 [L1 L2]. assert (zlen (drop (Z.to_nat chunk_size) f) = zlen f - zlen page) as Hdr by (unfold zlen in *; rewrite length_drop; lia).
  eapply wp_mono; [apply (IH (curr + zlen page) (drop (Z.to_nat chunk_size) f) l1)|]; [lia|lia|by rewrite Hdr|lia|lia| |].
  - intros i Hi. rewrite L2 by lia. destruct (Z.leb_spec curr i), (Z.ltb_spec i (curr + zlen page)); simpl; try lia. apply Hz. lia.
  - intros l' [L3 L4]. split; [done|]. intros i Hi. rewrite L4, L2 by lia.
    destruct (Z.leb_spec (curr + zlen page) i) as [Hge|], (Z.leb_spec curr i), (Z.ltb_spec i (curr + zlen page)); simpl; try lia; try done.
    + assert (zlen page = chunk_size) as E by lia. rewrite nthZ_drop by lia. f_equal. lia.
    + unfold page. by rewrite nthZ_take by lia.
Qed.

Lemma read_file size f l : zlen f = size -> size mod 8 = 0 -> zlen l = size -> (forall i, 0 <= i < size -> nthZ l i = 0) ->
  read_chunks (Z.to_nat size) size 0 f l = Some f.
Proof.
  intros Hf Hm Hl Hz. pose proof (zlen_nonneg f). apply wp_eq. eapply wp_mono; [apply read_chunks_spec; rewrite ?Hf; (done || lia)|].
  intros l' [L1 L2]. apply list_eq_nthZ; [lia|]. intros i Hi. rewrite L2 by lia. destruct (Z.leb_spec 0 i); [|lia]. f_equal. lia.
Qed.

(** ** Checkpoints *)

Section Checkpoint.
Context {X File : Type} (compress : list Z -> File) (uncompress : File -> list Z).
Hypothesis Hfile : forall l, uncompress (compress l) = l.
Implicit Types (w : World X).

(** A store with its bytes. *)
Definition holding w (s : BackingStoreEntry) (l : list Z) : Prop :=
  bufs w !! pmem s = Some l /\ zlen l = AddrRange.size (bs_range s) /\ 0 < zlen l < 2 ^ 64 /\ zlen l mod 8 = 0.

Definition clean w (s : BackingStoreEntry) : Prop :=
  exists l, bufs w !! pmem s = Some l /\ zlen l = AddrRange.size (bs_range s) /\ forall i, 0 <= i < zlen l -> nthZ l i = 0.

Definition section (id : Z) (s : BackingStoreEntry) (l : list Z) : StoreSection File := mkSection id (wrapS 64 (zlen l)) (compress l).

Lemma serializeStore_spec id s l w : holding w s l -> serializeStore compress id s w = Some (section id s l).
Proof.
  intros (H1 & H2 & H3 & H4). unfold serializeStore. rewrite H1. cbn [mbind option_bind]. rewrite <- H2.
  rewrite (write_passes_spec _ (zlen l) 0 l []); [|lia|lia|].
  - cbn [mbind option_bind]. rewrite Z.sub_0_r, drop_0. simpl. unfold section. rewrite take_ge by (unfold zlen; lia). done.
  - pose proof INT_MAX_pos. assert (0 <= zlen l / INT_MAX) by (apply Z.div_pos; lia). pose proof (Z.mul_succ_div_gt (zlen l) INT_MAX). lia.
Qed.

Lemma unserializeStore_spec w w0 s s0 l i :
  holding w s l -> backingStore (phys w0) !! i = Some s0 -> bs_range s0 = bs_range s -> clean w0 s0 ->
  unserializeStore uncompress (section (Z.of_nat i) s l) w0 = Some (set_bufs (<[pmem s0 := l]> (bufs w0)) w0).
Proof.
  intros (H1 & H2 & H3 & H4) Hi Er (l0 & C1 & C2 & C3). unfold unserializeStore. simpl. rewrite Nat2Z.id, Hi. cbn [mbind option_bind]. rewrite Er, <- H2.
  assert (uint64 (wrapS 64 (zlen l)) = zlen l) as -> by (unfold uint64; rewrite wrapU_wrapS by lia; apply wrapU_small; lia).
  rewrite Z.eqb_refl, C1. cbn [assert_ mbind option_bind]. rewrite Hfile. rewrite Er, <- H2 in C2. rewrite (read_file (zlen l) l l0); [done|done|done|done|by rewrite C2 in C3].
Qed.

(** Each store is restored. *)
Lemma stores_restored w ss pre0 ss0 w0 :
  backingStore (phys w0) = pre0 ++ ss0 -> Z.of_nat (length pre0 + length ss) < 2 ^ 32 -> NoDup (pmem <$> ss0) ->
  Forall2 (fun s s0 => (exists l, holding w s l) /\ bs_range s0 = bs_range s /\ clean w0 s0) ss ss0 ->
  exists secs, serialize_stores compress (Z.of_nat (length pre0)) ss w = Some secs /\ length secs = length ss /\
    wp (unserialize_stores uncompress secs w0) (fun w' => w' = set_bufs (bufs w') w0 /\
      (forall h, h ∉ pmem <$> ss0 -> bufs w' !! h = bufs w0 !! h) /\ Forall2 (fun s s0 => bufs w' !! pmem s0 = bufs w !! pmem s) ss ss0).
Proof.
  revert pre0 ss0 w0. induction ss as [|s ss IH]; intros pre0 ss0 w0 Hb Hlen Hnd HF.
  { apply Forall2_nil_inv_l in HF as ->. exists []. do 2 (split; [done|]). simpl. split; [by destruct w0|]. split; [done|constructor]. }
  apply Forall2_cons_inv_l in HF as (s0 & ss0' & ((l & Hl) & Er & Hcl) & HF & ->). cbn in Hnd. apply NoDup_cons in Hnd as [Hn Hnd]. simpl in Hlen.
  assert (unserializeStore uncompress (section (Z.of_nat (length pre0)) s l) w0 = Some (set_bufs (<[pmem s0 := l]> (bufs w0)) w0)) as Eu.
  { apply (unserializeStore_spec w); [done| |done|done]. by rewrite Hb, list_lookup_middle. }
  set (w1 := set_bufs (<[pmem s0 := l]> (bufs w0)) w0) in *.
  destruct (IH (pre0 ++ [s0]) ss0' w1) as (secs & Es & El & Hw).
  - simpl. by rewrite Hb, <- app_assoc.
  - rewrite length_app. simpl. lia.
  - done.
  - eapply Forall2_on; [exact HF|]. intros x y Hy (Q1 & Q2 & l1 & C1 & C2). split; [done|]. split; [done|]. exists l1. split; [|done]. simpl.
    rewrite lookup_insert_ne; [done|]. intros E. apply Hn, list_elem_of_fmap. by exists y.
  - exists (section (Z.of_nat (length pre0)) s l :: secs). cbn [serialize_stores unserialize_stores]. rewrite (serializeStore_spec _ s l) by done. cbn [mbind option_bind].
    assert (uint32 (Z.of_nat (length pre0) + 1) = Z.of_nat (length (pre0 ++ [s0]))) as -> by (unfold uint32; rewrite wrapU_small, length_app by lia; simpl; lia).
    rewrite Es. cbn [mbind option_bind]. split; [done|]. split; [simpl; by rewrite El|]. rewrite Eu. cbn [mbind option_bind].
    eapply wp_mono; [exact Hw|]. intros w' (W1 & W2 & W3). split; [rewrite W1; done|]. split.
    + intros h Hh. cbn in Hh. rewrite not_elem_of_cons in Hh. rewrite W2 by tauto. simpl. apply lookup_insert_ne. intros E. subst h. tauto.
    + constructor; [|done]. rewrite W2 by done. simpl. rewrite lookup_insert_eq. symmetry. apply Hl.
Qed.

(** ** Locked addresses *)

(** The locked addresses of the memories, with their memories. *)
Lemma locks_of_spec ms w :
  NoDup ms -> (forall m, m ∈ ms -> is_Some (mems w !! m)) ->
  exists L : list (positive * AMem.LockedAddr), locks_of ms w = Some L.*2 /\
    (forall e, e ∈ L -> exists x, e.1 ∈ ms /\ mems w !! e.1 = Some x /\ e.2 ∈ AMem.lockedAddrList x) /\
    (forall m x, m ∈ ms -> mems w !! m = Some x -> (filter (fun e => e.1 = m) L).*2 = AMem.lockedAddrList x).
Proof.
  induction ms as [|m ms IH]; intros Hnd Hm.
  { exists []. split; [done|]. split; [intros e He; by apply not_elem_of_nil in He|]. intros m x He. by apply not_elem_of_nil in He. }
  apply NoDup_cons in Hnd as [Hn Hnd]. destruct (Hm m) as [x Hx]; [by left|]. destruct IH as (L & E & L1 & L2); [done|intros m' Hm'; apply Hm; by right|].
  exists (((fun i => (m, i)) <$> AMem.lockedAddrList x) ++ L). cbn [locks_of]. rewrite Hx. cbn [mbind option_bind]. rewrite E. cbn [mbind option_bind].
  assert (forall l : list AMem.LockedAddr, ((fun i => (m, i)) <$> l).*2 = l) as Hsnd by (intros l; induction l; [done|]; cbn; by f_equal). split; [|split].
  - by rewrite fmap_app, Hsnd.
  - intros e [He|He]%elem_of_app.
    + apply list_elem_of_fmap in He as (i & -> & Hi). exists x. split; [by left|done].
    + destruct (L1 e He) as (y & Q1 & Q2). exists y. split; [by right|done].
  - assert (forall l : list AMem.LockedAddr, filter (fun e : positive * AMem.LockedAddr => e.1 = m) ((fun i => (m, i)) <$> l) = (fun i => (m, i)) <$> l) as Hkeep.
    { intros l. induction l as [|i l IHl]; [done|]. rewrite fmap_cons, filter_cons_True by done. by f_equal. }
    intros m' y Hm' Hy. rewrite filter_app, fmap_app. destruct (decide (m' = m)) as [->|Hne].
    + rewrite Hkeep, Hsnd, filter_none; [rewrite app_nil_r; congruence|]. intros e He E1. destruct (L1 e He) as (z & Q1 & _). by rewrite E1 in Q1.
    + rewrite filter_none. 2: { intros e He E1. apply list_elem_of_fmap in He as (i & -> & _). by apply Hne. }
      simpl. apply L2; [|done]. by apply elem_of_cons in Hm' as [|].
Qed.

(** A locked address of memory [m]. *)
Definition lock_in w (e : positive * AMem.LockedAddr) : Prop :=
  exists r, (r, e.1) ∈ RangeMap.tree (addrMap (phys w)) /\ ar_start r <= AMem.la_addr e.2 <= ar_end r.

(** The world with more locked addresses. *)
Definition locked w (L : list (positive * AMem.LockedAddr)) (m : positive) : option AMem.Memory :=
  (fun x => AMem.set_locks (AMem.lockedAddrList x ++ (filter (fun e => e.1 = m) L).*2) x) <$> mems w !! m.

Lemma unserialize_locks_spec L w :
  RangeMap.map_ok cache_size (addrMap (phys w)) -> (forall r m, (r, m) ∈ RangeMap.tree (addrMap (phys w)) -> is_Some (mems w !! m)) -> Forall (lock_in w) L ->
  wp (unserialize_locks (AMem.la_addr <$> L.*2) (AMem.la_contextId <$> L.*2) w) (fun w' => exists am ms,
    w' = mkWorld (set_addrMap am (phys w)) ms (requests w) (packets w) (bufs w) (rest w) /\
    RangeMap.map_ok cache_size am /\ RangeMap.tree am = RangeMap.tree (addrMap (phys w)) /\ forall m, ms !! m = locked w L m).
Proof.
  revert w. induction L as [|[m [a c]] L IH]; intros w Hok Hex HL.
  { simpl. exists (addrMap (phys w)), (mems w). split; [by destruct w as [[? ? ? ?] ? ? ? ? ?]|]. do 2 (split; [done|]).
    intros m. unfold locked. destruct (mems w !! m) as [x|]; [|done]. simpl. rewrite app_nil_r. by destruct x. }
  apply Forall_cons in HL as [(r & Hr & Ha) HL]. simpl in Hr, Ha. cbn [fmap list_fmap unserialize_locks fst snd AMem.la_addr AMem.la_contextId].
  pose proof (RangeMap.mo_plain _ _ Hok) as HP. rewrite Forall_forall in HP. pose proof (HP _ Hr) as [P1 P2 [P3 P3'] [P4 P4'] P5]. simpl in *.
  assert (addr a) as Hadr by (unfold addr; lia).
  destruct (RangeMap.map_contains_spec cache_size ltac:(done) (RangeSize a 1) (addrMap (phys w)) Hok) as (it & am & E & Ht & Hok' & Hit); [by apply RangeMap.RangeSize_plain|].
  assert (it = Some (r, m)) as ->.
  { apply Hit. split; [done|]. assert (ar_end (RangeSize a 1) = a) as -> by (simpl; unfold uint64; rewrite wrapU_small; lia). done. }
  unfold RangeMap.map_contains_addr. rewrite E. cbn [mbind option_bind snd]. destruct (Hex r m Hr) as [x Hx]. rewrite Hx. cbn [mbind option_bind].
  set (w1 := set_mem _ _ _). eapply wp_mono; [apply (IH w1)|].
  - exact Hok'.
  - intros r' m' Hin. simpl in Hin |- *. rewrite Ht in Hin. destruct (decide (m' = m)) as [->|]; [rewrite lookup_insert_eq; by eexists|]. rewrite lookup_insert_ne by done. by apply (Hex r').
  - eapply Forall_impl; [exact HL|]. intros e (r' & H1 & H2). exists r'. split; [|done]. simpl. by rewrite Ht.
  - intros w' (am' & ms & -> & M1 & M2 & M3). exists am', ms. do 2 (split; [done|]). split; [rewrite M2; exact Ht|]. intros m'. rewrite M3. unfold locked. simpl.
    destruct (decide (m' = m)) as [->|Hne].
    + rewrite lookup_insert_eq, Hx. simpl. rewrite filter_cons_True by done. f_equal. unfold AMem.addLockedAddr. by destruct x; cbn; rewrite <- app_assoc.
    + rewrite lookup_insert_ne by done. rewrite filter_cons_False by (simpl; congruence). done.
Qed.
End Checkpoint.
