(* ===== verification/PhysicalTheorems.v ===== *)
(** * PhysicalTheorems: what the physical memory promises

    The memories of a system behave as one memory, and a checkpoint restores it in a
    system that has just been built. *)

From stdpp Require Import prelude gmap infinite.
From Stdlib Require Import ZArith Lia.
From S2P Require Import Prelude Machine AddrRange AddrRangeMap SimulatorTheorems EventQueue EventService Packet PacketTheorems Request.
From S2P Require Import AbstractMem AbstractMemCorrect AbstractMemTheorems Physical PhysicalCorrect.
Import Phys MemSpec.

Open Scope Z_scope.

Section Memories.
Context {X : Type} (clear : Z -> X -> option X) (known : Z -> Prop) (I : X -> Prop).
Hypothesis Hclear : forall c x, known c -> I x -> exists x', clear c x = Some x' /\ I x'.
Implicit Types (w : World X) (S : positive -> State).

Abbreviation mapped w := (RangeMap.tree (addrMap (phys w))).

Lemma flat_moved w S w' m o r f :
  flat w S f -> RangeMap.map_ok cache_size (addrMap (phys w)) -> (r, m) ∈ mapped w -> mapped w' = mapped w ->
  (forall r', (r', m) ∈ mapped w -> r' = r) -> inside o (ar_start r) (ar_end r) ->
  flat w' (moved m (step o (S m)).1.1 S) (contents (step o (mkState f (reserved (S m)))).1.1).
Proof.
  intros Hf Hok Hin Ht Hone Hi.
  destruct (step_flat (S m) f (ar_start r) (ar_end r) (fun x Hx => Hf r m x Hin Hx) o Hi) as (_ & _ & _ & F1 & F2).
  intros r' m' x Hin' Hx. rewrite Ht in Hin'. destruct (decide (m' = m)) as [->|Hne].
  - rewrite moved_at. apply F1. by rewrite <- (Hone r' Hin').
  - rewrite moved_other by done. rewrite F2; [by apply (Hf r')|]. intros Hxr. apply Hne.
    assert ((r', m') = (r, m)) as E; [|congruence]. apply (RangeMap.overlap_unique (mapped w) (r', m') (r, m) x); try done; apply Hok.
Qed.

(** C25: one address space.  Memories with plain, disjoint ranges behave together as one
    memory: an access to addresses inside one of the ranges does to the bytes of the
    address space, [f], and returns, exactly what its operation says; it turns the packet
    into a response if one is needed; the reservations it makes or ends are those of the
    memory it goes to; and the other memories keep their states. *)
Theorem physical_refines w S f pkt p req d v r m h o :
  backed known I w S -> flat w S f -> routed known I w S pkt p req d v r m h -> operation p req v = Some o -> granted (S m) req o ->
  wp (access clear pkt w) (fun w' =>
    let s := mkState f (reserved (S m)) in
    exists S', backed known I w' S' /\ flat w' S' (contents (step o s).1.1) /\ reserved (S' m) = reserved (step o s).1.1 /\
      (forall m', m' <> m -> S' m' = S m') /\ bufs w' !! d = Some (step o s).1.2 /\
      packets w' = match Pkt.makeResponse p with Some q => <[pkt := q]> (packets w) | None => packets w end).
Proof.
  intros Hb Hf Hr Ho Hg. pose proof Hr as [E1 Hbh E3 E4 E5]. pose proof Hbh as [(x & Hx & Er & Hrep)].
  pose proof (E4 x Hx) as Hrd. pose proof (subset_bounds _ _ _ (rd_range _ _ _ _ _ _ _ _ Hrd)) as Hsub. cbn [seen AMem.mem] in Hsub. rewrite Er in Hsub.
  pose proof (operation_inside p req v o (ar_start r) (ar_end r) Ho (ac_len _ _ _ _ (rd_data _ _ _ _ _ _ _ _ Hrd)) (proj1 Hsub) (proj2 Hsub)) as Hin.
  destruct (step_flat (S m) f (ar_start r) (ar_end r) (fun a Ha => Hf r m a E1 Ha) o Hin) as (F1 & F2 & F3 & _).
  eapply wp_mono; [by apply (physical_access_spec clear known I Hclear w S pkt p req d v r m h o)|].
  intros w' (B & Ht & x' & v' & Hx' & [I1 I2 I3 I4 I5 I6] & Eb & Ep & Eq). exists (moved m (step o (S m)).1.1 S).
  split; [done|]. split; [|split; [by rewrite moved_at|split; [intros m' Hne; by apply moved_other|split; [by rewrite Eb, F1|by rewrite Ep]]]].
  apply (flat_moved w S w' m o r f); try done; [apply Hb|]. intros r' Hin'.
  destruct (bk_store _ _ _ _ _ _ Hb Hin') as (i & s & _ & _ & Hb'). symmetry. apply (behind_agree _ _ _ _ _ _ _ _ _ Hbh Hb').
Qed.

(** [isMemAddr] answers whether some memory has the address, and only warms the cache of the map. *)
Theorem is_mem_addr w S a :
  backed known I w S -> addr a ->
  wp (isMemAddr a w) (fun '(b, w') => (b = true <-> exists e, e ∈ mapped w /\ contains e.1 a = true) /\ mapped w' = mapped w /\ mems w' = mems w /\ bufs w' = bufs w).
Proof.
  intros B Ha. destruct (map_lookup cache_size ltac:(done) a (addrMap (phys w)) (bk_map _ _ _ _ B) Ha) as (it & am & E & Ht & _ & Hit).
  unfold isMemAddr. rewrite E. simpl. split; [|done]. destruct it as [e|]; (split; [intros H; try done|intros (e' & He)]); [|done|].
  - exists e. by apply Hit.
  - discriminate (proj2 (Hit e') He).
Qed.

(** ** Checkpoints *)

Context {File : Type} (compress : list Z -> File) (uncompress : File -> list Z).
Hypothesis Hfile : forall l, uncompress (compress l) = l.

Lemma Forall2_join {A B C} (P : A -> C -> Prop) (Q : B -> C -> Prop) l l' k :
  Forall2 P l k -> Forall2 Q l' k -> Forall2 (fun x y => exists z, z ∈ k /\ P x z /\ Q y z) l l'.
Proof.
  intros H. revert l'. induction H as [|x z l k Hxz _ IH]; intros l' H'.
  - apply Forall2_nil_inv_r in H' as ->. constructor.
  - apply Forall2_cons_inv_r in H' as (y & l2 & Hyz & H' & ->). constructor; [exists z; split; [by left|done]|].
    eapply Forall2_impl; [by apply IH|]. intros x' y' (z' & H1 & H2). exists z'. split; [by right|done].
Qed.

Lemma reservations_empty l : reservations l = ∅ -> l = [].
Proof.
  intros E. destruct l as [|i l]; [done|]. rewrite reservations_cons in E. apply (f_equal (lookup (AMem.la_contextId i))) in E.
  rewrite lookup_insert_eq, lookup_empty in E. done.
Qed.

(** The memories that a checkpoint can be taken of. *)
Record saveable w S : Prop := {
  sb_backed : backed known I w S;
  sb_memories : NoDup (memories (phys w)) /\ forall m, m ∈ memories (phys w) <-> exists r, (r, m) ∈ mapped w;
  sb_sizes : Forall (fun e => let n := ar_end e.1 - ar_start e.1 + 1 in n < 2 ^ 64 /\ n mod 8 = 0) (mapped w);
  sb_locks : forall r m c g, (r, m) ∈ mapped w -> reserved (S m) !! c = Some g -> ar_start r <= g <= ar_end r;
  sb_count : zlen (backingStore (phys w)) < 2 ^ 32
}.

Lemma behind_holding w S r m s :
  RangeMap.plain r -> ar_end r - ar_start r + 1 < 2 ^ 64 -> (ar_end r - ar_start r + 1) mod 8 = 0 -> bs_range s = r -> behind known I w S r m (pmem s) -> exists l, holding w s l.
Proof.
  intros Hp Hs Hm Er [(x & Hx & Ex & Hrep)]. destruct (rp_bytes _ _ _ _ _ Hrep) as (l & Hl & Hz & _). simpl in Hl, Hz. destruct (plain_size r Hp Hs) as [P1 P2].
  exists l. split; [done|]. rewrite Er, P1. rewrite Ex in Hz. rewrite Hz. split; [done|]. split; [lia|done].
Qed.

Lemma behind_clean w r m s : RangeMap.plain r -> ar_end r - ar_start r + 1 < 2 ^ 64 -> bs_range s = r -> behind known I w blank r m (pmem s) -> clean w s.
Proof.
  intros Hp Hs Er [(x & Hx & Ex & Hrep)]. destruct (rp_bytes _ _ _ _ _ Hrep) as (l & Hl & Hz & Hc). simpl in Hl, Hz, Hc. destruct (plain_size r Hp Hs) as [P1 P2].
  rewrite Ex in Hz, Hc. exists l. split; [done|]. split; [rewrite Er; lia|]. intros i Hi. rewrite <- (Hc (ar_start r + i)) by lia. f_equal. lia.
Qed.

(** The locked addresses of the checkpoint belong to the memories they came from. *)
Lemma locks_saved w S :
  saveable w S -> exists L, locks_of (memories (phys w)) w = Some L.*2 /\ Forall (lock_in w) L /\
    forall r m x, (r, m) ∈ mapped w -> mems w !! m = Some x -> (filter (fun e => e.1 = m) L).*2 = AMem.lockedAddrList x.
Proof.
  intros [B [M1 M2] Z Lk _]. destruct (locks_of_spec (memories (phys w)) w M1) as (L & E & L1 & L2).
  { intros m Hm. apply M2 in Hm as [r Hr]. destruct (bk_store _ _ _ _ _ _ B Hr) as (i & s & _ & _ & [(x & Hx & _)]). by exists x. }
  exists L. split; [done|]. split; [|intros r m x Hr Hx; apply L2; [apply M2; by exists r|done]].
  apply Forall_forall. intros e He. destruct (L1 e He) as (x & Hm & Hx & Hi). apply M2 in Hm as [r Hr]. exists r. split; [done|].
  destruct (bk_store _ _ _ _ _ _ B Hr) as (j & s & _ & _ & [(x' & Hx' & Er & Hrep)]). assert (x' = x) as -> by congruence.
  apply (Lk r e.1 (AMem.la_contextId e.2)); [done|]. rewrite (rp_reserved _ _ _ _ _ Hrep). apply reservations_elem; [apply Hrep|]. by destruct (e.2).
Qed.

(** C26: a checkpoint restores the memory.  Saving the memories and loading the checkpoint
    into memories that have just been built with the same ranges succeeds, and the
    restored memories hold the same bytes and the same reservations. *)
Theorem checkpoint_restores w S w0 :
  saveable w S -> backed known I w0 blank -> mapped w0 = mapped w ->
  exists cp, serialize compress w = Some cp /\ wp (unserialize uncompress cp w0) (fun w' => backed known I w' S /\ mapped w' = mapped w).
Proof.
  intros Hsv B0 Ht. destruct (locks_saved w S Hsv) as (L & EL & HL & Hfil). pose proof Hsv as [B _ Z _ Hc]. rewrite Forall_forall in Z.
  pose proof (RangeMap.mo_plain _ _ (bk_map _ _ _ _ B)) as HP. rewrite Forall_forall in HP.
  pose proof (Forall2_join _ _ _ _ _ (bk_listed _ _ _ _ B) (eq_rect _ (fun k => Forall2 _ (backingStore (phys w0)) k) (bk_listed _ _ _ _ B0) _ Ht)) as HJ.
  assert (Forall (lock_in w0) L) as HL0 by (eapply Forall_impl; [exact HL|]; intros e (r & H1 & H2); exists r; by rewrite Ht).
  assert (forall r m, (r, m) ∈ mapped w0 -> is_Some (mems w0 !! m)) as Hex0.
  { intros r m Hr. destruct (bk_store _ _ _ _ _ _ B0 Hr) as (i & s & _ & _ & [(x & Hx & _)]). by exists x. }
  pose proof (unserialize_locks_spec L w0 (bk_map _ _ _ _ B0) Hex0 HL0) as Hul. apply wp_exists in Hul as (w1 & Eul & am & ms & -> & M1 & M2 & M3).
  set (w1 := mkWorld _ _ _ _ _ _) in *.
  destruct (stores_restored compress uncompress Hfile w (backingStore (phys w)) [] (backingStore (phys w0)) w1) as (secs & Es & El & Hus).
  { done. }
  { unfold zlen in Hc. simpl. lia. }
  { apply B0. }
  { eapply Forall2_impl; [exact HJ|]. intros s s0 (e & He & (E1 & H1) & E2 & H2). destruct (Z e He) as [Z1 Z2].
    split; [apply (behind_holding w S e.1 e.2); auto|]. split; [by rewrite E2|].
    destruct (behind_clean w0 e.1 e.2 s0 (HP e He) Z1 E2 H2) as (l & C). by exists l. }
  eexists. split; [unfold serialize; rewrite EL; cbn [mbind option_bind]; change 0 with (Z.of_nat (length (@nil BackingStoreEntry))) at 1; rewrite Es; reflexivity|].
  unfold unserialize. simpl. rewrite Eul. cbn [mbind option_bind].
  assert (uint32 (zlen (backingStore (phys w))) = zlen secs) as -> by (unfold uint32; rewrite wrapU_small by (pose proof (zlen_nonneg (backingStore (phys w))); lia); unfold zlen; by rewrite El).
  rewrite Z.leb_refl. cbn [assert_ mbind option_bind]. rewrite take_ge by (unfold zlen; lia).
  eapply wp_mono; [exact Hus|]. intros w' (W1 & W2 & W3). rewrite W1. simpl. split; [|by rewrite M2]. split; simpl; rewrite ?M2; [done| |apply B0].
  pose proof (bk_listed _ _ _ _ B0) as BL0. eapply Forall2_same_length_lookup_2; [by apply (Forall2_length _ _ _ BL0)|].
  intros i s0 e Hs0 He. destruct (Forall2_lookup_lr _ _ _ _ _ _ BL0 Hs0 He) as [E0 [(x0 & Hx0 & Er0 & R0)]]. split; [done|].
  pose proof He as He'. rewrite Ht in He'. destruct (Forall2_lookup_r _ _ _ _ _ (bk_listed _ _ _ _ B) He') as (s & Hs & E1 & [(x & Hx & Er & R)]).
  pose proof (Forall2_lookup_lr _ _ _ _ _ _ W3 Hs Hs0) as Eb. destruct R0 as [Q1 Q2 Q3 Q4 Q5 Q6], R as [R1 (l & R2 & R3) R4 R5 R6 R7]. simpl in *.
  assert (AMem.lockedAddrList x0 = []) as El0 by (by apply reservations_empty).
  assert (ms !! e.2 = Some (AMem.set_locks (AMem.lockedAddrList x) x0)) as Ems.
  { rewrite M3. unfold locked. rewrite Hx0. simpl. rewrite El0. simpl. rewrite (Hfil e.1 e.2 x); [done| |done]. destruct e. by eapply list_elem_of_lookup_2. }
  split. eexists. split; [exact Ems|]. split; [done|]. split; simpl; try done. exists l. rewrite Eb. split; [done|]. by rewrite Er0, <- Er.
Qed.
End Memories.

(** * Two memories

    A system with memories of 32 and 64 bytes, on which the theorems of [PhysicalTheorems]
    are run. *)

Module TwoMemories.

Definition clear (c : Z) (x : unit) : option unit := Some x.
Definition anyone (c : Z) : Prop := True.
Definition anything (x : unit) : Prop := True.
Lemma quiet_clear : forall c x, anyone c -> anything x -> exists x', clear c x = Some x' /\ anything x'.
Proof. intros c x _ _. by exists x. Qed.

(** An unused region of zeros. *)
Definition mmap (n : Z) (b : Pkt.Bufs) : option (positive * Pkt.Bufs) :=
  let h := fresh (dom b) in Some (h, <[h := replicate (Z.to_nat n) 0]> b).
Lemma mmap_ok : forall n b, 0 < n -> exists h, b !! h = None /\ mmap n b = Some (h, <[h := replicate (Z.to_nat n) 0]> b).
Proof. intros n b _. exists (fresh (dom b)). split; [|done]. apply not_elem_of_dom, is_fresh. Qed.

Definition low : AMem.Memory := AMem.AbstractMemory_new (AddrRange_plain 0x1000 0x101f) true true true.
Definition high : AMem.Memory := AMem.AbstractMemory_new (AddrRange_plain 0x2000 0x203f) true true true.

Definition word_req : Req.Request := Req.setContext 0 (Req.Request_phys 0x2004 4 0 7 0).
Definition word_pkt : Pkt.Packet := Pkt.set_flag Pkt.STATIC_DATA (Pkt.set_data (Some 11%positive) (Pkt.createWrite 1 (Req.view word_req))).

Definition world : World unit :=
  mkWorld (mkPhys (RangeMap.mkMap [] []) [] 0 []) {[ 1%positive := high; 2%positive := low ]} {[ 1%positive := word_req ]} {[ 1%positive := word_pkt ]}
    {[ 11%positive := [5; 6; 7; 8] ]} tt.
Definition no_null (m : positive) : bool := false.
Definition built : World unit := default world (PhysicalMemory_new no_null mmap [1%positive; 2%positive] world).
Definition written : World unit := default built (access clear 1 built).
Definition store : Op := Store 0x2004 [5; 6; 7; 8].

Lemma built_new : PhysicalMemory_new no_null mmap [1%positive; 2%positive] world = Some built.
Proof. vm_compute. reflexivity. Qed.

Lemma built_backed : backed anyone anything built blank.
Proof.
  pose proof (new_backed anyone anything no_null mmap mmap_ok [1%positive; 2%positive] world) as H. rewrite built_new in H. apply H.
  - done.
  - apply (bool_decide_unpack _). vm_compute. done.
  - intros m Hm. split; [done|]. apply elem_of_cons in Hm as [->|[->|Hm%not_elem_of_nil]%elem_of_cons]; [exists high|exists low|done];
      (split; [done|split; try done; split; vm_compute; intuition congruence]).
  - intros m m' x x' Hm Hm' Hne Hx Hx'. unfold apart.
    apply elem_of_cons in Hm as [->|[->|Hm%not_elem_of_nil]%elem_of_cons]; [| |done];
      apply elem_of_cons in Hm' as [->|[->|Hm'%not_elem_of_nil]%elem_of_cons]; try done; injection Hx as <-; injection Hx' as <-; vm_compute; auto.
Qed.

Lemma built_mapped : RangeMap.tree (addrMap (phys built)) = [(AMem.range low, 2%positive); (AMem.range high, 1%positive)].
Proof. vm_compute. reflexivity. Qed.

(** The stores of the two memories. *)
Lemma built_pmem r m h : (r, m) ∈ RangeMap.tree (addrMap (phys built)) -> behind anyone anything built blank r m h -> h = if bool_decide (m = 2%positive) then 12%positive else 13%positive.
Proof.
  intros Hin [(x & Hx & _ & Hrep)]. pose proof (rp_pmem _ _ _ _ _ Hrep) as Hp. simpl in Hp. rewrite built_mapped in Hin.
  apply elem_of_cons in Hin as [[= -> ->]|[[= -> ->]|Hin%not_elem_of_nil]%elem_of_cons]; [| |done]; vm_compute in Hx; injection Hx as <-; injection Hp as <-; done.
Qed.

Lemma high_in : (AMem.range high, 1%positive) ∈ RangeMap.tree (addrMap (phys built)).
Proof. rewrite built_mapped. right. left. Qed.

Lemma high_behind : behind anyone anything built blank (AMem.range high) 1 13.
Proof.
  destruct (bk_store _ _ _ _ _ _ built_backed high_in) as (i & s & _ & _ & Hb). pose proof (built_pmem _ _ _ high_in Hb) as E. rewrite bool_decide_false in E by done. by rewrite <- E.
Qed.

Lemma word_routed : routed anyone anything built blank 1 word_pkt word_req 11 [5; 6; 7; 8] (AMem.range high) 1 13.
Proof.
  split.
  - exact high_in.
  - exact high_behind.
  - reflexivity.
  - intros x Hx. vm_compute in Hx. injection Hx as <-. split; try reflexivity; [split; (reflexivity || done)|done].
  - intros r' m' h' Hin Hb. rewrite (built_pmem r' m' h' Hin Hb). by destruct (bool_decide _).
Qed.

Lemma word_granted : granted (blank 1) word_req store.
Proof. left. by exists 0. Qed.

Lemma physical_refines_witness :
  wp (access clear 1 built) (fun w' => exists S', backed anyone anything w' S' /\ flat w' S' (write_bytes 0x2004 [5; 6; 7; 8] (fun _ => 0))).
Proof.
  eapply wp_mono; [exact (physical_refines clear anyone anything quiet_clear built blank (fun _ => 0) 1 word_pkt word_req 11 [5; 6; 7; 8] (AMem.range high) 1 13 store
    built_backed (fun r m x _ _ => eq_refl) word_routed eq_refl word_granted)|].
  intros w' (S' & H1 & H2 & _). exists S'. split; [exact H1|exact H2].
Defined.

(** The memories after the store. *)
Definition after_store : positive -> State := moved 1 (step store (blank 1)).1.1 blank.

Lemma written_backed : backed anyone anything written after_store /\ RangeMap.tree (addrMap (phys written)) = RangeMap.tree (addrMap (phys built)).
Proof.
  pose proof (physical_access_spec clear anyone anything quiet_clear built blank 1 word_pkt word_req 11 [5; 6; 7; 8] (AMem.range high) 1 13 store built_backed word_routed eq_refl word_granted) as H.
  assert (access clear 1 built = Some written) as E by (vm_compute; reflexivity). rewrite E in H. destruct H as (H1 & H2 & _). by split.
Qed.

Lemma written_saveable : saveable anyone anything written after_store.
Proof.
  destruct written_backed as [B T]. split; rewrite ?T, ?built_mapped.
  - exact B.
  - assert (memories (phys written) = [1%positive; 2%positive]) as -> by (vm_compute; reflexivity). split; [apply (bool_decide_unpack _); vm_compute; done|].
    intros m. split.
    + intros [->|[->|H%not_elem_of_nil]%elem_of_cons]%elem_of_cons; [exists (AMem.range high); right; left|exists (AMem.range low); left|done].
    + intros (r & [[= _ ->]|[[= _ ->]|H%not_elem_of_nil]%elem_of_cons]%elem_of_cons); [right; left|left|done].
  - apply Forall_cons. split; [vm_compute; done|]. apply Forall_singleton. vm_compute. done.
  - intros r m c g _ Hg. unfold after_store, moved in Hg. destruct (decide (m = 1%positive)); vm_compute in Hg; done.
  - vm_compute. reflexivity.
Qed.

Lemma checkpoint_restores_witness :
  exists cp, serialize id written = Some cp /\ wp (unserialize id cp built) (fun w' => backed anyone anything w' after_store).
Proof.
  destruct (checkpoint_restores anyone anything id id (fun l => eq_refl) written after_store built written_saveable built_backed (eq_sym (proj2 written_backed))) as (cp & E & H).
  exists cp. split; [exact E|]. eapply wp_mono; [exact H|]. by intros w' [H1 _].
Defined.
End TwoMemories.
