(* ===== verification/PacketQueue.v ===== *)
(** * PacketQueue: packets that wait to be sent

    Translates [gem5-X-TiC-SAT/src/mem/packet_queue.cc] and [packet_queue.hh].  A
    queue holds pointers to packets with the tick they are ready at, and sends
    them from its event.  The world of a queue is the queue itself, the packets
    and their buffers, the drain manager, and the rest of the system [X]; the
    event queue of the simulator is kept beside it.  [sendTiming], which a port
    implements, is a parameter: it may call the queue again.  Names, labels of
    print requests and traces are left out. *)

From stdpp Require Import prelude gmap.
From Stdlib Require Import ZArith Lia.
From S2P Require Import Prelude Machine EventQueue Drain Packet.

Open Scope Z_scope.

Module PQ.

Definition MaxTick : Z := 0xffffffffffffffff.

(** [(tick, pkt)] *)
Abbreviation DeferredPacket := (Z * positive)%type.

Record PacketQueue := mkPQ {
  transmitList : list DeferredPacket;
  sendEvent : positive;
  disableSanityCheck : bool;
  waitingOnRetry : bool;
  self : positive
}.

Definition PacketQueue_new (event obj : positive) (disable_sanity_check : bool) : PacketQueue :=
  mkPQ [] event disable_sanity_check false obj.

Definition set_list (l : list DeferredPacket) (q : PacketQueue) : PacketQueue :=
  mkPQ l (sendEvent q) (disableSanityCheck q) (waitingOnRetry q) (self q).
Definition set_waiting (b : bool) (q : PacketQueue) : PacketQueue :=
  mkPQ (transmitList q) (sendEvent q) (disableSanityCheck q) b (self q).

Section World.
Context {X : Type}.

Record World := mkWorld {
  queue : PacketQueue;
  packets : gmap positive Pkt.Packet;
  bufs : Pkt.Bufs;
  drains : Drain.System;
  rest : X
}.

Definition set_queue (q : PacketQueue) (w : World) : World := mkWorld q (packets w) (bufs w) (drains w) (rest w).
Definition set_drains (d : Drain.System) (w : World) : World := mkWorld (queue w) (packets w) (bufs w) d (rest w).
Definition set_mem (p : gmap positive Pkt.Packet) (b : Pkt.Bufs) (w : World) : World := mkWorld (queue w) p b (drains w) (rest w).

Abbreviation WS := (World * EventQ.State)%type.

Definition addr_of (p : positive) (w : World) : option Z := pkt ← packets w !! p; Pkt.getAddr pkt.

Definition deferredPacketReady (w : World) (st : EventQ.State) : bool :=
  match transmitList (queue w) with [] => false | (t, _) :: _ => t <=? EventQ.curTick st end.

Definition deferredPacketReadyTime (w : World) : Z :=
  match transmitList (queue w) with [] => MaxTick | (t, _) :: _ => t end.

Definition pq_size (w : World) : Z := zlen (transmitList (queue w)).

Fixpoint hasAddr_list (l : list DeferredPacket) (a : Z) (w : World) : option bool :=
  match l with
  | [] => Some false
  | (_, p) :: l => a' ← addr_of p w; if a' =? a then Some true else hasAddr_list l a w
  end.
Definition hasAddr (a : Z) (w : World) : option bool := hasAddr_list (transmitList (queue w)) a w.

(** [pkt] is looked up and stored back for every buffered packet. *)
Fixpoint satisfy_list (l : list DeferredPacket) (pkt : positive) (w : World) : option (bool * World) :=
  match l with
  | [] => Some (false, w)
  | (_, o) :: l =>
      p ← packets w !! pkt;
      other ← packets w !! o;
      '(found, p, b) ← Pkt.trySatisfyFunctional other p (bufs w);
      let w := set_mem (<[pkt := p]> (packets w)) b w in
      if (found : bool) then Some (true, w) else satisfy_list l pkt w
  end.
Definition trySatisfyFunctional (pkt : positive) (w : World) : option (bool * World) :=
  satisfy_list (transmitList (queue w)) pkt w.

Definition isDraining (s : Drain.DrainState) : bool := match s with Drain.Draining => true | _ => false end.
Definition is_empty {A} (l : list A) : bool := match l with [] => true | _ => false end.

Definition schedSendEvent (when : Z) (ws : WS) : option WS :=
  let '(w, st) := ws in
  let q := queue w in
  e ← EventQ.deref (sendEvent q) st;
  if waitingOnRetry q then _ ← assert_ (negb (EventQ.scheduled e)); Some (w, st)
  else if negb (when =? MaxTick) then
    let when := Z.max when (uint64 (EventQ.curTick st + 1)) in
    if negb (EventQ.scheduled e) then st ← EventQ.schedule false true (sendEvent q) when false st; Some (w, st)
    else if when <? EventQ.when_ e then st ← EventQ.reschedule false true (sendEvent q) when false st; Some (w, st)
    else Some (w, st)
  else
    s ← Drain.drainState (self q) (drains w);
    if isDraining s && is_empty (transmitList q) && negb (EventQ.scheduled e)
    then d ← Drain.signalDrainDone (self q) (drains w); Some (set_drains d w, st)
    else Some (w, st).

(** The search from the end of the list: the index of the entry to insert after. *)
Fixpoint find_pos (l : list DeferredPacket) (w : World) (when : Z) (pkt : Pkt.Packet) (force_order : bool) (i : nat) : option nat :=
  match i with
  | O => Some O
  | S j =>
      '(t, p) ← l !! i;
      if when <? t then
        same ← (if force_order then a' ← addr_of p w; a ← Pkt.getAddr pkt; Some (a' =? a) else Some false);
        if (same : bool) then Some i else find_pos l w when pkt force_order j
      else Some i
  end.

Definition emplace {A} (i : nat) (x : A) (l : list A) : list A := take i l ++ x :: drop i l.

Definition schedSendTiming (pkt : positive) (when : Z) (force_order : bool) (ws : WS) : option WS :=
  let '(w, st) := ws in
  _ ← assert_ (EventQ.curTick st <=? when);
  p ← packets w !! pkt;
  _ ← assert_ (negb (Pkt.isExpressSnoop p));
  let q := queue w in
  _ ← assert_ (disableSanityCheck q || (zlen (transmitList q) <=? 100));
  match transmitList q with
  | [] => schedSendEvent when (set_queue (set_list [(when, pkt)] q) w, st)
  | l =>
      i ← find_pos l w when p force_order (length l - 1);
      Some (set_queue (set_list (emplace (S i) (when, pkt) l) q) w, st)
  end.

Section Sending.
Variable sendTiming : positive -> WS -> option (bool * WS).

Definition sendDeferredPacket (ws : WS) : option WS :=
  let '(w, st) := ws in
  _ ← assert_ (negb (waitingOnRetry (queue w)));
  _ ← assert_ (deferredPacketReady w st);
  match transmitList (queue w) with
  | [] => None
  | (t, pkt) :: l =>
      '(ok, (w, st)) ← sendTiming pkt (set_queue (set_list l (queue w)) w, st);
      let w := set_queue (set_waiting (negb ok) (queue w)) w in
      if negb (negb ok) then schedSendEvent (deferredPacketReadyTime w) (w, st)
      else Some (set_queue (set_list ((t, pkt) :: transmitList (queue w)) (queue w)) w, st)
  end.

Definition processSendEvent (ws : WS) : option WS :=
  _ ← assert_ (negb (waitingOnRetry (queue ws.1))); sendDeferredPacket ws.

Definition retry (ws : WS) : option WS :=
  let '(w, st) := ws in
  _ ← assert_ (waitingOnRetry (queue w));
  sendDeferredPacket (set_queue (set_waiting false (queue w)) w, st).
End Sending.

Definition pq_drain (w : World) : Drain.DrainState :=
  match transmitList (queue w) with [] => Drain.Drained | _ => Drain.Draining end.
End World.
#[global] Arguments World : clear implicits.
End PQ.
