(* ===== verification/PacketQueueCorrect.v ===== *)
(** * PacketQueueCorrect: the order and the event of a packet queue

    Where [schedSendTiming] puts a packet, and the invariant of the queue: what is
    in the list is on its way, because the send event or a retry is pending. *)

From stdpp Require Import prelude gmap sorting.
From Stdlib Require Import ZArith Lia Sorted.
From S2P Require Import Prelude Machine EventQueue EventShape EventQueueCorrect EventService SimLoop EventOwner Drain DrainCorrect Packet PacketQueue.
Import PQ.

Open Scope Z_scope.

(** ** The place of a packet *)

Section Place.
Context {X : Type} (w : World X) (when : Z) (pkt : Pkt.Packet) (a : Z) (force : bool).
Hypothesis Ha : Pkt.getAddr pkt = Some a.

(** The new packet must not overtake this one. *)
Definition blocks (d : DeferredPacket) : bool :=
  (d.1 <=? when) || force && bool_decide (addr_of d.2 w = Some a).

Definition held (l : list DeferredPacket) : Prop := Forall (fun d => is_Some (addr_of d.2 w)) l.

Lemma find_pos_step l i d :
  l !! S i = Some d -> is_Some (addr_of d.2 w) ->
  find_pos l w when pkt force (S i) = if blocks d then Some (S i) else find_pos l w when pkt force i.
Proof.
  destruct d as [t p]. intros Hd [a' Ha']. unfold blocks. simpl in *. rewrite Hd. simpl. rewrite Ha'.
  destruct (Z.ltb_spec when t); [|by rewrite (proj2 (Z.leb_le _ _))]. rewrite (proj2 (Z.leb_gt _ _)) by done.
  destruct force; simpl; [|done]. rewrite Ha. simpl. destruct (Z.eqb_spec a' a) as [->|]; [by rewrite bool_decide_true|].
  by rewrite bool_decide_false by congruence.
Qed.

(** The packet goes behind the first one of the list, and behind the last one that
    blocks it. *)
Lemma find_pos_spec l i :
  held l -> (i < length l)%nat ->
  exists j, find_pos l w when pkt force i = Some j /\ (j <= i)%nat /\
    (forall k d, (j < k <= i)%nat -> l !! k = Some d -> blocks d = false) /\
    (j = 0%nat \/ exists d, l !! j = Some d /\ blocks d = true).
Proof.
  intros Hh. induction i as [|i IH]; intros Hi; [exists 0%nat; simpl; split; [done|]; split; [lia|]; split; [lia|by left]|].
  destruct (lookup_lt_is_Some_2 l (S i) Hi) as [d Hd]. rewrite (find_pos_step l i d Hd) by (by apply (Forall_lookup_1 _ _ _ _ Hh Hd)).
  destruct (blocks d) eqn:Hb.
  - exists (S i). split; [done|]. split; [lia|]. split; [lia|]. right. by exists d.
  - destruct (IH ltac:(lia)) as (j & Hj & Hle & Hbetween & Hstop). exists j. split; [done|]. split; [lia|]. split; [|done].
    intros k d' Hk Hkd. destruct (decide (k = S i)) as [->|]; [congruence|]. apply (Hbetween k); [lia|done].
Qed.

(** Behind the first entry, the list is cut where the packet goes. *)
Lemma find_pos_split f l :
  held (f :: l) ->
  exists i l1 l2, find_pos (f :: l) w when pkt force (length (f :: l) - 1) = Some i /\ l = l1 ++ l2 /\
    (forall x : DeferredPacket, emplace (S i) x (f :: l) = f :: l1 ++ x :: l2) /\
    Forall (fun d => blocks d = false) l2 /\ (forall l0 d, l1 = l0 ++ [d] -> blocks d = true).
Proof.
  intros Hh. destruct (find_pos_spec (f :: l) (length (f :: l) - 1) Hh ltac:(simpl; lia)) as (i & Hi & Hle & Hb & Hs).
  simpl in Hle. rewrite Nat.sub_0_r in Hle.
  exists i, (take i l), (drop i l). split; [done|]. split; [by rewrite take_drop|]. split; [done|]. split.
  - apply Forall_lookup. intros k d Hk. rewrite lookup_drop in Hk. pose proof (lookup_lt_Some _ _ _ Hk).
    apply (Hb (S (i + k))); [simpl; lia|done].
  - intros l0 d E. destruct Hs as [->|(d' & Hd' & Hblk)]; [by destruct l0|]. destruct i as [|i].
    { by destruct l0. }
    simpl in Hd'. assert (length (take (S i) l) = S (length l0)) as Hlen by (rewrite E, length_app; simpl; lia).
    rewrite length_take in Hlen. assert (length l0 = i) by lia. assert (take (S i) l !! i = Some d) as Hd.
    { rewrite E, lookup_app_r, H by lia. replace (i - i)%nat with 0%nat by lia. done. }
    rewrite lookup_take_lt in Hd by lia. congruence.
Qed.
End Place.

(** ** The invariant *)

(** What the event waits for, when the list is [l]. *)
Definition armed_for (l : list DeferredPacket) (now : Z) (a : option Z) : Prop :=
  match a, l with
  | None, _ => True
  | Some _, [] => False
  | Some t, (t0, _) :: _ => t0 <= t <= Z.max t0 (now + 1)
  end.

Lemma armed_later l now now' a : armed_for l now a -> now <= now' -> armed_for l now' a.
Proof. unfold armed_for. destruct a, l as [|[t0 p] l]; try done. lia. Qed.

Definition drainable {X} (w : World X) : Prop := counted (drains w) /\ self (queue w) ∈ Drain.all_drainable (drains w).

(** Every packet in the list has an address and a time before the end of time. *)
Definition packets_ok {X} (w : World X) : Prop :=
  held w (transmitList (queue w)) /\ Forall (fun d : DeferredPacket => d.1 < MaxTick) (transmitList (queue w)).

(** While a packet is being sent, and otherwise when no retry is pending. *)
Record open {X} (w : World X) (st : EventQ.State) : Prop := {
  op_calm : calm st;
  op_time : 0 <= EventQ.curTick st /\ EventQ.curTick st + 1 < MaxTick;
  op_packets : packets_ok w;
  op_drain : drainable w;
  op_waiting : waitingOnRetry (queue w) = false;
  op_event : exists a, owned (sendEvent (queue w)) a st /\ armed_for (transmitList (queue w)) (EventQ.curTick st) a
}.

(** Between operations: a list that is not empty is waited for. *)
Record settled {X} (w : World X) (st : EventQ.State) : Prop := {
  se_calm : calm st;
  se_time : 0 <= EventQ.curTick st /\ EventQ.curTick st + 1 < MaxTick;
  se_packets : packets_ok w;
  se_drain : drainable w;
  se_event : exists a, owned (sendEvent (queue w)) a st /\ armed_for (transmitList (queue w)) (EventQ.curTick st) a /\
    if waitingOnRetry (queue w) then
      a = None /\ exists t p l, transmitList (queue w) = (t, p) :: l /\ t <= EventQ.curTick st
    else a = None -> transmitList (queue w) = []
}.

Lemma settled_open {X} (w : World X) st : settled w st -> waitingOnRetry (queue w) = false -> open w st.
Proof. intros [S1 S2 S3 S4 (a & S5 & S6 & _)] Hw. split; try done. by exists a. Qed.

Lemma settled_later {X} (w : World X) st T :
  settled w st -> calm (EventQ.setCurTick T st) -> EventQ.curTick st <= T -> T + 1 < MaxTick -> settled w (EventQ.setCurTick T st).
Proof.
  intros [S1 S2 S3 S4 (a & S5 & S6 & S7)] Hc Ht Hmax. split; try done; [simpl; lia|]. exists a. split; [done|].
  split; [by apply (armed_later _ (EventQ.curTick st))|]. destruct (waitingOnRetry (queue w)); [|done].
  destruct S7 as [-> (t & p & l & E & Hle)]. split; [done|]. exists t, p, l. split; [done|]. simpl. lia.
Qed.

(** Others run, and leave the queue and its event alone. *)
Lemma settled_others {X} (w w' : World X) st st' :
  settled w st -> queue w' = queue w -> held w' (transmitList (queue w)) -> drainable w' -> calm st' ->
  data <$> EventQ.heap st' !! sendEvent (queue w) = data <$> EventQ.heap st !! sendEvent (queue w) ->
  EventQ.curTick st <= EventQ.curTick st' /\ EventQ.curTick st' + 1 < MaxTick -> settled w' st'.
Proof.
  intros [S1 S2 S3 S4 (a & S5 & S6 & S7)] M1 M2 M3 M4 M5 M6. split; rewrite ?M1; try done; [lia|split; [rewrite M1; done|rewrite M1; apply S3]|].
  exists a. split; [by apply (owned_data _ _ st)|]. split; [apply (armed_later _ (EventQ.curTick st)); [done|lia]|].
  destruct (waitingOnRetry (queue w)); [|done]. destruct S7 as [-> (t & p & l & Hl & Ht)]. split; [done|]. exists t, p, l. split; [done|lia].
Qed.

Section Operations.
Context {X : Type}.
Implicit Types (w : World X) (st : EventQ.State).

(** The queue as an object: all but its list, its retry flag. *)
Definition same_object w w' : Prop :=
  sendEvent (queue w') = sendEvent (queue w) /\ self (queue w') = self (queue w) /\
  disableSanityCheck (queue w') = disableSanityCheck (queue w).

(** Calling for the send event when the list is not empty. *)
Lemma schedSendEvent_head w st t p l :
  open w st -> transmitList (queue w) = (t, p) :: l ->
  wp (schedSendEvent t (w, st)) (fun '(w', st') => w' = w /\ settled w st' /\ others (sendEvent (queue w)) st st' /\
    (owned (sendEvent (queue w)) None st -> owned (sendEvent (queue w)) (Some (Z.max t (EventQ.curTick st + 1))) st')).
Proof.
  intros [O1 O2 O3 O4 O5 (a & O6 & O7)] Hl. unfold schedSendEvent. pose proof O6 as (ev & He & _ & _ & _ & _ & Hs & Hw).
  unfold EventQ.deref. rewrite He. simpl. rewrite O5.
  pose proof O3 as [_ P2]. rewrite Hl in P2. inversion P2 as [|? ? Pt _]; subst. simpl in Pt.
  destruct (Z.eqb_spec t MaxTick); [lia|]. simpl. unfold uint64. rewrite wrapU_small by (unfold MaxTick in *; lia).
  destruct a as [ta|]; rewrite Hs; simpl.
  - rewrite Hl in O7. simpl in O7. rewrite (Hw ta eq_refl). destruct (Z.ltb_spec (Z.max t (EventQ.curTick st + 1)) ta); [lia|]. simpl.
    split; [done|]. split; [|split; [by split|]].
    + split; try done. exists (Some ta). rewrite Hl, O5. by split.
    + intros Hn. discriminate (owned_agree _ _ _ _ O6 Hn).
  - apply wp_bind. eapply wp_mono; [apply (schedule_owned (sendEvent (queue w)) (Z.max t (EventQ.curTick st + 1)) st); (done || lia)|].
    intros st' (R1 & R2 & R3). simpl. split; [done|]. split; [|by split]. pose proof (proj1 R3) as Ht.
    split; rewrite ?Ht; try done. exists (Some (Z.max t (EventQ.curTick st + 1))).
    rewrite Hl, O5. split; [done|]. split; [simpl; lia|done].
Qed.

(** Calling for it when nothing is left: a draining queue reports that it is done. *)
Lemma schedSendEvent_none w st :
  open w st -> transmitList (queue w) = [] ->
  wp (schedSendEvent MaxTick (w, st)) (fun '(w', st') =>
    settled w' st' /\ st' = st /\ queue w' = queue w /\ packets w' = packets w /\ bufs w' = bufs w /\ rest w' = rest w /\
    Drain.drainState (self (queue w)) (drains w') <> Some Drain.Draining).
Proof.
  intros [O1 O2 O3 O4 O5 (a & O6 & O7)] Hl. unfold schedSendEvent. pose proof O6 as (ev & He & _ & _ & _ & _ & Hs & Hw).
  unfold EventQ.deref. rewrite He. simpl. rewrite O5, Hl. simpl. destruct a as [ta|]; [by rewrite Hl in O7|]. rewrite Hs. simpl.
  destruct O4 as [D1 D2]. destruct (proj1 (lv_all _ (ct_live _ D1) _) D2) as [s Hds]. unfold Drain.drainState. rewrite Hds. simpl.
  assert (settled w st) as Hset by (split; try done; exists None; rewrite Hl, O5; by split).
  destruct (isDraining s) eqn:Hd; simpl.
  - assert (s = Drain.Draining) as -> by (by destruct s). apply wp_bind.
    eapply wp_mono; [apply wp_eqn, (signal_counted _ _ D1 D2)|]. intros d [(C1 & C2 & _) E]. simpl. split.
    + split; try done; [split; simpl; [done|by rewrite C2]|]. exists None. simpl. rewrite Hl, O5. by split.
    + do 5 (split; [done|]). by apply (signal_leaves _ (drains w)).
  - split; [done|]. do 5 (split; [done|]). intros E. assert (s = Drain.Draining) as -> by congruence. done.
Qed.
(** A packet that may be given to the queue. *)
Record sendable w st (pkt : positive) (p : Pkt.Packet) (a when : Z) : Prop := {
  sn_packet : packets w !! pkt = Some p;
  sn_addr : Pkt.getAddr p = Some a;
  sn_express : Pkt.isExpressSnoop p = false;
  sn_room : disableSanityCheck (queue w) || (zlen (transmitList (queue w)) <=? 100) = true;
  sn_when : EventQ.curTick st <= when < MaxTick
}.

(** The list after the packet has been put in its place. *)
Definition placed w (when a : Z) (force : bool) (x : DeferredPacket) (l l' : list DeferredPacket) : Prop :=
  match l with
  | [] => l' = [x]
  | f :: r => exists l1 l2, r = l1 ++ l2 /\ l' = f :: l1 ++ x :: l2 /\
      Forall (fun d => blocks w when a force d = false) l2 /\ (forall l0 d, l1 = l0 ++ [d] -> blocks w when a force d = true)
  end.

Lemma placed_perm w when a force x l l' : placed w when a force x l l' -> l' ≡ₚ x :: l.
Proof. destruct l as [|f r]; simpl; [by intros ->|]. intros (l1 & l2 & -> & -> & _). solve_Permutation. Qed.

Definition with_list (l : list DeferredPacket) w : World X := set_queue (set_list l (queue w)) w.

Lemma packets_grow w l' x :
  packets_ok w -> l' ≡ₚ x :: transmitList (queue w) -> is_Some (addr_of x.2 w) -> x.1 < MaxTick -> packets_ok (with_list l' w).
Proof.
  intros [P1 P2] Hp Hx Ht. unfold packets_ok, held in *. simpl. rewrite !Hp. by split; constructor.
Qed.

Lemma open_grow w st f r r' : open w st -> transmitList (queue w) = f :: r -> packets_ok (with_list (f :: r') w) -> open (with_list (f :: r') w) st.
Proof. intros [O1 O2 O3 O4 O5 (a & O6 & O7)] Hl Hp. split; try done. exists a. rewrite Hl in O7. split; [done|]. by destruct a, f. Qed.

Lemma settled_grow w st f r r' : settled w st -> transmitList (queue w) = f :: r -> packets_ok (with_list (f :: r') w) -> settled (with_list (f :: r') w) st.
Proof.
  intros [S1 S2 S3 S4 (a & S5 & S6 & S7)] Hl Hp. split; try done. exists a. rewrite Hl in S6, S7. simpl. split; [done|]. split; [by destruct a, f|].
  destruct (waitingOnRetry (queue w)); [|intros E; specialize (S7 E); congruence].
  destruct S7 as [-> (t & p & l & [= -> ->] & Ht)]. split; [done|]. by exists t, p, r'.
Qed.

(** [schedSendTiming], while a packet is being sent and otherwise. *)
Lemma schedSendTiming_spec w st pkt p a when force :
  sendable w st pkt p a when -> open w st \/ settled w st ->
  wp (schedSendTiming pkt when force (w, st)) (fun '(w', st') =>
    (open w st -> open w' st') /\ (settled w st -> settled w' st') /\
    exists l', placed w when a force (when, pkt) (transmitList (queue w)) l' /\ w' = with_list l' w /\ others (sendEvent (queue w)) st st').
Proof.
  intros [N1 N2 N3 N4 N5] Hinv. unfold schedSendTiming. apply wp_bind, wp_assert; [lia|]. rewrite N1. simpl. rewrite N3, N4. simpl.
  assert (is_Some (addr_of pkt w)) as Hadr by (unfold addr_of; rewrite N1; simpl; by rewrite N2).
  assert (packets_ok w) as Hok by (destruct Hinv as [[? ? ? ? ? ?]|[? ? ? ? ?]]; done).
  destruct (transmitList (queue w)) as [|f r] eqn:Hl.
  - assert (open w st) as Ho.
    { destruct Hinv as [|Hs]; [done|]. apply settled_open; [done|]. destruct Hs as [_ _ _ _ (a' & _ & _ & Hw)].
      destruct (waitingOnRetry (queue w)); [|done]. destruct Hw as [_ (? & ? & ? & E & _)]. congruence. }
    assert (open (with_list [(when, pkt)] w) st) as Ho1.
    { destruct Ho as [O1 O2 O3 O4 O5 (a' & O6 & O7)]. split; try done; [apply (packets_grow w _ (when, pkt)); [done|by rewrite Hl|done|simpl; lia]|].
      rewrite Hl in O7. destruct a'; [done|]. by exists None. }
    eapply wp_mono; [by apply (schedSendEvent_head (with_list [(when, pkt)] w) st when pkt [])|].
    intros [w' st'] (-> & Hs' & Hoth & _). split; [intros _; apply settled_open; [done|apply Ho1]|]. split; [done|]. by exists [(when, pkt)].
  - assert (held w (f :: r)) as Hheld by (rewrite <- Hl; apply Hok).
    destruct (find_pos_split w when p a force N2 f r Hheld) as (i & l1 & l2 & Hf & -> & Hem & Hb2 & Hb1). simpl in Hf. rewrite Hf. cbn [mbind option_bind]. rewrite Hem.
    assert (packets_ok (with_list (f :: l1 ++ (when, pkt) :: l2) w)) as Hp.
    { apply (packets_grow w _ (when, pkt)); [done|rewrite Hl; solve_Permutation|done|simpl; lia]. }
    split; [intros Ho; by eapply open_grow|]. split; [intros Hs; by eapply settled_grow|].
    eexists. split; [by exists l1, l2|]. split; [done|]. by split.
Qed.
End Operations.

(** ** Sending *)

#[local] Arguments schedSendEvent : simpl never.
#[local] Arguments sendDeferredPacket : simpl never.

(** What the port behind [sendTiming] must respect.  It may call the queue again when
    it accepts a packet; when it refuses one it leaves the queue alone. *)
Class Receiver {X : Type} (sendTiming : positive -> World X * EventQ.State -> option (bool * (World X * EventQ.State))) : Prop := {
  receiver_ok pkt w st : open w st -> is_Some (addr_of pkt w) ->
    wp (sendTiming pkt (w, st)) (fun '(ok, (w', st')) =>
      open w' st' /\ EventQ.curTick st' = EventQ.curTick st /\ same_object w w' /\
      (ok = false -> queue w' = queue w /\ is_Some (addr_of pkt w') /\
        forall a, owned (sendEvent (queue w)) a st -> owned (sendEvent (queue w)) a st'))
}.

Section Sending.
Context {X : Type} (sendTiming : positive -> World X * EventQ.State -> option (bool * (World X * EventQ.State))).
Context {HR : Receiver sendTiming}.

Lemma set_waiting_id (q : PacketQueue) : waitingOnRetry q = false -> set_waiting false q = q.
Proof. destruct q. simpl. by intros ->. Qed.

Lemma set_queue_id (w : World X) : set_queue (queue w) w = w.
Proof. by destruct w. Qed.

Lemma packets_tail (w : World X) (x : DeferredPacket) l : packets_ok w -> transmitList (queue w) = x :: l -> packets_ok (with_list l w) /\ is_Some (addr_of x.2 w) /\ x.1 < MaxTick.
Proof.
  intros [P1 P2] Hl. unfold packets_ok, held in *. rewrite Hl in *. apply Forall_cons in P1 as [? ?], P2 as [? ?]. done.
Qed.

Lemma sendDeferredPacket_spec (w : World X) st t p l :
  open w st -> owned (sendEvent (queue w)) None st -> transmitList (queue w) = (t, p) :: l -> t <= EventQ.curTick st ->
  wp (sendDeferredPacket sendTiming (w, st)) (fun '(w', st') =>
    settled w' st' /\ EventQ.curTick st' = EventQ.curTick st /\ same_object w w').
Proof.
  intros Ho He Hl Ht. unfold sendDeferredPacket, deferredPacketReady. rewrite (op_waiting _ _ Ho), Hl. simpl.
  apply wp_bind, wp_assert; [lia|]. simpl. destruct (packets_tail w (t, p) l (op_packets _ _ Ho) Hl) as (Hp1 & Hadr & Hmax). simpl in Hadr, Hmax.
  fold (with_list l w). assert (open (with_list l w) st) as Ho1.
  { destruct Ho as [O1 O2 O3 O4 O5 O6]. split; try done. exists None. by split. }
  apply wp_bind. eapply wp_mono; [by apply (receiver_ok p (with_list l w) st)|].
  intros [ok [w2 st2]] (Ho2 & Ht2 & Hobj & Hno). destruct ok; simpl.
  - rewrite set_waiting_id, set_queue_id by apply Ho2. unfold deferredPacketReadyTime.
    destruct (transmitList (queue w2)) as [|[t2 p2] l2] eqn:Hl2.
    + eapply wp_mono; [by apply schedSendEvent_none|]. intros [w3 st3] (Hs & -> & Hq & _). split; [done|]. split; [done|].
      unfold same_object in *. by rewrite Hq.
    + eapply wp_mono; [by apply (schedSendEvent_head w2 st2 t2 p2 l2)|]. intros [w3 st3] (-> & Hs & (H1 & _) & _). split; [done|].
      split; [by rewrite H1|done].
  - destruct (Hno eq_refl) as (Hq & Hadr2 & Hown). split; [|split; [done|by rewrite Hq]].
    destruct Ho2 as [O1 O2 O3 O4 O5 O6]. split; try done.
    + destruct O3 as [P1 P2]. rewrite Hq in P1, P2 |- *. simpl in *. split; constructor; done.
    + simpl. exists None. split; [rewrite Hq; by apply Hown|]. split; [done|]. split; [done|]. exists t, p, (transmitList (queue w2)). split; [done|]. lia.
Qed.

(** A retry that has been asked for. *)
Lemma retry_spec w st :
  settled w st -> waitingOnRetry (queue w) = true ->
  wp (retry sendTiming (w, st)) (fun '(w', st') => settled w' st' /\ EventQ.curTick st' = EventQ.curTick st /\ same_object w w').
Proof.
  intros [S1 S2 S3 S4 (a & S5 & S6 & S7)] Hw. rewrite Hw in S7. destruct S7 as [-> (t & p & l & Hl & Ht)].
  unfold retry. rewrite Hw. simpl. eapply wp_mono; [apply (sendDeferredPacket_spec _ st t p l); try done|by intros [? ?]].
  split; try done. exists None. by split.
Qed.

(** The send event has come. *)
Lemma processSendEvent_spec w st st1 t :
  settled w st -> owned (sendEvent (queue w)) (Some t) st ->
  calm st1 -> owned (sendEvent (queue w)) None st1 -> EventQ.curTick st1 = t -> t + 1 < MaxTick ->
  wp (processSendEvent sendTiming (w, st1)) (fun '(w', st') => settled w' st' /\ EventQ.curTick st' = t /\ same_object w w').
Proof.
  intros [S1 S2 S3 S4 (a & S5 & S6 & S7)] Ht C1 C2 C3 Hmax.
  destruct (owned_agree _ _ _ _ Ht S5).
  destruct (waitingOnRetry (queue w)) eqn:Hw; [by destruct S7|]. pose proof (owned_not_past _ _ _ S1 S5).
  destruct (transmitList (queue w)) as [|[t0 p] l] eqn:Hl; [done|]. simpl in S6. unfold processSendEvent. simpl. rewrite Hw. simpl.
  eapply wp_mono; [apply (sendDeferredPacket_spec w st1 t0 p l); try done|intros [w' st']; by rewrite C3].
  - split; try done; [lia|]. exists None. by rewrite Hl.
  - lia.
Qed.
End Sending.
