(* ===== verification/PacketQueueTheorems.v ===== *)
(** * PacketQueueTheorems: what a packet queue promises

    Where packets go in the list, that no packet is forgotten, when packets are
    delivered, and what a functional access finds in the queue. *)

From stdpp Require Import prelude gmap sorting.
From Stdlib Require Import ZArith Lia Sorted.
From S2P Require Import Prelude Machine EventQueue EventShape EventQueueCorrect EventService SimLoop EventOwner Drain DrainCorrect.
From S2P Require Import DrainTheorems Packet PacketQueue PacketQueueCorrect.
Import PQ.

Open Scope Z_scope.

#[local] Arguments schedSendEvent : simpl never.
#[local] Arguments EventQ.serviceOne : simpl never.
#[local] Arguments EventQ.serviceEvents : simpl never.

(** ** Order *)

Definition by_tick (d d' : DeferredPacket) : Prop := d.1 <= d'.1.

Section Order.
Context {X : Type} (w : World X) (when a : Z) (x : DeferredPacket).

Lemma placed_sorted f r r' :
  x.1 = when -> placed w when a false x (f :: r) (f :: r') -> StronglySorted by_tick r -> StronglySorted by_tick r'.
Proof.
  intros Hx (l1 & l2 & -> & [= ->] & Hb2 & Hb1) Hs. apply StronglySorted_app in Hs as (Hc & Hs1 & Hs2).
  assert (Forall (fun d => by_tick x d) l2) as H2.
  { eapply Forall_impl; [exact Hb2|]. intros d. unfold blocks, by_tick. simpl. rewrite orb_false_r, Z.leb_gt. lia. }
  assert (Forall (fun d => by_tick d x) l1) as H1.
  { destruct l1 as [|d l0 _] using rev_ind; [constructor|]. specialize (Hb1 l0 d eq_refl). unfold blocks in Hb1. simpl in Hb1.
    rewrite orb_false_r, Z.leb_le in Hb1. apply StronglySorted_app in Hs1 as (Hc1 & _ & _). apply Forall_app. split; [|repeat constructor; unfold by_tick; lia].
    apply Forall_forall. intros d' Hd'. specialize (Hc1 d' d Hd' ltac:(set_solver)). unfold by_tick in *. lia. }
  apply StronglySorted_app. split; [|split; [done|by constructor]].
  intros d d' Hd Hd'. apply elem_of_cons in Hd' as [->|Hd']; [by eapply Forall_forall in H1|by apply Hc].
Qed.

(** The entries of the list for one tick. *)
Definition at_tick (l : list DeferredPacket) : list DeferredPacket := filter (fun d => d.1 = when) l.

Lemma placed_last f r r' : x.1 = when -> placed w when a false x (f :: r) (f :: r') -> at_tick r' = at_tick r ++ [x].
Proof.
  intros Hx (l1 & l2 & -> & [= ->] & Hb2 & _). unfold at_tick. rewrite !filter_app, filter_cons_True by done.
  assert (filter (fun d : DeferredPacket => d.1 = when) l2 = []) as ->; [|by rewrite app_nil_r].
  apply filter_none. intros d Hd. eapply Forall_forall in Hb2; [|exact Hd]. unfold blocks in Hb2. simpl in Hb2. rewrite orb_false_r, Z.leb_gt in Hb2. lia.
Qed.

(** The entries of the list for one address. *)
Definition to_addr (l : list DeferredPacket) : list DeferredPacket := filter (fun d => addr_of d.2 w = Some a) l.

Lemma placed_fifo l l' : addr_of x.2 w = Some a -> placed w when a true x l l' -> to_addr l' = to_addr l ++ [x].
Proof.
  intros Ha. unfold to_addr. destruct l as [|f r]; simpl.
  - intros ->. by rewrite filter_cons_True.
  - intros (l1 & l2 & -> & -> & Hb2 & _). rewrite (filter_cons _ f (l1 ++ x :: l2)), (filter_cons _ f (l1 ++ l2)), !filter_app, filter_cons_True by done.
    assert (filter (fun d => addr_of d.2 w = Some a) l2 = []) as ->.
    { apply filter_none. intros d Hd. eapply Forall_forall in Hb2; [|exact Hd]. unfold blocks in Hb2. rewrite orb_false_iff in Hb2. simpl in Hb2. destruct Hb2 as [_ H]. by apply bool_decide_eq_false in H. }
    rewrite app_nil_r. by case_decide.
Qed.
End Order.

(** The place of a packet.  [schedSendTiming] adds exactly one packet and changes
    nothing else.  A packet never goes in front of the first one of the list,
    even when it is ready earlier; behind the first one the list stays sorted by
    time, packets of the same time in the order of their calls; and with
    [force_order] a packet goes behind all packets for its address. *)
Theorem queue_order {X} (w : World X) st pkt p a when force :
  settled w st -> sendable w st pkt p a when ->
  wp (schedSendTiming pkt when force (w, st)) (fun '(w', st') => settled w' st' /\
    let l := transmitList (queue w) in let l' := transmitList (queue w') in
    l' ≡ₚ (when, pkt) :: l /\ w' = with_list l' w /\ others (sendEvent (queue w)) st st' /\
    (forall f r, l = f :: r -> exists r', l' = f :: r' /\ (force = false -> at_tick when r' = at_tick when r ++ [(when, pkt)]) /\
      (force = false -> StronglySorted by_tick r -> StronglySorted by_tick r')) /\
    (force = true -> to_addr w a l' = to_addr w a l ++ [(when, pkt)])).
Proof.
  intros Hs Hn. eapply wp_mono; [apply (schedSendTiming_spec w st pkt p a when force Hn); by right|].
  intros [w' st'] (_ & Hs' & l' & Hp & -> & Ho). split; [auto|]. simpl. split; [by eapply placed_perm|]. split; [done|]. split; [done|]. split.
  - intros f r Hl. rewrite Hl in Hp. pose proof Hp as (l1 & l2 & -> & -> & _). eexists. split; [done|].
    split; intros ->; [by apply (placed_last w when a (when, pkt) f)|by apply (placed_sorted w when a (when, pkt) f)].
  - intros ->. apply (placed_fifo w when a (when, pkt)); [|done]. unfold addr_of. simpl. rewrite (sn_packet _ _ _ _ _ _ Hn). by apply Hn.
Qed.

(** ** No packet is forgotten *)

Section Steps.
Context {X : Type} (sendTiming : positive -> World X * EventQ.State -> option (bool * (World X * EventQ.State))).

Definition fire (e : EventQ.ptr) : World X * EventQ.State -> option (World X * EventQ.State) := processSendEvent sendTiming.

(** What others may do meanwhile: they leave the queue and its event alone. *)
Record meanwhile (w : World X) (st : EventQ.State) (w' : World X) (st' : EventQ.State) : Prop := {
  mw_queue : queue w' = queue w;
  mw_packets : held w' (transmitList (queue w));
  mw_drain : drainable w';
  mw_calm : calm st';
  mw_event : data <$> EventQ.heap st' !! sendEvent (queue w) = data <$> EventQ.heap st !! sendEvent (queue w);
  mw_time : EventQ.curTick st <= EventQ.curTick st' /\ EventQ.curTick st' + 1 < MaxTick
}.

(** A packet is handed to the queue, the receiver asks for a retry, the event queue
    services the send event, or others run. *)
Inductive qstep : World X * EventQ.State -> World X * EventQ.State -> Prop :=
| q_enqueue w st pkt p a when force ws' :
    sendable w st pkt p a when -> schedSendTiming pkt when force (w, st) = Some ws' -> qstep (w, st) ws'
| q_retry ws ws' : waitingOnRetry (queue ws.1) = true -> retry sendTiming ws = Some ws' -> qstep ws ws'
| q_fire w st r ws' :
    EventQ.head st = Some (sendEvent (queue w)) -> (forall t, EventQ.nextTick st = Some t -> t + 1 < MaxTick) ->
    EventQ.serviceOne fire (w, st) = Some (r, ws') -> qstep (w, st) ws'
| q_others w st w' st' : meanwhile w st w' st' -> qstep (w, st) (w', st').

Context {HR : Receiver sendTiming}.

(** Servicing the send event of a queue. *)
Lemma fire_spec w st :
  settled w st -> EventQ.head st = Some (sendEvent (queue w)) -> (forall t, EventQ.nextTick st = Some t -> t + 1 < MaxTick) ->
  wp (EventQ.serviceOne fire (w, st)) (fun '(r, (w', st')) => r = None /\ settled w' st' /\
    EventQ.nextTick st = Some (EventQ.curTick st') /\ same_object w w').
Proof.
  intros Hs Hh Hm. pose proof (se_calm _ _ Hs) as [[l Hq] Hsn]. pose proof (queued_head _ _ Hq) as Hhd. rewrite Hh in Hhd.
  destruct l as [|e l]; [done|]. simpl in Hhd. injection Hhd as <-.
  destruct (se_event _ _ Hs) as (a & He & _). destruct (owned_head _ _ _ _ Hq He) as (t & -> & Hnt).
  destruct (serviceOne_owned fire (sendEvent (queue w)) t w st l Hq Hsn He) as (st1 & C1 & Hq1 & He1 & Ht1 & _ & ->).
  apply wp_bind. eapply wp_mono; [by apply (processSendEvent_spec sendTiming w st st1 t); auto|].
  intros [w2 st2] (Hs2 & Ht2 & Hobj). destruct (se_event _ _ Hs2) as (a2 & He2 & _). rewrite (proj1 Hobj) in He2.
  rewrite (finish_owned _ a2) by done. simpl. split; [done|]. split; [done|]. split; [by rewrite Ht2|done].
Qed.

Lemma qstep_settled ws ws' : qstep ws ws' -> settled ws.1 ws.2 -> settled ws'.1 ws'.2.
Proof.
  intros Hstep Hs. destruct Hstep as [w st pkt p a when force ws' Hn E|[w st] ws' Hw E|w st r ws' Hh Hm E|w st w' st' [M1 M2 M3 M4 M5 M6]]; simpl in *.
  - pose proof (wp_some _ _ _ E (schedSendTiming_spec w st pkt p a when force Hn (or_intror Hs))) as H. destruct ws' as [w' st']. by apply H.
  - pose proof (wp_some _ _ _ E (retry_spec sendTiming w st Hs Hw)) as H. destruct ws' as [w' st']. by apply H.
  - pose proof (wp_some _ _ _ E (fire_spec w st Hs Hh Hm)) as H. destruct ws' as [w' st']. by apply H.
  - by apply (settled_others w w' st).
Qed.

(** C17: no packet is forgotten.  In every state that calls, retries, send events and
    the rest of the system reach from an empty queue, with a receiver that keeps
    its contract: a list that is not empty waits for a retry, or for its send
    event, which comes not before the first packet is ready, and at the next
    tick when it is late; a retry never fails; and servicing the send event
    never fails. *)
Theorem queue_invariant w0 st0 w st :
  queue w0 = PacketQueue_new (sendEvent (queue w0)) (self (queue w0)) (disableSanityCheck (queue w0)) ->
  drainable w0 -> calm st0 -> owned (sendEvent (queue w0)) None st0 -> 0 <= EventQ.curTick st0 -> EventQ.curTick st0 + 1 < MaxTick ->
  rtc qstep (w0, st0) (w, st) ->
  (waitingOnRetry (queue w) = true -> transmitList (queue w) <> [] /\ owned (sendEvent (queue w)) None st /\ is_Some (retry sendTiming (w, st))) /\
  (waitingOnRetry (queue w) = false -> forall t p l, transmitList (queue w) = (t, p) :: l ->
    exists t', owned (sendEvent (queue w)) (Some t') st /\ t <= t' <= Z.max t (EventQ.curTick st + 1)) /\
  (EventQ.head st = Some (sendEvent (queue w)) -> (forall t, EventQ.nextTick st = Some t -> t + 1 < MaxTick) ->
    is_Some (EventQ.serviceOne fire (w, st))).
Proof.
  intros Hnew Hd Hc He H0 Hmax Hr. assert (settled w0 st0) as Hs0.
  { assert (transmitList (queue w0) = [] /\ waitingOnRetry (queue w0) = false) as [El Ew] by (by rewrite Hnew).
    split; try done; [unfold packets_ok, held; rewrite El; by split|]. exists None. rewrite El, Ew. by split. }
  assert (forall ws ws', rtc qstep ws ws' -> settled ws.1 ws.2 -> settled ws'.1 ws'.2) as Hinv.
  { induction 1; [done|]. eauto using qstep_settled. }
  specialize (Hinv _ _ Hr Hs0). simpl in Hinv. pose proof Hinv as [S1 S2 S3 S4 (a & S5 & S6 & S7)]. split; [|split].
  - intros Hw. rewrite Hw in S7. destruct S7 as [-> (t & p & l & -> & _)]. split; [done|]. split; [done|].
    pose proof (retry_spec sendTiming w st Hinv Hw) as H. by destruct (retry sendTiming (w, st)).
  - intros Hw t p l Hl. rewrite Hw in S7. destruct a as [t'|]; [|specialize (S7 eq_refl); congruence]. exists t'. split; [done|]. by rewrite Hl in S6.
  - intros Hh Hm. pose proof (fire_spec w st Hinv Hh Hm) as H. by destruct (EventQ.serviceOne fire (w, st)).
Qed.
End Steps.

(** ** Delivery *)

Section Delivery.
Context {X : Type} (act : Z -> positive -> X -> X).

Definition set_rest (x : X) (w : World X) : World X := mkWorld (queue w) (packets w) (bufs w) (drains w) x.

(** A receiver that accepts every packet at once. *)
Definition accepting (pkt : positive) (ws : World X * EventQ.State) : option (bool * (World X * EventQ.State)) :=
  let '(w, st) := ws in Some (true, (set_rest (act (EventQ.curTick st) pkt (rest w)) w, st)).

#[export] Instance accepting_receiver : Receiver accepting.
Proof. split. intros pkt w st [O1 O2 O3 O4 O5 O6] Ha. simpl. split; [by split|]. by repeat split. Qed.

(** When the packets of [l] leave until [T], if the send event waits for [t]. *)
Fixpoint sent (T t : Z) (l : list DeferredPacket) : list (Z * positive) :=
  match l with
  | [] => []
  | (_, p) :: r => if t <=? T then (t, p) :: sent T (Z.max (match r with [] => t | (t1, _) :: _ => t1 end) (t + 1)) r else []
  end.

(** One packet leaves. *)
Lemma fire_accepting w st t t0 p r :
  settled w st -> queued st [sendEvent (queue w)] -> owned (sendEvent (queue w)) (Some t) st -> transmitList (queue w) = (t0, p) :: r -> t + 1 < MaxTick ->
  wp (EventQ.serviceOne (fire accepting) (w, st)) (fun '(_, (w', st')) =>
    rest w' = act t p (rest w) /\ queue w' = set_list r (queue w) /\ EventQ.curTick st' = t /\ settled w' st' /\
    match r with
    | [] => Drain.drainState (self (queue w)) (drains w') <> Some Drain.Draining /\ queued st' []
    | (t1, _) :: _ => queued st' [sendEvent (queue w)] /\ owned (sendEvent (queue w)) (Some (Z.max t1 (t + 1))) st'
    end).
Proof.
  intros Hs Hq He Hl Hmax. set (e := sendEvent (queue w)) in *.
  assert (waitingOnRetry (queue w) = false) as Hw.
  { destruct (waitingOnRetry (queue w)) eqn:E; [|done]. destruct (se_event _ _ Hs) as (a & Ha & _ & Hx).
    rewrite E in Hx. destruct Hx as [-> _]. discriminate (owned_agree _ _ _ _ Ha He). }
  destruct (serviceOne_owned (fire accepting) e t w st [] Hq (proj2 (se_calm _ _ Hs)) He) as (st1 & C1 & Hq1 & He1 & Ht1 & _ & ->).
  destruct (se_event _ _ Hs) as (a & Ha & Harm & _). rewrite (owned_agree e a (Some t) st Ha He) in Harm. rewrite Hl in Harm. simpl in Harm.
  pose proof (owned_not_past _ _ _ (se_calm _ _ Hs) He) as Hpast.
  apply wp_bind. unfold fire, processSendEvent, sendDeferredPacket, deferredPacketReady. simpl. rewrite Hw, Hl. simpl.
  apply wp_bind, wp_assert; [lia|]. rewrite Ht1. fold (with_list r w). set (w2 := set_rest _ _).
  destruct (packets_tail w (t0, p) r (se_packets _ _ Hs) Hl) as (Hp & _ & _).
  assert (open (set_queue (set_waiting false (queue w2)) w2) st1) as Ho.
  { destruct Hs as [S1 S2 S3 S4 S5]. split; try done; [lia|]. exists None. by split. }
  unfold deferredPacketReadyTime. simpl. destruct r as [|[t1 p1] r].
  - eapply wp_mono; [by apply schedSendEvent_none|]. intros [w3 st3] (Hs3 & -> & Hq3 & _ & _ & Hr3 & Hd3). rewrite (finish_owned e None) by done. simpl.
    rewrite Hr3, Hq3. split; [done|]. split; [unfold set_waiting, set_list; simpl; by rewrite Hw|]. split; [done|]. split; [done|]. by split.
  - eapply wp_mono; [by apply (schedSendEvent_head (set_queue (set_waiting false (queue w2)) w2) st1 t1 p1 r)|].
    intros [w3 st3] (-> & Hs3 & Ho3 & He3). specialize (He3 He1). simpl in He3. fold e in He3. rewrite Ht1 in He3. rewrite (finish_owned e _ _ _ He3). simpl.
    split; [done|]. split; [unfold set_waiting, set_list; simpl; by rewrite Hw|]. split; [rewrite (proj1 Ho3); done|]. split; [done|]. split; [|done].
    apply (queued_single e (Some (Z.max t1 (t + 1))) st1); (done || apply Hs3).
Qed.
(** C18: delivery.  Take a settled packet queue whose send event is the only event in
    the event queue, and a receiver that accepts every packet and changes
    nothing but its own part [X] of the world.  Servicing the event queue until [T] then
    hands over the packets in the order of the list, each at the tick it is
    ready, or one tick after the packet before it if that is later, until the
    first one that leaves after [T]; those after it stay in the list.  A queue
    that was asked to drain has reported that it is done once its list is
    empty. *)
Theorem queue_delivers (fuel : nat) T t w st :
  settled w st -> queued st [sendEvent (queue w)] -> owned (sendEvent (queue w)) (Some t) st ->
  EventQ.curTick st <= T -> T + 1 < MaxTick -> (length (transmitList (queue w)) < fuel)%nat ->
  wp (EventQ.serviceEvents (fire accepting) fuel T (w, st)) (fun '(w', st') =>
    let out := sent T t (transmitList (queue w)) in
    rest w' = fold_left (fun x '(tick, p) => act tick p x) out (rest w) /\
    transmitList (queue w') = drop (length out) (transmitList (queue w)) /\ EventQ.curTick st' = T /\ settled w' st' /\
    (transmitList (queue w') = [] -> Drain.drainState (self (queue w)) (drains w') <> Some Drain.Draining)).
Proof.
  revert t w st. induction fuel as [|fuel IH]; intros t w st Hs Hq He Ht Hmax Hf; [lia|].
  pose proof He as (ev & Hev & _ & _ & _ & _ & _ & Hw). specialize (Hw t eq_refl).
  unfold EventQ.serviceEvents. fold (@EventQ.serviceEvents (World X)). rewrite (queued_head _ _ Hq). simpl.
  unfold EventQ.nextTick, EventQ.deref. rewrite (queued_head _ _ Hq). simpl. rewrite Hev. simpl. rewrite Hw.
  destruct (transmitList (queue w)) as [|[t0 p] r] eqn:Hl.
  { destruct (se_event _ _ Hs) as (a & Ha & Harm & _). rewrite (owned_agree _ _ _ _ Ha He), Hl in Harm. done. }
  simpl. destruct (Z.ltb_spec T t) as [Hlt|Hle].
  - rewrite (proj2 (Z.leb_gt _ _)) by done. simpl. split; [done|]. split; [done|]. split; [done|]. split; [|by rewrite Hl].
    apply settled_later; [done|split; [|apply Hs]|done|done]. exists [sendEvent (queue w)]. apply queued_end; [done|].
    intros x Hx. apply list_elem_of_singleton in Hx as ->. rewrite (time_lookup _ _ _ Hev). lia.
  - rewrite (proj2 (Z.leb_le _ _)) by done. apply wp_bind. eapply wp_mono; [apply (fire_accepting w st t t0 p r); (done || lia)|].
    intros [? [w1 st1]] (Hr1 & Hq1 & Ht1 & Hs1 & Hnext). simpl in Hf. destruct r as [|[t1 p1] r].
    + destruct Hnext as [Hd Hqe]. destruct fuel as [|fuel]; [simpl in Hf; lia|]. unfold EventQ.serviceEvents. fold (@EventQ.serviceEvents (World X)).
      rewrite (queued_head _ _ Hqe). simpl. rewrite Hq1. simpl. do 3 (split; [done|]). split; [|done].
      apply settled_later; [done|split; [|apply Hs1]|lia|done]. exists []. apply queued_end; [done|set_solver].
    + destruct Hnext as [Hq2 He2]. assert (sendEvent (queue w1) = sendEvent (queue w) /\ transmitList (queue w1) = (t1, p1) :: r /\ self (queue w1) = self (queue w)) as (E1 & E2 & E3) by (by rewrite Hq1).
      rewrite <- E1 in Hq2, He2. eapply wp_mono; [apply (IH (Z.max t1 (t + 1)) w1 st1); rewrite ?E2; (done || simpl in *; lia)|].
      intros [w2 st2]. rewrite E2, E3, Hr1. by simpl.
Qed.
End Delivery.

(** ** Witnesses *)

Definition demo_req (a : Z) : Pkt.Request := Pkt.mkRequest (Some a) (Some 4) false false false false false false false.

(** Packets 1 to 3 are writes of four bytes to two addresses, packet 4 a read. *)
Definition demo_write (a : Z) (r d : positive) : Pkt.Packet := default (Pkt.createWrite r (demo_req a)) (Pkt.dataDynamic d (Pkt.createWrite r (demo_req a))).
Definition demo_read (a : Z) (r d : positive) : Pkt.Packet := default (Pkt.createRead r (demo_req a)) (Pkt.dataDynamic d (Pkt.createRead r (demo_req a))).
Definition demo_packets : gmap positive Pkt.Packet :=
  {[ 1%positive := demo_write 0x100 1 1; 2%positive := demo_write 0x200 2 2; 3%positive := demo_write 0x100 3 3; 4%positive := demo_read 0x100 4 4 ]}.
Definition demo_bufs : Pkt.Bufs :=
  {[ 1%positive := [1; 1; 1; 1]; 2%positive := [2; 2; 2; 2]; 3%positive := [3; 3; 3; 3]; 4%positive := [0; 0; 0; 0] ]}.

Definition demo_world : World (list (Z * positive)) :=
  mkWorld (PacketQueue_new 5 1 false) demo_packets demo_bufs (default Drain.DrainManager_new (Drain.Drainable_new 1 Drain.DrainManager_new)) [].
Definition demo_state : EventQ.State := EventQ.set_heap {[ 5%positive := fresh_event 0 ]} (EventQ.EventQueue_new ∅ 7).
Definition enqueue (pkt : positive) (when : Z) (force : bool) (ws : World (list (Z * positive)) * EventQ.State) : World (list (Z * positive)) * EventQ.State :=
  default ws (schedSendTiming pkt when force ws).

Definition demo_1 : World (list (Z * positive)) * EventQ.State := enqueue 1 20 false (demo_world, demo_state).
Definition demo_2 : World (list (Z * positive)) * EventQ.State := enqueue 2 10 false demo_1.
Definition demo_3 : World (list (Z * positive)) * EventQ.State := enqueue 3 30 true demo_2.

Lemma demo_owned : calm demo_state /\ owned 5 None demo_state.
Proof. apply (owned_fresh (EventQ.EventQueue_new ∅ 7) 5 0 (calm_new 7)). reflexivity. Qed.

Lemma demo_drainable : drainable demo_world.
Proof.
  split; [|change (Drain.all_drainable (drains demo_world)) with [1%positive]; set_solver].
  apply (new_spec 1 Drain.DrainManager_new new_counted); [by left|done|done].
Qed.

Lemma demo_settled : settled demo_world demo_state.
Proof.
  destruct demo_owned as [C O]. split; try done; [by split; constructor|apply demo_drainable|]. exists None. by split.
Qed.

Lemma demo_enqueue ws pkt p a when force :
  settled ws.1 ws.2 -> packets ws.1 !! pkt = Some p -> Pkt.getAddr p = Some a -> Pkt.isExpressSnoop p = false ->
  disableSanityCheck (queue ws.1) || (zlen (transmitList (queue ws.1)) <=? 100) = true -> EventQ.curTick ws.2 <= when < MaxTick ->
  settled (enqueue pkt when force ws).1 (enqueue pkt when force ws).2.
Proof.
  destruct ws as [w st]. simpl. intros Hs H1 H2 H3 H4 H5. unfold enqueue.
  destruct (proj1 (wp_exists _ _) (schedSendTiming_spec w st pkt p a when force ltac:(by split) (or_intror Hs))) as ([w' st'] & -> & _ & H & _). by apply H.
Qed.

Lemma demo_2_settled : settled demo_2.1 demo_2.2.
Proof. do 2 (eapply demo_enqueue; [|vm_compute; reflexivity|reflexivity|reflexivity|reflexivity|done]). apply demo_settled. Qed.

Lemma demo_3_settled : settled demo_3.1 demo_3.2.
Proof. eapply demo_enqueue; [apply demo_2_settled|vm_compute; reflexivity|reflexivity|reflexivity|reflexivity|done]. Qed.

(** The packet for tick 10 stays behind the one for tick 20. *)
Lemma queue_order_witness :
  wp (schedSendTiming 3 30 true demo_2) (fun '(w', st') => exists r', transmitList (queue w') = (20, 1%positive) :: r').
Proof.
  eapply wp_mono; [apply (queue_order demo_2.1 demo_2.2 3 (demo_write 0x100 3 3) 0x100 30 true demo_2_settled)|].
  - by split.
  - intros [w' st'] (_ & _ & _ & _ & H & _). destruct (H (20, 1%positive) [(10, 2%positive)]) as (r' & E & _); [reflexivity|by exists r'].
Defined.

Lemma queue_invariant_witness :
  exists t', owned 5 (Some t') demo_3.2 /\ 20 <= t' <= 20.
Proof.
  destruct demo_owned as [C O].
  destruct (queue_invariant (accepting (fun t p l => l ++ [(t, p)])) demo_world demo_state demo_3.1 demo_3.2) as (_ & H & _); try done.
  - apply demo_drainable.
  - eapply rtc_l; [apply (q_enqueue _ demo_world demo_state 1 (demo_write 0x100 1 1) 0x100 20 false demo_1); [by split|reflexivity]|].
    eapply rtc_l; [apply (q_enqueue _ demo_1.1 demo_1.2 2 (demo_write 0x200 2 2) 0x200 10 false demo_2); [by split|reflexivity]|].
    eapply rtc_l; [apply (q_enqueue _ demo_2.1 demo_2.2 3 (demo_write 0x100 3 3) 0x100 30 true demo_3); [by split|reflexivity]|]. apply rtc_refl.
  - apply (H eq_refl 20 1%positive [(10, 2%positive); (30, 3%positive)]). reflexivity.
Defined.

(** Until tick 25, packet 1 leaves at tick 20 and packet 2 at tick 21. *)
Lemma queue_delivers_witness :
  wp (EventQ.serviceEvents (fire (accepting (fun t p l => l ++ [(t, p)]))) 4 25 demo_3) (fun '(w', st') =>
    rest w' = [(20, 1%positive); (21, 2%positive)] /\ transmitList (queue w') = [(30, 3%positive)] /\ EventQ.curTick st' = 25).
Proof.
  assert (owned 5 (Some 20) demo_3.2) as He.
  { destruct (se_event _ _ demo_3_settled) as (a & Ha & Harm & _). destruct a as [t|].
    - assert (t = 20) as -> by (change (20 <= t <= Z.max 20 (0 + 1)) in Harm; lia). exact Ha.
    - destruct Ha as (ev & Hev & _ & _ & _ & _ & Hs & _). vm_compute in Hev. injection Hev as <-. done. }
  eapply wp_mono; [apply (queue_delivers (fun t p l => l ++ [(t, p)]) 4 25 20 demo_3.1 demo_3.2 demo_3_settled); [|exact He|done|done|apply Nat.ltb_lt; reflexivity]|].
  - apply (queued_single 5 (Some 20) demo_state); [|split; [done|split; [done|]]|apply demo_3_settled|exact He].
    + destruct demo_owned as [[[l Hq] _] _]. pose proof (queued_head _ _ Hq). by destruct l.
    + intros x Hx. assert (EventQ.heap demo_3.2 = {[ 5%positive := EventQ.mkEvent None None 20 0 (Flags.set EventQ.Initialized EventQ.Scheduled) (Some 7) ]}) as ->
        by (vm_compute; reflexivity). change (EventQ.heap demo_state) with ({[ 5%positive := fresh_event 0 ]} : gmap EventQ.ptr EventQ.Event).
      by rewrite !lookup_singleton_ne.
  - intros [w' st'] (H1 & H2 & H3 & _). done.
Defined.

(** ** A functional read finds old data *)

(** Packets 1 and 3 of the list write to the address that packet 4 reads; the read is
    satisfied by the older of the two. *)
Example functional_read_stale :
  exists w, trySatisfyFunctional 4 demo_3.1 = Some (true, w) /\ bufs w !! 4%positive = Some [1; 1; 1; 1].
Proof. eexists. split; [vm_compute; reflexivity|reflexivity]. Qed.
