(* ===== verification/Bridge.v ===== *)
(** * Bridge: two buses joined by two buffers

    Translates [gem5-X-TiC-SAT/src/mem/bridge.cc] and [bridge.hh].  Requests wait in
    the list of the master port, responses in the list of the slave port; both
    lists are bounded, and room for a response is reserved when its request is
    accepted.  The neighbours of the two ports are parameters that act on the
    whole system, which has a part [X] of its own.  Delays of packets are 32-bit
    words.  Labels of print requests and traces are left out. *)

From stdpp Require Import prelude gmap.
From Stdlib Require Import ZArith Lia.
From S2P Require Import Prelude Machine AddrRange EventQueue Clock Packet.

Open Scope Z_scope.

Module Br.

(** [(tick, pkt)] *)
Abbreviation DeferredPacket := (Z * positive)%type.

Record SlavePort := mkSlave {
  s_list : list DeferredPacket;
  outstandingResponses : Z;
  retryReq : bool;
  respQueueLimit : Z;
  s_event : positive;
  ranges : list AddrRange
}.

Record MasterPort := mkMaster {
  m_list : list DeferredPacket;
  reqQueueLimit : Z;
  m_event : positive
}.

(** The limits are [int]s that become [unsigned int]s. *)
Definition SlavePort_new (resp_limit : Z) (e : positive) (rs : list AddrRange) : SlavePort := mkSlave [] 0 false (uint32 resp_limit) e rs.
Definition MasterPort_new (req_limit : Z) (e : positive) : MasterPort := mkMaster [] (uint32 req_limit) e.

Definition set_s_list (l : list DeferredPacket) (s : SlavePort) : SlavePort :=
  mkSlave l (outstandingResponses s) (retryReq s) (respQueueLimit s) (s_event s) (ranges s).
Definition set_outstanding (n : Z) (s : SlavePort) : SlavePort :=
  mkSlave (s_list s) n (retryReq s) (respQueueLimit s) (s_event s) (ranges s).
Definition set_retryReq (b : bool) (s : SlavePort) : SlavePort :=
  mkSlave (s_list s) (outstandingResponses s) b (respQueueLimit s) (s_event s) (ranges s).
Definition set_m_list (l : list DeferredPacket) (m : MasterPort) : MasterPort := mkMaster l (reqQueueLimit m) (m_event m).

Definition respQueueFull (s : SlavePort) : bool := outstandingResponses s =? respQueueLimit s.
Definition reqQueueFull (m : MasterPort) : bool := zlen (m_list m) =? reqQueueLimit m.
Definition getAddrRanges (s : SlavePort) : list AddrRange := ranges s.

Section World.
Context {X : Type}.

Record World := mkWorld {
  slave : SlavePort;
  master : MasterPort;
  clk : Clock.Clocked;
  packets : gmap positive Pkt.Packet;
  bufs : Pkt.Bufs;
  rest : X
}.

Definition set_slave (s : SlavePort) (w : World) : World := mkWorld s (master w) (clk w) (packets w) (bufs w) (rest w).
Definition set_master (m : MasterPort) (w : World) : World := mkWorld (slave w) m (clk w) (packets w) (bufs w) (rest w).
Definition set_clk (c : Clock.Clocked) (w : World) : World := mkWorld (slave w) (master w) c (packets w) (bufs w) (rest w).
Definition set_mem (p : gmap positive Pkt.Packet) (b : Pkt.Bufs) (w : World) : World := mkWorld (slave w) (master w) (clk w) p b (rest w).
Definition set_packet (pkt : positive) (p : Pkt.Packet) (w : World) : World := set_mem (<[pkt := p]> (packets w)) (bufs w) w.

Abbreviation WS := (World * EventQ.State)%type.

Definition Bridge_new (resp_size req_size : Z) (rs : list AddrRange) (se me : positive) (x : X) : World :=
  mkWorld (SlavePort_new resp_size se rs) (MasterPort_new req_size me) Clock.Clocked_new ∅ ∅ x.

(** [sendRangeChange] tells the neighbour of the slave port. *)
Definition init (slave_connected master_connected : bool) (sendRangeChange : World -> option World) (w : World) : option World :=
  _ ← assert_ (slave_connected && master_connected); sendRangeChange w.

(** ** Queueing *)

Variables clockPeriod delay : Z.

Definition bridge_clockEdge (cycles now : Z) (w : World) : option (Z * World) :=
  '(t, c) ← Clock.clockEdge clockPeriod now cycles (clk w); Some (t, set_clk c w).

(** The delays of a packet on its bus are taken over by the bridge. *)
Definition receive_delay (pkt : positive) (w : World) : option (Z * World) :=
  p ← packets w !! pkt;
  Some (uint32 (Pkt.headerDelay p + Pkt.payloadDelay p), set_packet pkt (Pkt.set_delays 0 0 p) w).

Definition is_empty {A} (l : list A) : bool := match l with [] => true | _ => false end.

Definition schedTimingReq (pkt : positive) (when : Z) (ws : WS) : option WS :=
  let '(w, st) := ws in
  let m := master w in
  st ← (if is_empty (m_list m) then EventQ.schedule false true (m_event m) when false st else Some st);
  _ ← assert_ (negb (zlen (m_list m) =? reqQueueLimit m));
  Some (set_master (set_m_list (m_list m ++ [(when, pkt)]) m) w, st).

Definition schedTimingResp (pkt : positive) (when : Z) (ws : WS) : option WS :=
  let '(w, st) := ws in
  let s := slave w in
  st ← (if is_empty (s_list s) then EventQ.schedule false true (s_event s) when false st else Some st);
  Some (set_slave (set_s_list (s_list s ++ [(when, pkt)]) s) w, st).

(** A response comes back to the master port. *)
Definition recvTimingResp (pkt : positive) (ws : WS) : option (bool * WS) :=
  let '(w, st) := ws in
  '(d, w) ← receive_delay pkt w;
  '(edge, w) ← bridge_clockEdge delay (EventQ.curTick st) w;
  ws ← schedTimingResp pkt (uint64 (edge + d)) (w, st);
  Some (true, ws).

(** A request comes to the slave port. *)
Definition recvTimingReq (pkt : positive) (ws : WS) : option (bool * WS) :=
  let '(w, st) := ws in
  p ← packets w !! pkt;
  _ ← assert_ (negb (Pkt.cacheResponding p));
  if retryReq (slave w) then Some (false, (w, st))
  else if reqQueueFull (master w) then Some (false, (set_slave (set_retryReq true (slave w)) w, st))
  else if Pkt.needsResponse p && respQueueFull (slave w) then Some (false, (set_slave (set_retryReq true (slave w)) w, st))
  else
    let w := if Pkt.needsResponse p then set_slave (set_outstanding (uint32 (outstandingResponses (slave w) + 1)) (slave w)) w else w in
    '(d, w) ← receive_delay pkt w;
    '(edge, w) ← bridge_clockEdge delay (EventQ.curTick st) w;
    ws ← schedTimingReq pkt (uint64 (edge + d)) (w, st);
    Some (true, ws).

(** ** Sending *)

Variable sendTimingReq : positive -> WS -> option (bool * WS).
Variable sendTimingResp : positive -> WS -> option (bool * WS).
Variable sendRetryReq : WS -> option WS.

Definition retryStalledReq (ws : WS) : option WS :=
  let '(w, st) := ws in
  if retryReq (slave w) then sendRetryReq (set_slave (set_retryReq false (slave w)) w, st) else Some (w, st).

Definition master_trySendTiming (ws : WS) : option WS :=
  let '(w, st) := ws in
  '(t, pkt) ← hd_error (m_list (master w));
  _ ← assert_ (t <=? EventQ.curTick st);
  '(ok, (w, st)) ← sendTimingReq pkt (w, st);
  if (ok : bool) then
    _ ← hd_error (m_list (master w));
    let w := set_master (set_m_list (tail (m_list (master w))) (master w)) w in
    ws ← (match m_list (master w) with
          | [] => Some (w, st)
          | (next, _) :: _ =>
              '(edge, w) ← bridge_clockEdge 0 (EventQ.curTick st) w;
              st ← EventQ.schedule false true (m_event (master w)) (Z.max next edge) false st;
              Some (w, st)
          end);
    retryStalledReq ws
  else Some (w, st).

Definition slave_trySendTiming (ws : WS) : option WS :=
  let '(w, st) := ws in
  '(t, pkt) ← hd_error (s_list (slave w));
  _ ← assert_ (t <=? EventQ.curTick st);
  '(ok, (w, st)) ← sendTimingResp pkt (w, st);
  if (ok : bool) then
    _ ← hd_error (s_list (slave w));
    let w := set_slave (set_s_list (tail (s_list (slave w))) (slave w)) w in
    _ ← assert_ (negb (outstandingResponses (slave w) =? 0));
    let w := set_slave (set_outstanding (outstandingResponses (slave w) - 1) (slave w)) w in
    '(w, st) ← (match s_list (slave w) with
          | [] => Some (w, st)
          | (next, _) :: _ =>
              '(edge, w) ← bridge_clockEdge 0 (EventQ.curTick st) w;
              st ← EventQ.schedule false true (s_event (slave w)) (Z.max next edge) false st;
              Some (w, st)
          end);
    if negb (reqQueueFull (master w)) && retryReq (slave w)
    then sendRetryReq (set_slave (set_retryReq false (slave w)) w, st)
    else Some (w, st)
  else Some (w, st).

Definition recvReqRetry (ws : WS) : option WS := master_trySendTiming ws.
Definition recvRespRetry (ws : WS) : option WS := slave_trySendTiming ws.

(** ** Atomic and functional accesses *)

Variable sendAtomic : positive -> WS -> option (Z * WS).
Variable sendFunctional : positive -> World -> option World.

Definition recvAtomic (pkt : positive) (ws : WS) : option (Z * WS) :=
  p ← packets ws.1 !! pkt;
  _ ← assert_ (negb (Pkt.cacheResponding p));
  '(t, ws) ← sendAtomic pkt ws;
  Some (uint64 (uint64 (delay * clockPeriod) + t), ws).

(** The packet is checked against a list, and turned round when one satisfies it. *)
Fixpoint satisfy_list (l : list DeferredPacket) (pkt : positive) (w : World) : option (bool * World) :=
  match l with
  | [] => Some (false, w)
  | (_, o) :: l =>
      p ← packets w !! pkt;
      other ← packets w !! o;
      '(found, p, b) ← Pkt.trySatisfyFunctional other p (bufs w);
      if (found : bool) then p ← Pkt.makeResponse p; Some (true, set_mem (<[pkt := p]> (packets w)) b w)
      else satisfy_list l pkt (set_mem (<[pkt := p]> (packets w)) b w)
  end.

Definition trySatisfyFunctional (pkt : positive) (w : World) : option (bool * World) := satisfy_list (m_list (master w)) pkt w.

Definition recvFunctional (pkt : positive) (w : World) : option World :=
  '(found, w) ← satisfy_list (s_list (slave w)) pkt w;
  if (found : bool) then Some w
  else
    '(found, w) ← trySatisfyFunctional pkt w;
    if (found : bool) then Some w else sendFunctional pkt w.
End World.
#[global] Arguments World : clear implicits.
End Br.
