(* ===== verification/BridgeCorrect.v ===== *)
(** * BridgeCorrect: the buffers and the events of a bridge

    The invariant of [Bridge]: the lists stay within their limits, room is reserved
    for every response that can come, what waits in a list is on its way, and a
    master that was told to wait has a full buffer to wait for.  The lemmas say that
    the operations keep it. *)

From stdpp Require Import prelude gmap.
From Stdlib Require Import ZArith Lia.
From S2P Require Import Prelude Machine EventQueue EventShape EventQueueCorrect EventService SimLoop EventOwner Clock Packet Bridge.
Import Br.

Open Scope Z_scope.

#[local] Arguments Z.add : simpl never.
#[local] Arguments Z.sub : simpl never.
#[local] Arguments Z.max : simpl never.
#[local] Arguments EventQ.schedule : simpl never.
#[local] Arguments Clock.clockEdge : simpl never.
#[local] Arguments filter : simpl never.

(** ** The event of a port *)

(** The event comes when the first packet is due; when it is idle, the first packet is
    due and was refused. *)
Definition on_its_way (l : list DeferredPacket) (a : option Z) (now : Z) : Prop :=
  match l, a with
  | [], None => True
  | [], Some _ => False
  | (t, _) :: _, Some ta => t <= ta
  | (t, _) :: _, None => t <= now
  end.

Definition port_ok (l : list DeferredPacket) (e : positive) (st : EventQ.State) : Prop :=
  exists a, owned e a st /\ on_its_way l a (EventQ.curTick st).

Lemma port_others l e st st' :
  port_ok l e st -> data <$> EventQ.heap st' !! e = data <$> EventQ.heap st !! e -> EventQ.curTick st <= EventQ.curTick st' -> port_ok l e st'.
Proof.
  intros (a & Ha & Hw) Hd Ht. exists a. split; [by apply (owned_data _ _ st)|]. destruct l as [|[t p] l], a; simpl in *; (done || lia).
Qed.

Lemma port_later l e e' a st st' : port_ok l e st -> rearmed e' a st st' -> e <> e' -> port_ok l e st'.
Proof. intros Hp (_ & _ & (Ht & _ & Hd)) Hne. apply (port_others l e st); [done|by apply Hd|lia]. Qed.

Lemma others_refl e st : others e st st.
Proof. by split. Qed.

(** Adding a packet at the end. *)
Lemma port_push l e st when pkt :
  calm st -> port_ok l e st -> EventQ.curTick st <= when ->
  wp (if is_empty l then EventQ.schedule false true e when false st else Some st) (fun st' =>
    port_ok (l ++ [(when, pkt)]) e st' /\ calm st' /\ others e st st').
Proof.
  intros Hc (a & Ha & Hw) Ht. destruct l as [|[t p] l]; simpl in *.
  - destruct a; [done|]. eapply wp_mono; [by apply schedule_owned|]. intros st' (R1 & R2 & R3). split; [|done]. exists (Some when). split; [done|simpl; lia].
  - split; [by exists a|]. split; [done|]. by split.
Qed.

(** ** The invariant *)

Section Bridge.
Context {X : Type} (P delay : Z).
Hypothesis (HP : 0 < P) (Hdelay : 0 <= delay).
Implicit Types (w : World X) (st : EventQ.State).

Definition needs w (d : DeferredPacket) : Prop := Pkt.needsResponse <$> packets w !! d.2 = Some true.

#[export] Instance needs_dec w d : Decision (needs w d).
Proof. unfold needs. apply _. Defined.

(** The requests that wait for a response, by where they are: in the bridge, or beyond it. *)
Definition owed w (l : list DeferredPacket) : Z := zlen (filter (needs w) l).
Definition beyond w : Z := outstandingResponses (slave w) - owed w (m_list (master w)) - zlen (s_list (slave w)).

Definition clock_ok w (now : Z) : Prop := Clock.on_edge P now (clk w) /\ 0 <= now /\ now + (delay + 3) * P + 2 ^ 33 < 2 ^ 64.

Record sound w st : Prop := {
  so_calm : calm st;
  so_clock : clock_ok w (EventQ.curTick st);
  so_events : s_event (slave w) <> m_event (master w);
  so_limits : 0 <= respQueueLimit (slave w) < 2 ^ 32 /\ 0 <= reqQueueLimit (master w) < 2 ^ 32;
  so_req : port_ok (m_list (master w)) (m_event (master w)) st;
  so_resp : port_ok (s_list (slave w)) (s_event (slave w)) st;
  so_room : zlen (m_list (master w)) <= reqQueueLimit (master w);
  so_reserved : 0 <= beyond w /\ outstandingResponses (slave w) <= respQueueLimit (slave w);
  so_stall : retryReq (slave w) = true -> reqQueueFull (master w) = true \/ respQueueFull (slave w) = true
}.

Lemma bridge_clockEdge_spec k now w :
  clock_ok w now -> 0 <= k <= delay -> bridge_clockEdge P k now w = Some ((Clock.next_edge P now + k) * P, set_clk (Clock.edge_clock P now) w).
Proof. intros (Hc & Hn & Hb) Hk. unfold bridge_clockEdge. by rewrite (Clock.clockEdge_spec P HP) by (done || nia). Qed.

Lemma bridge_clock_edge w now w' : clock_ok w now -> clk w' = Clock.edge_clock P now -> clock_ok w' now.
Proof. intros (Hc & Hn & Hb) E. unfold clock_ok. rewrite E. split; [by apply Clock.edge_clock_on|done]. Qed.

Lemma edge_bounds now : now <= Clock.next_edge P now * P < now + P.
Proof. by apply Clock.next_edge_spec. Qed.

(** When a packet that comes in now is due. *)
Definition due (p : Pkt.Packet) (now : Z) : Z := (Clock.next_edge P now + delay) * P + uint32 (Pkt.headerDelay p + Pkt.payloadDelay p).

Lemma due_ok p now w : clock_ok w now -> uint64 (due p now) = due p now /\ now <= due p now.
Proof.
  intros (_ & Hn & Hb). unfold due. pose proof (edge_bounds now). pose proof (wrapU_range 32 (Pkt.headerDelay p + Pkt.payloadDelay p) ltac:(lia)).
  unfold uint32. assert (0 <= delay * P) by nia. split; [|nia]. unfold uint64. rewrite wrapU_small; [done|]. rewrite Z.mul_add_distr_r in *. lia.
Qed.

(** ** Requests *)

Lemma needs_packet w w' d : Pkt.needsResponse <$> packets w' !! d.2 = Pkt.needsResponse <$> packets w !! d.2 -> needs w' d <-> needs w d.
Proof. unfold needs. by intros ->. Qed.

Lemma owed_ext w w' l : (forall d, Pkt.needsResponse <$> packets w' !! d = Pkt.needsResponse <$> packets w !! d) -> owed w' l = owed w l.
Proof. intros H. unfold owed. f_equal. apply list_filter_iff. intros d. by apply needs_packet. Qed.

Lemma owed_snoc w l d : owed w (l ++ [d]) = owed w l + if decide (needs w d) then 1 else 0.
Proof.
  unfold owed. rewrite filter_app, zlen_app, filter_cons. by destruct (decide (needs w d)).
Qed.

Lemma owed_range w l : 0 <= owed w l <= zlen l.
Proof. unfold owed, zlen. pose proof (length_filter (needs w) l). lia. Qed.

(** Taking over the delays of a packet. *)
Lemma delays_needs w pkt p h l d :
  packets w !! pkt = Some p -> Pkt.needsResponse <$> packets (set_packet pkt (Pkt.set_delays h l p) w) !! d = Pkt.needsResponse <$> packets w !! d.
Proof.
  intros Hp. simpl. destruct (decide (d = pkt)) as [->|]; [|by rewrite lookup_insert_ne]. by rewrite lookup_insert_eq, Hp.
Qed.

(** A request is accepted. *)
Definition accepted (pkt : positive) (p : Pkt.Packet) (now : Z) w : World X :=
  mkWorld (if Pkt.needsResponse p then set_outstanding (outstandingResponses (slave w) + 1) (slave w) else slave w)
    (set_m_list (m_list (master w) ++ [(due p now, pkt)]) (master w)) (Clock.edge_clock P now) (<[pkt := Pkt.set_delays 0 0 p]> (packets w)) (bufs w) (rest w).

Definition stalls (p : Pkt.Packet) w : bool := reqQueueFull (master w) || Pkt.needsResponse p && respQueueFull (slave w).

Lemma accepted_sound w st st' pkt p :
  sound w st -> packets w !! pkt = Some p -> retryReq (slave w) = false -> stalls p w = false ->
  port_ok (m_list (master w) ++ [(due p (EventQ.curTick st), pkt)]) (m_event (master w)) st' -> calm st' -> others (m_event (master w)) st st' ->
  sound (accepted pkt p (EventQ.curTick st) w) st'.
Proof.
  intros [S1 S2 S3 S4 S5 S6 S7 S8 S9] Hp Hr Hst Hpo Hc Ho. pose proof Ho as (Ht & _ & Hd). unfold stalls in Hst. apply orb_false_iff in Hst as [H1 H2].
  unfold reqQueueFull in H1. apply Z.eqb_neq in H1.
  assert (forall l, owed (accepted pkt p (EventQ.curTick st) w) l = owed w l) as How.
  { intros l. apply owed_ext. intros d. by apply (delays_needs w pkt p 0 0 d). }
  assert (needs (accepted pkt p (EventQ.curTick st) w) (due p (EventQ.curTick st), pkt) <-> Pkt.needsResponse p = true) as Hn.
  { unfold needs. simpl. rewrite lookup_insert_eq. simpl. split; [by intros [= ?]|]. unfold Pkt.needsResponse. simpl. by intros ->. }
  assert (respQueueFull (slave w) = true -> Pkt.needsResponse p = false) as Hfull by (intros E; rewrite E, andb_true_r in H2; done).
  split; rewrite ?Ht; try done.
  - by apply (bridge_clock_edge w).
  - simpl. by destruct (Pkt.needsResponse p).
  - simpl. by destruct (Pkt.needsResponse p).
  - assert (port_ok (s_list (slave w)) (s_event (slave w)) st') as Hx by (apply (port_others _ _ st); [done|by apply Hd|lia]).
    simpl. by destruct (Pkt.needsResponse p).
  - simpl. rewrite zlen_app. change (zlen [(due p (EventQ.curTick st), pkt)]) with 1. lia.
  - unfold beyond in *. simpl. rewrite owed_snoc, How. unfold respQueueFull in Hfull. destruct S8 as [B1 B2].
    destruct (Pkt.needsResponse p); simpl.
    + rewrite decide_True by (by apply Hn). assert (outstandingResponses (slave w) <> respQueueLimit (slave w)) by (intros E; by apply Z.eqb_eq, Hfull in E). lia.
    + rewrite decide_False by (by rewrite Hn). lia.
  - simpl. intros E. exfalso. destruct (Pkt.needsResponse p); simpl in E; congruence.
Qed.

(** A request comes in: it is refused, with or without a promise to retry, or accepted. *)
Lemma bridge_req_spec w st pkt p :
  sound w st -> packets w !! pkt = Some p -> Pkt.cacheResponding p = false ->
  wp (recvTimingReq P delay pkt (w, st)) (fun '(ok, (w', st')) => sound w' st' /\ EventQ.curTick st' = EventQ.curTick st /\ others (m_event (master w)) st st' /\
    ok = negb (retryReq (slave w) || stalls p w) /\
    w' = if retryReq (slave w) then w else if stalls p w then set_slave (set_retryReq true (slave w)) w else accepted pkt p (EventQ.curTick st) w).
Proof.
  intros Hs Hp Hcr. pose proof Hs as [S1 S2 S3 S4 S5 S6 S7 S8 S9]. unfold recvTimingReq. rewrite Hp. simpl. rewrite Hcr. simpl.
  destruct (retryReq (slave w)) eqn:Er; [split; [exact Hs|]; split; [done|]; split; [apply others_refl|done]|]. simpl.
  assert (stalls p w = true -> sound (set_slave (set_retryReq true (slave w)) w) st) as Hstall.
  { intros H. unfold stalls in H. split; try done. intros _. apply orb_true_iff in H as [H|H]; [by left|]. apply andb_true_iff in H as [_ H]. by right. }
  unfold stalls in *. destruct (reqQueueFull (master w)) eqn:Ef; simpl; [split; [by apply Hstall|]; split; [done|]; split; [apply others_refl|done]|].
  destruct (Pkt.needsResponse p && respQueueFull (slave w)) eqn:Eq; simpl; [split; [by apply Hstall|]; split; [done|]; split; [apply others_refl|done]|].
  set (w1 := if Pkt.needsResponse p then _ else w).
  assert (packets w1 = packets w /\ clk w1 = clk w /\ master w1 = master w) as (Ep & Ec & Em) by (unfold w1; by destruct (Pkt.needsResponse p)).
  unfold receive_delay. rewrite Ep, Hp. cbn [mbind option_bind].
  rewrite (bridge_clockEdge_spec delay) by (lia || by destruct S2; split; [simpl; rewrite Ec|]). cbn [mbind option_bind].
  unfold schedTimingReq. simpl. rewrite Em. destruct (due_ok p (EventQ.curTick st) w S2) as [Hdue Hge]. unfold due in Hdue. rewrite Hdue. fold (due p (EventQ.curTick st)).
  apply wp_bind, wp_bind. eapply wp_mono; [by apply (port_push _ _ _ (due p (EventQ.curTick st)) pkt S1 S5)|]. intros st' (P1 & P2 & P3).
  unfold reqQueueFull in Ef. rewrite Ef. simpl. unfold set_packet, set_mem. simpl.
  assert (set_master (set_m_list (m_list (master w) ++ [(due p (EventQ.curTick st), pkt)]) (master w))
    (set_clk (Clock.edge_clock P (EventQ.curTick st)) (mkWorld (slave w1) (master w1) (clk w1) (<[pkt := Pkt.set_delays 0 0 p]> (packets w1)) (bufs w1) (rest w1))) =
    accepted pkt p (EventQ.curTick st) w) as Eacc.
  { unfold accepted, set_master, set_clk. simpl. rewrite Ep. destruct S4 as [[L1 L2] _]. destruct S8 as [B1 B2]. unfold w1, beyond in *.
    pose proof (owed_range w (m_list (master w))). pose proof (zlen_nonneg (s_list (slave w))).
    destruct (Pkt.needsResponse p); [|done]. simpl in Eq. unfold respQueueFull in Eq. apply Z.eqb_neq in Eq.
    simpl. unfold uint32. by rewrite wrapU_small by lia. }
  rewrite Eacc. split; [|split; [apply P3|split; [exact P3|done]]].
  apply accepted_sound; try done. unfold stalls, reqQueueFull. by rewrite Ef.
Qed.
(** ** Responses *)

Definition returned (pkt : positive) (p : Pkt.Packet) (now : Z) w : World X :=
  mkWorld (set_s_list (s_list (slave w) ++ [(due p now, pkt)]) (slave w)) (master w) (Clock.edge_clock P now)
    (<[pkt := Pkt.set_delays 0 0 p]> (packets w)) (bufs w) (rest w).

(** A response comes back for a request that is beyond the bridge. *)
Lemma recvTimingResp_spec w st pkt p :
  sound w st -> packets w !! pkt = Some p -> 0 < beyond w ->
  wp (recvTimingResp P delay pkt (w, st)) (fun '(ok, (w', st')) => sound w' st' /\ EventQ.curTick st' = EventQ.curTick st /\
    others (s_event (slave w)) st st' /\ ok = true /\ w' = returned pkt p (EventQ.curTick st) w).
Proof.
  intros Hs Hp Hb. pose proof Hs as [S1 S2 S3 S4 S5 S6 S7 S8 S9]. unfold recvTimingResp, receive_delay. rewrite Hp. cbn [mbind option_bind].
  rewrite (bridge_clockEdge_spec delay) by (lia || done). cbn [mbind option_bind]. unfold schedTimingResp. simpl.
  destruct (due_ok p (EventQ.curTick st) w S2) as [Hdue Hge]. unfold due in Hdue. rewrite Hdue. fold (due p (EventQ.curTick st)).
  apply wp_bind, wp_bind. eapply wp_mono; [by apply (port_push _ _ _ (due p (EventQ.curTick st)) pkt S1 S6)|]. intros st' (P1 & P2 & P3).
  simpl. pose proof P3 as (Ht & _ & Hd). split; [|split; [done|split; [done|done]]].
  assert (forall l, owed (returned pkt p (EventQ.curTick st) w) l = owed w l) as How.
  { intros l. apply owed_ext. intros d. by apply (delays_needs w pkt p 0 0 d). }
  split; rewrite ?Ht; try done.
  - by apply (bridge_clock_edge w).
  - apply (port_others _ _ st); [done|by apply Hd|lia].
  - change (0 <= beyond (returned pkt p (EventQ.curTick st) w) /\ outstandingResponses (slave w) <= respQueueLimit (slave w)).
    unfold beyond in *. rewrite How. simpl. rewrite zlen_app. change (zlen [(due p (EventQ.curTick st), pkt)]) with 1. lia.
Qed.

(** ** Sending *)

(** The bridge as an object. *)
Definition same_bridge w w' : Prop :=
  s_event (slave w') = s_event (slave w) /\ m_event (master w') = m_event (master w) /\
  respQueueLimit (slave w') = respQueueLimit (slave w) /\ reqQueueLimit (master w') = reqQueueLimit (master w).

(** The bridge is left alone, and so are the requests of [l]. *)
Record left_alone (l : list DeferredPacket) w st w' st' : Prop := {
  la_slave : slave w' = slave w;
  la_master : master w' = master w;
  la_clk : clk w' = clk w;
  la_time : EventQ.curTick st' = EventQ.curTick st;
  la_calm : calm st';
  la_events : forall e, e = s_event (slave w) \/ e = m_event (master w) -> data <$> EventQ.heap st' !! e = data <$> EventQ.heap st !! e;
  la_requests : forall d, d ∈ l -> Pkt.needsResponse <$> packets w' !! d.2 = Pkt.needsResponse <$> packets w !! d.2
}.

(** What the neighbours must respect. *)
Class Downstream (sendTimingReq : positive -> World X * EventQ.State -> option (bool * (World X * EventQ.State))) : Prop := {
  down_ok w st t pkt l : calm st -> m_list (master w) = (t, pkt) :: l ->
    wp (sendTimingReq pkt (w, st)) (fun '(ok, (w', st')) => left_alone (if (ok : bool) then l else m_list (master w)) w st w' st')
}.
Class Upstream (sendTimingResp : positive -> World X * EventQ.State -> option (bool * (World X * EventQ.State))) : Prop := {
  up_ok w st t pkt l : calm st -> s_list (slave w) = (t, pkt) :: l ->
    wp (sendTimingResp pkt (w, st)) (fun '(_, (w', st')) => left_alone (m_list (master w)) w st w' st')
}.
(** Told to try again, the master may send requests. *)
Class Retrier (sendRetryReq : World X * EventQ.State -> option (World X * EventQ.State)) : Prop := {
  retrier_ok w st : sound w st -> retryReq (slave w) = false ->
    wp (sendRetryReq (w, st)) (fun '(w', st') => sound w' st' /\ EventQ.curTick st' = EventQ.curTick st /\ same_bridge w w' /\
      s_list (slave w') = s_list (slave w) /\ exists more, m_list (master w') = m_list (master w) ++ more)
}.

Lemma owed_keeps w w' l :
  (forall d, d ∈ l -> Pkt.needsResponse <$> packets w' !! d.2 = Pkt.needsResponse <$> packets w !! d.2) -> owed w' l = owed w l.
Proof.
  intros H. unfold owed. f_equal. induction l as [|d l IH]; [done|]. rewrite !filter_cons, IH by (intros d' Hd'; apply H; by right).
  assert (needs w' d <-> needs w d) as Hd by (apply needs_packet, H; left). destruct (decide (needs w' d)), (decide (needs w d)); tauto || done.
Qed.

(** The next packet of a list is waited for. *)
Lemma port_next w st (l : list DeferredPacket) e :
  calm st -> clock_ok w (EventQ.curTick st) -> owned e None st ->
  wp (match l with
      | [] => Some (w, st)
      | (next, _) :: _ =>
          '(edge, w) ← bridge_clockEdge P 0 (EventQ.curTick st) w;
          st ← EventQ.schedule false true e (Z.max next edge) false st;
          Some (w, st)
      end) (fun '(w', st') => port_ok l e st' /\ calm st' /\ others e st st' /\ clock_ok w' (EventQ.curTick st) /\ w' = set_clk (clk w') w).
Proof.
  intros Hc Hk He. destruct l as [|[next p] l].
  - simpl. split; [by exists None|]. split; [done|]. split; [apply others_refl|]. split; [done|]. by destruct w.
  - rewrite (bridge_clockEdge_spec 0) by (lia || done). cbn [mbind option_bind]. pose proof (edge_bounds (EventQ.curTick st)).
    apply wp_bind. eapply wp_mono; [apply schedule_owned; (done || lia)|]. intros st' (R1 & R2 & R3). simpl.
    split; [eexists; split; [exact R2|simpl; lia]|]. split; [done|]. split; [done|]. split; [by apply (bridge_clock_edge w)|done].
Qed.

Lemma sound_left_alone w st w' st' : sound w st -> left_alone (m_list (master w)) w st w' st' -> sound w' st'.
Proof.
  intros [S1 S2 S3 S4 S5 S6 S7 S8 S9] [A1 A2 A3 A4 A5 A6 A7]. split; rewrite ?A1, ?A2, ?A4; try done.
  - unfold clock_ok. by rewrite A3.
  - apply (port_others _ _ st); [done|by apply A6; right|lia].
  - apply (port_others _ _ st); [done|by apply A6; left|lia].
  - unfold beyond in *. rewrite A1, A2, (owed_keeps w w') by done. done.
Qed.
Section Sending.
Context (sendTimingReq sendTimingResp : positive -> World X * EventQ.State -> option (bool * (World X * EventQ.State))).
Context (sendRetryReq : World X * EventQ.State -> option (World X * EventQ.State)).
Context {HD : Downstream sendTimingReq} {HU : Upstream sendTimingResp} {HR : Retrier sendRetryReq}.

Definition pop_req w : World X := set_master (set_m_list (tail (m_list (master w))) (master w)) w.

(** A request has left, its successor is waited for, and nobody is stalled. *)
Lemma pop_req_sound w st w1 st1 w2 st2 t p l :
  sound w st -> m_list (master w) = (t, p) :: l -> left_alone l w st w1 st1 ->
  port_ok l (m_event (master w)) st2 -> calm st2 -> others (m_event (master w)) st1 st2 -> clock_ok w2 (EventQ.curTick st1) -> w2 = set_clk (clk w2) (pop_req w1) ->
  sound (set_slave (set_retryReq false (slave w2)) w2) st2.
Proof.
  intros [S1 S2 S3 S4 S5 S6 S7 S8 S9] Hl [A1 A2 A3 A4 A5 A6 A7] Hp Hc Ho Hk E. pose proof Ho as (Ht & _ & Hd).
  assert (slave w2 = slave w /\ master w2 = set_m_list l (master w) /\ packets w2 = packets w1) as (E1 & E2 & E3).
  { rewrite E. simpl. rewrite A1, A2, Hl. done. }
  split; simpl; rewrite ?E1, ?E2, ?Ht; try done.
  - apply (port_others _ _ st); [done| |lia]. rewrite (Hd (s_event (slave w))) by done. by apply A6; left.
  - simpl. rewrite Hl in S7. unfold zlen in *. simpl in *. lia.
  - unfold beyond in *. simpl. rewrite ?E1, ?E2. simpl. assert (owed (set_slave (set_retryReq false (slave w)) w2) l = owed w l) as ->.
    { apply owed_keeps. intros d Hin. simpl. rewrite E3. by apply A7. }
    rewrite Hl in S8. unfold owed in *. rewrite filter_cons in S8. destruct (decide (needs w (t, p))); unfold zlen in *; simpl in *; lia.
Qed.

Lemma retry_ok w st :
  sound (set_slave (set_retryReq false (slave w)) w) st ->
  wp (retryStalledReq sendRetryReq (w, st)) (fun '(w', st') => sound w' st' /\ EventQ.curTick st' = EventQ.curTick st /\ same_bridge w w' /\
    s_list (slave w') = s_list (slave w) /\ exists more, m_list (master w') = m_list (master w) ++ more).
Proof.
  intros Hs. unfold retryStalledReq. destruct (retryReq (slave w)) eqn:Er.
  - exact (retrier_ok _ _ Hs eq_refl).
  - simpl. assert (set_slave (set_retryReq false (slave w)) w = w) as E by (destruct w as [[? ? r ? ? ?] ? ? ? ? ?]; simpl in *; by subst r).
    rewrite E in Hs. split; [done|]. split; [done|]. split; [done|]. split; [done|]. exists []. by rewrite app_nil_r.
Qed.

(** The first request of the list is sent, when its event comes or the receiver asks for it. *)
Lemma master_trySendTiming_spec w st t p l :
  sound w st -> m_list (master w) = (t, p) :: l -> owned (m_event (master w)) None st ->
  wp (master_trySendTiming P sendTimingReq sendRetryReq (w, st)) (fun '(w', st') => sound w' st' /\ EventQ.curTick st' = EventQ.curTick st /\ same_bridge w w' /\
    s_list (slave w') = s_list (slave w) /\ exists more, m_list (master w') = (t, p) :: l \/ m_list (master w') = l ++ more).
Proof.
  intros Hs Hl He. unfold master_trySendTiming. rewrite Hl. cbn [hd_error mbind option_bind].
  destruct (so_req _ _ Hs) as (a & Ha & Hw). rewrite (owned_agree _ _ _ _ Ha He), Hl in Hw. simpl in Hw.
  apply wp_bind, wp_assert; [lia|]. apply wp_bind. eapply wp_mono; [by apply (down_ok w st t p l); [apply Hs|]|].
  intros [ok [w1 st1]] A. destruct ok.
  - pose proof A as [A1 A2 A3 A4 A5 A6 A7]. rewrite A2, Hl. cbn [hd_error mbind option_bind tail]. apply wp_bind.
    assert (set_master (set_m_list l (master w)) w1 = pop_req w1) as -> by (unfold pop_req; by rewrite A2, Hl).
    assert (m_list (master (pop_req w1)) = l) as El by (unfold pop_req; simpl; by rewrite A2, Hl). rewrite El.
    assert (m_event (master (pop_req w1)) = m_event (master w)) as Ee by (unfold pop_req; simpl; by rewrite A2).
    assert (owned (m_event (master w)) None st1) as He1 by (apply (owned_data _ _ st); [apply A6; by right|done]).
    assert (clock_ok (pop_req w1) (EventQ.curTick st1)) as Hk by (unfold clock_ok; simpl; rewrite A3, A4; apply Hs).
    eapply wp_mono.
    { pose proof (port_next (pop_req w1) st1 l (m_event (master w)) A5 Hk He1) as Hn. destruct l as [|[next q] l']; [exact Hn|].
      cbn beta match in Hn |- *. rewrite (bridge_clockEdge_spec 0) in Hn |- * by (lia || done). cbn [mbind option_bind] in *.
      change (m_event (master (set_clk _ (pop_req w1)))) with (m_event (master (pop_req w1))). rewrite Ee. exact Hn. }
    intros [w2 st2] (P1 & P2 & P3 & P4 & P5). pose proof (pop_req_sound w st w1 st1 w2 st2 t p l Hs Hl A P1 P2 P3 P4 P5) as Hs2.
    eapply wp_mono; [by apply retry_ok|]. intros [w3 st3] (R1 & R2 & R3 & R4 & more & R5). split; [done|]. split; [rewrite R2, (proj1 P3); done|].
    assert (slave w2 = slave w /\ master w2 = set_m_list l (master w)) as (E1 & E2) by (rewrite P5; simpl; by rewrite A1, A2, Hl).
    unfold same_bridge in *. rewrite E1, E2 in R3. rewrite E1 in R4. rewrite E2 in R5. split; [exact R3|]. split; [done|]. exists more. by right.
  - simpl. split; [by apply (sound_left_alone w st)|]. destruct A as [A1 A2 A3 A4 A5 A6 A7]. split; [done|]. split; [unfold same_bridge; by rewrite A1, A2|].
    split; [by rewrite A1|]. exists []. left. by rewrite A2.
Qed.

Definition pop_resp w : World X := set_slave (set_outstanding (outstandingResponses (slave w) - 1) (set_s_list (tail (s_list (slave w))) (slave w))) w.

(** A response has left and its successor is waited for. *)
Lemma pop_resp_sound w st w1 st1 w2 st2 t p l b :
  sound w st -> s_list (slave w) = (t, p) :: l -> left_alone (m_list (master w)) w st w1 st1 ->
  port_ok l (s_event (slave w)) st2 -> calm st2 -> others (s_event (slave w)) st1 st2 -> clock_ok w2 (EventQ.curTick st1) -> w2 = set_clk (clk w2) (pop_resp w1) ->
  (b = true -> reqQueueFull (master w) = true) -> sound (set_slave (set_retryReq b (slave w2)) w2) st2.
Proof.
  intros [S1 S2 S3 S4 S5 S6 S7 S8 S9] Hl [A1 A2 A3 A4 A5 A6 A7] Hp Hc Ho Hk E Hb. pose proof Ho as (Ht & _ & Hd).
  assert (slave w2 = set_outstanding (outstandingResponses (slave w) - 1) (set_s_list l (slave w)) /\ master w2 = master w /\ packets w2 = packets w1) as (E1 & E2 & E3).
  { rewrite E. simpl. rewrite A1, A2, Hl. done. }
  split; simpl; rewrite ?E1, ?E2, ?Ht; try done.
  - apply (port_others _ _ st); [done| |lia]. rewrite (Hd (m_event (master w))) by (intros Eq; by apply S3). by apply A6; right.
  - unfold beyond in *. simpl. rewrite ?E1, ?E2. simpl. rewrite Hl in S8.
    assert (owed (set_slave (set_retryReq b (set_outstanding (outstandingResponses (slave w) - 1) (set_s_list l (slave w)))) w2) (m_list (master w)) = owed w (m_list (master w))) as ->.
    { apply owed_keeps. intros d Hin. simpl. rewrite E3. by apply A7. }
    unfold zlen in *. simpl in *. lia.
  - simpl. intros ->. left. by apply Hb.
Qed.

(** The first response of the list is taken. *)
Lemma slave_sent w st t p l w1 st1 :
  sound w st -> s_list (slave w) = (t, p) :: l -> owned (s_event (slave w)) None st ->
  sendTimingResp p (w, st) = Some (true, (w1, st1)) -> left_alone (m_list (master w)) w st w1 st1 ->
  exists w2 st2, slave_trySendTiming P sendTimingResp sendRetryReq (w, st) =
      (if negb (reqQueueFull (master w2)) && retryReq (slave w2) then sendRetryReq (set_slave (set_retryReq false (slave w2)) w2, st2) else Some (w2, st2)) /\
    slave w2 = set_outstanding (outstandingResponses (slave w) - 1) (set_s_list l (slave w)) /\ master w2 = master w /\ packets w2 = packets w1 /\
    EventQ.curTick st2 = EventQ.curTick st /\
    forall b, (b = true -> reqQueueFull (master w) = true) -> sound (set_slave (set_retryReq b (slave w2)) w2) st2.
Proof.
  intros Hs Hl He Es A. unfold slave_trySendTiming. rewrite Hl. cbn [hd_error mbind option_bind].
  destruct (so_resp _ _ Hs) as (a & Ha & Hw). rewrite (owned_agree _ _ _ _ Ha He), Hl in Hw. simpl in Hw.
  rewrite (proj2 (Z.leb_le _ _) Hw). cbn [assert_ mbind option_bind]. rewrite Es. cbn [mbind option_bind].
  pose proof A as [A1 A2 A3 A4 A5 A6 A7]. rewrite A1, Hl. cbn [hd_error mbind option_bind tail].
  assert (outstandingResponses (slave w) <> 0) as Hout.
  { pose proof (so_reserved _ _ Hs) as [B1 B2]. unfold beyond in B1. rewrite Hl in B1. pose proof (owed_range w (m_list (master w))). unfold zlen in *. simpl in *. lia. }
  simpl. rewrite (proj2 (Z.eqb_neq _ _) Hout). cbn [negb assert_ mbind option_bind].
  assert (set_slave (set_outstanding (outstandingResponses (slave w) - 1) (set_s_list l (slave w))) (set_slave (set_s_list l (slave w)) w1) = pop_resp w1) as ->
    by (unfold pop_resp, set_slave; simpl; by rewrite A1, Hl).
  assert (owned (s_event (slave w)) None st1) as He1 by (apply (owned_data _ _ st); [apply A6; by left|done]).
  assert (clock_ok (pop_resp w1) (EventQ.curTick st1)) as Hk by (unfold clock_ok; simpl; rewrite A3, A4; apply Hs).
  assert (s_event (slave (pop_resp w1)) = s_event (slave w)) as Ee by (unfold pop_resp; simpl; by rewrite A1).
  pose proof (port_next (pop_resp w1) st1 l (s_event (slave w)) A5 Hk He1) as Hn. apply wp_exists in Hn as ([w2 st2] & En & P1 & P2 & P3 & P4 & P5).
  exists w2, st2. split; [|split; [|split; [|split; [|split]]]].
  - destruct l as [|[next q] l']; [by injection En as <- <-|].
    rewrite (bridge_clockEdge_spec 0) in En |- * by (lia || done). cbn [mbind option_bind] in *.
    change (s_event (slave (set_clk _ (pop_resp w1)))) with (s_event (slave (pop_resp w1))). rewrite Ee. by rewrite En.
  - rewrite P5. simpl. by rewrite A1, Hl.
  - rewrite P5. simpl. by rewrite A2.
  - by rewrite P5.
  - by rewrite (proj1 P3).
  - intros b Hb. exact (pop_resp_sound w st w1 st1 w2 st2 t p l b Hs Hl A P1 P2 P3 P4 P5 Hb).
Qed.

(** The first response of the list is sent. *)
Lemma slave_trySendTiming_spec w st t p l :
  sound w st -> s_list (slave w) = (t, p) :: l -> owned (s_event (slave w)) None st ->
  wp (slave_trySendTiming P sendTimingResp sendRetryReq (w, st)) (fun '(w', st') => sound w' st' /\ EventQ.curTick st' = EventQ.curTick st /\ same_bridge w w' /\
    (s_list (slave w') = (t, p) :: l \/ s_list (slave w') = l) /\ exists more, m_list (master w') = m_list (master w) ++ more).
Proof.
  intros Hs Hl He. pose proof (up_ok w st t p l (so_calm _ _ Hs) Hl) as Hup. apply wp_exists in Hup as ([ok [w1 st1]] & Es & A). destruct ok.
  - destruct (slave_sent w st t p l w1 st1 Hs Hl He Es A) as (w2 & st2 & -> & E1 & E2 & _ & Ht & Hs2).
    destruct (negb (reqQueueFull (master w2)) && retryReq (slave w2)) eqn:Ec.
    + eapply wp_mono; [apply (retrier_ok _ _ (Hs2 false ltac:(done)) eq_refl)|]. intros [w3 st3] (R1 & R2 & R3 & R4 & more & R5).
      split; [done|]. split; [by rewrite R2|]. unfold same_bridge in *. simpl in *. rewrite E1, E2 in R3. rewrite E1 in R4. rewrite E2 in R5. split; [exact R3|].
      split; [by right|]. by exists more.
    + simpl. assert (set_slave (set_retryReq (retryReq (slave w2)) (slave w2)) w2 = w2) as Eid by (by destruct w2 as [[? ? ? ? ? ?] ? ? ? ? ?]).
      split; [|split; [done|]].
      * rewrite <- Eid. apply Hs2. intros Er. rewrite Er, andb_true_r in Ec. rewrite <- E2. by apply negb_false_iff.
      * unfold same_bridge. rewrite E1, E2. split; [done|]. split; [by right|]. exists []. by rewrite app_nil_r.
  - unfold slave_trySendTiming. rewrite Hl. cbn [hd_error mbind option_bind].
    destruct (so_resp _ _ Hs) as (a & Ha & Hw). rewrite (owned_agree _ _ _ _ Ha He), Hl in Hw. simpl in Hw.
    rewrite (proj2 (Z.leb_le _ _) Hw). cbn [assert_ mbind option_bind]. rewrite Es. simpl.
    split; [by apply (sound_left_alone w st)|]. destruct A as [A1 A2 A3 A4 A5 A6 A7]. split; [done|]. split; [unfold same_bridge; by rewrite A1, A2|].
    split; [left; by rewrite A1|]. exists []. by rewrite A2, app_nil_r.
Qed.
End Sending.
End Bridge.
