(* ===== verification/BridgeTheorems.v ===== *)
(** * BridgeTheorems: what a bridge promises

    Requests are accepted exactly when there is room, nothing is lost in the bridge,
    its buffers stay within their limits, and a master that was told to wait is told
    to try again when its request can be accepted. *)

From stdpp Require Import prelude gmap.
From Stdlib Require Import ZArith Lia.
From S2P Require Import Prelude Machine EventQueue EventShape EventQueueCorrect EventService SimLoop EventOwner Clock Packet Bridge BridgeCorrect.
Import Br.

Open Scope Z_scope.

#[local] Arguments Z.add : simpl never.
#[local] Arguments Z.sub : simpl never.
#[local] Arguments Z.max : simpl never.
#[local] Arguments EventQ.serviceOne : simpl never.
#[local] Arguments EventQ.schedule : simpl never.
#[local] Arguments recvTimingReq : simpl never.
#[local] Arguments recvTimingResp : simpl never.
#[local] Arguments recvReqRetry : simpl never.
#[local] Arguments recvRespRetry : simpl never.
#[local] Arguments master_trySendTiming : simpl never.
#[local] Arguments slave_trySendTiming : simpl never.

Section Bridge.
Context {X : Type} (P delay : Z).
Hypothesis (HP : 0 < P) (Hdelay : 0 <= delay).
Implicit Types (w : World X) (st : EventQ.State).

(** Accepting requests.  A request is refused exactly when a master waits for a retry
    already, when the buffer for requests is full, or when it needs a response and
    all room for responses is reserved; a refusal for want of room is remembered,
    and changes nothing else.  An accepted request goes to the end of the list, due
    after the delay of the bridge from the next clock edge on and the delays it brings
    from its bus, which are cleared; room for its response is reserved when it needs one. *)
Theorem bridge_request w st pkt p :
  sound P delay w st -> packets w !! pkt = Some p -> Pkt.cacheResponding p = false ->
  wp (recvTimingReq P delay pkt (w, st)) (fun '(ok, (w', st')) => sound P delay w' st' /\ EventQ.curTick st' = EventQ.curTick st /\
    (ok = false <-> retryReq (slave w) = true \/ reqQueueFull (master w) = true \/ Pkt.needsResponse p = true /\ respQueueFull (slave w) = true) /\
    (ok = false -> w' = set_slave (set_retryReq true (slave w)) w /\ st' = st) /\
    (ok = true -> m_list (master w') = m_list (master w) ++ [(due P delay p (EventQ.curTick st), pkt)] /\ s_list (slave w') = s_list (slave w) /\
      retryReq (slave w') = false /\ packets w' = <[pkt := Pkt.set_delays 0 0 p]> (packets w) /\
      outstandingResponses (slave w') = outstandingResponses (slave w) + (if Pkt.needsResponse p then 1 else 0))).
Proof.
  intros Hs Hp Hc. eapply wp_mono; [apply wp_eqn, (bridge_req_spec P delay HP Hdelay w st pkt p Hs Hp Hc)|].
  intros [ok [w' st']] [(Hs' & Ht & _ & Hok & Hw) E]. split; [done|]. split; [done|]. unfold recvTimingReq in E. rewrite Hp in E. simpl in E. rewrite Hc in E. simpl in E.
  unfold stalls in *. destruct (retryReq (slave w)) eqn:Er; simpl in *; subst ok.
  { split; [split; [auto|done]|]. split; [|done]. intros _. injection E as <- <-. split; [|done]. destruct w as [[? ? r ? ? ?] ? ? ? ? ?]. simpl in *. by subst r. }
  destruct (reqQueueFull (master w)); simpl in *.
  { split; [split; [auto|done]|]. split; [|done]. intros _. by injection E as <- <-. }
  destruct (Pkt.needsResponse p) eqn:En; simpl in *.
  - destruct (respQueueFull (slave w)); simpl in *.
    + split; [split; [auto|done]|]. split; [|done]. intros _. by injection E as <- <-.
    + split; [split; [done|intros [|[|[? ?]]]; done]|]. split; [done|]. intros _. subst w'. unfold accepted. rewrite En. by simpl.
  - split; [split; [done|intros [|[|[? ?]]]; done]|]. split; [done|]. intros _. subst w'. unfold accepted. rewrite En. simpl. by rewrite Z.add_0_r.
Qed.

(** ** No packet is forgotten *)

Section Steps.
Context (sendTimingReq sendTimingResp : positive -> World X * EventQ.State -> option (bool * (World X * EventQ.State))).
Context (sendRetryReq : World X * EventQ.State -> option (World X * EventQ.State)).

(** The actions of the two events. *)
Definition fire (e : EventQ.ptr) (ws : World X * EventQ.State) : option (World X * EventQ.State) :=
  if bool_decide (e = m_event (master ws.1)) then master_trySendTiming P sendTimingReq sendRetryReq ws
  else if bool_decide (e = s_event (slave ws.1)) then slave_trySendTiming P sendTimingResp sendRetryReq ws
  else None.

Definition in_time (t : Z) : Prop := t + (delay + 3) * P + 2 ^ 33 < 2 ^ 64.

(** Others run, and leave the bridge and its events alone. *)
Record meanwhile w st w' st' : Prop := {
  mw_slave : slave w' = slave w;
  mw_master : master w' = master w;
  mw_clk : clk w' = clk w;
  mw_time : EventQ.curTick st <= EventQ.curTick st' /\ in_time (EventQ.curTick st');
  mw_calm : calm st';
  mw_events : forall e, e = s_event (slave w) \/ e = m_event (master w) -> data <$> EventQ.heap st' !! e = data <$> EventQ.heap st !! e;
  mw_requests : forall d, d ∈ m_list (master w) -> Pkt.needsResponse <$> packets w' !! d.2 = Pkt.needsResponse <$> packets w !! d.2
}.

(** A request or a response comes in, a neighbour asks for a retry, an event of the
    bridge is serviced, or others run. *)
Inductive bstep : World X * EventQ.State -> World X * EventQ.State -> Prop :=
| b_request w st pkt p ok ws' :
    packets w !! pkt = Some p -> Pkt.cacheResponding p = false -> recvTimingReq P delay pkt (w, st) = Some (ok, ws') -> bstep (w, st) ws'
| b_response w st pkt p ok ws' :
    packets w !! pkt = Some p -> 0 < beyond w -> recvTimingResp P delay pkt (w, st) = Some (ok, ws') -> bstep (w, st) ws'
| b_req_retry w st ws' :
    m_list (master w) <> [] -> owned (m_event (master w)) None st -> recvReqRetry P sendTimingReq sendRetryReq (w, st) = Some ws' -> bstep (w, st) ws'
| b_resp_retry w st ws' :
    s_list (slave w) <> [] -> owned (s_event (slave w)) None st -> recvRespRetry P sendTimingResp sendRetryReq (w, st) = Some ws' -> bstep (w, st) ws'
| b_fire w st e r ws' :
    EventQ.head st = Some e -> e = m_event (master w) \/ e = s_event (slave w) -> (forall t, EventQ.nextTick st = Some t -> in_time t) ->
    EventQ.serviceOne fire (w, st) = Some (r, ws') -> bstep (w, st) ws'
| b_others w st w' st' : meanwhile w st w' st' -> bstep (w, st) (w', st').

Context {HD : Downstream sendTimingReq} {HU : Upstream sendTimingResp} {HR : Retrier P delay sendRetryReq}.

Lemma clock_later w now now' : clock_ok P delay w now -> now <= now' -> in_time now' -> clock_ok P delay w now'.
Proof. intros (C1 & C2 & C3) Hle Hb. split; [by apply (Clock.on_edge_later P now)|]. split; [lia|exact Hb]. Qed.

Lemma sound_meanwhile w st w' st' : sound P delay w st -> meanwhile w st w' st' -> sound P delay w' st'.
Proof.
  intros [S1 S2 S3 S4 S5 S6 S7 S8 S9] [M1 M2 M3 M4 M5 M6 M7]. split; rewrite ?M1, ?M2; try done.
  - unfold clock_ok. rewrite M3. apply (clock_later w (EventQ.curTick st)); [done|apply M4..].
  - apply (port_others _ _ st); [done|by apply M6; right|lia].
  - apply (port_others _ _ st); [done|by apply M6; left|lia].
  - unfold beyond in *. rewrite M1, M2, (owed_keeps w w') by done. done.
Qed.

(** The bridge at the time its event [e] comes. *)
Lemma sound_fired w st st1 e t :
  sound P delay w st -> e = m_event (master w) \/ e = s_event (slave w) -> owned e (Some t) st -> calm st1 -> owned e None st1 -> EventQ.curTick st1 = t -> in_time t ->
  (forall x, x <> e -> data <$> EventQ.heap st1 !! x = data <$> EventQ.heap st !! x) -> sound P delay w st1.
Proof.
  intros Hs He Ho C1 Ho1 Ht Hb Hd. pose proof Hs as [S1 S2 S3 S4 S5 S6 S7 S8 S9]. pose proof (owned_not_past _ _ _ S1 Ho) as Hpast.
  assert (forall l, port_ok l e st -> port_ok l e st1) as Hown.
  { intros l (a & Ha & Hw). rewrite (owned_agree _ _ _ _ Ha Ho) in Hw. exists None. split; [done|]. rewrite Ht. destruct l as [|[t0 p] l]; simpl in *; done. }
  assert (forall l x, x <> e -> port_ok l x st -> port_ok l x st1) as Hoth.
  { intros l x Hx Hp. apply (port_others l x st); [done|by apply Hd|lia]. }
  split; try done.
  - rewrite Ht. apply (clock_later w (EventQ.curTick st)); (done || lia).
  - destruct He as [->| ->]; [by apply Hown|]. by apply Hoth.
  - destruct He as [->| ->]; [by apply Hoth|]. by apply Hown.
Qed.

Lemma bridge_fire_spec w st e :
  sound P delay w st -> EventQ.head st = Some e -> e = m_event (master w) \/ e = s_event (slave w) -> (forall t, EventQ.nextTick st = Some t -> in_time t) ->
  wp (EventQ.serviceOne fire (w, st)) (fun '(r, (w', st')) => r = None /\ sound P delay w' st' /\ EventQ.nextTick st = Some (EventQ.curTick st') /\ same_bridge w w').
Proof.
  intros Hs Hh He Hm. pose proof (so_calm _ _ _ _ Hs) as [[l Hq] Hsn]. pose proof (queued_head _ _ Hq) as Hhd. rewrite Hh in Hhd.
  destruct l as [|e' l]; [done|]. simpl in Hhd. injection Hhd as <-.
  assert (exists L, port_ok L e st /\ (e = m_event (master w) /\ L = m_list (master w) \/ e = s_event (slave w) /\ L = s_list (slave w))) as (L & Hp & HL).
  { destruct He as [->| ->]; eexists; (split; [apply Hs|]); auto. }
  destruct Hp as (a & Ha & Hw). destruct (owned_head _ _ _ _ Hq Ha) as (t & -> & Hnt).
  destruct (serviceOne_owned fire e t w st l Hq Hsn Ha) as (st1 & C1 & Hq1 & He1 & Ht1 & Hd & ->).
  pose proof (sound_fired w st st1 e t Hs He Ha C1 He1 Ht1 (Hm t Hnt) Hd) as Hs1.
  apply wp_bind. assert (wp (fire e (w, st1)) (fun '(w', st') => sound P delay w' st' /\ EventQ.curTick st' = t /\ same_bridge w w')) as Hf.
  { destruct L as [|[t0 p] L]; [done|]. unfold fire. simpl. destruct HL as [[Ee EL]|[Ee EL]].
    - rewrite bool_decide_true by done. eapply wp_mono; [apply (master_trySendTiming_spec P delay HP Hdelay sendTimingReq sendRetryReq w st1 t0 p L Hs1); [done|by rewrite <- Ee]|].
      intros [w' st'] (R1 & R2 & R3 & _). rewrite R2. done.
    - rewrite bool_decide_false by (rewrite Ee; apply Hs). rewrite bool_decide_true by done.
      eapply wp_mono; [apply (slave_trySendTiming_spec P delay HP Hdelay sendTimingResp sendRetryReq w st1 t0 p L Hs1); [done|by rewrite <- Ee]|].
      intros [w' st'] (R1 & R2 & R3 & _). rewrite R2. done. }
  eapply wp_mono; [exact Hf|]. intros [w2 st2] (R1 & R2 & R3).
  assert (exists a2, owned e a2 st2) as [a2 Ha2].
  { destruct R3 as (B1 & B2 & _). destruct He as [->| ->]; [rewrite <- B2; destruct (so_req _ _ _ _ R1) as (a2 & ? & _)|rewrite <- B1; destruct (so_resp _ _ _ _ R1) as (a2 & ? & _)]; eauto. }
  rewrite (finish_owned _ a2) by done. simpl. split; [done|]. split; [done|]. split; [by rewrite R2|done].
Qed.

Lemma bstep_sound ws ws' : bstep ws ws' -> sound P delay ws.1 ws.2 -> sound P delay ws'.1 ws'.2.
Proof.
  intros Hstep Hs. destruct Hstep as [w st pkt p ok ws' Hp Hc E|w st pkt p ok ws' Hp Hb E|w st ws' Hl He E|w st ws' Hl He E|w st e r ws' Hh He Hm E|w st w' st' M]; simpl in *.
  - pose proof (wp_some _ _ _ E (bridge_req_spec P delay HP Hdelay w st pkt p Hs Hp Hc)) as H. destruct ws' as [w' st']. by apply H.
  - pose proof (wp_some _ _ _ E (recvTimingResp_spec P delay HP Hdelay w st pkt p Hs Hp Hb)) as H. destruct ws' as [w' st']. by apply H.
  - destruct (m_list (master w)) as [|[t p] l] eqn:El; [done|].
    pose proof (wp_some _ _ _ E (master_trySendTiming_spec P delay HP Hdelay sendTimingReq sendRetryReq w st t p l Hs El He)) as H. destruct ws' as [w' st']. by apply H.
  - destruct (s_list (slave w)) as [|[t p] l] eqn:El; [done|].
    pose proof (wp_some _ _ _ E (slave_trySendTiming_spec P delay HP Hdelay sendTimingResp sendRetryReq w st t p l Hs El He)) as H. destruct ws' as [w' st']. by apply H.
  - pose proof (wp_some _ _ _ E (bridge_fire_spec w st e Hs Hh He Hm)) as H. destruct ws' as [w' st']. by apply H.
  - by apply (sound_meanwhile w st).
Qed.

(** A new bridge. *)
Record new_bridge w st : Prop := {
  nb_slave : slave w = SlavePort_new (respQueueLimit (slave w)) (s_event (slave w)) (ranges (slave w));
  nb_master : master w = MasterPort_new (reqQueueLimit (master w)) (m_event (master w));
  nb_clk : clk w = Clock.Clocked_new;
  nb_events : s_event (slave w) <> m_event (master w) /\ owned (s_event (slave w)) None st /\ owned (m_event (master w)) None st;
  nb_state : calm st /\ 0 <= EventQ.curTick st /\ in_time (EventQ.curTick st)
}.

Lemma new_sound w st : new_bridge w st -> sound P delay w st.
Proof.
  intros [N1 N2 N3 (E1 & E2 & E3) (C1 & C2 & C3)].
  assert (s_list (slave w) = [] /\ outstandingResponses (slave w) = 0 /\ retryReq (slave w) = false) as (L1 & L2 & L3) by (by rewrite N1).
  assert (m_list (master w) = []) as L4 by (by rewrite N2).
  assert (0 <= respQueueLimit (slave w) < 2 ^ 32) as B1 by (rewrite N1; apply (wrapU_range 32); lia).
  assert (0 <= reqQueueLimit (master w) < 2 ^ 32) as B2 by (rewrite N2; apply (wrapU_range 32); lia).
  split; rewrite ?L1, ?L4; try done.
  - split; [rewrite N3; by apply Clock.on_edge_new|done].
  - by exists None.
  - by exists None.
  - unfold zlen. simpl. lia.
  - unfold beyond. rewrite L1, L2, L4. unfold owed, zlen. simpl. lia.
  - by rewrite L3.
Qed.

(** C29: the bridge between operations.  In every state that requests, responses, retries, the
    events of the bridge and the rest of the system reach from a new bridge, with
    neighbours that keep their contracts: the list of requests is within its limit, and
    the responses in the bridge and those still to come for requests in or beyond it
    are within theirs; the first packet of a list that is not empty is waited for by the
    event of the list, which comes not before the packet is due, or it is due and was
    refused, and then a retry does not fail; servicing an event of the bridge does not
    fail; and while a master waits for a retry, one of the two buffers is full. *)
Theorem bridge_invariant w0 st0 w st :
  new_bridge w0 st0 -> rtc bstep (w0, st0) (w, st) ->
  zlen (m_list (master w)) <= reqQueueLimit (master w) /\
  owed w (m_list (master w)) + zlen (s_list (slave w)) <= outstandingResponses (slave w) <= respQueueLimit (slave w) /\
  (retryReq (slave w) = true -> reqQueueFull (master w) = true \/ respQueueFull (slave w) = true) /\
  (forall t p l, m_list (master w) = (t, p) :: l -> (exists t', owned (m_event (master w)) (Some t') st /\ t <= t') \/
    (owned (m_event (master w)) None st /\ t <= EventQ.curTick st /\ is_Some (recvReqRetry P sendTimingReq sendRetryReq (w, st)))) /\
  (forall t p l, s_list (slave w) = (t, p) :: l -> (exists t', owned (s_event (slave w)) (Some t') st /\ t <= t') \/
    (owned (s_event (slave w)) None st /\ t <= EventQ.curTick st /\ is_Some (recvRespRetry P sendTimingResp sendRetryReq (w, st)))) /\
  (forall e, EventQ.head st = Some e -> e = m_event (master w) \/ e = s_event (slave w) -> (forall t, EventQ.nextTick st = Some t -> in_time t) ->
    is_Some (EventQ.serviceOne fire (w, st))).
Proof.
  intros Hn Hr. assert (forall ws ws', rtc bstep ws ws' -> sound P delay ws.1 ws.2 -> sound P delay ws'.1 ws'.2) as Hinv.
  { induction 1; [done|]. eauto using bstep_sound. }
  specialize (Hinv _ _ Hr (new_sound _ _ Hn)). simpl in Hinv. pose proof Hinv as [S1 S2 S3 S4 S5 S6 S7 S8 S9].
  split; [done|]. split; [unfold beyond in S8; lia|]. split; [done|]. split; [|split].
  - intros t p l Hl. destruct S5 as (a & Ha & Hw). rewrite Hl in Hw. destruct a as [ta|]; simpl in Hw; [left; eauto|]. right. split; [done|]. split; [done|].
    pose proof (master_trySendTiming_spec P delay HP Hdelay sendTimingReq sendRetryReq w st t p l Hinv Hl Ha) as H. unfold recvReqRetry.
    destruct (master_trySendTiming _ _ _ _); [by eexists|done].
  - intros t p l Hl. destruct S6 as (a & Ha & Hw). rewrite Hl in Hw. destruct a as [ta|]; simpl in Hw; [left; eauto|]. right. split; [done|]. split; [done|].
    pose proof (slave_trySendTiming_spec P delay HP Hdelay sendTimingResp sendRetryReq w st t p l Hinv Hl Ha) as H. unfold recvRespRetry.
    destruct (slave_trySendTiming _ _ _ _); [by eexists|done].
  - intros e Hh He Hm. pose proof (bridge_fire_spec w st e Hinv Hh He Hm) as H. destruct (EventQ.serviceOne fire (w, st)); [by eexists|done].
Qed.
End Steps.

(** ** Stalled requests *)

(** A receiver that takes every packet, and a master that answers a retry by sending its
    request again. *)
Definition takes (pkt : positive) (ws : World X * EventQ.State) : option (bool * (World X * EventQ.State)) := Some (true, ws).
Definition resend (pkt : positive) (ws : World X * EventQ.State) : option (World X * EventQ.State) :=
  '(_, ws) ← recvTimingReq P delay pkt ws; Some ws.

Lemma takes_left_alone l w st : calm st -> left_alone l w st w st.
Proof. by intros. Qed.

(** C30: a stalled request enters.  When a response leaves while a master waits for a retry
    and there is room for a request, the master is told to try again, and the request
    it then sends is accepted, whether or not it needs a response. *)
Theorem stalled_request_enters w st t p0 l pkt p :
  sound P delay w st -> s_list (slave w) = (t, p0) :: l -> owned (s_event (slave w)) None st ->
  retryReq (slave w) = true -> reqQueueFull (master w) = false -> packets w !! pkt = Some p -> Pkt.cacheResponding p = false ->
  wp (slave_trySendTiming P takes (resend pkt) (w, st)) (fun '(w', st') => sound P delay w' st' /\ s_list (slave w') = l /\ retryReq (slave w') = false /\
    m_list (master w') = m_list (master w) ++ [(due P delay p (EventQ.curTick st), pkt)]).
Proof.
  intros Hs Hl He Hr Hf Hp Hc.
  destruct (slave_sent P delay HP Hdelay takes (resend pkt) w st t p0 l w st Hs Hl He eq_refl) as (w2 & st2 & -> & E1 & E2 & E3 & Ht & Hs2).
  { split; try done. apply Hs. }
  rewrite E2, Hf, E1. simpl. rewrite Hr. unfold resend. specialize (Hs2 false ltac:(done)).
  assert (outstandingResponses (slave w) - 1 <> respQueueLimit (slave w)) as Hne by (pose proof (so_reserved _ _ _ _ Hs); lia).
  rewrite E1 in Hs2. set (w3 := set_slave _ w2) in *. apply wp_bind. eapply wp_mono.
  { apply (bridge_req_spec P delay HP Hdelay w3 st2 pkt p Hs2); [simpl; by rewrite E3|done]. }
  intros [ok [w4 st4]] (R1 & R2 & _ & _ & R4). simpl.
  assert (stalls p w3 = false) as Est.
  { unfold stalls, respQueueFull. simpl. rewrite E2, Hf. simpl. rewrite (proj2 (Z.eqb_neq _ _) Hne). apply andb_false_r. }
  rewrite Est in R4. simpl in R4. subst w4. split; [done|]. unfold accepted. simpl. rewrite E2, Ht. by destruct (Pkt.needsResponse p).
Qed.
End Bridge.

(** ** Witnesses *)

(** A bridge with room for one request and one response, a clock of ten ticks and a
    delay of two cycles. *)
Definition demo_read (a : Z) : Pkt.Packet := Pkt.createRead 1 (Pkt.mkRequest (Some a) (Some 4) false false false false false false false).
Definition demo_bridge : World unit :=
  mkWorld (SlavePort_new 1 1 []) (MasterPort_new 1 2) Clock.Clocked_new {[ 1%positive := demo_read 0x100; 2%positive := demo_read 0x200 ]} ∅ tt.
Definition demo_events : EventQ.State := EventQ.set_heap {[ 1%positive := fresh_event 0; 2%positive := fresh_event 0 ]} (EventQ.EventQueue_new ∅ 7).

Definition after {A} (d : A) (o : option (bool * A)) : A := match o with Some (_, x) => x | None => d end.

(** The first request is accepted, the second one stalls. *)
Definition demo_first : World unit * EventQ.State := after (demo_bridge, demo_events) (recvTimingReq 10 2 1 (demo_bridge, demo_events)).
Definition demo_second : World unit * EventQ.State := after demo_first (recvTimingReq 10 2 2 demo_first).

Lemma demo_new : new_bridge 10 2 demo_bridge demo_events.
Proof.
  destruct (owned_fresh (EventQ.EventQueue_new ∅ 7) 1 0 (calm_new 7) eq_refl) as [C1 O1].
  destruct (owned_fresh _ 2 0 C1 eq_refl) as [C2 O2].
  assert (EventQ.set_heap (<[2%positive := fresh_event 0]> (EventQ.heap (EventQ.set_heap (<[1%positive := fresh_event 0]> (EventQ.heap (EventQ.EventQueue_new ∅ 7))) (EventQ.EventQueue_new ∅ 7))))
    (EventQ.set_heap (<[1%positive := fresh_event 0]> (EventQ.heap (EventQ.EventQueue_new ∅ 7))) (EventQ.EventQueue_new ∅ 7)) = demo_events) as E by reflexivity.
  rewrite E in C2, O2. split; try reflexivity.
  - split; [done|]. split; [|exact O2]. apply (owned_data _ _ _ _ (eq_refl : data <$> EventQ.heap demo_events !! 1%positive = _) O1).
  - split; [exact C2|]. by split.
Qed.

#[export] Instance takes_downstream : Downstream (@takes unit).
Proof. split. intros w st t pkt l Hc Hl. simpl. by split. Qed.
#[export] Instance takes_upstream : Upstream (@takes unit).
Proof. split. intros w st t pkt l Hc Hl. simpl. by split. Qed.
#[export] Instance quiet_retrier : Retrier 10 2 (fun ws : World unit * EventQ.State => Some ws).
Proof. split. intros w st Hs Hr. simpl. split; [done|]. split; [done|]. split; [done|]. split; [done|]. exists []. by rewrite app_nil_r. Qed.

Lemma bridge_request_witness :
  wp (recvTimingReq 10 2 1 (demo_bridge, demo_events)) (fun '(ok, (w', _)) => ok = true -> m_list (master w') = [(20, 1%positive)]).
Proof.
  pose proof (new_sound 10 2 eq_refl demo_bridge demo_events demo_new) as Hs.
  eapply wp_mono; [apply (bridge_request 10 2 eq_refl ltac:(done) demo_bridge demo_events 1 (demo_read 0x100) Hs); reflexivity|].
  intros [ok [w' st']] (_ & _ & _ & _ & H) Hok. destruct (H Hok) as (E & _). rewrite E. reflexivity.
Defined.

(** The second request stalls, and the first one is waited for. *)
Lemma bridge_invariant_witness :
  exists t', owned 2 (Some t') demo_second.2 /\ 20 <= t'.
Proof.
  destruct (bridge_invariant 10 2 eq_refl ltac:(done) takes takes (fun ws => Some ws) demo_bridge demo_events demo_second.1 demo_second.2) as (_ & _ & _ & H & _).
  - exact demo_new.
  - eapply rtc_l; [apply (b_request 10 2 _ _ _ demo_bridge demo_events 1 (demo_read 0x100) true demo_first); reflexivity|].
    eapply rtc_l; [apply (b_request 10 2 _ _ _ demo_first.1 demo_first.2 2 (demo_read 0x200) false demo_second); reflexivity|]. apply rtc_refl.
  - destruct (H 20 1%positive [] eq_refl) as [H1|(O & _)]; [exact H1|]. exfalso. destruct O as (ev & He & _ & _ & _ & _ & Hs & _). vm_compute in He. injection He as <-. discriminate Hs.
Defined.

Definition refuses (pkt : positive) (ws : World unit * EventQ.State) : option (bool * (World unit * EventQ.State)) := Some (false, ws).

#[export] Instance refuses_upstream : Upstream refuses.
Proof. split. intros w st t pkt l Hc Hl. simpl. by split. Qed.

Definition demo_fire (ws : World unit * EventQ.State) : World unit * EventQ.State :=
  match EventQ.serviceOne (fire 10 takes refuses (fun ws => Some ws)) ws with Some (_, ws) => ws | None => ws end.

(** The first request leaves, its response comes back and is refused, and meanwhile the
    second request stalls, because the room for responses is taken. *)
Definition demo_sent : World unit * EventQ.State := demo_fire demo_first.
Definition demo_back : World unit * EventQ.State := after demo_sent (recvTimingResp 10 2 1 demo_sent).
Definition demo_stalled : World unit * EventQ.State := after demo_back (recvTimingReq 10 2 2 demo_back).
Definition demo_refused : World unit * EventQ.State := demo_fire demo_stalled.

Lemma demo_refused_sound : sound 10 2 demo_refused.1 demo_refused.2.
Proof.
  pose proof (new_sound 10 2 eq_refl demo_bridge demo_events demo_new) as H0.
  assert (forall ws ws', bstep 10 2 takes refuses (fun ws => Some ws) ws ws' -> sound 10 2 ws.1 ws.2 -> sound 10 2 ws'.1 ws'.2) as Hstep.
  { intros ws ws' H. by eapply bstep_sound; [..|apply takes_downstream|apply refuses_upstream|apply quiet_retrier|exact H]. }
  assert (forall ws t e, EventQ.nextTick ws = Some t -> t <= 100 -> EventQ.nextTick ws = Some e -> in_time 10 2 e) as Hin.
  { intros ws t e H1 H2 H3. assert (e = t) as -> by congruence. unfold in_time. lia. }
  assert (sound 10 2 demo_first.1 demo_first.2) as H1.
  { apply (Hstep (demo_bridge, demo_events) demo_first); [|exact H0]. apply (b_request 10 2 _ _ _ demo_bridge demo_events 1 (demo_read 0x100) true demo_first); reflexivity. }
  assert (sound 10 2 demo_sent.1 demo_sent.2) as H2.
  { apply (Hstep demo_first demo_sent); [|exact H1].
    apply (b_fire 10 2 _ _ _ demo_first.1 demo_first.2 2 None demo_sent); [reflexivity|by left| |vm_compute; reflexivity]. intros e. apply (Hin _ 20); [reflexivity|done]. }
  assert (sound 10 2 demo_back.1 demo_back.2) as H3.
  { apply (Hstep demo_sent demo_back); [|exact H2]. apply (b_response 10 2 _ _ _ demo_sent.1 demo_sent.2 1 (demo_read 0x100) true demo_back); vm_compute; reflexivity. }
  assert (sound 10 2 demo_stalled.1 demo_stalled.2) as H4.
  { apply (Hstep demo_back demo_stalled); [|exact H3]. apply (b_request 10 2 _ _ _ demo_back.1 demo_back.2 2 (demo_read 0x200) false demo_stalled); vm_compute; reflexivity. }
  apply (Hstep demo_stalled demo_refused); [|exact H4].
  apply (b_fire 10 2 _ _ _ demo_stalled.1 demo_stalled.2 1 None demo_refused); [reflexivity|by right| |vm_compute; reflexivity]. intros e. apply (Hin _ 40); [reflexivity|done].
Qed.

Lemma stalled_request_enters_witness :
  wp (slave_trySendTiming 10 takes (resend 10 2 2) (demo_refused.1, demo_refused.2)) (fun '(w', _) => m_list (master w') = [(60, 2%positive)]).
Proof.
  pose proof demo_refused_sound as Hs. destruct (so_resp _ _ _ _ Hs) as (a & Ha & _).
  assert (a = None) as ->.
  { destruct a; [|done]. exfalso. destruct Ha as (ev & He & _ & _ & _ & _ & Hx & _). vm_compute in He. injection He as <-. discriminate Hx. }
  eapply wp_mono; [apply (stalled_request_enters 10 2 eq_refl ltac:(done) demo_refused.1 demo_refused.2 40 1 [] 2 (demo_read 0x200) Hs); [vm_compute; reflexivity|exact Ha|vm_compute; reflexivity..]|].
  intros [w' st'] (_ & _ & _ & E). rewrite E. vm_compute. reflexivity.
Defined.
