(* ===== verification/SimpleMem.v ===== *)
(** * SimpleMem: a memory controller with latency and bandwidth

    Translates [gem5-X-TiC-SAT/src/mem/simple_mem.cc] and [simple_mem.hh].  The
    controller is the rest of the world of the memory of [AbstractMem], together with
    the drain manager and what else there is, [X].  The neighbour of its port is a
    parameter.  [duration] stands for the product of a number of bytes and the
    [double] bandwidth, as a number of ticks; [random] draws a number up to its
    argument.  Moving an iterator back from the end of an empty list, for which the C++
    standard has no rule, leaves it at the end, as it does in the library used.  Labels
    of print requests and traces are left out. *)

From stdpp Require Import prelude gmap.
From Stdlib Require Import ZArith Lia.
From S2P Require Import Prelude Machine AddrRange EventQueue Drain Packet Request AbstractMem PacketQueue.

Open Scope Z_scope.

Module SMem.
#[local] Existing Instance Drain.DrainState_eq_dec.

(** [(tick, pkt)] *)
Abbreviation DeferredPacket := (Z * positive)%type.

Record Controller := mkCtl {
  packetQueue : list DeferredPacket;
  isBusy : bool;
  retryReq : bool;
  retryResp : bool;
  releaseEvent : positive;
  dequeueEvent : positive;
  pendingDelete : option positive;
  self : positive
}.

Definition SimpleMemory_new (release_event dequeue_event obj : positive) : Controller :=
  mkCtl [] false false false release_event dequeue_event None obj.

Definition set_queue (l : list DeferredPacket) (c : Controller) : Controller :=
  mkCtl l (isBusy c) (retryReq c) (retryResp c) (releaseEvent c) (dequeueEvent c) (pendingDelete c) (self c).
Definition set_busy (b : bool) (c : Controller) : Controller :=
  mkCtl (packetQueue c) b (retryReq c) (retryResp c) (releaseEvent c) (dequeueEvent c) (pendingDelete c) (self c).
Definition set_retryReq (b : bool) (c : Controller) : Controller :=
  mkCtl (packetQueue c) (isBusy c) b (retryResp c) (releaseEvent c) (dequeueEvent c) (pendingDelete c) (self c).
Definition set_retryResp (b : bool) (c : Controller) : Controller :=
  mkCtl (packetQueue c) (isBusy c) (retryReq c) b (releaseEvent c) (dequeueEvent c) (pendingDelete c) (self c).
Definition set_pending (p : option positive) (c : Controller) : Controller :=
  mkCtl (packetQueue c) (isBusy c) (retryReq c) (retryResp c) (releaseEvent c) (dequeueEvent c) p (self c).

Section World.
Context {X : Type}.

(** What a controller adds to its memory. *)
Record Extra := mkExtra { ctl : Controller; drains : Drain.System; other : X }.

Abbreviation World := (AMem.World Extra).
Abbreviation WS := (World * EventQ.State)%type.

Definition set_ctl (c : Controller) (w : World) : World := AMem.set_rest (mkExtra c (drains (AMem.rest w)) (other (AMem.rest w))) w.
Definition set_drains (d : Drain.System) (w : World) : World := AMem.set_rest (mkExtra (ctl (AMem.rest w)) d (other (AMem.rest w))) w.
Definition set_other (x : X) (w : World) : World := AMem.set_rest (mkExtra (ctl (AMem.rest w)) (drains (AMem.rest w)) x) w.
Definition controller (w : World) : Controller := ctl (AMem.rest w).

Variable globalClearExclusive : Z -> X -> option X.
Definition clear_exclusive (c : Z) (e : Extra) : option Extra :=
  x ← globalClearExclusive c (other e); Some (mkExtra (ctl e) (drains e) x).

Variables latency latency_var : Z.
Variable random : Z -> X -> Z * X.
Variable duration : Z -> Z.

Definition getLatency (w : World) : Z * World :=
  if negb (latency_var =? 0) then let '(r, x) := random latency_var (other (AMem.rest w)) in (uint64 (latency + r), set_other x w)
  else (uint64 (latency + 0), w).

Definition recvAtomic (pkt : positive) (w : World) : option (Z * World) :=
  p ← AMem.packets w !! pkt;
  _ ← assert_ (negb (Pkt.cacheResponding p));
  w ← AMem.access clear_exclusive pkt w;
  Some (getLatency w).

(** The packets of the queue are asked until one of them satisfies the packet. *)
Fixpoint satisfy_queue (l : list DeferredPacket) (pkt : positive) (w : World) : option World :=
  match l with
  | [] => Some w
  | (_, o) :: l =>
      p ← AMem.packets w !! pkt;
      q ← AMem.packets w !! o;
      '(done, p, b) ← Pkt.trySatisfyFunctional q p (AMem.bufs w);
      let w := AMem.set_packet pkt p (AMem.set_bufs b w) in
      if (done : bool) then Some w else satisfy_queue l pkt w
  end.

Definition recvFunctional (pkt : positive) (w : World) : option World :=
  w ← AMem.functionalAccess pkt w; satisfy_queue (packetQueue (controller w)) pkt w.

(** ** Requests *)

(** The search from the end: the index of the entry behind which the packet goes. *)
Fixpoint find_place (l : list DeferredPacket) (when a : Z) (w : World) (i : nat) : option nat :=
  match i with
  | O => Some O
  | S j =>
      '(t, o) ← l !! i;
      if when <? t then
        q ← AMem.packets w !! o;
        b ← Pkt.getAddr q;
        if negb (b =? a) then find_place l when a w j else Some i
      else Some i
  end.

Definition insert_sorted (pkt : positive) (when : Z) (w : World) : option (list DeferredPacket) :=
  let l := packetQueue (controller w) in
  match l with
  | [] => Some [(when, pkt)]
  | _ =>
      p ← AMem.packets w !! pkt;
      a ← Pkt.getAddr p;
      i ← find_place l when a w (length l - 1);
      Some (PQ.emplace (S i) (when, pkt) l)
  end.

Definition back_tick (l : list DeferredPacket) : option Z := fst <$> last l.

(** The response of an accepted request is put in the queue. *)
Definition queue_response (pkt : positive) (receive_delay : Z) (ws : WS) : option WS :=
  let '(w, st) := ws in
  p ← AMem.packets w !! pkt;
  _ ← assert_ (Pkt.isResponse p);
  let '(lat, w) := getLatency w in
  let when_to_send := uint64 (EventQ.curTick st + receive_delay + lat) in
  l ← insert_sorted pkt when_to_send w;
  let w := set_ctl (set_queue l (controller w)) w in
  e ← EventQ.deref (dequeueEvent (controller w)) st;
  if negb (retryResp (controller w)) && negb (EventQ.scheduled e) then
    t ← back_tick l;
    st ← EventQ.schedule false true (dequeueEvent (controller w)) t false st;
    Some (w, st)
  else Some (w, st).

(** A request that is accepted. *)
Definition serve (pkt : positive) (p : Pkt.Packet) (ws : WS) : option WS :=
  let '(w, st) := ws in
  let receive_delay := uint32 (Pkt.headerDelay p + Pkt.payloadDelay p) in
  let p := Pkt.set_delays 0 0 p in
  let w := AMem.set_packet pkt p w in
  n ← Pkt.getSize p;
  let dur := duration n in
  '(w, st) ← (if negb (dur =? 0) then
      st ← EventQ.schedule false true (releaseEvent (controller w)) (uint64 (EventQ.curTick st + dur)) false st;
      Some (set_ctl (set_busy true (controller w)) w, st)
    else Some (w, st));
  let needsResponse := Pkt.needsResponse p in
  '(_, w) ← recvAtomic pkt w;
  if needsResponse then queue_response pkt receive_delay (w, st)
  else Some (set_ctl (set_pending (Some pkt) (controller w)) w, st).

Definition recvTimingReq (pkt : positive) (ws : WS) : option (bool * WS) :=
  let '(w, st) := ws in
  p ← AMem.packets w !! pkt;
  _ ← assert_ (negb (Pkt.cacheResponding p));
  _ ← assert_ (Pkt.isRead p || Pkt.isWrite p);
  if retryReq (controller w) then Some (false, (w, st))
  else if isBusy (controller w) then Some (false, (set_ctl (set_retryReq true (controller w)) w, st))
  else ws ← serve pkt p (w, st); Some (true, ws).

(** ** Events and retries *)

Variable sendTimingResp : positive -> WS -> option (bool * WS).
Variable sendRetryReq : WS -> option WS.

Definition release (ws : WS) : option WS :=
  let '(w, st) := ws in
  _ ← assert_ (isBusy (controller w));
  let w := set_ctl (set_busy false (controller w)) w in
  if retryReq (controller w) then sendRetryReq (set_ctl (set_retryReq false (controller w)) w, st) else Some (w, st).

Definition dequeue (ws : WS) : option WS :=
  let '(w, st) := ws in
  '(_, pkt) ← hd_error (packetQueue (controller w));
  '(ok, (w, st)) ← sendTimingResp pkt (w, st);
  let w := set_ctl (set_retryResp (negb ok) (controller w)) w in
  if (ok : bool) then
    _ ← hd_error (packetQueue (controller w));
    let w := set_ctl (set_queue (tail (packetQueue (controller w))) (controller w)) w in
    match packetQueue (controller w) with
    | (t, _) :: _ =>
        st ← EventQ.reschedule false true (dequeueEvent (controller w)) (Z.max t (EventQ.curTick st)) true st;
        Some (w, st)
    | [] =>
        s ← Drain.drainState (self (controller w)) (drains (AMem.rest w));
        if bool_decide (s = Drain.Draining) then d ← Drain.signalDrainDone (self (controller w)) (drains (AMem.rest w)); Some (set_drains d w, st)
        else Some (w, st)
    end
  else Some (w, st).

Definition recvRespRetry (ws : WS) : option WS := _ ← assert_ (retryResp (controller ws.1)); dequeue ws.

Definition drain (w : World) : Drain.DrainState :=
  match packetQueue (controller w) with [] => Drain.Drained | _ => Drain.Draining end.

Definition getAddrRanges (w : World) : list AddrRange := [AMem.getAddrRange (AMem.mem w)].

(** [init]; the port may be unconnected. *)
Definition init (pageBytes : Z) (connected : bool) (sendRangeChange : World -> option World) (w : World) : option World :=
  _ ← AMem.init pageBytes (AMem.mem w); if connected then sendRangeChange w else Some w.
End World.
#[global] Arguments Extra : clear implicits.
End SMem.
