(* ===== verification/SimpleMemCorrect.v ===== *)
(** * SimpleMemCorrect: the queue and the events of a memory controller

    Where [SimpleMem] puts a response, and the invariant of the controller: it is busy
    exactly while its release event is pending, a master that was told to wait has this
    event to wait for, and what is in the queue of responses is on its way, because
    the dequeue event or a retry is pending. *)

From stdpp Require Import prelude gmap.
From Stdlib Require Import ZArith Lia.
From S2P Require Import Prelude Machine AddrRange EventQueue EventShape EventQueueCorrect EventService SimLoop EventOwner Drain DrainCorrect.
From S2P Require Import Packet PacketTheorems Request AbstractMem AbstractMemCorrect AbstractMemTheorems PacketQueue PacketQueueCorrect.
From S2P Require Import PacketQueueTheorems SimpleMem.
Import SMem.

Open Scope Z_scope.
#[local] Existing Instance Drain.DrainState_eq_dec.
#[local] Arguments Z.add : simpl never.
#[local] Arguments Z.sub : simpl never.
#[local] Arguments Z.max : simpl never.
#[local] Arguments EventQ.schedule : simpl never.
#[local] Arguments EventQ.reschedule : simpl never.
#[local] Arguments AMem.access : simpl never.
#[local] Arguments find_place : simpl never.
#[local] Arguments PQ.find_pos : simpl never.

Section Memory.
Context {X : Type} (clear : Z -> X -> option X) (known : Z -> Prop) (IX : X -> Prop).
Hypothesis Hclear : forall c x, known c -> IX x -> exists x', clear c x = Some x' /\ IX x'.
Context (latency latency_var : Z) (random : Z -> X -> Z * X) (duration : Z -> Z) (longest : Z).
Hypothesis Hrandom : forall x, IX x -> 0 <= (random latency_var x).1 <= latency_var /\ IX (random latency_var x).2.
Hypothesis Hlatency : 0 <= latency /\ 0 <= latency_var.
Hypothesis Hduration : forall n, 0 < n < 2 ^ 31 -> 0 <= duration n <= longest.

Abbreviation Wd := (AMem.World (Extra X)).
Implicit Types (w : Wd) (st : EventQ.State).

(** ** The place of a response *)

(** The queue of the controller as a queue of packets. *)
Definition as_queue w : PQ.World unit :=
  PQ.mkWorld (PQ.PacketQueue_new (dequeueEvent (controller w)) (self (controller w)) false) (AMem.packets w) (AMem.bufs w) (drains (AMem.rest w)) tt.

Lemma find_place_pos l when a p w i : Pkt.getAddr p = Some a -> find_place l when a w i = PQ.find_pos l (as_queue w) when p true i.
Proof.
  intros Ha. induction i as [|i IH]; [done|]. unfold find_place, PQ.find_pos. fold (@find_place X) (@PQ.find_pos unit).
  destruct (l !! S i) as [[t o]|]; [|done]. cbn [mbind option_bind]. destruct (when <? t); [|done].
  unfold PQ.addr_of. simpl. rewrite Ha. destruct (AMem.packets w !! o) as [q|]; [|done]. simpl.
  destruct (Pkt.getAddr q) as [b|]; [|done]. simpl. destruct (b =? a); simpl; [done|apply IH].
Qed.

(** The responses in the queue have addresses. *)
Definition addressed w (l : list DeferredPacket) : Prop := held (as_queue w) l.

Lemma insert_sorted_spec w pkt p a when :
  AMem.packets w !! pkt = Some p -> Pkt.getAddr p = Some a -> addressed w (packetQueue (controller w)) ->
  wp (insert_sorted pkt when w) (placed (as_queue w) when a true (when, pkt) (packetQueue (controller w))).
Proof.
  intros Hp Ha Hh. unfold insert_sorted. destruct (packetQueue (controller w)) as [|f r] eqn:El; [done|].
  rewrite Hp. cbn [mbind option_bind]. rewrite Ha. cbn [mbind option_bind].
  rewrite (find_place_pos _ _ _ p) by done.
  destruct (find_pos_split (as_queue w) when p a true Ha f r Hh) as (i & l1 & l2 & -> & -> & Hem & Hb2 & Hb1).
  cbn [mbind option_bind]. rewrite Hem. simpl. by exists l1, l2.
Qed.

(** ** The invariant *)

(** Room for the times that are computed at tick [now]. *)
Definition in_time (now : Z) : Prop := 0 <= now /\ now + 2 ^ 33 + latency + latency_var < 2 ^ 64 /\ now + longest < 2 ^ 64.

Definition responding (c : Controller) (a : option Z) (now : Z) : Prop :=
  match packetQueue c with
  | [] => a = None /\ retryResp c = false
  | (t, _) :: _ => if retryResp c then a = None /\ t <= now else exists ta, a = Some ta /\ t <= ta
  end.

Record serving w st : Prop := {
  sv_calm : calm st;
  sv_time : in_time (EventQ.curTick st);
  sv_events : releaseEvent (controller w) <> dequeueEvent (controller w);
  sv_release : exists a, owned (releaseEvent (controller w)) a st /\ (isBusy (controller w) = true <-> is_Some a);
  sv_retry : retryReq (controller w) = true -> isBusy (controller w) = true;
  sv_dequeue : exists a, owned (dequeueEvent (controller w)) a st /\ responding (controller w) a (EventQ.curTick st);
  sv_packets : addressed w (packetQueue (controller w));
  sv_drain : counted (drains (AMem.rest w)) /\ self (controller w) ∈ Drain.all_drainable (drains (AMem.rest w));
  sv_other : IX (other (AMem.rest w))
}.

(** ** Latency *)

Lemma getLatency_spec w :
  IX (other (AMem.rest w)) -> exists lat x, getLatency latency latency_var random w = (uint64 lat, set_other x w) /\
    latency <= lat <= latency + latency_var /\ IX x.
Proof.
  intros HI. unfold getLatency. destruct (Z.eqb_spec latency_var 0) as [->|]; simpl.
  - exists (latency + 0), (other (AMem.rest w)). split; [|split; [lia|done]]. by destruct w as [? ? ? ? [? ? ?]].
  - destruct (Hrandom _ HI) as [Hr Hx]. destruct (random latency_var (other (AMem.rest w))) as [r x] eqn:Er. simpl in *.
    exists (latency + r), x. split; [done|]. split; [lia|done].
Qed.

(** ** The access *)

(** The controller and the drain manager are not touched by an access. *)
Definition undisturbed (e0 e : Extra X) : Prop := ctl e = ctl e0 /\ drains e = drains e0 /\ IX (other e).

Lemma clear_undisturbed e0 c e : known c -> undisturbed e0 e -> exists e', clear_exclusive clear c e = Some e' /\ undisturbed e0 e'.
Proof.
  intros Hc (U1 & U2 & U3). destruct (Hclear c _ Hc U3) as (x' & E & Hx'). unfold clear_exclusive. rewrite E. simpl. eexists. split; [done|]. by split.
Qed.

(** The memory behind the controller. *)
Definition holds (h : positive) w (s : MemSpec.State) : Prop := represents known (fun e => IX (other e)) h w s.

Lemma holds_rest h w w' s : holds h w s -> AMem.mem w' = AMem.mem w -> AMem.bufs w' !! h = AMem.bufs w !! h -> IX (other (AMem.rest w')) -> holds h w' s.
Proof. intros [R1 R2 R3 R4 R5 R6] Hm Hb HI. split; rewrite ?Hm, ?Hb; done. Qed.

Lemma access_holds h pkt w s p req d v o :
  holds h w s -> ready known h pkt w p req d v -> operation p req v = Some o -> granted s req o ->
  wp (AMem.access (clear_exclusive clear) pkt w) (fun w' => ctl (AMem.rest w') = ctl (AMem.rest w) /\ drains (AMem.rest w') = drains (AMem.rest w) /\
    holds h w' (MemSpec.step o s).1.1 /\ implements known (fun e => IX (other e)) h pkt w s p d o w').
Proof.
  intros [R1 R2 R3 R4 R5 R6] Hrd Ho Hg.
  assert (represents known (undisturbed (AMem.rest w)) h w s) as Hrep by (by split).
  eapply wp_mono; [by apply (access_implements _ known (undisturbed (AMem.rest w)) (clear_undisturbed (AMem.rest w)) h pkt w s p req d v o)|].
  intros w' [[Q1 Q2 Q3 Q4 Q5 (U1 & U2 & U3)] I2 I3 I4 I5 I6]. do 2 (split; [done|]). split; split; done.
Qed.

(** ** Requests *)

Lemma addressed_ext w w' l :
  (forall o, PQ.addr_of o (as_queue w') = PQ.addr_of o (as_queue w)) -> addressed w l -> addressed w' l.
Proof. intros He. unfold addressed, held. intros H. eapply Forall_impl; [exact H|]. intros d. by rewrite He. Qed.

Lemma placed_ext w w' when a x l l' :
  (forall o, PQ.addr_of o (as_queue w') = PQ.addr_of o (as_queue w)) -> placed (as_queue w) when a true x l l' -> placed (as_queue w') when a true x l l'.
Proof.
  intros He. assert (forall d, blocks (as_queue w') when a true d = blocks (as_queue w) when a true d) as Hb by (intros d; unfold blocks; by rewrite He).
  destruct l as [|f r]; simpl; [done|]. intros (l1 & l2 & -> & -> & H2 & H1). exists l1, l2. do 2 (split; [done|]). split.
  - eapply Forall_impl; [exact H2|]. intros d. by rewrite Hb.
  - intros l0 d E. rewrite Hb. by apply (H1 l0).
Qed.

(** The invariant depends on the controller, the drain manager and the addresses of the packets. *)
Lemma serving_ext w w' st :
  serving w st -> ctl (AMem.rest w') = ctl (AMem.rest w) -> drains (AMem.rest w') = drains (AMem.rest w) -> IX (other (AMem.rest w')) ->
  (forall o, PQ.addr_of o (as_queue w') = PQ.addr_of o (as_queue w)) -> serving w' st.
Proof.
  intros [S1 S2 S3 S4 S5 S6 S7 S8 S9] Hc Hd HI Ha. unfold controller in *. split; unfold controller; rewrite ?Hc, ?Hd; try done.
  by apply (addressed_ext w).
Qed.

Lemma set_ctl_id w c : c = controller w -> set_ctl c w = w.
Proof. intros ->. by destruct w as [? ? ? ? [? ? ?]]. Qed.

Lemma begin_service w st dur :
  serving w st -> isBusy (controller w) = false -> 0 <= dur <= longest ->
  wp (if negb (dur =? 0) then
        st ← EventQ.schedule false true (releaseEvent (controller w)) (uint64 (EventQ.curTick st + dur)) false st;
        Some (set_ctl (set_busy true (controller w)) w, st)
      else Some (w, st))
     (fun '(w', st') => serving w' st' /\ EventQ.curTick st' = EventQ.curTick st /\ w' = set_ctl (set_busy (negb (dur =? 0)) (controller w)) w).
Proof.
  intros Hs Hb Hd. pose proof Hs as [S1 S2 S3 (a & S4 & S4') S5 (a' & S6 & S6') S7 S8 S9]. destruct (Z.eqb_spec dur 0) as [|Hn]; simpl.
  - split; [done|]. split; [done|]. symmetry. apply set_ctl_id. destruct (controller w) as [? b ? ? ? ? ? ?]. simpl in *. by subst b.
  - assert (a = None) as -> by (destruct a; [by rewrite (proj2 S4' ltac:(eauto)) in Hb|done]).
    unfold uint64. destruct S2 as (T1 & T2 & T3). rewrite wrapU_small by lia. apply wp_bind.
    eapply wp_mono; [apply (schedule_owned _ (EventQ.curTick st + dur) st S1 S4); lia|]. intros st' (R1 & R2 & R3). pose proof (proj1 R3) as Ht. simpl.
    split; [|by rewrite Ht]. split; simpl; rewrite ?Ht; try done.
    + eexists. split; [exact R2|]. split; eauto.
    + exists a'. split; [|done]. by apply (owned_others _ (releaseEvent (controller w)) _ st).
Qed.

(** A response has been put in the queue: the event is called for when nothing else is. *)
Lemma call_dequeue w0 (W : PQ.World unit) c st e ev when a pkt l' :
  calm st -> owned (dequeueEvent c) e st -> EventQ.heap st !! dequeueEvent c = Some ev -> responding c e (EventQ.curTick st) ->
  EventQ.curTick st <= when -> placed W when a true (when, pkt) (packetQueue c) l' ->
  wp (if negb (retryResp c) && negb (EventQ.scheduled ev)
      then t ← back_tick l'; st ← EventQ.schedule false true (dequeueEvent c) t false st; Some (w0, st) else Some (w0, st))
     (fun '(w', st') => w' = w0 /\ calm st' /\ others (dequeueEvent c) st st' /\
       exists e', owned (dequeueEvent c) e' st' /\ responding (set_queue l' c) e' (EventQ.curTick st)).
Proof.
  intros Hc He Hev Hr Hw Hl. pose proof He as (ev' & He' & _ & _ & _ & _ & Hsc & _). assert (ev' = ev) as -> by congruence. rewrite Hsc.
  unfold responding in *. destruct (packetQueue c) as [|[t0 p0] r]; simpl in Hl.
  - subst l'. destruct Hr as [-> Er]. rewrite Er. simpl. apply wp_bind. eapply wp_mono; [by apply schedule_owned|]. intros st' (R1 & R2 & R3). simpl. rewrite Er.
    do 3 (split; [done|]). exists (Some when). split; [done|]. exists when. split; [done|lia].
  - destruct Hl as (l1 & l2 & -> & -> & _). simpl. destruct (retryResp c) eqn:Er; simpl.
    + do 2 (split; [done|]). split; [by split|]. by exists e.
    + destruct Hr as (ta & -> & Ht). simpl. do 2 (split; [done|]). split; [by split|]. exists (Some ta). split; [done|]. by exists ta.
Qed.

(** The time a response is due at. *)
Definition due_at (now delay when : Z) : Prop := now + delay + latency <= when <= now + delay + latency + latency_var.

Lemma queue_response_spec w st pkt q a delay :
  serving w st -> AMem.packets w !! pkt = Some q -> Pkt.isResponse q = true -> Pkt.getAddr q = Some a -> 0 <= delay < 2 ^ 32 ->
  wp (queue_response latency latency_var random pkt delay (w, st)) (fun '(w', st') => serving w' st' /\ EventQ.curTick st' = EventQ.curTick st /\
    exists when x l', due_at (EventQ.curTick st) delay when /\ IX x /\ w' = set_ctl (set_queue l' (controller w)) (set_other x w) /\
      placed (as_queue w) when a true (when, pkt) (packetQueue (controller w)) l').
Proof.
  intros Hs Hp Hr Ha Hd. unfold queue_response. rewrite Hp. cbn [mbind option_bind]. rewrite Hr. cbn [assert_ mbind option_bind].
  pose proof Hs as [S1 (T1 & T2 & T3) S3 S4 S5 (e & S6 & S6') S7 S8 S9].
  destruct (getLatency_spec w S9) as (lat & x & -> & Hlat & Hx). unfold uint64. rewrite (wrapU_small 64 lat), wrapU_small by lia.
  set (when := EventQ.curTick st + delay + lat). apply wp_bind.
  eapply wp_mono; [by apply (insert_sorted_spec (set_other x w) pkt q a when)|]. intros l' Hl'. change (controller (set_other x w)) with (controller w) in *.
  assert (addressed w l') as Hadr.
  { unfold addressed, held. rewrite (placed_perm _ _ _ _ _ _ _ Hl'). constructor; [|done]. unfold PQ.addr_of. simpl. rewrite Hp. simpl. by rewrite Ha. }
  assert (due_at (EventQ.curTick st) delay when) as Hwhen by (unfold due_at, when; lia).
  pose proof S6 as (ev & He & _). set (w0 := set_ctl _ _). change (dequeueEvent (controller w0)) with (dequeueEvent (controller w)).
  change (retryResp (controller w0)) with (retryResp (controller w)). unfold EventQ.deref. rewrite He. cbn [mbind option_bind].
  eapply wp_mono; [apply (call_dequeue w0 (as_queue w) (controller w) st e ev when a pkt l' S1 S6 He S6'); [unfold when; lia|exact Hl']|].
  intros [w' st'] (-> & C1 & C2 & e' & C3 & C4). pose proof (proj1 C2) as Ht. split; [|rewrite Ht; split; [done|by exists when, x, l']].
  split; simpl; rewrite ?Ht; try done.
  - destruct S4 as (r & Hr1 & Hr2). exists r. split; [|done]. apply (owned_others _ (dequeueEvent (controller w)) _ st); [done|done|done].
  - by exists e'.
Qed.

(** The packet of an accepted request, when it has been dealt with. *)
Definition answered (p : Pkt.Packet) : Pkt.Packet := default p (Pkt.makeResponse p).

Lemma answered_spec p :
  Pkt.getAddr (answered p) = Pkt.getAddr p /\ (Pkt.needsResponse p = true -> Pkt.isResponse (answered p) = true) /\
  (Pkt.needsResponse p = false -> answered p = p).
Proof.
  unfold answered. destruct (make_response p) as [H1 H2]. destruct (Pkt.makeResponse p) as [q|] eqn:E; simpl.
  - destruct (H2 q eq_refl) as (_ & Hr & _). split; [|split; [done|]].
    + unfold Pkt.makeResponse in E. apply bind_Some in E as (? & _ & (? & _ & [= <-])%bind_Some). unfold Pkt.getAddr. simpl. by rewrite isSet_clear_other.
    + intros Hn. rewrite (proj1 H1) in Hn by eauto. done.
  - split; [done|]. split; [|done]. intros Hn. by destruct (proj2 H1 Hn).
Qed.

Lemma operation_delays p req v : operation (Pkt.set_delays 0 0 p) req v = operation p req v.
Proof. done. Qed.

Lemma ready_delays h pkt w w' p req d v :
  ready known h pkt w p req d v -> AMem.packets w' = <[pkt := Pkt.set_delays 0 0 p]> (AMem.packets w) -> AMem.requests w' = AMem.requests w ->
  AMem.bufs w' = AMem.bufs w -> AMem.mem w' = AMem.mem w -> ready known h pkt w' (Pkt.set_delays 0 0 p) req d v.
Proof.
  intros [R1 R2 R3 R4 R5 R6 R7 R8 R9] Hp Hr Hb Hm. split; rewrite ?Hr, ?Hb, ?Hm; try done; [rewrite Hp; apply lookup_insert_eq|].
  by destruct R3; split.
Qed.

Lemma addr_of_insert pkt q p w w' :
  AMem.packets w !! pkt = Some p -> AMem.packets w' = <[pkt := q]> (AMem.packets w) -> Pkt.getAddr q = Pkt.getAddr p ->
  forall o, PQ.addr_of o (as_queue w') = PQ.addr_of o (as_queue w).
Proof.
  intros Hp Hw Ha o. unfold PQ.addr_of. simpl. rewrite Hw. destruct (decide (o = pkt)) as [->|]; [|by rewrite lookup_insert_ne].
  rewrite lookup_insert_eq, Hp. done.
Qed.

(** The controller as an object. *)
Definition same_controller w w' : Prop :=
  releaseEvent (controller w') = releaseEvent (controller w) /\ dequeueEvent (controller w') = dequeueEvent (controller w).

(** What an accepted request leaves. *)
Record taken (h pkt : positive) w st (s : MemSpec.State) (p : Pkt.Packet) (d : positive) (o : MemSpec.Op) w' : Prop := {
  tk_memory : holds h w' (MemSpec.step o s).1.1;
  tk_bytes : AMem.bufs w' !! d = Some (MemSpec.step o s).1.2;
  tk_result : forall b, (MemSpec.step o s).2 = Some b ->
    exists q, AMem.requests w' !! Pkt.req p = Some q /\ Req.getExtraData q = Some (if (b : bool) then 1 else 0);
  tk_packets : AMem.packets w' = <[pkt := answered (Pkt.set_delays 0 0 p)]> (AMem.packets w);
  tk_object : same_controller w w';
  tk_retry : retryReq (controller w') = retryReq (controller w);
  tk_busy : isBusy (controller w') = negb (duration (Pkt.size p) =? 0);
  tk_queue : if Pkt.needsResponse p
    then exists when, due_at (EventQ.curTick st) (uint32 (Pkt.headerDelay p + Pkt.payloadDelay p)) when /\
      placed (as_queue w) when (Pkt.addr p) true (when, pkt) (packetQueue (controller w)) (packetQueue (controller w'))
    else packetQueue (controller w') = packetQueue (controller w) /\ pendingDelete (controller w') = Some pkt
}.

Lemma taken_time h pkt w st st' s p d o w' : EventQ.curTick st' = EventQ.curTick st -> taken h pkt w st s p d o w' -> taken h pkt w st' s p d o w'.
Proof. intros Ht [T1 T2 T3 T4 T5 T6 T7 T8]. split; try done. by rewrite Ht. Qed.

(** [recvAtomic], for a packet that is ready. *)
Lemma memory_atomic_spec h pkt w s p req d v o :
  holds h w s -> ready known h pkt w p req d v -> operation p req v = Some o -> granted s req o ->
  wp (recvAtomic clear latency latency_var random pkt w) (fun '(_, w') => ctl (AMem.rest w') = ctl (AMem.rest w) /\
    drains (AMem.rest w') = drains (AMem.rest w) /\ IX (other (AMem.rest w')) /\ holds h w' (MemSpec.step o s).1.1 /\
    AMem.bufs w' !! d = Some (MemSpec.step o s).1.2 /\ AMem.packets w' = <[pkt := answered p]> (AMem.packets w) /\
    forall b, (MemSpec.step o s).2 = Some b ->
      exists q, AMem.requests w' !! Pkt.req p = Some q /\ Req.getExtraData q = Some (if (b : bool) then 1 else 0)).
Proof.
  intros Hh Hrd Ho Hg. unfold recvAtomic. rewrite (rd_packet _ _ _ _ _ _ _ _ Hrd). cbn [mbind option_bind].
  rewrite (rd_cache _ _ _ _ _ _ _ _ Hrd). cbn [negb assert_ mbind option_bind]. apply wp_bind.
  eapply wp_mono; [by apply (access_holds h pkt w s p req d v o)|]. intros w1 (A1 & A2 & A3 & [I1 I2 I3 I4 I5 I6]).
  destruct (getLatency_spec w1 (rp_rest _ _ _ _ _ A3)) as (lat & x & -> & _ & Hx). simpl. do 3 (split; [done|]).
  split; [by apply (holds_rest h w1)|]. split; [done|]. split; [|done]. rewrite I3. unfold turned_round, answered.
  destruct (Pkt.makeResponse p); simpl; [done|]. symmetry. apply insert_id. by apply Hrd.
Qed.

Lemma serve_spec h pkt w st s p req d v o :
  serving w st -> isBusy (controller w) = false -> holds h w s -> ready known h pkt w p req d v -> operation p req v = Some o -> granted s req o ->
  wp (serve clear latency latency_var random duration pkt p (w, st)) (fun '(w', st') =>
    serving w' st' /\ EventQ.curTick st' = EventQ.curTick st /\ taken h pkt w st s p d o w').
Proof.
  intros Hs Hb Hh Hrd Ho Hg. pose proof (rd_data _ _ _ _ _ _ _ _ Hrd) as Hac. pose proof (rd_packet _ _ _ _ _ _ _ _ Hrd) as Hp.
  unfold serve. set (p1 := Pkt.set_delays 0 0 p). set (w1 := AMem.set_packet pkt p1 w).
  assert (Pkt.getSize p1 = Some (Pkt.size p)) as -> by (unfold Pkt.getSize; simpl; by rewrite (ac_size _ _ _ _ Hac)). cbn [mbind option_bind].
  assert (forall o, PQ.addr_of o (as_queue w1) = PQ.addr_of o (as_queue w)) as Ea by (by apply (addr_of_insert pkt p1 p)).
  apply wp_bind. eapply wp_mono; [apply (begin_service w1 st (duration (Pkt.size p))); [by apply (serving_ext w); try done; apply Hs|done|apply Hduration, (ac_pos _ _ _ _ Hac)]|].
  intros [w2 st2] (Hs2 & Ht2 & E2). apply wp_bind. eapply wp_mono.
  { apply (memory_atomic_spec h pkt w2 s p1 req d v o); [|by apply (ready_delays h pkt w); subst w2|done|done]. apply (holds_rest h w); subst w2; try done. apply Hs. }
  intros [t w3] (C1 & C2 & C3 & C4 & C5 & C6 & C7).
  assert (AMem.packets w2 = <[pkt := p1]> (AMem.packets w)) as E2p by (by subst w2).
  assert (forall o, PQ.addr_of o (as_queue w3) = PQ.addr_of o (as_queue w2)) as Ea3.
  { apply (addr_of_insert pkt (answered p1) p1); [rewrite E2p; apply lookup_insert_eq|done|apply answered_spec]. }
  assert (forall o, PQ.addr_of o (as_queue w2) = PQ.addr_of o (as_queue w)) as Ea2 by (by apply (addr_of_insert pkt p1 p)).
  assert (serving w3 st2) as Hs3 by (by apply (serving_ext w2)).
  assert (AMem.packets w3 = <[pkt := answered p1]> (AMem.packets w)) as E3p by (by rewrite C6, E2p, insert_insert_eq).
  assert (controller w3 = set_busy (negb (duration (Pkt.size p) =? 0)) (controller w)) as E3c by (unfold controller; rewrite C1; by subst w2).
  destruct (answered_spec p1) as (Aa & Ar & _). destruct (Pkt.needsResponse p1) eqn:En.
  - eapply wp_mono; [apply (queue_response_spec w3 st2 pkt (answered p1) (Pkt.addr p) _ Hs3)|].
    + rewrite E3p. apply lookup_insert_eq.
    + by apply Ar.
    + rewrite Aa. unfold Pkt.getAddr. simpl. by rewrite (ac_addr _ _ _ _ Hac).
    + apply (wrapU_range 32). lia.
    + intros [w4 st4] (Hs4 & Ht4 & when & x & l' & Hd & Hx & E4 & Hpl). split; [done|]. split; [by rewrite Ht4|]. subst w4. split; try done.
      * by apply (holds_rest h w3).
      * unfold same_controller, controller at 1 3. simpl. by rewrite E3c.
      * unfold controller at 1. simpl. by rewrite E3c.
      * unfold controller at 1. simpl. by rewrite E3c.
      * change (Pkt.needsResponse p) with (Pkt.needsResponse p1). rewrite En. exists when. rewrite Ht2 in Hd. split; [done|]. unfold controller at 2. simpl.
        rewrite E3c in Hpl. apply (placed_ext w3); [|done]. intros x0. by rewrite Ea3, Ea2.
  - simpl. split; [|split; [done|]].
    + destruct Hs3 as [S1 S2 S3 S4 S5 S6 S7 S8 S9]. by split.
    + split; try done; simpl.
      * by apply (holds_rest h w3).
      * unfold same_controller, controller at 1 3. simpl. by rewrite E3c.
      * by rewrite E3c.
      * by rewrite E3c.
      * change (Pkt.needsResponse p) with (Pkt.needsResponse p1). rewrite En. by rewrite E3c.
Qed.

Lemma memory_timing_spec h pkt w st s p req d v o :
  serving w st -> holds h w s -> ready known h pkt w p req d v -> operation p req v = Some o -> granted s req o -> Pkt.isRead p || Pkt.isWrite p = true ->
  wp (recvTimingReq clear latency latency_var random duration pkt (w, st)) (fun '(ok, (w', st')) =>
    serving w' st' /\ EventQ.curTick st' = EventQ.curTick st /\ ok = negb (isBusy (controller w)) /\
    if (ok : bool) then taken h pkt w st s p d o w' else w' = set_ctl (set_retryReq true (controller w)) w /\ st' = st).
Proof.
  intros Hs Hh Hrd Ho Hg Hrw. unfold recvTimingReq. rewrite (rd_packet _ _ _ _ _ _ _ _ Hrd). cbn [mbind option_bind].
  rewrite (rd_cache _ _ _ _ _ _ _ _ Hrd), Hrw. cbn [negb assert_ mbind option_bind]. pose proof (sv_retry _ _ Hs) as Hr.
  destruct (retryReq (controller w)) eqn:Er.
  { rewrite (Hr eq_refl). simpl. do 3 (split; [done|]). split; [|done]. symmetry. apply set_ctl_id. destruct (controller w) as [? ? r ? ? ? ? ?]. simpl in *. by subst r. }
  destruct (isBusy (controller w)) eqn:Eb; simpl.
  - split; [|done]. destruct Hs as [S1 S2 S3 S4 S5 S6 S7 S8 S9]. by split.
  - apply wp_bind. eapply wp_mono; [by apply (serve_spec h pkt w st s p req d v o)|]. intros [w' st'] (R1 & R2 & R3). simpl. done.
Qed.
End Memory.
