(* ===== verification/SimpleMemTheorems.v ===== *)
(** * SimpleMemTheorems: what a memory controller promises

    An idle controller performs the access of a request at once and queues its response
    in order; a busy one tells the master to try again, and does so when its release
    event comes; no response is forgotten; and, as the code has it, a functional read
    may return bytes that a queued response holds and the memory no longer does. *)

From stdpp Require Import prelude gmap.
From Stdlib Require Import ZArith Lia.
From S2P Require Import Prelude Machine AddrRange EventQueue EventShape EventQueueCorrect EventService SimLoop EventOwner Drain DrainCorrect.
From S2P Require Import DrainTheorems Packet PacketTheorems Request AbstractMem AbstractMemCorrect AbstractMemTheorems PacketQueue.
From S2P Require Import PacketQueueCorrect PacketQueueTheorems SimpleMem SimpleMemCorrect.
Import SMem.

Open Scope Z_scope.
#[local] Existing Instance Drain.DrainState_eq_dec.
#[local] Arguments Z.add : simpl never.
#[local] Arguments Z.sub : simpl never.
#[local] Arguments Z.max : simpl never.
#[local] Arguments EventQ.schedule : simpl never.
#[local] Arguments EventQ.reschedule : simpl never.
#[local] Arguments EventQ.serviceOne : simpl never.
#[local] Arguments recvTimingReq : simpl never.
#[local] Arguments dequeue : simpl never.
#[local] Arguments release : simpl never.

Section Memory.
Context {X : Type} (clear : Z -> X -> option X) (known : Z -> Prop) (IX : X -> Prop).
Hypothesis Hclear : forall c x, known c -> IX x -> exists x', clear c x = Some x' /\ IX x'.
Context (latency latency_var : Z) (random : Z -> X -> Z * X) (duration : Z -> Z) (longest : Z).
Hypothesis Hrandom : forall x, IX x -> 0 <= (random latency_var x).1 <= latency_var /\ IX (random latency_var x).2.
Hypothesis Hlatency : 0 <= latency /\ 0 <= latency_var.
Hypothesis Hduration : forall n, 0 < n < 2 ^ 31 -> 0 <= duration n <= longest.

Abbreviation Wd := (AMem.World (Extra X)).
Abbreviation serving := (serving IX latency latency_var longest).
Abbreviation holds := (holds known IX).
Abbreviation taken := (taken known IX latency latency_var duration).
Abbreviation request := (recvTimingReq clear latency latency_var random duration).
Implicit Types (w : Wd) (st : EventQ.State).

(** C27: requests.  A request for an operation the memory supports is refused exactly when the
    controller is busy; a refusal is remembered and changes nothing else.  An accepted
    request is performed at once: the memory moves to the specified next state, the
    packet holds the specified bytes and is a response if one is needed, without delays.
    The response is due after the delays the packet brought and the latency; it goes
    behind all responses for its address and never in front of the first one of the
    queue, and the responses that were there keep their order.  The controller is busy
    afterwards exactly when the transfer takes time. *)
Theorem memory_request h pkt w st s p req d v o :
  serving w st -> holds h w s -> ready known h pkt w p req d v -> operation p req v = Some o -> granted s req o -> Pkt.isRead p || Pkt.isWrite p = true ->
  wp (request pkt (w, st)) (fun '(ok, (w', st')) => serving w' st' /\ EventQ.curTick st' = EventQ.curTick st /\
    (ok = true <-> isBusy (controller w) = false) /\
    (ok = false -> w' = set_ctl (set_retryReq true (controller w)) w /\ st' = st) /\
    (ok = true -> taken h pkt w st s p d o w' /\
      let l := packetQueue (controller w) in let l' := packetQueue (controller w') in
      (Pkt.needsResponse p = true -> exists when l1 l2, l = l1 ++ l2 /\ l' = l1 ++ (when, pkt) :: l2 /\ (l1 = [] -> l = []) /\
        due_at latency latency_var (EventQ.curTick st) (uint32 (Pkt.headerDelay p + Pkt.payloadDelay p)) when /\
        to_addr (as_queue w) (Pkt.addr p) l' = to_addr (as_queue w) (Pkt.addr p) l ++ [(when, pkt)]))).
Proof.
  intros Hs Hh Hrd Ho Hg Hrw. eapply wp_mono; [by apply (memory_timing_spec clear known IX Hclear latency latency_var random duration longest Hrandom Hlatency Hduration h pkt w st s p req d v o)|].
  intros [ok [w' st']] (R1 & R2 & R3 & R4). split; [done|]. split; [done|]. split; [rewrite R3; by destruct (isBusy (controller w))|].
  destruct ok; [|done]. split; [done|]. intros _. split; [done|]. simpl. intros Hn. pose proof (tk_queue _ _ _ _ _ _ _ _ _ _ _ _ _ _ R4) as Hq. rewrite Hn in Hq.
  destruct Hq as (when & Hdue & Hpl).
  assert (to_addr (as_queue w) (Pkt.addr p) (packetQueue (controller w')) = to_addr (as_queue w) (Pkt.addr p) (packetQueue (controller w)) ++ [(when, pkt)]) as Hto.
  { apply (placed_fifo (as_queue w) when); [|done]. unfold PQ.addr_of. simpl. rewrite (rd_packet _ _ _ _ _ _ _ _ Hrd). simpl. unfold Pkt.getAddr.
    by rewrite (ac_addr _ _ _ _ (rd_data _ _ _ _ _ _ _ _ Hrd)). }
  exists when. destruct (packetQueue (controller w)) as [|f r]; simpl in Hpl.
  - exists [], []. by rewrite Hpl in *.
  - destruct Hpl as (l1 & l2 & -> & E & _). exists (f :: l1), l2. rewrite E in *. by split_and!.
Qed.

(** ** Events and retries *)

(** The controller is left alone, and so are the packets of [l] and the memory. *)
Record left_alone (l : list DeferredPacket) w st w' st' : Prop := {
  la_ctl : controller w' = controller w;
  la_mem : AMem.mem w' = AMem.mem w;
  la_bytes : forall h, AMem.pmemAddr (AMem.mem w) = Some h -> AMem.bufs w' !! h = AMem.bufs w !! h;
  la_drain : counted (drains (AMem.rest w')) /\ self (controller w) ∈ Drain.all_drainable (drains (AMem.rest w'));
  la_other : IX (other (AMem.rest w'));
  la_packets : addressed w' l;
  la_calm : calm st';
  la_events : forall e, e = releaseEvent (controller w) \/ e = dequeueEvent (controller w) -> data <$> EventQ.heap st' !! e = data <$> EventQ.heap st !! e
}.

(** What the neighbour must respect: it leaves the controller alone while it is given a
    response; told to try again, it may send requests. *)
Class Requester (sendTimingResp : positive -> Wd * EventQ.State -> option (bool * (Wd * EventQ.State))) : Prop := {
  requester_ok w st t pkt l : calm st -> packetQueue (controller w) = (t, pkt) :: l ->
    counted (drains (AMem.rest w)) /\ self (controller w) ∈ Drain.all_drainable (drains (AMem.rest w)) -> IX (other (AMem.rest w)) -> addressed w ((t, pkt) :: l) ->
    wp (sendTimingResp pkt (w, st)) (fun '(ok, (w', st')) =>
      left_alone (if (ok : bool) then l else packetQueue (controller w)) w st w' st' /\ EventQ.curTick st' = EventQ.curTick st)
}.
Class Resender (sendRetryReq : Wd * EventQ.State -> option (Wd * EventQ.State)) : Prop := {
  resender_ok w st : serving w st -> isBusy (controller w) = false -> retryReq (controller w) = false ->
    wp (sendRetryReq (w, st)) (fun '(w', st') => serving w' st' /\ EventQ.curTick st' = EventQ.curTick st /\ same_controller w w' /\
      forall h s, holds h w s -> exists s', holds h w' s')
}.

Lemma holds_left_alone l h w st w' st' s : left_alone l w st w' st' -> holds h w s -> holds h w' s.
Proof. intros [A1 A2 A3 A4 A5 A6 A7 A8] Hh. apply (holds_rest known IX h w); [done|done|apply A3, Hh|done]. Qed.

Section Steps.
Context (sendTimingResp : positive -> Wd * EventQ.State -> option (bool * (Wd * EventQ.State))).
Context (sendRetryReq : Wd * EventQ.State -> option (Wd * EventQ.State)).
Context {HQ : Requester sendTimingResp} {HR : Resender sendRetryReq}.

(** The controller while its first response is refused. *)
Definition stalled w : Wd := set_ctl (set_retryResp true (controller w)) w.

(** The next response is waited for, or the controller reports that it has drained. *)
Lemma after_response w st w1 st1 t p l :
  serving (stalled w) st -> packetQueue (controller w) = (t, p) :: l -> left_alone l w st w1 st1 -> EventQ.curTick st1 = EventQ.curTick st ->
  let w2 := set_ctl (set_queue l (set_retryResp false (controller w))) w1 in
  wp (match l with
      | (t, _) :: _ => st ← EventQ.reschedule false true (dequeueEvent (controller w)) (Z.max t (EventQ.curTick st1)) true st1; Some (w2, st)
      | [] =>
          s ← Drain.drainState (self (controller w)) (drains (AMem.rest w2));
          if bool_decide (s = Drain.Draining) then d ← Drain.signalDrainDone (self (controller w)) (drains (AMem.rest w2)); Some (set_drains d w2, st1)
          else Some (w2, st1)
      end) (fun '(w', st') => serving w' st' /\ EventQ.curTick st' = EventQ.curTick st /\ controller w' = controller w2 /\
        (forall h s, holds h w s -> holds h w' s)).
Proof.
  intros [S1 S2 S3 (r & S4 & S4') S5 (a & S6 & S6') S7 S8 S9] Hl A Ht w2. pose proof A as [A1 A2 A3 A4 A5 A6 A7 A8].
  assert (forall h s, holds h w s -> holds h w2 s) as Hh.
  { intros h s Hh. apply (holds_rest known IX h w1); [by apply (holds_left_alone l h w st w1 st1)|done|done|done]. }
  assert (owned (releaseEvent (controller w)) r st1) as Hrel by (apply (owned_data _ _ st); [apply A8; by left|done]).
  assert (owned (dequeueEvent (controller w)) None st1) as Hdeq.
  { unfold responding in S6'. simpl in S6'. rewrite Hl in S6'. destruct S6' as [-> _]. apply (owned_data _ _ st); [apply A8; by right|done]. }
  assert (forall st2 a2 d2, calm st2 -> EventQ.curTick st2 = EventQ.curTick st -> owned (releaseEvent (controller w)) r st2 ->
    owned (dequeueEvent (controller w)) a2 st2 -> responding (controller w2) a2 (EventQ.curTick st) ->
    counted d2 -> self (controller w) ∈ Drain.all_drainable d2 -> serving (set_drains d2 w2) st2) as Hmk.
  { intros st2 a2 d2 M1 M2 M3 M4 M5 M6 M7. split; simpl; rewrite ?M2; try done; [by exists r|by exists a2]. }
  destruct l as [|[t2 p2] l].
  - destruct A4 as [D1 D2]. destruct (proj1 (lv_all _ (ct_live _ D1) _) D2) as [s Hds]. unfold Drain.drainState. simpl. rewrite Hds. cbn [mbind option_bind].
    case_bool_decide.
    + apply wp_bind. eapply wp_mono; [apply (signal_counted _ _ D1 D2)|]. intros d (C1 & C2 & _). simpl. split; [|split; [done|split; [done|]]].
      2: { intros h s0 H0. apply (holds_rest known IX h w2); [by apply Hh|done..]. }
      apply (Hmk st1 None); try done. by rewrite C2.
    + simpl. split; [|split; [done|by split]]. by apply (Hmk st1 None (drains (AMem.rest w2))).
  - apply wp_bind. eapply wp_mono; [apply (reschedule_owned _ None _ st1 A7 Hdeq); lia|]. intros st2 (R1 & R2 & R3). simpl. pose proof (proj1 R3) as Ht2.
    split; [|split; [by rewrite Ht2|by split]]. apply (Hmk st2 (Some (Z.max t2 (EventQ.curTick st1))) (drains (AMem.rest w2))); try done.
    + by rewrite Ht2.
    + by apply (owned_others _ (dequeueEvent (controller w)) _ st1).
    + unfold responding. simpl. eexists. split; [done|]. lia.
    + apply A4.
    + apply A4.
Qed.

Lemma dequeue_spec w st t p l :
  serving (stalled w) st -> packetQueue (controller w) = (t, p) :: l ->
  wp (dequeue sendTimingResp (w, st)) (fun '(w', st') => serving w' st' /\ EventQ.curTick st' = EventQ.curTick st /\ same_controller w w' /\
    (packetQueue (controller w') = l \/ retryResp (controller w') = true /\ packetQueue (controller w') = (t, p) :: l) /\ forall h s, holds h w s -> holds h w' s).
Proof.
  intros Hs Hl. unfold dequeue. rewrite Hl. cbn [hd_error mbind option_bind]. pose proof Hs as [S1 S2 S3 S4 S5 S6 S7 S8 S9].
  change (controller (stalled w)) with (set_retryResp true (controller w)) in *. change (packetQueue (set_retryResp true (controller w))) with (packetQueue (controller w)) in *. rewrite Hl in S7.
  apply wp_bind. eapply wp_mono; [by apply (requester_ok w st t p l)|]. intros [ok [w1 st1]] [A Ht].
  pose proof A as [A1 A2 A3 A4 A5 A6 A7 A8]. rewrite A1. destruct ok; simpl.
  - change (controller (set_ctl ?c w1)) with c. simpl. rewrite Hl. simpl.
    change (AMem.set_rest _ (AMem.set_rest _ w1)) with (set_ctl (set_queue l (set_retryResp false (controller w))) w1).
    eapply wp_mono; [exact (after_response w st w1 st1 t p l Hs Hl A Ht)|]. intros [w' st'] (R1 & R2 & R3 & R4). split; [done|]. split; [done|].
    unfold same_controller. rewrite R3. split; [done|]. split; [by left|done].
  - split; [|split; [done|split; [done|split; [right; by rewrite <- Hl|]]]].
    + destruct S4 as (r & S4 & S4'), S6 as (a & S6 & S6'). split; simpl; rewrite ?Ht; try done.
      * exists r. split; [apply (owned_data _ _ st); [apply A8; by left|done]|done].
      * exists a. split; [apply (owned_data _ _ st); [apply A8; by right|done]|done].
    + intros h s Hh. apply (holds_rest known IX h w1); [by apply (holds_left_alone (packetQueue (controller w)) h w st w1 st1)|done|done|done].
Qed.

(** The controller when its release event has come and nobody is told yet. *)
Definition relaxed w : Wd := set_ctl (set_retryReq false (set_busy false (controller w))) w.

Lemma controller_release_spec w st :
  serving (relaxed w) st -> isBusy (controller w) = true ->
  wp (release sendRetryReq (w, st)) (fun '(w', st') => serving w' st' /\ EventQ.curTick st' = EventQ.curTick st /\ same_controller w w' /\
    forall h s, holds h w s -> exists s', holds h w' s').
Proof.
  intros Hs Hb. unfold release. rewrite Hb. cbn [assert_ mbind option_bind].
  assert (forall h s, holds h w s -> holds h (relaxed w) s) as Hh by (intros h s Hh; by apply (holds_rest known IX h w); try done; apply Hs).
  change (retryReq (controller (set_ctl ?c w))) with (retryReq c). simpl. destruct (retryReq (controller w)) eqn:Er.
  - change (set_ctl _ (AMem.set_rest _ w)) with (relaxed w). eapply wp_mono; [by apply (resender_ok (relaxed w) st)|].
    intros [w' st'] (R1 & R2 & R3 & R4). do 3 (split; [done|]). intros h s H. by apply (R4 h s), Hh.
  - assert (relaxed w = set_ctl (set_busy false (controller w)) w) as E.
    { unfold relaxed. f_equal. destruct (controller w) as [? ? r ? ? ? ? ?]. simpl in *. by subst r. }
    simpl. rewrite E in *. do 3 (split; [done|]). intros h s H. exists s. by apply Hh.
Qed.

Definition fire (e : EventQ.ptr) (ws : Wd * EventQ.State) : option (Wd * EventQ.State) :=
  if bool_decide (e = releaseEvent (controller ws.1)) then release sendRetryReq ws
  else if bool_decide (e = dequeueEvent (controller ws.1)) then dequeue sendTimingResp ws
  else None.

Abbreviation in_time := (in_time latency latency_var longest).

Lemma responding_later c a now now' : responding c a now -> now <= now' -> responding c a now'.
Proof. unfold responding. destruct (packetQueue c) as [|[t p] l]; [done|]. destruct (retryResp c); [|done]. intros [-> Ht] H. split; [done|lia]. Qed.

(** The actions of the two events, when they come. *)
Lemma release_fired w st st1 t :
  serving w st -> owned (releaseEvent (controller w)) (Some t) st -> calm st1 -> owned (releaseEvent (controller w)) None st1 -> EventQ.curTick st1 = t -> in_time t ->
  (forall x, x <> releaseEvent (controller w) -> data <$> EventQ.heap st1 !! x = data <$> EventQ.heap st !! x) ->
  isBusy (controller w) = true /\ serving (relaxed w) st1.
Proof.
  intros [S1 S2 S3 (r & S4 & S4') S5 (a & S6 & S6') S7 S8 S9] Ho C1 Ho1 Ht Hb Hd. pose proof (owned_not_past _ _ _ S1 Ho).
  rewrite (owned_agree _ _ _ _ S4 Ho) in S4'. split; [apply S4'; eauto|]. split; simpl; rewrite ?Ht; try done.
  - exists None. split; [done|]. split; [done|]. by intros [? ?].
  - exists a. split; [apply (owned_data _ _ st); [by apply Hd|done]|]. by apply (responding_later _ _ (EventQ.curTick st)).
Qed.

Lemma dequeue_fired w st st1 t :
  serving w st -> owned (dequeueEvent (controller w)) (Some t) st -> calm st1 -> owned (dequeueEvent (controller w)) None st1 -> EventQ.curTick st1 = t -> in_time t ->
  (forall x, x <> dequeueEvent (controller w) -> data <$> EventQ.heap st1 !! x = data <$> EventQ.heap st !! x) ->
  exists t0 p l, packetQueue (controller w) = (t0, p) :: l /\ serving (stalled w) st1.
Proof.
  intros [S1 S2 S3 (r & S4 & S4') S5 (a & S6 & S6') S7 S8 S9] Ho C1 Ho1 Ht Hb Hd. pose proof (owned_not_past _ _ _ S1 Ho).
  rewrite (owned_agree _ _ _ _ S6 Ho) in S6'. unfold responding in S6'. destruct (packetQueue (controller w)) as [|[t0 p] l] eqn:El; [by destruct S6'|].
  destruct (retryResp (controller w)); [by destruct S6'|]. destruct S6' as (ta & [= <-] & Hta). exists t0, p, l. split; [done|]. split; simpl; rewrite ?Ht, ?El; try done.
  - exists r. split; [apply (owned_data _ _ st); [by apply Hd|done]|done].
  - exists None. split; [done|]. unfold responding. simpl. by rewrite El.
Qed.

Lemma service_memory w st e :
  serving w st -> EventQ.head st = Some e -> e = releaseEvent (controller w) \/ e = dequeueEvent (controller w) -> (forall t, EventQ.nextTick st = Some t -> in_time t) ->
  wp (EventQ.serviceOne fire (w, st)) (fun '(r, (w', st')) => r = None /\ serving w' st' /\ EventQ.nextTick st = Some (EventQ.curTick st') /\
    forall h s, holds h w s -> exists s', holds h w' s').
Proof.
  intros Hs Hh He Hm. pose proof (sv_calm _ _ _ _ _ _ Hs) as [[l Hq] Hsn]. pose proof (queued_head _ _ Hq) as Hhd. rewrite Hh in Hhd.
  destruct l as [|e' l]; [done|]. simpl in Hhd. injection Hhd as <-.
  assert (exists a, owned e a st) as (a & Ha).
  { destruct (sv_release _ _ _ _ _ _ Hs) as (r & Hr & _), (sv_dequeue _ _ _ _ _ _ Hs) as (q & Hd & _). destruct He as [->| ->]; eauto. }
  destruct (owned_head _ _ _ _ Hq Ha) as (t & -> & Hnt).
  destruct (serviceOne_owned fire e t w st l Hq Hsn Ha) as (st1 & C1 & Hq1 & He1 & Ht1 & Hd & ->). apply wp_bind.
  assert (wp (fire e (w, st1)) (fun '(w', st') => serving w' st' /\ EventQ.curTick st' = t /\ same_controller w w' /\ forall h s, holds h w s -> exists s', holds h w' s')) as Hf.
  { unfold fire. simpl. destruct He as [->| ->].
    - rewrite bool_decide_true by done. destruct (release_fired w st st1 t Hs Ha C1 He1 Ht1 (Hm t Hnt) Hd) as [Hb Hs1].
      eapply wp_mono; [by apply controller_release_spec|]. intros [w' st']. by rewrite Ht1.
    - rewrite bool_decide_false by (intros E; by apply (sv_events _ _ _ _ _ _ Hs)). rewrite bool_decide_true by done.
      destruct (dequeue_fired w st st1 t Hs Ha C1 He1 Ht1 (Hm t Hnt) Hd) as (t0 & p & r & El & Hs1).
      eapply wp_mono; [by apply (dequeue_spec w st1 t0 p r)|]. intros [w' st'] (R1 & R2 & R3 & _ & R5). rewrite R2. do 3 (split; [done|]). eauto. }
  eapply wp_mono; [exact Hf|]. intros [w2 st2] (R1 & R2 & R3 & R4).
  assert (exists a2, owned e a2 st2) as [a2 Ha2].
  { destruct (sv_release _ _ _ _ _ _ R1) as (r & Hr & _), (sv_dequeue _ _ _ _ _ _ R1) as (q & Hdq & _). destruct R3 as [B1 B2].
    rewrite B1 in Hr. rewrite B2 in Hdq. destruct He as [->| ->]; eauto. }
  rewrite (finish_owned _ a2) by done. simpl. split; [done|]. split; [done|]. by rewrite R2.
Qed.

(** ** No response is forgotten *)

(** Others run, later, and leave the controller alone. *)
Definition undisturbed_until w st w' st' : Prop :=
  left_alone (packetQueue (controller w)) w st w' st' /\ EventQ.curTick st <= EventQ.curTick st' /\ in_time (EventQ.curTick st').

(** A request comes in, the neighbour asks for a retry, an event of the controller is
    serviced, or others run. *)
Inductive mstep (h : positive) : Wd * EventQ.State -> Wd * EventQ.State -> Prop :=
| m_request w st pkt p req d v o ok ws' :
    ready known h pkt w p req d v -> operation p req v = Some o -> (forall s, holds h w s -> granted s req o) -> Pkt.isRead p || Pkt.isWrite p = true ->
    request pkt (w, st) = Some (ok, ws') -> mstep h (w, st) ws'
| m_retry w st ws' : retryResp (controller w) = true -> recvRespRetry sendTimingResp (w, st) = Some ws' -> mstep h (w, st) ws'
| m_fire w st e r ws' :
    EventQ.head st = Some e -> e = releaseEvent (controller w) \/ e = dequeueEvent (controller w) -> (forall t, EventQ.nextTick st = Some t -> in_time t) ->
    EventQ.serviceOne fire (w, st) = Some (r, ws') -> mstep h (w, st) ws'
| m_others w st w' st' : undisturbed_until w st w' st' -> mstep h (w, st) (w', st').

Definition operational (h : positive) (ws : Wd * EventQ.State) : Prop := serving ws.1 ws.2 /\ exists s, holds h ws.1 s.

Lemma stalled_id w : retryResp (controller w) = true -> stalled w = w.
Proof. intros H. apply set_ctl_id. destruct (controller w) as [? ? ? r ? ? ? ?]. simpl in *. by subst r. Qed.

Lemma retry_memory w st :
  serving w st -> retryResp (controller w) = true ->
  wp (recvRespRetry sendTimingResp (w, st)) (fun '(w', st') => serving w' st' /\ forall h s, holds h w s -> holds h w' s).
Proof.
  intros Hs Hr. unfold recvRespRetry. simpl. rewrite Hr. cbn [assert_ mbind option_bind].
  destruct (sv_dequeue _ _ _ _ _ _ Hs) as (a & Ha & Hw). unfold responding in Hw.
  destruct (packetQueue (controller w)) as [|[t p] l] eqn:El; [destruct Hw; congruence|].
  eapply wp_mono; [apply (dequeue_spec w st t p l); [by rewrite stalled_id|done]|]. by intros [w' st'] (R1 & _ & _ & _ & R5).
Qed.

Lemma serving_undisturbed w st w' st' : serving w st -> undisturbed_until w st w' st' -> serving w' st'.
Proof.
  intros [S1 S2 S3 (r & S4 & S4') S5 (a & S6 & S6') S7 S8 S9] ([A1 A2 A3 A4 A5 A6 A7 A8] & Ht & Hb). split; rewrite ?A1; try done.
  - exists r. split; [apply (owned_data _ _ st); [apply A8; by left|done]|done].
  - exists a. split; [apply (owned_data _ _ st); [apply A8; by right|done]|]. by apply (responding_later _ _ (EventQ.curTick st)).
Qed.

Lemma mstep_operational h ws ws' : mstep h ws ws' -> operational h ws -> operational h ws'.
Proof.
  intros Hstep [Hs (s & Hh)]. destruct Hstep as [w st pkt p req d v o ok ws' Hrd Ho Hg Hrw E|w st ws' Hr E|w st e r ws' Hhd He Hm E|w st w' st' M]; simpl in *.
  - pose proof (wp_some _ _ _ E (memory_timing_spec clear known IX Hclear latency latency_var random duration longest Hrandom Hlatency Hduration
      h pkt w st s p req d v o Hs Hh Hrd Ho (Hg s Hh) Hrw)) as H. destruct ws' as [w' st'].
    destruct H as (R1 & _ & _ & R2). split; [done|]. destruct ok.
    + eexists. apply R2.
    + destruct R2 as [-> ->]. exists s. by apply (holds_rest known IX h w); try done; apply Hs.
  - pose proof (wp_some _ _ _ E (retry_memory w st Hs Hr)) as H. destruct ws' as [w' st']. destruct H as [R1 R2]. split; [done|]. exists s. by apply R2.
  - pose proof (wp_some _ _ _ E (service_memory w st e Hs Hhd He Hm)) as H. destruct ws' as [w' st']. destruct H as (_ & R1 & _ & R2). split; [done|]. by apply (R2 h s).
  - split; [by apply (serving_undisturbed w st)|]. exists s. apply (holds_left_alone (packetQueue (controller w)) h w st w' st'); [apply M|done].
Qed.

(** A new controller. *)
Record new_controller w st : Prop := {
  nc_ctl : controller w = SimpleMemory_new (releaseEvent (controller w)) (dequeueEvent (controller w)) (self (controller w));
  nc_events : releaseEvent (controller w) <> dequeueEvent (controller w) /\ owned (releaseEvent (controller w)) None st /\ owned (dequeueEvent (controller w)) None st;
  nc_state : calm st /\ in_time (EventQ.curTick st);
  nc_drain : counted (drains (AMem.rest w)) /\ self (controller w) ∈ Drain.all_drainable (drains (AMem.rest w));
  nc_other : IX (other (AMem.rest w))
}.

Lemma new_serving w st : new_controller w st -> serving w st.
Proof.
  intros [N1 (E1 & E2 & E3) [C1 C2] N4 N5].
  assert (packetQueue (controller w) = [] /\ isBusy (controller w) = false /\ retryReq (controller w) = false /\ retryResp (controller w) = false) as (L1 & L2 & L3 & L4) by (by rewrite N1).
  split; rewrite ?L1, ?L2, ?L3; try done.
  - exists None. split; [done|]. split; [done|]. by intros [? ?].
  - exists None. split; [done|]. unfold responding. by rewrite L1, L4.
  - by apply Forall_nil.
Qed.

(** C28: the controller between operations.  In every state that requests, retries, the events
    of the controller and the rest of the system reach from a new controller, with a
    neighbour that keeps its contract: the memory behind it represents a state of its
    specification; the controller is busy exactly while its release event is pending,
    and a master told to try again waits for this event; the first response of the queue
    has a dequeue event coming, not before the response is due, or it is due, was
    refused, and asking for it again does not fail; with no response left, nothing is
    pending and the controller has drained; and servicing its events does not fail. *)
Theorem controller_invariant h w0 st0 s0 w st :
  new_controller w0 st0 -> holds h w0 s0 -> rtc (mstep h) (w0, st0) (w, st) ->
  (exists s, holds h w s) /\
  (isBusy (controller w) = true <-> exists t, owned (releaseEvent (controller w)) (Some t) st) /\
  (retryReq (controller w) = true -> isBusy (controller w) = true) /\
  (forall t p l, packetQueue (controller w) = (t, p) :: l ->
    if retryResp (controller w) then t <= EventQ.curTick st /\ owned (dequeueEvent (controller w)) None st /\ is_Some (recvRespRetry sendTimingResp (w, st))
    else exists t', owned (dequeueEvent (controller w)) (Some t') st /\ t <= t') /\
  (packetQueue (controller w) = [] -> owned (dequeueEvent (controller w)) None st /\ retryResp (controller w) = false /\ drain w = Drain.Drained) /\
  (forall e, EventQ.head st = Some e -> e = releaseEvent (controller w) \/ e = dequeueEvent (controller w) -> (forall t, EventQ.nextTick st = Some t -> in_time t) ->
    is_Some (EventQ.serviceOne fire (w, st))).
Proof.
  intros Hn Hh Hr. assert (forall ws ws', rtc (mstep h) ws ws' -> operational h ws -> operational h ws') as Hinv.
  { induction 1; [done|]. eauto using mstep_operational. }
  destruct (Hinv _ _ Hr) as [Hs Hex]; [split; [by apply new_serving|by exists s0]|]. simpl in Hs, Hex.
  pose proof Hs as [S1 S2 S3 (r & S4 & S4') S5 (a & S6 & S6') S7 S8 S9]. split; [done|]. split; [|split; [done|split; [|split]]].
  - rewrite S4'. split; [intros [t ->]; eauto|]. intros [t Ht]. rewrite (owned_agree _ _ _ _ S4 Ht). eauto.
  - intros t p l Hl. unfold responding in S6'. rewrite Hl in S6'. destruct (retryResp (controller w)) eqn:Er.
    + destruct S6' as [-> Ht]. split; [done|]. split; [done|]. pose proof (retry_memory w st Hs Er) as H. destruct (recvRespRetry _ _); [by eexists|done].
    + destruct S6' as (ta & -> & Ht). by exists ta.
  - intros Hl. unfold responding in S6'. rewrite Hl in S6'. destruct S6' as [-> Hrr]. split; [done|]. split; [done|]. unfold drain. by rewrite Hl.
  - intros e Hhd He Hm. pose proof (service_memory w st e Hs Hhd He Hm) as H. destruct (EventQ.serviceOne fire (w, st)); [by eexists|done].
Qed.
End Steps.

(** ** Stalled requests *)

(** A master that answers a retry by sending its request again. *)
Definition resend (pkt : positive) (ws : Wd * EventQ.State) : option (Wd * EventQ.State) := '(_, ws) ← request pkt ws; Some ws.

Lemma release_resend h pkt w st s p req d v o :
  serving (relaxed w) st -> isBusy (controller w) = true -> retryReq (controller w) = true ->
  holds h w s -> ready known h pkt w p req d v -> operation p req v = Some o -> granted s req o -> Pkt.isRead p || Pkt.isWrite p = true ->
  wp (release (resend pkt) (w, st)) (fun '(w', st') => serving w' st' /\ EventQ.curTick st' = EventQ.curTick st /\
    retryReq (controller w') = false /\ same_controller w w' /\ taken h pkt (relaxed w) st s p d o w').
Proof.
  intros Hs Hb Hr Hh Hrd Ho Hg Hrw. unfold release. rewrite Hb. cbn [assert_ mbind option_bind].
  change (retryReq (controller (set_ctl ?c w))) with (retryReq c). simpl. rewrite Hr. change (set_ctl _ (AMem.set_rest _ w)) with (relaxed w).
  unfold resend. apply wp_bind. assert (holds h (relaxed w) s) as Hh' by (by apply (holds_rest known IX h w); try done; apply Hs).
  assert (ready known h pkt (relaxed w) p req d v) as Hrd' by (destruct Hrd; by split).
  eapply wp_mono; [by apply (memory_timing_spec clear known IX Hclear latency latency_var random duration longest Hrandom Hlatency Hduration h pkt (relaxed w) st s p req d v o)|].
  intros [ok [w' st']] (R1 & R2 & -> & R4). simpl in *. split; [done|]. split; [done|]. split; [by rewrite (tk_retry _ _ _ _ _ _ _ _ _ _ _ _ _ _ R4)|].
  split; [|done]. exact (tk_object _ _ _ _ _ _ _ _ _ _ _ _ _ _ R4).
Qed.

(** A stalled request is served.  When the release event of the controller comes and a
    master was told to try again, servicing the event makes the master send its request
    again, and this request is accepted and performed. *)
Theorem stalled_request_served sendTimingResp h pkt w st s p req d v o :
  serving w st -> EventQ.head st = Some (releaseEvent (controller w)) -> (forall t, EventQ.nextTick st = Some t -> in_time latency latency_var longest t) ->
  retryReq (controller w) = true -> holds h w s -> ready known h pkt w p req d v -> operation p req v = Some o -> granted s req o -> Pkt.isRead p || Pkt.isWrite p = true ->
  wp (EventQ.serviceOne (fire sendTimingResp (resend pkt)) (w, st)) (fun '(r, (w', st')) => r = None /\ serving w' st' /\
    EventQ.nextTick st = Some (EventQ.curTick st') /\ retryReq (controller w') = false /\ taken h pkt (relaxed w) st' s p d o w').
Proof.
  intros Hs Hhd Hm Hr Hh Hrd Ho Hg Hrw. pose proof (sv_calm _ _ _ _ _ _ Hs) as [[l Hq] Hsn]. pose proof (queued_head _ _ Hq) as E. rewrite Hhd in E.
  destruct l as [|e' l]; [done|]. simpl in E. injection E as <-. destruct (sv_release _ _ _ _ _ _ Hs) as (a & Ha & _).
  destruct (owned_head _ _ _ _ Hq Ha) as (t & -> & Hnt).
  destruct (serviceOne_owned (fire sendTimingResp (resend pkt)) _ t w st l Hq Hsn Ha) as (st1 & C1 & Hq1 & He1 & Ht1 & Hd & ->).
  destruct (release_fired w st st1 t Hs Ha C1 He1 Ht1 (Hm t Hnt) Hd) as [Hb Hs1]. unfold fire at 1. simpl. rewrite bool_decide_true by done.
  apply wp_bind. eapply wp_mono; [by apply (release_resend h pkt w st1 s p req d v o)|]. intros [w' st'] (R1 & R2 & R3 & R4 & R5).
  destruct (sv_release _ _ _ _ _ _ R1) as (r & Hrel & _). rewrite (proj1 R4) in Hrel. rewrite (finish_owned _ r) by done. simpl.
  split; [done|]. split; [done|]. split; [by rewrite R2, Ht1|]. split; [done|]. by apply (taken_time _ _ _ _ _ _ _ _ st1).
Qed.
End Memory.

(** * A memory controller at work

    A controller with a memory of 64 bytes, a latency of 30 ticks and two ticks for a
    byte, on which the theorems of [SimpleMemTheorems] are run, and a functional read
    that returns old bytes. *)

Module Controller.

Definition clear (c : Z) (x : unit) : option unit := Some x.
Definition anyone (c : Z) : Prop := True.
Definition anything (x : unit) : Prop := True.
Definition no_random (n : Z) (x : unit) : Z * unit := (0, x).
Definition transfer (n : Z) : Z := 2 * n.
Definition longest : Z := 2 ^ 32.

Lemma clear_ok : forall c x, anyone c -> anything x -> exists x', clear c x = Some x' /\ anything x'.
Proof. intros c x _ _. by exists x. Qed.
Lemma random_ok : forall x, anything x -> 0 <= (no_random 0 x).1 <= 0 /\ anything (no_random 0 x).2.
Proof. done. Qed.
Lemma latency_ok : 0 <= 30 /\ 0 <= 0.
Proof. done. Qed.
Lemma transfer_ok : forall n, 0 < n < 2 ^ 31 -> 0 <= transfer n <= longest.
Proof. unfold transfer, longest. lia. Qed.

(** Two reads and a write of the word at 0x1000. *)
Definition word_req : Req.Request := Req.setContext 0 (Req.Request_phys 0x1000 4 0 7 0).
Definition word_pkt (write : bool) (r d : positive) : Pkt.Packet :=
  Pkt.set_flag Pkt.STATIC_DATA (Pkt.set_data (Some d) (if write then Pkt.createWrite r (Req.view word_req) else Pkt.createRead r (Req.view word_req))).

Definition world : AMem.World (Extra unit) :=
  AMem.mkWorld (AMem.setBackingStore (Some 100%positive) (AMem.AbstractMemory_new (AddrRange_plain 0x1000 0x103f) true true true))
    {[ 1%positive := word_req; 2%positive := word_req; 3%positive := word_req ]}
    {[ 1%positive := word_pkt false 1 11; 2%positive := word_pkt true 2 12; 3%positive := word_pkt false 3 13 ]}
    {[ 11%positive := [0; 0; 0; 0]; 12%positive := [5; 6; 7; 8]; 13%positive := [0; 0; 0; 0]; 100%positive := replicate 64 1 ]}
    (mkExtra (SimpleMemory_new 1 2 1) (default Drain.DrainManager_new (Drain.Drainable_new 1 Drain.DrainManager_new)) tt).
Definition events : EventQ.State := EventQ.set_heap {[ 1%positive := fresh_event 0; 2%positive := fresh_event 0 ]} (EventQ.EventQueue_new ∅ 7).
Definition contents : MemSpec.State := MemSpec.mkState (fun _ => 1) ∅.

Abbreviation WS := (AMem.World (Extra unit) * EventQ.State)%type.
Definition request (pkt : positive) (ws : WS) : option (bool * WS) := recvTimingReq clear 30 0 no_random transfer pkt ws.
Definition takes (pkt : positive) (ws : WS) : option (bool * WS) := Some (true, ws).
Definition silent (ws : WS) : option WS := Some ws.
Definition next {A} (d : A) (o : option (bool * A)) : A := match o with Some (_, x) => x | None => d end.

(** The first read is accepted, and the write stalls. *)
Definition reading : WS := next (world, events) (request 1 (world, events)).
Definition stalling : WS := next reading (request 2 reading).
(** The release event comes, and the write is sent again. *)
Definition writing : WS :=
  match EventQ.serviceOne (fire takes (resend clear 30 0 no_random transfer 2)) stalling with Some (_, ws) => ws | None => stalling end.

Lemma is_new : new_controller anything 30 0 longest world events.
Proof.
  destruct (owned_fresh (EventQ.EventQueue_new ∅ 7) 1 0 (calm_new 7) eq_refl) as [C1 O1].
  destruct (owned_fresh _ 2 0 C1 eq_refl) as [C2 O2].
  assert (EventQ.set_heap (<[2%positive := fresh_event 0]> (EventQ.heap (EventQ.set_heap (<[1%positive := fresh_event 0]> (EventQ.heap (EventQ.EventQueue_new ∅ 7))) (EventQ.EventQueue_new ∅ 7))))
    (EventQ.set_heap (<[1%positive := fresh_event 0]> (EventQ.heap (EventQ.EventQueue_new ∅ 7))) (EventQ.EventQueue_new ∅ 7)) = events) as E by reflexivity.
  rewrite E in C2, O2. split.
  - reflexivity.
  - split; [discriminate|]. split; [|exact O2]. apply (owned_data _ _ _ _ (eq_refl : data <$> EventQ.heap events !! 1%positive = _) O1).
  - split; [exact C2|]. by unfold in_time, longest; simpl; lia.
  - split; [|change (Drain.all_drainable (drains (AMem.rest world))) with [1%positive]; by left].
    apply (new_spec 1 Drain.DrainManager_new new_counted); [by left|done|done].
  - done.
Qed.

Lemma nthZ_ones n i : 0 <= i < Z.of_nat n -> nthZ (replicate n 1) i = 1.
Proof. intros H. unfold nthZ, aget. zcases; try lia. rewrite lookup_replicate_2 by lia. done. Qed.

Lemma world_holds : holds anyone anything 100 world contents.
Proof.
  split; try done.
  - exists (replicate 64 1). split; [done|]. split; [done|]. intros x Hx. apply (nthZ_ones 64). change (0x1000 <= x <= 0x103f) in Hx. change (ar_start _) with 0x1000. lia.
  - apply NoDup_nil_2.
Qed.

Ltac is_ready := split; try reflexivity; [split; (reflexivity || done)|done].

Lemma read_ready : ready anyone 100 1 world (word_pkt false 1 11) word_req 11 [0; 0; 0; 0].
Proof. is_ready. Qed.
Lemma write_stalled : ready anyone 100 2 reading.1 (word_pkt true 2 12) word_req 12 [5; 6; 7; 8].
Proof. is_ready. Qed.
Lemma write_ready : ready anyone 100 2 stalling.1 (word_pkt true 2 12) word_req 12 [5; 6; 7; 8].
Proof. is_ready. Qed.

#[export] Instance takes_requester : Requester anything takes.
Proof.
  split. intros w st t pkt l Hc Hl Hd HI Ha. simpl. split; [|done]. split; try done. by apply Forall_cons in Ha as [_ Ha].
Qed.
#[export] Instance silent_resender : Resender anyone anything 30 0 longest silent.
Proof. split. intros w st Hs Hb Hr. simpl. do 3 (split; [done|]). eauto. Qed.

Lemma memory_request_witness :
  wp (request 1 (world, events)) (fun '(ok, (w', _)) => ok = true /\ AMem.bufs w' !! 11%positive = Some [1; 1; 1; 1] /\ isBusy (controller w') = true).
Proof.
  eapply wp_mono; [exact (memory_request clear anyone anything clear_ok 30 0 no_random transfer longest random_ok latency_ok transfer_ok 100 1 world events contents
    (word_pkt false 1 11) word_req 11 [0; 0; 0; 0] (MemSpec.Load 0x1000 4) (new_serving _ _ _ _ _ _ is_new) world_holds read_ready eq_refl I eq_refl)|].
  intros [ok [w' st']] (_ & _ & Hok & _ & H). destruct (H (proj2 Hok eq_refl)) as [[T1 T2 T3 T4 T5 T6 T7 T8] _]. split; [by apply Hok|]. by split.
Defined.

Lemma granted_write s : granted s word_req (MemSpec.Store 0x1000 [5; 6; 7; 8]).
Proof. left. by exists 0. Qed.

Lemma two_requests : rtc (mstep clear anyone anything 30 0 no_random transfer longest takes silent 100) (world, events) (stalling.1, stalling.2).
Proof.
  apply (rtc_l _ _ (reading.1, reading.2)).
  { apply (m_request _ _ _ _ _ _ _ _ _ _ _ world events 1 _ _ _ _ (MemSpec.Load 0x1000 4) true (reading.1, reading.2) read_ready); [reflexivity|done|reflexivity|vm_compute; reflexivity]. }
  apply (rtc_l _ _ (stalling.1, stalling.2)); [|apply rtc_refl].
  apply (m_request _ _ _ _ _ _ _ _ _ _ _ reading.1 reading.2 2 _ _ _ _ (MemSpec.Store 0x1000 [5; 6; 7; 8]) false (stalling.1, stalling.2) write_stalled);
    [reflexivity|intros; apply granted_write|reflexivity|vm_compute; reflexivity].
Qed.

(** The write is waited for by the release event, and the response of the read by the other one. *)
Lemma controller_invariant_witness :
  (exists t, owned 1 (Some t) stalling.2) /\ exists t', owned 2 (Some t') stalling.2 /\ 30 <= t'.
Proof.
  destruct (controller_invariant clear anyone anything clear_ok 30 0 no_random transfer longest random_ok latency_ok transfer_ok takes silent
    100 world events contents stalling.1 stalling.2 is_new world_holds two_requests) as (_ & H1 & _ & H2 & _).
  split; [apply H1; vm_compute; reflexivity|]. apply (H2 30 1%positive []). vm_compute. reflexivity.
Defined.

Lemma stalling_operational : operational anyone anything 30 0 longest 100 (stalling.1, stalling.2).
Proof.
  assert (forall ws ws', rtc (mstep clear anyone anything 30 0 no_random transfer longest takes silent 100) ws ws' ->
    operational anyone anything 30 0 longest 100 ws -> operational anyone anything 30 0 longest 100 ws') as Hinv.
  { induction 1; [done|]. intros H1. apply IHrtc. eapply mstep_operational; [exact clear_ok|exact random_ok|exact latency_ok|exact transfer_ok|..|exact H|exact H1]; apply _. }
  apply (Hinv _ _ two_requests). split; [exact (new_serving _ _ _ _ _ _ is_new)|]. exists contents. exact world_holds.
Qed.

Lemma operational_parts w st : operational anyone anything 30 0 longest 100 (w, st) -> serving anything 30 0 longest w st /\ exists s, holds anyone anything 100 w s.
Proof. done. Qed.

Lemma stalling_next : EventQ.head stalling.2 = Some (releaseEvent (controller stalling.1)) /\ EventQ.nextTick stalling.2 = Some 8 /\ retryReq (controller stalling.1) = true.
Proof. vm_compute. done. Qed.

Lemma stalling_in_time t : EventQ.nextTick stalling.2 = Some t -> in_time 30 0 longest t.
Proof. rewrite (proj1 (proj2 stalling_next)). intros [= <-]. unfold in_time, longest. lia. Qed.

Lemma stalled_request_served_witness :
  wp (EventQ.serviceOne (fire takes (resend clear 30 0 no_random transfer 2)) (stalling.1, stalling.2)) (fun '(_, (w', st')) =>
    EventQ.curTick st' = 8 /\ exists s', holds anyone anything 100 w' s').
Proof.
  destruct (operational_parts _ _ stalling_operational) as (Hs & s & Hh).
  eapply wp_mono; [exact (stalled_request_served clear anyone anything clear_ok 30 0 no_random transfer longest random_ok latency_ok transfer_ok takes 100 2
    stalling.1 stalling.2 s (word_pkt true 2 12) word_req 12 [5; 6; 7; 8] (MemSpec.Store 0x1000 [5; 6; 7; 8]) Hs
    (proj1 stalling_next) stalling_in_time (proj2 (proj2 stalling_next)) Hh write_ready eq_refl (granted_write s) eq_refl)|].
  intros [r [w' st']] (_ & _ & Hn & _ & T). rewrite (proj1 (proj2 stalling_next)) in Hn. split; [by injection Hn|]. eexists. apply T.
Defined.

(** A functional read after the write.  The memory holds the bytes of the write, which was
    performed last; the read returns those of the response to the first read, which is
    still in the queue. *)
Example stale_functional_read :
  exists w, recvFunctional 3 writing.1 = Some w /\ AMem.bufs w !! 13%positive = Some [1; 1; 1; 1] /\
    (take 4 <$> AMem.bufs w !! 100%positive) = Some [5; 6; 7; 8].
Proof. eexists. split; [vm_compute; reflexivity|]. split; vm_compute; reflexivity. Qed.
End Controller.
