(* ===== verification/XBarLayer.v ===== *)
(** * XBarLayer: a layer of a crossbar

    Translates the class [BaseXBar::Layer] of [gem5-X-TiC-SAT/src/mem/xbar.cc] and
    [xbar.hh]: the arbitration for one port of a crossbar.  A layer is IDLE, BUSY
    until its release event, or in RETRY for the moment in which it tells a
    waiting port to try again.  [sendRetry] is a parameter that acts on the whole
    system and may call the layer again; the class [LayerHost] says where in the
    system the layer, its drain state and the clock of the crossbar are.  The
    statistics of a layer are its occupancy. *)

From stdpp Require Import prelude gmap.
From Stdlib Require Import ZArith Lia.
From S2P Require Import Prelude Machine EventQueue Drain.

Open Scope Z_scope.

Module XBar.

Inductive State := IDLE | BUSY | RETRY.

#[global] Instance State_eq_dec : EqDecision State.
Proof. solve_decision. Defined.

Record Layer := mkLayer {
  state : State;
  waitingForLayer : list positive;
  waitingForPeer : option positive;
  releaseEvent : positive;
  self : positive;
  occupancy : Z
}.

Definition Layer_new (event obj : positive) : Layer := mkLayer IDLE [] None event obj 0.

Definition set_state (s : State) (l : Layer) : Layer :=
  mkLayer s (waitingForLayer l) (waitingForPeer l) (releaseEvent l) (self l) (occupancy l).
Definition set_waiting (ports : list positive) (l : Layer) : Layer :=
  mkLayer (state l) ports (waitingForPeer l) (releaseEvent l) (self l) (occupancy l).
Definition set_peer (p : option positive) (l : Layer) : Layer :=
  mkLayer (state l) (waitingForLayer l) p (releaseEvent l) (self l) (occupancy l).
Definition add_occupancy (n : Z) (l : Layer) : Layer :=
  mkLayer (state l) (waitingForLayer l) (waitingForPeer l) (releaseEvent l) (self l) (occupancy l + n).

Definition occupyLayer (until : Z) (ls : Layer * EventQ.State) : option (Layer * EventQ.State) :=
  let '(l, st) := ls in
  _ ← assert_ (bool_decide (state l = BUSY));
  _ ← assert_ (negb (until =? 0));
  st ← EventQ.schedule false true (releaseEvent l) until false st;
  Some (add_occupancy (until - EventQ.curTick st) l, st).

Definition tryTiming (src_port : positive) (l : Layer) : option (bool * Layer) :=
  if bool_decide (state l = BUSY) || bool_decide (is_Some (waitingForPeer l)) then
    _ ← assert_ (bool_decide (src_port ∉ waitingForLayer l));
    Some (false, set_waiting (waitingForLayer l ++ [src_port]) l)
  else Some (true, set_state BUSY l).

Definition succeededTiming (busy_time : Z) (ls : Layer * EventQ.State) : option (Layer * EventQ.State) :=
  _ ← assert_ (bool_decide (state ls.1 = BUSY)); occupyLayer busy_time ls.

Definition failedTiming (src_port : positive) (busy_time : Z) (ls : Layer * EventQ.State) : option (Layer * EventQ.State) :=
  let '(l, st) := ls in
  _ ← assert_ (bool_decide (waitingForPeer l = None));
  let l := set_peer (Some src_port) l in
  _ ← assert_ (bool_decide (state l = BUSY));
  occupyLayer busy_time (l, st).

(** [drain]: only the state is looked at. *)
Definition layer_drain (l : Layer) : Drain.DrainState := if bool_decide (state l = IDLE) then Drain.Drained else Drain.Draining.

(** ** Retries *)

(** Where a system keeps a layer: the layer, the drain manager, and [clockEdge()] of the
    crossbar at a tick. *)
Class LayerHost (W : Type) := {
  layer : W -> Layer;
  set_layer : Layer -> W -> W;
  drains : W -> Drain.System;
  set_drains : Drain.System -> W -> W;
  clockEdge : Z -> W -> option (Z * W)
}.

Section Retry.
Context {W : Type} `{LayerHost W}.
Variable sendRetry : positive -> W * EventQ.State -> option (W * EventQ.State).

Definition on_layer (f : Layer * EventQ.State -> option (Layer * EventQ.State)) (ws : W * EventQ.State) : option (W * EventQ.State) :=
  let '(w, st) := ws in '(l, st) ← f (layer w, st); Some (set_layer l w, st).

Definition retryWaiting (ws : W * EventQ.State) : option (W * EventQ.State) :=
  let '(w, st) := ws in
  let l := layer w in
  match waitingForLayer l with
  | [] => None
  | retryingPort :: rest =>
      _ ← assert_ (bool_decide (state l = IDLE));
      '(w, st) ← sendRetry retryingPort (set_layer (set_waiting rest (set_state RETRY l)) w, st);
      if bool_decide (state (layer w) = RETRY) then
        '(edge, w) ← clockEdge (EventQ.curTick st) w;
        on_layer (occupyLayer edge) (set_layer (set_state BUSY (layer w)) w, st)
      else Some (w, st)
  end.

Definition releaseLayer (ws : W * EventQ.State) : option (W * EventQ.State) :=
  let '(w, st) := ws in
  let l := layer w in
  _ ← assert_ (bool_decide (state l = BUSY));
  e ← EventQ.deref (releaseEvent l) st;
  _ ← assert_ (negb (EventQ.scheduled e));
  let l := set_state IDLE l in
  let w := set_layer l w in
  match waitingForLayer l, waitingForPeer l with
  | _ :: _, None => retryWaiting (w, st)
  | _ :: _, Some _ => Some (w, st)
  | [], None =>
      s ← Drain.drainState (self l) (drains w);
      match s with
      | Drain.Draining => d ← Drain.signalDrainDone (self l) (drains w); Some (set_drains d w, st)
      | _ => Some (w, st)
      end
  | [], Some _ => Some (w, st)
  end.

Definition recvRetry (ws : W * EventQ.State) : option (W * EventQ.State) :=
  let '(w, st) := ws in
  let l := layer w in
  src ← waitingForPeer l;
  let l := set_peer None (set_waiting (src :: waitingForLayer l) l) in
  let w := set_layer l w in
  if bool_decide (state l = IDLE) then retryWaiting (w, st)
  else _ ← assert_ (bool_decide (state l = BUSY)); Some (w, st).
End Retry.
End XBar.
