(* ===== verification/XBarLayerCorrect.v ===== *)
(** * XBarLayerCorrect: the arbitration of a layer

    The invariant of a layer: it is busy exactly while its release event is
    pending, no port waits twice, and an idle layer that waits for nobody has
    nobody waiting for it. *)

From stdpp Require Import prelude gmap.
From Stdlib Require Import ZArith Lia.
From S2P Require Import Prelude Machine EventQueue EventQueueCorrect EventService SimLoop EventOwner Drain DrainCorrect XBarLayer.
Import XBar.

Open Scope Z_scope.

Class LayerLaws (W : Type) `{LayerHost W} := {
  host_ok : Z -> W -> Prop;
  layer_set l w : layer (set_layer l w) = l;
  drains_set_layer l w : drains (set_layer l w) = drains w;
  layer_set_drains d w : layer (set_drains d w) = layer w;
  drains_set d w : drains (set_drains d w) = d;
  host_set_layer now l w : host_ok now w -> host_ok now (set_layer l w);
  host_set_drains now d w : host_ok now w -> host_ok now (set_drains d w);
  clockEdge_ok now w : host_ok now w -> 0 < now ->
    wp (clockEdge now w) (fun '(t, w') => now <= t /\ layer w' = layer w /\ drains w' = drains w /\ host_ok now w')
}.

Definition ports (l : Layer) : list positive := option_list (waitingForPeer l) ++ waitingForLayer l.

Section Layer.
Context {W : Type} `{HL : LayerLaws W}.
Implicit Types (w : W) (st : EventQ.State) (l : Layer).

Definition drain_ok w : Prop := counted (drains w) /\ self (layer w) ∈ Drain.all_drainable (drains w).

#[local] Arguments occupyLayer : simpl never.

(** What holds at all times. *)
Record sound w st : Prop := {
  so_calm : calm st;
  so_host : host_ok (EventQ.curTick st) w;
  so_time : 0 <= EventQ.curTick st;
  so_drain : drain_ok w;
  so_nodup : NoDup (ports (layer w))
}.

(** Between operations. *)
Record layer_ok w st : Prop := {
  lo_sound : sound w st;
  lo_event : exists a, owned (releaseEvent (layer w)) a st /\
    match state (layer w) with
    | IDLE => a = None /\ (waitingForPeer (layer w) = None -> waitingForLayer (layer w) = []) /\
        (is_Some (waitingForPeer (layer w)) -> 0 < EventQ.curTick st)
    | BUSY => exists t, a = Some t /\ 0 < t
    | RETRY => False
    end
}.

(** The layer before and after: the objects it is made of stay. *)
Definition same_layer (l l' : Layer) : Prop := releaseEvent l' = releaseEvent l /\ self l' = self l.

Lemma sound_layer w st l :
  sound w st -> self l = self (layer w) -> NoDup (ports l) -> sound (set_layer l w) st.
Proof.
  intros [S1 S2 S3 S4 S5] Hs Hn. split; try done; [by apply host_set_layer|split|by rewrite layer_set].
  - rewrite drains_set_layer. apply S4.
  - rewrite layer_set, drains_set_layer, Hs. apply S4.
Qed.

Lemma sound_rearmed w st st' e a : sound w st -> rearmed e a st st' -> sound w st'.
Proof. intros [S1 S2 S3 S4 S5] (R1 & R2 & (R3 & _)). split; rewrite ?R3; done. Qed.

Lemma occupyLayer_spec until l st :
  calm st -> owned (releaseEvent l) None st -> state l = BUSY -> 0 < until -> EventQ.curTick st <= until ->
  wp (occupyLayer until (l, st)) (fun '(l', st') => l' = add_occupancy (until - EventQ.curTick st) l /\ rearmed (releaseEvent l) (Some until) st st').
Proof.
  intros Hc He Hs Hu Ht. unfold occupyLayer. rewrite Hs. simpl. destruct (Z.eqb_spec until 0); [lia|]. simpl.
  apply wp_bind. eapply wp_mono; [by apply schedule_owned|]. intros st' Hr. pose proof Hr as (_ & _ & (Ht' & _)). simpl. by rewrite Ht'.
Qed.

(** The layer becomes busy until [until]. *)
Lemma busy_ok w st st' l until :
  sound w st -> self l = self (layer w) -> releaseEvent l = releaseEvent (layer w) -> NoDup (ports l) -> state l = BUSY -> 0 < until ->
  rearmed (releaseEvent l) (Some until) st st' -> layer_ok (set_layer l w) st'.
Proof.
  intros Hs H1 H2 Hn Hb Hu Hr. split; [by apply sound_layer; [by eapply sound_rearmed|..]|]. exists (Some until). rewrite layer_set.
  split; [apply Hr|]. rewrite Hb. by exists until.
Qed.

(** ** A port sends a packet *)

(** The port is told to wait. *)
Lemma tryTiming_busy w st src :
  layer_ok w st -> src ∉ ports (layer w) -> state (layer w) = BUSY \/ is_Some (waitingForPeer (layer w)) ->
  exists l, tryTiming src (layer w) = Some (false, l) /\ layer_ok (set_layer l w) st.
Proof.
  intros [Hs (a & He & Hst)] Hn Hb. unfold tryTiming.
  assert (bool_decide (state (layer w) = BUSY) || bool_decide (is_Some (waitingForPeer (layer w))) = true) as ->.
  { rewrite orb_true_iff, !bool_decide_eq_true. done. }
  unfold ports in Hn. rewrite not_elem_of_app in Hn. destruct Hn as [Hn1 Hn2]. rewrite bool_decide_true by done. simpl. eexists. split; [done|].
  split.
  - apply sound_layer; [done|done|]. pose proof (so_nodup _ _ Hs) as Hnd. unfold ports in *. simpl. rewrite app_assoc.
    apply NoDup_app. split; [done|]. split; [|apply NoDup_singleton]. intros x Hx1 Hx2. apply list_elem_of_singleton in Hx2 as ->.
    apply elem_of_app in Hx1 as [?|?]; done.
  - exists a. rewrite layer_set. simpl. split; [done|]. destruct (state (layer w)); try done.
    destruct Hst as (-> & Hw & Ht). split; [done|]. split; [|done]. intros Hp. rewrite Hp in Hb. destruct Hb as [?|[? ?]]; done.
Qed.

(** The packet of the port that has the layer is taken or refused. *)
Lemma outcome_ok w st l src until (accepted : bool) :
  sound w st -> self l = self (layer w) -> releaseEvent l = releaseEvent (layer w) -> NoDup (waitingForLayer l) ->
  owned (releaseEvent l) None st -> state l = BUSY -> waitingForPeer l = None -> src ∉ waitingForLayer l -> 0 < until -> EventQ.curTick st <= until ->
  wp (if accepted then succeededTiming until (l, st) else failedTiming src until (l, st)) (fun '(l', st') =>
    layer_ok (set_layer l' w) st' /\ l' = add_occupancy (until - EventQ.curTick st) (set_peer (if accepted then None else Some src) l) /\
    rearmed (releaseEvent l) (Some until) st st').
Proof.
  intros Hs H1 H2 Hnd He Hb Hp Hn Hu Ht. assert (set_peer None l = l) as El by (destruct l; simpl in *; by rewrite Hp).
  destruct accepted; [unfold succeededTiming|unfold failedTiming]; rewrite ?Hp; simpl; rewrite Hb; simpl.
  - eapply wp_mono; [by apply (occupyLayer_spec until l st); [apply Hs|..]|].
    intros [l' st'] (-> & Hr). rewrite El. split; [|by split]. eapply (busy_ok w st st' _ until); try done. unfold ports. simpl. by rewrite Hp.
  - eapply wp_mono; [by apply (occupyLayer_spec until (set_peer (Some src) l) st); [apply Hs|..]|].
    intros [l' st'] (-> & Hr). split; [|by split]. eapply (busy_ok w st st' _ until); try done. unfold ports. simpl. by constructor.
Qed.

(** The port gets the layer, and its packet is taken or refused. *)
Lemma transaction_ok w st src until (accepted : bool) :
  sound w st -> owned (releaseEvent (layer w)) None st -> state (layer w) <> BUSY -> waitingForPeer (layer w) = None ->
  src ∉ waitingForLayer (layer w) -> 0 < until -> EventQ.curTick st <= until ->
  exists l, tryTiming src (layer w) = Some (true, l) /\
    wp (if accepted then succeededTiming until (l, st) else failedTiming src until (l, st)) (fun '(l', st') => layer_ok (set_layer l' w) st').
Proof.
  intros Hs He Hb Hp Hn Hu Ht. unfold tryTiming. rewrite Hp, !bool_decide_false by (done || by intros [? ?]). simpl. eexists. split; [done|].
  pose proof (so_nodup _ _ Hs) as Hnd. unfold ports in Hnd. rewrite Hp in Hnd. simpl in Hnd.
  eapply wp_mono; [by apply (outcome_ok w st (set_state BUSY (layer w)) src until accepted)|]. intros [l' st'] Hx. apply Hx.
Qed.

(** Others run, and leave the layer and its event alone. *)
Lemma layer_ok_later w st w' st' :
  layer_ok w st -> layer w' = layer w -> drain_ok w' -> calm st' -> host_ok (EventQ.curTick st') w' -> EventQ.curTick st <= EventQ.curTick st' ->
  data <$> EventQ.heap st' !! releaseEvent (layer w) = data <$> EventQ.heap st !! releaseEvent (layer w) -> layer_ok w' st'.
Proof.
  intros [[S1 S2 S3 S4 S5] (a & He & Hst)] M1 M2 M3 M4 M5 M6. split; [split; rewrite ?M1; try done; lia|]. exists a. rewrite M1.
  split; [by apply (owned_data _ _ st)|]. destruct (state (layer w)); try done. destruct Hst as (-> & Hx2 & Hx3). split; [done|]. split; [done|].
  intros Hsome. specialize (Hx3 Hsome). lia.
Qed.
End Layer.

(** ** Retries *)

Section Retries.
Context {W : Type} `{HL : LayerLaws W}.
Variable sendRetry : positive -> W * EventQ.State -> option (W * EventQ.State).
Implicit Types (w : W) (st : EventQ.State) (l : Layer).

(** While a port is told to try again. *)
Record retrying w st : Prop := {
  re_sound : sound w st;
  re_time : 0 < EventQ.curTick st;
  re_event : owned (releaseEvent (layer w)) None st;
  re_state : state (layer w) = RETRY;
  re_peer : waitingForPeer (layer w) = None
}.

(** What the ports must respect: told to try again, a port uses the layer, or does not;
    others may queue up behind those that wait. *)
Class Retrier : Prop := {
  retrier_ok src w st : retrying w st -> src ∉ waitingForLayer (layer w) ->
    wp (sendRetry src (w, st)) (fun '(w', st') =>
      EventQ.curTick st' = EventQ.curTick st /\ same_layer (layer w) (layer w') /\
      (exists more, waitingForLayer (layer w') = waitingForLayer (layer w) ++ more) /\
      (retrying w' st' \/ state (layer w') = BUSY /\ layer_ok w' st'))
}.

Context {HR : Retrier}.

Lemma retryWaiting_spec w st src rest :
  sound w st -> 0 < EventQ.curTick st -> owned (releaseEvent (layer w)) None st -> state (layer w) = IDLE ->
  waitingForPeer (layer w) = None -> waitingForLayer (layer w) = src :: rest ->
  wp (retryWaiting sendRetry (w, st)) (fun '(w', st') =>
    layer_ok w' st' /\ state (layer w') = BUSY /\ EventQ.curTick st' = EventQ.curTick st /\ same_layer (layer w) (layer w') /\
    exists more, waitingForLayer (layer w') = rest ++ more).
Proof.
  intros Hs Ht He Hi Hp Hw. unfold retryWaiting. rewrite Hw, Hi. simpl.
  pose proof (so_nodup _ _ Hs) as Hnd. unfold ports in Hnd. rewrite Hp, Hw in Hnd. simpl in Hnd. apply NoDup_cons in Hnd as [Hn Hnd].
  set (l1 := set_waiting rest (set_state RETRY (layer w))).
  assert (retrying (set_layer l1 w) st) as Hr.
  { split; rewrite ?layer_set; try done. apply sound_layer; [done|done|]. unfold ports. simpl. by rewrite Hp. }
  apply wp_bind. eapply wp_mono; [apply (retrier_ok src _ st Hr); by rewrite layer_set|].
  rewrite layer_set. intros [w2 st2] (Ht2 & [E1 E2] & [more Hm] & Hcases). simpl in E1, E2, Hm.
  destruct Hcases as [[R1 R2 R3 R4 R5]|[Hb Hok]].
  - rewrite R4. simpl. apply wp_bind. eapply wp_mono; [by apply (clockEdge_ok _ w2); [apply R1|]|].
    intros [edge w3] (Hedge & El & Ed & Hh). unfold on_layer. rewrite layer_set, El. apply wp_bind.
    eapply wp_mono; [apply (occupyLayer_spec edge (set_state BUSY (layer w2)) st2); [apply R1|done|done|lia|done]|].
    intros [l3 st3] (-> & Hr3). simpl.
    assert (sound w3 st2) as Hs3.
    { destruct R1 as [S1 S2 S3 S4 S5]. split; rewrite ?El; try done. unfold drain_ok. by rewrite Ed, El. }
    assert (layer_ok (set_layer (add_occupancy (edge - EventQ.curTick st2) (set_state BUSY (layer w2))) (set_layer (set_state BUSY (layer w2)) w3)) st3) as Hok.
    { eapply (busy_ok _ st2 st3 _ edge); try done; rewrite ?layer_set; try done; [|apply R1|lia].
      apply sound_layer; [done|by rewrite El|]. apply R1. }
    split; [done|]. rewrite layer_set. simpl. split; [done|]. split; [by rewrite (proj1 (proj2 (proj2 Hr3)))|]. split; [done|]. by exists more.
  - rewrite Hb. simpl. split; [done|]. split; [done|]. split; [done|]. split; [done|]. by exists more.
Qed.

(** The release event has come. *)
Lemma releaseLayer_spec w st st1 t :
  layer_ok w st -> owned (releaseEvent (layer w)) (Some t) st ->
  calm st1 -> owned (releaseEvent (layer w)) None st1 -> EventQ.curTick st1 = t -> host_ok t w ->
  wp (releaseLayer sendRetry (w, st1)) (fun '(w', st') => layer_ok w' st' /\ EventQ.curTick st' = t /\ same_layer (layer w) (layer w') /\
    (state (layer w') = IDLE -> waitingForLayer (layer w') = waitingForLayer (layer w)) /\
    (forall src rest, waitingForPeer (layer w) = None -> waitingForLayer (layer w) = src :: rest ->
      exists more, waitingForLayer (layer w') = rest ++ more) /\
    (waitingForLayer (layer w) = [] -> waitingForPeer (layer w) = None -> Drain.drainState (self (layer w)) (drains w') <> Some Drain.Draining)).
Proof.
  intros [Hs (a & Ha & Hst)] He C1 C2 C3 Hh. pose proof (owned_agree _ _ _ _ Ha He) as ->.
  assert (state (layer w) = BUSY /\ 0 < t) as [Hb Hpos].
  { destruct (state (layer w)); [by destruct Hst|by destruct Hst as (t' & [= <-] & ?)|done]. }
  unfold releaseLayer. rewrite Hb. simpl. pose proof C2 as (ev & Hev & _ & _ & _ & _ & Hsc & _). unfold EventQ.deref. rewrite Hev. simpl. rewrite Hsc. simpl.
  assert (sound w st1) as Hs1 by (destruct Hs as [S1 S2 S3 S4 S5]; split; rewrite ?C3; try done; lia).
  assert (sound (set_layer (set_state IDLE (layer w)) w) st1) as Hs2 by (apply sound_layer; [done|done|apply Hs]).
  assert (waitingForLayer (layer w) = [] \/ is_Some (waitingForPeer (layer w)) -> layer_ok (set_layer (set_state IDLE (layer w)) w) st1) as Hidle.
  { intros Hor. split; [done|]. exists None. rewrite layer_set. split; [done|]. simpl. split; [done|]. split; [|intros _; lia].
    intros Hp. destruct Hor as [|[? ?]]; [done|congruence]. }
  destruct (waitingForLayer (layer w)) as [|src rest] eqn:Hw, (waitingForPeer (layer w)) as [peer|] eqn:Hp; simpl.
  - split; [by apply Hidle; right|]. rewrite layer_set. by repeat split.
  - specialize (Hidle (or_introl eq_refl)). rewrite drains_set_layer. destruct (so_drain _ _ Hs) as [D1 D2].
    destruct (proj1 (lv_all _ (ct_live _ D1) _) D2) as [s Hds]. unfold Drain.drainState. rewrite Hds. simpl.
    assert (s = Drain.Draining \/ s <> Drain.Draining) as [->|Hne] by (destruct s; auto).
    + apply wp_bind. eapply wp_mono; [apply wp_eqn, (signal_counted _ _ D1 D2)|]. intros d [(E1 & E2 & _) E]. simpl. split.
      * destruct Hidle as [Hi1 Hi2]. split; [|by rewrite layer_set_drains]. destruct Hi1 as [S1 S2 S3 S4 S5].
        split; rewrite ?layer_set_drains; try done; [by apply host_set_drains|]. split; [by rewrite drains_set|]. rewrite drains_set, layer_set_drains, layer_set, E2. done.
      * rewrite layer_set_drains, layer_set, drains_set. split; [done|]. split; [done|]. split; [done|]. split; [by intros|]. intros _ _.
        by apply (signal_leaves (self (layer w)) (drains w) d).
    + destruct s; try done; (split; [done|]); rewrite layer_set, drains_set_layer; (split; [done|]); (split; [done|]); (split; [done|]); (split; [by intros|]); intros _ _ E; congruence.
  - split; [by apply Hidle; right|]. rewrite layer_set. by repeat split.
  - eapply wp_mono; [apply (retryWaiting_spec _ st1 src rest Hs2); rewrite ?layer_set; (done || lia)|].
    intros [w' st'] (Hok & Hb' & Ht' & Hsame & [more Hm]). rewrite layer_set in Hsame. split; [done|]. split; [lia|]. split; [done|].
    split; [by rewrite Hb'|]. split; [|done]. intros src' rest' _ [= <- <-]. by exists more.
Qed.

(** The peer asks for a retry: the refused port is the first in line. *)
Lemma recvRetry_spec w st src :
  layer_ok w st -> waitingForPeer (layer w) = Some src ->
  wp (recvRetry sendRetry (w, st)) (fun '(w', st') => layer_ok w' st' /\ EventQ.curTick st' = EventQ.curTick st /\ same_layer (layer w) (layer w') /\
    state (layer w') = BUSY /\
    exists more, waitingForLayer (layer w') = (if decide (state (layer w) = IDLE) then [] else [src]) ++ waitingForLayer (layer w) ++ more).
Proof.
  intros [Hs (a & Ha & Hst)] Hp. unfold recvRetry. rewrite Hp. simpl.
  set (l1 := set_peer None (set_waiting (src :: waitingForLayer (layer w)) (layer w))).
  assert (sound (set_layer l1 w) st) as Hs1.
  { apply sound_layer; [done|done|]. pose proof (so_nodup _ _ Hs) as Hnd. unfold ports in *. rewrite Hp in Hnd. done. }
  destruct (state (layer w)) eqn:Hi; simpl; [|destruct Hst as (t & -> & Ht)|done].
  - destruct Hst as (-> & _ & Ht). eapply wp_mono; [apply (retryWaiting_spec _ st src (waitingForLayer (layer w)) Hs1); rewrite ?layer_set; try done; rewrite Hp in Ht; by apply Ht|].
    intros [w' st'] (Hok & Hb & Ht' & Hsame & [more Hm]). rewrite layer_set in Hsame. split; [done|]. split; [done|]. split; [done|]. split; [done|]. by exists more.
  - rewrite layer_set. split; [|split; [done|]; split; [done|]; split; [done|]; exists []; by rewrite app_nil_r].
    split; [done|]. exists (Some t). rewrite layer_set. split; [done|]. simpl. rewrite Hi. by exists t.
Qed.
End Retries.
