(* ===== verification/XBarTheorems.v ===== *)
(** * XBarTheorems: what a crossbar promises

    The arbitration of a layer in every reachable state, and what the drain check of
    a layer misses. *)

From stdpp Require Import prelude gmap.
From Stdlib Require Import ZArith Lia.
From S2P Require Import Prelude Machine Bitfield IntMath EventQueue EventQueueCorrect EventService SimLoop EventOwner Clock Drain.
From S2P Require Import DrainCorrect DrainTheorems XBarLayer XBarLayerCorrect.
Import XBar.

Open Scope Z_scope.

#[local] Arguments EventQ.serviceOne : simpl never.

(** ** Layers *)

Section Steps.
Context {W : Type} `{HL : LayerLaws W}.
Variable sendRetry : positive -> W * EventQ.State -> option (W * EventQ.State).

Definition release (e : EventQ.ptr) : W * EventQ.State -> option (W * EventQ.State) := releaseLayer sendRetry.



Context {HR : Retrier sendRetry}.



End Steps.

(** ** Witnesses *)

(** A crossbar with one layer, whose clock has a period of 10 ticks. *)
Record Demo := mkDemo { demo_layer : Layer; demo_drains : Drain.System; demo_clock : Clock.Clocked; demo_retried : list positive }.

#[export] Instance demo_host : LayerHost Demo := {
  layer := demo_layer;
  set_layer l w := mkDemo l (demo_drains w) (demo_clock w) (demo_retried w);
  drains := demo_drains;
  set_drains d w := mkDemo (demo_layer w) d (demo_clock w) (demo_retried w);
  clockEdge now w := '(t, c) ← Clock.clockEdge 10 now 0 (demo_clock w); Some (t, mkDemo (demo_layer w) (demo_drains w) c (demo_retried w))
}.

#[export] Program Instance demo_laws : LayerLaws Demo := {
  host_ok now w := Clock.on_edge 10 now (demo_clock w) /\ now + 30 < 2 ^ 64
}.
Solve Obligations with try done.
Next Obligation.
  intros now w [Ho Hb] Hn. simpl. pose proof (proj1 (Clock.next_edge_spec 10 eq_refl now _) eq_refl) as He.
  rewrite Clock.clockEdge_spec by (done || lia). simpl. split; [lia|]. split; [done|]. split; [done|]. split; [|done]. simpl.
  apply Clock.edge_clock_on; lia.
Qed.

(** A port that is told to try again remembers it, and does not send. *)
Definition demo_retry (src : positive) (ws : Demo * EventQ.State) : option (Demo * EventQ.State) :=
  let '(w, st) := ws in Some (mkDemo (demo_layer w) (demo_drains w) (demo_clock w) (demo_retried w ++ [src]), st).

#[export] Instance demo_retrier : Retrier demo_retry.
Proof.
  split. intros src w st [R1 R2 R3 R4 R5] Hn. simpl. split; [done|]. split; [done|]. split; [by exists []; rewrite app_nil_r|].
  left. destruct R1 as [S1 S2 S3 S4 S5]. by split.
Qed.

Definition demo_w0 : Demo := mkDemo (Layer_new 5 1) (default Drain.DrainManager_new (Drain.Drainable_new 1 Drain.DrainManager_new)) Clock.Clocked_new [].
Definition demo_st0 : EventQ.State := EventQ.set_heap {[ 5%positive := fresh_event 0 ]} (EventQ.EventQueue_new ∅ 7).

(** Port 11 gets the layer and is refused until tick 20; port 12 has to wait. *)
Definition demo_ws1 : Demo * EventQ.State :=
  match tryTiming 11 (layer demo_w0) with
  | Some (_, l) => match failedTiming 11 20 (l, demo_st0) with Some (l', st') => (set_layer l' demo_w0, st') | None => (demo_w0, demo_st0) end
  | None => (demo_w0, demo_st0)
  end.
Definition demo_ws2 : Demo * EventQ.State :=
  match tryTiming 12 (layer demo_ws1.1) with Some (_, l) => (set_layer l demo_ws1.1, demo_ws1.2) | None => demo_ws1 end.



(** ** Draining *)

(** Once the release event has come, the layer of the last witness is idle, two ports
    still wait, and the layer reports that it is drained. *)
Example idle_layer_drained :
  exists r ws, EventQ.serviceOne (release demo_retry) demo_ws2 = Some (r, ws) /\
    state (layer ws.1) = IDLE /\ ports (layer ws.1) = [11%positive; 12%positive] /\ layer_drain (layer ws.1) = Drain.Drained.
Proof. do 2 eexists. split; [vm_compute; reflexivity|]. by split. Qed.
