(* ===== verification/XBarRoute.v ===== *)
(** * XBarRoute: the address map of a crossbar

    Translates the base class [BaseXBar] of [gem5-X-TiC-SAT/src/mem/xbar.cc] and
    [xbar.hh] but for its layers: the map from addresses to the master ports, which
    the devices behind the ports announce and may change, and the timing of a
    packet.  What the device behind a port announces is a parameter; [fatal] is
    [None]. *)

From stdpp Require Import prelude.
From Stdlib Require Import ZArith Lia.
From S2P Require Import Prelude Machine Bitfield IntMath AddrRange AddrRangeMap Clock Packet.

Open Scope Z_scope.

Module Route.

(** The size of the cache of [portMap]. *)
Definition cache_size : Z := 3.

Definition InvalidPortID : Z := -1.

Record BaseXBar := mkXBar {
  portMap : RangeMap.AddrRangeMap Z;
  gotAddrRanges : list bool;
  gotAllAddrRanges : bool;
  defaultPortID : Z;
  useDefaultRange : bool;
  defaultRange : AddrRange;
  xbarRanges : list AddrRange
}.

(** [masters] ports, and one more, the last, if there is a default device. *)
Definition BaseXBar_new (masters : Z) (has_default use_default : bool) : BaseXBar :=
  mkXBar (RangeMap.mkMap [] []) (replicate (Z.to_nat (masters + Z.b2z has_default)) false) false
    (if has_default then masters else InvalidPortID) use_default AddrRange_default [].

Definition set_map (m : RangeMap.AddrRangeMap Z) (x : BaseXBar) : BaseXBar :=
  mkXBar m (gotAddrRanges x) (gotAllAddrRanges x) (defaultPortID x) (useDefaultRange x) (defaultRange x) (xbarRanges x).
Definition set_got (g : list bool) (all : bool) (x : BaseXBar) : BaseXBar :=
  mkXBar (portMap x) g all (defaultPortID x) (useDefaultRange x) (defaultRange x) (xbarRanges x).
Definition set_default (r : AddrRange) (x : BaseXBar) : BaseXBar :=
  mkXBar (portMap x) (gotAddrRanges x) (gotAllAddrRanges x) (defaultPortID x) (useDefaultRange x) r (xbarRanges x).
Definition set_ranges (l : list AddrRange) (x : BaseXBar) : BaseXBar :=
  mkXBar (portMap x) (gotAddrRanges x) (gotAllAddrRanges x) (defaultPortID x) (useDefaultRange x) (defaultRange x) l.

(** The port is returned with the crossbar, as a lookup changes the cache. *)
Definition findPort (r : AddrRange) (x : BaseXBar) : option (Z * BaseXBar) :=
  _ ← assert_ (gotAllAddrRanges x);
  '(i, m) ← RangeMap.map_contains cache_size r (portMap x);
  let x := set_map m x in
  match i with
  | Some e => Some (e.2, x)
  | None =>
      if useDefaultRange x then
        sub ← isSubset r (defaultRange x);
        if (sub : bool) then Some (defaultPortID x, x) else None
      else if negb (defaultPortID x =? InvalidPortID) then Some (defaultPortID x, x)
      else None
  end.

(** ** Range changes *)

(** The loop over the entries that are in the map when it starts. *)
Fixpoint erase_port (id : Z) (es : list (RangeMap.entry Z)) (m : RangeMap.AddrRangeMap Z) : option (RangeMap.AddrRangeMap Z) :=
  match es with
  | [] => Some m
  | e :: es => m ← (if e.2 =? id then RangeMap.erase e.1 m else Some m); erase_port id es m
  end.

Fixpoint insert_ranges (id : Z) (rs : list AddrRange) (m : RangeMap.AddrRangeMap Z) : option (RangeMap.AddrRangeMap Z) :=
  match rs with
  | [] => Some m
  | r :: rs =>
      '(it, m) ← RangeMap.insert cache_size r id m;
      match it with Some _ => insert_ranges id rs m | None => None end
  end.

(** A range is kept if it is not a subset of the default range. *)
Definition keep (x : BaseXBar) (r : AddrRange) (l : list AddrRange) : option (list AddrRange) :=
  sub ← (if useDefaultRange x then isSubset r (defaultRange x) else Some false);
  Some (if (sub : bool) then l else l ++ [r]).

Definition keep_merged (x : BaseXBar) (intlv l : list AddrRange) : option (list AddrRange) :=
  merged ← AddrRange_merge intlv; keep x merged l.

(** [(xbarRanges, intlv_ranges)] after one more entry of the map. *)
Definition aggregate_step (x : BaseXBar) (acc : list AddrRange * list AddrRange) (r : AddrRange) : option (list AddrRange * list AddrRange) :=
  let '(l, intlv) := acc in
  if interleaved r then
    '(l, intlv) ← (match last intlv with
                   | Some back => if negb (mergesWith back r) then l ← keep_merged x intlv l; Some (l, []) else Some (l, intlv)
                   | None => Some (l, intlv)
                   end);
    Some (l, intlv ++ [r])
  else l ← keep x r l; Some (l, intlv).

Fixpoint aggregate_loop (x : BaseXBar) (rs : list AddrRange) (acc : list AddrRange * list AddrRange) : option (list AddrRange * list AddrRange) :=
  match rs with
  | [] => Some acc
  | r :: rs => acc ← aggregate_step x acc r; aggregate_loop x rs acc
  end.

Fixpoint check_default (d : AddrRange) (rs : list AddrRange) : option () :=
  match rs with
  | [] => Some ()
  | r :: rs =>
      i ← intersects r d;
      ok ← (if (i : bool) then isSubset r d else Some true);
      if (ok : bool) then check_default d rs else None
  end.

Definition aggregate (x : BaseXBar) : option (list AddrRange) :=
  start ← (if useDefaultRange x then
             got ← aget (gotAddrRanges x) (defaultPortID x);
             if (got : bool) then Some [defaultRange x] else None
           else Some []);
  '(l, intlv) ← aggregate_loop x (RangeMap.tree (portMap x)).*1 (start, []);
  l ← (match intlv with [] => Some l | _ => keep_merged x intlv l end);
  _ ← (if useDefaultRange x then check_default (defaultRange x) l else Some ());
  Some l.

(** [ranges] are those of the device behind the port. *)
Definition update_port (id : Z) (ranges : list AddrRange) (x : BaseXBar) : option BaseXBar :=
  if id =? defaultPortID x then
    if useDefaultRange x then
      match ranges with [r] => Some (set_default r x) | _ => None end
    else Some x
  else
    b ← aget (gotAddrRanges x) id;
    m ← (if (b : bool) then erase_port id (RangeMap.tree (portMap x)) (portMap x) else Some (portMap x));
    m ← insert_ranges id ranges m;
    Some (set_map m x).

(** The result says whether the neighbours of the slave ports are told. *)
Definition recvRangeChange (id : Z) (ranges : list AddrRange) (x : BaseXBar) : option (bool * BaseXBar) :=
  got ← aset (gotAddrRanges x) id true;
  x ← update_port id ranges (set_got got (if gotAllAddrRanges x then true else forallb (fun b => b) got) x);
  if gotAllAddrRanges x then l ← aggregate x; Some (true, set_ranges l x) else Some (false, x).

Definition getAddrRanges (x : BaseXBar) : option (list AddrRange) := _ ← assert_ (gotAllAddrRanges x); Some (xbarRanges x).

(** ** Timing *)

(** [divCeil] at the type [unsigned]. *)
Definition divCeil32 (a b : Z) : option Z := if b =? 0 then None else Some (uint32 (a + b - 1) / b).

(** [us] is [SimClock::Int::us], [width] the width of the crossbar in bytes. *)
Definition calcPacketTiming (us width clockPeriod now header_delay : Z) (p : Pkt.Packet) (c : Clock.Clocked) : option (Pkt.Packet * Clock.Clocked) :=
  '(edge, c) ← Clock.clockEdge clockPeriod now 0 c;
  let offset := uint64 (edge - now) in
  let p := Pkt.set_delays (uint32 (Pkt.headerDelay p + uint64 (offset + header_delay))) (Pkt.payloadDelay p) p in
  _ ← assert_ (negb (us <? Pkt.headerDelay p));
  if Pkt.hasData p then
    n ← Pkt.getSize p;
    beats ← divCeil32 n width;
    Some (Pkt.set_delays (Pkt.headerDelay p) (uint32 (Z.max (Pkt.payloadDelay p) (uint64 (beats * clockPeriod)))) p, c)
  else Some (p, c).

End Route.
