(* ===== verification/XBarRouteTheorems.v ===== *)
(** * XBarRouteTheorems: the address map of a crossbar against what was announced

    The specification of a crossbar's address map is the finite map from ports to the
    ranges they have announced last.  The operations keep the crossbar's map in
    step with it, for plain (not interleaved) ranges; so a packet goes to the port
    that announced its address. *)

From stdpp Require Import prelude gmap sorting.
From Stdlib Require Import ZArith Lia.
From S2P Require Import Prelude Machine AddrRange AddrRangeMap XBarRoute.
Import Route.

Open Scope Z_scope.

Abbreviation tree := RangeMap.tree.
Abbreviation plain := RangeMap.plain.
Abbreviation map_ok := (RangeMap.map_ok cache_size).

(** ** Plain ranges *)

Definition within (r r' : AddrRange) : Prop := ar_start r' <= ar_start r /\ ar_end r <= ar_end r'.
Definition apart (r r' : AddrRange) : Prop := ar_end r < ar_start r' \/ ar_end r' < ar_start r.

#[export] Instance within_dec r r' : Decision (within r r').
Proof. unfold within. apply _. Defined.
#[export] Instance apart_dec r r' : Decision (apart r r').
Proof. unfold apart. apply _. Defined.

Lemma apart_sym r r' : apart r r' -> apart r' r.
Proof. unfold apart. lia. Qed.

Lemma isSubset_within r r' : plain r -> plain r' -> isSubset r r' = Some (bool_decide (within r r')).
Proof.
  intros H H'. rewrite RangeMap.isSubset_plain by done. f_equal. apply eq_true_iff_eq. rewrite andb_true_iff, !Z.leb_le, bool_decide_eq_true. done.
Qed.

Lemma intersects_apart r r' : plain r -> plain r' -> intersects r r' = Some (bool_decide (~ apart r r')).
Proof.
  intros H H'. rewrite RangeMap.intersects_plain_eq by done. f_equal. apply eq_true_iff_eq.
  rewrite andb_true_iff, !Z.leb_le, bool_decide_eq_true. unfold apart. lia.
Qed.

Lemma plain_contains r a : plain r -> contains r a = true <-> ar_start r <= a <= ar_end r.
Proof. intros H. rewrite contains_iff, (RangeMap.plain_interleaved _ H). naive_solver. Qed.

Lemma within_contains r r' a : plain r -> plain r' -> within r r' -> contains r a = true -> contains r' a = true.
Proof. intros H H' Hw. rewrite !plain_contains by done. unfold within in Hw. lia. Qed.

Lemma RangeSize_plain_any a n : 0 <= a -> 0 < n -> a + n <= 2 ^ 64 -> plain (RangeSize a n).
Proof.
  intros Ha Hn Hb. unfold RangeSize, AddrRange_plain. assert (uint64 (a + n - 1) = a + n - 1) as -> by (unfold uint64; rewrite wrapU_small; lia).
  split; simpl; unfold addr; lia.
Qed.

(** ** Entries of the map *)

Section Map.
Implicit Types (m : RangeMap.AddrRangeMap Z) (es : list (RangeMap.entry Z)).

Lemma tree_nodup m : map_ok m -> NoDup (tree m).*1.
Proof.
  intros Hm. pose proof (RangeMap.mo_sorted _ _ Hm) as Hs. pose proof (RangeMap.mo_plain _ _ Hm) as Hp.
  induction (tree m) as [|e t IH]; [constructor|]. apply StronglySorted_inv in Hs as [Hs HF]. apply Forall_cons in Hp as [He Hp].
  rewrite fmap_cons. constructor; [|by apply IH]. intros Hin. apply list_elem_of_fmap in Hin as (e' & E & Hin).
  rewrite Forall_forall in HF. specialize (HF _ Hin). unfold RangeMap.below in HF. rewrite E in HF. rewrite Forall_forall in Hp.
  pose proof (RangeMap.pl_valid _ (Hp _ Hin)). lia.
Qed.

Lemma tree_key m (e e' : RangeMap.entry Z) : map_ok m -> e ∈ tree m -> e' ∈ tree m -> e.1 = e'.1 -> e = e'.
Proof.
  intros Hm. destruct e as [k d], e' as [k' d']. simpl. intros H1 H2 ->. f_equal.
  apply (RangeMap.sorted_key (tree m) k'); [apply Hm|apply Hm|done|done].
Qed.

Lemma erase_port_spec id es m :
  map_ok m -> NoDup es.*1 -> (forall e, e ∈ es -> e ∈ tree m) ->
  exists m', erase_port id es m = Some m' /\ map_ok m' /\ forall e, e ∈ tree m' <-> e ∈ tree m /\ ~ (e ∈ es /\ e.2 = id).
Proof.
  revert m. induction es as [|x es IH]; intros m Hm Hn Hin.
  { exists m. split; [done|]. split; [done|]. intros e. set_solver. }
  rewrite fmap_cons in Hn. apply NoDup_cons in Hn as [Hx Hn]. simpl. destruct (Z.eqb_spec x.2 id) as [Eid|Nid].
  - destruct (RangeMap.erase_spec cache_size x.1 x.2 m Hm) as (m1 & -> & Hm1 & H1); [rewrite <- surjective_pairing; apply Hin; set_solver|]. simpl.
    destruct (IH m1 Hm1 Hn) as (m' & E & Hm' & H').
    { intros e He. apply H1. split; [apply Hin; set_solver|]. intros Ee. apply Hx. rewrite <- Ee. by apply list_elem_of_fmap_2. }
    exists m'. split; [done|]. split; [done|]. intros e. rewrite H', H1, elem_of_cons. split.
    + intros [[Ht Hne] Hnot]. split; [done|]. intros [[->|?] ?]; [done|]. by apply Hnot.
    + intros [Ht Hnot]. split; [split; [done|]|tauto]. intros Ee. apply Hnot.
      assert (e = x) as -> by (apply (tree_key m); [done|done|apply Hin; set_solver|done]). by split; [left|].
  - simpl. destruct (IH m Hm Hn) as (m' & E & Hm' & H'); [intros; apply Hin; set_solver|]. exists m'. split; [done|]. split; [done|].
    intros e. rewrite H', elem_of_cons. split; [|tauto]. intros [Ht Hnot]. split; [done|]. intros [[->|?] ?]; [done|]. by apply Hnot.
Qed.

Lemma insert_ranges_spec id rs m :
  map_ok m -> Forall plain rs ->
  let fits := ForallOrdPairs apart rs /\ forall r e, r ∈ rs -> e ∈ tree m -> apart r e.1 in
  match insert_ranges id rs m with
  | Some m' => fits /\ map_ok m' /\ forall e, e ∈ tree m' <-> e ∈ tree m \/ e.1 ∈ rs /\ e.2 = id
  | None => ~ fits
  end.
Proof.
  revert m. induction rs as [|r rs IH]; intros m Hm Hp; simpl.
  { split; [split; [constructor|set_solver]|]. split; [done|]. set_solver. }
  apply Forall_cons in Hp as [Hr Hp].
  destruct (RangeMap.insert_spec cache_size ltac:(unfold cache_size; lia) r id m Hm Hr) as (it & m1 & -> & Hm1 & Hcase). simpl.
  destruct Hcase as [((e & He & H1 & H2) & -> & Ht)|(Hap & -> & Ht)].
  { intros [_ Hx]. specialize (Hx r e ltac:(set_solver) He). unfold apart in Hx. lia. }
  assert (forall e, e ∈ tree m1 <-> e = (r, id) \/ e ∈ tree m) as Ht' by (intros e; rewrite Ht; apply elem_of_cons).
  specialize (IH m1 Hm1 Hp). simpl in IH. destruct (insert_ranges id rs m1) as [m'|].
  - destruct IH as ([F1 F2] & Hm' & H'). split; [split|split; [done|]].
    + constructor; [|done]. apply List.Forall_forall. intros r' Hr'. apply list_elem_of_In in Hr'. apply apart_sym, (F2 r' (r, id)); [done|]. apply Ht'. by left.
    + intros r' e Hr' He. apply elem_of_cons in Hr' as [->|Hr']; [by apply Hap|]. apply F2; [done|]. apply Ht'. by right.
    + intros e. rewrite H', Ht', elem_of_cons. destruct e as [k d]. simpl. naive_solver.
  - intros [F1 F2]. apply IH. inversion_clear F1 as [|? ? F3 F4]. split; [done|]. intros r' e Hr' He. apply Ht' in He as [->|He].
    + apply apart_sym. rewrite List.Forall_forall in F3. by apply F3, list_elem_of_In.
    + apply F2; [set_solver|done].
Qed.
End Map.

(** ** Aggregation *)

Lemma check_default_spec d rs :
  plain d -> Forall plain rs -> check_default d rs = Some () <-> forall r, r ∈ rs -> apart r d \/ within r d.
Proof.
  intros Hd. induction rs as [|r rs IH]; intros Hp; simpl; [split; [set_solver|done]|]. apply Forall_cons in Hp as [Hr Hp].
  rewrite intersects_apart by done. simpl. assert (forall P : AddrRange -> Prop, (forall r', r' ∈ r :: rs -> P r') <-> P r /\ forall r', r' ∈ rs -> P r') as -> by set_solver.
  case_bool_decide as Ha; simpl; [rewrite isSubset_within by done; simpl; case_bool_decide as Hw|]; [| |]; rewrite ?IH by done; try tauto.
  split; [done|]. tauto.
Qed.

Section Aggregate.
Variable x : BaseXBar.
Hypothesis Hdef : useDefaultRange x = true -> plain (defaultRange x).

(** The default range covers [r]. *)
Definition dropped (r : AddrRange) : Prop := useDefaultRange x = true /\ within r (defaultRange x).

#[local] Instance dropped_dec r : Decision (dropped r).
Proof. unfold dropped. apply _. Defined.

Lemma keep_plain r l : plain r -> keep x r l = Some (if decide (dropped r) then l else l ++ [r]).
Proof.
  intros Hr. unfold keep. destruct (decide (dropped r)) as [[Hu Hw]|Hn]; [rewrite Hu, isSubset_within by auto; simpl; by rewrite bool_decide_true|].
  destruct (useDefaultRange x) eqn:Hu; [|done]. rewrite isSubset_within by auto. simpl. by rewrite bool_decide_false by (intros Hw; by apply Hn).
Qed.

Lemma aggregate_loop_plain rs l :
  Forall plain rs -> aggregate_loop x rs (l, []) = Some (l ++ filter (fun r => ~ dropped r) rs, []).
Proof.
  revert l. induction rs as [|r rs IH]; intros l Hp; simpl; [by rewrite app_nil_r|]. apply Forall_cons in Hp as [Hr Hp].
  rewrite (RangeMap.plain_interleaved r Hr), keep_plain by done. simpl. rewrite IH by done. rewrite filter_cons.
  do 2 f_equal. destruct (decide (dropped r)), (decide (~ dropped r)); try done. by rewrite <- app_assoc.
Qed.

Definition fits_default (rs : list AddrRange) : Prop :=
  useDefaultRange x = true -> forall r, r ∈ rs -> apart r (defaultRange x) \/ within r (defaultRange x).

(** The address of a range, default or announced. *)
Definition covered (rs : list AddrRange) (a : Z) : Prop :=
  (useDefaultRange x = true /\ contains (defaultRange x) a = true) \/ exists r, r ∈ rs /\ contains r a = true.

Lemma aggregate_spec :
  let rs := (tree (portMap x)).*1 in
  Forall plain rs -> (useDefaultRange x = true -> aget (gotAddrRanges x) (defaultPortID x) = Some true) ->
  match aggregate x with
  | Some l => fits_default rs /\ forall a, (exists r, r ∈ l /\ contains r a = true) <-> covered rs a
  | None => ~ fits_default rs
  end.
Proof.
  intros rs Hp Hg. unfold aggregate. fold rs. set (start := if useDefaultRange x then [defaultRange x] else []).
  assert ((if useDefaultRange x then got ← aget (gotAddrRanges x) (defaultPortID x); if (got : bool) then Some [defaultRange x] else None else Some []) = Some start) as ->.
  { unfold start. destruct (useDefaultRange x); [by rewrite Hg|done]. }
  simpl. rewrite aggregate_loop_plain by done. simpl. set (l := start ++ filter (fun r => ~ dropped r) rs).
  assert (forall r, r ∈ l <-> (useDefaultRange x = true /\ r = defaultRange x) \/ (r ∈ rs /\ ~ dropped r)) as Hl.
  { intros r. unfold l. rewrite elem_of_app, list_elem_of_filter. unfold start. destruct (useDefaultRange x); set_solver. }
  assert (forall a, (exists r, r ∈ l /\ contains r a = true) <-> covered rs a) as Hcov.
  { intros a. unfold covered. split.
    - intros (r & Hr & Ha). apply Hl in Hr as [[Hu ->]|[Hr _]]; [by left|right; by exists r].
    - intros [[Hu Ha]|(r & Hr & Ha)]; [exists (defaultRange x); split; [apply Hl; by left|done]|].
      destruct (decide (dropped r)) as [[Hu Hw]|Hk]; [|exists r; split; [apply Hl; by right|done]].
      exists (defaultRange x). split; [apply Hl; by left|]. rewrite Forall_forall in Hp. by apply (within_contains r); auto. }
  unfold fits_default. destruct (useDefaultRange x) eqn:Hu; [|simpl; by split].
  assert (Forall plain l) as Hpl.
  { apply Forall_forall. intros r Hr. apply Hl in Hr as [[_ ->]|[Hr _]]; [by apply Hdef|]. rewrite Forall_forall in Hp. by apply Hp. }
  pose proof (check_default_spec (defaultRange x) l (Hdef eq_refl) Hpl) as Hc.
  destruct (check_default (defaultRange x) l) as [[]|]; simpl.
  - split; [|done]. intros _ r Hr. destruct (decide (dropped r)) as [[_ Hw]|Hk]; [by right|]. apply (proj1 Hc eq_refl r), Hl. by right.
  - intros Hf. discriminate (proj2 Hc). intros r Hr. apply Hl in Hr as [[_ ->]|[Hr _]]; [right; unfold within; lia|by apply Hf].
Qed.
End Aggregate.

(** ** What was announced *)

Abbreviation Announced := (gmap Z (list AddrRange)).

Section Routes.
Implicit Types (ann : Announced) (x : BaseXBar).

Definition is_port x (id : Z) : Prop := 0 <= id < zlen (gotAddrRanges x).
Definition everyone ann x : Prop := forall id, is_port x id -> is_Some (ann !! id).

(** The ranges of the ports other than the default port. *)
Definition announced ann x (id : Z) (r : AddrRange) : Prop :=
  id <> defaultPortID x /\ exists rs, ann !! id = Some rs /\ r ∈ rs.

Record mapped ann x : Prop := {
  ma_map : map_ok (portMap x);
  ma_tree : forall r id, (r, id) ∈ tree (portMap x) <-> announced ann x id r;
  ma_ids : forall id rs, ann !! id = Some rs -> is_port x id /\ Forall plain rs;
  ma_got : forall id, is_port x id -> aget (gotAddrRanges x) id = Some (bool_decide (is_Some (ann !! id)));
  ma_all : gotAllAddrRanges x = forallb (fun b => b) (gotAddrRanges x);
  ma_default : useDefaultRange x = true -> is_port x (defaultPortID x) /\ forall rs, ann !! defaultPortID x = Some rs -> rs = [defaultRange x]
}.

(** An address of a range that counts: of a port, or the default range. *)
Definition reachable ann x (a : Z) : Prop :=
  (useDefaultRange x = true /\ contains (defaultRange x) a = true) \/ exists id r, announced ann x id r /\ contains r a = true.

Record routes ann x : Prop := {
  ro_mapped : mapped ann x;
  ro_ranges : gotAllAddrRanges x = true -> forall a, (exists r, r ∈ xbarRanges x /\ contains r a = true) <-> reachable ann x a
}.

Lemma all_everyone ann x : mapped ann x -> gotAllAddrRanges x = true <-> everyone ann x.
Proof.
  intros M. rewrite (ma_all _ _ M), forallb_forall. split.
  - intros H id Hid. pose proof (ma_got _ _ M id Hid) as E. rewrite <- bool_decide_eq_true. apply H.
    unfold aget in E. destruct (id <? 0); [done|]. apply list_elem_of_In, list_elem_of_lookup. by exists (Z.to_nat id).
  - intros H b Hb. apply list_elem_of_In, list_elem_of_lookup in Hb as [i Hi].
    assert (is_port x (Z.of_nat i)) as Hp by (apply lookup_lt_Some in Hi; unfold is_port, zlen; lia).
    pose proof (ma_got _ _ M _ Hp) as E. unfold aget in E. destruct (Z.ltb_spec (Z.of_nat i) 0); [lia|]. rewrite Nat2Z.id, Hi in E. injection E as ->.
    by apply bool_decide_eq_true, H.
Qed.

(** ** A port announces its ranges *)

(** What the code demands of the ranges of a port: the default port has one range
    if that is used; those of another port have no address in common, among
    themselves and with the ranges of other ports. *)
Definition compatible_port ann x (id : Z) (rs : list AddrRange) : Prop :=
  (id = defaultPortID x -> useDefaultRange x = true -> exists d, rs = [d]) /\
  (id <> defaultPortID x -> ForallOrdPairs apart rs /\
    forall id' r r', id' <> id -> announced ann x id' r' -> r ∈ rs -> apart r r').

Lemma announced_insert ann x id rs id' r :
  announced (<[id := rs]> ann) x id' r <-> (id' = id /\ id <> defaultPortID x /\ r ∈ rs) \/ (id' <> id /\ announced ann x id' r).
Proof.
  unfold announced. destruct (decide (id' = id)) as [->|Hne].
  - setoid_rewrite lookup_insert_eq. naive_solver.
  - setoid_rewrite lookup_insert_ne; [|done]. naive_solver.
Qed.

Lemma update_port_spec ann x id rs :
  mapped ann x -> is_port x id -> Forall plain rs ->
  let got := <[Z.to_nat id := true]> (gotAddrRanges x) in
  match update_port id rs (set_got got (if gotAllAddrRanges x then true else forallb (fun b => b) got) x) with
  | Some x' => compatible_port ann x id rs /\ mapped (<[id := rs]> ann) x' /\
      defaultPortID x' = defaultPortID x /\ useDefaultRange x' = useDefaultRange x /\ zlen (gotAddrRanges x') = zlen (gotAddrRanges x)
  | None => ~ compatible_port ann x id rs
  end.
Proof.
  intros M Hid Hp got. set (x1 := set_got got _ x).
  assert (zlen got = zlen (gotAddrRanges x)) as Hlen by (unfold zlen, got; by rewrite length_insert).
  assert (forall id', is_port x1 id' <-> is_port x id') as Hport by (intros; unfold is_port; by simpl; rewrite Hlen).
  assert (gotAllAddrRanges x1 = forallb (fun b => b) got) as Hall.
  { simpl. destruct (gotAllAddrRanges x) eqn:E; [|done]. symmetry. rewrite (ma_all _ _ M), forallb_forall, <- List.Forall_forall in E.
    apply forallb_forall, List.Forall_forall. by apply Forall_insert. }
  assert (forall id', is_port x1 id' -> aget got id' = Some (bool_decide (is_Some (<[id := rs]> ann !! id')))) as Hgot.
  { intros id' Hid'. apply Hport in Hid'. unfold got. rewrite aget_insert by done. destruct (Z.eqb_spec id' id) as [->|Hne].
    - by rewrite lookup_insert_eq, bool_decide_true.
    - rewrite lookup_insert_ne by done. by apply M. }
  assert (forall id' rs', <[id := rs]> ann !! id' = Some rs' -> is_port x1 id' /\ Forall plain rs') as Hids.
  { intros id' rs' E. rewrite Hport. apply lookup_insert_Some in E as [[<- <-]|[_ E]]; [done|by apply M in E]. }
  unfold update_port. simpl. destruct (Z.eqb_spec id (defaultPortID x)) as [Ed|Nd].
  - assert (forall r id', (r, id') ∈ tree (portMap x) <-> announced (<[id := rs]> ann) x id' r) as Htree.
    { intros r id'. rewrite (ma_tree _ _ M), announced_insert. unfold announced. naive_solver. }
    destruct (useDefaultRange x) eqn:Hu.
    + destruct rs as [|d [|]]; try (intros [Hc _]; destruct (Hc Ed Hu) as [? ?]; congruence).
      split; [by split; [intros _ _; exists d|]|]. split; [|done]. split; try done; [by apply M|]. intros _. split; [apply Hport; simpl; by rewrite <- Ed|].
      intros rs'. simpl. rewrite <- Ed, lookup_insert_eq. congruence.
    + split; [split; [by rewrite Hu|done]|]. split; [|done]. split; try done; [by apply M|]. simpl. by rewrite Hu.
  - rewrite Hgot by (by apply Hport). simpl. rewrite lookup_insert_eq, bool_decide_true by done.
    destruct (erase_port_spec id (tree (portMap x)) (portMap x) (ma_map _ _ M) (tree_nodup _ (ma_map _ _ M))) as (m1 & -> & Hm1 & H1); [done|]. simpl.
    assert (forall r id', (r, id') ∈ tree m1 <-> id' <> id /\ announced ann x id' r) as H1'.
    { intros r id'. rewrite H1, (ma_tree _ _ M). simpl. tauto. }
    pose proof (insert_ranges_spec id rs m1 Hm1 Hp) as H2. simpl in H2. destruct (insert_ranges id rs m1) as [m2|]; simpl.
    + destruct H2 as ([F1 F2] & Hm2 & H2). split; [split; [done|]|].
      * intros _. split; [done|]. intros id' r r' Hne Ha Hr. apply (F2 r (r', id')); [done|]. by apply H1'.
      * split; [|done]. split; try done; [|intros Hu; destruct (ma_default _ _ M Hu) as [D1 D2]; split; [by apply Hport|]].
        -- intros r id'. simpl. rewrite H2, H1', announced_insert. simpl. tauto.
        -- simpl. intros rs'. by rewrite lookup_insert_ne by done; auto.
    + intros [_ Hc]. apply H2. destruct (Hc Nd) as [F1 F2]. split; [done|]. intros r [r' id'] Hr He. apply H1' in He as [Hne Ha]. by apply (F2 id').
Qed.

(** Once every port has announced its ranges, each of them is disjoint from the default
    range or a part of it. *)
Definition compatible_default ann x : Prop :=
  useDefaultRange x = true -> everyone ann x -> forall d id r, ann !! defaultPortID x = Some [d] -> announced ann x id r -> apart r d \/ within r d.

Definition compatible ann x (id : Z) (rs : list AddrRange) : Prop :=
  compatible_port ann x id rs /\ compatible_default (<[id := rs]> ann) x.

Lemma everyone_default ann x :
  mapped ann x -> everyone ann x -> useDefaultRange x = true -> ann !! defaultPortID x = Some [defaultRange x] /\ plain (defaultRange x).
Proof.
  intros M He Hu. destruct (ma_default _ _ M Hu) as [Hd Hr]. destruct (He _ Hd) as [rs E]. pose proof (Hr _ E) as ->. split; [done|].
  destruct (ma_ids _ _ M _ _ E) as [_ Hp]. exact (proj1 (Forall_singleton _ _) Hp).
Qed.

Lemma tree_announced ann x r : mapped ann x -> r ∈ (tree (portMap x)).*1 <-> exists id, announced ann x id r.
Proof.
  intros M. rewrite list_elem_of_fmap. split.
  - intros ([r' id] & -> & H). exists id. by apply M.
  - intros [id H]. exists (r, id). split; [done|]. by apply M.
Qed.

Lemma aggregate_announced ann x :
  mapped ann x -> everyone ann x ->
  match aggregate x with
  | Some l => compatible_default ann x /\ forall a, (exists r, r ∈ l /\ contains r a = true) <-> reachable ann x a
  | None => ~ compatible_default ann x
  end.
Proof.
  intros M He. pose proof (everyone_default ann x M He) as Hd.
  assert (fits_default x (tree (portMap x)).*1 <-> compatible_default ann x) as Hfit.
  { unfold fits_default, compatible_default. split.
    - intros H Hu _ d id r E Ha. destruct (Hd Hu) as [E' _]. rewrite E' in E. injection E as <-.
      apply (H Hu). apply (tree_announced ann); [done|]. by exists id.
    - intros H Hu r Hr. apply (tree_announced ann) in Hr as [id Ha]; [|done]. apply (H Hu He _ id); [by apply Hd|done]. }
  pose proof (aggregate_spec x (fun Hu => proj2 (Hd Hu))) as H. simpl in H.
  assert (Forall plain (tree (portMap x)).*1) as Hp.
  { pose proof (RangeMap.mo_plain _ _ (ma_map _ _ M)) as HP. by apply Forall_fmap. }
  assert (useDefaultRange x = true -> aget (gotAddrRanges x) (defaultPortID x) = Some true) as Hg.
  { intros Hu. rewrite (ma_got _ _ M) by (by apply M). f_equal. apply bool_decide_eq_true. apply He. by apply M. }
  specialize (H Hp Hg). destruct (aggregate x) as [l|]; [|by rewrite <- Hfit]. rewrite <- Hfit. destruct H as [Hf Hc]. split; [done|].
  intros a. rewrite Hc. unfold covered, reachable. setoid_rewrite (tree_announced ann x _ M). naive_solver.
Qed.

Lemma mapped_ext ann x x' :
  mapped ann x -> portMap x' = portMap x -> gotAddrRanges x' = gotAddrRanges x -> gotAllAddrRanges x' = gotAllAddrRanges x ->
  defaultPortID x' = defaultPortID x -> useDefaultRange x' = useDefaultRange x -> defaultRange x' = defaultRange x -> mapped ann x'.
Proof.
  intros [M1 M2 M3 M4 M5 M6] E1 E2 E3 E4 E5 E6. destruct x as [a b c d e f g], x' as [a' b' c' d' e' f' g']. simpl in *. subst. by split.
Qed.

(** The step that a range change makes. *)
Lemma recvRangeChange_spec ann x id rs :
  mapped ann x -> is_port x id -> Forall plain rs ->
  match recvRangeChange id rs x with
  | Some (told, x') => compatible ann x id rs /\ routes (<[id := rs]> ann) x' /\ (told = true <-> everyone (<[id := rs]> ann) x) /\
      defaultPortID x' = defaultPortID x /\ useDefaultRange x' = useDefaultRange x /\ zlen (gotAddrRanges x') = zlen (gotAddrRanges x)
  | None => ~ compatible ann x id rs
  end.
Proof.
  intros M Hid Hp. unfold recvRangeChange. rewrite aset_spec by done. simpl.
  pose proof (update_port_spec ann x id rs M Hid Hp) as H. simpl in H. unfold compatible.
  destruct (update_port _ _ _) as [x1|]; simpl; [|by intros [? _]]. destruct H as (Hc & M1 & E1 & E2 & E3).
  assert (everyone (<[id := rs]> ann) x1 <-> everyone (<[id := rs]> ann) x) as He by (unfold everyone, is_port; by rewrite E3).
  assert (compatible_default (<[id := rs]> ann) x1 <-> compatible_default (<[id := rs]> ann) x) as Hcd.
  { unfold compatible_default, announced. by rewrite He, E1, E2. }
  pose proof (all_everyone _ _ M1) as Hall. destruct (gotAllAddrRanges x1) eqn:E.
  - pose proof (aggregate_announced _ _ M1 (proj1 Hall eq_refl)) as Ha. destruct (aggregate x1) as [l|]; simpl; [|by rewrite <- Hcd; tauto].
    destruct Ha as [Hd Hr]. rewrite <- Hcd. split; [done|]. split; [split; [by apply (mapped_ext _ x1)|intros _; exact Hr]|].
    split; [|done]. by rewrite <- He, <- Hall.
  - assert (~ everyone (<[id := rs]> ann) x) as Hn by (rewrite <- He, <- Hall; done).
    split; [split; [done|]; by intros _ ?|]. split; [split; [done|]; by rewrite E|]. split; [by split|done].
Qed.

(** ** Looking up a range *)

(** The port that serves a range: the one that has announced a range that holds it, or
    else the default port. *)
Definition target ann x (r : AddrRange) (p : Z) : Prop :=
  (exists r', announced ann x p r' /\ within r r') \/
  (p = defaultPortID x /\ (forall id r', announced ann x id r' -> ~ within r r') /\
    if useDefaultRange x then exists d, ann !! p = Some [d] /\ within r d else p <> InvalidPortID).

Lemma routes_map ann x m :
  routes ann x -> map_ok m -> (forall e, e ∈ tree m <-> e ∈ tree (portMap x)) -> routes ann (set_map m x).
Proof.
  intros [[M1 M2 M3 M4 M5 M6] Hr] Hm Ht. split; [|done]. split; try done. intros r id. simpl. rewrite Ht. apply M2.
Qed.

Lemma findPort_spec ann x r :
  routes ann x -> everyone ann x -> plain r ->
  match findPort r x with
  | Some (p, x') => target ann x r p /\ routes ann x' /\ x' = set_map (portMap x') x
  | None => forall p, ~ target ann x r p
  end.
Proof.
  intros R He Hr. pose proof (ro_mapped _ _ R) as M. unfold findPort. rewrite (proj2 (all_everyone _ _ M) He). simpl.
  destruct (RangeMap.map_contains_spec cache_size ltac:(unfold cache_size; lia) r (portMap x) (ma_map _ _ M) Hr) as (it & m & -> & Ht & Hm & Hit). simpl.
  assert (routes ann (set_map m x)) as R' by (apply routes_map; [done|done|intros; by rewrite Ht]).
  destruct it as [[r' p]|].
  { destruct (proj1 (Hit _) eq_refl) as (Hin & H1 & H2). split; [|by split]. left. exists r'. by split; [apply M|split]. }
  assert (forall id r', announced ann x id r' -> ~ within r r') as Hno.
  { intros id r' Ha Hw. apply M in Ha. discriminate (proj2 (Hit (r', id)) (conj Ha Hw)). }
  unfold target. destruct (useDefaultRange x) eqn:Hu; simpl.
  - destruct (everyone_default ann x M He Hu) as [E Hd]. rewrite isSubset_within by done. simpl. case_bool_decide as Hw.
    + split; [|by split]. right. rewrite E. split; [done|]. split; [done|]. by exists (defaultRange x).
    + intros p [(r' & Ha & Hw')|(-> & _ & d & E' & Hw')]; [by apply (Hno p r')|]. congruence.
  - destruct (Z.eqb_spec (defaultPortID x) InvalidPortID) as [Hi|Hi]; simpl.
    + intros p [(r' & Ha & Hw')|(-> & _ & ?)]; [by apply (Hno p r')|done].
    + split; [|by split]. by right.
Qed.

Lemma target_unique ann x r p p' : mapped ann x -> plain r -> target ann x r p -> target ann x r p' -> p = p'.
Proof.
  intros M Hr [(r1 & A1 & W1)|(-> & N1 & _)] [(r2 & A2 & W2)|(-> & N2 & _)]; [|by destruct (N2 _ _ A1)|by destruct (N1 _ _ A2)|done].
  pose proof (RangeMap.pl_valid _ Hr). apply M in A1, A2. pose proof (ma_map _ _ M) as Hm. unfold within in *.
  assert ((r1, p) = (r2, p')) as [= _ ->]; [|done].
  apply (RangeMap.overlap_unique (tree (portMap x)) _ _ (ar_start r)); [apply Hm|apply Hm|done|done|simpl; lia..].
Qed.
End Routes.

(** * A crossbar routes to the port that announced the address *)

#[local] Arguments recvRangeChange : simpl never.

(** The range changes that a crossbar receives, one after the other. *)
Fixpoint announce (hist : list (Z * list AddrRange)) (x : BaseXBar) : option BaseXBar :=
  match hist with
  | [] => Some x
  | (id, rs) :: hist => '(_, x) ← recvRangeChange id rs x; announce hist x
  end.

(** What each port has announced last. *)
Definition latest (hist : list (Z * list AddrRange)) (ann : Announced) : Announced := fold_left (fun ann '(id, rs) => <[id := rs]> ann) hist ann.

(** Every change goes together with what was announced before it. *)
Fixpoint consistent (hist : list (Z * list AddrRange)) (ann : Announced) (x : BaseXBar) : Prop :=
  match hist with
  | [] => True
  | (id, rs) :: hist => compatible ann x id rs /\ consistent hist (<[id := rs]> ann) x
  end.

Lemma compatible_ext ann x x' id rs :
  defaultPortID x' = defaultPortID x -> useDefaultRange x' = useDefaultRange x -> zlen (gotAddrRanges x') = zlen (gotAddrRanges x) ->
  compatible ann x' id rs <-> compatible ann x id rs.
Proof. intros E1 E2 E3. unfold compatible, compatible_port, compatible_default, everyone, announced, is_port. by rewrite E1, E2, E3. Qed.

Lemma consistent_ext hist ann x x' :
  defaultPortID x' = defaultPortID x -> useDefaultRange x' = useDefaultRange x -> zlen (gotAddrRanges x') = zlen (gotAddrRanges x) ->
  consistent hist ann x' <-> consistent hist ann x.
Proof. intros E1 E2 E3. revert ann. induction hist as [|[id rs] hist IH]; intros ann; simpl; [done|]. by rewrite (compatible_ext ann x x'), IH. Qed.

Lemma announce_spec hist ann x :
  routes ann x -> Forall (fun '(id, rs) => is_port x id /\ Forall plain rs) hist ->
  match announce hist x with
  | Some x' => consistent hist ann x /\ routes (latest hist ann) x' /\
      defaultPortID x' = defaultPortID x /\ useDefaultRange x' = useDefaultRange x /\ zlen (gotAddrRanges x') = zlen (gotAddrRanges x)
  | None => ~ consistent hist ann x
  end.
Proof.
  revert ann x. induction hist as [|[id rs] hist IH]; intros ann x R Hh; simpl; [done|]. apply Forall_cons in Hh as [[Hid Hp] Hh].
  pose proof (recvRangeChange_spec ann x id rs (ro_mapped _ _ R) Hid Hp) as H. destruct (recvRangeChange id rs x) as [[told x1]|]; simpl; [|by intros [? _]].
  destruct H as (Hc & R1 & _ & E1 & E2 & E3). specialize (IH _ x1 R1). pose proof (consistent_ext hist (<[id := rs]> ann) x x1 E1 E2 E3) as Hx.
  assert (Forall (fun '(id, rs) => is_port x1 id /\ Forall plain rs) hist) as Hh1.
  { eapply Forall_impl; [exact Hh|]. intros [id' rs']. unfold is_port. by rewrite E3. }
  specialize (IH Hh1). destruct (announce hist x1) as [x'|]; [|intros [_ Hn]; by apply IH, Hx].
  destruct IH as (H1 & H2 & H3 & H4 & H5). split; [split; [done|by apply Hx]|]. split; [done|]. split; [congruence|]. split; congruence.
Qed.

Lemma new_routes masters has_default use_default :
  0 <= masters -> (use_default = true -> has_default = true) -> (0 < masters + Z.b2z has_default) -> routes ∅ (BaseXBar_new masters has_default use_default).
Proof.
  intros Hm Hd Hpos. set (n := Z.to_nat (masters + Z.b2z has_default)). assert (0 <= Z.b2z has_default <= 1) as Hb by (destruct has_default; simpl; lia).
  assert (zlen (replicate n false) = masters + Z.b2z has_default) as Hlen by (unfold zlen; rewrite length_replicate; unfold n; lia).
  split; [|done]. split; simpl; fold n.
  - split; simpl; [constructor|constructor|set_solver|unfold cache_size, zlen; simpl; lia].
  - intros r id. split; [set_solver|]. intros (_ & rs & E & _). by rewrite lookup_empty in E.
  - intros id rs E. by rewrite lookup_empty in E.
  - intros id Hid. change (0 <= id < zlen (replicate n false)) in Hid. rewrite Hlen in Hid. rewrite lookup_empty, bool_decide_false by (by intros [? ?]).
    unfold aget. destruct (Z.ltb_spec id 0); [lia|]. apply lookup_replicate_2. unfold n. lia.
  - assert (n = S (pred n)) as -> by (unfold n; lia). done.
  - intros Hu. split; [change (0 <= (if has_default then masters else InvalidPortID) < zlen (replicate n false)); rewrite Hlen; rewrite (Hd Hu) in *; simpl in *; lia|]. intros rs E. by rewrite lookup_empty in E.
Qed.

(** C20: routing of plain ranges.  When the ports announce plain ranges only (no
    interleaving, nothing that can be merged from stripes) and only plain ranges
    are looked up, the crossbar accepts a sequence of range changes exactly when
    every change goes together with what the ports had announced before.  Then it has
    heard from all ports exactly when all have announced; before that it routes
    nothing; after that it routes a range to the port whose latest ranges hold
    it, else to the default port under its conditions, else nowhere (an error);
    this does not depend on lookups before; and the ranges it announces itself
    are exactly the addresses it can route by a range. *)
Theorem xbar_routes masters has_default use_default hist :
  0 <= masters -> (use_default = true -> has_default = true) -> 0 < masters + Z.b2z has_default ->
  let x0 := BaseXBar_new masters has_default use_default in let ann := latest hist ∅ in
  Forall (fun '(id, rs) => is_port x0 id /\ Forall plain rs) hist ->
  match announce hist x0 with
  | None => ~ consistent hist ∅ x0
  | Some x => consistent hist ∅ x0 /\
      (gotAllAddrRanges x = true <-> everyone ann x0) /\
      (forall r, gotAllAddrRanges x = false -> findPort r x = None) /\
      (forall r, gotAllAddrRanges x = true -> plain r -> forall p, fst <$> findPort r x = Some p <-> target ann x r p) /\
      (forall r q p x', gotAllAddrRanges x = true -> plain r -> plain q -> findPort r x = Some (p, x') -> fst <$> findPort q x' = fst <$> findPort q x) /\
      (gotAllAddrRanges x = true -> exists l, getAddrRanges x = Some l /\ forall a, (exists r, r ∈ l /\ contains r a = true) <-> reachable ann x a)
  end.
Proof.
  intros Hm Hd Hpos x0 ann Hh. pose proof (announce_spec hist ∅ x0 (new_routes masters has_default use_default Hm Hd Hpos) Hh) as H. fold ann in H.
  destruct (announce hist x0) as [x|]; [|done]. destruct H as (Hc & R & E1 & E2 & E3). split; [done|].
  assert (everyone ann x <-> everyone ann x0) as He by (unfold everyone, is_port; by rewrite E3).
  pose proof (all_everyone _ _ (ro_mapped _ _ R)) as Hall. split; [by rewrite <- He|].
  assert (forall x r p, routes ann x -> everyone ann x -> plain r -> fst <$> findPort r x = Some p <-> target ann x r p) as Hfind.
  { clear. intros x r p R He Hr. pose proof (findPort_spec ann x r R He Hr) as H. destruct (findPort r x) as [[p' x']|]; simpl.
    - destruct H as (Ht & _). split; [congruence|]. intros Ht'. f_equal. by apply (target_unique ann x r p' p (ro_mapped _ _ R)).
    - split; [done|]. intros Ht. by destruct (H p). }
  split; [|split; [|split]].
  - intros r Hn. unfold findPort. by rewrite Hn.
  - intros r Ha Hr p. apply Hfind; [done|by apply Hall|done].
  - intros r q p x' Ha Hr Hq E. pose proof (findPort_spec ann x r R (proj1 Hall Ha) Hr) as H. rewrite E in H. destruct H as (_ & R' & Ex).
    apply option_eq. intros p'. rewrite (Hfind x' q p'), (Hfind x q p'); [|done|by apply Hall|done|done| |done]; rewrite Ex; [done|]. by apply Hall.
  - intros Ha. exists (xbarRanges x). unfold getAddrRanges. rewrite Ha. split; [done|]. by apply R.
Qed.

(** ** Witness *)

(** A device at 0x1000 moves to 0x3000; another one is at 0x2000; the default device has the
    range from 0x0 on. *)
Definition demo_hist : list (Z * list AddrRange) :=
  [(0, [RangeSize 0x1000 0x100]); (2, [RangeSize 0 0x10000]); (1, [RangeSize 0x2000 0x100]); (0, [RangeSize 0x3000 0x100])].

Lemma xbar_routes_witness :
  exists x, announce demo_hist (BaseXBar_new 2 true true) = Some x /\ target (latest demo_hist ∅) x (RangeSize 0x3010 4) 0 /\
    target (latest demo_hist ∅) x (RangeSize 0x1010 4) 2.
Proof.
  assert (Forall (fun '(id, rs) => is_port (BaseXBar_new 2 true true) id /\ Forall plain rs) demo_hist) as Hh.
  { repeat (apply Forall_cons; split; [split; [unfold is_port; simpl; unfold zlen; simpl; lia|apply (proj2 (Forall_singleton _ _)), RangeSize_plain_any; lia]|]).
    apply Forall_nil. done. }
  pose proof (xbar_routes 2 true true demo_hist ltac:(lia) ltac:(done) ltac:(simpl; lia) Hh) as H. cbv zeta in H.
  destruct (announce demo_hist (BaseXBar_new 2 true true)) as [x|] eqn:E; [|vm_compute in E; done].
  exists x. split; [done|]. destruct H as (_ & _ & _ & H & _).
  assert (gotAllAddrRanges x = true) as Hall by (vm_compute in E; injection E as <-; done).
  split; apply H; try done; try (apply RangeSize_plain_any; lia); vm_compute in E; injection E as <-; vm_compute; done.
Defined.
