(* ===== verification/NoncoherentXBar.v ===== *)
(** * NoncoherentXBar: the crossbar of the input/output devices

    Translates [gem5-X-TiC-SAT/src/mem/noncoherent_xbar.cc] and
    [noncoherent_xbar.hh]: the crossbar sends a request to the master port that
    [XBarRoute] finds, remembers where its response has to go, and puts the
    response into the packet queue of that slave port; the layers of [XBarLayer]
    arbitrate.  Ports are numbers; the address of port [i] in a layer is
    [port_ptr i].  A vector of layers is a finite map from its indices.  What the
    neighbours of the ports do is a parameter that acts on the whole system, which
    has a part [X] of its own.  Statistics are integers. *)

From stdpp Require Import prelude gmap.
From Stdlib Require Import ZArith Lia.
From S2P Require Import Prelude Machine AddrRange EventQueue Drain Clock Packet PacketQueue XBarLayer XBarRoute.

Open Scope Z_scope.

Module NX.

Definition port_ptr (i : Z) : positive := Z.to_pos (i + 1).
Definition port_id (p : positive) : Z := Zpos p - 1.

Record Stats := mkStats { pktCount : gmap (Z * Z) Z; pktSize : gmap (Z * Z) Z; transDist : gmap Z Z }.

Definition bump {K} `{Countable K} (k : K) (n : Z) (m : gmap K Z) : gmap K Z := <[k := default 0 (m !! k) + n]> m.

(** The three updates for a packet between a slave port and a master port. *)
Definition count (slave master size cmd : Z) (s : Stats) : Stats :=
  mkStats (bump (slave, master) 1 (pktCount s)) (bump (slave, master) size (pktSize s)) (bump cmd 1 (transDist s)).

Section World.
Context {X : Type}.

Record World := mkWorld {
  base : Route.BaseXBar;
  clk : Clock.Clocked;
  reqLayers : gmap Z XBar.Layer;
  respLayers : gmap Z XBar.Layer;
  slavePorts : list PQ.PacketQueue;
  routeTo : gmap positive Z;
  stats : Stats;
  packets : gmap positive Pkt.Packet;
  bufs : Pkt.Bufs;
  drains : Drain.System;
  rest : X
}.

Definition set_base (b : Route.BaseXBar) (w : World) : World :=
  mkWorld b (clk w) (reqLayers w) (respLayers w) (slavePorts w) (routeTo w) (stats w) (packets w) (bufs w) (drains w) (rest w).
Definition set_clk (c : Clock.Clocked) (w : World) : World :=
  mkWorld (base w) c (reqLayers w) (respLayers w) (slavePorts w) (routeTo w) (stats w) (packets w) (bufs w) (drains w) (rest w).
Definition set_reqLayers (l : gmap Z XBar.Layer) (w : World) : World :=
  mkWorld (base w) (clk w) l (respLayers w) (slavePorts w) (routeTo w) (stats w) (packets w) (bufs w) (drains w) (rest w).
Definition set_respLayers (l : gmap Z XBar.Layer) (w : World) : World :=
  mkWorld (base w) (clk w) (reqLayers w) l (slavePorts w) (routeTo w) (stats w) (packets w) (bufs w) (drains w) (rest w).
Definition set_slavePorts (l : list PQ.PacketQueue) (w : World) : World :=
  mkWorld (base w) (clk w) (reqLayers w) (respLayers w) l (routeTo w) (stats w) (packets w) (bufs w) (drains w) (rest w).
Definition set_routeTo (r : gmap positive Z) (w : World) : World :=
  mkWorld (base w) (clk w) (reqLayers w) (respLayers w) (slavePorts w) r (stats w) (packets w) (bufs w) (drains w) (rest w).
Definition set_stats (s : Stats) (w : World) : World :=
  mkWorld (base w) (clk w) (reqLayers w) (respLayers w) (slavePorts w) (routeTo w) s (packets w) (bufs w) (drains w) (rest w).
Definition set_mem (p : gmap positive Pkt.Packet) (b : Pkt.Bufs) (w : World) : World :=
  mkWorld (base w) (clk w) (reqLayers w) (respLayers w) (slavePorts w) (routeTo w) (stats w) p b (drains w) (rest w).
Definition set_drains (d : Drain.System) (w : World) : World :=
  mkWorld (base w) (clk w) (reqLayers w) (respLayers w) (slavePorts w) (routeTo w) (stats w) (packets w) (bufs w) d (rest w).

Definition set_packet (pkt : positive) (p : Pkt.Packet) (w : World) : World := set_mem (<[pkt := p]> (packets w)) (bufs w) w.

Abbreviation WS := (World * EventQ.State)%type.

(** A new crossbar; the functions give the addresses of the events and of the objects that
    drain, by port. *)
Definition NoncoherentXBar_new (masters slaves : Z) (has_default use_default : bool)
    (reqEvent reqObj respEvent respObj queueEvent queueObj : Z -> positive) (d : Drain.System) (x : X) : World :=
  mkWorld (Route.BaseXBar_new masters has_default use_default) Clock.Clocked_new
    (list_to_map ((fun i => (i, XBar.Layer_new (reqEvent i) (reqObj i))) <$> seqZ 0 (masters + Z.b2z has_default)))
    (list_to_map ((fun i => (i, XBar.Layer_new (respEvent i) (respObj i))) <$> seqZ 0 slaves))
    ((fun i => PQ.PacketQueue_new (queueEvent i) (queueObj i) false) <$> seqZ 0 slaves)
    ∅ (mkStats ∅ ∅ ∅) ∅ ∅ d x.

(** ** The parts of the crossbar *)

(** The queue of a slave port, with the packets, the buffers and the drain manager. *)
Definition queue_view (q : PQ.PacketQueue) (w : World) : PQ.World unit := PQ.mkWorld q (packets w) (bufs w) (drains w) tt.
Definition queue_back (i : Z) (v : PQ.World unit) (w : World) : option World :=
  l ← aset (slavePorts w) i (PQ.queue v); Some (set_slavePorts l (set_drains (PQ.drains v) (set_mem (PQ.packets v) (PQ.bufs v) w))).

Definition schedTimingResp (i : Z) (pkt : positive) (when : Z) (ws : WS) : option WS :=
  let '(w, st) := ws in
  q ← aget (slavePorts w) i;
  '(v, st) ← PQ.schedSendTiming pkt when false (queue_view q w, st);
  w ← queue_back i v w;
  Some (w, st).

Definition tryReq (m : Z) (src : positive) (w : World) : option (bool * World) :=
  l ← reqLayers w !! m; '(b, l) ← XBar.tryTiming src l; Some (b, set_reqLayers (<[m := l]> (reqLayers w)) w).
Definition tryResp (s : Z) (src : positive) (w : World) : option (bool * World) :=
  l ← respLayers w !! s; '(b, l) ← XBar.tryTiming src l; Some (b, set_respLayers (<[s := l]> (respLayers w)) w).

Definition on_req (m : Z) (f : XBar.Layer * EventQ.State -> option (XBar.Layer * EventQ.State)) (ws : WS) : option WS :=
  let '(w, st) := ws in l ← reqLayers w !! m; '(l, st) ← f (l, st); Some (set_reqLayers (<[m := l]> (reqLayers w)) w, st).
Definition on_resp (s : Z) (f : XBar.Layer * EventQ.State -> option (XBar.Layer * EventQ.State)) (ws : WS) : option WS :=
  let '(w, st) := ws in l ← respLayers w !! s; '(l, st) ← f (l, st); Some (set_respLayers (<[s := l]> (respLayers w)) w, st).

(** ** The crossbar *)

Variables frontendLatency forwardLatency responseLatency width clockPeriod us : Z.

Definition xbar_clockEdge (cycles now : Z) (w : World) : option (Z * World) :=
  '(t, c) ← Clock.clockEdge clockPeriod now cycles (clk w); Some (t, set_clk c w).

(** [calcPacketTiming] on the packet at an address. *)
Definition calc_timing (pkt : positive) (delay now : Z) (w : World) : option (Pkt.Packet * World) :=
  p ← packets w !! pkt;
  '(p, c) ← Route.calcPacketTiming us width clockPeriod now delay p (clk w);
  Some (p, set_clk c (set_packet pkt p w)).

Definition payload_size (p : Pkt.Packet) : option Z := if Pkt.hasData p then Pkt.getSize p else Some 0.

(** The port for the addresses of a packet. *)
Definition find_dest (p : Pkt.Packet) (w : World) : option (Z * World) :=
  a ← Pkt.getAddr p;
  n ← Pkt.getSize p;
  '(m, b) ← Route.findPort (RangeSize a n) (base w);
  Some (m, set_base b w).

Variable sendTimingReq : Z -> positive -> WS -> option (bool * WS).

(** [recvTimingReq] from where the layer of the destination is held. *)
Definition forward_req (pkt : positive) (slave master : Z) (p : Pkt.Packet) (ws : WS) : option (bool * WS) :=
  let '(w, st) := ws in
  pkt_size ← payload_size p;
  let pkt_cmd := Pkt.toInt (Pkt.cmd p) in
  let old_header_delay := Pkt.headerDelay p in
  let xbar_delay := uint64 (uint64 (frontendLatency + forwardLatency) * clockPeriod) in
  '(p, w) ← calc_timing pkt xbar_delay (EventQ.curTick st) w;
  '(edge, w) ← xbar_clockEdge 1 (EventQ.curTick st) w;
  let packetFinishTime := uint64 (edge + Pkt.payloadDelay p) in
  let expect_response := Pkt.needsResponse p && negb (Pkt.cacheResponding p) in
  '(success, (w, st)) ← sendTimingReq master pkt (w, st);
  if negb success then
    p ← packets w !! pkt;
    let w := set_packet pkt (Pkt.set_delays old_header_delay (Pkt.payloadDelay p) p) w in
    '(edge, w) ← xbar_clockEdge 1 (EventQ.curTick st) w;
    ws ← on_req master (XBar.failedTiming (port_ptr slave) edge) (w, st);
    Some (false, ws)
  else
    w ← (if expect_response then
           p ← packets w !! pkt;
           _ ← assert_ (bool_decide (routeTo w !! Pkt.req p = None));
           Some (set_routeTo (<[Pkt.req p := slave]> (routeTo w)) w)
         else Some w);
    '(w, st) ← on_req master (XBar.succeededTiming packetFinishTime) (w, st);
    Some (true, (set_stats (count slave master pkt_size pkt_cmd (stats w)) w, st)).

Definition recvTimingReq (pkt : positive) (slave : Z) (ws : WS) : option (bool * WS) :=
  let '(w, st) := ws in
  _ ← aget (slavePorts w) slave;
  p ← packets w !! pkt;
  _ ← assert_ (negb (Pkt.isExpressSnoop p));
  '(master, w) ← find_dest p w;
  '(free, w) ← tryReq master (port_ptr slave) w;
  if negb free then Some (false, (w, st)) else forward_req pkt slave master p (w, st).

(** [recvTimingResp] from where the layer of the destination is held. *)
Definition forward_resp (pkt : positive) (master slave : Z) (p : Pkt.Packet) (ws : WS) : option (bool * WS) :=
  let '(w, st) := ws in
  pkt_size ← payload_size p;
  let pkt_cmd := Pkt.toInt (Pkt.cmd p) in
  let xbar_delay := uint64 (responseLatency * clockPeriod) in
  '(p, w) ← calc_timing pkt xbar_delay (EventQ.curTick st) w;
  '(edge, w) ← xbar_clockEdge 1 (EventQ.curTick st) w;
  let packetFinishTime := uint64 (edge + Pkt.payloadDelay p) in
  let latency := Pkt.headerDelay p in
  let w := set_packet pkt (Pkt.set_delays 0 (Pkt.payloadDelay p) p) w in
  '(w, st) ← schedTimingResp slave pkt (uint64 (EventQ.curTick st + latency)) (w, st);
  let w := set_routeTo (delete (Pkt.req p) (routeTo w)) w in
  '(w, st) ← on_resp slave (XBar.succeededTiming packetFinishTime) (w, st);
  Some (true, (set_stats (count slave master pkt_size pkt_cmd (stats w)) w, st)).

Definition recvTimingResp (pkt : positive) (master : Z) (ws : WS) : option (bool * WS) :=
  let '(w, st) := ws in
  p ← packets w !! pkt;
  slave ← routeTo w !! Pkt.req p;
  _ ← assert_ (negb (slave =? Route.InvalidPortID));
  '(free, w) ← tryResp slave (port_ptr master) w;
  if negb free then Some (false, (w, st)) else forward_resp pkt master slave p (w, st).

Variable sendAtomic : Z -> positive -> WS -> option (Z * WS).

Definition recvAtomic (pkt : positive) (slave : Z) (ws : WS) : option (Z * WS) :=
  let '(w, st) := ws in
  p ← packets w !! pkt;
  pkt_size ← payload_size p;
  '(master, w) ← find_dest p w;
  let w := set_stats (count slave master pkt_size (Pkt.toInt (Pkt.cmd p)) (stats w)) w in
  '(response_latency, (w, st)) ← sendAtomic master pkt (w, st);
  p ← packets w !! pkt;
  w ← (if Pkt.isResponse p then
         pkt_size ← payload_size p; Some (set_stats (count slave master pkt_size (Pkt.toInt (Pkt.cmd p)) (stats w)) w)
       else Some w);
  Some (response_latency, (set_packet pkt (Pkt.set_delays (Pkt.headerDelay p) (uint32 response_latency) p) w, st)).

Variable sendFunctional : Z -> positive -> World -> option World.

(** The queues of the slave ports are asked one after the other. *)
Fixpoint satisfy_ports (l : list PQ.PacketQueue) (pkt : positive) (w : World) : option (bool * World) :=
  match l with
  | [] => Some (false, w)
  | q :: l =>
      '(found, v) ← PQ.trySatisfyFunctional pkt (queue_view q w);
      let w := set_mem (PQ.packets v) (PQ.bufs v) w in
      if (found : bool) then Some (true, w) else satisfy_ports l pkt w
  end.

Definition recvFunctional (pkt : positive) (w : World) : option World :=
  '(found, w) ← satisfy_ports (slavePorts w) pkt w;
  p ← packets w !! pkt;
  if (found : bool) then
    if Pkt.needsResponse p then p ← Pkt.makeResponse p; Some (set_packet pkt p w) else Some w
  else
    '(dest, w) ← find_dest p w;
    sendFunctional dest pkt w.

(** ** Retries *)

Definition no_layer : XBar.Layer := XBar.Layer_new 1 1.

(** Layer [m] of the requests, and layer [s] of the responses, in the system. *)
Definition req_host (m : Z) : XBar.LayerHost World := {|
  XBar.layer w := default no_layer (reqLayers w !! m);
  XBar.set_layer l w := set_reqLayers (<[m := l]> (reqLayers w)) w;
  XBar.drains := drains;
  XBar.set_drains := set_drains;
  XBar.clockEdge := xbar_clockEdge 0
|}.
Definition resp_host (s : Z) : XBar.LayerHost World := {|
  XBar.layer w := default no_layer (respLayers w !! s);
  XBar.set_layer l w := set_respLayers (<[s := l]> (respLayers w)) w;
  XBar.drains := drains;
  XBar.set_drains := set_drains;
  XBar.clockEdge := xbar_clockEdge 0
|}.

(** [sendRetryReq] of a slave port, [sendRetryResp] of a master port. *)
Variables sendRetryReq sendRetryResp : Z -> WS -> option WS.

Definition recvReqRetry (m : Z) (ws : WS) : option WS :=
  _ ← reqLayers ws.1 !! m; @XBar.recvRetry World (req_host m) (fun p => sendRetryReq (port_id p)) ws.

(** The release events of the layers. *)
Definition release_req (m : Z) (ws : WS) : option WS :=
  _ ← reqLayers ws.1 !! m; @XBar.releaseLayer World (req_host m) (fun p => sendRetryReq (port_id p)) ws.
Definition release_resp (s : Z) (ws : WS) : option WS :=
  _ ← respLayers ws.1 !! s; @XBar.releaseLayer World (resp_host s) (fun p => sendRetryResp (port_id p)) ws.
End World.
#[global] Arguments World : clear implicits.
End NX.
