(* ===== verification/NoncoherentCorrect.v ===== *)
(** * NoncoherentCorrect: requests and responses through the crossbar

    The layers of the crossbar keep the contract of [XBarLayerCorrect]; the timing of a
    packet; and what a request and a response do, step by step. *)

From stdpp Require Import prelude gmap.
From Stdlib Require Import ZArith Lia.
From S2P Require Import Prelude Machine IntMath AddrRange EventQueue EventShape EventQueueCorrect EventService SimLoop EventOwner Clock.
From S2P Require Import Drain DrainCorrect Packet PacketQueue PacketQueueCorrect XBarLayer XBarLayerCorrect XBarRoute XBarRouteTheorems.
From S2P Require Import NoncoherentXBar.
Import NX.

Open Scope Z_scope.

(** ** Timing *)

Section Timing.
Context (us width P : Z).
Hypothesis HP : 0 < P.

(** The beats that the payload of a packet takes. *)
Definition beats (p : Pkt.Packet) : Z := (Pkt.size p + width - 1) / width.

(** The packet with the delays that a crossbar adds, at tick [now]. *)
Definition timed (now delay : Z) (p : Pkt.Packet) : Pkt.Packet :=
  Pkt.set_delays (Pkt.headerDelay p + (Clock.next_edge P now * P - now) + delay)
    (if Pkt.hasData p then Z.max (Pkt.payloadDelay p) (beats p * P) else Pkt.payloadDelay p) p.

Record timing_ok (now delay : Z) (p : Pkt.Packet) : Prop := {
  to_size : Pkt.getSize p = Some (Pkt.size p) /\ 0 <= Pkt.size p;
  to_width : 0 < width /\ Pkt.size p + width <= 2 ^ 32;
  to_delay : 0 <= delay /\ 0 <= Pkt.headerDelay p /\ Pkt.headerDelay p + P + delay <= us < 2 ^ 32;
  to_payload : 0 <= Pkt.payloadDelay p < 2 ^ 32 /\ beats p * P < 2 ^ 32
}.

Lemma calcPacketTiming_spec now delay p c :
  0 <= now -> now + 3 * P < 2 ^ 64 -> Clock.on_edge P now c -> timing_ok now delay p ->
  Route.calcPacketTiming us width P now delay p c = Some (timed now delay p, Clock.edge_clock P now).
Proof.
  intros Hn Hb Hc [[Hs Hs0] [Hw Hsw] (D1 & D2 & D3) [Hp Hbt]]. unfold Route.calcPacketTiming. rewrite (Clock.clockEdge_spec P HP) by (done || lia). simpl.
  pose proof (proj1 (Clock.next_edge_spec P HP now _) eq_refl) as He. rewrite Z.add_0_r. set (off := Clock.next_edge P now * P - now) in *.
  assert (uint64 off = off) as -> by (unfold uint64; rewrite wrapU_small; lia).
  assert (uint64 (off + delay) = off + delay) as -> by (unfold uint64; rewrite wrapU_small; lia).
  assert (uint32 (Pkt.headerDelay p + (off + delay)) = Pkt.headerDelay p + off + delay) as -> by (unfold uint32; rewrite wrapU_small; lia).
  destruct (Z.ltb_spec us (Pkt.headerDelay p + off + delay)); [lia|]. simpl. unfold timed. fold off.
  change (Pkt.hasData (Pkt.set_delays _ _ p)) with (Pkt.hasData p). destruct (Pkt.hasData p); [|done].
  change (Pkt.getSize (Pkt.set_delays _ _ p)) with (Pkt.getSize p). rewrite Hs. simpl. unfold Route.divCeil32. destruct (Z.eqb_spec width 0); [lia|]. simpl.
  assert (uint32 (Pkt.size p + width - 1) / width = beats p) as -> by (unfold beats, uint32; rewrite wrapU_small; [done|lia]).
  assert (0 <= beats p) as Hb0 by (apply Z.div_pos; lia).
  assert (uint64 (beats p * P) = beats p * P) as -> by (unfold uint64; rewrite wrapU_small; nia).
  assert (uint32 (Z.max (Pkt.payloadDelay p) (beats p * P)) = Z.max (Pkt.payloadDelay p) (beats p * P)) as -> by (unfold uint32; rewrite wrapU_small; nia).
  done.
Qed.
End Timing.

#[local] Arguments timed : simpl never.
#[local] Arguments aset : simpl never.
#[local] Arguments on_req : simpl never.
#[local] Arguments on_resp : simpl never.

(** ** The layers in the system *)

Section Hosts.
Context {X : Type} (P : Z).
Hypothesis HP : 0 < P.

Definition clock_ok (now : Z) (w : World X) : Prop := Clock.on_edge P now (clk w) /\ 0 <= now /\ now + 3 * P + 2 ^ 32 < 2 ^ 64.

Lemma xbar_clockEdge_spec k now w :
  clock_ok now w -> 0 <= k <= 1 -> xbar_clockEdge P k now w = Some ((Clock.next_edge P now + k) * P, set_clk (Clock.edge_clock P now) w).
Proof. intros (Hc & Hn & Hb) Hk. unfold xbar_clockEdge. by rewrite (Clock.clockEdge_spec P HP) by (done || nia). Qed.

Lemma clock_ok_edge now w : clock_ok now w -> clock_ok now (set_clk (Clock.edge_clock P now) w).
Proof. intros (Hc & Hn & Hb). split; [by apply Clock.edge_clock_on|done]. Qed.

Lemma host_edge now w : clock_ok now w -> 0 < now ->
  wp (xbar_clockEdge P 0 now w) (fun '(t, w') => now <= t /\ w' = set_clk (Clock.edge_clock P now) w).
Proof.
  intros Hc Hn. rewrite xbar_clockEdge_spec by (done || lia). simpl. pose proof (proj1 (Clock.next_edge_spec P HP now _) eq_refl). split; [lia|done].
Qed.

Program Definition req_laws (m : Z) : @LayerLaws (World X) (req_host P m) := {| host_ok := clock_ok |}.
Next Obligation. intros m l w. simpl. by rewrite lookup_insert_eq. Qed.
Next Obligation. done. Qed.
Next Obligation. done. Qed.
Next Obligation. done. Qed.
Next Obligation. done. Qed.
Next Obligation. done. Qed.
Next Obligation.
  intros m now w Hc Hn. eapply wp_mono; [by apply host_edge|]. intros [t w'] (Ht & ->). split; [done|]. split; [done|]. split; [done|]. by apply clock_ok_edge.
Qed.

Program Definition resp_laws (s : Z) : @LayerLaws (World X) (resp_host P s) := {| host_ok := clock_ok |}.
Next Obligation. intros s l w. simpl. by rewrite lookup_insert_eq. Qed.
Next Obligation. done. Qed.
Next Obligation. done. Qed.
Next Obligation. done. Qed.
Next Obligation. done. Qed.
Next Obligation. done. Qed.
Next Obligation.
  intros s now w Hc Hn. eapply wp_mono; [by apply host_edge|]. intros [t w'] (Ht & ->). split; [done|]. split; [done|]. split; [done|]. by apply clock_ok_edge.
Qed.
End Hosts.

(** ** The neighbours of the master ports *)

Section Peer.
Context {X : Type}.
Implicit Types (w : World X) (st : EventQ.State).

(** The events of the crossbar. *)
Definition own_event w (e : positive) : Prop :=
  (exists m l, reqLayers w !! m = Some l /\ e = XBar.releaseEvent l) \/ (exists s l, respLayers w !! s = Some l /\ e = XBar.releaseEvent l) \/
  (exists q, q ∈ slavePorts w /\ e = PQ.sendEvent q).

(** The crossbar is left alone. *)
Record untouched w st w' st' : Prop := {
  un_base : base w' = base w;
  un_clk : clk w' = clk w;
  un_req : reqLayers w' = reqLayers w;
  un_resp : respLayers w' = respLayers w;
  un_ports : slavePorts w' = slavePorts w;
  un_route : routeTo w' = routeTo w;
  un_stats : stats w' = stats w;
  un_drains : drains w' = drains w;
  un_time : EventQ.curTick st' = EventQ.curTick st;
  un_calm : calm st';
  un_events : forall e, own_event w e -> data <$> EventQ.heap st' !! e = data <$> EventQ.heap st !! e
}.

(** What the device behind a master port must respect: given a request, it leaves the
    crossbar alone; it does not change a packet that it refuses, and keeps one that
    needs a response. *)
Class Peer (sendTimingReq : Z -> positive -> World X * EventQ.State -> option (bool * (World X * EventQ.State))) : Prop := {
  peer_ok m pkt p w st : packets w !! pkt = Some p -> calm st ->
    wp (sendTimingReq m pkt (w, st)) (fun '(ok, (w', st')) => untouched w st w' st' /\
      (ok = false -> packets w' !! pkt = Some p) /\
      (ok = true -> Pkt.needsResponse p = true -> exists p', packets w' !! pkt = Some p' /\ Pkt.req p' = Pkt.req p))
}.
End Peer.

(** ** Requests *)

Section Request.
Context {X : Type} (frontendLatency forwardLatency width P us : Z).
Hypothesis HP : 0 < P.
Variable sendTimingReq : Z -> positive -> World X * EventQ.State -> option (bool * (World X * EventQ.State)).
Context {HPeer : Peer sendTimingReq}.
Implicit Types (w : World X) (st : EventQ.State).

Definition req_ok (m : Z) w st : Prop := @layer_ok (World X) (req_host P m) (req_laws P HP m) w st.
Definition req_delay : Z := uint64 (uint64 (frontendLatency + forwardLatency) * P).

Lemma req_ok_same m w w' st :
  req_ok m w st -> reqLayers w' !! m = reqLayers w !! m -> drains w' = drains w -> clk w' = clk w -> req_ok m w' st.
Proof.
  intros Hok E1 E2 E3. pose proof (lo_sound _ _ Hok) as [S1 S2 S3 S4 S5]. simpl in *. apply (layer_ok_later w st); simpl; rewrite ?E1; try done.
  - unfold drain_ok. simpl. by rewrite E1, E2.
  - unfold clock_ok. by rewrite E3.
Qed.

(** A port has the layer of a master port, between [tryTiming] and the outcome. *)
Record holds (m : Z) (l : XBar.Layer) w st : Prop := {
  ho_layer : reqLayers w !! m = Some l;
  ho_busy : XBar.state l = XBar.BUSY;
  ho_peer : XBar.waitingForPeer l = None;
  ho_nodup : NoDup (XBar.waitingForLayer l);
  ho_event : owned (XBar.releaseEvent l) None st;
  ho_calm : calm st;
  ho_clock : clock_ok P (EventQ.curTick st) w;
  ho_drain : counted (drains w) /\ XBar.self l ∈ Drain.all_drainable (drains w)
}.

Lemma holds_outcome m l w st src until (accepted : bool) :
  holds m l w st -> src ∉ XBar.waitingForLayer l -> 0 < until -> EventQ.curTick st <= until ->
  wp (on_req m (if accepted then XBar.succeededTiming until else XBar.failedTiming src until) (w, st)) (fun '(w', st') =>
    req_ok m w' st' /\ rearmed (XBar.releaseEvent l) (Some until) st st' /\
    w' = set_reqLayers (<[m := XBar.add_occupancy (until - EventQ.curTick st) (XBar.set_peer (if accepted then None else Some src) l)]> (reqLayers w)) w).
Proof.
  intros [H1 H2 H3 H4 H5 H6 H7 H8] Hsrc Hu Ht. unfold on_req. rewrite H1. simpl.
  assert (@sound (World X) (req_host P m) (req_laws P HP m) w st) as Hs.
  { split; simpl; rewrite ?H1; try done; [apply H7|unfold drain_ok; simpl; by rewrite H1|]. unfold ports. simpl. by rewrite H3. }
  pose proof (@outcome_ok (World X) (req_host P m) (req_laws P HP m) w st l src until accepted Hs) as H. simpl in H. rewrite H1 in H.
  specialize (H eq_refl eq_refl H4 H5 H2 H3 Hsrc Hu Ht). apply wp_bind.
  destruct accepted; (eapply wp_mono; [exact H|]); intros [l' st'] (Hok & -> & Hr); simpl; (split; [exact Hok|]); by split.
Qed.

(** What a request that gets the layer leads to. *)
Lemma forward_req_spec w st pkt s p m l :
  packets w !! pkt = Some p -> holds m l w st -> port_ptr s ∉ XBar.waitingForLayer l ->
  timing_ok us width P (EventQ.curTick st) req_delay p -> 
  let expect := Pkt.needsResponse p && negb (Pkt.cacheResponding p) in
  let p' := timed width P (EventQ.curTick st) req_delay p in
  let edge := (Clock.next_edge P (EventQ.curTick st) + 1) * P in
  (expect = true -> routeTo w !! Pkt.req p = None) ->
  wp (forward_req frontendLatency forwardLatency width P us sendTimingReq pkt s m p (w, st)) (fun '(ok, (w', st')) => req_ok m w' st' /\
    (exists w1 w2 st2, packets w1 !! pkt = Some p' /\ untouched w st (set_clk (clk w) w1) st /\
      sendTimingReq m pkt (w1, st) = Some (ok, (w2, st2)) /\ untouched w1 st w2 st2) /\
    base w' = base w /\ slavePorts w' = slavePorts w /\ respLayers w' = respLayers w /\ drains w' = drains w /\
    stats w' = (if ok then count s m (if Pkt.hasData p then Pkt.size p else 0) (Pkt.toInt (Pkt.cmd p)) (stats w) else stats w) /\
    (exists l', reqLayers w' = <[m := l']> (reqLayers w) /\ XBar.state l' = XBar.BUSY /\ XBar.waitingForLayer l' = XBar.waitingForLayer l /\
      XBar.waitingForPeer l' = (if ok then None else Some (port_ptr s)) /\ same_layer l l') /\
    owned (XBar.releaseEvent l) (Some (if ok then edge + Pkt.payloadDelay p' else edge)) st' /\ EventQ.curTick st' = EventQ.curTick st /\
    routeTo w' = (if ok && expect then <[Pkt.req p := s]> (routeTo w) else routeTo w) /\
    (ok = false -> packets w' !! pkt = Some (Pkt.set_delays (Pkt.headerDelay p) (Pkt.payloadDelay p') p'))).
Proof.
  intros Hp Hh Hsrc Ht expect p' edge Hroute. pose proof Hh as [H1 H2 H3 H4 H5 H6 H7 H8]. pose proof H7 as (C1 & C2 & C3).
  unfold forward_req. assert (payload_size p = Some (if Pkt.hasData p then Pkt.size p else 0)) as ->.
  { unfold payload_size. destruct (Pkt.hasData p); [apply Ht|done]. }
  cbn [mbind option_bind]. fold req_delay. unfold calc_timing. rewrite Hp. cbn [mbind option_bind]. rewrite (calcPacketTiming_spec us width P HP) by (done || lia). cbn [mbind option_bind]. fold p'.
  assert (0 <= Pkt.payloadDelay p' < 2 ^ 32 /\ Pkt.needsResponse p' = Pkt.needsResponse p /\ Pkt.cacheResponding p' = Pkt.cacheResponding p /\ Pkt.req p' = Pkt.req p) as (Hpd & Hnr & Hcr & Hrq).
  { destruct Ht as [T1 T2 T3 [T4 T5]]. unfold p', timed. simpl. split; [destruct (Pkt.hasData p); lia|done]. }
  clearbody p'.
  set (w1 := set_clk (Clock.edge_clock P (EventQ.curTick st)) (set_packet pkt p' w)).
  assert (clock_ok P (EventQ.curTick st) w1) as Hc1 by (by apply (clock_ok_edge P HP _ (set_packet pkt p' w))).
  rewrite (xbar_clockEdge_spec P HP) by (done || lia). simpl. fold edge. change (set_clk _ w1) with w1.
  assert (packets w1 !! pkt = Some p') as Hp1 by (simpl; by rewrite lookup_insert_eq).
  apply wp_bind. eapply wp_mono; [apply wp_eqn, (peer_ok m pkt p' w1 st Hp1 H6)|]. intros [ok [w2 st2]] [(U & Hf & Htr) E].
  assert (holds m l w2 st2) as Hh2.
  { split; rewrite ?(un_drains _ _ _ _ U), ?(un_req _ _ _ _ U), ?(un_time _ _ _ _ U); try done; [|apply U|].
    - apply (owned_data _ _ st); [|done]. apply (un_events _ _ _ _ U). left. by exists m, l.
    - unfold clock_ok. rewrite (un_clk _ _ _ _ U). done. }
  assert (untouched w st (set_clk (clk w) w1) st) as U1 by (by split).
  pose proof (proj1 (Clock.next_edge_spec P HP (EventQ.curTick st) _) eq_refl) as Hedge.
  assert (EventQ.curTick st < edge) as He by (unfold edge; nia). assert (edge + 2 ^ 32 < 2 ^ 64) as He64 by (unfold edge; nia). assert (edge = (Clock.next_edge P (EventQ.curTick st) + 1) * P) as Eedge by done. clearbody edge.
  destruct ok; simpl.
  - assert (uint64 (edge + Pkt.payloadDelay p') = edge + Pkt.payloadDelay p') as -> by (unfold uint64; rewrite wrapU_small; lia).
    set (w3 := if expect then set_routeTo (<[Pkt.req p := s]> (routeTo w2)) w2 else w2).
    rewrite Hnr, Hcr. fold expect.
    assert ((if expect then p0 ← packets w2 !! pkt; _ ← assert_ (bool_decide (routeTo w2 !! Pkt.req p0 = None));
               Some (set_routeTo (<[Pkt.req p0 := s]> (routeTo w2)) w2) else Some w2) = Some w3) as ->.
    { unfold w3. destruct expect eqn:Ex; [|done]. destruct Htr as (p2 & -> & Hreq); [done|rewrite Hnr; unfold expect in Ex; rewrite andb_true_iff in Ex; apply Ex|]. simpl. rewrite Hreq, Hrq. rewrite (un_route _ _ _ _ U). simpl. rewrite (Hroute eq_refl). done. }
    simpl. assert (holds m l w3 st2) as Hh3 by (unfold w3; destruct expect; [by destruct Hh2|done]).
    apply wp_bind. eapply wp_mono; [apply (holds_outcome m l w3 st2 (port_ptr s) _ true Hh3 Hsrc); rewrite ?(un_time _ _ _ _ U); lia|].
    intros [w' st'] (Hok & Hr & ->). split; [by eapply req_ok_same|]. split; [by exists w1, w2, st2|]. rewrite andb_true_l.
    assert (reqLayers w3 = reqLayers w /\ base w3 = base w /\ slavePorts w3 = slavePorts w /\ respLayers w3 = respLayers w /\ stats w3 = stats w /\ drains w3 = drains w /\
      routeTo w3 = (if expect then <[Pkt.req p := s]> (routeTo w) else routeTo w)) as (E1 & E2 & E3 & E4 & E5 & E6 & E7).
    { unfold w3. destruct U as [U1' U2 U3 U4 U5 U6 U7 U8 _ _ _]. destruct expect; simpl; rewrite ?U6; done. }
    simpl. rewrite E1, E2, E3, E4, E5, E6, E7. do 5 (split; [done|]). split; [by eexists|]. split; [apply Hr|]. split; [rewrite (proj1 (proj2 (proj2 Hr))); apply U|]. split; [done|]. done.
  - rewrite Hf by done. simpl. rewrite (un_time _ _ _ _ U). set (w3 := set_packet pkt _ w2).
    assert (clock_ok P (EventQ.curTick st) w3) as Hc3 by (unfold clock_ok; simpl; by rewrite (un_clk _ _ _ _ U)).
    rewrite (xbar_clockEdge_spec P HP) by (done || lia). rewrite <- Eedge. simpl.
    assert (holds m l (set_clk (Clock.edge_clock P (EventQ.curTick st)) w3) st2) as Hh3.
    { destruct Hh2 as [K1 K2 K3 K4 K5 K6 K7 K8]. split; try done. rewrite (un_time _ _ _ _ U). by apply (clock_ok_edge P HP). }
    apply wp_bind. eapply wp_mono; [apply (holds_outcome m l _ st2 (port_ptr s) edge false Hh3 Hsrc); rewrite ?(un_time _ _ _ _ U); lia|].
    intros [w' st'] (Hok & Hr & ->). split; [done|]. split; [by exists w1, w2, st2|]. simpl.
    destruct U as [U1' U2 U3 U4 U5 U6 U7 U8 U9 _ _]. do 5 (split; [done|]). split; [rewrite U3; by eexists|]. split; [apply Hr|].
    split; [rewrite (proj1 (proj2 (proj2 Hr))); done|]. split; [done|]. intros _. by rewrite lookup_insert_eq.
Qed.
End Request.

(** ** Responses *)

Section Response.
Context {X : Type} (responseLatency width P us : Z).
Hypothesis HP : 0 < P.
Implicit Types (w : World X) (st : EventQ.State).

Definition resp_ok (s : Z) w st : Prop := @layer_ok (World X) (resp_host P s) (resp_laws P HP s) w st.
Definition resp_delay : Z := uint64 (responseLatency * P).

Lemma resp_ok_same s w w' st :
  resp_ok s w st -> respLayers w' !! s = respLayers w !! s -> drains w' = drains w -> clk w' = clk w -> resp_ok s w' st.
Proof.
  intros Hok E1 E2 E3. pose proof (lo_sound _ _ Hok) as [S1 S2 S3 S4 S5]. simpl in *. apply (layer_ok_later w st); simpl; rewrite ?E1; try done.
  - unfold drain_ok. simpl. by rewrite E1, E2.
  - unfold clock_ok. by rewrite E3.
Qed.

(** A port has the layer of a slave port. *)
Record resp_holds (s : Z) (l : XBar.Layer) w st : Prop := {
  rh_layer : respLayers w !! s = Some l;
  rh_busy : XBar.state l = XBar.BUSY;
  rh_peer : XBar.waitingForPeer l = None;
  rh_nodup : NoDup (XBar.waitingForLayer l);
  rh_event : owned (XBar.releaseEvent l) None st;
  rh_calm : calm st;
  rh_clock : clock_ok P (EventQ.curTick st) w;
  rh_drain : counted (drains w) /\ XBar.self l ∈ Drain.all_drainable (drains w)
}.

Lemma resp_holds_outcome s l w st until :
  resp_holds s l w st -> 0 < until -> EventQ.curTick st <= until ->
  wp (on_resp s (XBar.succeededTiming until) (w, st)) (fun '(w', st') =>
    resp_ok s w' st' /\ rearmed (XBar.releaseEvent l) (Some until) st st' /\
    w' = set_respLayers (<[s := XBar.add_occupancy (until - EventQ.curTick st) (XBar.set_peer None l)]> (respLayers w)) w).
Proof.
  intros [H1 H2 H3 H4 H5 H6 H7 H8] Hu Ht. unfold on_resp. rewrite H1. simpl.
  assert (@sound (World X) (resp_host P s) (resp_laws P HP s) w st) as Hs.
  { split; simpl; rewrite ?H1; try done; [apply H7|unfold drain_ok; simpl; by rewrite H1|]. unfold ports. simpl. by rewrite H3. }
  set (src := fresh (list_to_set (XBar.waitingForLayer l) : gset positive)).
  assert (src ∉ XBar.waitingForLayer l) as Hsrc by (rewrite <- (elem_of_list_to_set (C := gset positive)); apply is_fresh).
  pose proof (@outcome_ok (World X) (resp_host P s) (resp_laws P HP s) w st l src until true Hs) as H. simpl in H. rewrite H1 in H.
  specialize (H eq_refl eq_refl H4 H5 H2 H3 Hsrc Hu Ht). apply wp_bind.
  eapply wp_mono; [exact H|]; intros [l' st'] (Hok & -> & Hr); simpl; split; [exact Hok|]; by split.
Qed.

(** The delays of a packet do not matter to a queue. *)
Lemma queue_set_packet q w st pkt p p' :
  settled (queue_view q w) st -> packets w !! pkt = Some p -> Pkt.getAddr p' = Pkt.getAddr p -> settled (queue_view q (set_packet pkt p' w)) st.
Proof.
  intros Hs Hp Ha. pose proof Hs as [S1 S2 [S3 S3'] S4 S5]. apply (settled_others (queue_view q w) _ st); try done; [|lia].
  eapply Forall_impl; [exact S3|]. intros [t x]. unfold PQ.addr_of. simpl. destruct (decide (x = pkt)) as [->|Hne].
  - rewrite lookup_insert_eq, Hp. simpl. by rewrite Ha.
  - by rewrite lookup_insert_ne.
Qed.

(** A response that gets the layer of the port its request came from. *)
Lemma forward_resp_spec w st pkt p s m l q a :
  packets w !! pkt = Some p -> resp_holds s l w st -> aget (slavePorts w) s = Some q -> settled (queue_view q w) st ->
  Pkt.getAddr p = Some a -> Pkt.isExpressSnoop p = false -> PQ.disableSanityCheck q || (zlen (PQ.transmitList q) <=? 100) = true ->
  XBar.releaseEvent l <> PQ.sendEvent q -> timing_ok us width P (EventQ.curTick st) resp_delay p ->
  let p' := timed width P (EventQ.curTick st) resp_delay p in
  wp (forward_resp responseLatency width P us pkt m s p (w, st)) (fun '(ok, (w', st')) => ok = true /\ resp_ok s w' st' /\
    (exists q', slavePorts w' = <[Z.to_nat s := q']> (slavePorts w) /\ settled (queue_view q' w') st' /\
      PQ.transmitList q' ≡ₚ (EventQ.curTick st + Pkt.headerDelay p', pkt) :: PQ.transmitList q) /\
    routeTo w' = delete (Pkt.req p) (routeTo w) /\ packets w' = <[pkt := Pkt.set_delays 0 (Pkt.payloadDelay p') p']> (packets w) /\
    base w' = base w /\ reqLayers w' = reqLayers w /\ EventQ.curTick st' = EventQ.curTick st /\
    stats w' = count s m (if Pkt.hasData p then Pkt.size p else 0) (Pkt.toInt (Pkt.cmd p)) (stats w)).
Proof.
  intros Hp Hh Hq Hst Ha Hx Hroom Hne Ht p'. pose proof Hh as [H1 H2 H3 H4 H5 H6 H7 H8]. pose proof H7 as (C1 & C2 & C3).
  unfold forward_resp. assert (payload_size p = Some (if Pkt.hasData p then Pkt.size p else 0)) as ->.
  { unfold payload_size. destruct (Pkt.hasData p); [apply Ht|done]. }
  cbn [mbind option_bind]. fold resp_delay. unfold calc_timing. rewrite Hp. cbn [mbind option_bind].
  rewrite (calcPacketTiming_spec us width P HP) by (done || lia). cbn [mbind option_bind]. fold p'.
  pose proof (proj1 (Clock.next_edge_spec P HP (EventQ.curTick st) _) eq_refl) as Hedge.
  assert (0 <= Pkt.payloadDelay p' < 2 ^ 32 /\ 0 <= Pkt.headerDelay p' < 2 ^ 32 /\ Pkt.getAddr p' = Pkt.getAddr p /\ Pkt.isExpressSnoop p' = Pkt.isExpressSnoop p /\ Pkt.req p' = Pkt.req p)
    as (Hpd & Hhd & Had & Hex & Hrq).
  { destruct Ht as [T1 T2 T3 [T4 T5]]. unfold p', timed. simpl. split; [destruct (Pkt.hasData p); lia|]. split; [lia|done]. }
  clearbody p'. set (now := EventQ.curTick st) in *.
  set (w1 := set_clk (Clock.edge_clock P now) (set_packet pkt p' w)).
  assert (clock_ok P now w1) as Hc1 by (by apply (clock_ok_edge P HP _ (set_packet pkt p' w))).
  rewrite (xbar_clockEdge_spec P HP) by (done || lia). simpl. change (set_clk _ w1) with w1.
  set (edge := (Clock.next_edge P now + 1) * P). assert (now < edge /\ edge + 2 ^ 32 < 2 ^ 64) as [He He64] by (unfold edge; nia). clearbody edge.
  assert (uint64 (edge + Pkt.payloadDelay p') = edge + Pkt.payloadDelay p') as -> by (unfold uint64; rewrite wrapU_small; lia).
  assert (uint64 (now + Pkt.headerDelay p') = now + Pkt.headerDelay p') as -> by (unfold uint64; rewrite wrapU_small; lia).
  set (p2 := Pkt.set_delays 0 (Pkt.payloadDelay p') p'). set (w2 := set_packet pkt p2 w1).
  assert (packets w2 = <[pkt := p2]> (packets w)) as Hp2 by (simpl; by rewrite insert_insert_eq).
  assert (settled (queue_view q w2) st) as Hst2.
  { apply (queue_set_packet q w1 st pkt p'); [|simpl; by rewrite lookup_insert_eq|done]. by apply (queue_set_packet q w st pkt p). }
  unfold schedTimingResp. change (slavePorts w2) with (slavePorts w). rewrite Hq. simpl.
  assert (sendable (queue_view q w2) st pkt p2 a (now + Pkt.headerDelay p')) as Hsend.
  { split; [simpl; by rewrite lookup_insert_eq|change (Pkt.getAddr p' = Some a); congruence|change (Pkt.isExpressSnoop p' = false); congruence|done|].
    unfold PQ.MaxTick. fold now. lia. }
  apply wp_bind, wp_bind. eapply wp_mono; [apply (schedSendTiming_spec (queue_view q w2) st pkt p2 a _ false Hsend); by right|].
  intros [v st2] (_ & Hset & l' & Hpl & -> & Ho). specialize (Hset Hst2). simpl in Ho, Hpl.
  set (q' := PQ.set_list l' q). unfold queue_back. simpl. fold q'. rewrite (aset_spec _ _ q' (aget_Some_bounds _ _ _ Hq)). simpl.
  set (w3 := set_routeTo _ _). apply wp_bind.
  assert (resp_holds s l w3 st2) as Hh3.
  { split; try done; [by apply (owned_others _ (PQ.sendEvent q) _ st)|apply Hset|]. rewrite (proj1 Ho). by apply (clock_ok_edge P HP _ (set_packet pkt p' w)). }
  eapply wp_mono; [apply (resp_holds_outcome s l w3 st2 (edge + Pkt.payloadDelay p') Hh3); rewrite ?(proj1 Ho); fold now; lia|].
  intros [w4 st4] (Hok & Hr & ->). simpl. split; [done|]. split; [by eapply resp_ok_same|]. split.
  { exists q'. split; [done|]. split; [|by apply (placed_perm _ _ _ _ _ _ _ Hpl)].
    destruct Hset as [S1 S2 [S3 S3'] S4 S5]. apply (settled_others (queue_view q' w2) _ st2); try done; [apply Hr| |].
    - apply (proj2 (proj2 (proj2 (proj2 Hr)))). done.
    - rewrite (proj1 (proj2 (proj2 Hr))), (proj1 Ho). fold now. unfold PQ.MaxTick. lia. }
  rewrite Hrq. split; [done|]. split; [done|]. split; [done|]. split; [done|]. split; [|done]. rewrite (proj1 (proj2 (proj2 Hr))). apply Ho.
Qed.
End Response.
