(* ===== verification/NoncoherentTheorems.v ===== *)
(** * NoncoherentTheorems: what the crossbar of the devices promises

    What becomes of a request, and that a response finds its way back. *)

From stdpp Require Import prelude gmap.
From Stdlib Require Import ZArith Lia.
From S2P Require Import Prelude Machine AddrRange AddrRangeMap EventQueue EventShape EventQueueCorrect EventService SimLoop EventOwner Clock.
From S2P Require Import Drain DrainCorrect DrainTheorems Packet PacketQueue PacketQueueCorrect XBarLayer XBarLayerCorrect XBarRoute.
From S2P Require Import XBarRouteTheorems NoncoherentXBar NoncoherentCorrect.
Import NX.

Open Scope Z_scope.

#[local] Arguments forward_req : simpl never.
#[local] Arguments forward_resp : simpl never.
#[local] Arguments on_req : simpl never.
#[local] Arguments on_resp : simpl never.
#[local] Arguments PQ.schedSendEvent : simpl never.
#[local] Arguments XBar.on_layer : simpl never.
#[local] Arguments XBar.retryWaiting : simpl never.

(** ** Requests *)

Section Request.
Context {X : Type} (frontendLatency forwardLatency width P us : Z) (HP : 0 < P).
Context (sendTimingReq : Z -> positive -> World X * EventQ.State -> option (bool * (World X * EventQ.State))) {HPeer : Peer sendTimingReq}.
Implicit Types (w : World X) (st : EventQ.State).

Definition expects_response (p : Pkt.Packet) : bool := Pkt.needsResponse p && negb (Pkt.cacheResponding p).

(** A packet that a slave port may hand to the crossbar. *)
Record request w st (pkt : positive) (s : Z) (p : Pkt.Packet) (a : Z) : Prop := {
  rq_port : is_Some (aget (slavePorts w) s);
  rq_packet : packets w !! pkt = Some p;
  rq_snoop : Pkt.isExpressSnoop p = false;
  rq_addr : Pkt.getAddr p = Some a /\ 0 <= a;
  rq_size : 0 < Pkt.size p /\ a + Pkt.size p <= 2 ^ 64;
  rq_timing : timing_ok us width P (EventQ.curTick st) (req_delay frontendLatency forwardLatency P) p;
  rq_new : expects_response p = true -> routeTo w !! Pkt.req p = None
}.

(** The layer of a master port, between operations or while it tells a port to retry. *)
Definition req_ready (m : Z) w st : Prop :=
  req_ok P HP m w st \/ @retrying (World X) (req_host P m) (req_laws P HP m) w st.

Lemma ready_free m w st l :
  req_ready m w st -> reqLayers w !! m = Some l -> XBar.state l <> XBar.BUSY -> XBar.waitingForPeer l = None ->
  @sound (World X) (req_host P m) (req_laws P HP m) w st /\ owned (XBar.releaseEvent l) None st.
Proof.
  intros [[Hs (a & He & Hst)]|[R1 R2 R3 R4 R5]] Hl Hb Hp; simpl in *; rewrite Hl in *; simpl in *.
  - split; [done|]. destruct (XBar.state l); [by destruct Hst as [-> _]|done|done].
  - by split.
Qed.

Lemma find_dest_spec ann w pkt s p a st m :
  routes ann (base w) -> everyone ann (base w) -> request w st pkt s p a -> target ann (base w) (RangeSize a (Pkt.size p)) m ->
  exists b, find_dest p w = Some (m, set_base b w) /\ routes ann b.
Proof.
  intros R He [_ _ _ [Ha Ha0] [Hs Hs'] Ht _] Htg. unfold find_dest. rewrite Ha. simpl. rewrite (proj1 (to_size _ _ _ _ _ _ Ht)). simpl.
  assert (plain (RangeSize a (Pkt.size p))) as Hpl by (by apply RangeSize_plain_any).
  pose proof (findPort_spec ann (base w) _ R He Hpl) as H. destruct (Route.findPort _ (base w)) as [[m' b]|]; [|by destruct (H m)].
  destruct H as (Htg' & R' & _). pose proof (target_unique _ _ _ _ _ (ro_mapped _ _ R) Hpl Htg Htg') as <-. simpl. by exists b.
Qed.

(** C21: requests.  A request goes to the port that the address map names.  While the
    layer of that port is taken, the sender is put at the end of its line and
    nothing else happens.  Otherwise the device behind the port sees the packet
    with the delays of the crossbar added.  If it takes the packet, the crossbar
    remembers where the response goes and is busy until the payload is through;
    if not, the header delay is what it was and the sender is the one that the
    device owes a retry.  No assertion fails on the way, and the layer keeps its
    invariant. *)
Theorem xbar_request ann w st pkt s p a m l :
  routes ann (base w) -> everyone ann (base w) -> request w st pkt s p a -> target ann (base w) (RangeSize a (Pkt.size p)) m ->
  reqLayers w !! m = Some l -> req_ready m w st -> port_ptr s ∉ ports l ->
  let now := EventQ.curTick st in
  let p' := timed width P now (req_delay frontendLatency forwardLatency P) p in
  let edge := (Clock.next_edge P now + 1) * P in
  wp (recvTimingReq frontendLatency forwardLatency width P us sendTimingReq pkt s (w, st)) (fun '(ok, (w', st')) =>
    routes ann (base w') /\ EventQ.curTick st' = now /\
    if bool_decide (XBar.state l = XBar.BUSY) || bool_decide (is_Some (XBar.waitingForPeer l)) then
      ok = false /\ st' = st /\ (req_ok P HP m w st -> req_ok P HP m w' st') /\
      w' = set_reqLayers (<[m := XBar.set_waiting (XBar.waitingForLayer l ++ [port_ptr s]) l]> (reqLayers w)) (set_base (base w') w)
    else
      req_ok P HP m w' st' /\
      (exists w1 w2 st2, packets w1 !! pkt = Some p' /\ sendTimingReq m pkt (w1, st) = Some (ok, (w2, st2))) /\
      slavePorts w' = slavePorts w /\ respLayers w' = respLayers w /\
      (exists l', reqLayers w' = <[m := l']> (reqLayers w) /\ XBar.state l' = XBar.BUSY /\ XBar.waitingForLayer l' = XBar.waitingForLayer l /\
        XBar.waitingForPeer l' = if ok then None else Some (port_ptr s)) /\
      owned (XBar.releaseEvent l) (Some (if ok then edge + Pkt.payloadDelay p' else edge)) st' /\
      routeTo w' = (if ok && expects_response p then <[Pkt.req p := s]> (routeTo w) else routeTo w) /\
      (ok = false -> packets w' !! pkt = Some (Pkt.set_delays (Pkt.headerDelay p) (Pkt.payloadDelay p') p'))).
Proof.
  intros R He Hrq Htg Hl Hready Hnot now p' edge. destruct (find_dest_spec ann w pkt s p a st m R He Hrq Htg) as (b & Hfd & Rb).
  pose proof Hrq as [[q Q1] Q2 Q3 _ _ Q6 Q7]. unfold recvTimingReq. rewrite Q1. simpl. rewrite Q2. simpl. rewrite Q3. simpl. rewrite Hfd. simpl.
  pose proof (@tryTiming_busy (World X) (req_host P m) (req_laws P HP m) w st (port_ptr s)) as Hline. simpl in Hline. rewrite Hl in Hline. simpl in Hline.
  unfold tryReq. simpl. rewrite Hl. simpl. pose proof Hnot as Hnot0. unfold ports in Hnot. rewrite not_elem_of_app in Hnot. destruct Hnot as [_ Hn2]. unfold XBar.tryTiming.
  destruct (bool_decide (XBar.state l = XBar.BUSY) || bool_decide (is_Some (XBar.waitingForPeer l))) eqn:Hbusy; simpl.
  { rewrite bool_decide_true by done. simpl. split; [done|]. split; [done|]. split; [done|]. split; [done|]. split; [|done]. intros Hok.
    rewrite orb_true_iff, !bool_decide_eq_true in Hbusy. destruct (Hline Hok Hnot0 Hbusy) as (l1 & El & Hok1). unfold XBar.tryTiming in El.
    assert (bool_decide (XBar.state l = XBar.BUSY) || bool_decide (is_Some (XBar.waitingForPeer l)) = true) as Hb by (by rewrite orb_true_iff, !bool_decide_eq_true).
    rewrite Hb, bool_decide_true in El by done. simpl in El. injection El as <-. by eapply req_ok_same. }
  apply orb_false_iff in Hbusy as [Hb Hp]. apply bool_decide_eq_false in Hb. apply bool_decide_eq_false in Hp.
  assert (XBar.waitingForPeer l = None) as Hp' by (destruct (XBar.waitingForPeer l); [by destruct Hp|done]).
  destruct (ready_free m w st l Hready Hl Hb Hp') as [[S1 S2 S3 S4 S5] Hown]. unfold drain_ok in S4. simpl in *. rewrite Hl in S4, S5. simpl in S4, S5.
  unfold ports in S5. rewrite Hp' in S5. simpl in S5. set (w1 := set_reqLayers _ _).
  assert (holds P m (XBar.set_state XBar.BUSY l) w1 st) as Hh by (split; try done; simpl; by rewrite lookup_insert_eq).
  eapply wp_mono; [apply (forward_req_spec frontendLatency forwardLatency width P us HP sendTimingReq w1 st pkt s p m _ Q2 Hh Hn2 Q6 Q7)|].
  intros [ok [w' st']] (K1 & (w2 & w3 & st3 & K2 & _ & K3 & _) & K4 & K5 & K6 & _ & _ & (l' & K7 & K8 & K9 & K10 & _) & K11 & K12 & K13 & K14).
  rewrite K4. split; [done|]. split; [done|]. split; [done|]. split; [by exists w2, w3, st3|]. split; [done|]. split; [done|].
  split; [exists l'; rewrite K7; simpl; by rewrite insert_insert_eq|]. by split.
Qed.
End Request.

(** ** Responses *)

(** What the operations of a layer do to the system, they do through the host and the
    retries. *)
Section Keep.
Context {W : Type} `{XBar.LayerHost W} (sendRetry : positive -> W * EventQ.State -> option (W * EventQ.State)).
Variable R : W -> W -> Prop.
Context {HR : PreOrder R}.
Hypothesis R_layer : forall l w, R w (XBar.set_layer l w).
Hypothesis R_drains : forall d w, R w (XBar.set_drains d w).
Hypothesis R_edge : forall now w t w', XBar.clockEdge now w = Some (t, w') -> R w w'.
Hypothesis R_retry : forall src ws ws', sendRetry src ws = Some ws' -> R ws.1 ws'.1.

Lemma on_layer_keeps f ws ws' : XBar.on_layer f ws = Some ws' -> R ws.1 ws'.1.
Proof. destruct ws as [w st]. unfold XBar.on_layer. destruct (f _) as [[l st']|]; [|done]. intros [= <-]. apply R_layer. Qed.

Lemma retryWaiting_keeps ws ws' : XBar.retryWaiting sendRetry ws = Some ws' -> R ws.1 ws'.1.
Proof.
  destruct ws as [w st]. unfold XBar.retryWaiting. destruct (XBar.waitingForLayer _) as [|src rest]; [done|].
  destruct (assert_ _); [|done]. simpl. destruct (sendRetry src _) as [[w1 st1]|] eqn:E; [|done]. simpl. apply R_retry in E. simpl in E.
  assert (R w w1) as H1 by (by etrans; [apply R_layer|exact E]). destruct (bool_decide _); [|by intros [= <-]].
  destruct (XBar.clockEdge _ w1) as [[t w2]|] eqn:E2; [|done]. simpl. apply R_edge in E2. intros E3. apply (on_layer_keeps _ (_, st1)) in E3. simpl in E3.
  etrans; [exact H1|]. etrans; [exact E2|]. etrans; [apply R_layer|exact E3].
Qed.

Lemma releaseLayer_keeps ws ws' : XBar.releaseLayer sendRetry ws = Some ws' -> R ws.1 ws'.1.
Proof.
  destruct ws as [w st]. unfold XBar.releaseLayer. destruct (assert_ _); [|done]. simpl. destruct (EventQ.deref _ st) as [e|]; [|done]. simpl.
  destruct (assert_ _); [|done]. simpl. destruct (XBar.waitingForLayer _) as [|src rest], (XBar.waitingForPeer _); try (intros [= <-]; apply R_layer).
  - destruct (Drain.drainState _ _) as [d|]; [|done]. simpl. destruct d; try (intros [= <-]; apply R_layer).
    destruct (Drain.signalDrainDone _ _) as [d|]; [|done]. intros [= <-]. simpl. etrans; [apply R_layer|apply R_drains].
  - intros E. apply retryWaiting_keeps in E. simpl in *. by etrans; [apply R_layer|exact E].
Qed.

Lemma recvRetry_keeps ws ws' : XBar.recvRetry sendRetry ws = Some ws' -> R ws.1 ws'.1.
Proof.
  destruct ws as [w st]. unfold XBar.recvRetry. destruct (XBar.waitingForPeer _) as [src|]; [|done]. simpl. destruct (bool_decide _).
  - intros E. apply retryWaiting_keeps in E. simpl in *. by etrans; [apply R_layer|exact E].
  - destruct (assert_ _); [|done]. intros [= <-]. apply R_layer.
Qed.
End Keep.

(** A packet scheduled on a queue is in its list. *)
Lemma schedSendTiming_perm {Y} (v v' : PQ.World Y) st st' pkt when force :
  PQ.schedSendTiming pkt when force (v, st) = Some (v', st') -> PQ.transmitList (PQ.queue v') ≡ₚ (when, pkt) :: PQ.transmitList (PQ.queue v).
Proof.
  unfold PQ.schedSendTiming. intros E. apply bind_Some in E as (_ & _ & E). apply bind_Some in E as (p & _ & E). apply bind_Some in E as (_ & _ & E).
  apply bind_Some in E as (_ & _ & E). destruct (PQ.transmitList (PQ.queue v)) as [|d l] eqn:El.
  - unfold PQ.schedSendEvent in E. apply bind_Some in E as (e & _ & E). destruct (PQ.waitingOnRetry _); [by apply bind_Some in E as (_ & _ & [= <- <-])|].
    destruct (negb _); [destruct (negb _); [|destruct (_ <? _); [|by injection E as <- <-]]|].
    + by apply bind_Some in E as (? & _ & [= <- <-]).
    + by apply bind_Some in E as (? & _ & [= <- <-]).
    + apply bind_Some in E as (? & _ & E). destruct (_ && _); [|by injection E as <- <-]. by apply bind_Some in E as (? & _ & [= <- <-]).
  - apply bind_Some in E as (i & _ & [= <- _]). simpl. unfold PQ.emplace.
    rewrite <- (take_drop i l) at 3. change (d :: take i l ++ (when, pkt) :: drop i l) with ((d :: take i l) ++ (when, pkt) :: drop i l).
    rewrite <- Permutation_middle. done.
Qed.

Section Response.
Context {X : Type} (responseLatency width P us : Z) (HP : 0 < P).
Implicit Types (w : World X) (st : EventQ.State).

(** A response to a request that came from slave port [s], whose queue is [q]. *)
Record response w st (pkt : positive) (s : Z) (p : Pkt.Packet) (q : PQ.PacketQueue) : Prop := {
  rs_packet : packets w !! pkt = Some p;
  rs_route : routeTo w !! Pkt.req p = Some s;
  rs_queue : aget (slavePorts w) s = Some q /\ settled (queue_view q w) st;
  rs_addr : is_Some (Pkt.getAddr p) /\ Pkt.isExpressSnoop p = false;
  rs_room : PQ.disableSanityCheck q || (zlen (PQ.transmitList q) <=? 100) = true;
  rs_timing : timing_ok us width P (EventQ.curTick st) (resp_delay responseLatency P) p
}.

(** C33: responses.  A response for a port whose layer is taken waits at the end of the
    line.  Otherwise it is put into the queue of the slave port its request came from,
    to leave after the delays that it has collected and those of the crossbar, with its
    header delay paid; its route is forgotten, and the layer is busy.  No assertion
    fails on the way, and the layer and the queue keep their invariants. *)
Theorem xbar_response w st pkt p s m l q :
  response w st pkt s p q -> respLayers w !! s = Some l -> resp_ok P HP s w st -> port_ptr m ∉ ports l -> XBar.releaseEvent l <> PQ.sendEvent q ->
  let now := EventQ.curTick st in
  let p' := timed width P now (resp_delay responseLatency P) p in
  wp (recvTimingResp responseLatency width P us pkt m (w, st)) (fun '(ok, (w', st')) => resp_ok P HP s w' st' /\ EventQ.curTick st' = now /\
    if bool_decide (XBar.state l = XBar.BUSY) || bool_decide (is_Some (XBar.waitingForPeer l)) then
      ok = false /\ st' = st /\ w' = set_respLayers (<[s := XBar.set_waiting (XBar.waitingForLayer l ++ [port_ptr m]) l]> (respLayers w)) w
    else
      ok = true /\ (exists q', slavePorts w' = <[Z.to_nat s := q']> (slavePorts w) /\ settled (queue_view q' w') st' /\
        PQ.transmitList q' ≡ₚ (now + Pkt.headerDelay p', pkt) :: PQ.transmitList q) /\
      routeTo w' = delete (Pkt.req p) (routeTo w) /\ packets w' = <[pkt := Pkt.set_delays 0 (Pkt.payloadDelay p') p']> (packets w)).
Proof.
  intros [Q1 Q2 [Q3 Q4] [[a Qa] Q5] Q6 Q7] Hl Hok Hnot Hne now p'.
  unfold recvTimingResp. rewrite Q1. simpl. rewrite Q2. simpl. destruct (aget_Some_bounds _ _ _ Q3) as [Hs0 _]. unfold Route.InvalidPortID.
  destruct (Z.eqb_spec s (-1)); [lia|]. simpl. unfold tryResp. rewrite Hl. simpl.
  pose proof (@tryTiming_busy (World X) (resp_host P s) (resp_laws P HP s) w st (port_ptr m) Hok) as Hline. simpl in Hline. rewrite Hl in Hline. simpl in Hline.
  pose proof Hnot as Hnot0. unfold ports in Hnot. rewrite not_elem_of_app in Hnot. destruct Hnot as [_ Hn2]. unfold XBar.tryTiming in *.
  destruct (bool_decide (XBar.state l = XBar.BUSY) || bool_decide (is_Some (XBar.waitingForPeer l))) eqn:Hbusy; simpl.
  { rewrite bool_decide_true by done. simpl. rewrite orb_true_iff, !bool_decide_eq_true in Hbusy. destruct (Hline Hnot0 Hbusy) as (l1 & El & Hok1).
    rewrite bool_decide_true in El by done. simpl in El. injection El as <-. by split. }
  clear Hline. apply orb_false_iff in Hbusy as [Hb Hp]. apply bool_decide_eq_false in Hb. apply bool_decide_eq_false in Hp.
  assert (XBar.waitingForPeer l = None) as Hp' by (destruct (XBar.waitingForPeer l); [by destruct Hp|done]).
  destruct Hok as [[S1 S2 S3 S4 S5] (e & He & Hst)]. unfold drain_ok in S4. simpl in *. rewrite Hl in S4, S5, He, Hst. simpl in S4, S5, He, Hst.
  unfold ports in S5. rewrite Hp' in S5. simpl in S5. set (w1 := set_respLayers _ _).
  assert (e = None) as -> by (destruct (XBar.state l); [by destruct Hst|done|done]).
  assert (resp_holds P s (XBar.set_state XBar.BUSY l) w1 st) as Hh by (split; try done; simpl; by rewrite lookup_insert_eq).
  eapply wp_mono; [by apply (forward_resp_spec responseLatency width P us HP w1 st pkt p s m _ q a Q1 Hh)|].
  intros [ok [w' st']] (-> & K1 & (q' & K2 & K3 & K4) & K5 & K6 & K7 & K8 & K9 & _).
  split; [done|]. split; [done|]. split; [done|]. split; [by exists q'|]. by split.
Qed.
End Response.

Section Return.
Context {X : Type} (frontendLatency forwardLatency responseLatency width P us : Z).
Context (sendTimingReq : Z -> positive -> World X * EventQ.State -> option (bool * (World X * EventQ.State))).
Context (sendRetryReq sendRetryResp : Z -> World X * EventQ.State -> option (World X * EventQ.State)).
Implicit Types (w : World X) (st : EventQ.State).

Abbreviation recvReq := (recvTimingReq frontendLatency forwardLatency width P us sendTimingReq).
Abbreviation recvResp := (recvTimingResp responseLatency width P us).

(** The routes of a system are routes of another one. *)
Definition keeps_routes w w' : Prop := routeTo w ⊆ routeTo w'.

#[local] Instance keeps_routes_pre : PreOrder keeps_routes.
Proof. unfold keeps_routes. split; [intros w; done|intros w1 w2 w3; apply transitivity]. Qed.

(** The neighbours of the ports may use the crossbar, but do not answer at once, and keep
    the request of a packet that needs a response. *)
Class Neighbours : Prop := {
  nb_send m pkt ws ok ws' : sendTimingReq m pkt ws = Some (ok, ws') -> keeps_routes ws.1 ws'.1 /\
    forall p, ok = true -> packets ws.1 !! pkt = Some p -> Pkt.needsResponse p = true -> exists p', packets ws'.1 !! pkt = Some p' /\ Pkt.req p' = Pkt.req p;
  nb_retry_req s ws ws' : sendRetryReq s ws = Some ws' -> keeps_routes ws.1 ws'.1;
  nb_retry_resp m ws ws' : sendRetryResp m ws = Some ws' -> keeps_routes ws.1 ws'.1
}.

(** What happens while the response to request [r] is outstanding: requests, responses to
    other requests or such as have to wait, retries, release events, changes of the
    address map, and whatever leaves the crossbar's routes alone. *)
Inductive xstep (r : positive) : World X * EventQ.State -> World X * EventQ.State -> Prop :=
| xs_req pkt s ok ws ws' : recvReq pkt s ws = Some (ok, ws') -> xstep r ws ws'
| xs_resp pkt m ok ws ws' : recvResp pkt m ws = Some (ok, ws') ->
    (ok = true -> forall p, packets ws.1 !! pkt = Some p -> Pkt.req p <> r) -> xstep r ws ws'
| xs_retry m ws ws' : recvReqRetry P sendRetryReq m ws = Some ws' -> xstep r ws ws'
| xs_release_req m ws ws' : release_req P sendRetryReq m ws = Some ws' -> xstep r ws ws'
| xs_release_resp s ws ws' : release_resp P sendRetryResp s ws = Some ws' -> xstep r ws ws'
| xs_ranges id rs told b w st : Route.recvRangeChange id rs (base w) = Some (told, b) -> xstep r (w, st) (set_base b w, st)
| xs_others w st w' st' : keeps_routes w w' -> xstep r (w, st) (w', st').

Context {HN : Neighbours}.

Lemma on_req_routes m f (w w' : World X) st st' : on_req m f (w, st) = Some (w', st') -> routeTo w' = routeTo w.
Proof. unfold on_req. intros E. apply bind_Some in E as (l & _ & E). by apply bind_Some in E as ([l' st1] & _ & [= <- _]). Qed.

Lemma clockEdge_routes k now (w w' : World X) t : xbar_clockEdge P k now w = Some (t, w') -> routeTo w' = routeTo w /\ packets w' = packets w.
Proof. unfold xbar_clockEdge. intros E. by apply bind_Some in E as ([t' c] & _ & [= _ <-]). Qed.

Lemma calc_timing_routes pkt d now (w w' : World X) p : calc_timing width P us pkt d now w = Some (p, w') ->
  routeTo w' = routeTo w /\ packets w' !! pkt = Some p /\ exists p0, packets w !! pkt = Some p0 /\ Pkt.req p = Pkt.req p0 /\ Pkt.cmd p = Pkt.cmd p0 /\ Pkt.flags p = Pkt.flags p0.
Proof.
  unfold calc_timing. intros E. apply bind_Some in E as (p0 & Hp0 & E). apply bind_Some in E as ([p1 c] & Hc & [= <- <-]).
  split; [done|]. split; [simpl; by rewrite lookup_insert_eq|]. exists p0. split; [done|]. unfold Route.calcPacketTiming in Hc.
  apply bind_Some in Hc as ([edge c'] & _ & Hc). apply bind_Some in Hc as (_ & _ & Hc).
  match type of Hc with (if ?b then _ else _) = _ => destruct b end; [|by injection Hc as <- _].
  apply bind_Some in Hc as (n & _ & Hc). by apply bind_Some in Hc as (k & _ & [= <- _]).
Qed.

Lemma forward_req_routes pkt s m p (ws ws' : World X * EventQ.State) ok :
  packets ws.1 !! pkt = Some p -> forward_req frontendLatency forwardLatency width P us sendTimingReq pkt s m p ws = Some (ok, ws') ->
  keeps_routes ws.1 ws'.1 /\ (ok = true -> expects_response p = true -> routeTo ws'.1 !! Pkt.req p = Some s).
Proof.
  destruct ws as [w st], ws' as [w' st']. intros Hp E. unfold forward_req in E. apply bind_Some in E as (n & _ & E). apply bind_Some in E as ([p1 w1] & E1 & E).
  apply bind_Some in E as ([edge w2] & E2 & E). apply bind_Some in E as ([success [w3 st3]] & E3 & E).
  apply calc_timing_routes in E1 as (R1 & P1 & p0 & Hp0 & Q1 & Q2 & Q3). assert (p0 = p) as -> by (simpl in Hp; congruence). apply clockEdge_routes in E2 as [R2 P2].
  destruct (nb_send _ _ _ _ _ E3) as [K3 T3]. simpl in K3, T3. assert (keeps_routes w w3) as K by (unfold keeps_routes in *; by rewrite <- R1, <- R2).
  assert (expects_response p1 = expects_response p) as Hex by (unfold expects_response, Pkt.needsResponse, Pkt.cacheResponding; by rewrite Q2, Q3).
  simpl. destruct success; simpl in E.
  - apply bind_Some in E as (w4 & E4 & E). apply bind_Some in E as ([w5 st5] & E5 & [= <- <- <-]). apply on_req_routes in E5. simpl.
    unfold expects_response in Hex. rewrite Hex in E4. fold (expects_response p) in E4. destruct (expects_response p) eqn:Ex.
    + destruct (T3 p1 eq_refl) as (p' & Hp' & Hreq); [by rewrite P2|unfold expects_response in Ex; apply andb_true_iff in Ex as [Ex _]; unfold Pkt.needsResponse in *; by rewrite Q2|].
      rewrite Hp' in E4. simpl in E4. rewrite Hreq, Q1 in E4. apply bind_Some in E4 as ([] & Ha & [= <-]). simpl. unfold assert_ in Ha.
      destruct (bool_decide (routeTo w3 !! Pkt.req p = None)) eqn:Hn; [|done]. apply bool_decide_eq_true in Hn. split; [|intros _ _; simpl; rewrite E5; simpl; by rewrite lookup_insert_eq].
      unfold keeps_routes in *. simpl. etrans; [exact K|rewrite E5; simpl; by apply insert_subseteq].
    + injection E4 as <-. unfold keeps_routes in *. simpl. rewrite E5. by split.
  - apply bind_Some in E as (p3 & _ & E). apply bind_Some in E as ([edge' w4] & E4 & E). apply bind_Some in E as ([w5 st5] & E5 & [= <- <- <-]).
    apply on_req_routes in E5. apply clockEdge_routes in E4 as [R4 _]. simpl in R4. split; [|done]. unfold keeps_routes in *. by rewrite E5, R4.
Qed.

Lemma find_dest_routes p (w w' : World X) m : find_dest p w = Some (m, w') -> routeTo w' = routeTo w /\ packets w' = packets w.
Proof. unfold find_dest. intros E. apply bind_Some in E as (a & _ & E). apply bind_Some in E as (n & _ & E). by apply bind_Some in E as ([m' b] & _ & [= _ <-]). Qed.

Lemma recvTimingReq_routes pkt s (ws ws' : World X * EventQ.State) ok p :
  packets ws.1 !! pkt = Some p -> recvReq pkt s ws = Some (ok, ws') ->
  keeps_routes ws.1 ws'.1 /\ (ok = true -> expects_response p = true -> routeTo ws'.1 !! Pkt.req p = Some s).
Proof.
  destruct ws as [w st]. intros Hp E. unfold recvTimingReq in E. apply bind_Some in E as (q & _ & E). apply bind_Some in E as (p0 & Hp0 & E).
  simpl in Hp. assert (p0 = p) as -> by congruence. apply bind_Some in E as (_ & _ & E). apply bind_Some in E as ([m w1] & E1 & E). apply bind_Some in E as ([free w2] & E2 & E).
  apply find_dest_routes in E1 as [R1 P1]. assert (routeTo w2 = routeTo w1 /\ packets w2 = packets w1) as [R2 P2].
  { unfold tryReq in E2. apply bind_Some in E2 as (l & _ & E2). by apply bind_Some in E2 as ([b l'] & _ & [= _ <-]). }
  destruct free; simpl in E.
  - apply forward_req_routes in E as [K T]; [|simpl; congruence]. split; [|done]. unfold keeps_routes in *. simpl in *. by rewrite <- R1, <- R2.
  - injection E as <- <-. split; [|done]. unfold keeps_routes. simpl. by rewrite R2, R1.
Qed.

(** What a response does: it waits for the layer of the port that its request came from, or
    it is put into the queue of that port. *)
Definition returned (pkt : positive) (m s : Z) (r : positive) (ok : bool) w w' : Prop :=
  if ok then routeTo w' = delete r (routeTo w) /\
    exists q q' t, aget (slavePorts w) s = Some q /\ slavePorts w' = <[Z.to_nat s := q']> (slavePorts w) /\ PQ.transmitList q' ≡ₚ (t, pkt) :: PQ.transmitList q
  else routeTo w' = routeTo w /\ slavePorts w' = slavePorts w /\
    exists l, respLayers w !! s = Some l /\ respLayers w' = <[s := XBar.set_waiting (XBar.waitingForLayer l ++ [port_ptr m]) l]> (respLayers w).

Lemma recvTimingResp_returned pkt m p s w st ok ws' :
  packets w !! pkt = Some p -> routeTo w !! Pkt.req p = Some s -> recvResp pkt m (w, st) = Some (ok, ws') -> returned pkt m s (Pkt.req p) ok w ws'.1.
Proof.
  intros Hp Hr E. unfold recvTimingResp in E. rewrite Hp in E. simpl in E. rewrite Hr in E. simpl in E. apply bind_Some in E as (_ & _ & E).
  apply bind_Some in E as ([free w1] & E1 & E). unfold tryResp in E1. apply bind_Some in E1 as (l & Hl & E1). apply bind_Some in E1 as ([b l'] & El & [= <- <-]).
  unfold XBar.tryTiming in El. destruct (_ || _) in El.
  - apply bind_Some in El as (_ & _ & [= <- <-]). simpl in E. injection E as <- <-. split; [done|]. split; [done|]. by exists l.
  - injection El as <- <-. simpl in E. unfold forward_resp in E. apply bind_Some in E as (n & _ & E). apply bind_Some in E as ([p1 w2] & E2 & E).
    apply bind_Some in E as ([edge w3] & E3 & E). apply bind_Some in E as ([w4 st4] & E4 & E). apply bind_Some in E as ([w5 st5] & E5 & [= <- <-]).
    assert (slavePorts w2 = slavePorts w) as Q2.
    { unfold calc_timing in E2. apply bind_Some in E2 as (? & _ & E2). by apply bind_Some in E2 as ([? ?] & _ & [= _ <-]). }
    apply calc_timing_routes in E2 as (R2 & P2 & p0 & Hp0 & Q1 & _). simpl in Hp0, R2. assert (p0 = p) as -> by congruence.
    assert (slavePorts w3 = slavePorts w2) as Q3 by (unfold xbar_clockEdge in E3; by apply bind_Some in E3 as ([? ?] & _ & [= _ <-])).
    apply clockEdge_routes in E3 as [R3 _]. unfold schedTimingResp in E4. apply bind_Some in E4 as (q & Hq & E4). apply bind_Some in E4 as ([v st'] & E4 & E6).
    apply schedSendTiming_perm in E4. apply bind_Some in E6 as (w6 & E6 & [= <- <-]). unfold queue_back in E6. apply bind_Some in E6 as (ports & Ep & [= <-]).
    simpl in Hq, E4, Ep. unfold on_resp in E5. apply bind_Some in E5 as (l5 & _ & E5). apply bind_Some in E5 as ([l6 st6] & _ & [= <- _]). simpl.
    split; [by rewrite R3, R2, Q1|]. rewrite Q3, Q2 in Hq, Ep. exists q, (PQ.queue v). eexists. split; [done|].
    rewrite (aset_spec _ _ _ (aget_Some_bounds _ _ _ Hq)) in Ep. injection Ep as <-. by split.
Qed.

Lemma xstep_keeps r s ws ws' : xstep r ws ws' -> routeTo ws.1 !! r = Some s -> routeTo ws'.1 !! r = Some s.
Proof.
  assert (forall w w', keeps_routes w w' -> routeTo w !! r = Some s -> routeTo w' !! r = Some s) as Hk by (intros w w' K Hr; by apply (lookup_weaken _ _ _ _ Hr)).
  assert (forall (h : XBar.LayerHost (World X)), (forall l w, routeTo (XBar.set_layer l w) = routeTo w) -> (forall d w, routeTo (XBar.set_drains d w) = routeTo w) ->
    XBar.clockEdge = xbar_clockEdge P 0 -> (forall l w, keeps_routes w (XBar.set_layer l w)) /\ (forall d w, keeps_routes w (XBar.set_drains d w)) /\
    (forall now w t w', XBar.clockEdge now w = Some (t, w') -> keeps_routes w w')) as Hhost.
  { intros h H1 H2 H3. unfold keeps_routes. split; [intros; by rewrite H1|]. split; [intros; by rewrite H2|]. intros now w t w' E. rewrite H3 in E.
    apply clockEdge_routes in E as [-> _]. done. }
  intros Hstep Hr. destruct Hstep as [pkt s' ok ws ws' E|pkt m ok ws ws' E Hne|m ws ws' E|m ws ws' E|s' ws ws' E|id rs told b w st E|w st w' st' K].
  - destruct ws as [w st]. pose proof E as E0. unfold recvTimingReq in E0. apply bind_Some in E0 as (q & _ & E0). apply bind_Some in E0 as (p & Hp & _).
    destruct (recvTimingReq_routes pkt s' (w, st) ws' ok p Hp E) as [K _]. by apply (Hk _ _ K).
  - destruct ws as [w st]. pose proof E as E0. unfold recvTimingResp in E0. apply bind_Some in E0 as (p & Hp & E0). apply bind_Some in E0 as (s' & Hs' & _).
    pose proof (recvTimingResp_returned _ _ _ _ _ _ _ _ Hp Hs' E) as H. unfold returned in H. simpl in *. destruct ok; [|by rewrite (proj1 H)].
    rewrite (proj1 H). rewrite lookup_delete_ne; [done|]. by apply Hne.
  - unfold recvReqRetry in E. apply bind_Some in E as (l & _ & E). destruct (Hhost (req_host P m)) as (H1 & H2 & H3); [done..|].
    apply (recvRetry_keeps _ keeps_routes H1 H3) in E; [by apply (Hk _ _ E)|]. intros src ws1 ws2. apply nb_retry_req.
  - unfold release_req in E. apply bind_Some in E as (l & _ & E). destruct (Hhost (req_host P m)) as (H1 & H2 & H3); [done..|].
    apply (releaseLayer_keeps _ keeps_routes H1 H2 H3) in E; [by apply (Hk _ _ E)|]. intros src ws1 ws2. apply nb_retry_req.
  - unfold release_resp in E. apply bind_Some in E as (l & _ & E). destruct (Hhost (resp_host P s')) as (H1 & H2 & H3); [done..|].
    apply (releaseLayer_keeps _ keeps_routes H1 H2 H3) in E; [by apply (Hk _ _ E)|]. intros src ws1 ws2. apply nb_retry_resp.
  - done.
  - by apply (Hk _ _ K).
Qed.

(** C22: a response finds its way back.  After the crossbar has taken a request from a
    slave port, and whatever happens before the response, the response goes to that
    slave port: it is put into the queue of that port alone and the route is
    forgotten, or it has to wait for the layer of that port. *)
Theorem response_returns ws0 ws1 ws2 ws3 pkt pkt' p p' s m ok :
  packets ws0.1 !! pkt = Some p -> expects_response p = true -> recvReq pkt s ws0 = Some (true, ws1) ->
  rtc (xstep (Pkt.req p)) ws1 ws2 ->
  packets ws2.1 !! pkt' = Some p' -> Pkt.req p' = Pkt.req p -> recvResp pkt' m ws2 = Some (ok, ws3) ->
  returned pkt' m s (Pkt.req p) ok ws2.1 ws3.1.
Proof.
  intros Hp Hex E1 Hsteps Hp' Hreq E3. destruct (recvTimingReq_routes _ _ _ _ _ p Hp E1) as [_ Hr]. specialize (Hr eq_refl Hex).
  assert (routeTo ws2.1 !! Pkt.req p = Some s) as Hr2.
  { clear E1 Hp' E3. induction Hsteps as [|x y z Hxy _ IH]; [done|]. by apply IH, (xstep_keeps _ _ x). }
  destruct ws2 as [w2 st2]. rewrite <- Hreq in *. by apply (recvTimingResp_returned _ _ p' _ _ st2).
Qed.
End Return.

(** ** Witnesses *)

(** A device with the addresses from 0x1000 on behind a crossbar with one slave port; the
    period of its clock is 10 ticks. *)
Definition demo_ann : list (Z * list AddrRange) := [(0, [RangeSize 0x1000 0x100])].
Definition demo_base : Route.BaseXBar := default (Route.BaseXBar_new 1 false false) (announce demo_ann (Route.BaseXBar_new 1 false false)).
Definition demo_drain : Drain.System :=
  foldr (fun o d => default d (Drain.Drainable_new o d)) Drain.DrainManager_new [1%positive; 2%positive; 3%positive].

(** Request 1 is a write of eight bytes, request 2 a read. *)
Definition demo_preq (a : Z) : Pkt.Request := Pkt.mkRequest (Some a) (Some 8) false false false false false false false.
Definition demo_pkts : gmap positive Pkt.Packet :=
  {[ 1%positive := Pkt.createWrite 1 (demo_preq 0x1010); 2%positive := Pkt.createRead 2 (demo_preq 0x1020) ]}.

Definition demo_xbar : World unit :=
  set_mem demo_pkts ∅ (set_base demo_base
    (NoncoherentXBar_new 1 1 false false (fun _ => 1%positive) (fun _ => 1%positive) (fun _ => 2%positive) (fun _ => 2%positive) (fun _ => 3%positive) (fun _ => 3%positive) demo_drain tt)).
Definition demo_events : EventQ.State :=
  foldr (fun e st => EventQ.set_heap (<[e := fresh_event 0]> (EventQ.heap st)) st) (EventQ.EventQueue_new ∅ 7) [1%positive; 2%positive; 3%positive].

(** A device that takes every packet. *)
Definition demo_send (m : Z) (pkt : positive) (ws : World unit * EventQ.State) : option (bool * (World unit * EventQ.State)) := Some (true, ws).
Definition demo_noretry (i : Z) (ws : World unit * EventQ.State) : option (World unit * EventQ.State) := Some ws.

#[export] Instance demo_peer : Peer demo_send.
Proof. split. intros m pkt p w st Hp Hc. simpl. split; [by split|]. split; [done|]. intros _ _. by exists p. Qed.

#[export] Instance demo_neighbours : Neighbours demo_send demo_noretry demo_noretry.
Proof.
  split; unfold demo_send, demo_noretry, keeps_routes; [|by intros ? ? ? [= <-]..]. intros m pkt ws ok ws' [= <- <-]. split; [done|]. intros p _ Hp _. by exists p.
Qed.

Lemma demo_events_ok : calm demo_events /\ owned 1 None demo_events /\ owned 2 None demo_events /\ owned 3 None demo_events.
Proof.
  destruct (owned_fresh _ 3 0 (calm_new 7) eq_refl) as [C3 O3]. destruct (owned_fresh _ 2 0 C3 eq_refl) as [C2 O2]. destruct (owned_fresh _ 1 0 C2 eq_refl) as [C1 O1].
  split; [done|]. split; [done|]. split; [by apply (owned_data _ _ _ _ eq_refl O2)|]. by apply (owned_data _ _ _ _ eq_refl O3).
Qed.

Lemma counted_default o d :
  counted d -> Drain.state d = Drain.Running -> Drain.objects d !! o = None -> zlen (Drain.all_drainable d) + 1 < 2 ^ 32 -> counted (default d (Drain.Drainable_new o d)).
Proof. intros Hc Hs Ho Hz. pose proof (new_spec o d Hc (or_introl Hs) Ho Hz) as H. by destruct (Drain.Drainable_new o d). Qed.

Lemma demo_drain_ok : counted demo_drain /\ Drain.all_drainable demo_drain = [3%positive; 2%positive; 1%positive].
Proof. split; [|reflexivity]. unfold demo_drain. cbn [foldr]. repeat (apply counted_default; [|reflexivity|reflexivity|reflexivity]). apply new_counted. Qed.

Lemma demo_clock_ok : clock_ok 10 (EventQ.curTick demo_events) demo_xbar.
Proof. split; [by apply Clock.on_edge_new|by split]. Qed.

(** The two layers are new. *)
Lemma demo_layer_ok h (laws : @LayerLaws (World unit) h) (e o : positive) :
  XBar.layer demo_xbar = XBar.Layer_new e o -> XBar.drains demo_xbar = demo_drain -> host_ok 0 demo_xbar -> o ∈ [3%positive; 2%positive; 1%positive] -> owned e None demo_events ->
  layer_ok demo_xbar demo_events.
Proof.
  intros El Ed Hh Ho He. destruct demo_events_ok as (C & _). destruct demo_drain_ok as [D1 D2]. split.
  - split; try done; [unfold drain_ok; by rewrite El, Ed, D2|]. rewrite El. constructor.
  - exists None. rewrite El. split; [done|]. split; [done|]. split; [done|]. by intros [? ?].
Qed.

Lemma demo_req_ok : req_ok 10 eq_refl 0 demo_xbar demo_events.
Proof. apply (demo_layer_ok _ _ 1 1); [reflexivity|reflexivity|apply demo_clock_ok|do 3 constructor|apply demo_events_ok]. Qed.

Lemma demo_routes : routes (latest demo_ann ∅) demo_base /\ everyone (latest demo_ann ∅) demo_base.
Proof.
  assert (Forall (fun '(id, rs) => is_port (Route.BaseXBar_new 1 false false) id /\ Forall plain rs) demo_ann) as Hh.
  { apply Forall_cons. split; [split; [by split|]|done]. apply (proj2 (Forall_singleton _ _)), RangeSize_plain_any; lia. }
  pose proof (announce_spec demo_ann ∅ _ (new_routes 1 false false ltac:(lia) ltac:(done) ltac:(simpl; lia)) Hh) as H.
  assert (announce demo_ann (Route.BaseXBar_new 1 false false) = Some demo_base) as E by reflexivity. rewrite E in H. destruct H as (_ & R & _).
  split; [done|]. by apply (all_everyone _ _ (ro_mapped _ _ R)).
Qed.

Lemma demo_target : target (latest demo_ann ∅) demo_base (RangeSize 0x1020 8) 0.
Proof. left. exists (RangeSize 0x1000 0x100). split; [|by split]. split; [done|]. exists [RangeSize 0x1000 0x100]. split; [done|set_solver]. Qed.

Abbreviation demo_recvReq := (recvTimingReq 1 1 4 10 1000000 demo_send).
Abbreviation demo_recvResp := (recvTimingResp 1 4 10 1000000).

Lemma demo_request : request 1 1 4 10 1000000 demo_xbar demo_events 2 0 (Pkt.createRead 2 (demo_preq 0x1020)) 0x1020.
Proof. by split. Qed.

(** The read goes to the device; its response will go to slave port 0. *)
Lemma xbar_request_witness :
  wp (demo_recvReq 2 0 (demo_xbar, demo_events)) (fun '(ok, (w', st')) => ok = true /\ routeTo w' !! 2%positive = Some 0 /\ owned 1 (Some 10) st').
Proof.
  destruct demo_routes as [R He].
  pose proof (xbar_request 1 1 4 10 1000000 eq_refl demo_send (latest demo_ann ∅) demo_xbar demo_events 2 0 _ 0x1020 0 (XBar.Layer_new 1 1)
    R He demo_request demo_target eq_refl (or_introl demo_req_ok) (not_elem_of_nil _)) as H. cbv zeta in H.
  eapply wp_mono; [exact H|]. intros [ok [w' st']] (_ & _ & Hb). simpl in Hb.
  destruct Hb as (_ & (w1 & w2 & st2 & _ & [= <- _ _]) & _ & _ & _ & Ho & Hr & _). rewrite Hr. split; [done|]. split; [done|exact Ho].
Defined.

(** The device answers the read. *)
Definition demo_x1 : World unit * EventQ.State := match demo_recvReq 2 0 (demo_xbar, demo_events) with Some (_, ws) => ws | None => (demo_xbar, demo_events) end.
Definition demo_x2 : World unit * EventQ.State :=
  (set_packet 2 (default (Pkt.createRead 2 (demo_preq 0x1020)) (Pkt.makeResponse (Pkt.createRead 2 (demo_preq 0x1020)))) demo_x1.1, demo_x1.2).

Lemma response_returns_witness :
  exists ws3, demo_recvResp 2 0 demo_x2 = Some (true, ws3) /\ returned 2 0 0 2 true demo_x2.1 ws3.1.
Proof.
  destruct (demo_recvResp 2 0 demo_x2) as [[[] ws3]|] eqn:E; [|vm_compute in E; discriminate E..]. exists ws3. split; [done|].
  apply (response_returns 1 1 1 4 10 1000000 demo_send demo_noretry demo_noretry (demo_xbar, demo_events) demo_x1 demo_x2 ws3 2 2
    (Pkt.createRead 2 (demo_preq 0x1020)) (default (Pkt.createRead 2 (demo_preq 0x1020)) (Pkt.makeResponse (Pkt.createRead 2 (demo_preq 0x1020)))));
    [reflexivity|reflexivity|vm_compute; reflexivity| |vm_compute; reflexivity|reflexivity|exact E].
  eapply rtc_l; [|apply rtc_refl]. unfold demo_x2. destruct demo_x1 as [w1 st1]. apply xs_others. unfold keeps_routes. done.
Defined.

(** A response to request 2, for a crossbar that has the route. *)
Definition demo_resp : World unit := set_routeTo {[ 2%positive := 0 ]} demo_xbar.

Lemma xbar_response_witness :
  wp (demo_recvResp 2 0 (demo_resp, demo_events)) (fun '(ok, (w', st')) => ok = true /\ routeTo w' = ∅).
Proof.
  destruct demo_events_ok as (C & _ & O2 & O3). destruct demo_drain_ok as [D1 D2].
  assert (response 1 4 10 1000000 demo_resp demo_events 2 0 (Pkt.createRead 2 (demo_preq 0x1020)) (PQ.PacketQueue_new 3 3 false)) as Hr.
  { split; [reflexivity|reflexivity|split; [reflexivity|]|by split; [eexists|]|reflexivity|by split].
    split; [exact C|by split|by split; constructor|split; [exact D1|]|exists None; by split].
    change (3%positive ∈ Drain.all_drainable demo_drain). rewrite D2. constructor. }
  assert (resp_ok 10 eq_refl 0 demo_resp demo_events) as Hok.
  { apply (resp_ok_same 10 eq_refl 0 demo_xbar); [|done..]. apply (demo_layer_ok _ _ 2 2); [reflexivity|reflexivity|apply demo_clock_ok|do 2 constructor|done]. }
  eapply wp_mono; [apply (xbar_response 1 4 10 1000000 eq_refl demo_resp demo_events 2 (Pkt.createRead 2 (demo_preq 0x1020)) 0 0 (XBar.Layer_new 2 2) (PQ.PacketQueue_new 3 3 false) Hr);
    [reflexivity|exact Hok|apply not_elem_of_nil|discriminate]|].
  intros [ok [w' st']] (_ & _ & Hb). simpl in Hb. destruct Hb as (-> & _ & Hd & _). split; [done|]. rewrite Hd. reflexivity.
Defined.
