(* ===== verification/Float32.v ===== *)
(** * Float32: IEEE-754 single precision on bit patterns

    The program reads and writes activations (and, with [WEIGHT_FP], weights)
    through the unions [arith_activation_t] and [arith_weight_t] of
    [src/transformer_layers/util.h]: an [int32_t] bit pattern [bin] overlaid
    with a [float] [fp].  A [float] is modelled by the Standard Library's
    executable IEEE semantics [spec_float] at precision 24 and maximal
    exponent 128, round to nearest even; this file gives the two directions of
    the overlay and the operations the program performs.  The payload of a NaN
    is not modelled: every NaN is written back as the default quiet NaN. *)

From stdpp Require Import prelude.
From Stdlib Require Import ZArith Lia SpecFloat.
From S2P Require Import Prelude Machine.

Definition f32 : Type := spec_float.

Definition f32_prec : Z := 24.
Definition f32_emax : Z := 128.

Definition f32_add : f32 -> f32 -> f32 := SFadd f32_prec f32_emax.
Definition f32_sub : f32 -> f32 -> f32 := SFsub f32_prec f32_emax.
Definition f32_mul : f32 -> f32 -> f32 := SFmul f32_prec f32_emax.
Definition f32_div : f32 -> f32 -> f32 := SFdiv f32_prec f32_emax.
Definition f32_sqrt : f32 -> f32 := SFsqrt f32_prec f32_emax.

(** [(float) z] for an integer [z]. *)
Definition f32_of_Z (z : Z) : f32 := binary_normalize f32_prec f32_emax z 0 false.

Definition sign_bit (s : bool) : Z := if s then 2 ^ 31 else 0.

Definition quiet_nan : Z := 255 * 2 ^ 23 + 2 ^ 22.

(** The [fp] view of the bit pattern [b]. *)
Definition f32_of_bits (b : Z) : f32 :=
  let u := uint32 b in
  let s := 2 ^ 31 <=? u in
  let e := (u / 2 ^ 23) mod 256 in
  let m := u mod 2 ^ 23 in
  if e =? 255 then (if m =? 0 then S754_infinity s else S754_nan)
  else if e =? 0 then
    match m with Zpos p => S754_finite s p (-149) | _ => S754_zero s end
  else
    match m + 2 ^ 23 with Zpos p => S754_finite s p (e - 150) | _ => S754_nan end.

(** The bit pattern of a float, as an unsigned 32-bit integer. *)
Definition bits_of_f32 (f : f32) : Z :=
  match f with
  | S754_zero s => sign_bit s
  | S754_infinity s => sign_bit s + 255 * 2 ^ 23
  | S754_nan => quiet_nan
  | S754_finite s p e =>
      if Zpos p <? 2 ^ 23 then sign_bit s + Zpos p
      else sign_bit s + (e + 150) * 2 ^ 23 + (Zpos p - 2 ^ 23)
  end.

(** [x.fp != 0] *)
Definition f32_nonzero (f : f32) : bool := negb (SFeqb f (S754_zero false)).

Definition is_nan_bits (b : Z) : bool :=
  ((uint32 b / 2 ^ 23) mod 256 =? 255) && negb (uint32 b mod 2 ^ 23 =? 0).

(** ** Double precision

    The intermediate results of [exp], [sqrt] and [pow] are of type [double]. *)

Definition f64 : Type := spec_float.

Definition f64_prec : Z := 53.
Definition f64_emax : Z := 1024.

Definition f64_add : f64 -> f64 -> f64 := SFadd f64_prec f64_emax.
Definition f64_mul : f64 -> f64 -> f64 := SFmul f64_prec f64_emax.
Definition f64_div : f64 -> f64 -> f64 := SFdiv f64_prec f64_emax.
Definition f64_sqrt : f64 -> f64 := SFsqrt f64_prec f64_emax.

Definition f64_of_Z (z : Z) : f64 := binary_normalize f64_prec f64_emax z 0 false.

(** Conversions between the two precisions; the widening one is exact. *)
Definition f64_of_f32 (f : f32) : f64 :=
  match f with
  | S754_finite s p e => binary_normalize f64_prec f64_emax (cond_Zopp s (Zpos p)) e s
  | _ => f
  end.

Definition f32_of_f64 (f : f64) : f32 :=
  match f with
  | S754_finite s p e => binary_normalize f32_prec f32_emax (cond_Zopp s (Zpos p)) e s
  | _ => f
  end.

(** The integer a finite float truncates to. *)
Definition f64_trunc (f : f64) : option Z :=
  match f with
  | S754_zero _ => Some 0
  | S754_finite s p e =>
      Some (cond_Zopp s (if 0 <=? e then Zpos p * 2 ^ e else Zpos p / 2 ^ (- e)))
  | _ => None
  end.

(** [(int32_t) f]: undefined for NaN, infinities and values out of range. *)
Definition f64_to_int32 (f : f64) : option Z :=
  z ← f64_trunc f;
  if (- 2 ^ 31 <=? z) && (z <? 2 ^ 31) then Some z else None.

(** ** The overlay is faithful *)

(** The three fields of a bit pattern determine it. *)
Lemma bits_fields u :
  0 <= u < 2 ^ 32 ->
  u = (if 2 ^ 31 <=? u then 2 ^ 31 else 0) + (u / 2 ^ 23) mod 256 * 2 ^ 23 + u mod 2 ^ 23.
Proof.
  intros Hu.
  pose proof (Z.div_mod u (2 ^ 23) ltac:(lia)) as H1.
  pose proof (Z.div_mod (u / 2 ^ 23) 256 ltac:(lia)) as H2.
  pose proof (Z.mod_pos_bound (u / 2 ^ 23) 256 ltac:(lia)).
  pose proof (Z.mod_pos_bound u (2 ^ 23) ltac:(lia)).
  assert (0 <= u / 2 ^ 23 / 256 < 2).
  { split; [apply Z.div_pos; [apply Z.div_pos|]; lia|].
    apply Z.div_lt_upper_bound; [lia|]. apply Z.div_lt_upper_bound; lia. }
  destruct (Z.leb_spec (2 ^ 31) u); lia.
Qed.

Lemma bits_of_f32_of_bits b :
  is_nan_bits b = false -> bits_of_f32 (f32_of_bits b) = uint32 b.
Proof.
  unfold is_nan_bits, f32_of_bits. set (u := uint32 b).
  assert (0 <= u < 2 ^ 32) as Hu by (by apply wrapU_range).
  pose proof (bits_fields u Hu) as Hf.
  pose proof (Z.mod_pos_bound u (2 ^ 23) ltac:(lia)) as Hm.
  pose proof (Z.mod_pos_bound (u / 2 ^ 23) 256 ltac:(lia)) as He.
  set (e := (u / 2 ^ 23) mod 256) in *. set (m := u mod 2 ^ 23) in *.
  set (s := 2 ^ 31 <=? u) in *. change (if s then 2 ^ 31 else 0) with (sign_bit s) in Hf.
  destruct (Z.eqb_spec e 255) as [He1|He1]; simpl andb.
  - destruct (Z.eqb_spec m 0); [|done]. simpl. lia.
  - intros _. destruct (Z.eqb_spec e 0) as [He0|He0].
    + destruct m as [|p|p]; simpl bits_of_f32; [lia| |lia].
      destruct (Z.ltb_spec (Zpos p) (2 ^ 23)); lia.
    + destruct (m + 2 ^ 23) as [|p|p] eqn:Ep; [lia| |lia]. simpl bits_of_f32.
      destruct (Z.ltb_spec (Zpos p) (2 ^ 23)); lia.
Qed.

Lemma bits_of_f32_zero : bits_of_f32 (S754_zero false) = 0.
Proof. reflexivity. Qed.

Lemma f32_of_bits_0 : f32_of_bits 0 = S754_zero false.
Proof. reflexivity. Qed.

(** 1.5 * 2.0 + 0.25 = 3.25 *)
Example f32_mac_example :
  bits_of_f32 (f32_add (f32_mul (f32_of_bits 0x3FC00000) (f32_of_Z 2)) (f32_of_bits 0x3E800000))
  = 0x40500000.
Proof. vm_compute. reflexivity. Qed.
