(* ===== verification/Systolic.v ===== *)
(** * Systolic: the systolic array of the accelerator

    Translates [src/accelerator/systolic_m2m.cc] and [systolic_m2m.h]: the
    software model of the weight-stationary systolic array, a square of
    [KERNEL_DIM * KERNEL_DIM] multiply-accumulate cells with skewing memories
    in front of it ([inWaitingMemory]) and behind it ([outWaitingMemory]).
    All arrays are flat, row-major; every access is checked.  The stages of
    [streamInOut] are separate definitions because the gem5 device
    (file [Gem5Device]) runs the same stages on its own tiles. *)

From stdpp Require Import prelude.
From Stdlib Require Import ZArith Lia.
From S2P Require Import Prelude Machine Float32.

Section Systolic.
Context {cfg : Config}.

(** [mem2d(data,data_len,row,col)] *)
Definition mem2d (data_len row col : Z) : Z := row * data_len + col.

(** ** State *)

Record SystolicMatrixMultiplication := {
  weights : list Z;
  outputMemory : list Z;
  inputMemory : list Z;
  inWaitingMemory : list Z;
  outWaitingMemory : list Z;
  extra_input_buffer : list Z;
  extra_input_buffer_next_position : Z;
  non_zero_tile : bool
}.

(** The member initialisers: every array value-initialised to zero. *)
Definition SystolicMatrixMultiplication_new : SystolicMatrixMultiplication := {|
  weights := zeros (KERNEL_DIM * KERNEL_DIM);
  outputMemory := zeros (KERNEL_DIM * (KERNEL_DIM + 1));
  inputMemory := zeros (KERNEL_DIM * KERNEL_DIM);
  inWaitingMemory := zeros (KERNEL_DIM * KERNEL_DIM);
  outWaitingMemory := zeros (KERNEL_DIM * KERNEL_DIM);
  extra_input_buffer := zeros 4;
  extra_input_buffer_next_position := 0;
  non_zero_tile := false
|}.

(** ** Unpacking bus words *)

Definition getNthWeight (x n : Z) : option Z :=
  _ ← assert_ (0 <=? n);
  _ ← assert_ (n <? W_PER_BUS);
  Some (weight_t (Z.land (Z.shiftr x (WEIGHT_BITS * (W_PER_BUS - n - 1))) WEIGHT_MASK)).

Definition getNthActivation (x n : Z) : option Z :=
  _ ← assert_ (0 <=? n);
  _ ← assert_ (n <? ACT_PER_BUS);
  Some (activation_t
    (Z.land (Z.shiftr x (ACTIVATION_BITS * (ACT_PER_BUS - n - 1))) ACTIVATION_MASK)).

(** ** One multiply-accumulate cell

    With [ACTIVATION_FP] the operands are the [fp] views of the bit patterns;
    integer weights are converted to [float].  Without it, the C++ [int]
    arithmetic is 32-bit two's complement. *)
Definition mac (inp w acc : Z) : Z :=
  if ACTIVATION_FP then
    let wf := if WEIGHT_FP then f32_of_bits w else f32_of_Z w in
    int32 (bits_of_f32 (f32_add (f32_mul (f32_of_bits inp) wf) (f32_of_bits acc)))
  else int32 (int32 (inp * w) + acc).

(** ** Stages of [streamInOut] on the arrays *)

(** Shift the waiting memory to the right for skewing. *)
Definition shift_waiting (st : list Z * list Z) : option (list Z * list Z) :=
  for_up 0 KERNEL_DIM (fun i '(inW, inp) =>
    v ← aget inW (mem2d KERNEL_DIM i (KERNEL_DIM - 1));
    inp ← aset inp (mem2d KERNEL_DIM i 0) v;
    inW ← for_down (KERNEL_DIM - 1) 1 (fun j inW =>
      v ← aget inW (mem2d KERNEL_DIM i (j - 1));
      aset inW (mem2d KERNEL_DIM i j) v) inW;
    Some (inW, inp)) st.

(** Multiply the input to the weight and accumulate to the output. *)
Definition mac_stage (w inp : list Z) (out : list Z) : option (list Z) :=
  for_down (KERNEL_DIM * KERNEL_DIM - 1) 0 (fun i out =>
    x ← aget inp i;
    wt ← aget w i;
    acc ← aget out i;
    aset out (i + KERNEL_DIM) (mac x wt acc)) out.

(** Shift the input memory to the right. *)
Definition shift_input (inp : list Z) : option (list Z) :=
  for_up 0 KERNEL_DIM (fun i inp =>
    for_down (KERNEL_DIM - 1) 1 (fun j inp =>
      v ← aget inp (i * KERNEL_DIM + j - 1);
      aset inp (i * KERNEL_DIM + j) v) inp) inp.

(** Shift [outWaitingMemory] because of the skew in the output, and append the
    bottom row of the accumulators. *)
Definition shift_output (out : list Z) (outW : list Z) : option (list Z) :=
  for_up 0 KERNEL_DIM (fun j outW =>
    outW ← for_down (KERNEL_DIM - 1) 1 (fun i outW =>
      v ← aget outW (mem2d KERNEL_DIM (i - 1) j);
      aset outW (mem2d KERNEL_DIM i j) v) outW;
    v ← aget out (mem2d KERNEL_DIM KERNEL_DIM j);
    aset outW (mem2d KERNEL_DIM 0 j) (u_activation_t (Z.land v ACTIVATION_MASK))) outW.

(** ** Operations *)

Definition loadWeights (idx val : Z) (s : SystolicMatrixMultiplication)
  : option (bool * SystolicMatrixMultiplication) :=
  w ← for_up 0 W_PER_BUS (fun i w =>
    currVal ← getNthWeight val i;
    if idx + i <? KERNEL_DIM * KERNEL_DIM then aset w (idx + i) currVal else Some w)
    (weights s);
  let nz := if negb (val =? 0) then true else non_zero_tile s in
  Some (nz, {| weights := w; outputMemory := outputMemory s; inputMemory := inputMemory s;
               inWaitingMemory := inWaitingMemory s; outWaitingMemory := outWaitingMemory s;
               extra_input_buffer := extra_input_buffer s;
               extra_input_buffer_next_position := extra_input_buffer_next_position s;
               non_zero_tile := nz |}).

(** [storeInput], on [inWaitingMemory]; [%] is the C++ remainder. *)
Definition storeInput (idx val : Z) (inW : list Z) : option (list Z) :=
  _ ← assert_ (Z.rem KERNEL_DIM 4 =? 0);
  for_up 0 ACT_PER_BUS (fun i inW =>
    currVal ← getNthActivation val i;
    let row_index := idx + i in
    let in_row := Z.rem row_index SA_SIZE in
    let in_col := Z.rem (KERNEL_DIM - row_index - 1 + SA_SIZE) SA_SIZE in
    _ ← assert_ (0 <=? in_row);
    _ ← assert_ (in_row <? KERNEL_DIM);
    _ ← assert_ (0 <=? in_col);
    _ ← assert_ (in_col <? KERNEL_DIM);
    aset inW (mem2d KERNEL_DIM in_row in_col) currVal) inW.

Definition retrieveOutput (idx : Z) (outW : list Z) : option Z :=
  _ ← assert_ (Z.rem KERNEL_DIM ACT_PER_BUS =? 0);
  let result_idx := Z.rem (idx + ACT_PER_BUS) SA_SIZE in
  for_up 0 ACT_PER_BUS (fun i result =>
    let out_row := Z.rem (KERNEL_DIM - result_idx - i - 1 + SA_SIZE) SA_SIZE in
    let out_col := Z.rem (result_idx + i) SA_SIZE in
    _ ← assert_ (0 <=? out_row);
    _ ← assert_ (out_row <? KERNEL_DIM);
    _ ← assert_ (0 <=? out_col);
    _ ← assert_ (out_col <? KERNEL_DIM);
    v ← aget outW (mem2d KERNEL_DIM out_row out_col);
    Some (Z.lor result (uint32 (Z.shiftl v (ACTIVATION_BITS * (ACT_PER_BUS - i - 1)))))) 0.

Definition inputQueue (idx val : Z) (s : SystolicMatrixMultiplication)
  : option (Z * SystolicMatrixMultiplication) :=
  inW ← storeInput idx val (inWaitingMemory s);
  r ← retrieveOutput idx (outWaitingMemory s);
  Some (r, {| weights := weights s; outputMemory := outputMemory s;
              inputMemory := inputMemory s; inWaitingMemory := inW;
              outWaitingMemory := outWaitingMemory s;
              extra_input_buffer := extra_input_buffer s;
              extra_input_buffer_next_position := extra_input_buffer_next_position s;
              non_zero_tile := non_zero_tile s |}).

Definition readFlag (val : Z) (s : SystolicMatrixMultiplication) : Z := KERNEL_DIM.

Definition streamInOut (idx val : Z) (s : SystolicMatrixMultiplication)
  : option (Z * SystolicMatrixMultiplication) :=
  inW ← storeInput idx val (inWaitingMemory s);
  '(inW, inp) ← shift_waiting (inW, inputMemory s);
  out ← mac_stage (weights s) inp (outputMemory s);
  inp ← shift_input inp;
  outW ← shift_output out (outWaitingMemory s);
  r ← retrieveOutput idx outW;
  Some (r, {| weights := weights s; outputMemory := out; inputMemory := inp;
              inWaitingMemory := inW; outWaitingMemory := outW;
              extra_input_buffer := extra_input_buffer s;
              extra_input_buffer_next_position := extra_input_buffer_next_position s;
              non_zero_tile := false |}).
End Systolic.

(** * Closed forms of the stages of the systolic array

    Each stage of [streamInOut] is an imperative sweep over a flat array; the
    lemmas here give the matrix it leaves behind, in terms of the matrices it
    started from. *)

Section Stages.
Context {cfg : Config} {wf : WfConfig cfg}.
Abbreviation K := KERNEL_DIM.

(** One row shifted to the right, the sweep shared by the two input memories. *)
Lemma wp_shift_row (l : list Z) f i (Q : list Z -> Prop) (idx_src : Z -> Z) :
  0 <= i < K -> mat l K K f ->
  (forall j, 1 <= j < K -> idx_src j = i * K + (j - 1)) ->
  (forall l', mat l' K K (fun r c => if (r =? i) && (1 <=? c) then f r (c - 1) else f r c) -> Q l') ->
  wp (for_down (K - 1) 1 (fun j l => v ← aget l (idx_src j); aset l (i * K + j) v) l) Q.
Proof.
  intros Hi Hm Hsrc HQ. geometry.
  apply (wp_for_down (fun j l => mat l K K
    (fun r c => if (r =? i) && (j <? c) then f r (c - 1) else f r c))); [lia| | |].
  - eapply mat_ext; [done|]. intros. zcases; simpl; try done; lia.
  - intros j s Hj Hs. rewrite Hsrc by lia. apply wp_bind.
    eapply wp_mget; [done|lia|lia|]. eapply wp_mset; [done|lia|lia|].
    intros l' Hl'. eapply mat_ext; [done|]. intros r c Hr Hc. cbn beta.
    zcases; simpl; try done; try lia; subst; f_equal; lia.
  - intros s Hs. apply HQ. eapply mat_ext; [done|]. intros r c Hr Hc. cbn beta.
    zcases; simpl; try done; lia.
Qed.

Lemma wp_shift_waiting inW inp fiw fi (Q : list Z * list Z -> Prop) :
  mat inW K K fiw -> mat inp K K fi ->
  (forall inW' inp',
     mat inW' K K (fun r c => if 1 <=? c then fiw r (c - 1) else fiw r c) ->
     mat inp' K K (fun r c => if c =? 0 then fiw r (K - 1) else fi r c) -> Q (inW', inp')) ->
  wp (shift_waiting (inW, inp)) Q.
Proof.
  intros Hw Hp HQ. geometry. unfold shift_waiting, mem2d.
  apply (wp_for_up (fun i '(inW, inp) =>
    mat inW K K (fun r c => if (r <? i) && (1 <=? c) then fiw r (c - 1) else fiw r c) /\
    mat inp K K (fun r c => if (r <? i) && (c =? 0) then fiw r (K - 1) else fi r c))).
  - lia.
  - split; (eapply mat_ext; [done|]; intros; zcases; simpl; try done; lia).
  - intros i [w p] Hi [H1 H2]. apply wp_bind. eapply wp_mget; [done|lia|lia|].
    cbn beta. replace ((i <? i) && (1 <=? K - 1)) with false by (zcases; try lia; done).
    apply wp_bind. replace (i * K + 0) with (i * K + 0) by lia.
    eapply wp_mset; [done|lia|lia|]. intros p' Hp'.
    apply wp_bind. eapply wp_shift_row; [done|exact H1| |].
    + intros. lia.
    + intros w' Hw'. split; (eapply mat_ext; [done|]; intros r c Hr Hc; cbn beta;
        zcases; simpl; try done; try lia; subst; done).
  - intros [w p] [H1 H2]. apply HQ; (eapply mat_ext; [done|]; intros; cbn beta;
      zcases; simpl; try done; lia).
Qed.

(** The sweep over the cells runs downwards, so every cell reads the
    accumulator its neighbour above held before the sweep. *)
Lemma wp_mac_stage w inp out fw fi fo (Q : list Z -> Prop) :
  mat w K K fw -> mat inp K K fi -> mat out K (K + 1) fo ->
  (forall out', mat out' K (K + 1)
     (fun r c => if r =? 0 then fo 0 c else mac (fi (r - 1) c) (fw (r - 1) c) (fo (r - 1) c)) ->
     Q out') ->
  wp (mac_stage w inp out) Q.
Proof.
  intros Hw Hi Ho HQ. geometry. unfold mac_stage.
  apply (wp_for_down (fun i out => mat out K (K + 1)
    (fun r c => if (i <? (r - 1) * K + c) && (1 <=? r)
                then mac (fi (r - 1) c) (fw (r - 1) c) (fo (r - 1) c) else fo r c))).
  - nia.
  - eapply mat_ext; [done|]. intros r c Hr Hc. cbn beta.
    destruct (Z.ltb_spec (K * K - 1) ((r - 1) * K + c)); [|done]. simpl. exfalso. nia.
  - intros i s Hi' Hs.
    assert (0 < K) as HK by lia. assert (K <> 0) as HK0 by lia.
    pose proof (Z.div_mod i K HK0) as Hdm. pose proof (Z.mod_pos_bound i K HK) as Hmb.
    assert (0 <= i / K < K).
    { split; [apply Z.div_pos; lia|apply Z.div_lt_upper_bound; nia]. }
    set (r := i / K) in *. set (c := i mod K) in *.
    assert (i = r * K + c) as Hirc by lia.
    rewrite Hirc.
    apply wp_bind. eapply wp_mget; [exact Hi|lia|lia|].
    apply wp_bind. eapply wp_mget; [exact Hw|lia|lia|].
    apply wp_bind. eapply wp_mget; [exact Hs|lia|lia|]. cbn beta.
    replace ((i <? (r - 1) * K + c) && (1 <=? r)) with false
      by (destruct (Z.ltb_spec i ((r - 1) * K + c)); [nia|done]).
    replace (r * K + c + K) with ((r + 1) * K + c) by lia.
    eapply wp_mset; [exact Hs|lia|lia|]. intros l' Hl'.
    eapply mat_ext; [done|]. intros r' c' Hr' Hc'. cbn beta.
    destruct (Z.eqb_spec r' (r + 1)) as [->|Hne]; simpl.
    + replace (r + 1 - 1) with r by lia.
      destruct (Z.eqb_spec c' c) as [->|Hc2].
      * zcases; try lia; simpl; done.
      * zcases; try lia; simpl; done.
    + assert (r' - 1 < r \/ r < r' - 1) as [|] by lia.
      * zcases; simpl; try done; exfalso; nia.
      * zcases; simpl; try done; exfalso; nia.
  - intros s Hs. apply HQ. eapply mat_ext; [done|]. intros r c Hr Hc. cbn beta.
    destruct (Z.eqb_spec r 0) as [->|].
    + zcases; simpl; try done; lia.
    + zcases; simpl; try done; nia.
Qed.

Lemma wp_shift_input inp fi (Q : list Z -> Prop) :
  mat inp K K fi ->
  (forall inp', mat inp' K K (fun r c => if 1 <=? c then fi r (c - 1) else fi r c) -> Q inp') ->
  wp (shift_input inp) Q.
Proof.
  intros Hp HQ. geometry. unfold shift_input.
  apply (wp_for_up (fun i inp =>
    mat inp K K (fun r c => if (r <? i) && (1 <=? c) then fi r (c - 1) else fi r c))).
  - lia.
  - eapply mat_ext; [done|]; intros; zcases; simpl; try done; lia.
  - intros i p Hi H1. eapply wp_shift_row; [done|exact H1| |].
    + intros. lia.
    + intros p' Hp'. eapply mat_ext; [done|]; intros r c Hr Hc; cbn beta.
      zcases; simpl; try done; try lia; subst; done.
  - intros p H1. apply HQ. eapply mat_ext; [done|]; intros; cbn beta.
    zcases; simpl; try done; lia.
Qed.

(** One column of the output waiting memory shifted down. *)
Lemma wp_shift_col (l : list Z) f j (Q : list Z -> Prop) :
  0 <= j < K -> mat l K K f ->
  (forall l', mat l' K K (fun r c => if (c =? j) && (1 <=? r) then f (r - 1) c else f r c) -> Q l') ->
  wp (for_down (K - 1) 1 (fun i l => v ← aget l ((i - 1) * K + j); aset l (i * K + j) v) l) Q.
Proof.
  intros Hj Hm HQ. geometry.
  apply (wp_for_down (fun i l => mat l K K
    (fun r c => if (c =? j) && (i <? r) then f (r - 1) c else f r c))); [lia| | |].
  - eapply mat_ext; [done|]. intros. zcases; simpl; try done; lia.
  - intros i s Hi Hs. apply wp_bind.
    eapply wp_mget; [done|lia|lia|]. eapply wp_mset; [done|lia|lia|].
    intros l' Hl'. eapply mat_ext; [done|]. intros r c Hr Hc. cbn beta.
    zcases; simpl; try done; try lia; subst; f_equal; lia.
  - intros s Hs. apply HQ. eapply mat_ext; [done|]. intros r c Hr Hc. cbn beta.
    zcases; simpl; try done; lia.
Qed.

Lemma u_act_mask v : u_activation_t (Z.land v ACTIVATION_MASK) = u_activation_t v.
Proof.
  geometry. unfold u_activation_t, ACTIVATION_MASK, wrapU.
  rewrite mask_ones, Z.land_ones by lia. apply Zmod_mod.
Qed.

Lemma wp_shift_output out outW fo fow (Q : list Z -> Prop) :
  mat out K (K + 1) fo -> mat outW K K fow ->
  (forall outW', mat outW' K K
     (fun r c => if r =? 0 then u_activation_t (fo K c) else fow (r - 1) c) -> Q outW') ->
  wp (shift_output out outW) Q.
Proof.
  intros Ho Hw HQ. geometry. unfold shift_output, mem2d.
  apply (wp_for_up (fun j outW => mat outW K K
    (fun r c => if c <? j then (if r =? 0 then u_activation_t (fo K c) else fow (r - 1) c)
                else fow r c))).
  - lia.
  - eapply mat_ext; [done|]; intros; zcases; simpl; try done; lia.
  - intros j w Hj H1. apply wp_bind. eapply wp_shift_col; [done|exact H1|]. intros w' Hw'.
    apply wp_bind. eapply wp_mget; [exact Ho|lia|lia|]. rewrite u_act_mask.
    eapply wp_mset; [exact Hw'|lia|lia|]. intros w2 Hw2.
    eapply mat_ext; [done|]. intros r c Hr Hc. cbn beta.
    zcases; simpl; try done; try lia; subst; done.
  - intros w H1. apply HQ. eapply mat_ext; [done|]; intros; cbn beta.
    zcases; simpl; try done; lia.
Qed.
End Stages.
