(* ===== verification/SystolicCorrect.v ===== *)
(** * SystolicCorrect: what the systolic array computes

    The reference semantics of one column of cells is the fold [dot] of
    [mac] down the column.  The invariant [Phase w x T q] describes the
    arrays after [T] complete [streamInOut] steps and [q] further queued bus
    words, when the [t]-th input vector was [x t]; it says nothing about the
    part of the pipeline still filled from before, so it holds of any array
    state right after a weight load.  [Phase_stream] is its step lemma: the
    diagonal wavefront argument for a weight-stationary array. *)

From stdpp Require Import prelude.
From Stdlib Require Import ZArith Lia.
From S2P Require Import Prelude Machine Float32 Systolic.

Section Reference.
Context {cfg : Config}.

(** The accumulator leaving row [n] of column [c] for the input vector [x]. *)
Fixpoint partial (w : Z -> Z -> Z) (x : Z -> Z) (c : Z) (n : nat) : Z :=
  match n with
  | O => 0
  | S n' => mac (x (Z.of_nat n')) (w (Z.of_nat n') c) (partial w x c n')
  end.

(** Output [c] of the array for the input vector [x]. *)
Definition dot (w : Z -> Z -> Z) (x : Z -> Z) (c : Z) : Z :=
  u_activation_t (partial w x c (Z.to_nat KERNEL_DIM)).

(** The [q]-th bus word of the output vector. *)
Definition out_word (w : Z -> Z -> Z) (x : Z -> Z) (q : Z) : Z :=
  pack ACTIVATION_BITS ACT_PER_BUS (fun i => dot w x (q * ACT_PER_BUS + i)).

(** The activation in lane [i] of a bus word. *)
Definition act_lane (v i : Z) : Z := activation_t (lane_be ACTIVATION_BITS ACT_PER_BUS v i).

(** The weight in lane [i] of a bus word. *)
Definition weight_lane (v i : Z) : Z := weight_t (lane_be WEIGHT_BITS W_PER_BUS v i).

(** The five arrays both implementations of the accelerator keep. *)
Record SA := {
  sa_w : list Z;
  sa_inp : list Z;
  sa_out : list Z;
  sa_inW : list Z;
  sa_outW : list Z
}.

(** ** The pipeline invariant, on matrices *)
Record PhaseF (w : Z -> Z -> Z) (x : Z -> Z -> Z) (T q : Z)
    (fi fo fiw fow : Z -> Z -> Z) : Prop := {
  pf_skew : forall r d, 0 <= r < KERNEL_DIM -> 1 <= d <= r -> d <= T ->
    fiw r (KERNEL_DIM - 1 - r + d) = x (T - d) r;
  pf_queued : forall r, 0 <= r < KERNEL_DIM -> r < q * ACT_PER_BUS ->
    fiw r (KERNEL_DIM - 1 - r) = x T r;
  pf_in : forall r c, 0 <= r < KERNEL_DIM -> 1 <= c < KERNEL_DIM -> r + c <= T ->
    fi r c = x (T - r - c) r;
  pf_top : forall c, 0 <= c < KERNEL_DIM -> fo 0 c = 0;
  pf_out : forall r c, 1 <= r <= KERNEL_DIM -> 0 <= c < KERNEL_DIM -> r + c <= T ->
    fo r c = partial w (x (T - r - c)) c (Z.to_nat r);
  pf_outW : forall i c, 0 <= i < KERNEL_DIM -> 0 <= c < KERNEL_DIM -> KERNEL_DIM + c + i <= T ->
    fow i c = dot w (x (T - KERNEL_DIM - c - i)) c;
  pf_range : forall i c, 0 <= i < KERNEL_DIM -> 0 <= c < KERNEL_DIM ->
    0 <= fow i c < 2 ^ ACTIVATION_BITS
}.

Definition Phase (w : Z -> Z -> Z) (x : Z -> Z -> Z) (T q : Z) (a : SA) : Prop :=
  exists fi fo fiw fow,
    mat (sa_w a) KERNEL_DIM KERNEL_DIM w /\
    mat (sa_inp a) KERNEL_DIM KERNEL_DIM fi /\
    mat (sa_out a) KERNEL_DIM (KERNEL_DIM + 1) fo /\
    mat (sa_inW a) KERNEL_DIM KERNEL_DIM fiw /\
    mat (sa_outW a) KERNEL_DIM KERNEL_DIM fow /\
    PhaseF w x T q fi fo fiw fow.

(** The invariant of the arrays between calls: shapes, the zero row at the top
    of the accumulators, and the range of the output lanes. *)
Definition Shape (a : SA) : Prop :=
  zlen (sa_w a) = KERNEL_DIM * KERNEL_DIM /\
  zlen (sa_inp a) = KERNEL_DIM * KERNEL_DIM /\
  zlen (sa_out a) = (KERNEL_DIM + 1) * KERNEL_DIM /\
  zlen (sa_inW a) = KERNEL_DIM * KERNEL_DIM /\
  zlen (sa_outW a) = KERNEL_DIM * KERNEL_DIM /\
  (forall c, 0 <= c < KERNEL_DIM -> (sa_out a).[c] = 0) /\
  (forall i, 0 <= i < KERNEL_DIM * KERNEL_DIM -> 0 <= (sa_outW a).[i] < 2 ^ ACTIVATION_BITS).
End Reference.

Section Pipeline.
Context {cfg : Config} {wf : WfConfig cfg}.
Abbreviation K := KERNEL_DIM.
Implicit Types (w : Z -> Z -> Z) (x : Z -> Z -> Z).

Lemma partial_S w (u : Z -> Z) c r :
  0 <= r -> partial w u c (Z.to_nat (r + 1)) = mac (u r) (w r c) (partial w u c (Z.to_nat r)).
Proof.
  intros. replace (Z.to_nat (r + 1)) with (S (Z.to_nat r)) by lia. simpl.
  by rewrite Z2Nat.id.
Qed.

(** Skewing delays row [r] by [r] steps: the input of cell [(r, c)] in step
    [T] is element [r] of the vector that entered [r + c] steps earlier. *)
Lemma PhaseF_entering w x T fi fo fiw fow r c :
  PhaseF w x T MAX_ACT_COL fi fo fiw fow ->
  0 <= r < K -> 0 <= c < K -> r + c <= T ->
  (if c =? 0 then fiw r (K - 1) else fi r c) = x (T - r - c) r.
Proof.
  intros H Hr Hc HT. destruct (Z.eqb_spec c 0) as [->|].
  - destruct (Z.eq_dec r 0) as [->|].
    + replace (K - 1) with (K - 1 - 0) by lia. rewrite (pf_queued _ _ _ _ _ _ _ _ H).
      * f_equal. lia.
      * lia.
      * rewrite <- max_act_col_spec. lia.
    + replace (K - 1) with (K - 1 - r + r) by lia.
      rewrite (pf_skew _ _ _ _ _ _ _ _ H) by lia. f_equal. lia.
  - apply (pf_in _ _ _ _ _ _ _ _ H); lia.
Qed.

(** The wavefront step. *)
Lemma PhaseF_step w x T fi fo fiw fow :
  0 <= T ->
  PhaseF w x T MAX_ACT_COL fi fo fiw fow ->
  let fim r c := if c =? 0 then fiw r (K - 1) else fi r c in
  let fo' r c := if r =? 0 then fo 0 c else mac (fim (r - 1) c) (w (r - 1) c) (fo (r - 1) c) in
  PhaseF w x (T + 1) 0
    (fun r c => if 1 <=? c then fim r (c - 1) else fim r c)
    fo'
    (fun r c => if 1 <=? c then fiw r (c - 1) else fiw r c)
    (fun r c => if r =? 0 then u_activation_t (fo' K c) else fow (r - 1) c).
Proof.
  intros HT H fim fo'. pose proof max_act_col_spec as HM. geometry.
  assert (forall r c, 1 <= r <= K -> 0 <= c < K -> r + c <= T + 1 ->
    fo' r c = partial w (x (T + 1 - r - c)) c (Z.to_nat r)) as Hfo.
  { intros r c Hr Hc Hrc. unfold fo', fim. destruct (Z.eqb_spec r 0); [lia|].
    rewrite (PhaseF_entering _ _ _ _ _ _ _ _ _ H) by lia.
    replace (partial w (x (T + 1 - r - c)) c (Z.to_nat r))
      with (partial w (x (T + 1 - r - c)) c (Z.to_nat (r - 1 + 1))) by (do 2 f_equal; lia).
    rewrite partial_S by lia. replace (T - (r - 1) - c) with (T + 1 - r - c) by lia.
    f_equal. destruct (Z.eq_dec r 1) as [->|].
    - apply (pf_top _ _ _ _ _ _ _ _ H). lia.
    - rewrite (pf_out _ _ _ _ _ _ _ _ H) by lia. do 2 f_equal; lia. }
  split.
  - intros r d Hr Hd HdT. destruct (Z.leb_spec 1 (K - 1 - r + d)); [|lia].
    destruct (Z.eq_dec d 1) as [->|].
    + replace (K - 1 - r + 1 - 1) with (K - 1 - r) by lia.
      rewrite (pf_queued _ _ _ _ _ _ _ _ H) by lia. f_equal. lia.
    + replace (K - 1 - r + d - 1) with (K - 1 - r + (d - 1)) by lia.
      rewrite (pf_skew _ _ _ _ _ _ _ _ H) by lia. f_equal. lia.
  - intros. lia.
  - intros r c Hr Hc Hrc. destruct (Z.leb_spec 1 c); [|lia]. unfold fim.
    rewrite (PhaseF_entering _ _ _ _ _ _ _ _ _ H) by lia. f_equal. lia.
  - intros c Hc. unfold fo'. simpl. by apply (pf_top _ _ _ _ _ _ _ _ H).
  - exact Hfo.
  - intros i c Hi Hc Hic. destruct (Z.eqb_spec i 0) as [->|].
    + unfold dot. rewrite Hfo by lia. do 3 f_equal. lia.
    + rewrite (pf_outW _ _ _ _ _ _ _ _ H) by lia. f_equal. f_equal. lia.
  - intros i c Hi Hc. destruct (Z.eqb_spec i 0).
    + apply wrapU_range. lia.
    + apply (pf_range _ _ _ _ _ _ _ _ H); lia.
Qed.

(** Queueing one more bus word. *)
Lemma PhaseF_queue w x T q v fi fo fiw fow :
  0 <= q < MAX_ACT_COL ->
  (forall i, 0 <= i < ACT_PER_BUS -> act_lane v i = x T (q * ACT_PER_BUS + i)) ->
  PhaseF w x T q fi fo fiw fow ->
  PhaseF w x T (q + 1) fi fo
    (fun r c => if (q * ACT_PER_BUS <=? r) && (r <? q * ACT_PER_BUS + ACT_PER_BUS) && (c =? K - 1 - r)
                then act_lane v (r - q * ACT_PER_BUS) else fiw r c) fow.
Proof.
  intros Hq Hv H. geometry. split; try apply H.
  - intros r d Hr Hd HT. destruct (Z.eqb_spec (K - 1 - r + d) (K - 1 - r)); [lia|].
    rewrite andb_false_r. by apply (pf_skew _ _ _ _ _ _ _ _ H).
  - intros r Hr Hrq. rewrite Z.eqb_refl, andb_true_r.
    destruct (Z.leb_spec (q * ACT_PER_BUS) r); simpl.
    + destruct (Z.ltb_spec r (q * ACT_PER_BUS + ACT_PER_BUS)); [|lia].
      rewrite Hv by lia. f_equal. lia.
    + apply (pf_queued _ _ _ _ _ _ _ _ H); lia.
Qed.

(** ** Array-level operations *)

Definition stored (idx v : Z) (fiw : Z -> Z -> Z) (r c : Z) : Z :=
  if (idx <=? r) && (r <? idx + ACT_PER_BUS) && (c =? K - 1 - r)
  then act_lane v (r - idx) else fiw r c.

(** The loop that distributes the lanes of a bus word over the anti-diagonal,
    whatever way the two implementations compute its indices. *)
Lemma wp_store_loop (body : Z -> list Z -> option (list Z)) idx v inW fiw (Q : list Z -> Prop) :
  0 <= idx -> idx + ACT_PER_BUS <= K ->
  mat inW K K fiw ->
  (forall i l, 0 <= i < ACT_PER_BUS -> zlen l = K * K ->
     body i l = aset l ((idx + i) * K + (K - 1 - (idx + i))) (act_lane v i)) ->
  (forall inW', mat inW' K K (stored idx v fiw) -> Q inW') ->
  wp (for_up 0 ACT_PER_BUS body inW) Q.
Proof.
  intros Hidx Hend Hm Hb HQ. geometry.
  apply (wp_for_up (fun i l => mat l K K (fun r c =>
    if (idx <=? r) && (r <? idx + i) && (c =? K - 1 - r) then act_lane v (r - idx) else fiw r c))).
  - lia.
  - eapply mat_ext; [done|]. intros. zcases; simpl; try done; lia.
  - intros i l Hi Hl. rewrite Hb by (lia || apply Hl).
    eapply wp_mset; [done|lia|lia|]. intros l' Hl'. eapply mat_ext; [done|].
    intros r c Hr Hc. cbn beta.
    destruct (Z.eqb_spec r (idx + i)) as [->|Hne]; simpl.
    + destruct (Z.eqb_spec c (K - 1 - (idx + i))); zcases; simpl; try done; try lia.
      f_equal; lia.
    + zcases; simpl; try done; lia.
  - intros l Hl. by apply HQ.
Qed.

Lemma shift_word_small f i :
  0 <= i < ACT_PER_BUS -> 0 <= f < 2 ^ ACTIVATION_BITS ->
  uint32 (Z.shiftl f (ACTIVATION_BITS * (ACT_PER_BUS - i - 1)))
  = Z.shiftl f (ACTIVATION_BITS * (ACT_PER_BUS - i - 1)).
Proof.
  intros Hi Hf. geometry. pose proof act_bits_bus.
  set (s := ACTIVATION_BITS * (ACT_PER_BUS - i - 1)).
  assert (0 <= s) by nia. assert (s + ACTIVATION_BITS <= 32) by nia.
  apply wrapU_small. rewrite Z.shiftl_mul_pow2 by done. split; [nia|].
  apply Z.lt_le_trans with (2 ^ ACTIVATION_BITS * 2 ^ s); [nia|].
  rewrite <- Z.pow_add_r by lia. apply Z.pow_le_mono_r; lia.
Qed.

(** The loop that assembles a bus word from its lanes. *)
Lemma wp_pack_loop (body : Z -> Z -> option Z) (f : Z -> Z) (Q : Z -> Prop) :
  (forall i r, 0 <= i < ACT_PER_BUS ->
     wp (body i r) (fun r' => r' = Z.lor r (Z.shiftl (f i) (ACTIVATION_BITS * (ACT_PER_BUS - i - 1))))) ->
  Q (pack ACTIVATION_BITS ACT_PER_BUS f) ->
  wp (for_up 0 ACT_PER_BUS body 0) Q.
Proof.
  intros Hb HQ. geometry.
  apply (wp_for_up (fun i r => r = pack_n ACTIVATION_BITS ACT_PER_BUS f (Z.to_nat i))).
  - lia.
  - done.
  - intros i r Hi ->. eapply wp_mono; [by apply Hb|]. intros r' ->.
    replace (Z.to_nat (i + 1)) with (S (Z.to_nat i)) by lia. simpl.
    by rewrite Z2Nat.id by lia.
  - by intros s ->.
Qed.

(** ** The invariant along a run *)

(** A stream step on the arrays, after the last bus word has been stored. *)
Lemma Phase_stream w x T a (Q : SA -> Prop) :
  0 <= T -> Phase w x T MAX_ACT_COL a ->
  (forall a', Phase w x (T + 1) 0 a' -> Q a') ->
  wp ('(inW, inp) ← shift_waiting (sa_inW a, sa_inp a);
      out ← mac_stage (sa_w a) inp (sa_out a);
      inp ← shift_input inp;
      outW ← shift_output out (sa_outW a);
      Some {| sa_w := sa_w a; sa_inp := inp; sa_out := out; sa_inW := inW; sa_outW := outW |}) Q.
Proof.
  intros HT (fi & fo & fiw & fow & Hw & Hi & Ho & Hiw & How & H) HQ.
  apply wp_bind. eapply wp_shift_waiting; [done|done|]. intros inW' inp' HiW' Hinp'. cbn beta iota.
  apply wp_bind. eapply wp_mac_stage; [done|done|done|]. intros out' Hout'.
  apply wp_bind. eapply wp_shift_input; [done|]. intros inp2 Hinp2.
  apply wp_bind. eapply wp_shift_output; [done|done|]. intros outW' HoutW'.
  apply wp_ret. apply HQ. do 4 eexists. do 5 (split; [done|]).
  exact (PhaseF_step w x T fi fo fiw fow HT H).
Qed.

(** Any state of the right shape starts a run for any input sequence. *)
Lemma Phase_start w x a :
  Shape a -> mat (sa_w a) K K w -> Phase w x 0 0 a.
Proof.
  intros (H1 & H2 & H3 & H4 & H5 & H6 & H7) Hw. geometry.
  exists (fun r c => (sa_inp a).[r * K + c]), (fun r c => (sa_out a).[r * K + c]),
    (fun r c => (sa_inW a).[r * K + c]), (fun r c => (sa_outW a).[r * K + c]).
  split; [done|]. do 4 (split; [by apply mat_self; lia|]).
  split; try (intros; lia).
  - intros. simpl. by apply H6.
  - intros. apply H7. by apply idx2_bounds.
Qed.

Lemma Phase_Shape w x T q a : Phase w x T q a -> Shape a.
Proof.
  intros (fi & fo & fiw & fow & Hw & Hi & Ho & Hiw & How & H). geometry.
  split; [apply Hw|]. split; [apply Hi|]. split; [apply Ho|]. split; [apply Hiw|].
  split; [apply How|]. split.
  - intros c Hc. destruct Ho as [_ Ho]. specialize (Ho 0 c ltac:(lia) Hc).
    rewrite Z.mul_0_l, Z.add_0_l in Ho.
    rewrite Ho. by apply (pf_top _ _ _ _ _ _ _ _ H).
  - intros i Hi'. assert (K <> 0) as HK0 by lia. assert (0 < K) as HK by lia.
    pose proof (Z.div_mod i K HK0) as Hd. pose proof (Z.mod_pos_bound i K HK).
    assert (0 <= i / K < K).
    { split; [apply Z.div_pos; lia|apply Z.div_lt_upper_bound; lia]. }
    destruct How as [_ How]. rewrite Hd, (Z.mul_comm K), How by lia.
    by apply (pf_range _ _ _ _ _ _ _ _ H).
Qed.

(** The output vector due after [T] steps sits on the anti-diagonal of the
    output waiting memory. *)
Lemma Phase_output w x T q fi fo fiw fow c :
  PhaseF w x T q fi fo fiw fow -> 2 * K - 1 <= T -> 0 <= c < K ->
  fow (K - 1 - c) c = dot w (x (T - (2 * K - 1))) c.
Proof.
  intros H HT Hc. rewrite (pf_outW _ _ _ _ _ _ _ _ H) by lia. do 2 f_equal. lia.
Qed.

(** What a read-out loop assembles from the anti-diagonal: the bus word [q'] of
    the output vector that is due, whatever way the indices are computed. *)
Lemma wp_read_phase w x T q a q' (Q : Z -> Prop) (rowi coli : Z -> Z) :
  Phase w x T q a ->
  0 <= q' < MAX_ACT_COL ->
  (forall i, 0 <= i < ACT_PER_BUS -> rowi i = K - 1 - (q' * ACT_PER_BUS + i)) ->
  (forall i, 0 <= i < ACT_PER_BUS -> coli i = q' * ACT_PER_BUS + i) ->
  (forall r, (2 * K - 1 <= T -> r = out_word w (x (T - (2 * K - 1))) q') -> Q r) ->
  wp (for_up 0 ACT_PER_BUS (fun i result =>
        v ← aget (sa_outW a) (rowi i * K + coli i);
        Some (Z.lor result (uint32 (Z.shiftl v (ACTIVATION_BITS * (ACT_PER_BUS - i - 1)))))) 0) Q.
Proof.
  intros (fi & fo & fiw & fow & Hw & Hi & Ho & Hiw & How & H) Hq' Hrow Hcol HQ.
  pose proof max_act_col_spec as HM. geometry.
  apply (wp_pack_loop _ (fun i => fow (K - 1 - (q' * ACT_PER_BUS + i)) (q' * ACT_PER_BUS + i))).
  - intros i r Hi'. rewrite Hrow, Hcol by done. apply wp_bind. eapply wp_mget; [done|nia|nia|].
    apply wp_ret. f_equal. apply shift_word_small; [done|]. apply (pf_range _ _ _ _ _ _ _ _ H); nia.
  - apply HQ. intros HT. apply pack_ext. intros i Hi'. eapply Phase_output; [done|done|nia].
Qed.
End Pipeline.
