(* ===== verification/Gem5Device.v ===== *)
(** * Gem5Device: the accelerator as a gem5 device

    Translates [src/gem5-X-TiC-SAT/src/dev/arm/systolic_m2m.cc] and [.hh]: one
    [SATile] per CPU, selected by the thread index of the instruction, and
    the operations the custom instructions call.  The geometry macros of that
    header are the same configuration as the software's ([Config]).  A tile
    is a heap object; [None] in the vector of tiles is a tile that has been
    deleted, any use of which is undefined. *)

From stdpp Require Import prelude.
From Stdlib Require Import ZArith Lia.
From S2P Require Import Prelude Machine AddrRange Float32 Systolic SystolicCorrect.

Module Gem5.
Section Device.
Context {cfg : Config}.

Record SATile := mkSATile {
  weights : list Z;
  inputMemory : list Z;
  outputMemory : list Z;
  inWaitingMemory : list Z;
  outWaitingMemory : list Z;
  non_zero_tile : bool
}.

(** The constructor of [SATile] clears every array. *)
Definition SATile_new : SATile := {|
  weights := zeros (KERNEL_DIM * KERNEL_DIM);
  inputMemory := zeros (KERNEL_DIM * KERNEL_DIM);
  outputMemory := zeros (KERNEL_DIM * (KERNEL_DIM + 1));
  inWaitingMemory := zeros (KERNEL_DIM * KERNEL_DIM);
  outWaitingMemory := zeros (KERNEL_DIM * KERNEL_DIM);
  non_zero_tile := false
|}.

Record SystolicMatrixMultiplication := mkDevice {
  cpus : list Z;
  tiles : list (option SATile);
  pioAddr : Z;
  pioSize : Z;
  (** whether [init] has registered the device with the [ArmSystem] *)
  registered : bool
}.

(** The parameters the device is built from. *)
Record Params := {
  p_pio_addr : Z;
  p_pio_size : Z;
  p_cpus : list Z
}.

Definition SystolicMatrixMultiplication_new (p : Params) : SystolicMatrixMultiplication := {|
  cpus := p_cpus p;
  tiles := (fun _ => Some SATile_new) <$> p_cpus p;
  pioAddr := p_pio_addr p;
  pioSize := p_pio_size p;
  registered := false
|}.

Definition init (d : SystolicMatrixMultiplication) : SystolicMatrixMultiplication :=
  {| cpus := cpus d; tiles := tiles d; pioAddr := pioAddr d; pioSize := pioSize d;
     registered := true |}.

(** [tiles[tid]], which must be a live tile. *)
Definition get_tile (d : SystolicMatrixMultiplication) (tid : Z) : option SATile :=
  t ← aget (tiles d) tid; t.

Definition set_tile (d : SystolicMatrixMultiplication) (tid : Z) (t : SATile)
  : option SystolicMatrixMultiplication :=
  ts ← aset (tiles d) tid (Some t);
  Some {| cpus := cpus d; tiles := ts; pioAddr := pioAddr d; pioSize := pioSize d;
          registered := registered d |}.

(** ** Operations on one tile *)

Definition loadWeights_tile (idx val : Z) (t : SATile) : option (bool * SATile) :=
  w ← for_up 0 W_PER_BUS (fun i w =>
    let currVal := weight_t (Z.land (Z.shiftr val (WEIGHT_BITS * (W_PER_BUS - i - 1))) WEIGHT_MASK) in
    aset w (idx + i) currVal) (weights t);
  let nz := if negb (val =? 0) then true else non_zero_tile t in
  Some (nz, {| weights := w; inputMemory := inputMemory t; outputMemory := outputMemory t;
               inWaitingMemory := inWaitingMemory t; outWaitingMemory := outWaitingMemory t;
               non_zero_tile := nz |}).

(** The loop both [inputQueue] and [streamInOut] start with: split the input
    word and store it on the off-diagonal of the waiting memory. *)
Definition store_col (col val : Z) (inW : list Z) : option (list Z) :=
  for_up 0 ACT_PER_BUS (fun i inW =>
    let currVal := activation_t
      (Z.land (Z.shiftr val (ACTIVATION_BITS * (ACT_PER_BUS - i - 1))) ACTIVATION_MASK) in
    let row_index := col * ACT_PER_BUS + i in
    aset inW (mem2d KERNEL_DIM row_index (KERNEL_DIM - row_index - 1)) currVal) inW.

Definition inputQueue_tile (col val : Z) (t : SATile) : option (Z * SATile) :=
  inW ← store_col col val (inWaitingMemory t);
  let result_idx := Z.rem (col + 1) MAX_ACT_COL * ACT_PER_BUS in
  r ← for_up 0 ACT_PER_BUS (fun i result =>
    v ← aget (outWaitingMemory t) (mem2d KERNEL_DIM (KERNEL_DIM - result_idx - i - 1) (result_idx + i));
    Some (Z.lor result (uint32 (Z.shiftl v (ACTIVATION_BITS * (ACT_PER_BUS - i - 1)))))) 0;
  Some (r, {| weights := weights t; inputMemory := inputMemory t; outputMemory := outputMemory t;
              inWaitingMemory := inW; outWaitingMemory := outWaitingMemory t;
              non_zero_tile := non_zero_tile t |}).

Definition streamInOut_tile (val : Z) (t : SATile) : option (Z * SATile) :=
  let col := MAX_ACT_COL - 1 in
  inW ← store_col col val (inWaitingMemory t);
  '(inW, inp) ← shift_waiting (inW, inputMemory t);
  out ← mac_stage (weights t) inp (outputMemory t);
  inp ← shift_input inp;
  outW ← shift_output out (outWaitingMemory t);
  r ← for_up 0 ACT_PER_BUS (fun i result =>
    v ← aget outW (mem2d KERNEL_DIM (KERNEL_DIM - i - 1) i);
    Some (Z.lor result (uint32 (Z.shiftl v (ACTIVATION_BITS * (ACT_PER_BUS - i - 1)))))) 0;
  Some (r, {| weights := weights t; inputMemory := inp; outputMemory := out;
              inWaitingMemory := inW; outWaitingMemory := outW; non_zero_tile := false |}).

(** ** Operations of the device *)

Definition on_tile {A} (f : SATile -> option (A * SATile)) (tid : Z) (d : SystolicMatrixMultiplication)
  : option (A * SystolicMatrixMultiplication) :=
  t ← get_tile d tid;
  '(a, t') ← f t;
  d' ← set_tile d tid t';
  Some (a, d').

Definition loadWeights (tid idx val : Z) := on_tile (loadWeights_tile idx val) tid.
Definition inputQueue (tid col val : Z) := on_tile (inputQueue_tile col val) tid.
Definition streamInOut (tid val : Z) := on_tile (streamInOut_tile val) tid.

Definition readFlag (tid val : Z) (d : SystolicMatrixMultiplication) : Z := uint32 KERNEL_DIM.

(** Packet accesses are not implemented by the device: they only warn, leave it
    unchanged and take no time. *)
Definition read (pkt : Z) (d : SystolicMatrixMultiplication) : Z * SystolicMatrixMultiplication := (0, d).
Definition write (pkt : Z) (d : SystolicMatrixMultiplication) : Z * SystolicMatrixMultiplication := (0, d).

(** [serialize] deletes every tile; deleting one twice is undefined.  The source says
    [delete[]] of an object made by [new], which the C++ standard already leaves
    undefined; it is taken as a deletion here. *)
Definition serialize (d : SystolicMatrixMultiplication) : option SystolicMatrixMultiplication :=
  _ ← assert_ (forallb (fun t => match t with Some _ => true | None => false end) (tiles d));
  Some {| cpus := cpus d; tiles := (fun _ => None) <$> tiles d; pioAddr := pioAddr d;
          pioSize := pioSize d; registered := registered d |}.

(** [unserialize] registers the device again and appends one fresh tile per CPU. *)
Definition unserialize (p : Params) (d : SystolicMatrixMultiplication) : SystolicMatrixMultiplication :=
  let d := init d in
  {| cpus := cpus d ++ p_cpus p;
     tiles := tiles d ++ ((fun _ => Some SATile_new) <$> p_cpus p);
     pioAddr := pioAddr d; pioSize := pioSize d; registered := registered d |}.

Definition getAddrRanges (d : SystolicMatrixMultiplication) : list AddrRange :=
  [RangeSize (pioAddr d) (pioSize d)].

End Device.

(** ** Correctness of the tile operations *)

Section TileProofs.
Context {cfg : Config} {wf : WfConfig cfg}.
Abbreviation K := KERNEL_DIM.

Definition tile_arrays (t : SATile) : SA := {|
  sa_w := weights t; sa_inp := inputMemory t; sa_out := outputMemory t;
  sa_inW := inWaitingMemory t; sa_outW := outWaitingMemory t |}.

Lemma tile_new_shape : Shape (tile_arrays SATile_new).
Proof.
  geometry. unfold Shape, tile_arrays; simpl. rewrite !zlen_zeros by nia.
  repeat split; try lia; intros; rewrite !nthZ_zeros; lia.
Qed.

Lemma wp_loadWeights_tile k v t (Q : bool * SATile -> Prop) :
  zlen (weights t) = K * K -> 0 <= k -> k + W_PER_BUS <= K * K ->
  (forall b t', zlen (weights t') = K * K ->
     (forall j, (weights t').[j] =
        if (k <=? j) && (j <? k + W_PER_BUS) then weight_lane v (j - k) else (weights t).[j]) ->
     inputMemory t' = inputMemory t -> outputMemory t' = outputMemory t ->
     inWaitingMemory t' = inWaitingMemory t -> outWaitingMemory t' = outWaitingMemory t ->
     b = non_zero_tile t' -> non_zero_tile t' = negb (v =? 0) || non_zero_tile t ->
     Q (b, t')) ->
  wp (loadWeights_tile k v t) Q.
Proof.
  intros Hl Hk Hend HQ. geometry. unfold loadWeights_tile. apply wp_bind.
  apply (wp_for_up (fun i w => zlen w = K * K /\ forall j, w.[j] =
    if (k <=? j) && (j <? k + i) then weight_lane v (j - k) else (weights t).[j])).
  - lia.
  - split; [done|]. intros. zcases; simpl; try done; lia.
  - intros i w Hi [Hw Hn]. apply wp_aset; [lia|]. intros w' Hw' Hn'. split; [lia|].
    intros j. rewrite Hn', Hn. zcases; simpl; try done; try lia.
    subst j. unfold weight_lane, lane_be, WEIGHT_MASK. do 3 f_equal. lia.
  - intros w [Hw Hn]. apply wp_ret. by apply HQ.
Qed.

Lemma wp_store_col q v inW fiw (Q : list Z -> Prop) :
  0 <= q < MAX_ACT_COL -> mat inW K K fiw ->
  (forall inW', mat inW' K K (stored (q * ACT_PER_BUS) v fiw) -> Q inW') ->
  wp (store_col q v inW) Q.
Proof.
  intros Hq Hm HQ. geometry. pose proof max_act_col_spec.
  unfold store_col, mem2d. eapply (wp_store_loop _ (q * ACT_PER_BUS) v); [nia|nia|done| |done].
  intros i l Hi Hl. unfold act_lane, lane_be, ACTIVATION_MASK. f_equal. lia.
Qed.

(** Queueing the bus word [q] of the current input vector. *)
Lemma wp_inputQueue_tile w x T q v t (Q : Z * SATile -> Prop) :
  0 <= q -> q + 1 < MAX_ACT_COL ->
  Phase w x T q (tile_arrays t) ->
  (forall i, 0 <= i < ACT_PER_BUS -> act_lane v i = x T (q * ACT_PER_BUS + i)) ->
  (forall r t', Phase w x T (q + 1) (tile_arrays t') ->
     (2 * K - 1 <= T -> r = out_word w (x (T - (2 * K - 1))) (q + 1)) -> Q (r, t')) ->
  wp (inputQueue_tile q v t) Q.
Proof.
  intros Hq Hq1 (fi & fo & fiw & fow & Hw & Hi & Ho & Hiw & How & H) Hv HQ.
  geometry. pose proof max_act_col_spec. unfold inputQueue_tile, mem2d.
  apply wp_bind. eapply wp_store_col; [lia|exact Hiw|]. intros inW' HinW'.
  rewrite Z.rem_small by lia. apply wp_bind.
  assert (Phase w x T q (tile_arrays t)) as HP by (do 4 eexists; eauto 8).
  eapply (wp_read_phase _ _ _ _ (tile_arrays t) (q + 1)
    _ (fun i => K - (q + 1) * ACT_PER_BUS - i - 1) (fun i => (q + 1) * ACT_PER_BUS + i));
    [exact HP|lia|intros; lia|intros; lia|]. intros r Hr.
  apply wp_ret. apply HQ; [|exact Hr].
  exists fi, fo, (stored (q * ACT_PER_BUS) v fiw), fow. do 5 (split; [done|]).
  apply PhaseF_queue; [lia|done|done].
Qed.

(** Streaming the last bus word of the current input vector. *)
Lemma wp_streamInOut_tile w x T v t (Q : Z * SATile -> Prop) :
  0 <= T ->
  Phase w x T (MAX_ACT_COL - 1) (tile_arrays t) ->
  (forall i, 0 <= i < ACT_PER_BUS -> act_lane v i = x T ((MAX_ACT_COL - 1) * ACT_PER_BUS + i)) ->
  (forall r t', Phase w x (T + 1) 0 (tile_arrays t') ->
     (2 * K - 1 <= T + 1 -> r = out_word w (x (T + 1 - (2 * K - 1))) 0) -> Q (r, t')) ->
  wp (streamInOut_tile v t) Q.
Proof.
  intros HT (fi & fo & fiw & fow & Hw & Hi & Ho & Hiw & How & H) Hv HQ.
  geometry. pose proof max_act_col_spec. unfold streamInOut_tile, mem2d.
  apply wp_bind. eapply wp_store_col; [lia|exact Hiw|]. intros inW1 HinW1.
  apply wp_bind. eapply wp_shift_waiting; [done|exact Hi|]. intros inW' inp' HiW' Hinp'. cbn beta iota.
  apply wp_bind. eapply wp_mac_stage; [exact Hw|done|exact Ho|]. intros out' Hout'.
  apply wp_bind. eapply wp_shift_input; [done|]. intros inp2 Hinp2.
  apply wp_bind. eapply wp_shift_output; [done|exact How|]. intros outW' HoutW'.
  assert (0 <= MAX_ACT_COL - 1 < MAX_ACT_COL) as Hm by lia.
  pose proof (PhaseF_queue w x T (MAX_ACT_COL - 1) v fi fo fiw fow Hm Hv H) as Hq.
  replace (MAX_ACT_COL - 1 + 1) with MAX_ACT_COL in Hq by lia.
  assert (Phase w x (T + 1) 0 {| sa_w := weights t; sa_inp := inp2; sa_out := out';
    sa_inW := inW'; sa_outW := outW' |}) as HP.
  { do 4 eexists. do 5 (split; [done|]). exact (PhaseF_step _ _ _ _ _ _ _ HT Hq). }
  apply wp_bind. eapply (wp_read_phase _ _ _ _ {| sa_w := weights t; sa_inp := inp2; sa_out := out';
    sa_inW := inW'; sa_outW := outW' |} 0 _ (fun i => K - i - 1) (fun i => i));
    [exact HP|lia|intros; lia|intros; lia|]. intros r Hr.
  apply wp_ret. by apply HQ.
Qed.
End TileProofs.
End Gem5.

(** ** The flag memory
    Translates [dev/arm/flag_sparse_memory.cc]: a device in front of a constant
    table of 1000 zero words; everything else it does is to register itself. *)

Module FlagMemory.

Definition flags : list Z := zeros 1000.

Record FlagSparseMemory := mkFlagMemory {
  fm_pioAddr : Z;
  fm_pioSize : Z;
  fm_registered : bool
}.

Definition FlagSparseMemory_new (pio_addr pio_size : Z) : FlagSparseMemory := mkFlagMemory pio_addr pio_size false.

Definition init (d : FlagSparseMemory) : FlagSparseMemory := mkFlagMemory (fm_pioAddr d) (fm_pioSize d) true.

Definition readFlag (idx : Z) (d : FlagSparseMemory) : option Z := aget flags idx.

Definition read (pkt : Z) (d : FlagSparseMemory) : Z * FlagSparseMemory := (0, d).
Definition write (pkt : Z) (d : FlagSparseMemory) : Z * FlagSparseMemory := (0, d).
Definition serialize (d : FlagSparseMemory) : FlagSparseMemory := d.
Definition unserialize (d : FlagSparseMemory) : FlagSparseMemory := init d.

End FlagMemory.
