(* ===== verification/TypedArrays.v ===== *)
(** * TypedArrays: the arrays hold values of their declared types

    The C++ arrays of the systolic array are typed: [weight_t] weights,
    [activation_t] inputs, [int32_t] accumulators, [u_activation_t] outputs.  The
    model keeps integers; here every operation of the device, on any argument, is
    shown to keep the arrays within their types and lengths, so that the
    conversions the model does not write (reading an element back) are the
    identity.  [wlp] is the partial-correctness triple: what holds of a
    computation that returns.  The file has the steps of the device ([device_step])
    and shows too that a deleted tile stays deleted along them. *)

From stdpp Require Import prelude.
From Stdlib Require Import ZArith Lia.
From S2P Require Import Prelude Machine Float32 Systolic SystolicCorrect Gem5Device.

Definition wlp {A} (m : option A) (Q : A -> Prop) : Prop := match m with Some a => Q a | None => True end.

Section Wlp.
Context {A B : Type}.

Lemma wlp_bind (m : option A) (f : A -> option B) (Q : B -> Prop) : wlp m (fun a => wlp (f a) Q) -> wlp (m ≫= f) Q.
Proof. by destruct m. Qed.

Lemma wlp_mono (m : option A) (Q Q' : A -> Prop) : wlp m Q -> (forall a, Q a -> Q' a) -> wlp m Q'.
Proof. destruct m; simpl; auto. Qed.

Lemma wlp_assert b (Q : unit -> Prop) : Q tt -> wlp (assert_ b) Q.
Proof. by destruct b. Qed.

Lemma wlp_some (m : option A) a (Q : A -> Prop) : wlp m Q -> m = Some a -> Q a.
Proof. intros H ->. exact H. Qed.

End Wlp.

Section WlpLoop.
Context {A : Type}.

Lemma wlp_for_up (P : A -> Prop) lo hi (body : Z -> A -> option A) s :
  P s -> (forall i s, P s -> wlp (body i s) P) -> wlp (for_up lo hi body s) P.
Proof.
  intros Hs Hb. unfold for_up. generalize (Z.to_nat (hi - lo)) as n. intros n. revert lo s Hs. induction n as [|n IH]; intros i s Hs; simpl; [done|].
  apply wlp_bind. eapply wlp_mono; [by apply Hb|]. intros s' Hs'. by apply IH.
Qed.

Lemma wlp_for_down (P : A -> Prop) hi lo (body : Z -> A -> option A) s :
  P s -> (forall i s, P s -> wlp (body i s) P) -> wlp (for_down hi lo body s) P.
Proof.
  intros Hs Hb. unfold for_down. generalize (Z.to_nat (hi - lo + 1)) as n. intros n. revert hi s Hs. induction n as [|n IH]; intros i s Hs; simpl; [done|].
  apply wlp_bind. eapply wlp_mono; [by apply Hb|]. intros s' Hs'. by apply IH.
Qed.
End WlpLoop.

(** An array of [n] values that satisfy [P]. *)
Definition array (P : Z -> Prop) (n : Z) (l : list Z) : Prop := zlen l = n /\ Forall P l.

Section Arrays.
Context (P : Z -> Prop) (n : Z).

Lemma wlp_array_get l i (Q : Z -> Prop) : array P n l -> (forall v, P v -> Q v) -> wlp (aget l i) Q.
Proof.
  intros [_ Hl] HQ. destruct (aget l i) as [v|] eqn:E; simpl; [|done]. apply HQ. unfold aget in E. destruct (i <? 0); [done|].
  by eapply Forall_lookup_1.
Qed.

Lemma wlp_array_set l i v : array P n l -> P v -> wlp (aset l i v) (array P n).
Proof.
  intros [Hn Hl] Hv. unfold aset. case_match; simpl; [|done]. split; [by rewrite zlen_insert|]. by apply Forall_insert.
Qed.

Lemma array_zeros : 0 <= n -> P 0 -> array P n (zeros n).
Proof. intros Hn H0. split; [by apply zlen_zeros|]. by apply Forall_replicate. Qed.
End Arrays.

Section Typed.
Context {cfg : Config} {wf : WfConfig cfg}.
Abbreviation K := KERNEL_DIM.

Definition is_weight (v : Z) : Prop := - 2 ^ (WEIGHT_BITS - 1) <= v < 2 ^ (WEIGHT_BITS - 1).
Definition is_act (v : Z) : Prop := - 2 ^ (ACTIVATION_BITS - 1) <= v < 2 ^ (ACTIVATION_BITS - 1).
Definition is_int32 (v : Z) : Prop := - 2 ^ 31 <= v < 2 ^ 31.
Definition is_uact (v : Z) : Prop := 0 <= v < 2 ^ ACTIVATION_BITS.

Lemma is_weight_cast v : is_weight (weight_t v).
Proof. geometry. by apply wrapS_range. Qed.
Lemma is_act_cast v : is_act (activation_t v).
Proof. geometry. by apply wrapS_range. Qed.
Lemma is_int32_cast v : is_int32 (int32 v).
Proof. by apply (wrapS_range 32). Qed.
Lemma is_uact_cast v : is_uact (u_activation_t v).
Proof. geometry. apply wrapU_range. lia. Qed.
Lemma is_int32_mac x w a : is_int32 (mac x w a).
Proof. unfold mac. destruct ACTIVATION_FP; apply is_int32_cast. Qed.

(** The five arrays of a tile. *)
Record typed (a : SA) : Prop := {
  ty_w : array is_weight (K * K) (sa_w a);
  ty_inp : array is_act (K * K) (sa_inp a);
  ty_out : array is_int32 (K * (K + 1)) (sa_out a);
  ty_inW : array is_act (K * K) (sa_inW a);
  ty_outW : array is_uact (K * K) (sa_outW a)
}.

(** ** The stages *)

Lemma wlp_shift_waiting inW inp :
  array is_act (K * K) inW -> array is_act (K * K) inp ->
  wlp (shift_waiting (inW, inp)) (fun '(inW, inp) => array is_act (K * K) inW /\ array is_act (K * K) inp).
Proof.
  intros H1 H2. apply (wlp_for_up (fun '(inW, inp) => array is_act (K * K) inW /\ array is_act (K * K) inp)); [done|].
  intros i [l1 l2] [L1 L2]. apply wlp_bind. eapply wlp_array_get; [exact L1|]. intros v Hv.
  apply wlp_bind. eapply wlp_mono; [by apply wlp_array_set|]. intros l2' L2'.
  apply wlp_bind. eapply wlp_mono; [apply (wlp_for_down (array is_act (K * K))); [exact L1|]|by intros l1' L1'].
  intros j l L. apply wlp_bind. eapply wlp_array_get; [exact L|]. intros u Hu. by apply wlp_array_set.
Qed.

Lemma wlp_mac_stage w inp out :
  array is_int32 (K * (K + 1)) out -> wlp (mac_stage w inp out) (array is_int32 (K * (K + 1))).
Proof.
  intros H. apply wlp_for_down; [done|]. intros i o Ho. apply wlp_bind. destruct (aget inp i); simpl; [|done].
  apply wlp_bind. destruct (aget w i); simpl; [|done]. apply wlp_bind. destruct (aget o i); simpl; [|done].
  apply wlp_array_set; [done|]. apply is_int32_mac.
Qed.

Lemma wlp_shift_input inp : array is_act (K * K) inp -> wlp (shift_input inp) (array is_act (K * K)).
Proof.
  intros H. apply wlp_for_up; [done|]. intros i l L. apply wlp_for_down; [done|]. intros j l' L'.
  apply wlp_bind. eapply wlp_array_get; [exact L'|]. intros u Hu. by apply wlp_array_set.
Qed.

Lemma wlp_shift_output out outW : array is_uact (K * K) outW -> wlp (shift_output out outW) (array is_uact (K * K)).
Proof.
  intros H. apply wlp_for_up; [done|]. intros j l L. apply wlp_bind. eapply wlp_mono.
  - apply (wlp_for_down (array is_uact (K * K))); [exact L|]. intros i l' L'.
    apply wlp_bind. eapply wlp_array_get; [exact L'|]. intros u Hu. by apply wlp_array_set.
  - intros l' L'. apply wlp_bind. destruct (aget out _); simpl; [|done]. apply wlp_array_set; [done|]. apply is_uact_cast.
Qed.

(** Reading out assembles a 32-bit word. *)
Lemma wlp_read_word (outW : list Z) (at_ : Z -> Z) :
  wlp (for_up 0 ACT_PER_BUS (fun i result =>
    v ← aget outW (at_ i); Some (Z.lor result (uint32 (Z.shiftl v (ACTIVATION_BITS * (ACT_PER_BUS - i - 1)))))) 0)
    (fun r => 0 <= r < 2 ^ 32).
Proof.
  apply (wlp_for_up (fun r => 0 <= r < 2 ^ 32)); [done|]. intros i r Hr. apply wlp_bind. destruct (aget outW (at_ i)) as [v|]; simpl; [|done].
  assert (0 <= uint32 (Z.shiftl v (ACTIVATION_BITS * (ACT_PER_BUS - i - 1))) < 2 ^ 32) as Hu by (apply wrapU_range; lia).
  set (u := uint32 _) in *. clearbody u. assert (0 <= Z.lor r u) by (apply Z.lor_nonneg; lia). split; [done|].
  apply lt_pow2_of_bits; [done|lia|]. intros k Hk. rewrite Z.lor_spec, (testbit_high r 32), (testbit_high u 32) by lia. done.
Qed.

(** ** The operations of a tile *)

Lemma wlp_loadWeights_types idx val t :
  typed (Gem5.tile_arrays t) -> wlp (Gem5.loadWeights_tile idx val t) (fun '(_, t') => typed (Gem5.tile_arrays t')).
Proof.
  intros [T1 T2 T3 T4 T5]. apply wlp_bind. eapply wlp_mono.
  - apply (wlp_for_up (array is_weight (K * K))); [exact T1|]. intros i w Hw. apply wlp_array_set; [done|]. apply is_weight_cast.
  - intros w Hw. by split.
Qed.

Lemma wlp_store_col_types col val inW :
  array is_act (K * K) inW -> wlp (Gem5.store_col col val inW) (array is_act (K * K)).
Proof. intros H. apply wlp_for_up; [done|]. intros i l L. apply wlp_array_set; [done|]. apply is_act_cast. Qed.

Lemma wlp_inputQueue_types col val t :
  typed (Gem5.tile_arrays t) ->
  wlp (Gem5.inputQueue_tile col val t) (fun '(r, t') => 0 <= r < 2 ^ 32 /\ typed (Gem5.tile_arrays t')).
Proof.
  intros [T1 T2 T3 T4 T5]. apply wlp_bind. eapply wlp_mono; [by apply wlp_store_col_types|]. intros inW HinW. cbv zeta.
  apply wlp_bind. eapply wlp_mono; [apply wlp_read_word|]. intros r Hr. split; [done|]. by split.
Qed.

Lemma wlp_streamInOut_types val t :
  typed (Gem5.tile_arrays t) ->
  wlp (Gem5.streamInOut_tile val t) (fun '(r, t') => 0 <= r < 2 ^ 32 /\ typed (Gem5.tile_arrays t')).
Proof.
  intros [T1 T2 T3 T4 T5]. apply wlp_bind. eapply wlp_mono; [by apply wlp_store_col_types|]. intros inW HinW.
  apply wlp_bind. eapply wlp_mono; [by apply wlp_shift_waiting|]. intros [inW' inp] [HinW' Hinp].
  apply wlp_bind. eapply wlp_mono; [by apply wlp_mac_stage|]. intros out Hout.
  apply wlp_bind. eapply wlp_mono; [by apply wlp_shift_input|]. intros inp' Hinp'.
  apply wlp_bind. eapply wlp_mono; [by apply wlp_shift_output|]. intros outW HoutW.
  apply wlp_bind. eapply wlp_mono; [apply wlp_read_word|]. intros r Hr. split; [done|]. by split.
Qed.

(** ** Runs of the device *)

(** One call on the device, with the value it returns. *)
Inductive device_step : Gem5.SystolicMatrixMultiplication -> option Z -> Gem5.SystolicMatrixMultiplication -> Prop :=
| step_load tid idx val d b d' : Gem5.loadWeights tid idx val d = Some (b, d') -> device_step d (Some (if (b : bool) then 1 else 0)) d'
| step_queue tid col val d r d' : Gem5.inputQueue tid col val d = Some (r, d') -> device_step d (Some r) d'
| step_stream tid val d r d' : Gem5.streamInOut tid val d = Some (r, d') -> device_step d (Some r) d'
| step_init d : device_step d None (Gem5.init d)
| step_read pkt d : device_step d (Some (Gem5.read pkt d).1) (Gem5.read pkt d).2
| step_write pkt d : device_step d (Some (Gem5.write pkt d).1) (Gem5.write pkt d).2
| step_readFlag tid val d : device_step d (Some (Gem5.readFlag tid val d)) d
| step_serialize d d' : Gem5.serialize d = Some d' -> device_step d None d'
| step_unserialize p d : device_step d None (Gem5.unserialize p d).

(** States that some sequence of calls on a new device reaches. *)
Inductive device_reaches (p : Gem5.Params) : Gem5.SystolicMatrixMultiplication -> Prop :=
| reaches_new : device_reaches p (Gem5.SystolicMatrixMultiplication_new p)
| reaches_step d r d' : device_reaches p d -> device_step d r d' -> device_reaches p d'.

Definition device_typed (d : Gem5.SystolicMatrixMultiplication) : Prop :=
  forall tid t, Gem5.get_tile d tid = Some t -> typed (Gem5.tile_arrays t).

Lemma get_tile_spec d tid t : Gem5.get_tile d tid = Some t <-> aget (Gem5.tiles d) tid = Some (Some t).
Proof. unfold Gem5.get_tile. destruct (aget (Gem5.tiles d) tid) as [[|]|]; naive_solver. Qed.

Lemma on_tile_typed {X} (f : Gem5.SATile -> option (X * Gem5.SATile)) (Q : X -> Prop) tid d x d' :
  (forall t, typed (Gem5.tile_arrays t) -> wlp (f t) (fun '(x, t') => Q x /\ typed (Gem5.tile_arrays t'))) ->
  Gem5.on_tile f tid d = Some (x, d') -> device_typed d -> Q x /\ device_typed d'.
Proof.
  intros Hf H Hd. unfold Gem5.on_tile in H. destruct (Gem5.get_tile d tid) as [t|] eqn:Ht; [|done]. simpl in H.
  specialize (Hf t (Hd _ _ Ht)). destruct (f t) as [[a t']|]; [|done]. simpl in H, Hf. destruct Hf as [Ha Ht'].
  unfold Gem5.set_tile in H. destruct (aset (Gem5.tiles d) tid (Some t')) as [ts|] eqn:Hs; [|done]. injection H as <- <-.
  split; [done|]. intros tid2 t2. rewrite get_tile_spec. simpl.
  assert (0 <= tid < zlen (Gem5.tiles d)) as Hb by (apply get_tile_spec in Ht; by eapply aget_Some_bounds).
  rewrite aset_spec in Hs by done. injection Hs as <-. rewrite aget_insert by done.
  destruct (Z.eqb_spec tid2 tid); [by intros [= <-]|]. rewrite <- get_tile_spec. apply Hd.
Qed.

Lemma typed_new : typed (Gem5.tile_arrays Gem5.SATile_new).
Proof.
  geometry. assert (0 < 2 ^ (WEIGHT_BITS - 1)) by (apply Z.pow_pos_nonneg; lia).
  assert (0 < 2 ^ (ACTIVATION_BITS - 1)) by (apply Z.pow_pos_nonneg; lia). assert (0 < 2 ^ ACTIVATION_BITS) by (apply Z.pow_pos_nonneg; lia).
  split; simpl; (apply array_zeros; [nia|]); unfold is_weight, is_act, is_int32, is_uact; lia.
Qed.

Lemma device_step_typed d r d' :
  device_step d r d' -> device_typed d -> device_typed d' /\ forall v, r = Some v -> 0 <= v < 2 ^ 32.
Proof.
  intros Hs Hd. destruct Hs as [tid idx val d b d' H|tid col val d v d' H|tid val d v d' H|d|pkt d|pkt d|tid val d|d d' H|p d].
  - destruct (on_tile_typed (Gem5.loadWeights_tile idx val) (fun _ => True) tid d b d') as [_ Hd']; [|done|done|split; [done|]; by intros ? [= <-]; destruct b].
    intros t Ht. eapply wlp_mono; [by apply wlp_loadWeights_types|]. by intros [? ?].
  - destruct (on_tile_typed (Gem5.inputQueue_tile col val) (fun r => 0 <= r < 2 ^ 32) tid d v d') as [Hv Hd']; [|done|done|].
    { intros t Ht. by apply wlp_inputQueue_types. }
    split; [done|]. by intros ? [= <-].
  - destruct (on_tile_typed (Gem5.streamInOut_tile val) (fun r => 0 <= r < 2 ^ 32) tid d v d') as [Hv Hd']; [|done|done|].
    { intros t Ht. by apply wlp_streamInOut_types. }
    split; [done|]. by intros ? [= <-].
  - by split.
  - split; [done|]. by intros ? [= <-].
  - split; [done|]. by intros ? [= <-].
  - split; [done|]. intros ? [= <-]. apply wrapU_range. lia.
  - split; [|done]. unfold Gem5.serialize in H. destruct (assert_ _); [|done]. injection H as <-. intros tid t.
    rewrite get_tile_spec. simpl. unfold aget. destruct (tid <? 0); [done|]. rewrite list_lookup_fmap.
    destruct (Gem5.tiles d !! Z.to_nat tid); simpl; congruence.
  - split; [|done]. intros tid t. rewrite get_tile_spec. simpl. destruct (Z.ltb_spec tid (zlen (Gem5.tiles d))).
    + rewrite aget_app_l by done. rewrite <- get_tile_spec. apply Hd.
    + rewrite aget_app_r by done. unfold aget. destruct (_ <? 0); [done|]. rewrite list_lookup_fmap.
      destruct (_ !! _); simpl; [|done]. intros [= <-]. apply typed_new.
Qed.

(** ** Deleted tiles *)

(** The first [n] tiles of the device are deleted. *)
Definition deleted (n : Z) (d : Gem5.SystolicMatrixMultiplication) : Prop :=
  n <= zlen (Gem5.tiles d) /\ forall tid, tid < n -> Gem5.get_tile d tid = None.

Lemma on_tile_deleted {X} (f : Gem5.SATile -> option (X * Gem5.SATile)) n tid d x d' :
  Gem5.on_tile f tid d = Some (x, d') -> deleted n d -> deleted n d'.
Proof.
  intros H [Hn Hd]. unfold Gem5.on_tile in H. destruct (Gem5.get_tile d tid) as [t|] eqn:Ht; [|done]. simpl in H.
  destruct (f t) as [[a t']|]; [|done]. simpl in H. unfold Gem5.set_tile in H.
  assert (0 <= tid < zlen (Gem5.tiles d)) as Hb by (apply get_tile_spec in Ht; by eapply aget_Some_bounds).
  rewrite aset_spec in H by done. injection H as <- <-. split; simpl; [by rewrite zlen_insert|].
  intros tid2 Hlt. unfold Gem5.get_tile. simpl. rewrite aget_insert by done.
  destruct (Z.eqb_spec tid2 tid) as [->|]; [|by apply Hd]. rewrite Hd in Ht by done. done.
Qed.

Lemma deleted_serialize n d : 0 < n -> deleted n d -> Gem5.serialize d = None.
Proof.
  intros Hn [Hl Hd]. unfold Gem5.serialize. destruct (Gem5.tiles d) as [|t ts] eqn:E; [unfold zlen in Hl; simpl in Hl; lia|].
  specialize (Hd 0 Hn). unfold Gem5.get_tile in Hd. rewrite E in Hd. simpl in *. by subst t.
Qed.

Lemma device_step_deleted n d r d' : device_step d r d' -> deleted n d -> deleted n d'.
Proof.
  intros Hs Hd. destruct Hs as [tid idx val d b d' H|tid col val d v d' H|tid val d v d' H|d|pkt d|pkt d|tid val d|d d' H|p d];
    try done; try (by eapply on_tile_deleted).
  - destruct (Z.ltb_spec 0 n) as [Hn|Hn]; [by rewrite (deleted_serialize n d) in H|]. destruct Hd as [_ Hd]. split; [pose proof (zlen_nonneg (Gem5.tiles d')); lia|].
    intros tid Hlt. unfold Gem5.get_tile, aget. by rewrite (proj2 (Z.ltb_lt tid 0)) by lia.
  - destruct Hd as [Hn Hd]. split; simpl; [rewrite zlen_app; pose proof (zlen_nonneg ((fun _ : Z => Some Gem5.SATile_new) <$> Gem5.p_cpus p)); lia|].
    intros tid Hlt. specialize (Hd tid Hlt). unfold Gem5.get_tile in *. simpl. by rewrite aget_app_l by lia.
Qed.

Lemma serialize_deletes d d' : Gem5.serialize d = Some d' -> deleted (zlen (Gem5.tiles d)) d'.
Proof.
  unfold Gem5.serialize, assert_. destruct (forallb _ _); [|done]. simpl. intros [= <-]. split; simpl.
  - unfold zlen. by rewrite length_fmap.
  - intros tid _. unfold Gem5.get_tile. simpl. unfold aget. rewrite list_lookup_fmap. destruct (tid <? 0); [done|]. by destruct (_ !! _).
Qed.

Lemma device_reaches_typed p d : device_reaches p d -> device_typed d.
Proof.
  induction 1 as [|d r d' _ IH Hs]; [|by destruct (device_step_typed _ _ _ Hs IH)]. intros tid t. rewrite get_tile_spec. simpl.
  unfold aget. destruct (tid <? 0); [done|]. rewrite list_lookup_fmap. destruct (Gem5.p_cpus p !! Z.to_nat tid); simpl; [|done].
  intros [= <-]. apply typed_new.
Qed.
End Typed.
