(* ===== verification/IODevice.v ===== *)
(** * IODevice: ports of programmed I/O devices

    Translates [gem5-X-TiC-SAT/src/mem/tport.cc], the port classes of [mem/qport.hh]
    and [dev/io_device.cc]: a timing port that answers requests through the packet
    queue of [PacketQueue], and the programmed I/O port that hands packets to
    [read] and [write] of its device.  These two are parameters here, which act
    on the device and on the packet.  Below are the port of the systolic array
    and what comes of an access to it. *)

From stdpp Require Import prelude gmap.
From Stdlib Require Import ZArith Lia.
From S2P Require Import Prelude Machine AddrRange EventQueue EventQueueCorrect EventService SimLoop EventOwner Drain DrainCorrect Packet.
From S2P Require Import PacketTheorems PacketQueue PacketQueueCorrect PacketQueueTheorems Gem5Device.

Open Scope Z_scope.

Module Pio.
Import PQ.

Section Port.
Context {D : Type}.

(** A port: the packet that is to be deleted, and the device behind it. *)
Record PioPort := mkPort { pendingDelete : option positive; device : D }.

Abbreviation PW := (World PioPort).

Definition set_port (x : PioPort) (w : PW) : PW := mkWorld (queue w) (packets w) (bufs w) (drains w) x.
Definition set_packets (m : gmap positive Pkt.Packet) (w : PW) : PW := mkWorld (queue w) m (bufs w) (drains w) (rest w).

Definition schedTimingResp (pkt : positive) (when : Z) (force_order : bool) (ws : PW * EventQ.State) : option (PW * EventQ.State) :=
  schedSendTiming pkt when force_order ws.

Definition recvRespRetry (sendTiming : positive -> PW * EventQ.State -> option (bool * (PW * EventQ.State)))
    (ws : PW * EventQ.State) : option (PW * EventQ.State) := retry sendTiming ws.

Variable read write : positive -> PW -> option (Z * PW).

(** The sum of the two delays is computed with 32 bits. *)
Definition recvAtomic (pkt : positive) (w : PW) : option (Z * PW) :=
  p ← packets w !! pkt;
  let receive_delay := uint32 (Pkt.headerDelay p + Pkt.payloadDelay p) in
  let w := set_packets (<[pkt := Pkt.set_delays 0 0 p]> (packets w)) w in
  '(delay, w) ← (if Pkt.isRead p then read pkt w else write pkt w);
  p ← packets w !! pkt;
  _ ← assert_ (Pkt.isResponse p || Pkt.isError p);
  Some (uint64 (delay + receive_delay), w).

Definition recvFunctional (pkt : positive) (w : PW) : option PW :=
  '(found, w) ← trySatisfyFunctional pkt w;
  if (found : bool) then Some w else '(_, w) ← recvAtomic pkt w; Some w.

(** [pendingDelete.reset(pkt)]: the packet kept before is deleted. *)
Definition reset_pending (pkt : positive) (w : PW) : PW :=
  let m := match pendingDelete (rest w) with Some q => delete q (packets w) | None => packets w end in
  set_port (mkPort (Some pkt) (device (rest w))) (set_packets m w).

Definition recvTimingReq (pkt : positive) (ws : PW * EventQ.State) : option (bool * (PW * EventQ.State)) :=
  let '(w, st) := ws in
  p ← packets w !! pkt;
  _ ← assert_ (negb (Pkt.cacheResponding p));
  let needsResponse := Pkt.needsResponse p in
  '(latency, w) ← recvAtomic pkt w;
  if needsResponse then
    p ← packets w !! pkt;
    _ ← assert_ (Pkt.isResponse p);
    ws ← schedTimingResp pkt (uint64 (EventQ.curTick st + latency)) false (w, st);
    Some (true, ws)
  else Some (true, (reset_pending pkt w, st)).

Definition init (isConnected : bool) (w : PW) : option PW := _ ← assert_ isConnected; Some w.

Definition BasicPioDevice_getAddrRanges (pioAddr pioSize : Z) : option (list AddrRange) :=
  _ ← assert_ (negb (pioSize =? 0)); Some [RangeSize pioAddr pioSize].
End Port.
#[global] Arguments PioPort : clear implicits.

(** ** The port of the systolic array *)

Definition systolic_read (pkt : positive) (w : World (PioPort Gem5.SystolicMatrixMultiplication)) :=
  let '(t, d) := Gem5.read (Zpos pkt) (device (rest w)) in Some (t, set_port (mkPort (pendingDelete (rest w)) d) w).
Definition systolic_write (pkt : positive) (w : World (PioPort Gem5.SystolicMatrixMultiplication)) :=
  let '(t, d) := Gem5.write (Zpos pkt) (device (rest w)) in Some (t, set_port (mkPort (pendingDelete (rest w)) d) w).
End Pio.

(** * Requests to devices

    A request to a device comes back as a response, at the time the delays add up
    to; and the systolic array, whose packet accesses are stubs, stops the
    simulation. *)

Import PQ Pio.

#[local] Arguments schedSendTiming : simpl never.
#[local] Arguments schedTimingResp : simpl never.

(** What [read] and [write] of a device must do: take [delay] ticks and turn a request
    that needs a response into one, leaving the other packets, the response queue
    and the drain states alone. *)
Class Responds {D} (access : positive -> World (PioPort D) -> option (Z * World (PioPort D))) (delay : Z) : Prop := {
  responds_delay : 0 <= delay < 2 ^ 32;
  responds_ok pkt p w : packets w !! pkt = Some p -> Pkt.needsResponse p = true ->
    wp (access pkt w) (fun '(t, w') => t = delay /\ queue w' = queue w /\ drains w' = drains w /\
      exists p', packets w' = <[pkt := p']> (packets w) /\ Pkt.cmd p' = Pkt.responseCommand (Pkt.cmd p) /\
        Pkt.flags p' = Flags.clear (Pkt.flags p) Pkt.EXPRESS_SNOOP /\ Pkt.addr p' = Pkt.addr p /\
        Pkt.headerDelay p' = Pkt.headerDelay p /\ Pkt.payloadDelay p' = Pkt.payloadDelay p)
}.

Section Device.
Context {D : Type} (read write : positive -> World (PioPort D) -> option (Z * World (PioPort D))) (delay : Z).
Context {Hread : Responds read delay} {Hwrite : Responds write delay}.

(** A response made by a device. *)
Definition answer (p p' : Pkt.Packet) : Prop :=
  Pkt.cmd p' = Pkt.responseCommand (Pkt.cmd p) /\ Pkt.flags p' = Flags.clear (Pkt.flags p) Pkt.EXPRESS_SNOOP /\
  Pkt.addr p' = Pkt.addr p /\ Pkt.headerDelay p' = 0 /\ Pkt.payloadDelay p' = 0.

Lemma response_of c : Pkt.cmd_needsResponse c = true -> Pkt.cmd_isResponse (Pkt.responseCommand c) = true.
Proof. by destruct c. Qed.

Lemma recvAtomic_spec pkt p w :
  packets w !! pkt = Some p -> Pkt.needsResponse p = true ->
  0 <= Pkt.headerDelay p -> 0 <= Pkt.payloadDelay p -> Pkt.headerDelay p + Pkt.payloadDelay p < 2 ^ 32 ->
  wp (recvAtomic read write pkt w) (fun '(t, w') => t = delay + Pkt.headerDelay p + Pkt.payloadDelay p /\
    queue w' = queue w /\ drains w' = drains w /\ exists p', packets w' = <[pkt := p']> (packets w) /\ answer p p').
Proof.
  intros Hp Hn H1 H2 H3. unfold recvAtomic. rewrite Hp. simpl. set (w1 := set_packets _ w). set (p1 := Pkt.set_delays 0 0 p) in *.
  assert (packets w1 !! pkt = Some p1) as Hp1 by apply lookup_insert_eq.
  pose proof (responds_delay (access := read)) as Hd.
  assert (wp (if Pkt.isRead p then read pkt w1 else write pkt w1) (fun '(t, w') => t = delay /\ queue w' = queue w /\ drains w' = drains w /\
    exists p', packets w' = <[pkt := p']> (packets w) /\ answer p p')) as Hacc.
  { destruct (Pkt.isRead p); (eapply wp_mono; [by apply (responds_ok pkt p1 w1 Hp1)|]);
      intros [t w'] (-> & Hq & Hdr & p' & Hm & Ha); (split; [done|]); (split; [done|]); (split; [done|]); exists p';
      (split; [rewrite Hm; simpl; by rewrite insert_insert_eq|done]). }
  apply wp_bind. eapply wp_mono; [exact Hacc|]. intros [t w'] (-> & Hq & Hdr & p' & Hm & Ha). rewrite Hm, lookup_insert_eq. simpl.
  assert (Pkt.isResponse p' = true) as ->.
  { destruct Ha as (Hc & _). unfold Pkt.isResponse. rewrite Hc. by apply response_of. }
  simpl. split; [|by repeat (split; [done|]); exists p'].
  unfold uint32, uint64. rewrite (wrapU_small 32) by lia. rewrite wrapU_small by lia. lia.
Qed.

(** Requests to a device.  A request that needs a response is accepted; the
    response, made of the same packet with its delays paid, is put in the
    response queue for the tick when the delays of the crossbar and of the device
    have passed, and the queue will send it. *)
Theorem pio_request pkt p a w st :
  settled w st -> packets w !! pkt = Some p -> Pkt.getAddr p = Some a -> Pkt.cacheResponding p = false ->
  0 <= Pkt.headerDelay p -> 0 <= Pkt.payloadDelay p -> Pkt.headerDelay p + Pkt.payloadDelay p < 2 ^ 32 ->
  EventQ.curTick st + 2 ^ 33 < MaxTick -> disableSanityCheck (queue w) || (zlen (transmitList (queue w)) <=? 100) = true ->
  Pkt.needsResponse p = true ->
  wp (recvTimingReq read write pkt (w, st)) (fun '(ok, (w', st')) =>
    let t := EventQ.curTick st + delay + Pkt.headerDelay p + Pkt.payloadDelay p in
    ok = true /\ settled w' st' /\ transmitList (queue w') ≡ₚ (t, pkt) :: transmitList (queue w) /\
    exists p', packets w' = <[pkt := p']> (packets w) /\ answer p p' /\ Pkt.isResponse p' = true).
Proof.
  intros Hs Hp Ha Hc H1 H2 H3 Hmax Hroom Hn. unfold recvTimingReq. rewrite Hp. simpl. rewrite Hc. simpl. rewrite Hn.
  apply wp_bind. eapply wp_mono; [by apply (recvAtomic_spec pkt p w)|]. intros [t w1] (-> & Hq & Hd & p' & Hm & Hans).
  pose proof (responds_delay (access := read)) as Hdel. pose proof Hans as (Hcmd & Hfl & Had & _).
  assert (Pkt.isResponse p' = true) as Hr by (unfold Pkt.isResponse; rewrite Hcmd; by apply response_of).
  rewrite Hm, lookup_insert_eq. simpl. rewrite Hr. simpl. unfold schedTimingResp.
  pose proof (se_time _ _ Hs) as Htime. unfold uint64. rewrite wrapU_small by (unfold MaxTick in *; lia).
  assert (forall q, addr_of q w1 = addr_of q w) as Haddr.
  { intros q. unfold addr_of. rewrite Hm. destruct (decide (q = pkt)) as [->|]; [|by rewrite lookup_insert_ne].
    rewrite lookup_insert_eq, Hp. simpl. unfold Pkt.getAddr. rewrite Hfl, Had. rewrite isSet_clear_other by done. done. }
  assert (settled w1 st) as Hs1.
  { destruct Hs as [S1 S2 [P1 P2] S4 S5]. split; rewrite ?Hq; try done; [|by split; rewrite ?Hq, ?Hd; apply S4].
    unfold packets_ok, held. rewrite Hq. split; [|done]. eapply Forall_impl; [exact P1|]. intros d. by rewrite Haddr. }
  set (t := EventQ.curTick st + (delay + Pkt.headerDelay p + Pkt.payloadDelay p)).
  assert (sendable w1 st pkt p' a t) as Hsend.
  { split; [by rewrite Hm, lookup_insert_eq| | |by rewrite Hq|unfold t; lia].
    - unfold Pkt.getAddr in *. rewrite Hfl, isSet_clear_other by done. by rewrite Had.
    - unfold Pkt.isExpressSnoop. rewrite Hfl. apply isSet_clear. }
  apply wp_bind. eapply wp_mono; [apply (schedSendTiming_spec w1 st pkt p' a t false Hsend); by right|].
  intros [w2 st2] (_ & Hs2 & l' & Hpl & -> & _). simpl. split; [done|]. split; [auto|]. split; [|by exists p'].
  rewrite (placed_perm _ _ _ _ _ _ _ Hpl), Hq. f_equiv. f_equal. unfold t. lia.
Qed.
End Device.

(** ** The systolic array on the bus *)

Lemma request_no_response c : Pkt.cmd_isRequest c = true -> Pkt.cmd_isResponse c || Pkt.testCmdAttrib c Pkt.IsError = false.
Proof. by destruct c. Qed.

(** C39: packets for the systolic array.  Its [read] and [write] are stubs that only
    warn and return: the packet stays a request, and the port stops the program
    at its assertion, for every request that reaches the address range of the
    device, in atomic and in timing mode. *)
Theorem systolic_packet_access pkt p w st :
  packets w !! pkt = Some p -> Pkt.isRequest p = true ->
  recvAtomic systolic_read systolic_write pkt w = None /\ recvTimingReq systolic_read systolic_write pkt (w, st) = None.
Proof.
  intros Hp Hr. assert (recvAtomic systolic_read systolic_write pkt w = None) as H.
  { unfold recvAtomic, systolic_read, systolic_write. rewrite Hp. simpl. destruct (Pkt.isRead p); simpl; rewrite lookup_insert_eq; simpl;
      unfold Pkt.isResponse, Pkt.isError; simpl; by rewrite (request_no_response _ Hr). }
  split; [done|]. unfold recvTimingReq. rewrite Hp. simpl. destruct (assert_ _); [|done]. simpl. by rewrite H.
Qed.

(** ** Witnesses *)

(** A device whose accesses take ten ticks and do nothing. *)
Definition quiet_access (pkt : positive) (w : World (PioPort unit)) : option (Z * World (PioPort unit)) :=
  p ← packets w !! pkt; p ← Pkt.makeResponse p; Some (10, set_packets (<[pkt := p]> (packets w)) w).

#[export] Instance quiet_responds : Responds quiet_access 10.
Proof.
  split; [lia|]. intros pkt p w Hp Hn. unfold quiet_access, Pkt.makeResponse. rewrite Hp. simpl. rewrite Hn. simpl.
  assert (Pkt.isRequest p = true) as -> by (unfold Pkt.needsResponse, Pkt.isRequest in *; by destruct (Pkt.cmd p)).
  simpl. do 3 (split; [done|]). eexists. split; [done|]. by repeat split.
Qed.

(** Packet 1 writes to a device and has waited 7 ticks in a crossbar. *)
Definition pio_world : World (PioPort unit) :=
  mkWorld (PacketQueue_new 5 1 false) {[ 1%positive := Pkt.set_delays 5 2 (demo_write 0x100 1 1) ]} demo_bufs (drains demo_world) (mkPort None tt).

Lemma pio_settled : settled pio_world demo_state.
Proof.
  destruct demo_owned as [C O]. split; try done; [by split; constructor|apply demo_drainable|]. exists None. by split.
Qed.

Lemma pio_request_witness :
  wp (recvTimingReq quiet_access quiet_access 1 (pio_world, demo_state)) (fun '(ok, (w', st')) => ok = true /\
    transmitList (queue w') ≡ₚ [(17, 1%positive)]).
Proof.
  eapply wp_mono; [apply (pio_request quiet_access quiet_access 10 1 (Pkt.set_delays 5 2 (demo_write 0x100 1 1)) 0x100 pio_world demo_state pio_settled);
    (reflexivity || (simpl; lia) || done)|].
  intros [ok [w' st']] (-> & _ & H & _). split; [done|]. exact H.
Defined.

Lemma systolic_packet_access_witness :
  let w := mkWorld (queue pio_world) (packets pio_world) (bufs pio_world) (drains pio_world) (mkPort None (Gem5.mkDevice [] [] 0 0 false)) in
  recvAtomic systolic_read systolic_write 1 w = None.
Proof. intros w. apply (systolic_packet_access 1 (Pkt.set_delays 5 2 (demo_write 0x100 1 1)) w demo_state); reflexivity. Defined.
