(* ===== verification/Accelerator.v ===== *)
(** * Accelerator: the interface between the software and the systolic array

    The matrix-multiplication code talks to the array through three
    intrinsics.  [Accelerator] is that interface; [AcceleratorLaws] is what it
    promises: the arrays behind it follow the pipeline invariant [Phase], and
    the words the intrinsics return are the output vectors, [2 * KERNEL_DIM - 1]
    stream steps after their inputs.  The clients are verified against the laws
    only; the gem5 instructions and the software array discharge them. *)

From stdpp Require Import prelude.
From Stdlib Require Import ZArith Lia.
From S2P Require Import Prelude Machine Float32 Systolic SystolicCorrect.

Section Interface.
Context {cfg : Config}.

(** [smmStream] carries the bus-word index only in the [DEVELOP] build; the
    instruction ignores it. *)
Class Accelerator (S : Type) := {
  smmParamWrite : Z -> Z -> S -> option (Z * S);
  smmQueue : Z -> Z -> S -> option (Z * S);
  smmStream : Z -> Z -> S -> option (Z * S)
}.

(** The weight matrix a sequence of bus words describes: word [k] holds the
    weights [k * W_PER_BUS, ..., k * W_PER_BUS + W_PER_BUS - 1], row-major. *)
Definition words_weight (f : Z -> Z) (r c : Z) : Z :=
  let e := r * KERNEL_DIM + c in weight_lane (f (e / W_PER_BUS)) (e mod W_PER_BUS).

Class AcceleratorLaws (S : Type) `{Accelerator S} := {
  acc_arrays : S -> SA;
  acc_ok : S -> Prop;
  acc_ok_shape : forall s, acc_ok s -> Shape (acc_arrays s);
  (** Loading one word of weights touches exactly its lanes. *)
  law_load : forall k v s, acc_ok s -> 0 <= k < KERNEL_DIM * MAX_W_COL ->
    wp (smmParamWrite (k * W_PER_BUS) v s) (fun '(_, s') =>
      acc_ok s' /\ forall j, 0 <= j < KERNEL_DIM * KERNEL_DIM ->
        (sa_w (acc_arrays s')).[j] =
          if j / W_PER_BUS =? k then weight_lane v (j mod W_PER_BUS)
          else (sa_w (acc_arrays s)).[j]);
  (** Queueing the word [q] of the current input vector. *)
  law_queue : forall w x T q v s, acc_ok s -> 0 <= q -> q + 1 < MAX_ACT_COL -> 0 <= T ->
    Phase w x T q (acc_arrays s) ->
    (forall i, 0 <= i < ACT_PER_BUS -> act_lane v i = x T (q * ACT_PER_BUS + i)) ->
    wp (smmQueue q v s) (fun '(r, s') =>
      acc_ok s' /\ Phase w x T (q + 1) (acc_arrays s') /\
      (2 * KERNEL_DIM - 1 <= T -> r = out_word w (x (T - (2 * KERNEL_DIM - 1))) (q + 1)));
  (** Streaming the last word of the current input vector. *)
  law_stream : forall w x T v s, acc_ok s -> 0 <= T ->
    Phase w x T (MAX_ACT_COL - 1) (acc_arrays s) ->
    (forall i, 0 <= i < ACT_PER_BUS -> act_lane v i = x T ((MAX_ACT_COL - 1) * ACT_PER_BUS + i)) ->
    wp (smmStream (MAX_ACT_COL - 1) v s) (fun '(r, s') =>
      acc_ok s' /\ Phase w x (T + 1) 0 (acc_arrays s') /\
      (2 * KERNEL_DIM - 1 <= T + 1 -> r = out_word w (x (T + 1 - (2 * KERNEL_DIM - 1))) 0))
}.
End Interface.

Arguments acc_arrays {cfg S _ _} s.
Arguments acc_ok {cfg S _ _} s.

Section Client.
Context {cfg : Config} {wf : WfConfig cfg} {S : Type} {A : Accelerator S}
  {L : AcceleratorLaws (cfg := cfg) S}.
Abbreviation K := KERNEL_DIM.

(** Loading a whole tile of weights makes the array ready to run on any input
    sequence, whatever it did before. *)
Lemma wp_load_tile (rd : Z -> option Z) (f : Z -> Z) (s : S) (Q : S -> Prop) :
  acc_ok s ->
  (forall k, 0 <= k < K * MAX_W_COL -> rd k = Some (f k)) ->
  (forall s', acc_ok s' -> (forall x, Phase (words_weight f) x 0 0 (acc_arrays s')) -> Q s') ->
  wp (for_up 0 (K * MAX_W_COL) (fun k s =>
        weight ← rd k; '(_, s) ← smmParamWrite (k * W_PER_BUS) weight s; Some s) s) Q.
Proof.
  intros Hok Hrd HQ. geometry. pose proof max_w_col_spec as HM.
  apply (wp_for_up (fun k s => acc_ok s /\ forall j, 0 <= j < K * K -> j < k * W_PER_BUS ->
    (sa_w (acc_arrays s)).[j] = weight_lane (f (j / W_PER_BUS)) (j mod W_PER_BUS))).
  - nia.
  - split; [done|]. intros. lia.
  - intros k s1 Hk [Hok1 Hw]. rewrite Hrd by done. apply wp_bind, wp_ret, wp_bind.
    eapply wp_mono; [by apply law_load|]. intros [b s2] [Hok2 Hw2]. apply wp_ret.
    split; [done|]. intros j Hj Hjk. rewrite Hw2 by done.
    destruct (Z.eqb_spec (j / W_PER_BUS) k) as [->|Hne]; [done|].
    apply Hw; [done|].
    assert (j / W_PER_BUS < k).
    { assert (j / W_PER_BUS < k + 1); [|lia]. apply Z.div_lt_upper_bound; lia. }
    assert (W_PER_BUS <> 0) as HW0 by lia.
    pose proof (Z.mod_pos_bound j W_PER_BUS w_per_bus_pos).
    pose proof (Z.div_mod j W_PER_BUS HW0). nia.
  - intros s1 [Hok1 Hw]. apply HQ; [done|]. intros x. apply Phase_start; [by apply acc_ok_shape|].
    destruct (acc_ok_shape _ Hok1) as [Hl _]. split; [done|]. intros r c Hr Hc.
    pose proof (idx2_bounds K K r c Hr Hc). rewrite Hw; [done|done|nia].
Qed.
End Client.
