(* ===== verification/SmmGem.v ===== *)
(** * SmmGem: the intrinsics of the accelerator

    Translates [src/accelerator/smm_gem.cc].  In the normal build each
    intrinsic moves its operands to registers and issues one custom
    instruction word; the words are decoded by
    [decodeCusDataProcImm] in gem5's [arch/arm/isa/formats/aarch64.isa] and
    executed by the definitions in [arch/arm/isa/insts/data64.isa], which call
    the device ([Gem5Device]).  In the [DEVELOP] build the intrinsics call a
    software array ([Systolic]) from the table [smmList] directly.
    [addActIn32] accumulates a returned bus word into an output word. *)

From stdpp Require Import prelude.
From Stdlib Require Import ZArith Lia.
From S2P Require Import Prelude Machine Bitfield Float32 Systolic SystolicCorrect Gem5Device Accelerator.

(** ** Instruction words *)

(** The register operands [dest, op1, op2, op3] of a decoded instruction. *)
Inductive CmInst :=
  | Cmprocess64 (dest op1 op2 op3 : Z)
  | Cmqueue64 (dest op1 op2 op3 : Z)
  | Cmparamwrite64 (dest op1 op2 op3 : Z)
  | Cmmemread64 (dest op1 op2 op3 : Z)
  | Unknown64.

Definition decodeCusDataProcImm (machInst : Z) : CmInst :=
  let rd := bits machInst 4 0 in
  let rn := bits machInst 9 5 in
  let rm := bits machInst 20 16 in
  let ra := bits machInst 14 10 in
  let opc := bits machInst 30 29 in
  let cls := bits machInst 25 23 in
  if (cls =? 2) || (cls =? 3) then
    if opc =? 0 then Cmprocess64 rd ra rn rm
    else if opc =? 1 then Cmqueue64 rd ra rn rm
    else if opc =? 2 then Cmparamwrite64 rd ra rn rm
    else if opc =? 3 then Cmmemread64 rd ra rn rm
    else Unknown64
  else Unknown64.

(** The top-level decoder routes a word with bits 28:27 clear to the custom
    instructions; the other instruction classes are outside the model. *)
Definition Aarch64 (machInst : Z) : option CmInst :=
  if (bits machInst 27 27 =? 0) && (bits machInst 28 28 =? 0)
  then Some (decodeCusDataProcImm machInst) else None.

Section Smm.
Context {cfg : Config}.

(** ** The core: general-purpose registers and the attached device *)

Record Core := {
  xregs : list Z;
  threadId : Z;
  smm : Gem5.SystolicMatrixMultiplication
}.

Definition set_xreg (c : Core) (r v : Z) : option Core :=
  rs ← aset (xregs c) r (uint64 v);
  Some {| xregs := rs; threadId := threadId c; smm := smm c |}.

Definition finish (c : Core) (dest v : Z) (d : Gem5.SystolicMatrixMultiplication) : option Core :=
  set_xreg {| xregs := xregs c; threadId := threadId c; smm := d |} dest v.

(** One call of a method of the device. *)
Inductive DeviceCall :=
  | StreamInOut (tid val : Z)
  | InputQueue (tid idx val : Z)
  | LoadWeights (tid idx val : Z)
  | ReadFlag (tid val : Z).

(** The destination register of an instruction and the call it makes, from its
    operand registers; an unknown instruction faults. *)
Definition operands (i : CmInst) (c : Core) : option (Z * DeviceCall) :=
  match i with
  | Cmprocess64 dest op1 op2 op3 =>
      Op164 ← aget (xregs c) op1;
      Op364 ← aget (xregs c) op3;
      let val := int32 Op164 in
      let tid := int32 Op364 in
      Some (dest, StreamInOut tid (uint32 val))
  | Cmqueue64 dest op1 op2 op3 =>
      Op164 ← aget (xregs c) op1;
      Op264 ← aget (xregs c) op2;
      Op364 ← aget (xregs c) op3;
      let val := int32 Op164 in
      let idx := int32 Op264 in
      let tid := int32 Op364 in
      Some (dest, InputQueue tid idx (uint32 val))
  | Cmparamwrite64 dest op1 op2 op3 =>
      Op164 ← aget (xregs c) op1;
      Op264 ← aget (xregs c) op2;
      Op364 ← aget (xregs c) op3;
      let val := int32 Op164 in
      let idx := int32 Op264 in
      let tid := int32 Op364 in
      Some (dest, LoadWeights tid idx (uint32 val))
  | Cmmemread64 dest op1 op2 op3 =>
      Op364 ← aget (xregs c) op3;
      let val := int32 Op364 in
      let tid := threadId c in
      Some (dest, ReadFlag tid (uint32 val))
  | Unknown64 => None
  end.

Definition perform (call : DeviceCall) (d : Gem5.SystolicMatrixMultiplication)
  : option (Z * Gem5.SystolicMatrixMultiplication) :=
  match call with
  | StreamInOut tid val => Gem5.streamInOut tid val d
  | InputQueue tid idx val => Gem5.inputQueue tid idx val d
  | LoadWeights tid idx val => '(b, d) ← Gem5.loadWeights tid idx val d; Some (if (b : bool) then 1 else 0, d)
  | ReadFlag tid val => Some (Gem5.readFlag tid val d, d)
  end.

(** Execution of the custom instructions. *)
Definition execute (i : CmInst) (c : Core) : option Core :=
  '(dest, call) ← operands i c;
  '(r, d) ← perform call (smm c);
  finish c dest r d.

(** Issue one instruction word. *)
Definition issue (machInst : Z) (c : Core) : option Core :=
  i ← Aarch64 machInst; execute i c.

(** ** The intrinsics (normal build) *)

(** An assembly block: the moves to registers, and the instruction word; the
    result is then moved from X10. *)
Record Asm := mkAsm { moves : list (Z * Z); word : Z }.

Fixpoint move_all (ms : list (Z * Z)) (c : Core) : option Core :=
  match ms with
  | [] => Some c
  | (r, v) :: ms => c ← set_xreg c r v; move_all ms c
  end.

Definition run_block (b : Asm) (c : Core) : option (Z * Core) :=
  c ← move_all (moves b) c;
  c ← issue (word b) c;
  res ← aget (xregs c) 10;
  Some (res, c).

(** The device call that the instruction of a block makes. *)
Definition block_call (b : Asm) (c : Core) : option DeviceCall :=
  c ← move_all (moves b) c;
  i ← Aarch64 (word b);
  '(_, call) ← operands i c;
  Some call.

Definition smmStream_block (rn tid : Z) : Asm := mkAsm [(7, rn); (8, tid)] 0x01081D2A.
Definition smmQueue_block (rm rn tid : Z) : Asm := mkAsm [(9, rm); (7, rn); (8, tid)] 0x21089D2A.
Definition smmParamWrite_block (rm rn tid : Z) : Asm := mkAsm [(9, rm); (7, rn); (8, tid)] 0x41081D2A.
Definition smmReadFlag_block (val tid : Z) : Asm := mkAsm [(9, 0xdeadbeef); (7, val); (8, tid)] 0x61081D2A.

Definition smmStream_asm (rn tid : Z) (c : Core) : option (Z * Core) := run_block (smmStream_block rn tid) c.
Definition smmQueue_asm (rm rn tid : Z) (c : Core) : option (Z * Core) := run_block (smmQueue_block rm rn tid) c.
Definition smmParamWrite_asm (rm rn tid : Z) (c : Core) : option (Z * Core) := run_block (smmParamWrite_block rm rn tid) c.
Definition smmReadFlag_asm (val tid : Z) (c : Core) : option (Z * Core) := run_block (smmReadFlag_block val tid) c.

(** ** The intrinsics ([DEVELOP] build) *)

Definition smmList_new : list SystolicMatrixMultiplication :=
  [SystolicMatrixMultiplication_new; SystolicMatrixMultiplication_new;
   SystolicMatrixMultiplication_new; SystolicMatrixMultiplication_new].

Definition on_list {A} (f : SystolicMatrixMultiplication -> option (A * SystolicMatrixMultiplication))
    (tid : Z) (smmList : list SystolicMatrixMultiplication)
  : option (A * list SystolicMatrixMultiplication) :=
  s ← aget smmList tid;
  '(a, s') ← f s;
  smmList ← aset smmList tid s';
  Some (a, smmList).

Definition smmParamWrite_dev (rm ra tid : Z) := on_list (loadWeights rm ra) tid.
Definition smmQueue_dev (rm ra tid : Z) := on_list (inputQueue rm ra) tid.
Definition smmStream_dev (rm rn tid : Z) := on_list (streamInOut rm rn) tid.
Definition smmReadFlag_dev (val tid : Z) (smmList : list SystolicMatrixMultiplication) : option Z :=
  s ← aget smmList tid; Some (readFlag val s).

(** ** Accumulating a returned word *)

(** The sum of two activations: [float] addition of the bit patterns, or
    integer addition at the activation's width. *)
Definition add_act (m s : Z) : Z :=
  if ACTIVATION_FP then int32 (bits_of_f32 (f32_add (f32_of_bits m) (f32_of_bits s)))
  else activation_t (m + s).

Definition addActIn32 (memory systolicResult : Z) : option Z :=
  for_up 0 ACT_PER_BUS (fun i memory =>
    let mem := activation_t (lane_le ACTIVATION_BITS memory i) in
    let sys := activation_t (lane_le ACTIVATION_BITS systolicResult i) in
    Some (set_lane_le ACTIVATION_BITS memory i (add_act mem sys))) memory.
End Smm.

(** ** [addActIn32] adds lane by lane *)

Section AddAct.
Context {cfg : Config} {wf : WfConfig cfg}.

Lemma wp_addActIn32 m s (Q : Z -> Prop) :
  0 <= m < 2 ^ 32 ->
  (forall r, 0 <= r < 2 ^ 32 ->
     (forall i, 0 <= i < ACT_PER_BUS ->
        lane_le ACTIVATION_BITS r i =
        wrapU ACTIVATION_BITS (add_act (activation_t (lane_le ACTIVATION_BITS m i))
                                       (activation_t (lane_le ACTIVATION_BITS s i)))) -> Q r) ->
  wp (addActIn32 m s) Q.
Proof.
  intros Hm HQ. geometry. pose proof act_bits_bus as HB. unfold addActIn32.
  apply (wp_for_up (fun i r => 0 <= r < 2 ^ 32 /\ forall k, 0 <= k < ACT_PER_BUS ->
    lane_le ACTIVATION_BITS r k =
      if k <? i then wrapU ACTIVATION_BITS (add_act (activation_t (lane_le ACTIVATION_BITS m k))
                                       (activation_t (lane_le ACTIVATION_BITS s k)))
      else lane_le ACTIVATION_BITS m k)).
  - lia.
  - split; [done|]. intros. destruct (Z.ltb_spec k 0); [lia|done].
  - intros i r Hi [Hr Hl]. apply wp_ret. split.
    + rewrite <- HB. apply set_lane_range; [lia|lia|by rewrite HB].
    + intros k Hk. rewrite lane_set_lane by lia.
      destruct (Z.eqb_spec k i) as [->|Hne].
      * destruct (Z.ltb_spec i (i + 1)); [|lia]. rewrite Z.land_ones by lia.
        rewrite (Hl i Hi). destruct (Z.ltb_spec i i); [lia|done].
      * rewrite Hl by done. zcases; try lia; done.
  - intros r [Hr Hl]. apply HQ; [done|]. intros i Hi. rewrite Hl by done.
    destruct (Z.ltb_spec i ACT_PER_BUS); [done|lia].
Qed.
End AddAct.
