(* ===== verification/AcceleratorInstances.v ===== *)
(** * AcceleratorInstances: the two accelerators satisfy the interface

    First the intrinsics of the normal build: each issues exactly one device
    operation on its own arguments.  Then the laws of [AcceleratorLaws] for the
    gem5 device behind the instructions, for every well-formed configuration,
    and for the software array of the [DEVELOP] build when its element index
    and the bus-word index the callers pass coincide. *)

From stdpp Require Import prelude.
From Stdlib Require Import ZArith Lia.
From S2P Require Import Prelude Machine Float32 Systolic SystolicCorrect Gem5Device Accelerator SmmGem.

(** ** The instruction words *)

Lemma decode_stream : Aarch64 0x01081D2A = Some (Cmprocess64 10 7 9 8).
Proof. reflexivity. Qed.
Lemma decode_queue : Aarch64 0x21089D2A = Some (Cmqueue64 10 7 9 8).
Proof. reflexivity. Qed.
Lemma decode_param_write : Aarch64 0x41081D2A = Some (Cmparamwrite64 10 7 9 8).
Proof. reflexivity. Qed.
Lemma decode_read_flag : Aarch64 0x61081D2A = Some (Cmmemread64 10 7 9 8).
Proof. reflexivity. Qed.

Section Intrinsics.
Context {cfg : Config}.
Implicit Types c : Core.

Lemma set_xreg_spec c r v :
  zlen (xregs c) = 31 -> 0 <= r < 31 ->
  set_xreg c r v = Some {| xregs := <[Z.to_nat r := uint64 v]> (xregs c);
                           threadId := threadId c; smm := smm c |}.
Proof. intros Hl Hr. unfold set_xreg. by rewrite aset_spec by lia. Qed.

(** The registers after an intrinsic: X7, X8, X9 hold the operands it moved,
    X10 the result. *)
Definition clobber (c : Core) (moves : list (Z * Z)) : list Z :=
  foldl (fun rs '(r, v) => <[Z.to_nat r := uint64 v]> rs) (xregs c) moves.

Lemma zlen_clobber c moves : zlen (clobber c moves) = zlen (xregs c).
Proof.
  unfold clobber. generalize (xregs c). induction moves as [|[r v] ms IH]; intros rs; simpl; [done|].
  by rewrite IH, zlen_insert.
Qed.

(** Executes an intrinsic symbolically on 31 registers. *)
Local Ltac step_asm :=
  first [ rewrite set_xreg_spec by (cbn [xregs]; rewrite ?zlen_insert; lia)
        | rewrite aget_insert by (rewrite ?zlen_insert; lia) ];
  cbn [mbind option_bind xregs threadId smm Z.eqb Pos.eqb].

Local Ltac run_asm dec :=
  unfold run_block, block_call; cbn [moves word move_all mbind option_bind]; repeat step_asm;
  unfold issue; rewrite dec; unfold execute;
  cbn [mbind option_bind operands xregs threadId smm]; repeat step_asm;
  rewrite ?uint32_int32_uint64; cbn [perform mbind option_bind].

(** What each block asks of the device.  The instruction behind [smmReadFlag]
    takes the register X8, the second argument of the intrinsic, as its value, and the
    thread of the core as the tile. *)
Lemma block_calls rm rn tid c :
  zlen (xregs c) = 31 -> - 2 ^ 31 <= tid < 2 ^ 31 -> - 2 ^ 31 <= rm < 2 ^ 31 ->
  block_call (smmStream_block rn tid) c = Some (StreamInOut tid (uint32 rn)) /\
  block_call (smmQueue_block rm rn tid) c = Some (InputQueue tid rm (uint32 rn)) /\
  block_call (smmParamWrite_block rm rn tid) c = Some (LoadWeights tid rm (uint32 rn)) /\
  block_call (smmReadFlag_block rn tid) c = Some (ReadFlag (threadId c) (uint32 tid)).
Proof.
  intros Hl Ht Hr. split; [|split; [|split]].
  - unfold smmStream_block. run_asm decode_stream. by rewrite int32_uint64_small.
  - unfold smmQueue_block. run_asm decode_queue. by rewrite !int32_uint64_small.
  - unfold smmParamWrite_block. run_asm decode_param_write. by rewrite !int32_uint64_small.
  - unfold smmReadFlag_block. by run_asm decode_read_flag.
Qed.

Lemma smmStream_asm_spec rn tid c :
  zlen (xregs c) = 31 -> - 2 ^ 31 <= tid < 2 ^ 31 ->
  smmStream_asm rn tid c =
    '(r, d) ← Gem5.streamInOut tid (uint32 rn) (smm c);
    Some (uint64 r, {| xregs := clobber c [(7, rn); (8, tid); (10, r)];
                       threadId := threadId c; smm := d |}).
Proof.
  intros Hl Ht. unfold smmStream_asm, smmStream_block. run_asm decode_stream.
  rewrite int32_uint64_small by done.
  destruct (Gem5.streamInOut tid (uint32 rn) (smm c)) as [[r d]|]; [|done].
  cbn [mbind option_bind]. unfold finish. by repeat step_asm.
Qed.

Lemma smmQueue_asm_spec rm rn tid c :
  zlen (xregs c) = 31 -> - 2 ^ 31 <= tid < 2 ^ 31 -> - 2 ^ 31 <= rm < 2 ^ 31 ->
  smmQueue_asm rm rn tid c =
    '(r, d) ← Gem5.inputQueue tid rm (uint32 rn) (smm c);
    Some (uint64 r, {| xregs := clobber c [(9, rm); (7, rn); (8, tid); (10, r)];
                       threadId := threadId c; smm := d |}).
Proof.
  intros Hl Ht Hrm. unfold smmQueue_asm, smmQueue_block. run_asm decode_queue.
  rewrite !int32_uint64_small by done.
  destruct (Gem5.inputQueue tid rm (uint32 rn) (smm c)) as [[r d]|]; [|done].
  cbn [mbind option_bind]. unfold finish. by repeat step_asm.
Qed.

Lemma smmParamWrite_asm_spec rm rn tid c :
  zlen (xregs c) = 31 -> - 2 ^ 31 <= tid < 2 ^ 31 -> - 2 ^ 31 <= rm < 2 ^ 31 ->
  smmParamWrite_asm rm rn tid c =
    '(b, d) ← Gem5.loadWeights tid rm (uint32 rn) (smm c);
    Some (uint64 (if (b : bool) then 1 else 0),
          {| xregs := clobber c [(9, rm); (7, rn); (8, tid); (10, if (b : bool) then 1 else 0)];
             threadId := threadId c; smm := d |}).
Proof.
  intros Hl Ht Hrm. unfold smmParamWrite_asm, smmParamWrite_block. run_asm decode_param_write.
  rewrite !int32_uint64_small by done.
  destruct (Gem5.loadWeights tid rm (uint32 rn) (smm c)) as [[r d]|]; [|done].
  cbn [mbind option_bind]. unfold finish. by repeat step_asm.
Qed.

Lemma smmReadFlag_asm_spec val tid c :
  zlen (xregs c) = 31 ->
  smmReadFlag_asm val tid c =
    Some (uint64 (uint32 KERNEL_DIM), {| xregs := clobber c [(9, 0xdeadbeef); (7, val); (8, tid); (10, uint32 KERNEL_DIM)];
                         threadId := threadId c; smm := smm c |}).
Proof.
  intros Hl. unfold smmReadFlag_asm, smmReadFlag_block. run_asm decode_read_flag. unfold finish, Gem5.readFlag.
  by repeat step_asm.
Qed.
End Intrinsics.

(** ** The gem5 device behind the instructions *)

Section Gem5Instance.
Context {cfg : Config} {wf : WfConfig cfg}.
Abbreviation K := KERNEL_DIM.

(** An operation on one tile leaves every other tile alone. *)
Lemma wp_on_tile {A} (f : Gem5.SATile -> option (A * Gem5.SATile)) tid d t
    (Q : A * Gem5.SystolicMatrixMultiplication -> Prop) :
  Gem5.get_tile d tid = Some t ->
  wp (f t) (fun '(a, t') => forall d',
    Gem5.get_tile d' tid = Some t' ->
    (forall tid', tid' <> tid -> Gem5.get_tile d' tid' = Gem5.get_tile d tid') ->
    Gem5.cpus d' = Gem5.cpus d -> length (Gem5.tiles d') = length (Gem5.tiles d) -> Q (a, d')) ->
  wp (Gem5.on_tile f tid d) Q.
Proof.
  intros Ht Hf. unfold Gem5.on_tile. rewrite Ht. apply wp_bind, wp_ret, wp_bind.
  eapply wp_mono; [exact Hf|]. intros [a t'] HQ. cbn beta iota.
  unfold Gem5.get_tile in Ht. destruct (aget (Gem5.tiles d) tid) as [o|] eqn:E; [|done].
  pose proof (aget_Some_bounds _ _ _ E) as Hb. unfold Gem5.set_tile.
  rewrite aset_spec by done. apply HQ; unfold Gem5.get_tile; simpl.
  - rewrite aget_insert by done. by rewrite Z.eqb_refl.
  - intros tid' Hne. rewrite aget_insert by done. by destruct (Z.eqb_spec tid' tid).
  - done.
  - by rewrite length_insert.
Qed.

#[export] Instance Gem5Accelerator : Accelerator Core := {|
  smmParamWrite rm rn c := smmParamWrite_asm rm rn 0 c;
  smmQueue rm rn c := smmQueue_asm rm rn 0 c;
  smmStream _ rn c := smmStream_asm rn 0 c
|}.

Definition core_arrays (c : Core) : SA :=
  Gem5.tile_arrays (default Gem5.SATile_new (Gem5.get_tile (smm c) 0)).

Definition core_ok (c : Core) : Prop :=
  zlen (xregs c) = 31 /\
  exists t, Gem5.get_tile (smm c) 0 = Some t /\ Shape (Gem5.tile_arrays t).

Lemma core_arrays_eq c t :
  Gem5.get_tile (smm c) 0 = Some t -> core_arrays c = Gem5.tile_arrays t.
Proof. unfold core_arrays. by intros ->. Qed.

Lemma act_lane_uint32 v i : 0 <= i < ACT_PER_BUS -> act_lane (uint32 v) i = act_lane v i.
Proof.
  intros. geometry. pose proof act_bits_bus. unfold act_lane.
  rewrite !lane_be_le by lia. unfold uint32. rewrite lane_le_wrapU; [done|lia|lia|nia].
Qed.

Lemma weight_lane_uint32 v i : 0 <= i < W_PER_BUS -> weight_lane (uint32 v) i = weight_lane v i.
Proof.
  intros. geometry. pose proof weight_bits_bus. unfold weight_lane.
  rewrite !lane_be_le by lia. unfold uint32. rewrite lane_le_wrapU; [done|lia|lia|nia].
Qed.

Lemma out_word_range w x q : 0 <= out_word w x q < 2 ^ 32.
Proof.
  geometry. unfold out_word. rewrite <- act_bits_bus.
  apply pack_range; [lia|lia|]. intros. apply wrapU_range. lia.
Qed.

(** In a well-formed geometry the lanes of the bus word [k] are the flat
    indices with quotient [k]. *)
Lemma lane_range_div k j :
  0 <= j -> (k * W_PER_BUS <=? j) && (j <? k * W_PER_BUS + W_PER_BUS) = (j / W_PER_BUS =? k).
Proof.
  intros Hj. geometry. assert (W_PER_BUS <> 0) as HW0 by lia.
  pose proof (Z.mod_pos_bound j W_PER_BUS w_per_bus_pos).
  pose proof (Z.div_mod j W_PER_BUS HW0). zcases; simpl; try done; exfalso; nia.
Qed.

Lemma weight_index_bounds k :
  0 <= k < K * MAX_W_COL -> 0 <= k * W_PER_BUS /\ k * W_PER_BUS + W_PER_BUS <= K * K /\ K * K < 2 ^ 31.
Proof.
  intros. geometry. pose proof max_w_col_spec. pose proof wf_int. unfold KERNEL_DIM in *. nia.
Qed.

#[export] Program Instance Gem5Laws : AcceleratorLaws Core := {|
  acc_arrays := core_arrays;
  acc_ok := core_ok
|}.
Next Obligation. intros s (_ & t & Ht & Hs). by rewrite (core_arrays_eq _ _ Ht). Qed.
Next Obligation.
  intros k v s (Hl & t & Ht & Hs) Hk. destruct (weight_index_bounds k Hk) as (H1 & H2 & H3).
  geometry. cbn [smmParamWrite Gem5Accelerator]. rewrite smmParamWrite_asm_spec by lia.
  apply wp_bind. eapply wp_on_tile; [exact Ht|].
  pose proof Hs as (S1 & S2 & S3 & S4 & S5 & S6 & S7).
  apply Gem5.wp_loadWeights_tile; [done|done|done|].
  intros b t' W1 W2 W3 W4 W5 W6 _ _ d' Hd' _ _ _. cbn beta iota. apply wp_ret. split.
  - split; [simpl; by rewrite zlen_clobber|]. exists t'. split; [done|].
    unfold Shape, Gem5.tile_arrays; simpl. rewrite W3, W4, W5, W6. done.
  - intros j Hj. rewrite (core_arrays_eq _ _ Ht), (core_arrays_eq _ t') by done. simpl.
    rewrite W2, lane_range_div by lia. destruct (Z.eqb_spec (j / W_PER_BUS) k) as [Hq|]; [|done].
    assert (W_PER_BUS <> 0) as HW0 by lia.
    pose proof (Z.mod_pos_bound j W_PER_BUS w_per_bus_pos). pose proof (Z.div_mod j W_PER_BUS HW0).
    rewrite weight_lane_uint32 by nia. f_equal. nia.
Qed.
Next Obligation.
  intros w x T q v s (Hl & t & Ht & Hs) Hq Hq1 HT HP Hv. rewrite (core_arrays_eq _ _ Ht) in HP.
  geometry. pose proof max_act_col_spec. pose proof wf_int. unfold KERNEL_DIM in *.
  cbn [smmQueue Gem5Accelerator]. rewrite smmQueue_asm_spec by nia.
  apply wp_bind. eapply wp_on_tile; [exact Ht|].
  eapply Gem5.wp_inputQueue_tile; [done|done|exact HP| |].
  { intros i Hi. rewrite act_lane_uint32 by done. by apply Hv. }
  intros r t' HP' Hr d' Hd' _ _ _. cbn beta iota. apply wp_ret. split; [|split].
  - split; [simpl; by rewrite zlen_clobber|]. exists t'. split; [done|]. by eapply Phase_Shape.
  - by rewrite (core_arrays_eq _ t').
  - intros HT2. rewrite (Hr HT2). apply uint64_of_uint32, out_word_range.
Qed.
Next Obligation.
  intros w x T v s (Hl & t & Ht & Hs) HT HP Hv. rewrite (core_arrays_eq _ _ Ht) in HP.
  cbn [smmStream Gem5Accelerator]. rewrite smmStream_asm_spec by lia.
  apply wp_bind. eapply wp_on_tile; [exact Ht|].
  eapply Gem5.wp_streamInOut_tile; [done|exact HP| |].
  { intros i Hi. rewrite act_lane_uint32 by done. by apply Hv. }
  intros r t' HP' Hr d' Hd' _ _ _. cbn beta iota. apply wp_ret. split; [|split].
  - split; [simpl; by rewrite zlen_clobber|]. exists t'. split; [done|]. by eapply Phase_Shape.
  - by rewrite (core_arrays_eq _ t').
  - intros HT2. rewrite (Hr HT2). apply uint64_of_uint32, out_word_range.
Qed.

(** A core whose device has just been built is ready. *)
Lemma core_ok_new rs tid p :
  zlen rs = 31 -> p.(Gem5.p_cpus) <> [] ->
  core_ok {| xregs := rs; threadId := tid; smm := Gem5.SystolicMatrixMultiplication_new p |}.
Proof.
  intros Hl Hp. split; [done|]. exists Gem5.SATile_new. split; [|apply Gem5.tile_new_shape].
  unfold Gem5.get_tile; simpl. by destruct (Gem5.p_cpus p).
Qed.
End Gem5Instance.

(** ** The software array of the [DEVELOP] build *)

Section Emulator.
Context {cfg : Config} {wf : WfConfig cfg}.
Abbreviation K := KERNEL_DIM.

Definition emu_arrays (s : SystolicMatrixMultiplication) : SA := {|
  sa_w := weights s; sa_inp := inputMemory s; sa_out := outputMemory s;
  sa_inW := inWaitingMemory s; sa_outW := outWaitingMemory s |}.

Lemma kernel_rem4 : Z.rem K 4 = 0.
Proof. geometry. rewrite Z.rem_mod_nonneg by lia. apply wf_mod4. Qed.

Lemma kernel_rem_bus : Z.rem K ACT_PER_BUS = 0.
Proof. geometry. rewrite Z.rem_mod_nonneg, max_act_col_spec by lia. apply Z_mod_mult. Qed.

Lemma rem_wrap a : 0 <= a < K -> Z.rem (a + SA_SIZE) SA_SIZE = a.
Proof.
  intros. unfold KERNEL_DIM in *. rewrite Z.rem_mod_nonneg by lia.
  rewrite <- (Z.mul_1_l SA_SIZE) at 1. rewrite Z.mod_add by lia. by apply Z.mod_small.
Qed.

Lemma getNthActivation_spec v i :
  0 <= i < ACT_PER_BUS -> getNthActivation v i = Some (act_lane v i).
Proof.
  intros. unfold getNthActivation, assert_. destruct (Z.leb_spec 0 i); [|lia].
  destruct (Z.ltb_spec i ACT_PER_BUS); [done|lia].
Qed.

Lemma getNthWeight_spec v i :
  0 <= i < W_PER_BUS -> getNthWeight v i = Some (weight_lane v i).
Proof.
  intros. unfold getNthWeight, assert_. destruct (Z.leb_spec 0 i); [|lia].
  destruct (Z.ltb_spec i W_PER_BUS); [done|lia].
Qed.

Lemma wp_storeInput q v inW fiw (Q : list Z -> Prop) :
  0 <= q < MAX_ACT_COL -> mat inW K K fiw ->
  (forall inW', mat inW' K K (stored (q * ACT_PER_BUS) v fiw) -> Q inW') ->
  wp (storeInput (q * ACT_PER_BUS) v inW) Q.
Proof.
  intros Hq Hm HQ. geometry. pose proof max_act_col_spec as HM. unfold storeInput, mem2d.
  apply wp_bind, wp_assert; [by rewrite kernel_rem4|].
  eapply (wp_store_loop _ (q * ACT_PER_BUS) v); [nia|nia|done| |done].
  intros i l Hi Hl. rewrite getNthActivation_spec by done. cbn [mbind option_bind].
  assert (0 <= q * ACT_PER_BUS + i < K) as Hr by nia.
  rewrite Z.rem_small by (unfold KERNEL_DIM in *; lia).
  rewrite rem_wrap by lia.
  unfold assert_. zcases; try lia. cbn [mbind option_bind]. f_equal. lia.
Qed.

(** The read-out for bus word [q'], the one after the word just stored. *)
Lemma wp_retrieveOutput w x T q a q' (Q : Z -> Prop) :
  Phase w x T q a -> 0 <= q' < MAX_ACT_COL -> 0 <= T ->
  (forall r, (2 * K - 1 <= T -> r = out_word w (x (T - (2 * K - 1))) q') -> Q r) ->
  wp (retrieveOutput ((if q' =? 0 then MAX_ACT_COL - 1 else q' - 1) * ACT_PER_BUS) (sa_outW a)) Q.
Proof.
  intros HP Hq' HT HQ. geometry. pose proof max_act_col_spec as HM. unfold retrieveOutput, mem2d.
  apply wp_bind, wp_assert; [by rewrite kernel_rem_bus|].
  assert (Z.rem ((if q' =? 0 then MAX_ACT_COL - 1 else q' - 1) * ACT_PER_BUS + ACT_PER_BUS) SA_SIZE
          = q' * ACT_PER_BUS) as ->.
  { destruct (Z.eqb_spec q' 0) as [->|].
    - replace ((MAX_ACT_COL - 1) * ACT_PER_BUS + ACT_PER_BUS) with K by lia.
      unfold KERNEL_DIM in *. rewrite Z.rem_same; lia.
    - rewrite Z.rem_small; unfold KERNEL_DIM in *; nia. }
  erewrite for_up_ext.
  - eapply (wp_read_phase w x T q a q' Q (fun i => K - 1 - (q' * ACT_PER_BUS + i))
      (fun i => q' * ACT_PER_BUS + i)); [done|done|done|done|done].
  - intros i r Hi. assert (0 <= q' * ACT_PER_BUS + i < K) by nia.
    replace (K - q' * ACT_PER_BUS - i - 1 + SA_SIZE) with (K - 1 - (q' * ACT_PER_BUS + i) + SA_SIZE) by lia.
    rewrite rem_wrap by lia. rewrite Z.rem_small by (unfold KERNEL_DIM in *; lia).
    unfold assert_. zcases; try lia. done.
Qed.

Lemma wp_inputQueue w x T q v s (Q : Z * SystolicMatrixMultiplication -> Prop) :
  0 <= q -> q + 1 < MAX_ACT_COL -> 0 <= T ->
  Phase w x T q (emu_arrays s) ->
  (forall i, 0 <= i < ACT_PER_BUS -> act_lane v i = x T (q * ACT_PER_BUS + i)) ->
  (forall r s', Phase w x T (q + 1) (emu_arrays s') ->
     (2 * K - 1 <= T -> r = out_word w (x (T - (2 * K - 1))) (q + 1)) -> Q (r, s')) ->
  wp (inputQueue (q * ACT_PER_BUS) v s) Q.
Proof.
  intros Hq Hq1 HT HP Hv HQ. pose proof HP as (fi & fo & fiw & fow & Hw & Hi & Ho & Hiw & How & H).
  unfold inputQueue. apply wp_bind. eapply wp_storeInput; [lia|exact Hiw|]. intros inW' HinW'.
  apply wp_bind.
  pose proof (wp_retrieveOutput w x T q (emu_arrays s) (q + 1)) as Hret.
  replace (if q + 1 =? 0 then MAX_ACT_COL - 1 else q + 1 - 1) with q in Hret
    by (destruct (Z.eqb_spec (q + 1) 0); lia).
  apply Hret; [done|lia|done|]. intros r Hr. apply wp_ret. apply HQ; [|done].
  exists fi, fo, (stored (q * ACT_PER_BUS) v fiw), fow. do 5 (split; [done|]).
  apply PhaseF_queue; [lia|done|done].
Qed.

Lemma wp_streamInOut w x T v s (Q : Z * SystolicMatrixMultiplication -> Prop) :
  0 <= T ->
  Phase w x T (MAX_ACT_COL - 1) (emu_arrays s) ->
  (forall i, 0 <= i < ACT_PER_BUS -> act_lane v i = x T ((MAX_ACT_COL - 1) * ACT_PER_BUS + i)) ->
  (forall r s', Phase w x (T + 1) 0 (emu_arrays s') ->
     (2 * K - 1 <= T + 1 -> r = out_word w (x (T + 1 - (2 * K - 1))) 0) -> Q (r, s')) ->
  wp (streamInOut ((MAX_ACT_COL - 1) * ACT_PER_BUS) v s) Q.
Proof.
  intros HT (fi & fo & fiw & fow & Hw & Hi & Ho & Hiw & How & H) Hv HQ. geometry.
  unfold streamInOut. apply wp_bind. eapply wp_storeInput; [lia|exact Hiw|]. intros inW1 HinW1.
  apply wp_bind. eapply wp_shift_waiting; [done|exact Hi|]. intros inW' inp' HiW' Hinp'. cbn beta iota.
  apply wp_bind. eapply wp_mac_stage; [exact Hw|done|exact Ho|]. intros out' Hout'.
  apply wp_bind. eapply wp_shift_input; [done|]. intros inp2 Hinp2.
  apply wp_bind. eapply wp_shift_output; [done|exact How|]. intros outW' HoutW'.
  assert (0 <= MAX_ACT_COL - 1 < MAX_ACT_COL) as Hm by lia.
  pose proof (PhaseF_queue w x T (MAX_ACT_COL - 1) v fi fo fiw fow Hm Hv H) as Hq.
  replace (MAX_ACT_COL - 1 + 1) with MAX_ACT_COL in Hq by lia.
  set (a := {| sa_w := weights s; sa_inp := inp2; sa_out := out'; sa_inW := inW'; sa_outW := outW' |}).
  assert (Phase w x (T + 1) 0 a) as HP.
  { do 4 eexists. do 5 (split; [done|]). exact (PhaseF_step _ _ _ _ _ _ _ HT Hq). }
  apply wp_bind. apply (wp_retrieveOutput w x (T + 1) 0 a 0); [done|lia|lia|].
  intros r Hr. apply wp_ret. by apply HQ.
Qed.

Lemma wp_loadWeights k v s (Q : bool * SystolicMatrixMultiplication -> Prop) :
  zlen (weights s) = K * K -> 0 <= k ->
  (forall b s', zlen (weights s') = K * K ->
     (forall j, 0 <= j < K * K -> (weights s').[j] =
        if (k <=? j) && (j <? k + W_PER_BUS) then weight_lane v (j - k) else (weights s).[j]) ->
     emu_arrays s' = {| sa_w := weights s'; sa_inp := inputMemory s; sa_out := outputMemory s;
       sa_inW := inWaitingMemory s; sa_outW := outWaitingMemory s |} ->
     Q (b, s')) ->
  wp (loadWeights k v s) Q.
Proof.
  intros Hl Hk HQ. geometry. unfold loadWeights. apply wp_bind.
  apply (wp_for_up (fun i w => zlen w = K * K /\ forall j, 0 <= j < K * K -> w.[j] =
    if (k <=? j) && (j <? k + i) then weight_lane v (j - k) else (weights s).[j])).
  - lia.
  - split; [done|]. intros. zcases; simpl; try done; lia.
  - intros i w Hi [Hw Hn]. rewrite getNthWeight_spec by done. apply wp_bind, wp_ret.
    destruct (Z.ltb_spec (k + i) (K * K)).
    + apply wp_aset; [lia|]. intros w' Hw' Hn'. split; [lia|].
      intros j Hj. rewrite Hn', Hn by done. zcases; simpl; try done; try lia.
      subst j. f_equal. lia.
    + apply wp_ret. split; [done|]. intros j Hj. rewrite Hn by done. zcases; simpl; try done; lia.
  - intros w [Hw Hn]. apply wp_ret. by apply HQ.
Qed.

(** The [DEVELOP] build as the matrix multiplication drives it: the index it
    passes is the index of the bus word. *)
#[export] Instance DevelopAccelerator : Accelerator (list SystolicMatrixMultiplication) := {|
  smmParamWrite rm rn l := '(b, l) ← smmParamWrite_dev rm rn 0 l; Some (if (b : bool) then 1 else 0, l);
  smmQueue rm rn l := smmQueue_dev rm rn 0 l;
  smmStream rm rn l := smmStream_dev rm rn 0 l
|}.

Definition list_arrays (l : list SystolicMatrixMultiplication) : SA :=
  emu_arrays (default SystolicMatrixMultiplication_new (aget l 0)).

Definition list_ok (l : list SystolicMatrixMultiplication) : Prop :=
  exists s, aget l 0 = Some s /\ Shape (emu_arrays s).

Lemma list_arrays_eq l s : aget l 0 = Some s -> list_arrays l = emu_arrays s.
Proof. unfold list_arrays. by intros ->. Qed.

Lemma wp_on_list {A} (f : SystolicMatrixMultiplication -> option (A * SystolicMatrixMultiplication))
    l s (Q : A * list SystolicMatrixMultiplication -> Prop) :
  aget l 0 = Some s ->
  wp (f s) (fun '(a, s') => forall l', aget l' 0 = Some s' -> Q (a, l')) ->
  wp (on_list f 0 l) Q.
Proof.
  intros Hs Hf. unfold on_list. rewrite Hs. apply wp_bind, wp_ret, wp_bind.
  eapply wp_mono; [exact Hf|]. intros [a s'] HQ. cbn beta iota.
  pose proof (aget_Some_bounds _ _ _ Hs) as Hb. rewrite aset_spec by done.
  apply HQ. rewrite aget_insert by done. done.
Qed.

(** The operations of the [DEVELOP] build, which take element indices. *)
Lemma wp_dev_load k v l :
  list_ok l -> 0 <= k < K * MAX_W_COL ->
  wp (smmParamWrite (Accelerator := DevelopAccelerator) (k * W_PER_BUS) v l) (fun '(_, l') =>
    list_ok l' /\ forall j, 0 <= j < K * K ->
      (sa_w (list_arrays l')).[j] =
        if j / W_PER_BUS =? k then weight_lane v (j mod W_PER_BUS) else (sa_w (list_arrays l)).[j]).
Proof.
  intros (s & Hs & HS) Hk. destruct (weight_index_bounds k Hk) as (H1 & H2 & H3). geometry.
  cbn [smmParamWrite DevelopAccelerator]. apply wp_bind. eapply wp_on_list; [exact Hs|].
  pose proof HS as (S1 & S2 & S3 & S4 & S5 & S6 & S7).
  apply wp_loadWeights; [done|done|]. intros b s' W1 W2 W3 l' Hl'. cbn beta iota. apply wp_ret. split.
  - exists s'. split; [done|]. rewrite W3. unfold Shape; simpl. done.
  - intros j Hj. rewrite (list_arrays_eq _ _ Hs), (list_arrays_eq _ s') by done. simpl.
    rewrite W2, lane_range_div by lia. destruct (Z.eqb_spec (j / W_PER_BUS) k) as [Hq|]; [|done].
    assert (W_PER_BUS <> 0) as HW0 by lia.
    pose proof (Z.mod_pos_bound j W_PER_BUS w_per_bus_pos). pose proof (Z.div_mod j W_PER_BUS HW0).
    f_equal. nia.
Qed.

Lemma wp_dev_queue w x T q v l :
  list_ok l -> 0 <= q -> q + 1 < MAX_ACT_COL -> 0 <= T -> Phase w x T q (list_arrays l) ->
  (forall i, 0 <= i < ACT_PER_BUS -> act_lane v i = x T (q * ACT_PER_BUS + i)) ->
  wp (smmQueue_dev (q * ACT_PER_BUS) v 0 l) (fun '(r, l') =>
    list_ok l' /\ Phase w x T (q + 1) (list_arrays l') /\
    (2 * K - 1 <= T -> r = out_word w (x (T - (2 * K - 1))) (q + 1))).
Proof.
  intros (s & Hs & HS) Hq Hq1 HT HP Hv. rewrite (list_arrays_eq _ _ Hs) in HP.
  eapply wp_on_list; [exact Hs|]. eapply wp_inputQueue; [done|done|done|exact HP|done|].
  intros r s' HP' Hr l' Hl'. split; [exists s'; split; [done|by eapply Phase_Shape]|].
  by rewrite (list_arrays_eq _ s').
Qed.

Lemma wp_dev_stream w x T v l :
  list_ok l -> 0 <= T -> Phase w x T (MAX_ACT_COL - 1) (list_arrays l) ->
  (forall i, 0 <= i < ACT_PER_BUS -> act_lane v i = x T ((MAX_ACT_COL - 1) * ACT_PER_BUS + i)) ->
  wp (smmStream_dev ((MAX_ACT_COL - 1) * ACT_PER_BUS) v 0 l) (fun '(r, l') =>
    list_ok l' /\ Phase w x (T + 1) 0 (list_arrays l') /\
    (2 * K - 1 <= T + 1 -> r = out_word w (x (T + 1 - (2 * K - 1))) 0)).
Proof.
  intros (s & Hs & HS) HT HP Hv. rewrite (list_arrays_eq _ _ Hs) in HP. geometry.
  eapply wp_on_list; [exact Hs|]. eapply wp_streamInOut; [done|exact HP|done|].
  intros r s' HP' Hr l' Hl'. split; [exists s'; split; [done|by eapply Phase_Shape]|].
  by rewrite (list_arrays_eq _ s').
Qed.

Lemma list_ok_shape l : list_ok l -> Shape (list_arrays l).
Proof. intros (s & Hs & HS). by rewrite (list_arrays_eq _ _ Hs). Qed.

(** The bus-word index and the element index agree. *)
Definition index_units_agree : Prop := ACT_PER_BUS = 1 \/ MAX_ACT_COL = 1.

Lemma units_mul q : index_units_agree -> 0 <= q < MAX_ACT_COL -> q = q * ACT_PER_BUS.
Proof. intros [H|H] Hq; [rewrite H; lia|]. assert (q = 0) as -> by lia. done. Qed.

#[export] Program Instance DevelopLaws (Hu : index_units_agree)
  : AcceleratorLaws (list SystolicMatrixMultiplication) := {|
  acc_arrays := list_arrays;
  acc_ok := list_ok
|}.
Next Obligation. intros _. exact list_ok_shape. Qed.
Next Obligation. intros _. exact wp_dev_load. Qed.
Next Obligation.
  intros Hu w x T q v l Hl Hq Hq1 HT HP Hv. cbn [smmQueue DevelopAccelerator].
  rewrite (units_mul q Hu) at 1 by lia. by apply wp_dev_queue.
Qed.
Next Obligation.
  intros Hu w x T v l Hl HT HP Hv. geometry. cbn [smmStream DevelopAccelerator].
  rewrite (units_mul (MAX_ACT_COL - 1) Hu) at 1 by lia. by apply wp_dev_stream.
Qed.

(** An accelerator behind the index of the first element of a bus word instead of
    the index of the word, as the test program passes it. *)
Definition element_indexed {S} (A : Accelerator S) : Accelerator S := {|
  smmParamWrite := smmParamWrite;
  smmQueue q := smmQueue (q * ACT_PER_BUS);
  smmStream q := smmStream (q * ACT_PER_BUS)
|}.

(** The [DEVELOP] build is such an accelerator for every geometry. *)
Program Definition DevelopElementLaws
  : AcceleratorLaws (list SystolicMatrixMultiplication) (H := element_indexed DevelopAccelerator) := {|
  acc_arrays := list_arrays;
  acc_ok := list_ok
|}.
Next Obligation. exact list_ok_shape. Qed.
Next Obligation. exact wp_dev_load. Qed.
Next Obligation. exact wp_dev_queue. Qed.
Next Obligation. exact wp_dev_stream. Qed.

(** Any other one when the two indices agree. *)
Program Definition ElementLaws {S} {A : Accelerator S} (L : AcceleratorLaws (cfg := cfg) S) (Hu : index_units_agree)
  : AcceleratorLaws S (H := element_indexed A) := {|
  acc_arrays := acc_arrays;
  acc_ok := acc_ok
|}.
Next Obligation. intros S A L _. exact (@acc_ok_shape cfg S A L). Qed.
Next Obligation. intros S A L _. exact (@law_load cfg S A L). Qed.
Next Obligation.
  intros S A L Hu w x T q v s Hs Hq Hq1 HT HP Hv. cbn [smmQueue element_indexed].
  rewrite <- (units_mul q Hu) by lia. by apply (@law_queue cfg S A L).
Qed.
Next Obligation.
  intros S A L Hu w x T v s Hs HT HP Hv. geometry. cbn [smmStream element_indexed].
  rewrite <- (units_mul (MAX_ACT_COL - 1) Hu) by lia. by apply (@law_stream cfg S A L).
Qed.

Lemma list_ok_new : list_ok smmList_new.
Proof.
  exists SystolicMatrixMultiplication_new. split; [done|]. geometry.
  unfold Shape, emu_arrays; simpl. rewrite !zlen_zeros by nia.
  repeat split; try lia; intros; rewrite !nthZ_zeros; lia.
Qed.
End Emulator.
