(* ===== verification/SparseMM.v ===== *)
(** * SparseMM: the sparse matrix multiplier

    Translates [src/accelerator/sparseMatrixMultiplication.cpp] and [.h].
    A multiplier holds the sizes of one product [input * weights]; the weights
    come as [KERNEL_DIM x KERNEL_DIM] tiles in one of eight formats, and every
    format drives [processMultiplication], which runs one tile through the
    accelerator and accumulates its result in the output.  Buffers are word
    arrays, pointers are offsets into them.  The accelerator is any instance of
    the interface [Accelerator]. *)

From stdpp Require Import prelude.
From Stdlib Require Import ZArith Lia.
From S2P Require Import Prelude Machine Float32 Accelerator SmmGem.

Inductive Format := CSR | CSC | WITH_FLAG | HIDDEN_KEY | DYNAMIC | NON_PRUNED | META_DATA | INTERLEAVED.

#[export] Instance Format_eq_dec : EqDecision Format.
Proof. solve_decision. Defined.

Record SparseMatrixMultiplier := mkMultiplier {
  input_size_ : Z;
  output_size_ : Z;
  seq_len : Z;
  format_ : Format
}.

Section SparseMM.
Context {cfg : Config} {S : Type} {A : Accelerator S}.
Implicit Types m : SparseMatrixMultiplier.

(** ** The software product *)

(** Element [e] of a word buffer seen through a [weight_t] pointer. *)
Definition get_weight (buf : list Z) (e : Z) : option Z :=
  w ← aget buf (e / W_PER_BUS);
  Some (weight_t (lane_le WEIGHT_BITS w (e mod W_PER_BUS))).

(** The accumulation of one output element: a [float] or an [int]. *)
Definition conv_mac (sum w inp : Z) : Z :=
  if ACTIVATION_FP then
    let wf := if WEIGHT_FP then f32_of_bits w else f32_of_Z w in
    bits_of_f32 (f32_add (f32_of_bits sum)
      (if WEIGHT_FP then f32_mul (f32_of_bits inp) wf else f32_mul wf (f32_of_bits inp)))
  else int32 (sum + int32 (w * inp)).

Definition conventionalCompute (seq_len : Z) (input : list Z) (weight : list Z)
    (input_size_ output_size_ : Z) (output : list Z) : option (list Z) :=
  for_up 0 seq_len (fun length output =>
    for_up 0 (output_size_ / ACT_PER_BUS) (fun out_idx output =>
      let weight_ptr := out_idx * W_PER_BUS in
      let output_ptr := (length * output_size_ / ACT_PER_BUS + out_idx) * ACT_PER_BUS in
      for_up 0 ACT_PER_BUS (fun w output =>
        let input_ptr := length * input_size_ / ACT_PER_BUS * ACT_PER_BUS in
        sum ← for_up 0 input_size_ (fun i sum =>
          wt ← get_weight weight (weight_ptr + (i + 3 - 2 * (Z.rem i ACT_PER_BUS)) * output_size_ + w);
          x ← get_act input (input_ptr + i);
          Some (conv_mac sum wt x)) 0;
        set_act output (output_ptr + w) (activation_t sum)) output) output) output.

(** ** One tile through the accelerator *)

(** [smmStream] on the last word of a column, [smmQueue] on the others. *)
Definition smm_call (j v : Z) (s : S) : option (Z * S) :=
  if j =? MAX_ACT_COL - 1 then smmStream (Z.rem j MAX_ACT_COL) v s
  else smmQueue (Z.rem j MAX_ACT_COL) v s.

(** [addActIn32( *(outPtr++), mult)] when the output is valid. *)
Definition accumulate (valid : bool) (mult : Z) (output : list Z) (outPtr : Z) : option (list Z * Z) :=
  if valid then
    cell ← aget output outPtr;
    v ← addActIn32 cell (uint32 mult);
    output ← aset output outPtr v;
    Some (output, outPtr + 1)
  else Some (output, outPtr).

Definition processMultiplication (m : SparseMatrixMultiplier) (input : list Z) (row col : Z)
    (values : list Z) (vptr : Z) (st : S * list Z) : option (S * list Z) :=
  let '(s, output) := st in
  let rowBlockSize := KERNEL_DIM in
  let colBlockSize := MAX_W_COL in
  s ← for_up 0 (rowBlockSize * colBlockSize) (fun k s =>
    weight ← aget values (vptr + k);
    '(_, s) ← smmParamWrite (k * W_PER_BUS) weight s;
    Some s) s;
  let base_col_idx := row * MAX_ACT_COL * seq_len m in
  let outPtr := col * MAX_ACT_COL * seq_len m in
  let inPtr := base_col_idx in
  '(s, output, inPtr, outPtr) ← for_up 0 (seq_len m) (fun i st =>
    for_up 0 MAX_ACT_COL (fun j '(s, output, inPtr, outPtr) =>
      content ← aget input inPtr;
      '(mult, s) ← smm_call j content s;
      '(output, outPtr) ← accumulate
        (MAX_ACT_COL * (2 * KERNEL_DIM - 1) - 1 <=? i * MAX_ACT_COL + j) mult output outPtr;
      Some (s, output, inPtr + 1, outPtr)) st) (s, output, inPtr, outPtr);
  '(s, output, outPtr) ← for_up (seq_len m * MAX_ACT_COL)
      (MAX_ACT_COL * (seq_len m + 2 * KERNEL_DIM - 1) - 1) (fun i '(s, output, outPtr) =>
    '(mult, s) ← smm_call (Z.rem i MAX_ACT_COL) 0 s;
    '(output, outPtr) ← accumulate
      (MAX_ACT_COL * (2 * KERNEL_DIM - 1) - 1 <=? i) mult output outPtr;
    Some (s, output, outPtr)) (s, output, outPtr);
  Some (s, output).

(** ** The formats *)

Definition tiles_in_row (m : SparseMatrixMultiplier) : Z := input_size_ m / KERNEL_DIM.
Definition tiles_in_col (m : SparseMatrixMultiplier) : Z := output_size_ m / KERNEL_DIM.

Definition TILE : Z := KERNEL_DIM * MAX_W_COL.

Definition computeCSR (m : SparseMatrixMultiplier) (input : list Z) (col_ind row_ptr : list Z)
    (kernel values : list Z) (st : S * list Z) : option (S * list Z) :=
  let row_in_w := tiles_in_row m in
  for_up 0 row_in_w (fun i st =>
    lo ← aget row_ptr i;
    hi ← aget row_ptr (i + 1);
    for_up lo hi (fun j st =>
      let row := i in
      col ← aget col_ind j;
      v ← aget values j;
      processMultiplication m input row col kernel v st) st) st.

Definition computeCSC (m : SparseMatrixMultiplier) (input : list Z) (col_ptr row_ind : list Z)
    (kernel values : list Z) (st : S * list Z) : option (S * list Z) :=
  let col_in_w := tiles_in_col m in
  for_up 0 col_in_w (fun i st =>
    lo ← aget col_ptr i;
    hi ← aget col_ptr (i + 1);
    for_up lo hi (fun j st =>
      row ← aget row_ind j;
      let col := i in
      v ← aget values j;
      processMultiplication m input row col kernel v st) st) st.

Definition computeMetaData (m : SparseMatrixMultiplier) (input : list Z) (m1 m2 : list Z)
    (values : list Z) (st : S * list Z) : option (S * list Z) :=
  let row_in_w := tiles_in_row m in
  let col_in_w := tiles_in_col m in
  '(st, _, _, _) ← for_up 0 col_in_w (fun i '(st, p1, p2, vptr) =>
    b1 ← aget m1 p1;
    let p1 := p1 + 1 in
    if b1 =? 0 then Some (st, p1, p2, vptr) else
    '(st, p2, vptr) ← for_up 0 row_in_w (fun j '(st, p2, vptr) =>
      b2 ← aget m2 p2;
      let p2 := p2 + 1 in
      if b2 =? 0 then Some (st, p2, vptr) else
      let row := j in
      let col := i in
      st ← processMultiplication m input row col values vptr st;
      Some (st, p2, vptr + TILE)) (st, p2, vptr);
    Some (st, p1, p2, vptr)) (st, 0, 0, 0);
  Some st.

(** One iteration of the loop over a block of the interleaved format; its state
    is the accelerator and output, the value pointer, the metadata pointer, the
    bit counter and the row. *)
Definition interleaved_row (m : SparseMatrixMultiplier) (input values : list Z) (i : Z)
    (st : S * list Z * Z * Z * Z * Z) : option (S * list Z * Z * Z * Z * Z) :=
  let '(s, output, vptr, metadata, counter32, row) := st in
  let '(metadata, counter32) := if counter32 =? 32 then (metadata + 1, 0) else (metadata, counter32) in
  md ← aget values metadata;
  let bit := Z.land md (uint32 (Z.shiftl 1 counter32)) in
  let counter32 := counter32 + 1 in
  if bit =? 0 then Some (s, output, vptr, metadata, counter32, row + 1) else
  let col := i in
  '(s, output) ← processMultiplication m input row col values vptr (s, output);
  Some (s, output, vptr + TILE, metadata, counter32, row + 1).

Definition interleaved_block (m : SparseMatrixMultiplier) (input values : list Z) (i next_block : Z)
    (st : S * list Z * Z * Z * Z * Z) : option (S * list Z * Z * Z * Z * Z) :=
  while_fuel (Z.to_nat (33 * (zlen values + 1)))
    (fun '(_, _, vptr, _, _, _) => vptr <? next_block) (interleaved_row m input values i) st.

Definition computeInterleavedMetaData (m : SparseMatrixMultiplier) (input values : list Z)
    (st : S * list Z) : option (S * list Z) :=
  let row_in_w := tiles_in_row m in
  let col_in_w := tiles_in_col m in
  let BLOCK_SIZE := row_in_w in
  let metadata_block_size := (BLOCK_SIZE + 32 - 1) / 32 in
  let metadata_offset := 32 - Z.min 32 row_in_w in
  '(st, _) ← for_up 0 col_in_w (fun i '(st, vptr) =>
    offset ← aget values vptr;
    let next_block := vptr + offset in
    let vptr := vptr + 1 in
    let metadata := vptr in
    let counter32 := metadata_offset in
    let vptr := vptr + metadata_block_size in
    let '(s, output) := st in
    '(s, output, vptr, _, _, _) ←
      interleaved_block m input values i next_block (s, output, vptr, metadata, counter32, 0);
    Some ((s, output), vptr)) (st, 0);
  Some st.

Definition computeWithFlag (m : SparseMatrixMultiplier) (input : list Z) (flag values : list Z)
    (st : S * list Z) : option (S * list Z) :=
  let row_in_w := tiles_in_row m in
  let col_in_w := tiles_in_col m in
  '(st, _, _, _) ← for_up 0 col_in_w (fun i st =>
    for_up 0 row_in_w (fun j '(st, fptr, counter, vptr) =>
      let '(fptr, counter) := if counter =? 32 then (fptr + 1, 0) else (fptr, counter) in
      f ← aget flag fptr;
      let bit := Z.land f (Z.shiftr 0x80000000 counter) in
      let counter := counter + 1 in
      if negb (bit =? 0) then Some (st, fptr, counter, vptr) else
      let row := j in
      let col := i in
      st ← processMultiplication m input row col values vptr st;
      Some (st, fptr, counter, vptr + TILE)) st) (st, 0, 0, 0);
  Some st.

Definition computeHiddenKey (m : SparseMatrixMultiplier) (input : list Z) (hiddenKey values : list Z)
    (st : S * list Z) : option (S * list Z) :=
  let row_in_w := tiles_in_row m in
  let col_in_w := tiles_in_col m in
  '(st, _) ← for_up 0 col_in_w (fun i st =>
    for_up 0 row_in_w (fun j '(st, vptr) =>
      key ← aget hiddenKey 0;
      v ← aget values vptr;
      if key =? v then Some (st, vptr + 1) else
      let row := j in
      let col := i in
      st ← processMultiplication m input row col values vptr st;
      Some (st, vptr + TILE)) st) (st, 0);
  Some st.

(** The scan [computeDynamic] does for a zero tile. *)
Definition is_zero_tile (values : list Z) (vptr : Z) : option bool :=
  for_break 0 TILE (fun k zero_tile =>
    v ← aget values (vptr + k);
    if negb (v =? 0) then Some (true, false) else Some (false, zero_tile)) true.

Definition computeDynamic (m : SparseMatrixMultiplier) (input values : list Z)
    (st : S * list Z) : option (S * list Z) :=
  let row_in_w := tiles_in_row m in
  let col_in_w := tiles_in_col m in
  '(st, _) ← for_up 0 col_in_w (fun i st =>
    for_up 0 row_in_w (fun j '(st, vptr) =>
      let row := j in
      let col := i in
      zero_tile ← is_zero_tile values vptr;
      if (zero_tile : bool) then Some (st, vptr + TILE) else
      st ← processMultiplication m input row col values vptr st;
      Some (st, vptr + TILE)) st) (st, 0);
  Some st.

Definition computeNonPruned (m : SparseMatrixMultiplier) (input values : list Z)
    (st : S * list Z) : option (S * list Z) :=
  let row_in_w := tiles_in_row m in
  let col_in_w := tiles_in_col m in
  '(st, _) ← for_up 0 col_in_w (fun i st =>
    for_up 0 row_in_w (fun j '(st, vptr) =>
      let row := j in
      let col := i in
      st ← processMultiplication m input row col values vptr st;
      Some (st, vptr + TILE)) st) (st, 0);
  Some st.

(** ** Dispatch *)

(** The overload taking an array of tile pointers; any other format is a no-op. *)
Definition compute_ptrs (m : SparseMatrixMultiplier) (input : list Z) (col_ptr row_ptr : list Z)
    (kernel values : list Z) (st : S * list Z) : option (S * list Z) :=
  match format_ m with
  | CSR => computeCSR m input col_ptr row_ptr kernel values st
  | CSC => computeCSC m input col_ptr row_ptr kernel values st
  | _ => Some st
  end.

(** The overload taking one value buffer; [SW_MULT] selects the software product. *)
Definition compute_values (SW_MULT : bool) (m : SparseMatrixMultiplier) (input : list Z)
    (row_ptr col_ind : list Z) (values : list Z) (st : S * list Z) : option (S * list Z) :=
  if SW_MULT then
    _ ← assert_ (bool_decide (format_ m = NON_PRUNED));
    let '(s, output) := st in
    output ← conventionalCompute (seq_len m) input values (input_size_ m) (output_size_ m) output;
    Some (s, output)
  else
    match format_ m with
    | META_DATA => computeMetaData m input row_ptr col_ind values st
    | INTERLEAVED => computeInterleavedMetaData m input values st
    | WITH_FLAG => computeWithFlag m input row_ptr values st
    | HIDDEN_KEY => computeHiddenKey m input row_ptr values st
    | DYNAMIC => computeDynamic m input values st
    | NON_PRUNED => computeNonPruned m input values st
    | _ => Some st
    end.
End SparseMM.
