(* ===== verification/TileProduct.v ===== *)
(** * TileProduct: one tile through the accelerator, and whole schedules

    [wp_processMultiplication] is the functional specification of
    [processMultiplication] against the interface [AcceleratorLaws]: whatever
    state the accelerator is in, the call adds to each word of the output tile
    the word of the product the systolic array computes, and touches nothing
    else.  A format is then characterised by the schedule of tiles it runs. *)

From stdpp Require Import prelude.
From Stdlib Require Import ZArith Lia.
From S2P Require Import Prelude Machine Float32 Systolic SystolicCorrect Accelerator SmmGem SparseMM.

Section TileProduct.
Context {cfg : Config} {wf : WfConfig cfg} {S : Type} {A : Accelerator S}
  {L : AcceleratorLaws (cfg := cfg) S}.
Abbreviation K := KERNEL_DIM.
Abbreviation MAC := MAX_ACT_COL.
Implicit Types m : SparseMatrixMultiplier.

(** ** Reference definitions *)

(** [addActIn32] as a function. *)
Definition add_word (cell mult : Z) : Z := default 0 (addActIn32 cell mult).

(** Row [t], element [r] of the activation tile that starts at word [base]. *)
Definition act_tile (input : list Z) (base n t r : Z) : Z :=
  if t <? n then act_lane input.[base + t * MAC + r / ACT_PER_BUS] (r mod ACT_PER_BUS) else 0.

(** The weight tile that starts at word [vptr]. *)
Definition weight_tile (values : list Z) (vptr r c : Z) : Z :=
  words_weight (fun k => values.[vptr + k]) r c.

(** The [k]-th word of the product of a weight tile and [n] rows of activations. *)
Definition prod_word (w : Z -> Z -> Z) (x : Z -> Z -> Z) (k : Z) : Z :=
  out_word w (x (k / MAC)) (k mod MAC).

(** The output after a tile product has been accumulated at word [base]. *)
Definition tile_added (w : Z -> Z -> Z) (x : Z -> Z -> Z) (base cnt : Z) (out out' : list Z) : Prop :=
  zlen out' = zlen out /\
  forall i, out'.[i] = if (base <=? i) && (i <? base + cnt)
                       then add_word out.[i] (prod_word w x (i - base)) else out.[i].

Definition words_ok (l : list Z) : Prop := forall i, 0 <= i < zlen l -> 0 <= l.[i] < 2 ^ 32.

Lemma words_ok_zeros n : words_ok (zeros n).
Proof. intros i Hi. rewrite nthZ_zeros. lia. Qed.

Lemma addActIn32_total cell mult : addActIn32 cell mult = Some (add_word cell mult).
Proof.
  unfold add_word. assert (wp (addActIn32 cell mult) (fun _ => True)) as H.
  { unfold addActIn32. geometry. by apply (wp_for_up (fun _ _ => True)); [lia|..]. }
  by destruct (addActIn32 cell mult).
Qed.

Lemma add_word_range cell mult : 0 <= cell < 2 ^ 32 -> 0 <= add_word cell mult < 2 ^ 32.
Proof.
  intros H. assert (wp (addActIn32 cell mult) (fun r => 0 <= r < 2 ^ 32)) as Hw.
  { by apply wp_addActIn32. }
  by rewrite addActIn32_total in Hw.
Qed.

Lemma add_word_lane cell mult i :
  0 <= cell < 2 ^ 32 -> 0 <= i < ACT_PER_BUS ->
  lane_le ACTIVATION_BITS (add_word cell mult) i =
  wrapU ACTIVATION_BITS (add_act (activation_t (lane_le ACTIVATION_BITS cell i))
                                 (activation_t (lane_le ACTIVATION_BITS mult i))).
Proof.
  intros H Hi. assert (wp (addActIn32 cell mult) (fun r => lane_le ACTIVATION_BITS r i =
    wrapU ACTIVATION_BITS (add_act (activation_t (lane_le ACTIVATION_BITS cell i))
                                 (activation_t (lane_le ACTIVATION_BITS mult i))))) as Hw.
  { apply wp_addActIn32; [done|]. intros r _ Hr. by apply Hr. }
  by rewrite addActIn32_total in Hw.
Qed.

(** ** One call *)

Lemma div_mod_succ n d : 0 <= n -> 0 < d ->
  if n mod d =? d - 1 then (n + 1) / d = n / d + 1 /\ (n + 1) mod d = 0
  else (n + 1) / d = n / d /\ (n + 1) mod d = n mod d + 1.
Proof.
  intros Hn Hd. pose proof (Z.div_mod n d ltac:(lia)) as H1. pose proof (Z.mod_pos_bound n d Hd).
  destruct (Z.eqb_spec (n mod d) (d - 1)) as [He|He].
  - assert ((n + 1) / d = n / d + 1) as Hq by (symmetry; apply (Z.div_unique _ _ _ 0); lia).
    split; [done|]. pose proof (Z.div_mod (n + 1) d ltac:(lia)). nia.
  - assert ((n + 1) / d = n / d) as Hq by (symmetry; apply (Z.div_unique _ _ _ (n mod d + 1)); lia).
    split; [done|]. pose proof (Z.div_mod (n + 1) d ltac:(lia)). nia.
Qed.

(** The number of calls before the first valid output. *)
Definition latency : Z := MAC * (2 * K - 1) - 1.

(** Call [n] feeds word [n mod MAC] of vector [n / MAC]; its result, once
    valid, is word [n - latency] of the product. *)
Lemma wp_smm_call w x n v (s : S) (Q : Z * S -> Prop) :
  acc_ok s -> 0 <= n ->
  Phase w x (n / MAC) (n mod MAC) (acc_arrays s) ->
  (forall i, 0 <= i < ACT_PER_BUS -> act_lane v i = x (n / MAC) (n mod MAC * ACT_PER_BUS + i)) ->
  (forall r s', acc_ok s' -> Phase w x ((n + 1) / MAC) ((n + 1) mod MAC) (acc_arrays s') ->
     (latency <= n -> r = prod_word w x (n - latency)) -> Q (r, s')) ->
  wp (smm_call (n mod MAC) v s) Q.
Proof.
  intros Hok Hn HP Hv HQ. geometry.
  pose proof (Z.mod_pos_bound n MAC max_act_col_pos) as Hm.
  assert (0 <= n / MAC) as HT by (apply Z.div_pos; lia).
  pose proof (div_mod_succ n MAC Hn max_act_col_pos) as Hs.
  assert (latency <= n -> 2 * K - 1 <= (n + 1) / MAC /\
    (n - latency) / MAC = (n + 1) / MAC - (2 * K - 1) /\ (n - latency) mod MAC = (n + 1) mod MAC) as Hlat.
  { unfold latency. intros Hl. replace (n - (MAC * (2 * K - 1) - 1)) with (n + 1 + - (2 * K - 1) * MAC) by lia.
    rewrite Z.div_add, Z.mod_add by lia. split; [|lia].
    apply Z.div_le_lower_bound; lia. }
  unfold smm_call. rewrite Z.rem_small by lia.
  destruct (Z.eqb_spec (n mod MAC) (MAC - 1)) as [He|He]; destruct Hs as [Hs1 Hs2].
  - rewrite He in *. eapply wp_mono; [eapply law_stream; done|].
    intros [r s'] (Hok' & HP' & Hr). apply HQ; [done|by rewrite Hs1, Hs2|].
    intros Hl. destruct (Hlat Hl) as (H1 & H2 & H3). unfold prod_word.
    rewrite H2, H3, Hs2, Hs1. apply Hr. lia.
  - eapply wp_mono; [eapply law_queue; done || lia|].
    intros [r s'] (Hok' & HP' & Hr). apply HQ; [done|by rewrite Hs1, Hs2|].
    intros Hl. destruct (Hlat Hl) as (H1 & H2 & H3). unfold prod_word.
    rewrite H2, H3, Hs2, Hs1. apply Hr. lia.
Qed.

(** The output once [n] calls have been made. *)
Definition produced (n : Z) : Z := Z.max 0 (n - latency).

Lemma prod_word_range w x k : 0 <= prod_word w x k < 2 ^ 32.
Proof.
  geometry. unfold prod_word, out_word. rewrite <- act_bits_bus.
  apply pack_range; [lia|lia|]. intros. apply wrapU_range. lia.
Qed.

(** Invariant of the calls of one tile. *)
Definition running w x base out n (s : S) (out' : list Z) : Prop :=
  acc_ok s /\ Phase w x (n / MAC) (n mod MAC) (acc_arrays s) /\
  tile_added w x base (produced n) out out'.

Lemma wp_call_step w x base out n v (s : S) out' (Q : Z * S -> Prop) :
  0 <= n -> 0 <= base -> base + produced (n + 1) <= zlen out ->
  running w x base out n s out' ->
  (forall i, 0 <= i < ACT_PER_BUS -> act_lane v i = x (n / MAC) (n mod MAC * ACT_PER_BUS + i)) ->
  (forall r s', wp (accumulate (latency <=? n) r out' (base + produced n))
                   (fun '(o, p) => running w x base out (n + 1) s' o /\ p = base + produced (n + 1)) ->
                Q (r, s')) ->
  wp (smm_call (n mod MAC) v s) Q.
Proof.
  intros Hn Hb Hlen (Hok & HP & Hl & Hadd) Hv HQ.
  eapply wp_smm_call; [done|done|exact HP|exact Hv|]. intros r s' Hok' HP' Hr. apply HQ.
  unfold accumulate, produced in *. destruct (Z.leb_spec latency n) as [Hlt|Hlt].
  - apply wp_bind, wp_aget; [lia|]. apply wp_bind. rewrite addActIn32_total. apply wp_ret.
    apply wp_bind, wp_aset; [lia|]. intros o Ho1 Ho2. apply wp_ret. split; [|lia].
    split; [done|]. split; [done|]. split; [lia|]. intros i. rewrite Ho2, !Hadd. unfold produced.
    destruct (Z.eqb_spec i (base + Z.max 0 (n - latency))) as [->|Hne].
    + rewrite Hr by done. unfold uint32. rewrite wrapU_small by apply prod_word_range.
      zcases; simpl; try (exfalso; lia). do 2 f_equal. lia.
    + zcases; simpl; try done; lia.
  - apply wp_ret. split; [|lia]. split; [done|]. split; [done|]. split; [done|].
    intros i. rewrite Hadd. unfold produced. zcases; simpl; try done; lia.
Qed.

Lemma act_lane_0 i : act_lane 0 i = 0.
Proof.
  geometry. unfold act_lane, activation_t. rewrite lane_be_0. apply wrapS_small; [lia|].
  pose proof (Z.pow_pos_nonneg 2 (ACTIVATION_BITS - 1)). lia.
Qed.

Lemma act_tile_word input base n i j l :
  0 <= i < n -> 0 <= j -> 0 <= l < ACT_PER_BUS ->
  act_tile input base n i (j * ACT_PER_BUS + l) = act_lane input.[base + i * MAC + j] l.
Proof.
  intros Hi Hj Hl. unfold act_tile. destruct (Z.ltb_spec i n); [|lia].
  replace ((j * ACT_PER_BUS + l) / ACT_PER_BUS) with j
    by (rewrite Z.add_comm, Z.div_add, Z.div_small by lia; lia).
  replace ((j * ACT_PER_BUS + l) mod ACT_PER_BUS) with l
    by (rewrite Z.add_comm, Z.mod_add, Z.mod_small by lia; lia). done.
Qed.

Lemma call_index i j : 0 <= j < MAC -> (i * MAC + j) / MAC = i /\ (i * MAC + j) mod MAC = j.
Proof.
  intros. rewrite Z.add_comm, Z.div_add, Z.mod_add, Z.div_small, Z.mod_small by lia. lia.
Qed.

Lemma running_start w x base out (s : S) :
  acc_ok s -> Phase w x 0 0 (acc_arrays s) -> running w x base out 0 s out.
Proof.
  intros Hok HP. geometry. split; [done|]. rewrite Z.div_0_l, Z.mod_0_l by lia. split; [done|].
  split; [done|]. intros i. unfold produced, latency.
  replace (Z.max 0 (0 - (MAC * (2 * K - 1) - 1))) with 0 by nia. zcases; simpl; try done; lia.
Qed.

(** The calls that feed the activations. *)
Lemma wp_feed w input ibase base n (s : S) out (Q : S * list Z * Z * Z -> Prop) :
  0 <= n -> 0 <= ibase -> 0 <= base ->
  ibase + MAC * n <= zlen input -> base + MAC * n <= zlen out ->
  let x := act_tile input ibase n in
  running w x base out 0 s out ->
  (forall s' out', running w x base out (n * MAC) s' out' ->
     Q (s', out', ibase + n * MAC, base + produced (n * MAC))) ->
  wp (for_up 0 n (fun i st =>
        for_up 0 MAC (fun j '(s, output, inPtr, outPtr) =>
          content ← aget input inPtr;
          '(mult, s) ← smm_call j content s;
          '(output, outPtr) ← accumulate (latency <=? i * MAC + j) mult output outPtr;
          Some (s, output, inPtr + 1, outPtr)) st) (s, out, ibase, base)) Q.
Proof.
  intros Hn Hib Hb Hin Hout x HR HQ. geometry.
  assert (forall k, 0 <= k <= n * MAC -> produced k <= MAC * n) as Hp.
  { intros k Hk. unfold produced, latency. nia. }
  apply (wp_for_up (fun i '(s, out', ip, op) => running w x base out (i * MAC) s out' /\
    ip = ibase + i * MAC /\ op = base + produced (i * MAC))).
  - done.
  - split; [done|]. split; [lia|]. unfold produced, latency. nia.
  - intros i [[[s1 o1] ip] op] Hi (HR1 & -> & ->).
    apply (wp_for_up (fun j '(s, out', ip, op) => running w x base out (i * MAC + j) s out' /\
      ip = ibase + (i * MAC + j) /\ op = base + produced (i * MAC + j))).
    + lia.
    + by rewrite !Z.add_0_r.
    + intros j [[[s2 o2] ip] op] Hj (HR2 & -> & ->). apply wp_bind, wp_aget; [nia|].
      destruct (call_index i j Hj) as [Hd Hm]. apply wp_bind. rewrite <- Hm at 1.
      eapply (wp_call_step w x base out (i * MAC + j)); [nia|done| |exact HR2| |].
      * specialize (Hp (i * MAC + j + 1)). nia.
      * intros l Hl. rewrite Hd, Hm. unfold x. rewrite act_tile_word by lia. by rewrite Z.add_assoc.
      * intros r s3 Hacc. cbn beta iota. apply wp_bind. eapply wp_mono; [exact Hacc|].
        intros [o3 p3] [HR3 ->]. apply wp_ret. rewrite Z.add_assoc.
        split; [done|]. split; [lia|done].
    + intros [[[s2 o2] ip] op] (HR2 & -> & ->).
      replace (i * MAC + MAC) with ((i + 1) * MAC) in * by lia. done.
  - intros [[[s1 o1] ip] op] (HR1 & -> & ->). by apply HQ.
Qed.

(** The calls that drain the pipeline with zeros. *)
Lemma wp_drain w input ibase base n (s : S) out out0 (Q : S * list Z * Z -> Prop) :
  0 <= n -> 0 <= base -> base + MAC * n <= zlen out ->
  let x := act_tile input ibase n in
  running w x base out (n * MAC) s out0 ->
  (forall s' out', acc_ok s' -> tile_added w x base (MAC * n) out out' ->
     Q (s', out', base + MAC * n)) ->
  wp (for_up (n * MAC) (MAC * (n + 2 * K - 1) - 1) (fun i '(s, output, outPtr) =>
        '(mult, s) ← smm_call (Z.rem i MAC) 0 s;
        '(output, outPtr) ← accumulate (latency <=? i) mult output outPtr;
        Some (s, output, outPtr)) (s, out0, base + produced (n * MAC))) Q.
Proof.
  intros Hn Hb Hout x HR HQ. geometry.
  apply (wp_for_up (fun i '(s, out', op) => running w x base out i s out' /\ op = base + produced i)).
  - nia.
  - done.
  - intros i [[s1 o1] op] Hi (HR1 & ->). rewrite Z.rem_mod_nonneg by nia. apply wp_bind.
    eapply (wp_call_step w x base out i); [nia|done| |exact HR1| |].
    + unfold produced, latency. nia.
    + intros l Hl. rewrite act_lane_0. unfold x, act_tile.
      destruct (Z.ltb_spec (i / MAC) n) as [Hlt|]; [|done]. exfalso.
      assert (n <= i / MAC) by (apply Z.div_le_lower_bound; lia). lia.
    + intros r s2 Hacc. cbn beta iota. apply wp_bind. eapply wp_mono; [exact Hacc|].
      by intros [o3 p3] [HR3 ->].
  - intros [[s1 o1] op] ((Hok & _ & Hadd) & ->).
    assert (produced (MAC * (n + 2 * K - 1) - 1) = MAC * n) as Hprod.
    { unfold produced, latency. nia. }
    rewrite Hprod in *. by apply HQ.
Qed.

(** ** The specification of [processMultiplication] *)
Lemma wp_processMultiplication m input row col values vptr (s : S) out (Q : S * list Z -> Prop) :
  acc_ok s -> 0 <= seq_len m -> 0 <= row -> 0 <= col -> 0 <= vptr ->
  (row + 1) * MAC * seq_len m <= zlen input ->
  (col + 1) * MAC * seq_len m <= zlen out ->
  vptr + TILE <= zlen values ->
  (forall s' out', acc_ok s' ->
     tile_added (weight_tile values vptr) (act_tile input (row * MAC * seq_len m) (seq_len m))
       (col * MAC * seq_len m) (MAC * seq_len m) out out' -> Q (s', out')) ->
  wp (processMultiplication m input row col values vptr (s, out)) Q.
Proof.
  intros Hok Hn Hr Hc Hv Hin Hout Hval HQ. geometry. unfold TILE in Hval.
  unfold processMultiplication. apply wp_bind.
  eapply (wp_load_tile (fun k => aget values (vptr + k)) (fun k => values.[vptr + k])); [done| |].
  { intros k Hk. apply aget_nthZ. lia. }
  intros s1 Hok1 HP. cbv zeta. apply wp_bind.
  change (MAC * (2 * K - 1) - 1) with latency.
  apply (wp_feed (weight_tile values vptr) input (row * MAC * seq_len m) (col * MAC * seq_len m)
    (seq_len m) s1 out); [done|nia|nia|nia|nia| |].
  { apply running_start; [done|]. apply HP. }
  intros s2 out2 HR2. cbn beta iota. apply wp_bind.
  eapply (wp_drain (weight_tile values vptr) input (row * MAC * seq_len m)); [done|nia| |exact HR2|].
  { nia. }
  intros s3 out3 Hok3 Hadd. cbn beta iota. apply wp_ret. by apply HQ.
Qed.
End TileProduct.
