(* ===== verification/SparseRep.v ===== *)
(** * SparseRep: building the sparse weight formats

    Translates [src/transformer_layers/sparse_rep.cc] and the layout functions
    of [src/transformer_layers/debuggerFunctions.cc].  A dense kernel is a word
    buffer of tiles, column of tiles after column of tiles; [n_row] is the
    number of rows, [n_col] the number of words per row.  The encoders write
    into caller-allocated arrays or into a freshly allocated, zeroed kernel;
    every write is checked against the size of its buffer.  A pointer to a tile
    ([&kernel[tile_index]]) is its offset. *)

From stdpp Require Import prelude.
From Stdlib Require Import ZArith Lia.
From S2P Require Import Prelude Machine Float32 SparseMM.

Section SparseRep.
Context {cfg : Config}.

(** ** Scanning one tile *)

(** [value != 0], or [result.fp != 0] for floating-point weights (so a negative
    zero counts as zero). *)
Definition word_nonzero (v : Z) : bool :=
  if WEIGHT_FP then f32_nonzero (f32_of_bits v) else negb (v =? 0).

(** The two nested loops with [break] that compute [all_zeros]. *)
Definition scan_tile (kernel : list Z) (tile_index : Z) : option bool :=
  for_break 0 SA_SIZE (fun ii all_zeros =>
    all_zeros ← for_break 0 MAX_W_COL (fun jj (all_zeros : bool) =>
      value ← aget kernel (tile_index + ii * MAX_W_COL + jj);
      if word_nonzero value then Some (true, false) else Some (false, all_zeros)) all_zeros;
    if negb all_zeros then Some (true, all_zeros) else Some (false, all_zeros)) true.

(** Copying one tile to a write pointer. *)
Definition copy_tile (kernel : list Z) (tile_index : Z) (dst : list Z * Z) : option (list Z * Z) :=
  for_up 0 SA_SIZE (fun ii dst =>
    for_up 0 MAX_W_COL (fun jj '(new_kernel, p) =>
      v ← aget kernel (tile_index + ii * MAX_W_COL + jj);
      new_kernel ← aset new_kernel p v;
      Some (new_kernel, p + 1)) dst) dst.

(** ** Random sparse kernels

    [rand] is the stream of results of the C library function. *)
Definition fill_sparse_kernel (rand : nat -> Z) (RAND_MAX : Z) (kernel_size : Z) (kernel : list Z)
  : option (list Z) :=
  '(kernel, _) ← for_up 0 kernel_size (fun i '(kernel, p) =>
    if WEIGHT_FP then
      let r := f32_sub (f32_div (f32_of_Z (rand p)) (f32_of_Z (RAND_MAX / 4))) (f32_of_Z 2) in
      let r := if negb (Z.rem (rand (S p)) 20 =? 0) then f32_of_bits 0 else r in
      kernel ← aset kernel i (bits_of_f32 r);
      Some (kernel, S (S p))
    else
      '(result, p) ← for_up 0 W_PER_BUS (fun j '(result, p) =>
        let value := Z.rem (rand p) 5 - 2 in
        let value := if negb (Z.rem (rand (S p)) 20 =? 0) then 0 else value in
        Some (Z.lor result (uint32 (Z.shiftl (weight_t value) (WEIGHT_BITS * j))), S (S p))) (0, p);
      kernel ← aset kernel i result;
      Some (kernel, p)) (kernel, O);
  Some kernel.

(** ** Compressed sparse rows and columns of tiles *)

Definition dense2csr (kernel : list Z) (n_row n_col : Z) (col_ptr row_ptr values : list Z)
  : option (Z * list Z * list Z * list Z) :=
  row_ptr ← aset row_ptr 0 0;
  for_up 0 (n_row / SA_SIZE) (fun i '(nnz, col_ptr, row_ptr, values) =>
    '(nnz, col_ptr, values) ← for_up 0 (n_col / MAX_W_COL) (fun j '(nnz, col_ptr, values) =>
      let tile_index := (j * (n_row / SA_SIZE) + i) * SA_SIZE * MAX_W_COL in
      all_zeros ← scan_tile kernel tile_index;
      if negb all_zeros then
        col_ptr ← aset col_ptr nnz j;
        values ← aset values nnz tile_index;
        Some (nnz + 1, col_ptr, values)
      else Some (nnz, col_ptr, values)) (nnz, col_ptr, values);
    row_ptr ← aset row_ptr (i + 1) nnz;
    Some (nnz, col_ptr, row_ptr, values)) (0, col_ptr, row_ptr, values).

Definition dense2csc (kernel : list Z) (n_row n_col : Z) (col_ptr row_ind values : list Z)
  : option (Z * list Z * list Z * list Z) :=
  col_ptr ← aset col_ptr 0 0;
  for_up 0 (n_col / MAX_W_COL) (fun i '(nnz, col_ptr, row_ind, values) =>
    '(nnz, row_ind, values) ← for_up 0 (n_row / SA_SIZE) (fun j '(nnz, row_ind, values) =>
      let tile_index := (i * (n_row / SA_SIZE) + j) * SA_SIZE * MAX_W_COL in
      all_zeros ← scan_tile kernel tile_index;
      if negb all_zeros then
        row_ind ← aset row_ind nnz j;
        values ← aset values nnz tile_index;
        Some (nnz + 1, row_ind, values)
      else Some (nnz, row_ind, values)) (nnz, row_ind, values);
    col_ptr ← aset col_ptr (i + 1) nnz;
    Some (nnz, col_ptr, row_ind, values)) (0, col_ptr, row_ind, values).

(** ** Two-level metadata *)

Definition dense2metaData (kernel : list Z) (n_row n_col : Z) (m1 m2 : list Z)
  : option (list Z * list Z * list Z) :=
  let new_kernel := zeros (n_row * n_col) in
  '(new_kernel, _, m1, m2, _) ← for_up 0 (n_col / MAX_W_COL)
    (fun j '(new_kernel, p, m1, m2, m2StartIndex) =>
      '(new_kernel, p, m2, columnAllZeros) ← for_up 0 (n_row / SA_SIZE)
        (fun i '(new_kernel, p, m2, columnAllZeros) =>
          let tile_index := (j * (n_row / SA_SIZE) + i) * SA_SIZE * MAX_W_COL in
          tileAllZeros ← scan_tile kernel tile_index;
          m2 ← aset m2 (m2StartIndex + i) (if negb tileAllZeros then 1 else 0);
          if negb tileAllZeros then
            '(new_kernel, p) ← copy_tile kernel tile_index (new_kernel, p);
            Some (new_kernel, p, m2, false)
          else Some (new_kernel, p, m2, columnAllZeros)) (new_kernel, p, m2, true);
      if (columnAllZeros : bool) then
        m1 ← aset m1 j 0;
        Some (new_kernel, p, m1, m2, m2StartIndex)
      else
        m1 ← aset m1 j 1;
        Some (new_kernel, p, m1, m2, m2StartIndex + n_row / SA_SIZE))
    (new_kernel, 0, m1, m2, 0);
  Some (new_kernel, m1, m2).

(** ** Interleaved metadata *)

(** The size allocated for the interleaved kernel. *)
Definition interleaved_size (n_row n_col : Z) : Z :=
  uint32 (100 + n_row * n_col + n_row * n_col * MAX_W_COL / (32 * SA_SIZE * SA_SIZE)
          + n_col * MAX_W_COL / SA_SIZE).

Definition dense2interleavedMetaData (kernel : list Z) (n_row n_col : Z) : option (list Z) :=
  let BLOCK_SIZE := n_row / SA_SIZE in
  let new_kernel := zeros (interleaved_size n_row n_col) in
  let metadata_block_size := (BLOCK_SIZE + 32 - 1) / 32 in
  '(new_kernel, _) ← for_up 0 (n_col / MAX_W_COL) (fun j '(new_kernel, p) =>
    let offset_to_next_block := p in
    let metadata := p + 1 in
    let p := metadata + metadata_block_size in
    let values_start := metadata + metadata_block_size in
    '(new_kernel, p, _, _) ← for_up 0 (n_row / SA_SIZE) (fun i '(new_kernel, p, metadata, counter32) =>
      let tile_index := (j * (n_row / SA_SIZE) + i) * SA_SIZE * MAX_W_COL in
      tileAllZeros ← scan_tile kernel tile_index;
      '(new_kernel, p) ←
        (if negb tileAllZeros then
           '(new_kernel, p) ← copy_tile kernel tile_index (new_kernel, p);
           md ← aget new_kernel metadata;
           new_kernel ← aset new_kernel metadata (Z.lor md (uint32 (Z.shiftl 1 counter32)));
           Some (new_kernel, p)
         else Some (new_kernel, p));
      let counter32 := counter32 + 1 in
      if counter32 =? 32 then
        let metadata := metadata + 1 in
        new_kernel ← (if metadata <? values_start then aset new_kernel metadata 0 else Some new_kernel);
        Some (new_kernel, p, metadata, 0)
      else Some (new_kernel, p, metadata, counter32)) (new_kernel, p, metadata, 0);
    new_kernel ← aset new_kernel offset_to_next_block (uint32 (p - offset_to_next_block));
    Some (new_kernel, p)) (new_kernel, 0);
  Some new_kernel.

(** ** Zero-free kernels *)

Definition remove_zero_tiles (kernel : list Z) (n_row n_col : Z) : option (list Z) :=
  let new_kernel := zeros (n_row * n_col) in
  '(new_kernel, _, counter) ← for_up 0 (n_row / KERNEL_DIM) (fun i st =>
    for_up 0 (n_col / MAX_W_COL) (fun j '(new_kernel, p, counter) =>
      let tile_index := (i * (n_col / MAX_W_COL) + j) * KERNEL_DIM * MAX_W_COL in
      all_zeros ← scan_tile kernel tile_index;
      if negb all_zeros then
        '(new_kernel, p) ← copy_tile kernel tile_index (new_kernel, p);
        Some (new_kernel, p, counter)
      else Some (new_kernel, p, counter + 1)) st) (new_kernel, 0, 0);
  Some new_kernel.

Definition interleave_hidden_flag_zero_free (kernel : list Z) (n_row n_col hidden_flag : Z)
  : option (list Z) :=
  let new_kernel := zeros (n_row * n_col) in
  '(new_kernel, _, counter) ← for_up 0 (n_row / SA_SIZE) (fun i st =>
    for_up 0 (n_col / MAX_W_COL) (fun j '(new_kernel, p, counter) =>
      let tile_index := (i * (n_col / MAX_W_COL) + j) * SA_SIZE * MAX_W_COL in
      all_zeros ← scan_tile kernel tile_index;
      if negb all_zeros then
        '(new_kernel, p) ← copy_tile kernel tile_index (new_kernel, p);
        Some (new_kernel, p, counter)
      else
        new_kernel ← aset new_kernel p hidden_flag;
        Some (new_kernel, p + 1, counter + 1)) st) (new_kernel, 0, 0);
  Some new_kernel.

(** ** Layout functions of [debuggerFunctions.cc] *)

Definition blockWise2RowWise (blockWise : list Z) (n_row n_col : Z) (rowWise : list Z) : option (list Z) :=
  '(rowWise, _) ← for_up 0 (n_col / MAX_W_COL) (fun col '(rowWise, bp) =>
    let rp := col * MAX_W_COL in
    '(rowWise, bp, _) ← for_up 0 n_row (fun row '(rowWise, bp, rp) =>
      rowWise ← for_up 0 MAX_W_COL (fun i rowWise =>
        v ← aget blockWise (bp + i);
        aset rowWise (rp + i) v) rowWise;
      Some (rowWise, bp + MAX_W_COL, rp + n_col)) (rowWise, bp, rp);
    Some (rowWise, bp)) (rowWise, 0);
  Some rowWise.

Definition rowWise2BlockWise (rowWise : list Z) (n_row n_col : Z) (blockWise : list Z) : option (list Z) :=
  '(blockWise, _) ← for_up 0 (n_col / MAX_W_COL) (fun col '(blockWise, bp) =>
    let rp := col * MAX_W_COL in
    '(blockWise, bp, _) ← for_up 0 n_row (fun row '(blockWise, bp, rp) =>
      blockWise ← for_up 0 MAX_W_COL (fun i blockWise =>
        v ← aget rowWise (rp + i);
        aset blockWise (bp + i) v) blockWise;
      Some (blockWise, bp + MAX_W_COL, rp + n_col)) (blockWise, bp, rp);
    Some (blockWise, bp)) (blockWise, 0);
  Some blockWise.

(** The in-place variant compares integers even for floating-point weights. *)
Definition scan_tile_int (kernel : list Z) (tile_index : Z) : option bool :=
  for_break 0 SA_SIZE (fun ii all_zeros =>
    all_zeros ← for_break 0 MAX_W_COL (fun jj (all_zeros : bool) =>
      value ← aget kernel (tile_index + ii * MAX_W_COL + jj);
      if negb (value =? 0) then Some (true, false) else Some (false, all_zeros)) all_zeros;
    if negb all_zeros then Some (true, all_zeros) else Some (false, all_zeros)) true.

Definition interleave_hidden_flag (n_row n_col hidden_flag : Z) (kernel : list Z) : option (list Z) :=
  for_up 0 (n_row / SA_SIZE) (fun i kernel =>
    for_up 0 (n_col / MAX_W_COL) (fun j kernel =>
      let tile_index := (i * (n_col / MAX_W_COL) + j) * SA_SIZE * MAX_W_COL in
      all_zeros ← scan_tile_int kernel tile_index;
      if (all_zeros : bool) then aset kernel tile_index hidden_flag else Some kernel) kernel) kernel.
End SparseRep.
