(* ===== verification/SparseSpec.v ===== *)
(** * SparseSpec: reference semantics of the sparse formats

    Tiles of a kernel are numbered column by column: tile [g] of a kernel with
    [R] tile rows is in tile row [g mod R] and tile column [g / R] and starts at
    word [g * TILE].  The reference semantics of every sparse product is
    [sparse_ref]: run the non-zero tiles in that order, straight from the dense
    kernel.  This file has the specifications of the two building blocks of the
    encoders (scanning and copying a tile) and the counting of non-zero tiles. *)

From stdpp Require Import prelude.
From Stdlib Require Import ZArith Lia.
From S2P Require Import Prelude Machine Float32 Accelerator SmmGem SparseMM SparseRep.

(** ** Counting *)

(** The number of [g' < g] with [nz g']. *)
Fixpoint cnt_n (nz : Z -> bool) (n : nat) : Z :=
  match n with O => 0 | S n' => cnt_n nz n' + (if nz (Z.of_nat n') then 1 else 0) end.
Definition cnt (nz : Z -> bool) (g : Z) : Z := cnt_n nz (Z.to_nat g).

Section Count.
Variable nz : Z -> bool.

Lemma cnt_0 : cnt nz 0 = 0.
Proof. done. Qed.

Lemma cnt_succ g : 0 <= g -> cnt nz (g + 1) = cnt nz g + (if nz g then 1 else 0).
Proof.
  intros. unfold cnt. replace (Z.to_nat (g + 1)) with (S (Z.to_nat g)) by lia. simpl.
  by rewrite Z2Nat.id.
Qed.

Lemma cnt_mono g h : 0 <= g <= h -> cnt nz g <= cnt nz h.
Proof.
  intros [Hg Hh]. revert h Hh. apply Zup_ind; [lia|]. intros h Hh IH.
  rewrite cnt_succ by lia. destruct (nz h); lia.
Qed.

Lemma cnt_bounds g : 0 <= g -> 0 <= cnt nz g <= g.
Proof.
  intros Hg. pattern g. apply natlike_ind; [by rewrite cnt_0| |done].
  intros h Hh IH. replace (Z.succ h) with (h + 1) by lia. rewrite cnt_succ by lia.
  destruct (nz h); lia.
Qed.

Lemma cnt_lt g h : 0 <= g < h -> nz g = true -> cnt nz g < cnt nz h.
Proof.
  intros Hg Hz. assert (cnt nz (g + 1) <= cnt nz h) as H by (apply cnt_mono; lia).
  rewrite cnt_succ, Hz in H by lia. lia.
Qed.

Lemma cnt_flat g h :
  0 <= g <= h -> (forall k, g <= k < h -> nz k = false) -> cnt nz h = cnt nz g.
Proof.
  intros [Hg Hh]. revert h Hh. refine (Zup_ind _ _ _ _); [done|]. intros h Hh IH Hz.
  rewrite cnt_succ, Hz, IH by (lia || (intros; apply Hz; lia)). lia.
Qed.

(** Distinct non-zero tiles get distinct slots. *)
Lemma cnt_slot_disjoint g h T k k' :
  0 <= g -> 0 <= h -> nz g = true -> nz h = true -> g <> h ->
  0 <= k < T -> 0 <= k' < T -> cnt nz g * T + k <> cnt nz h * T + k'.
Proof.
  intros Hg Hh Zg Zh Hne Hk Hk'. assert (g < h \/ h < g) as [H|H] by lia.
  - pose proof (cnt_lt g h ltac:(lia) Zg). nia.
  - pose proof (cnt_lt h g ltac:(lia) Zh). nia.
Qed.
End Count.

Section Spec.
Context {cfg : Config}.

(** ** Non-zero tiles *)

Definition tile_nz (kernel : list Z) (ti : Z) : bool :=
  existsb (fun k => word_nonzero kernel.[ti + Z.of_nat k]) (seq 0 (Z.to_nat TILE)).

(** Tile [g] of the kernel is not all zeros. *)
Definition nz_tile (kernel : list Z) (g : Z) : bool := tile_nz kernel (g * TILE).

(** The reference: the non-zero tiles, column by column, from the dense kernel. *)
Definition sparse_ref {S} {A : Accelerator S} (m : SparseMatrixMultiplier) (input kernel : list Z)
    (st : S * list Z) : option (S * list Z) :=
  for_up 0 (tiles_in_col m * tiles_in_row m) (fun g st =>
    if nz_tile kernel g
    then processMultiplication m input (g mod tiles_in_row m) (g / tiles_in_row m) kernel (g * TILE) st
    else Some st) st.

(** The same tiles row by row, the order of the CSR format. *)
Definition sparse_ref_rows {S} {A : Accelerator S} (m : SparseMatrixMultiplier) (input kernel : list Z)
    (st : S * list Z) : option (S * list Z) :=
  for_up 0 (tiles_in_row m) (fun i st => for_up 0 (tiles_in_col m) (fun j st =>
    let g := j * tiles_in_row m + i in
    if nz_tile kernel g
    then processMultiplication m input i j kernel (g * TILE) st
    else Some st) st) st.

(** [fits m n_row n_col kernel]: the kernel is an [n_row] by [n_col]-word matrix
    and these are the sizes the multiplier was built with. *)
Record fits (m : SparseMatrixMultiplier) (n_row n_col : Z) (kernel : list Z) : Prop := {
  fits_rows : input_size_ m = n_row;
  fits_cols : output_size_ m = n_col * W_PER_BUS;
  fits_row_pos : 0 <= n_row;
  fits_col_pos : 0 <= n_col;
  fits_len : zlen kernel = n_row * n_col
}.
End Spec.

Section SpecProofs.
Context {cfg : Config} {wf : WfConfig cfg}.

Lemma TILE_pos : 0 < TILE.
Proof. unfold TILE. geometry. nia. Qed.

Lemma tile_nz_false kernel ti :
  tile_nz kernel ti = false <-> forall k, 0 <= k < TILE -> word_nonzero kernel.[ti + k] = false.
Proof.
  unfold tile_nz. split.
  - intros H k Hk. destruct (word_nonzero kernel.[ti + k]) eqn:E; [|done].
    assert (existsb (fun k => word_nonzero kernel.[ti + Z.of_nat k]) (seq 0 (Z.to_nat TILE)) = true) as Ht.
    { apply existsb_exists. exists (Z.to_nat k). split; [apply in_seq; lia|]. by rewrite Z2Nat.id by lia. }
    congruence.
  - intros H. destruct (existsb _ _) eqn:E; [|done].
    apply existsb_exists in E as (k & Hk%in_seq & Hw). rewrite H in Hw by lia. done.
Qed.

Lemma tile_nz_true kernel ti :
  tile_nz kernel ti = true -> exists k, 0 <= k < TILE /\ word_nonzero kernel.[ti + k] = true.
Proof.
  unfold tile_nz. intros (k & Hk%in_seq & Hw)%existsb_exists. exists (Z.of_nat k). split; [lia|done].
Qed.

(** The scan computes [all_zeros] and never leaves the tile. *)
Lemma scan_tile_spec kernel ti :
  0 <= ti -> ti + TILE <= zlen kernel -> scan_tile kernel ti = Some (negb (tile_nz kernel ti)).
Proof.
  intros H0 H1. unfold TILE in H1. geometry. unfold KERNEL_DIM in *. apply wp_eq. unfold scan_tile.
  apply (wp_for_break (fun ii b => b = true /\
    forall k, 0 <= k < ii * MAX_W_COL -> word_nonzero kernel.[ti + k] = false)).
  - lia.
  - split; [done|]. intros; lia.
  - intros ii b Hi [-> Hz]. apply wp_bind.
    apply (wp_for_break (fun jj b => b = true /\
      forall k, 0 <= k < ii * MAX_W_COL + jj -> word_nonzero kernel.[ti + k] = false)).
    + lia.
    + split; [done|]. intros. apply Hz. lia.
    + intros jj b Hj [-> Hz2]. apply wp_bind, wp_aget; [nia|].
      destruct (word_nonzero kernel.[ti + ii * MAX_W_COL + jj]) eqn:E.
      * apply wp_ret. simpl. symmetry. destruct (tile_nz kernel ti) eqn:En; [done|].
        rewrite tile_nz_false in En. rewrite <- Z.add_assoc, En in E; [done|]. unfold TILE, KERNEL_DIM. nia.
      * apply wp_ret. split; [done|]. intros k Hk.
        destruct (Z.eq_dec k (ii * MAX_W_COL + jj)) as [->|]; [by rewrite Z.add_assoc|].
        apply Hz2. lia.
    + intros b [-> Hz2]. simpl. split; [done|]. intros. apply Hz2. lia.
  - intros b [-> Hz]. destruct (tile_nz kernel ti) eqn:E; [|done]. exfalso.
    apply tile_nz_true in E as (k & Hk & Hw). rewrite Hz in Hw; [done|]. by unfold TILE, KERNEL_DIM in Hk.
Qed.

(** Copying a tile writes exactly its slot. *)
Lemma wp_copy_tile kernel ti dst p (Q : list Z * Z -> Prop) :
  0 <= ti -> ti + TILE <= zlen kernel -> 0 <= p -> p + TILE <= zlen dst ->
  (forall dst', zlen dst' = zlen dst ->
     (forall i, dst'.[i] = if (p <=? i) && (i <? p + TILE) then kernel.[ti + (i - p)] else dst.[i]) ->
     Q (dst', p + TILE)) ->
  wp (copy_tile kernel ti (dst, p)) Q.
Proof.
  intros H0 H1 H2 H3 HQ. unfold TILE in *. geometry. unfold KERNEL_DIM in *. unfold copy_tile.
  apply (wp_for_up (fun ii '(d, p') => p' = p + ii * MAX_W_COL /\ zlen d = zlen dst /\
    forall i, d.[i] = if (p <=? i) && (i <? p') then kernel.[ti + (i - p)] else dst.[i])).
  - lia.
  - split; [lia|]. split; [done|]. intros. zcases; simpl; try done; lia.
  - intros ii [d p'] Hi (-> & Hl & Hd).
    apply (wp_for_up (fun jj '(d, p') => p' = p + ii * MAX_W_COL + jj /\ zlen d = zlen dst /\
      forall i, d.[i] = if (p <=? i) && (i <? p') then kernel.[ti + (i - p)] else dst.[i])).
    + lia.
    + split; [lia|]. split; [done|]. done.
    + intros jj [d2 p2] Hj (-> & Hl2 & Hd2). apply wp_bind, wp_aget; [nia|].
      apply wp_bind, wp_aset; [nia|]. intros d3 Hl3 Hd3. apply wp_ret.
      split; [lia|]. split; [lia|]. intros i. rewrite Hd3, Hd2.
      zcases; simpl; try done; try (exfalso; nia). subst i. f_equal. lia.
    + intros [d2 p2] (-> & Hl2 & Hd2). split; [lia|done].
  - intros [d p'] (-> & Hl & Hd). by apply HQ.
Qed.

(** ** Products depend on the words of the tile only *)

Lemma processMultiplication_values {S} {A : Accelerator S} m input row col v1 p1 v2 p2 (st : S * list Z) :
  (forall k, 0 <= k < TILE -> aget v1 (p1 + k) = aget v2 (p2 + k)) ->
  processMultiplication m input row col v1 p1 st = processMultiplication m input row col v2 p2 st.
Proof.
  intros H. unfold processMultiplication. destruct st as [s out]. f_equal.
  apply for_up_ext. intros k s' Hk. by rewrite H.
Qed.

(** ** Sizes *)

Section Fits.
Context (m : SparseMatrixMultiplier) (n_row n_col : Z) (kernel : list Z).
Hypothesis Hfit : fits m n_row n_col kernel.

Lemma fits_R : tiles_in_row m = n_row / SA_SIZE.
Proof. unfold tiles_in_row, KERNEL_DIM. by rewrite (fits_rows _ _ _ _ Hfit). Qed.

Lemma fits_C : tiles_in_col m = n_col / MAX_W_COL.
Proof.
  unfold tiles_in_col. rewrite (fits_cols _ _ _ _ Hfit). pose proof max_w_col_spec as HM. geometry.
  rewrite HM, Z.div_mul_cancel_r by lia. done.
Qed.

Lemma fits_R_nonneg : 0 <= tiles_in_row m.
Proof. rewrite fits_R. pose proof (fits_row_pos _ _ _ _ Hfit). pose proof wf_size. apply Z.div_pos; lia. Qed.

Lemma fits_C_nonneg : 0 <= tiles_in_col m.
Proof. rewrite fits_C. pose proof (fits_col_pos _ _ _ _ Hfit). geometry. apply Z.div_pos; lia. Qed.

Lemma fits_tiles : tiles_in_col m * tiles_in_row m * TILE <= n_row * n_col.
Proof.
  pose proof fits_R_nonneg. pose proof fits_C_nonneg. rewrite fits_R, fits_C in *. unfold TILE, KERNEL_DIM.
  pose proof (fits_row_pos _ _ _ _ Hfit). pose proof (fits_col_pos _ _ _ _ Hfit).
  geometry. assert (SA_SIZE * (n_row / SA_SIZE) <= n_row) by (apply Z.mul_div_le; unfold KERNEL_DIM in *; lia).
  assert (MAX_W_COL * (n_col / MAX_W_COL) <= n_col) by (by apply Z.mul_div_le).
  unfold KERNEL_DIM in *.
  set (a := n_row / SA_SIZE) in *. set (b := n_col / MAX_W_COL) in *.
  assert ((SA_SIZE * a) * (MAX_W_COL * b) <= n_row * n_col) by (apply Z.mul_le_mono_nonneg; nia). lia.
Qed.

Lemma fits_tile_bounds g :
  0 <= g < tiles_in_col m * tiles_in_row m -> 0 <= g * TILE /\ g * TILE + TILE <= zlen kernel.
Proof.
  intros Hg. pose proof fits_tiles. pose proof TILE_pos. rewrite (fits_len _ _ _ _ Hfit). nia.
Qed.

Lemma fits_scan g :
  0 <= g < tiles_in_col m * tiles_in_row m ->
  scan_tile kernel (g * TILE) = Some (negb (nz_tile kernel g)).
Proof. intros Hg. destruct (fits_tile_bounds g Hg). by apply scan_tile_spec. Qed.
End Fits.
End SpecProofs.
