(* ===== verification/SparseEncode.v ===== *)
(** * SparseEncode: what the encoders build

    Specifications of the encoders of [sparse_rep.cc]: each returns (no access
    out of range, whatever the kernel holds) and the arrays it fills are
    described in terms of the non-zero tiles of the dense kernel. *)

From stdpp Require Import prelude.
From Stdlib Require Import ZArith Lia.
From S2P Require Import Prelude Machine Float32 Accelerator SmmGem SparseMM SparseRep SparseSpec.

Section Encode.
Context {cfg : Config} {wf : WfConfig cfg}.
Context (m : SparseMatrixMultiplier) (n_row n_col : Z) (kernel : list Z).
Hypothesis Hfit : fits m n_row n_col kernel.

Abbreviation R := (tiles_in_row m).
Abbreviation C := (tiles_in_col m).
Abbreviation nz := (nz_tile kernel).

Lemma tile_index_sa g : g * SA_SIZE * MAX_W_COL = g * TILE.
Proof. unfold TILE, KERNEL_DIM. lia. Qed.

Lemma tile_index_kd g : g * KERNEL_DIM * MAX_W_COL = g * TILE.
Proof. unfold TILE. lia. Qed.

(** ** Tiles placed in slots

    [placed slot N buf]: the non-zero tiles below [N] are in [buf], tile [g] at
    [slot g]. *)

Definition placed (slot : Z -> Z) (N : Z) (buf : list Z) : Prop :=
  forall g k, 0 <= g < N -> nz g = true -> 0 <= k < TILE -> buf.[slot g + k] = kernel.[g * TILE + k].

Definition spaced (slot : Z -> Z) : Prop :=
  forall g h, 0 <= g < h -> nz g = true -> slot g + TILE <= slot h.

Lemma placed_0 slot buf : placed slot 0 buf.
Proof. intros g k Hg. lia. Qed.

(** Writes at or above the next slot keep what is placed. *)
Lemma placed_frame slot N buf buf' :
  spaced slot -> placed slot N buf -> (forall i, i < slot N -> buf'.[i] = buf.[i]) -> placed slot N buf'.
Proof.
  intros Hs Hp Hb g k Hg Hz Hk. rewrite Hb; [by apply Hp|]. specialize (Hs g N Hg Hz). lia.
Qed.

Lemma placed_skip slot N buf : placed slot N buf -> nz N = false -> placed slot (N + 1) buf.
Proof.
  intros Hp Hz g k Hg Hg' Hk. destruct (Z.eq_dec g N) as [->|]; [congruence|]. apply Hp; [lia|done|done].
Qed.

Lemma placed_copy slot N buf buf' :
  spaced slot -> placed slot N buf ->
  (forall i, buf'.[i] = if (slot N <=? i) && (i <? slot N + TILE) then kernel.[N * TILE + (i - slot N)] else buf.[i]) ->
  placed slot (N + 1) buf'.
Proof.
  intros Hs Hp Hb g k Hg Hz Hk. destruct (Z.eq_dec g N) as [->|].
  - rewrite Hb. zcases; try lia. simpl. f_equal. lia.
  - apply (placed_frame slot N buf buf' Hs Hp); [|lia|done|done].
    intros i Hi. rewrite Hb. zcases; try lia; done.
Qed.

(** ** Compact slots *)

Definition cslot (g : Z) : Z := cnt nz g * TILE.

Lemma cslot_spaced : spaced cslot.
Proof. intros g h Hg Hz. pose proof (cnt_lt nz g h Hg Hz). pose proof TILE_pos. unfold cslot. nia. Qed.

Lemma cslot_succ g : 0 <= g -> cslot (g + 1) = cslot g + (if nz g then TILE else 0).
Proof. intros. unfold cslot. rewrite cnt_succ by done. destruct (nz g); lia. Qed.

Lemma cslot_le g : 0 <= g -> 0 <= cslot g <= g * TILE.
Proof. intros. pose proof (cnt_bounds nz g ltac:(done)). pose proof TILE_pos. unfold cslot. nia. Qed.

Lemma cslot_bounds g : 0 <= g < C * R -> 0 <= cslot g /\ cslot g + TILE <= n_row * n_col.
Proof.
  intros Hg. destruct (fits_tile_bounds _ _ _ _ Hfit g Hg) as [_ H].
  rewrite (fits_len _ _ _ _ Hfit) in H. pose proof (cslot_le g ltac:(lia)). lia.
Qed.

(** The loops of the zero-free encoders, flattened. *)
Lemma encoder_nest {X} (b : Z -> X -> option X) (x : X) :
  for_up 0 (n_row / SA_SIZE) (fun i x => for_up 0 (n_col / MAX_W_COL) (fun j =>
    b ((i * (n_col / MAX_W_COL) + j) * SA_SIZE * MAX_W_COL)) x) x =
  for_up 0 (C * R) (fun g => b (g * TILE)) x.
Proof.
  rewrite <- (fits_R _ _ _ _ Hfit), <- (fits_C _ _ _ _ Hfit).
  pose proof (fits_R_nonneg _ _ _ _ Hfit). pose proof (fits_C_nonneg _ _ _ _ Hfit).
  rewrite (for_up_nest R C (fun i j => b ((i * C + j) * SA_SIZE * MAX_W_COL))), Z.mul_comm by done.
  apply for_up_ext. intros g x' Hg. f_equal. rewrite tile_index_sa. f_equal.
  destruct (Z.eq_dec C 0) as [E|]; [rewrite E, Z.mul_0_l in Hg; lia|].
  rewrite (Z.div_mod g C) at 3 by done. lia.
Qed.

(** [remove_zero_tiles] places the non-zero tiles one after the other. *)
Lemma wp_remove_zero_tiles (Q : list Z -> Prop) :
  (forall nk, zlen nk = n_row * n_col -> placed cslot (C * R) nk -> Q nk) ->
  wp (remove_zero_tiles kernel n_row n_col) Q.
Proof.
  intros HQ. unfold remove_zero_tiles. apply wp_bind.
  pose proof (fits_R_nonneg _ _ _ _ Hfit). pose proof (fits_C_nonneg _ _ _ _ Hfit).
  pose proof (fits_row_pos _ _ _ _ Hfit). pose proof (fits_col_pos _ _ _ _ Hfit).
  change KERNEL_DIM with SA_SIZE.
  rewrite (encoder_nest (fun ti '(new_kernel, p, counter) =>
      all_zeros ← scan_tile kernel ti;
      if negb all_zeros then
        '(new_kernel, p) ← copy_tile kernel ti (new_kernel, p);
        Some (new_kernel, p, counter)
      else Some (new_kernel, p, counter + 1))).
  apply (wp_for_up (fun g '(nk, p, _) => p = cslot g /\ zlen nk = n_row * n_col /\ placed cslot g nk)).
  - nia.
  - split; [done|]. split; [apply zlen_zeros; nia|apply placed_0].
  - intros g [[nk p] c] Hg (-> & Hl & Hp). rewrite (fits_scan _ _ _ _ Hfit) by done. simpl.
    destruct (fits_tile_bounds _ _ _ _ Hfit g Hg). destruct (cslot_bounds g Hg).
    rewrite cslot_succ by lia. destruct (nz g) eqn:Ez; simpl.
    + apply wp_bind, wp_copy_tile; try lia. intros nk' Hl' Hn'. apply wp_ret.
      split; [done|]. split; [lia|]. by apply (placed_copy _ _ nk nk' cslot_spaced).
    + split; [lia|]. split; [done|]. by apply placed_skip.
  - intros [[nk p] c] (_ & Hl & Hp). by apply HQ.
Qed.

(** ** Slots with an inlined flag for zero tiles *)

Definition hslot (g : Z) : Z := cnt nz g * TILE + (g - cnt nz g).

Lemma hslot_succ g : 0 <= g -> hslot (g + 1) = hslot g + (if nz g then TILE else 1).
Proof. intros. unfold hslot. rewrite cnt_succ by done. destruct (nz g); lia. Qed.

Lemma hslot_mono g h : 0 <= g <= h -> hslot g <= hslot h.
Proof.
  intros [Hg Hh]. revert h Hh. apply Zup_ind; [lia|]. intros h Hh IH. rewrite hslot_succ by lia.
  pose proof TILE_pos. destruct (nz h); lia.
Qed.

Lemma hslot_spaced : spaced hslot.
Proof.
  intros g h Hg Hz. assert (hslot (g + 1) <= hslot h) as H by (apply hslot_mono; lia).
  rewrite hslot_succ, Hz in H by lia. done.
Qed.

Lemma hslot_le g : 0 <= g -> 0 <= hslot g <= g * TILE.
Proof. intros. pose proof (cnt_bounds nz g ltac:(done)). pose proof TILE_pos. unfold hslot. nia. Qed.

Lemma hslot_bounds g : 0 <= g < C * R -> 0 <= hslot g /\ hslot g + TILE <= n_row * n_col.
Proof.
  intros Hg. destruct (fits_tile_bounds _ _ _ _ Hfit g Hg) as [_ H].
  rewrite (fits_len _ _ _ _ Hfit) in H. pose proof (hslot_le g ltac:(lia)). lia.
Qed.

(** The zero tiles below [N] are represented by the flag. *)
Definition flagged (flag N : Z) (buf : list Z) : Prop :=
  forall g, 0 <= g < N -> nz g = false -> buf.[hslot g] = flag.

Lemma flagged_frame flag N buf buf' :
  flagged flag N buf -> (forall i, i < hslot N -> buf'.[i] = buf.[i]) -> flagged flag N buf'.
Proof.
  intros Hf Hb g Hg Hz. rewrite Hb; [by apply Hf|].
  assert (hslot (g + 1) <= hslot N) as H by (apply hslot_mono; lia).
  rewrite hslot_succ, Hz in H by lia. lia.
Qed.

Lemma flagged_succ flag N buf :
  flagged flag N buf -> (nz N = false -> buf.[hslot N] = flag) -> flagged flag (N + 1) buf.
Proof. intros Hf HN g Hg Hz. destruct (Z.eq_dec g N) as [->|]; [by apply HN|apply Hf; [lia|done]]. Qed.

Lemma wp_interleave_hidden_flag_zero_free flag (Q : list Z -> Prop) :
  (forall nk, zlen nk = n_row * n_col -> placed hslot (C * R) nk -> flagged flag (C * R) nk -> Q nk) ->
  wp (interleave_hidden_flag_zero_free kernel n_row n_col flag) Q.
Proof.
  intros HQ. unfold interleave_hidden_flag_zero_free. apply wp_bind.
  pose proof (fits_R_nonneg _ _ _ _ Hfit). pose proof (fits_C_nonneg _ _ _ _ Hfit).
  pose proof (fits_row_pos _ _ _ _ Hfit). pose proof (fits_col_pos _ _ _ _ Hfit).
  rewrite (encoder_nest (fun ti '(new_kernel, p, counter) =>
      all_zeros ← scan_tile kernel ti;
      if negb all_zeros then
        '(new_kernel, p) ← copy_tile kernel ti (new_kernel, p);
        Some (new_kernel, p, counter)
      else
        new_kernel ← aset new_kernel p flag;
        Some (new_kernel, p + 1, counter + 1))).
  apply (wp_for_up (fun g '(nk, p, _) =>
    p = hslot g /\ zlen nk = n_row * n_col /\ placed hslot g nk /\ flagged flag g nk)).
  - nia.
  - split; [done|]. split; [apply zlen_zeros; nia|]. split; [apply placed_0|]. intros g Hg. lia.
  - intros g [[nk p] c] Hg (-> & Hl & Hp & Hf). rewrite (fits_scan _ _ _ _ Hfit) by done. simpl.
    destruct (fits_tile_bounds _ _ _ _ Hfit g Hg). destruct (hslot_bounds g Hg). pose proof TILE_pos.
    rewrite hslot_succ by lia. destruct (nz g) eqn:Ez; simpl.
    + apply wp_bind, wp_copy_tile; try lia. intros nk' Hl' Hn'. apply wp_ret.
      split; [done|]. split; [lia|]. split; [by apply (placed_copy _ _ nk nk' hslot_spaced)|].
      apply flagged_succ; [|congruence]. apply (flagged_frame _ _ nk); [done|].
      intros i Hi. rewrite Hn'. zcases; try lia; done.
    + apply wp_bind, wp_aset; [lia|]. intros nk' Hl' Hn'. apply wp_ret.
      split; [done|]. split; [lia|].
      assert (forall i, i < hslot g -> nk'.[i] = nk.[i]) by (intros i Hi; rewrite Hn'; zcases; lia || done).
      split; [apply placed_skip; [|done]; by apply (placed_frame _ _ nk nk' hslot_spaced)|].
      apply flagged_succ; [by apply (flagged_frame _ _ nk)|]. intros _. rewrite Hn'. by rewrite Z.eqb_refl.
  - intros [[nk p] c] (_ & Hl & Hp & Hf). by apply HQ.
Qed.

(** ** Compressed rows and columns

    Both encoders number the tiles in the order they visit them: [tix T] is the
    index of the [T]-th tile visited and [nzf T] says whether it is non-zero;
    lines (rows or columns of tiles) have [len] tiles. *)

Section Compressed.
Context (len n : Z) (tix : Z -> Z) (nzf : Z -> bool).
Hypothesis Hlen : 0 <= len.
Hypothesis Hn : 0 <= n.
Hypothesis Htix : forall T, 0 <= T < n * len -> scan_tile kernel (tix T) = Some (negb (nzf T)).

(** The entries for the tiles below [N]. *)
Definition recorded (N : Z) (ind values : list Z) : Prop :=
  forall T, 0 <= T < N -> nzf T = true ->
    ind.[cnt nzf T] = T mod len /\ values.[cnt nzf T] = tix T.

Lemma recorded_skip N ind values : recorded N ind values -> nzf N = false -> recorded (N + 1) ind values.
Proof.
  intros Hr Hz T HT Hzt. destruct (Z.eq_dec T N) as [->|]; [congruence|]. apply Hr; [lia|done].
Qed.

Lemma recorded_add N j ind values ind' values' :
  recorded N ind values -> j = N mod len ->
  (forall i, ind'.[i] = if i =? cnt nzf N then j else ind.[i]) ->
  (forall i, values'.[i] = if i =? cnt nzf N then tix N else values.[i]) ->
  recorded (N + 1) ind' values'.
Proof.
  intros Hr -> Hi Hv T HT Hz. rewrite Hi, Hv. destruct (Z.eq_dec T N) as [->|]; [by rewrite Z.eqb_refl|].
  assert (cnt nzf T < cnt nzf N) by (apply cnt_lt; [lia|done]).
  zcases; [lia|]. apply Hr; [lia|done].
Qed.

(** The inner loop of both encoders, on line [i]. *)
Lemma wp_compress_line i ind values (Q : Z * list Z * list Z -> Prop) :
  0 <= i < n -> n * len <= zlen ind -> n * len <= zlen values -> recorded (i * len) ind values ->
  (forall ind' values', zlen ind' = zlen ind -> zlen values' = zlen values ->
     recorded ((i + 1) * len) ind' values' -> Q (cnt nzf ((i + 1) * len), ind', values')) ->
  wp (for_up 0 len (fun j '(nnz, ind, values) =>
        all_zeros ← scan_tile kernel (tix (i * len + j));
        if negb all_zeros then
          ind ← aset ind nnz j;
          values ← aset values nnz (tix (i * len + j));
          Some (nnz + 1, ind, values)
        else Some (nnz, ind, values)) (cnt nzf (i * len), ind, values)) Q.
Proof.
  intros Hi Hl1 Hl2 Hr HQ.
  apply (wp_for_up (fun j '(nnz, ind', values') => nnz = cnt nzf (i * len + j) /\
    zlen ind' = zlen ind /\ zlen values' = zlen values /\ recorded (i * len + j) ind' values')).
  - done.
  - by rewrite Z.add_0_r.
  - intros j [[nnz ind1] val1] Hj (-> & Hz1 & Hz2 & Hr1).
    assert (0 <= i * len + j < n * len) as HT by nia.
    rewrite Htix by done. simpl. rewrite !Z.add_assoc, cnt_succ by lia.
    pose proof (cnt_bounds nzf (i * len + j) ltac:(lia)).
    destruct (nzf (i * len + j)) eqn:E; simpl.
    + apply wp_bind, wp_aset; [lia|]. intros ind2 Hz3 Hi2.
      apply wp_bind, wp_aset; [lia|]. intros val2 Hz4 Hv2. apply wp_ret.
      repeat (split; [lia|]). apply (recorded_add _ j ind1 val1); try done.
      rewrite Z.add_comm, Z.mod_add, Z.mod_small by lia. done.
    + split; [lia|]. repeat (split; [done|]). by apply recorded_skip.
  - intros [[nnz ind'] values'] (-> & Hz1 & Hz2 & Hr').
    replace (i * len + len) with ((i + 1) * len) in * by lia. by apply HQ.
Qed.

(** The pointers of the lines up to [i]. *)
Definition pointers (i : Z) (ptr : list Z) : Prop :=
  forall k, 0 <= k <= i -> ptr.[k] = cnt nzf (k * len).

Lemma pointers_add i ptr ptr' :
  0 <= i -> pointers i ptr ->
  (forall k, ptr'.[k] = if k =? i + 1 then cnt nzf ((i + 1) * len) else ptr.[k]) -> pointers (i + 1) ptr'.
Proof. intros Hi Hp Hk k Hkk. rewrite Hk. zcases; [by subst|]. apply Hp. lia. Qed.
End Compressed.

Lemma wp_dense2csc col_ptr row_ind values (Q : Z * list Z * list Z * list Z -> Prop) :
  C + 1 <= zlen col_ptr -> C * R <= zlen row_ind -> C * R <= zlen values ->
  (forall col_ptr' row_ind' values',
     zlen col_ptr' = zlen col_ptr -> zlen row_ind' = zlen row_ind -> zlen values' = zlen values ->
     pointers R nz C col_ptr' ->
     recorded R (fun g => g * TILE) nz (C * R) row_ind' values' ->
     Q (cnt nz (C * R), col_ptr', row_ind', values')) ->
  wp (dense2csc kernel n_row n_col col_ptr row_ind values) Q.
Proof.
  intros H1 H2 H3 HQ. unfold dense2csc.
  pose proof (fits_R_nonneg _ _ _ _ Hfit) as HR. pose proof (fits_C_nonneg _ _ _ _ Hfit) as HC.
  rewrite <- (fits_R _ _ _ _ Hfit), <- (fits_C _ _ _ _ Hfit).
  apply wp_bind, wp_aset; [lia|]. intros cp0 Hl0 Hc0.
  apply (wp_for_up (fun i '(nnz, cp, ri, vs) => nnz = cnt nz (i * R) /\
    zlen cp = zlen col_ptr /\ zlen ri = zlen row_ind /\ zlen vs = zlen values /\
    pointers R nz i cp /\ recorded R (fun g => g * TILE) nz (i * R) ri vs)).
  - done.
  - split; [done|]. split; [done|]. do 2 (split; [done|]). split.
    + intros k Hk. rewrite Hc0. replace k with 0 by lia. done.
    + intros T HT. lia.
  - intros i [[[nnz cp] ri] vs] Hi (-> & Hl1 & Hl2 & Hl3 & Hp & Hr). apply wp_bind.
    rewrite (for_up_ext 0 R _ (fun (j : Z) '((nnz, row_ind, values) : Z * list Z * list Z) =>
      all_zeros ← scan_tile kernel ((i * R + j) * TILE);
      if negb all_zeros then
        row_ind ← aset row_ind nnz j;
        values ← aset values nnz ((i * R + j) * TILE);
        Some (nnz + 1, row_ind, values)
      else Some (nnz, row_ind, values))).
    2:{ intros j [[? ?] ?] Hj. by rewrite tile_index_sa. }
    apply (wp_compress_line R C (fun g => g * TILE) nz HR); try done; try lia.
    + intros T HT. by apply (fits_scan _ _ _ _ Hfit).
    + intros ri' vs' Hz1 Hz2 Hr'.
      apply wp_bind, wp_aset; [lia|]. intros cp' Hz3 Hc'. apply wp_ret.
      split; [done|]. do 3 (split; [lia|]). split; [|done]. by apply (pointers_add R nz i cp); [lia| |].
  - intros [[[nnz cp] ri] vs] (-> & Hl1 & Hl2 & Hl3 & Hp & Hr). by apply HQ.
Qed.

(** Row by row, the [T]-th tile is tile [by_rows T] of the kernel. *)
Definition by_rows (T : Z) : Z := T mod C * R + T / C.

Lemma by_rows_idx i j : 0 <= j < C -> by_rows (i * C + j) = j * R + i.
Proof.
  intros. unfold by_rows.
  rewrite !(Z.add_comm (i * C) j), Z.mod_add, Z.mod_small, Z.div_add, Z.div_small by lia. lia.
Qed.

Lemma by_rows_bounds T : 0 <= T < R * C -> 0 <= by_rows T < C * R.
Proof.
  intros HT. pose proof (fits_C_nonneg _ _ _ _ Hfit) as HC.
  destruct (Z.eq_dec C 0) as [E|]; [rewrite E, Z.mul_0_r in HT; lia|].
  unfold by_rows. assert (0 <= T mod C < C) by (apply Z.mod_pos_bound; lia).
  assert (0 <= T / C < R) by (split; [apply Z.div_pos; lia|apply Z.div_lt_upper_bound; lia]). nia.
Qed.

Definition nz_rows (T : Z) : bool := nz (by_rows T).

Lemma wp_dense2csr col_ptr row_ptr values (Q : Z * list Z * list Z * list Z -> Prop) :
  R + 1 <= zlen row_ptr -> R * C <= zlen col_ptr -> R * C <= zlen values ->
  (forall col_ptr' row_ptr' values',
     zlen col_ptr' = zlen col_ptr -> zlen row_ptr' = zlen row_ptr -> zlen values' = zlen values ->
     pointers C nz_rows R row_ptr' ->
     recorded C (fun T => by_rows T * TILE) nz_rows (R * C) col_ptr' values' ->
     Q (cnt nz_rows (R * C), col_ptr', row_ptr', values')) ->
  wp (dense2csr kernel n_row n_col col_ptr row_ptr values) Q.
Proof.
  intros H1 H2 H3 HQ. unfold dense2csr.
  pose proof (fits_R_nonneg _ _ _ _ Hfit) as HR. pose proof (fits_C_nonneg _ _ _ _ Hfit) as HC.
  rewrite <- (fits_R _ _ _ _ Hfit), <- (fits_C _ _ _ _ Hfit).
  apply wp_bind, wp_aset; [lia|]. intros rp0 Hl0 Hc0.
  apply (wp_for_up (fun i '(nnz, ci, rp, vs) => nnz = cnt nz_rows (i * C) /\
    zlen ci = zlen col_ptr /\ zlen rp = zlen row_ptr /\ zlen vs = zlen values /\
    pointers C nz_rows i rp /\ recorded C (fun T => by_rows T * TILE) nz_rows (i * C) ci vs)).
  - done.
  - split; [done|]. do 3 (split; [done|]). split.
    + intros k Hk. rewrite Hc0. replace k with 0 by lia. done.
    + intros T HT. lia.
  - intros i [[[nnz ci] rp] vs] Hi (-> & Hl1 & Hl2 & Hl3 & Hp & Hr). apply wp_bind.
    rewrite (for_up_ext 0 C _ (fun (j : Z) '((nnz, col_ptr, values) : Z * list Z * list Z) =>
      all_zeros ← scan_tile kernel (by_rows (i * C + j) * TILE);
      if negb all_zeros then
        col_ptr ← aset col_ptr nnz j;
        values ← aset values nnz (by_rows (i * C + j) * TILE);
        Some (nnz + 1, col_ptr, values)
      else Some (nnz, col_ptr, values))).
    2:{ intros j [[? ?] ?] Hj. by rewrite by_rows_idx, tile_index_sa. }
    apply (wp_compress_line C R (fun T => by_rows T * TILE) nz_rows HC); try done; try lia.
    + intros T HT. apply (fits_scan _ _ _ _ Hfit). by apply by_rows_bounds.
    + intros ci' vs' Hz1 Hz2 Hr'.
      apply wp_bind, wp_aset; [lia|]. intros rp' Hz3 Hc'. apply wp_ret.
      split; [done|]. do 3 (split; [lia|]). split; [|done]. by apply (pointers_add C nz_rows i rp); [lia| |].
  - intros [[[nnz ci] rp] vs] (-> & Hl1 & Hl2 & Hl3 & Hp & Hr). by apply HQ.
Qed.

(** ** Two-level metadata *)

(** Column [j] has a non-zero tile. *)
Definition col_nz (j : Z) : bool := cnt nz (j * R) <? cnt nz ((j + 1) * R).

(** The first level for the columns below [j], the second for those of them
    with a non-zero tile. *)
Definition meta1 (j : Z) (m1 : list Z) : Prop :=
  forall k, 0 <= k < j -> m1.[k] = if col_nz k then 1 else 0.

Definition meta2 (j : Z) (m2 : list Z) : Prop :=
  forall k i, 0 <= k < j -> col_nz k = true -> 0 <= i < R ->
    m2.[cnt col_nz k * R + i] = if nz (k * R + i) then 1 else 0.

(** The second level of one column; [s] is where the column starts. *)
Definition meta_line (j s i : Z) (m2 : list Z) : Prop :=
  forall k, 0 <= k < i -> m2.[s + k] = if nz (j * R + k) then 1 else 0.

Lemma meta2_frame j m2 m2' :
  0 <= j -> meta2 j m2 -> (forall i, i < cnt col_nz j * R -> m2'.[i] = m2.[i]) -> meta2 j m2'.
Proof.
  intros Hj H2 Hf k i Hk Hz Hi. rewrite Hf; [by apply H2|].
  pose proof (cnt_lt col_nz k j Hk Hz). nia.
Qed.

Lemma meta2_succ j m2 :
  meta2 j m2 -> (col_nz j = true -> meta_line j (cnt col_nz j * R) R m2) -> meta2 (j + 1) m2.
Proof. intros H2 Hl k i Hk Hz Hi. destruct (Z.eq_dec k j) as [->|]; [by apply Hl|apply H2; [lia|done|done]]. Qed.

(** The inner loop of [dense2metaData]. *)
Lemma wp_meta_column j s nk m2 (Q : list Z * Z * list Z * bool -> Prop) :
  0 <= j < C -> 0 <= s -> s + R <= zlen m2 -> zlen nk = n_row * n_col -> placed cslot (j * R) nk ->
  (forall nk' m2', zlen nk' = n_row * n_col -> zlen m2' = zlen m2 ->
     placed cslot ((j + 1) * R) nk' -> meta_line j s R m2' -> (forall i, i < s -> m2'.[i] = m2.[i]) ->
     Q (nk', cslot ((j + 1) * R), m2', negb (col_nz j))) ->
  wp (for_up 0 R (fun i '(new_kernel, p, m2, columnAllZeros) =>
        tileAllZeros ← scan_tile kernel ((j * R + i) * SA_SIZE * MAX_W_COL);
        m2 ← aset m2 (s + i) (if negb tileAllZeros then 1 else 0);
        if negb tileAllZeros then
          '(new_kernel, p) ← copy_tile kernel ((j * R + i) * SA_SIZE * MAX_W_COL) (new_kernel, p);
          Some (new_kernel, p, m2, false)
        else Some (new_kernel, p, m2, columnAllZeros)) (nk, cslot (j * R), m2, true)) Q.
Proof.
  intros Hj Hs Hl2 Hl Hp HQ. pose proof (fits_R_nonneg _ _ _ _ Hfit) as HR.
  apply (wp_for_up (fun i '(nk', p, m2', b) => p = cslot (j * R + i) /\
    b = negb (cnt nz (j * R) <? cnt nz (j * R + i)) /\ zlen nk' = n_row * n_col /\ zlen m2' = zlen m2 /\
    placed cslot (j * R + i) nk' /\ meta_line j s i m2' /\ (forall k, k < s -> m2'.[k] = m2.[k]))).
  - done.
  - rewrite Z.add_0_r, Z.ltb_irrefl. do 5 (split; [done|]). split; [|done]. intros k Hk. lia.
  - intros i [[[nk1 p] m21] b] Hi (-> & -> & Hl1 & Hl21 & Hp1 & Hm & Hf).
    assert (0 <= j * R + i < C * R) as Hg by nia.
    rewrite tile_index_sa, (fits_scan _ _ _ _ Hfit) by done. simpl.
    destruct (fits_tile_bounds _ _ _ _ Hfit _ Hg). destruct (cslot_bounds _ Hg).
    apply wp_bind, wp_aset; [lia|]. intros m22 Hl22 Hm22.
    rewrite !Z.add_assoc, cslot_succ, cnt_succ by lia.
    assert (cnt nz (j * R) <= cnt nz (j * R + i)) by (apply cnt_mono; lia).
    assert (meta_line j s (i + 1) m22) as Hml.
    { intros k Hk. rewrite Hm22. zcases.
      - replace k with i by lia. by rewrite negb_involutive.
      - apply Hm. lia. }
    assert (forall k, k < s -> m22.[k] = m2.[k]) as Hf2.
    { intros k Hk. rewrite Hm22. zcases; [lia|]. by apply Hf. }
    destruct (nz (j * R + i)) eqn:Ez; simpl.
    + apply wp_bind, wp_copy_tile; try lia. intros nk2 Hl2' Hn2. apply wp_ret.
      split; [done|]. split; [zcases; [done|lia]|]. do 2 (split; [lia|]).
      split; [by apply (placed_copy _ _ nk1 nk2 cslot_spaced)|done].
    + rewrite !Z.add_0_r. do 3 (split; [done|]). split; [lia|].
      split; [by apply placed_skip|done].
  - intros [[[nk' p] m2'] b] (-> & -> & Hl1 & Hl21 & Hp1 & Hm & Hf).
    replace (j * R + R) with ((j + 1) * R) in * by lia. by apply HQ.
Qed.

Lemma wp_dense2metaData m1 m2 (Q : list Z * list Z * list Z -> Prop) :
  C <= zlen m1 -> C * R <= zlen m2 ->
  (forall nk m1' m2', zlen nk = n_row * n_col -> zlen m1' = zlen m1 -> zlen m2' = zlen m2 ->
     placed cslot (C * R) nk -> meta1 C m1' -> meta2 C m2' -> Q (nk, m1', m2')) ->
  wp (dense2metaData kernel n_row n_col m1 m2) Q.
Proof.
  intros H1 H2 HQ. unfold dense2metaData. apply wp_bind.
  pose proof (fits_R_nonneg _ _ _ _ Hfit) as HR. pose proof (fits_C_nonneg _ _ _ _ Hfit) as HC.
  pose proof (fits_row_pos _ _ _ _ Hfit). pose proof (fits_col_pos _ _ _ _ Hfit).
  rewrite <- (fits_R _ _ _ _ Hfit), <- (fits_C _ _ _ _ Hfit).
  apply (wp_for_up (fun j '(nk, p, m1', m2', s) => p = cslot (j * R) /\ s = cnt col_nz j * R /\
    zlen nk = n_row * n_col /\ zlen m1' = zlen m1 /\ zlen m2' = zlen m2 /\
    placed cslot (j * R) nk /\ meta1 j m1' /\ meta2 j m2')).
  - done.
  - do 2 (split; [done|]). split; [apply zlen_zeros; nia|]. do 2 (split; [done|]).
    split; [intros g k Hg; lia|]. split; [intros k Hk; lia|intros k i Hk; lia].
  - intros j [[[[nk p] m1'] m2'] s] Hj (-> & -> & Hl & Hl1 & Hl2 & Hp & Hm1 & Hm2). apply wp_bind.
    pose proof (cnt_bounds col_nz j ltac:(lia)) as Hc.
    apply wp_meta_column; try done; try nia.
    intros nk' m2'' Hl' Hl2' Hp' Hml Hf.
    assert (meta2 (j + 1) m2'') by (apply meta2_succ; [by apply (meta2_frame j m2'); [lia|..]|done]).
    assert (cnt col_nz (j + 1) = cnt col_nz j + (if col_nz j then 1 else 0)) as -> by (by apply cnt_succ; lia).
    destruct (col_nz j) eqn:Ec; simpl; (apply wp_bind, wp_aset; [lia|]; intros m1'' Hl1' Hm1'; apply wp_ret).
    all: split; [done|]; split; [lia|]; split; [done|]; split; [lia|]; split; [lia|]; split; [done|].
    all: split; [|done]; intros k Hk; rewrite Hm1'; zcases; [subst; by rewrite Ec|apply Hm1; lia].
  - intros [[[[nk p] m1'] m2'] s] (-> & -> & Hl & Hl1 & Hl2 & Hp & Hm1 & Hm2). by apply HQ.
Qed.

(** ** Interleaved metadata

    Column [j] is a block at [block_start j]: the size of the block, one bit per
    tile in [metadata_words] words, then the non-zero tiles of the column. *)

Definition metadata_words : Z := (R + 32 - 1) / 32.
Definition block_start (j : Z) : Z := j * (1 + metadata_words) + cslot (j * R).

(** Where tile [g] of column [j] goes. *)
Definition vslot (j g : Z) : Z := (j + 1) * (1 + metadata_words) + cslot g.

Record block_upto (j i : Z) (buf : list Z) : Prop := {
  block_bits : forall k, 0 <= k < i ->
    Z.testbit buf.[block_start j + 1 + k / 32] (k mod 32) = nz (j * R + k);
  block_tiles : forall k x, 0 <= k < i -> nz (j * R + k) = true -> 0 <= x < TILE ->
    buf.[vslot j (j * R + k) + x] = kernel.[(j * R + k) * TILE + x]
}.

Definition block (j : Z) (buf : list Z) : Prop :=
  buf.[block_start j] = block_start (j + 1) - block_start j /\ block_upto j R buf.

Lemma metadata_words_bounds : 0 <= R -> R <= 32 * metadata_words /\ 0 <= metadata_words.
Proof.
  intros. unfold metadata_words. pose proof (Z.div_mod (R + 32 - 1) 32 ltac:(lia)).
  pose proof (Z.mod_pos_bound (R + 32 - 1) 32 ltac:(lia)). lia.
Qed.

Lemma metadata_word_lt i : 0 <= i < R -> 0 <= i / 32 < metadata_words.
Proof.
  intros Hi. assert (R <= 32 * metadata_words /\ 0 <= metadata_words) by (apply metadata_words_bounds; lia).
  split; [apply Z.div_pos; lia|].
  apply Z.div_lt_upper_bound; lia.
Qed.

Lemma cslot_mono g h : 0 <= g <= h -> cslot g <= cslot h.
Proof. intros. unfold cslot. pose proof (cnt_mono nz g h ltac:(done)). pose proof TILE_pos. nia. Qed.

Lemma vslot_start j : vslot j (j * R) = block_start j + 1 + metadata_words.
Proof. unfold vslot, block_start. lia. Qed.

Lemma vslot_end j : vslot j ((j + 1) * R) = block_start (j + 1).
Proof. done. Qed.

Lemma vslot_ge j i : 0 <= j -> 0 <= i -> 0 <= R -> block_start j + 1 + metadata_words <= vslot j (j * R + i).
Proof.
  intros. rewrite <- vslot_start. unfold vslot. assert (cslot (j * R) <= cslot (j * R + i)) by (apply cslot_mono; nia). lia.
Qed.

Lemma vslot_succ j i :
  0 <= j * R + i -> vslot j (j * R + (i + 1)) = vslot j (j * R + i) + (if nz (j * R + i) then TILE else 0).
Proof. intros. unfold vslot. rewrite Z.add_assoc, cslot_succ by done. lia. Qed.

Lemma vslot_le_end j i : 0 <= j -> 0 <= i <= R -> vslot j (j * R + i) <= block_start (j + 1).
Proof.
  intros. rewrite <- vslot_end. unfold vslot.
  assert (cslot (j * R + i) <= cslot ((j + 1) * R)) by (apply cslot_mono; nia). lia.
Qed.

Lemma vslot_fits j i : 0 <= j -> 0 <= i < R -> nz (j * R + i) = true ->
  vslot j (j * R + i) + TILE <= block_start (j + 1).
Proof.
  intros Hj Hi Hz. assert (vslot j (j * R + (i + 1)) <= block_start (j + 1)) as H by (apply vslot_le_end; lia).
  rewrite vslot_succ, Hz in H by nia. done.
Qed.

Lemma block_start_mono j k : 0 <= R -> 0 <= j <= k -> block_start j <= block_start k.
Proof.
  intros HR Hj. unfold block_start. assert (cslot (j * R) <= cslot (k * R)) by (apply cslot_mono; nia).
  destruct (metadata_words_bounds HR). nia.
Qed.

(** A partial block depends on its metadata and on the words below the next slot. *)
Lemma block_upto_frame j i buf buf' :
  0 <= j -> 0 <= i <= R -> block_upto j i buf ->
  (forall k, 0 <= k < i ->
     Z.testbit buf'.[block_start j + 1 + k / 32] (k mod 32) = Z.testbit buf.[block_start j + 1 + k / 32] (k mod 32)) ->
  (forall x, vslot j (j * R) <= x < vslot j (j * R + i) -> buf'.[x] = buf.[x]) -> block_upto j i buf'.
Proof.
  intros Hj Hi [Hb Ht] Hm Hv. split.
  - intros k Hk. rewrite Hm by done. by apply Hb.
  - intros k x Hk Hz Hx. rewrite Hv; [by apply Ht|].
    assert (vslot j (j * R + k) + TILE <= vslot j (j * R + i)) as H2.
    { unfold vslot. assert (cslot (j * R + k) + TILE <= cslot (j * R + i)) by (apply cslot_spaced; [nia|done]). lia. }
    assert (block_start j + 1 + metadata_words <= vslot j (j * R + k)) by (apply vslot_ge; lia). rewrite vslot_start. lia.
Qed.

Lemma block_frame j buf buf' :
  0 <= R -> 0 <= j -> block j buf -> (forall x, x < block_start (j + 1) -> buf'.[x] = buf.[x]) -> block j buf'.
Proof.
  intros HR Hj [Hh Hb] Hf. pose proof (vslot_ge j R Hj HR HR) as Hge.
  replace (j * R + R) with ((j + 1) * R) in Hge by lia. rewrite vslot_end in Hge.
  destruct (metadata_words_bounds HR). split.
  - rewrite Hf; [done|]. lia.
  - apply (block_upto_frame j R buf); [done|lia|done| |].
    + intros k Hk. rewrite Hf; [done|]. pose proof (metadata_word_lt k Hk). lia.
    + intros x Hx. apply Hf. replace (j * R + R) with ((j + 1) * R) in Hx by lia. rewrite vslot_end in Hx. lia.
Qed.

(** The bit of a tile being set. *)
Lemma testbit_set_bit md c b :
  0 <= c < 32 -> 0 <= b ->
  Z.testbit (Z.lor md (uint32 (Z.shiftl 1 c))) b = (b =? c) || Z.testbit md b.
Proof.
  intros Hc Hb. rewrite Z.shiftl_1_l. unfold uint32.
  rewrite wrapU_small by (split; [apply Z.pow_nonneg; lia|apply Z.pow_lt_mono_r; lia]).
  rewrite Z.lor_spec, Z.pow2_bits_eqb, orb_comm, (Z.eqb_sym c) by lia. done.
Qed.

(** The position of the bit of tile [i + 1] from that of tile [i]. *)
Lemma bit_position_succ i :
  0 <= i ->
  (i mod 32 + 1 = 32 /\ (i + 1) / 32 = i / 32 + 1 /\ (i + 1) mod 32 = 0) \/
  (i mod 32 + 1 < 32 /\ (i + 1) / 32 = i / 32 /\ (i + 1) mod 32 = i mod 32 + 1).
Proof. intros. Z.div_mod_to_equations. lia. Qed.

(** The state of the inner loop of [dense2interleavedMetaData] at row [i]: the
    block so far, the rest of the current metadata word and the words after the
    next slot still zero. *)
Record filling (j i : Z) (buf : list Z) : Prop := {
  fill_block : block_upto j i buf;
  fill_word : i < R -> forall b, i mod 32 <= b -> Z.testbit buf.[block_start j + 1 + i / 32] b = false;
  fill_rest : forall x, vslot j (j * R + i) <= x -> buf.[x] = 0
}.

(** Tile [i] of column [j] is zero: nothing is written. *)
Lemma block_upto_zero j i buf :
  filling j i buf -> 0 <= i < R -> nz (j * R + i) = false -> block_upto j (i + 1) buf.
Proof.
  intros [[Hb Ht] Hw _] Hi Hz. split.
  - intros k Hk. destruct (Z.eq_dec k i) as [->|]; [|apply Hb; lia]. rewrite Hw, Hz by lia. done.
  - intros k x Hk Hzk Hx. destruct (Z.eq_dec k i) as [->|]; [congruence|]. apply Ht; [lia|done|done].
Qed.

(** Tile [i] is not: it is copied to its slot and its bit is set. *)
Lemma block_upto_tile j i buf buf1 buf2 :
  0 <= j -> 0 <= i < R -> filling j i buf -> nz (j * R + i) = true ->
  (forall x, buf1.[x] = if (vslot j (j * R + i) <=? x) && (x <? vslot j (j * R + i) + TILE)
     then kernel.[(j * R + i) * TILE + (x - vslot j (j * R + i))] else buf.[x]) ->
  (forall x, buf2.[x] = if x =? block_start j + 1 + i / 32
     then Z.lor buf1.[block_start j + 1 + i / 32] (uint32 (Z.shiftl 1 (i mod 32))) else buf1.[x]) ->
  block_upto j (i + 1) buf2 /\
  (forall b, i mod 32 < b -> Z.testbit buf2.[block_start j + 1 + i / 32] b = false).
Proof.
  intros Hj Hi [[Hb Ht] Hw Hr] Hz H1 H2.
  pose proof (metadata_word_lt i Hi) as Hmw. pose proof (Z.mod_pos_bound i 32 ltac:(lia)) as Hmb.
  assert (block_start j + 1 + metadata_words <= vslot j (j * R + i)) as Hge by (apply vslot_ge; lia).
  assert (forall x, x < block_start j + 1 + metadata_words -> buf1.[x] = buf.[x]) as Hlow.
  { intros x Hx. rewrite H1. zcases; try lia; done. }
  assert (forall k, 0 <= k < i -> (k / 32 = i / 32 -> k mod 32 <> i mod 32)) as Hne.
  { intros k Hk. Z.div_mod_to_equations. lia. }
  split; [split|].
  - intros k Hk. rewrite H2. pose proof (metadata_word_lt k ltac:(lia)) as Hkw.
    pose proof (Z.mod_pos_bound k 32 ltac:(lia)). destruct (Z.eqb_spec (block_start j + 1 + k / 32) (block_start j + 1 + i / 32)) as [E|E].
    + rewrite testbit_set_bit, Hlow by lia. replace (i / 32) with (k / 32) by lia.
      destruct (Z.eq_dec k i) as [->|]; [by rewrite Z.eqb_refl, Hz|].
      destruct (Z.eqb_spec (k mod 32) (i mod 32)); [exfalso; apply (Hne k); lia|]. apply Hb. lia.
    + rewrite Hlow by lia. apply Hb. destruct (Z.eq_dec k i) as [->|]; lia.
  - intros k x Hk Hzk Hx. assert (block_start j + 1 + metadata_words <= vslot j (j * R + k)) by (apply vslot_ge; lia).
    rewrite H2. destruct (Z.eqb_spec (vslot j (j * R + k) + x) (block_start j + 1 + i / 32)); [lia|]. rewrite H1.
    destruct (Z.eq_dec k i) as [->|].
    + zcases; try lia. simpl. f_equal. lia.
    + assert (cslot (j * R + k) + TILE <= cslot (j * R + i)) by (apply cslot_spaced; [nia|done]).
      unfold vslot in *. zcases; try lia; simpl; (apply Ht; [lia|done|done]).
  - intros b Hb'. rewrite H2, Z.eqb_refl, testbit_set_bit, Hlow, Hw by lia. zcases; [lia|done].
Qed.

(** Moving on to the next bit, which may zero the next metadata word. *)
Lemma filling_next j i buf buf' :
  0 <= j -> 0 <= i < R -> block_upto j (i + 1) buf ->
  (forall b, i mod 32 < b -> Z.testbit buf.[block_start j + 1 + i / 32] b = false) ->
  (forall x, vslot j (j * R + (i + 1)) <= x -> buf.[x] = 0) ->
  (forall x, buf'.[x] = if (i mod 32 + 1 =? 32) && (x =? block_start j + 1 + i / 32 + 1)
                           && (i / 32 + 1 <? metadata_words)
                        then 0 else buf.[x]) ->
  filling j (i + 1) buf'.
Proof.
  intros Hj Hi Hb Hw Hr Hx. pose proof (metadata_word_lt i Hi) as Hmw.
  assert (block_start j + 1 + metadata_words <= vslot j (j * R + (i + 1))) as Hge by (apply vslot_ge; lia).
  pose proof (bit_position_succ i ltac:(lia)) as Hpos.
  assert (i + 1 < R -> (i + 1) / 32 < metadata_words) as Hnw.
  { intros. apply metadata_word_lt. lia. }
  split.
  - apply (block_upto_frame j (i + 1) buf); [lia|lia|done| |].
    + intros k Hk. rewrite Hx. assert (k / 32 <= i / 32) by (apply Z.div_le_mono; lia).
      zcases; try lia; simpl; done.
    + intros x Hx2. rewrite vslot_start in Hx2. rewrite Hx.
      zcases; try lia; simpl; try done; exfalso; lia.
  - intros HiR b Hb'. rewrite Hx. destruct Hpos as [(E1 & E2 & E3)|(E1 & E2 & E3)]; rewrite E2, ?E3 in *.
    + zcases; try lia. simpl. apply Z.testbit_0_l.
    + zcases; try lia; simpl; apply Hw; lia.
  - intros x Hx2. rewrite Hx, Hr by done. by destruct (_ && _ && _).
Qed.

(** What the two branches of a row leave: the tile recorded, no later bit set. *)
Definition filled (j i : Z) (nk nk' : list Z) : Prop :=
  zlen nk' = zlen nk /\ block_upto j (i + 1) nk' /\
  (forall b, i mod 32 < b -> Z.testbit nk'.[block_start j + 1 + i / 32] b = false) /\
  (forall x, vslot j (j * R + (i + 1)) <= x -> nk'.[x] = 0) /\
  (forall x, x <= block_start j -> nk'.[x] = nk.[x]).

Lemma wp_interleaved_tile j i nk (Q : list Z * Z -> Prop) :
  0 <= j < C -> 0 <= i < R -> 0 <= block_start j -> block_start (j + 1) <= zlen nk -> filling j i nk ->
  (forall nk', filled j i nk nk' -> Q (nk', vslot j (j * R + (i + 1)))) ->
  wp (if nz (j * R + i) then
        '(new_kernel, p) ← copy_tile kernel ((j * R + i) * TILE) (nk, vslot j (j * R + i));
        md ← aget new_kernel (block_start j + 1 + i / 32);
        new_kernel ← aset new_kernel (block_start j + 1 + i / 32) (Z.lor md (uint32 (Z.shiftl 1 (i mod 32))));
        Some (new_kernel, p)
      else Some (nk, vslot j (j * R + i))) Q.
Proof.
  intros Hj Hi H0 Hlen Hf HQ. assert (0 <= j * R + i < C * R) as Hg by nia.
  destruct (fits_tile_bounds _ _ _ _ Hfit _ Hg). pose proof (metadata_word_lt i Hi) as Hmw.
  assert (block_start j + 1 + metadata_words <= vslot j (j * R + i)) as Hge by (apply vslot_ge; lia).
  assert (vslot j (j * R + (i + 1)) <= block_start (j + 1)) as Hend by (apply vslot_le_end; lia).
  pose proof TILE_pos. unfold filled in HQ. rewrite vslot_succ in * by lia. destruct (nz (j * R + i)) eqn:Ez.
  - apply wp_bind, wp_copy_tile; try lia. intros nk2 Hl2 Hn2. apply wp_bind, wp_aget; [lia|].
    apply wp_bind, wp_aset; [lia|]. intros nk3 Hl3 Hn3. apply wp_ret, HQ.
    destruct (block_upto_tile j i nk nk2 nk3) as [Hb Hw]; try done; try lia.
    split; [lia|]. split; [done|]. split; [done|]. split.
    + intros x Hx. rewrite Hn3. zcases; [lia|]. rewrite Hn2. zcases; try lia; simpl; (apply Hf; lia).
    + intros x Hx. rewrite Hn3. zcases; [lia|]. rewrite Hn2. zcases; try lia; simpl; done.
  - apply wp_ret. rewrite Z.add_0_r in HQ. apply HQ. split; [done|]. split; [by apply block_upto_zero|]. split.
    + intros b Hb. apply (fill_word j i nk Hf); lia.
    + split; [|done]. intros x Hx. apply Hf. lia.
Qed.

(** The end of a row: the next bit position. *)
Lemma wp_interleaved_next j i nk nk1 p (Q : list Z * Z * Z * Z -> Prop) :
  0 <= j -> 0 <= i < R -> 0 <= block_start j -> block_start (j + 1) <= zlen nk -> filled j i nk nk1 ->
  (forall nk', zlen nk' = zlen nk -> filling j (i + 1) nk' ->
     (forall x, x <= block_start j -> nk'.[x] = nk.[x]) ->
     Q (nk', p, block_start j + 1 + (i + 1) / 32, (i + 1) mod 32)) ->
  wp (if i mod 32 + 1 =? 32 then
        new_kernel ← (if block_start j + 1 + i / 32 + 1 <? block_start j + 1 + metadata_words
                      then aset nk1 (block_start j + 1 + i / 32 + 1) 0 else Some nk1);
        Some (new_kernel, p, block_start j + 1 + i / 32 + 1, 0)
      else Some (nk1, p, block_start j + 1 + i / 32, i mod 32 + 1)) Q.
Proof.
  intros Hj Hi H0 Hlen (Hl1 & Hb & Hw & Hr & Hlow) HQ.
  pose proof (metadata_word_lt i Hi) as Hmw.
  assert (vslot j (j * R + (i + 1)) <= block_start (j + 1)) as Hend by (apply vslot_le_end; lia).
  assert (block_start j + 1 + metadata_words <= vslot j (j * R + (i + 1))) as Hge by (apply vslot_ge; lia).
  pose proof (filling_next j i nk1) as Hnext.
  destruct (bit_position_succ i) as [(E1 & E2 & E3)|(E1 & E2 & E3)]; [lia| |]; rewrite E2, E3 in HQ.
  - rewrite E1, Z.eqb_refl in *. apply wp_bind.
    destruct (Z.ltb_spec (block_start j + 1 + i / 32 + 1) (block_start j + 1 + metadata_words)).
    + apply wp_aset; [lia|]. intros nk2 Hl2 Hn2. apply wp_ret. rewrite <- Z.add_assoc.
      apply HQ; [lia| |intros x Hx; rewrite Hn2; zcases; [lia|by apply Hlow]].
      apply Hnext; try done. intros x. rewrite Hn2. zcases; try lia; done.
    + apply wp_ret, wp_ret. rewrite <- Z.add_assoc. apply HQ; [done| |done].
      apply Hnext; try done. intros x. zcases; try lia; by rewrite ?andb_false_r.
  - destruct (Z.eqb_spec (i mod 32 + 1) 32); [lia|]. apply wp_ret, HQ; [done| |done].
    by apply Hnext.
Qed.

(** The inner loop of [dense2interleavedMetaData]. *)
Lemma wp_interleaved_column j nk (Q : list Z * Z * Z * Z -> Prop) :
  0 <= j < C -> block_start (j + 1) <= zlen nk -> (forall x, block_start j <= x -> nk.[x] = 0) ->
  (forall nk' md c, zlen nk' = zlen nk -> block_upto j R nk' ->
     (forall x, block_start (j + 1) <= x -> nk'.[x] = 0) ->
     (forall x, x <= block_start j -> nk'.[x] = nk.[x]) -> Q (nk', block_start (j + 1), md, c)) ->
  wp (for_up 0 R (fun i '(new_kernel, p, metadata, counter32) =>
      tileAllZeros ← scan_tile kernel ((j * R + i) * SA_SIZE * MAX_W_COL);
      '(new_kernel, p) ←
        (if negb tileAllZeros then
           '(new_kernel, p) ← copy_tile kernel ((j * R + i) * SA_SIZE * MAX_W_COL) (new_kernel, p);
           md ← aget new_kernel metadata;
           new_kernel ← aset new_kernel metadata (Z.lor md (uint32 (Z.shiftl 1 counter32)));
           Some (new_kernel, p)
         else Some (new_kernel, p));
      if counter32 + 1 =? 32 then
        new_kernel ← (if metadata + 1 <? block_start j + 1 + metadata_words
                      then aset new_kernel (metadata + 1) 0 else Some new_kernel);
        Some (new_kernel, p, metadata + 1, 0)
      else Some (new_kernel, p, metadata, counter32 + 1))
    (nk, block_start j + 1 + metadata_words, block_start j + 1, 0)) Q.
Proof.
  intros Hj Hlen Hz HQ. pose proof (fits_R_nonneg _ _ _ _ Hfit) as HR.
  destruct (metadata_words_bounds HR) as [Hmw1 Hmw2].
  assert (0 <= block_start j) as H0.
  { unfold block_start. assert (0 <= cslot (j * R) <= j * R * TILE) by (apply cslot_le; nia). nia. }
  apply (wp_for_up (fun i '(nk', p, md, c) => p = vslot j (j * R + i) /\
    md = block_start j + 1 + i / 32 /\ c = i mod 32 /\ zlen nk' = zlen nk /\ filling j i nk' /\
    (forall x, x <= block_start j -> nk'.[x] = nk.[x]))).
  - done.
  - rewrite Z.add_0_r, vslot_start. split; [done|]. change (0 / 32) with 0. change (0 mod 32) with 0.
    split; [lia|]. do 2 (split; [done|]). split; [|done]. split.
    + split; intros; lia.
    + intros _ b _. rewrite Hz, Z.testbit_0_l; [done|]. change (0 / 32) with 0. lia.
    + intros x Hx. apply Hz. rewrite Z.add_0_r, vslot_start in Hx. lia.
  - intros i [[[nk1 p] md] c] Hi (-> & -> & -> & Hl1 & Hf & Hlow).
    assert (0 <= j * R + i < C * R) as Hg by nia.
    rewrite tile_index_sa, (fits_scan _ _ _ _ Hfit) by done. simpl. rewrite negb_involutive. apply wp_bind.
    apply wp_interleaved_tile; try done; try lia. intros nk2 Hf2.
    apply (wp_interleaved_next j i nk1); try done; try lia. intros nk3 Hl3 Hf3 Hlow3.
    do 3 (split; [done|]). split; [lia|]. split; [done|]. intros x Hx. rewrite Hlow3, Hlow by done. done.
  - intros [[[nk' p] md] c] (-> & -> & -> & Hl1 & Hf & Hlow).
    replace (j * R + R) with ((j + 1) * R) by lia.
    apply HQ; try done; [apply Hf|]. intros x Hx. apply (fill_rest j R nk' Hf).
    replace (j * R + R) with ((j + 1) * R) by lia. by rewrite vslot_end.
Qed.

Lemma wp_dense2interleavedMetaData (Q : list Z -> Prop) :
  block_start C <= interleaved_size n_row n_col ->
  (forall nk, zlen nk = interleaved_size n_row n_col -> (forall j, 0 <= j < C -> block j nk) -> Q nk) ->
  wp (dense2interleavedMetaData kernel n_row n_col) Q.
Proof.
  intros Hsize HQ. unfold dense2interleavedMetaData. apply wp_bind.
  pose proof (fits_R_nonneg _ _ _ _ Hfit) as HR. pose proof (fits_C_nonneg _ _ _ _ Hfit) as HC.
  rewrite <- (fits_R _ _ _ _ Hfit), <- (fits_C _ _ _ _ Hfit). change ((R + 32 - 1) / 32) with metadata_words.
  assert (0 <= interleaved_size n_row n_col < 2 ^ 32) as Hs by (apply wrapU_range; lia).
  destruct (metadata_words_bounds HR).
  apply (wp_for_up (fun j '(nk, p) => p = block_start j /\ zlen nk = interleaved_size n_row n_col /\
    (forall k, 0 <= k < j -> block k nk) /\ (forall x, block_start j <= x -> nk.[x] = 0))).
  - done.
  - split; [done|]. split; [apply zlen_zeros; lia|]. split; [lia|]. intros. apply nthZ_zeros.
  - intros j [nk p] Hj (-> & Hl & Hb & Hz). apply wp_bind.
    assert (block_start (j + 1) <= block_start C) by (apply block_start_mono; lia).
    assert (0 <= block_start j <= block_start (j + 1)) as Hbs.
    { split; [change 0 with (block_start 0)|]; apply block_start_mono; lia. }
    apply wp_interleaved_column; [done|lia|done|].
    intros nk' md c Hl' Hb' Hz' Hlow.
    assert (block_start j + 1 + metadata_words <= vslot j (j * R + R)) as Hge by (apply vslot_ge; lia).
    replace (j * R + R) with ((j + 1) * R) in Hge by lia. rewrite vslot_end in Hge.
    apply wp_bind, wp_aset; [lia|]. intros nk2 Hl2 Hn2. apply wp_ret.
    split; [done|]. split; [lia|]. split.
    + intros k Hk. destruct (Z.eq_dec k j) as [->|].
      * split; [rewrite Hn2, Z.eqb_refl; apply wrapU_small; lia|].
        apply (block_upto_frame j R nk'); [lia|lia|done| |].
        -- intros k Hk2. pose proof (metadata_word_lt k Hk2). rewrite Hn2. zcases; [lia|done].
        -- intros x Hx. rewrite vslot_start in Hx. rewrite Hn2. zcases; [lia|done].
      * assert (block_start (k + 1) <= block_start j) by (apply block_start_mono; lia).
        apply (block_frame k nk); [done|lia|apply Hb; lia|]. intros x Hx. rewrite Hn2. zcases; [lia|].
        apply Hlow. lia.
    + intros x Hx. rewrite Hn2. zcases; [lia|by apply Hz'].
  - intros [nk p] (_ & Hl & Hb & _). by apply HQ.
Qed.
End Encode.
