(* ===== verification/SparseCorrect.v ===== *)
(** * SparseCorrect: every sparse format computes the same product

    Each [computeX] applied to what the matching encoder of [sparse_rep.cc]
    builds from a dense kernel runs exactly the non-zero tiles of that kernel:
    it equals the reference [sparse_ref] ([sparse_ref_rows] for CSR, which
    visits the tiles row by row), as a program, for every accelerator and every
    accelerator state. *)

From stdpp Require Import prelude.
From Stdlib Require Import ZArith Lia.
From S2P Require Import Prelude Machine Float32 Accelerator SmmGem SparseMM SparseRep SparseSpec SparseEncode.

(** ** Loops over the non-zero tiles *)

(** A loop over the slots of the non-zero tiles is a loop over all tiles that
    skips the zero ones. *)
Lemma for_up_compress {S} (nz : Z -> bool) lo hi (b : Z -> S -> option S) (s : S) :
  0 <= lo <= hi ->
  for_up (cnt nz lo) (cnt nz hi) b s = for_up lo hi (fun g s => if nz g then b (cnt nz g) s else Some s) s.
Proof.
  intros [H0 Hle]. revert hi Hle s. refine (Zup_ind _ _ _ _).
  - intros s. by rewrite !for_up_empty by lia.
  - intros h Hh IH s. rewrite (for_up_app lo h (h + 1)) by lia.
    assert (cnt nz lo <= cnt nz h) by (apply cnt_mono; lia).
    rewrite cnt_succ by lia. rewrite (for_up_app _ (cnt nz h)) by (destruct (nz h); lia).
    rewrite IH. destruct (for_up lo h _ s) as [s'|]; simpl; [|done].
    rewrite (for_up_step h) by lia. destruct (nz h).
    + rewrite for_up_step by lia. destruct (b (cnt nz h) s'); simpl; [|done]. by rewrite !for_up_empty by lia.
    + rewrite Z.add_0_r. simpl. by rewrite !for_up_empty by lia.
Qed.

#[local] Arguments processMultiplication : simpl never.

Section Consumers.
Context {cfg : Config} {wf : WfConfig cfg} {S : Type} {A : Accelerator S}.
Context (m : SparseMatrixMultiplier) (n_row n_col : Z) (kernel : list Z).
Hypothesis Hfit : fits m n_row n_col kernel.
Context (input : list Z).
Implicit Types (st : S * list Z).

Abbreviation R := (tiles_in_row m).
Abbreviation C := (tiles_in_col m).
Abbreviation nz := (nz_tile kernel).

(** The numbering of tiles by columns. *)
Lemma tile_number g : 0 < R -> g / R * R + g mod R = g.
Proof. intros H. rewrite (Z.div_mod g R) at 3 by lia. lia. Qed.

Lemma rows_pos g : 0 <= g < C * R -> 0 < R.
Proof.
  intros H. pose proof (fits_R_nonneg _ _ _ _ Hfit).
  destruct (Z.eq_dec R 0) as [E|]; [rewrite E, Z.mul_0_r in H; lia|lia].
Qed.

(** Nested loops over columns and rows, with extra state a function of the
    tile number, are the flat loop. *)
Lemma tiles_loop {X} (f : Z -> S * list Z -> X) (b : Z -> Z -> X -> option X)
    (ref : Z -> S * list Z -> option (S * list Z)) st :
  (forall g st, 0 <= g < C * R ->
     b (g / R) (g mod R) (f g st) = (st' ← ref g st; Some (f (g + 1) st'))) ->
  for_up 0 C (fun i => for_up 0 R (b i)) (f 0 st) =
  (st' ← for_up 0 (C * R) ref st; Some (f (C * R) st')).
Proof.
  intros H. pose proof (fits_R_nonneg _ _ _ _ Hfit). pose proof (fits_C_nonneg _ _ _ _ Hfit).
  rewrite for_up_nest by done. by apply for_up_track; [nia|].
Qed.

(** One tile of the dense kernel, and the same unless it is zero. *)
Definition dense_step (g : Z) (st : S * list Z) : option (S * list Z) :=
  processMultiplication m input (g mod R) (g / R) kernel (g * TILE) st.

Definition sparse_step (g : Z) (st : S * list Z) : option (S * list Z) :=
  if nz g then dense_step g st else Some st.

Lemma sparse_ref_steps st : sparse_ref m input kernel st = for_up 0 (C * R) sparse_step st.
Proof. done. Qed.

(** The reference as nested loops over columns and rows. *)
Lemma sparse_ref_nest st :
  sparse_ref m input kernel st =
  for_up 0 C (fun i st => for_up 0 R (fun j st =>
    if nz (i * R + j) then processMultiplication m input j i kernel ((i * R + j) * TILE) st else Some st) st) st.
Proof.
  pose proof (fits_R_nonneg _ _ _ _ Hfit). pose proof (fits_C_nonneg _ _ _ _ Hfit).
  rewrite for_up_nest by done. unfold sparse_ref. apply for_up_ext. intros g st' Hg.
  rewrite tile_number by (by eapply rows_pos). done.
Qed.

(** ** The dense loop *)

Definition dense_ref (st : S * list Z) : option (S * list Z) :=
  for_up 0 (C * R) dense_step st.

Lemma computeNonPruned_ref st : computeNonPruned m input kernel st = dense_ref st.
Proof.
  unfold computeNonPruned, dense_ref.
  rewrite (tiles_loop (fun g st => (st, g * TILE)) _ dense_step st).
  - by destruct (for_up 0 (C * R) _ st).
  - intros g st' Hg. unfold dense_step. destruct (processMultiplication _ _ _ _ _ _ _); simpl; [|done]. do 2 f_equal. lia.
Qed.

(** ** Dynamic skipping *)

Lemma is_zero_tile_spec ti :
  WEIGHT_FP = false -> 0 <= ti -> ti + TILE <= zlen kernel ->
  is_zero_tile kernel ti = Some (negb (tile_nz kernel ti)).
Proof.
  intros Hfp H0 H1. pose proof TILE_pos. apply wp_eq. unfold is_zero_tile.
  apply (wp_for_break (fun k b => b = true /\
    forall k', 0 <= k' < k -> word_nonzero kernel.[ti + k'] = false)).
  - lia.
  - split; [done|]. lia.
  - intros k b Hk [-> Hz]. apply wp_bind, wp_aget; [lia|].
    destruct (kernel.[ti + k] =? 0) eqn:E; apply wp_ret; cbn iota.
    + split; [done|]. intros k' Hk'. destruct (Z.eq_dec k' k) as [->|]; [|apply Hz; lia].
      unfold word_nonzero. by rewrite Hfp, E.
    + destruct (tile_nz kernel ti) eqn:En; [done|].
      rewrite tile_nz_false in En. specialize (En k Hk). unfold word_nonzero in En. by rewrite Hfp, E in En.
  - intros b [-> Hz]. destruct (tile_nz kernel ti) eqn:E; [|done].
    apply tile_nz_true in E as (k & Hk & Hw). by rewrite Hz in Hw.
Qed.

Lemma computeDynamic_ref st :
  WEIGHT_FP = false -> computeDynamic m input kernel st = sparse_ref m input kernel st.
Proof.
  intros Hfp. rewrite sparse_ref_steps. unfold computeDynamic.
  rewrite (tiles_loop (fun g st => (st, g * TILE)) _ sparse_step st).
  - by destruct (for_up 0 (C * R) _ st).
  - intros g st' Hg. destruct (fits_tile_bounds _ _ _ _ Hfit g Hg).
    rewrite is_zero_tile_spec by done. simpl. change (tile_nz kernel (g * TILE)) with (nz g).
    unfold sparse_step, dense_step. destruct (nz g); simpl.
    + destruct (processMultiplication _ _ _ _ _ _ _); simpl; [|done]. do 2 f_equal. lia.
    + do 2 f_equal. lia.
Qed.

(** A product from a slot is the product of the tile in it. *)
Lemma placed_product nk p g row col st :
  0 <= g < C * R -> 0 <= p -> p + TILE <= zlen nk ->
  (forall k, 0 <= k < TILE -> nk.[p + k] = kernel.[g * TILE + k]) ->
  processMultiplication m input row col nk p st = processMultiplication m input row col kernel (g * TILE) st.
Proof.
  intros Hg H1 H2 Hp. destruct (fits_tile_bounds _ _ _ _ Hfit g Hg).
  apply processMultiplication_values. intros k Hk. rewrite !aget_nthZ by lia. by rewrite Hp.
Qed.

(** ** Flag bits *)

(** Bit [31 - g mod 32] of word [g / 32] is set for the zero tiles. *)
Definition flags_tiles (flag : list Z) : Prop :=
  forall g, 0 <= g < C * R ->
    g / 32 < zlen flag /\ (Z.land flag.[g / 32] (Z.shiftr 0x80000000 (g mod 32)) =? 0) = nz g.

(** The word and bit counters after [g] tiles; the word is advanced only when
    the next bit is read. *)
Definition lazy_word (g : Z) : Z := if g =? 0 then 0 else (g - 1) / 32.
Definition lazy_bit (g : Z) : Z := if g =? 0 then 0 else (g - 1) mod 32 + 1.

Lemma lazy_advance g :
  0 <= g ->
  (if lazy_bit g =? 32 then (lazy_word g + 1, 0) else (lazy_word g, lazy_bit g)) = (g / 32, g mod 32).
Proof.
  intros Hg. unfold lazy_bit, lazy_word. destruct (Z.eqb_spec g 0) as [->|]; [done|].
  destruct (Z.eqb_spec ((g - 1) mod 32 + 1) 32); f_equal; Z.div_mod_to_equations; lia.
Qed.

Lemma lazy_succ g : 0 <= g -> g / 32 = lazy_word (g + 1) /\ g mod 32 + 1 = lazy_bit (g + 1).
Proof.
  intros Hg. unfold lazy_bit, lazy_word. zcases; [lia|]. by replace (g + 1 - 1) with g by lia.
Qed.

Lemma computeWithFlag_ref flag nk st :
  flags_tiles flag -> zlen nk = n_row * n_col -> placed kernel (cslot kernel) (C * R) nk ->
  computeWithFlag m input flag nk st = sparse_ref m input kernel st.
Proof.
  intros Hfl Hl Hp. rewrite sparse_ref_steps. unfold computeWithFlag.
  rewrite (tiles_loop (fun g st => (st, lazy_word g, lazy_bit g, cslot kernel g)) _ sparse_step st).
  - by destruct (for_up 0 (C * R) _ st).
  - intros g st' Hg. destruct (Hfl g Hg) as [Hw Hbit]. destruct (lazy_succ g ltac:(lia)) as [Ew Eb].
    rewrite lazy_advance by lia. rewrite aget_nthZ by (split; [apply Z.div_pos; lia|done]). simpl.
    rewrite Hbit, <- Ew, <- Eb, cslot_succ by lia. unfold sparse_step, dense_step. destruct (nz g) eqn:Ez; simpl.
    + destruct (cslot_bounds m n_row n_col kernel Hfit g Hg).
      rewrite (placed_product nk _ g) by (lia || (intros; by apply Hp)).
      by destruct (processMultiplication _ _ _ _ _ _ _).
    + by rewrite Z.add_0_r.
Qed.

(** ** Hidden keys *)

(** The key does not start any non-zero tile. *)
Definition key_free (key : Z) : Prop :=
  forall g, 0 <= g < C * R -> nz g = true -> kernel.[g * TILE] <> key.

Lemma computeHiddenKey_ref key keys nk st :
  aget keys 0 = Some key -> key_free key -> zlen nk = n_row * n_col ->
  placed kernel (hslot kernel) (C * R) nk -> flagged kernel key (C * R) nk ->
  computeHiddenKey m input keys nk st = sparse_ref m input kernel st.
Proof.
  intros Hk Hfree Hl Hp Hf. rewrite sparse_ref_steps. unfold computeHiddenKey.
  rewrite (tiles_loop (fun g st => (st, hslot kernel g)) _ sparse_step st).
  - by destruct (for_up 0 (C * R) _ st).
  - intros g st' Hg. destruct (hslot_bounds m n_row n_col kernel Hfit g Hg). pose proof TILE_pos.
    rewrite Hk, aget_nthZ by lia. simpl. rewrite hslot_succ by lia. unfold sparse_step, dense_step.
    destruct (nz g) eqn:Ez.
    + assert (nk.[hslot kernel g] = kernel.[g * TILE]) as ->.
      { rewrite <- (Z.add_0_r (hslot kernel g)), <- (Z.add_0_r (g * TILE)). by apply Hp; [| |lia]. }
      pose proof (Hfree g Hg Ez). destruct (Z.eqb_spec key kernel.[g * TILE]); [congruence|].
      rewrite (placed_product nk _ g) by (lia || (intros; by apply Hp)).
      by destruct (processMultiplication _ _ _ _ _ _ _).
    + rewrite Hf, Z.eqb_refl by done. done.
Qed.

(** ** Compressed columns and rows *)

Lemma computeCSC_ref col_ptr row_ind values st :
  C < zlen col_ptr -> C * R <= zlen row_ind -> C * R <= zlen values ->
  pointers R nz C col_ptr -> recorded R (fun g => g * TILE) nz (C * R) row_ind values ->
  computeCSC m input col_ptr row_ind kernel values st = sparse_ref m input kernel st.
Proof.
  intros H1 H2 H3 Hp Hr. rewrite sparse_ref_nest. unfold computeCSC.
  pose proof (fits_R_nonneg _ _ _ _ Hfit). apply for_up_ext. intros i st' Hi.
  rewrite !aget_nthZ by lia. simpl. rewrite !Hp by lia. rewrite for_up_compress by nia.
  replace (i * R) with (0 + i * R) at 1 by lia. replace ((i + 1) * R) with (R + i * R) by lia.
  rewrite for_up_shift. apply for_up_ext. intros j st1 Hj. rewrite (Z.add_comm j).
  destruct (nz (i * R + j)) eqn:Ez; [|done].
  assert (0 <= i * R + j < C * R) as Hg by nia.
  assert (0 <= cnt nz (i * R + j) <= i * R + j) by (apply cnt_bounds; lia). destruct (Hr _ Hg Ez) as [E1 E2].
  rewrite !aget_nthZ by lia. simpl. rewrite E1, E2, Z.add_comm, Z.mod_add, Z.mod_small by lia.
  by rewrite (Z.add_comm j).
Qed.

Lemma computeCSR_ref col_ind row_ptr values st :
  R < zlen row_ptr -> R * C <= zlen col_ind -> R * C <= zlen values ->
  pointers C (nz_rows m kernel) R row_ptr ->
  recorded C (fun T => by_rows m T * TILE) (nz_rows m kernel) (R * C) col_ind values ->
  computeCSR m input col_ind row_ptr kernel values st = sparse_ref_rows m input kernel st.
Proof.
  intros H1 H2 H3 Hp Hr. unfold computeCSR, sparse_ref_rows.
  pose proof (fits_C_nonneg _ _ _ _ Hfit). apply for_up_ext. intros i st' Hi.
  rewrite !aget_nthZ by lia. simpl. rewrite !Hp by lia. rewrite for_up_compress by nia.
  replace (i * C) with (0 + i * C) at 1 by lia. replace ((i + 1) * C) with (C + i * C) by lia.
  rewrite for_up_shift. apply for_up_ext. intros j st1 Hj. rewrite (Z.add_comm j).
  assert (0 <= i * C + j < R * C) as HT by nia.
  pose proof (Hr _ HT) as Hr'. assert (0 <= cnt (nz_rows m kernel) (i * C + j) <= i * C + j) by (apply cnt_bounds; lia).
  replace (nz (j * R + i)) with (nz_rows m kernel (i * C + j)) by (unfold nz_rows; by rewrite by_rows_idx).
  destruct (nz_rows m kernel (i * C + j)); [|done]. destruct (Hr' eq_refl) as [E1 E2].
  rewrite !aget_nthZ by lia. simpl. rewrite E1, E2, by_rows_idx, Z.add_comm, Z.mod_add, Z.mod_small by lia.
  done.
Qed.

(** ** Two-level metadata *)

(** The reference on one column. *)
Definition column_ref (i lo : Z) (st : S * list Z) : option (S * list Z) :=
  for_up lo R (fun j st =>
    if nz (i * R + j) then processMultiplication m input j i kernel ((i * R + j) * TILE) st else Some st) st.

Lemma column_ref_zero i lo st :
  0 <= i -> 0 <= lo <= R -> cnt nz (i * R + lo) = cnt nz ((i + 1) * R) -> column_ref i lo st = Some st.
Proof.
  intros Hi Hlo Hc. apply for_up_skip. intros j st' Hj. destruct (nz (i * R + j)) eqn:Ez; [|done].
  assert (cnt nz (i * R + lo) <= cnt nz (i * R + j)) by (apply cnt_mono; nia).
  assert (cnt nz (i * R + j) < cnt nz ((i + 1) * R)) by (apply cnt_lt; [nia|done]). lia.
Qed.

Lemma computeMetaData_ref m1 m2 nk st :
  C <= zlen m1 -> C * R <= zlen m2 -> zlen nk = n_row * n_col ->
  meta1 m kernel C m1 -> meta2 m kernel C m2 -> placed kernel (cslot kernel) (C * R) nk ->
  computeMetaData m input m1 m2 nk st = sparse_ref m input kernel st.
Proof.
  intros H1 H2 Hl Hm1 Hm2 Hp. rewrite sparse_ref_nest. unfold computeMetaData.
  pose proof (fits_R_nonneg _ _ _ _ Hfit) as HR. pose proof (fits_C_nonneg _ _ _ _ Hfit) as HC.
  pose proof (for_up_track
    (fun i st => (st, i, cnt (col_nz m kernel) i * R, cslot kernel (i * R))) 0 C) as Ht.
  rewrite (Ht _ (fun i => column_ref i 0) st HC); [by destruct (for_up 0 C _ st)|].
  clear Ht. intros i st' Hi. rewrite aget_nthZ, Hm1 by lia. simpl. rewrite cnt_succ by lia.
  assert (0 <= cnt (col_nz m kernel) i <= i) by (apply cnt_bounds; lia).
  assert (cnt nz (i * R) <= cnt nz ((i + 1) * R)) by (apply cnt_mono; nia).
  destruct (col_nz m kernel i) eqn:Ec; simpl.
  - pose proof (for_up_track (fun j st => (st, cnt (col_nz m kernel) i * R + j, cslot kernel (i * R + j))) 0 R) as Ht.
    cbn beta in Ht. rewrite !Z.add_0_r in Ht.
    rewrite (Ht _ (fun j st => if nz (i * R + j) then processMultiplication m input j i kernel ((i * R + j) * TILE) st
      else Some st) st' HR).
    + unfold column_ref. destruct (for_up 0 R _ st'); simpl; [|done]. do 2 f_equal; [f_equal; lia|]. f_equal. lia.
    + clear Ht. intros j st1 Hj. rewrite aget_nthZ by nia. simpl. rewrite Hm2 by done.
      assert (0 <= i * R + j < C * R) as Hg by nia. destruct (cslot_bounds m n_row n_col kernel Hfit _ Hg).
      rewrite !Z.add_assoc, cslot_succ by lia. destruct (nz (i * R + j)) eqn:Ez; simpl.
      * rewrite (placed_product nk _ (i * R + j)) by (lia || (intros; by apply Hp)).
        by destruct (processMultiplication _ _ _ _ _ _ _).
      * by rewrite Z.add_0_r.
  - unfold col_nz in Ec. apply Z.ltb_ge in Ec.
    rewrite column_ref_zero by (rewrite ?Z.add_0_r; lia). simpl. unfold cslot. do 3 f_equal; lia.
Qed.

(** ** Interleaved metadata *)

Lemma bit_test md c : 0 <= c < 32 -> (Z.land md (uint32 (Z.shiftl 1 c)) =? 0) = negb (Z.testbit md c).
Proof.
  intros Hc. rewrite Z.shiftl_1_l. unfold uint32.
  rewrite wrapU_small by (split; [apply Z.pow_nonneg; lia|apply Z.pow_lt_mono_r; lia]).
  destruct (Z.testbit md c) eqn:E; simpl.
  - apply Z.eqb_neq. intros H. apply (f_equal (fun z => Z.testbit z c)) in H.
    by rewrite Z.land_spec, E, Z.pow2_bits_true, Z.testbit_0_l in H by lia.
  - apply Z.eqb_eq, Z.bits_inj'. intros b Hb. rewrite Z.land_spec, Z.pow2_bits_eqb, Z.testbit_0_l by lia.
    destruct (Z.eqb_spec c b) as [->|]; [by rewrite E|apply andb_false_r].
Qed.

(** The state of the loop over block [j] at row [i]. *)
Definition row_state (j i : Z) (st : S * list Z) : S * list Z * Z * Z * Z * Z :=
  (st.1, st.2, vslot m kernel j (j * R + i), block_start m kernel j + 1 + lazy_word i, lazy_bit i, i).

Lemma interleaved_row_step nk j i st :
  0 <= j < C -> 0 <= i < R ->
  block m kernel j nk -> 0 <= block_start m kernel j -> block_start m kernel (j + 1) <= zlen nk ->
  interleaved_row m input nk j (row_state j i st) =
  (st' ← (if nz (j * R + i) then processMultiplication m input i j kernel ((j * R + i) * TILE) st else Some st);
   Some (row_state j (i + 1) st')).
Proof.
  intros Hj Hi [_ [Hbits Htiles]] H0 Hlen. pose proof (metadata_word_lt m i Hi) as Hmw.
  assert (0 <= j * R + i < C * R) as Hg by nia. pose proof TILE_pos.
  assert (block_start m kernel j + 1 + metadata_words m <= vslot m kernel j (j * R + i)) by (apply vslot_ge; lia).
  assert (vslot m kernel j (j * R + i) <= block_start m kernel (j + 1)) by (apply vslot_le_end; lia).
  destruct (lazy_succ i ltac:(lia)) as [Ew Eb]. pose proof (lazy_advance i ltac:(lia)) as Ha.
  unfold interleaved_row, row_state. rewrite vslot_succ, <- Ew, <- Eb by lia.
  assert ((if lazy_bit i =? 32 then (block_start m kernel j + 1 + lazy_word i + 1, 0)
    else (block_start m kernel j + 1 + lazy_word i, lazy_bit i)) = (block_start m kernel j + 1 + i / 32, i mod 32)) as ->.
  { destruct (lazy_bit i =? 32); injection Ha as E1 E2; f_equal; lia. }
  rewrite aget_nthZ by lia. simpl.
  rewrite bit_test by (apply Z.mod_pos_bound; lia). rewrite Hbits by done.
  destruct st as [s out]. simpl. destruct (nz (j * R + i)) eqn:Ez; simpl.
  - pose proof (vslot_fits m kernel j i ltac:(lia) Hi Ez).
    rewrite (placed_product nk _ (j * R + i)) by (lia || (intros; by apply Htiles)).
    by destruct (processMultiplication _ _ _ _ _ _ _) as [[? ?]|].
  - by rewrite Z.add_0_r.
Qed.

(** The loop over a block from row [i] on is the reference on the rest of the
    column; [R - i] iterations are enough. *)
Lemma interleaved_rows nk j (n : nat) i (fuel : nat) st :
  0 <= j < C -> 0 <= i -> i + Z.of_nat n = R -> (n <= fuel)%nat ->
  block m kernel j nk -> 0 <= block_start m kernel j -> block_start m kernel (j + 1) <= zlen nk ->
  ('(s, o, v, _, _, _) ← while_fuel fuel
      (fun '(_, _, vptr, _, _, _) => vptr <? block_start m kernel (j + 1))
      (interleaved_row m input nk j) (row_state j i st);
   Some (s, o, v)) =
  ('(s, o) ← column_ref j i st; Some (s, o, block_start m kernel (j + 1))).
Proof.
  intros Hj Hi0 Hi Hfuel Hb H0 Hlen. revert i fuel st Hi0 Hi Hfuel.
  induction n as [|n IH]; intros i fuel st Hi0 Hi Hfuel.
  all: assert (vslot m kernel j (j * R + i) <= block_start m kernel (j + 1)) by (apply vslot_le_end; lia).
  - replace (j * R + i) with ((j + 1) * R) in * by lia.
    rewrite while_fuel_done.
    + simpl. unfold column_ref. rewrite for_up_empty by lia. destruct st; simpl.
      by replace (j * R + i) with ((j + 1) * R) by lia.
    + simpl. replace (j * R + i) with ((j + 1) * R) by lia. apply Z.ltb_irrefl.
  - destruct (Z.ltb_spec (vslot m kernel j (j * R + i)) (block_start m kernel (j + 1))) as [Hlt|Hge].
    + destruct fuel as [|fuel]; [lia|]. rewrite while_fuel_unfold by (by apply Z.ltb_lt).
      rewrite interleaved_row_step by (lia || done). unfold column_ref. rewrite (for_up_step i) by lia.
      destruct (if nz (j * R + i) then _ else _) as [st'|]; simpl; [|done]. apply IH; lia.
    + rewrite while_fuel_done by (by apply Z.ltb_ge). rewrite column_ref_zero; try lia.
      * destruct st; simpl. do 2 f_equal. lia.
      * rewrite <- vslot_end in *. unfold vslot, cslot in *. pose proof TILE_pos. nia.
Qed.

Lemma computeInterleavedMetaData_ref nk st :
  32 <= R -> (forall j, 0 <= j < C -> block m kernel j nk) -> block_start m kernel C <= zlen nk ->
  computeInterleavedMetaData m input nk st = sparse_ref m input kernel st.
Proof.
  intros HR Hb Hlen. rewrite sparse_ref_nest. unfold computeInterleavedMetaData.
  pose proof (fits_C_nonneg _ _ _ _ Hfit) as HC. assert (R <= 32 * metadata_words m /\ 0 <= metadata_words m) as [Hm1 Hm2] by (apply metadata_words_bounds; lia).
  rewrite Z.min_l, Z.sub_diag by done. change ((R + 32 - 1) / 32) with (metadata_words m).
  pose proof (for_up_track (fun j st => (st, block_start m kernel j)) 0 C) as Ht.
  rewrite (Ht _ (fun i => column_ref i 0) st HC); [by destruct (for_up 0 C _ st)|].
  clear Ht. intros j st' Hj. destruct st' as [s out].
  assert (block_start m kernel (j + 1) <= block_start m kernel C) by (apply block_start_mono; lia).
  assert (0 <= block_start m kernel j) as H0.
  { change 0 with (block_start m kernel 0). apply block_start_mono; lia. }
  assert (block_start m kernel j + 1 + metadata_words m <= vslot m kernel j (j * R + R)) as Hge by (apply vslot_ge; lia).
  replace (j * R + R) with ((j + 1) * R) in Hge by lia. rewrite vslot_end in Hge.
  destruct (Hb j Hj) as [Hh _]. rewrite aget_nthZ, Hh by lia. simpl.
  replace (block_start m kernel j + (block_start m kernel (j + 1) - block_start m kernel j))
    with (block_start m kernel (j + 1)) by lia.
  pose proof (interleaved_rows nk j (Z.to_nat R) 0 (Z.to_nat (33 * (zlen nk + 1))) (s, out)) as Hrows.
  unfold row_state in Hrows. simpl in Hrows. rewrite !Z.add_0_r, vslot_start in Hrows.
  specialize (Hrows Hj ltac:(lia) ltac:(lia) ltac:(lia) (Hb j Hj) H0 ltac:(lia)).
  unfold interleaved_block. unfold lazy_word, lazy_bit in Hrows. simpl in Hrows.
  destruct (while_fuel _ _ _ _) as [[[[[[s1 o1] v1] ?] ?] ?]|]; simpl in Hrows |- *.
  - destruct (column_ref j 0 (s, out)) as [[s2 o2]|]; simpl in *; [|done]. congruence.
  - by destruct (column_ref j 0 (s, out)) as [[s2 o2]|].
Qed.
End Consumers.
