(* ===== verification/MatMul.v ===== *)
(** * MatMul: what a whole product computes

    Every format runs tiles in some order; [wp_sparse_ref], [wp_sparse_ref_rows]
    and [wp_dense_ref] say what any such run leaves in the output, for any
    accelerator that satisfies the interface: word by word, the accumulation of
    the products of the tiles of its column.  For integer activations this is
    the matrix product modulo the width of an activation, and zero tiles
    contribute nothing. *)

From stdpp Require Import prelude.
From Stdlib Require Import ZArith Lia.
From S2P Require Import Prelude Machine Float32 Systolic SystolicCorrect Accelerator SmmGem SparseMM TileProduct SparseRep SparseSpec.
From S2P Require Import SparseEncode SparseCorrect.

Section Accumulation.
Context {cfg : Config} {wf : WfConfig cfg} {S : Type} {A : Accelerator S}
  {L : AcceleratorLaws (cfg := cfg) S}.
Context (m : SparseMatrixMultiplier) (n_row n_col : Z) (kernel input : list Z).
Hypothesis Hfit : fits m n_row n_col kernel.

Abbreviation R := (tiles_in_row m).
Abbreviation C := (tiles_in_col m).
Abbreviation K := KERNEL_DIM.
Abbreviation MAC := MAX_ACT_COL.
Abbreviation n := (seq_len m).

Hypothesis Hseq : 0 <= n.
Hypothesis Hinput : R * MAC * n <= zlen input.

(** Word [k] of tile column [col], after the first [rows] tiles of the column
    that [sel] selects. *)
Fixpoint word_acc (sel : Z -> bool) (col k : Z) (rows : nat) (v : Z) : Z :=
  match rows with
  | O => v
  | Datatypes.S r =>
      let i := Z.of_nat r in
      let v' := word_acc sel col k r v in
      if sel (col * R + i)
      then add_word v' (prod_word (weight_tile kernel ((col * R + i) * TILE)) (act_tile input (i * MAC * n) n) k)
      else v'
  end.

(** [accumulated sel rows out out']: column [c] of the output has accumulated
    its first [rows c] tiles, the rest of the buffer is as before. *)
Definition accumulated (sel : Z -> bool) (rows : Z -> Z) (out out' : list Z) : Prop :=
  zlen out' = zlen out /\
  forall k, 0 <= k < zlen out ->
    out'.[k] = if k <? C * (MAC * n)
               then word_acc sel (k / (MAC * n)) (k mod (MAC * n)) (Z.to_nat (rows (k / (MAC * n)))) out.[k]
               else out.[k].

Lemma span_pos k : 0 <= k -> k < C * (MAC * n) -> 0 < MAC * n.
Proof.
  intros H0 Hk. geometry. destruct (Z.eq_dec (MAC * n) 0) as [E|]; [rewrite E, Z.mul_0_r in Hk; lia|nia].
Qed.

Lemma accumulated_start sel out : accumulated sel (fun _ => 0) out out.
Proof. split; [done|]. intros k Hk. by destruct (k <? _). Qed.

Lemma accumulated_ext sel rows rows' out out' :
  (forall c, 0 <= c < C -> rows c = rows' c) -> accumulated sel rows out out' -> accumulated sel rows' out out'.
Proof.
  intros Hr [Hl Ho]. split; [done|]. intros k Hk. rewrite Ho by done.
  destruct (Z.ltb_spec k (C * (MAC * n))) as [Hk'|]; [|done].
  assert (0 < MAC * n) by (apply (span_pos k); lia). rewrite Hr; [done|].
  split; [apply Z.div_pos; lia|apply Z.div_lt_upper_bound; nia].
Qed.

Lemma accumulated_unique sel rows out o1 o2 :
  accumulated sel rows out o1 -> accumulated sel rows out o2 -> o1 = o2.
Proof.
  intros [Hl1 H1] [Hl2 H2]. apply list_eq_nthZ; [congruence|]. intros i Hi.
  rewrite H1, H2 by lia. done.
Qed.

(** The position of a word in the output tells its tile column. *)
Lemma word_column i k :
  0 < MAC * n -> (i * MAC * n <=? k) && (k <? i * MAC * n + MAC * n) = (k / (MAC * n) =? i).
Proof.
  intros Hp. pose proof (Z.div_mod k (MAC * n)) as Hd. pose proof (Z.mod_pos_bound k (MAC * n) Hp).
  assert (k = MAC * n * (k / (MAC * n)) + k mod (MAC * n)) by (apply Hd; lia).
  set (q := k / (MAC * n)) in *. set (r := k mod (MAC * n)) in *. set (p := MAC * n) in *.
  replace (i * MAC * n) with (i * p) by (unfold p; lia).
  destruct (Z.eqb_spec q i) as [->|]; zcases; simpl; try done; try nia.
Qed.

(** One tile of the schedule. *)
Lemma wp_schedule_step sel rows i j (s : S) out out' (Q : S * list Z -> Prop) :
  0 <= i < C -> 0 <= j < R -> rows i = j -> acc_ok s -> C * MAC * n <= zlen out ->
  accumulated sel rows out out' ->
  (forall s2 out2, acc_ok s2 ->
     accumulated sel (fun c => if c =? i then j + 1 else rows c) out out2 -> Q (s2, out2)) ->
  wp (if sel (i * R + j) then processMultiplication m input j i kernel ((i * R + j) * TILE) (s, out')
      else Some (s, out')) Q.
Proof.
  intros Hi Hj Hrows Hok Hout [Hl Ho] HQ. geometry.
  assert (0 <= i * R + j < C * R) as Hg by nia.
  destruct (fits_tile_bounds _ _ _ _ Hfit _ Hg) as [Hb1 Hb2].
  destruct (sel (i * R + j)) eqn:Es.
  - apply wp_processMultiplication; try done; try lia; try nia.
    intros s2 out2 Hok2 [Hl2 Ho2]. apply HQ; [done|]. split; [congruence|]. intros k Hk.
    rewrite Ho2, Ho by done. destruct (Z.eq_dec (MAC * n) 0) as [E|Hp].
    { replace (i * MAC * n) with 0 by nia. rewrite E, Z.mul_0_r. zcases; simpl; try done; lia. }
    assert (0 < MAC * n) by nia. rewrite word_column by done.
    destruct (Z.eqb_spec (k / (MAC * n)) i) as [Hki|].
    + assert (k < C * (MAC * n)) as Hlt.
      { pose proof (Z.div_mod k (MAC * n) Hp). pose proof (Z.mod_pos_bound k (MAC * n)). nia. }
      apply Z.ltb_lt in Hlt. rewrite Hlt, Hki, Hrows.
      replace (Z.to_nat (j + 1)) with (Datatypes.S (Z.to_nat j)) by lia. cbn [word_acc].
      rewrite !Z2Nat.id, Es by lia. do 2 f_equal. pose proof (Z.div_mod k (MAC * n) Hp). nia.
    + done.
  - apply wp_ret, HQ; [done|]. split; [done|]. intros k Hk. rewrite Ho by done.
    destruct (k <? C * (MAC * n)); [|done].
    destruct (Z.eqb_spec (k / (MAC * n)) i) as [Hki|]; [|done]. rewrite Hki, Hrows.
    replace (Z.to_nat (j + 1)) with (Datatypes.S (Z.to_nat j)) by lia. cbn [word_acc].
    by rewrite !Z2Nat.id, Es by lia.
Qed.

(** Two ways of writing the same progress. *)
Ltac rows_ext H := eapply accumulated_ext; [|exact H]; intros ? ?; cbn beta; zcases; lia.

(** Column after column. *)
Lemma wp_schedule_columns sel (s : S) out (Q : S * list Z -> Prop) :
  acc_ok s -> C * MAC * n <= zlen out ->
  (forall s' out', acc_ok s' -> accumulated sel (fun _ => R) out out' -> Q (s', out')) ->
  wp (for_up 0 C (fun i st => for_up 0 R (fun j st =>
        if sel (i * R + j) then processMultiplication m input j i kernel ((i * R + j) * TILE) st
        else Some st) st) (s, out)) Q.
Proof.
  intros Hok Hout HQ. pose proof (fits_R_nonneg _ _ _ _ Hfit) as HR. pose proof (fits_C_nonneg _ _ _ _ Hfit) as HC.
  apply (wp_for_up (fun i '(s', out') => acc_ok s' /\ accumulated sel (fun c => if c <? i then R else 0) out out')).
  - done.
  - split; [done|]. apply (accumulated_ext _ (fun _ => 0)); [|apply accumulated_start]. intros c Hc. zcases; lia.
  - intros i [s1 o1] Hi [Hok1 Ha1].
    apply (wp_for_up (fun j '(s', out') => acc_ok s' /\
      accumulated sel (fun c => if c <? i then R else if c =? i then j else 0) out out')).
    + done.
    + split; [done|]. rows_ext Ha1.
    + intros j [s2 o2] Hj [Hok2 Ha2].
      eapply wp_schedule_step; [done|done| |done|done|exact Ha2|].
      * cbn beta. zcases; lia.
      * intros s3 o3 Hok3 Ha3. split; [done|].
        rows_ext Ha3.
    + intros [s2 o2] [Hok2 Ha2]. split; [done|].
      rows_ext Ha2.
  - intros [s1 o1] [Hok1 Ha1]. apply HQ; [done|].
    rows_ext Ha1.
Qed.

(** Row after row. *)
Lemma wp_schedule_rows sel (s : S) out (Q : S * list Z -> Prop) :
  acc_ok s -> C * MAC * n <= zlen out ->
  (forall s' out', acc_ok s' -> accumulated sel (fun _ => R) out out' -> Q (s', out')) ->
  wp (for_up 0 R (fun i st => for_up 0 C (fun j st =>
        if sel (j * R + i) then processMultiplication m input i j kernel ((j * R + i) * TILE) st
        else Some st) st) (s, out)) Q.
Proof.
  intros Hok Hout HQ. pose proof (fits_R_nonneg _ _ _ _ Hfit) as HR. pose proof (fits_C_nonneg _ _ _ _ Hfit) as HC.
  apply (wp_for_up (fun i '(s', out') => acc_ok s' /\ accumulated sel (fun c => i) out out')).
  - done.
  - split; [done|]. apply accumulated_start.
  - intros i [s1 o1] Hi [Hok1 Ha1].
    apply (wp_for_up (fun j '(s', out') => acc_ok s' /\
      accumulated sel (fun c => if c <? j then i + 1 else i) out out')).
    + done.
    + split; [done|]. rows_ext Ha1.
    + intros j [s2 o2] Hj [Hok2 Ha2].
      eapply wp_schedule_step; [done|done| |done|done|exact Ha2|].
      * cbn beta. zcases; lia.
      * intros s3 o3 Hok3 Ha3. split; [done|].
        rows_ext Ha3.
    + intros [s2 o2] [Hok2 Ha2]. split; [done|].
      rows_ext Ha2.
  - intros [s1 o1] [Hok1 Ha1]. by apply HQ.
Qed.

(** ** The three references *)

Lemma wp_sparse_ref (s : S) out (Q : S * list Z -> Prop) :
  acc_ok s -> C * MAC * n <= zlen out ->
  (forall s' out', acc_ok s' -> accumulated (nz_tile kernel) (fun _ => R) out out' -> Q (s', out')) ->
  wp (sparse_ref m input kernel (s, out)) Q.
Proof. intros. rewrite (sparse_ref_nest m n_row n_col kernel Hfit). by apply wp_schedule_columns. Qed.

Lemma wp_sparse_ref_rows (s : S) out (Q : S * list Z -> Prop) :
  acc_ok s -> C * MAC * n <= zlen out ->
  (forall s' out', acc_ok s' -> accumulated (nz_tile kernel) (fun _ => R) out out' -> Q (s', out')) ->
  wp (sparse_ref_rows m input kernel (s, out)) Q.
Proof. intros. by apply wp_schedule_rows. Qed.

Lemma wp_dense_ref (s : S) out (Q : S * list Z -> Prop) :
  acc_ok s -> C * MAC * n <= zlen out ->
  (forall s' out', acc_ok s' -> accumulated (fun _ => true) (fun _ => R) out out' -> Q (s', out')) ->
  wp (dense_ref m kernel input (s, out)) Q.
Proof.
  intros Hok Hout HQ. pose proof (fits_R_nonneg _ _ _ _ Hfit) as HR. pose proof (fits_C_nonneg _ _ _ _ Hfit) as HC.
  unfold dense_ref.
  rewrite <- (for_up_ext 0 (C * R) (fun g st => if true then processMultiplication m input (g mod R) (g / R)
    kernel ((g / R * R + g mod R) * TILE) st else Some st)).
  - rewrite <- (for_up_nest C R (fun i j st => if true then processMultiplication m input j i
      kernel ((i * R + j) * TILE) st else Some st)) by done.
    by apply (wp_schedule_columns (fun _ => true)).
  - intros g st Hg. rewrite tile_number; [done|]. by eapply rows_pos.
Qed.
End Accumulation.

(** ** Integer activations *)

Section Integer.
Context {cfg : Config} {wf : WfConfig cfg}.
Hypothesis Hint : ACTIVATION_FP = false.
Abbreviation K := KERNEL_DIM.
Abbreviation MAC := MAX_ACT_COL.

Lemma mac_int inp w acc : mac inp w acc mod 2 ^ 32 = (inp * w + acc) mod 2 ^ 32.
Proof.
  unfold mac. rewrite Hint. unfold int32. rewrite wrapS_mod by lia.
  rewrite <- Zplus_mod_idemp_l, wrapS_mod, Zplus_mod_idemp_l by lia. done.
Qed.

(** A column of cells computes the inner product modulo [2 ^ 32]. *)
Lemma partial_int w x c k :
  0 <= k -> partial w x c (Z.to_nat k) mod 2 ^ 32 = zsum (fun r => x r * w r c) k mod 2 ^ 32.
Proof.
  revert k. refine (Zup_ind _ 0 _ _); [done|]. intros k Hk IH.
  rewrite partial_S, zsum_succ, mac_int by done.
  rewrite <- Zplus_mod_idemp_r, IH, Zplus_mod_idemp_r. f_equal. lia.
Qed.

Lemma dot_int w x c : dot w x c = u_activation_t (zsum (fun r => x r * w r c) K).
Proof.
  geometry. unfold dot, u_activation_t, wrapU. apply (mod_pow2_weaken _ 32); [lia|]. apply partial_int. lia.
Qed.

Lemma act_lane_add v p l :
  0 <= v < 2 ^ 32 -> 0 <= l < ACT_PER_BUS ->
  act_lane (add_word v p) l = activation_t (act_lane v l + act_lane p l).
Proof.
  intros Hv Hl. geometry. unfold act_lane. rewrite !lane_be_le by lia. rewrite add_word_lane by lia.
  unfold add_act. rewrite Hint. unfold activation_t. rewrite wrapS_wrapU.
  apply wrapS_small; [lia|]. apply wrapS_range. lia.
Qed.

Lemma act_lane_prod w x k l :
  0 <= l < ACT_PER_BUS ->
  act_lane (prod_word w x k) l =
  activation_t (zsum (fun r => x (k / MAC) r * w r (k mod MAC * ACT_PER_BUS + l)) K).
Proof.
  intros Hl. geometry. unfold act_lane, prod_word, out_word. rewrite lane_be_pack; [|lia|lia|].
  - rewrite dot_int. apply wrapS_wrapU.
  - intros. apply wrapU_range. lia.
Qed.

Lemma activation_add a b : activation_t (activation_t a + activation_t b) = activation_t (a + b).
Proof.
  geometry. apply wrapS_cong. unfold activation_t.
  rewrite <- Zplus_mod_idemp_l, <- Zplus_mod_idemp_r, !wrapS_mod by lia.
  by rewrite Zplus_mod_idemp_r, Zplus_mod_idemp_l.
Qed.

Lemma activation_idem a : activation_t (activation_t a) = activation_t a.
Proof. geometry. apply wrapS_small; [lia|]. apply wrapS_range. lia. Qed.

(** A zero tile adds nothing. *)
Lemma zero_tile_prod kernel ti x k v :
  tile_nz kernel ti = false -> 0 <= v < 2 ^ 32 ->
  add_word v (prod_word (weight_tile kernel ti) x k) = v.
Proof.
  intros Hz Hv. geometry. pose proof act_bits_bus as HB. rewrite tile_nz_false in Hz.
  assert (WEIGHT_FP = false) as Hwfp.
  { destruct WEIGHT_FP eqn:E; [|done]. destruct (wf_weight_fp E). congruence. }
  assert (forall r c, 0 <= r < K -> 0 <= c < K -> weight_tile kernel ti r c = 0) as Hw.
  { intros r c Hr Hc. unfold weight_tile, words_weight. pose proof max_w_col_spec as HM.
    assert (0 <= (r * K + c) / W_PER_BUS < TILE) as Hk.
    { split; [apply Z.div_pos; nia|]. apply Z.div_lt_upper_bound; [lia|]. unfold TILE. nia. }
    apply Hz in Hk. unfold word_nonzero in Hk. rewrite Hwfp in Hk. apply negb_false_iff, Z.eqb_eq in Hk.
    rewrite Hk. unfold weight_lane, weight_t. rewrite lane_be_0. apply wrapS_small; [lia|].
    pose proof (Z.pow_pos_nonneg 2 (WEIGHT_BITS - 1)). lia. }
  apply (lanes_ext ACTIVATION_BITS ACT_PER_BUS); try lia; rewrite ?HB; [by apply add_word_range|done|].
  intros l Hl. rewrite add_word_lane by lia. unfold add_act. rewrite Hint.
  assert (0 <= ACT_PER_BUS - l - 1 < ACT_PER_BUS) as Hl' by lia.
  pose proof (act_lane_prod (weight_tile kernel ti) x k _ Hl') as Hp.
  unfold act_lane in Hp. rewrite lane_be_le in Hp by lia.
  replace (ACT_PER_BUS - (ACT_PER_BUS - l - 1) - 1) with l in Hp by lia. rewrite Hp.
  rewrite (zsum_ext _ (fun _ => 0)).
  2:{ intros r Hr. rewrite Hw; [lia|done|]. pose proof max_act_col_spec.
      pose proof (Z.mod_pos_bound k MAC max_act_col_pos). nia. }
  replace (zsum (fun _ => 0) K) with 0.
  2:{ symmetry. assert (Z.abs (zsum (fun _ => 0) K) <= K * 0); [apply zsum_bound; lia|lia]. }
  rewrite activation_add, Z.add_0_r. unfold activation_t, wrapU. rewrite wrapS_mod by lia.
  apply Z.mod_small. apply lane_le_range. lia.
Qed.

Section Product.
Context (m : SparseMatrixMultiplier) (kernel input : list Z).
Abbreviation R := (tiles_in_row m).
Abbreviation C := (tiles_in_col m).
Abbreviation n := (seq_len m).

(** Entry [(t, e)] of the activation matrix in a buffer: tile columns one after
    the other, each [n] rows of [MAC] words. *)
Definition act_mat (buf : list Z) (t e : Z) : Z := act_tile buf (e / K * MAC * n) n t (e mod K).

(** Entry [(e, c)] of the weight matrix in a kernel of tiles. *)
Definition weight_mat (e c : Z) : Z :=
  weight_tile kernel ((c / K * R + e / K) * TILE) (e mod K) (c mod K).

(** Entry [(t, c)] of the product. *)
Definition product (t c : Z) : Z := zsum (fun e => act_mat input t e * weight_mat e c) (R * K).

Lemma word_acc_range sel col k rows v :
  0 <= v < 2 ^ 32 -> 0 <= word_acc m kernel input sel col k rows v < 2 ^ 32.
Proof.
  intros Hv. induction rows as [|r IH]; [done|]. cbn [word_acc].
  destruct (sel _); [|done]. by apply add_word_range.
Qed.

Lemma word_acc_sparse col k rows v :
  0 <= v < 2 ^ 32 ->
  word_acc m kernel input (nz_tile kernel) col k rows v = word_acc m kernel input (fun _ => true) col k rows v.
Proof.
  intros Hv. induction rows as [|r IH]; [done|]. cbn [word_acc]. rewrite IH.
  destruct (nz_tile kernel (col * R + Z.of_nat r)) eqn:E; [done|].
  rewrite zero_tile_prod; [done|done|by apply word_acc_range].
Qed.

Lemma word_acc_lane col k l rows v :
  0 <= v < 2 ^ 32 -> 0 <= l < ACT_PER_BUS ->
  act_lane (word_acc m kernel input (fun _ => true) col k rows v) l =
  activation_t (act_lane v l + zsum (fun i => zsum (fun r =>
    act_tile input (i * MAC * n) n (k / MAC) r *
    weight_tile kernel ((col * R + i) * TILE) r (k mod MAC * ACT_PER_BUS + l)) K) (Z.of_nat rows)).
Proof.
  intros Hv Hl. induction rows as [|r IH].
  - simpl. rewrite zsum_0, Z.add_0_r. unfold act_lane. by rewrite activation_idem.
  - cbn [word_acc]. rewrite act_lane_add, IH, act_lane_prod by (done || by apply word_acc_range).
    rewrite activation_add. replace (Z.of_nat (Datatypes.S r)) with (Z.of_nat r + 1) by lia.
    rewrite zsum_succ by lia. by rewrite Z.add_assoc.
Qed.

(** The sparse and the dense runs leave the same output. *)
Lemma accumulated_sparse rows out out' :
  words_ok out ->
  accumulated m kernel input (nz_tile kernel) rows out out' ->
  accumulated m kernel input (fun _ => true) rows out out'.
Proof.
  intros Hok [Hl Ho]. split; [done|]. intros k Hk. rewrite Ho by done.
  destruct (k <? C * (MAC * n)); [|done]. apply word_acc_sparse. by apply Hok.
Qed.

(** Where an entry of the matrix is. *)
Lemma entry_word t c :
  0 <= t < n -> 0 <= c < C * K ->
  let k := c / K * (MAC * n) + t * MAC + c mod K / ACT_PER_BUS in
  0 <= k < C * (MAC * n) /\ k / (MAC * n) = c / K /\
  k mod (MAC * n) / MAC = t /\ k mod (MAC * n) mod MAC = c mod K / ACT_PER_BUS.
Proof.
  intros Ht Hc k. geometry. pose proof max_act_col_spec as HM.
  assert (0 <= c mod K < K) as H1 by (apply Z.mod_pos_bound; lia).
  assert (0 <= c mod K / ACT_PER_BUS < MAC) as H2.
  { split; [apply Z.div_pos; lia|apply Z.div_lt_upper_bound; lia]. }
  assert (0 <= c / K < C) as H3 by (split; [apply Z.div_pos; lia|apply Z.div_lt_upper_bound; lia]).
  assert (0 <= t * MAC + c mod K / ACT_PER_BUS < MAC * n) as H4 by nia.
  assert (k / (MAC * n) = c / K) as Hd.
  { unfold k. rewrite <- Z.add_assoc, Z.add_comm, Z.div_add, Z.div_small by lia. lia. }
  assert (k mod (MAC * n) = t * MAC + c mod K / ACT_PER_BUS) as Hm.
  { unfold k. rewrite <- Z.add_assoc, Z.add_comm, Z.mod_add, Z.mod_small by lia. lia. }
  rewrite Hd, Hm. destruct (call_index t (c mod K / ACT_PER_BUS) H2) as [-> ->].
  split; [|done]. unfold k. nia.
Qed.

(** The whole product, entry by entry. *)
Lemma accumulated_product out out' t c :
  words_ok out -> C * MAC * n <= zlen out ->
  accumulated m kernel input (fun _ => true) (fun _ => R) out out' ->
  0 <= R -> 0 <= t < n -> 0 <= c < C * K ->
  act_mat out' t c = activation_t (act_mat out t c + product t c).
Proof.
  intros Hok Hlen [Hl Ho] HR Ht Hc. geometry. pose proof max_act_col_spec as HM.
  destruct (entry_word t c Ht Hc) as (Hk & E1 & E2 & E3).
  assert (0 <= c mod K mod ACT_PER_BUS < ACT_PER_BUS) as Hlane by (apply Z.mod_pos_bound; lia).
  unfold act_mat at 1 2, act_tile. destruct (Z.ltb_spec t n); [|lia].
  replace (c / K * MAC * n + t * MAC + c mod K / ACT_PER_BUS)
    with (c / K * (MAC * n) + t * MAC + c mod K / ACT_PER_BUS) by lia.
  set (k := c / K * (MAC * n) + t * MAC + c mod K / ACT_PER_BUS) in *.
  assert ((k <? C * (MAC * n)) = true) as Hlt by (apply Z.ltb_lt; lia).
  rewrite Ho, Hlt by lia. rewrite word_acc_lane by (done || (apply Hok; lia)).
  do 2 f_equal. unfold product. rewrite zsum_nest by lia. rewrite Z2Nat.id by done.
  rewrite E1, E2, E3. apply zsum_ext. intros i Hi. apply zsum_ext. intros r Hr.
  assert ((i * K + r) / K = i) as Ed by (rewrite Z.add_comm, Z.div_add, Z.div_small by lia; lia).
  assert ((i * K + r) mod K = r) as Em by (rewrite Z.add_comm, Z.mod_add, Z.mod_small by lia; lia).
  unfold act_mat, weight_mat. rewrite Ed, Em. do 2 f_equal.
  rewrite (Z.div_mod (c mod K) ACT_PER_BUS) at 3 by lia. lia.
Qed.
End Product.
End Integer.
