(* ===== verification/MatMulTest.v ===== *)
(** * MatMulTest: the test program of the accelerator

    Translates [src/mat_mult_test.cpp]: the packing of a matrix into bus words,
    the reference multiplications, the driver that multiplies a matrix by the
    weights held in the array, and the comparison of the two.  Matrices are flat,
    row-major.  A loop with stride [ACT_PER_BUS] counts its iterations.  Prints and
    the calls of [m5] are left out. *)

From stdpp Require Import prelude.
From Stdlib Require Import ZArith Lia SpecFloat.
From S2P Require Import Prelude Machine Float32 Systolic SystolicCorrect Accelerator SmmGem AcceleratorInstances SparseMM TileProduct.

Section MatMulTest.
Context {cfg : Config}.

Definition ceil_div (x y : Z) : Z := (x + y - 1) / y.

(** The state is the result so far, [currentEl] and [currentByteIdx]. *)
Definition row_compress_matrix (NR NC : Z) (mat : list Z) (element_per_word element_bits : Z) : option (list Z) :=
  '(res, currentEl, currentByteIdx) ← for_up 0 NR (fun r st =>
    for_up 0 NC (fun c '(res, currentEl, currentByteIdx) =>
      v ← aget mat (r * NC + c);
      let sub_element := uint32 (Z.land v (Z.shiftl 1 element_bits - 1)) in
      let currentEl := Z.lor currentEl
        (uint32 (Z.shiftl sub_element (element_bits * (element_per_word - currentByteIdx - 1)))) in
      let currentByteIdx := currentByteIdx + 1 in
      if currentByteIdx =? element_per_word then Some (res ++ [currentEl], 0, 0)
      else Some (res, currentEl, currentByteIdx)) st) ([], 0, 0);
  Some (if negb (currentByteIdx =? 0) then res ++ [currentEl] else res).

Definition matrix_multiply_int (M N P : Z) (lhs rhs out : list Z) : option (list Z) :=
  for_up 0 M (fun i out =>
    for_up 0 P (fun j out =>
      out ← aset out (i * P + j) 0;
      for_up 0 N (fun k out =>
        o ← aget out (i * P + j);
        l ← aget lhs (i * N + k);
        r ← aget rhs (k * P + j);
        aset out (i * P + j) (activation_t (int32 (o + int32 (l * r))))) out) out) out.

(** [out_act] is the bit pattern of the union; [out_act.fp += ...] rewrites it. *)
Definition matrix_multiply_fp (M N P : Z) (lhs rhs out : list Z) : option (list Z) :=
  for_up 0 M (fun i out =>
    for_up 0 P (fun j out =>
      out_act ← for_up 0 N (fun k out_act =>
        l ← aget lhs (i * N + k);
        r ← aget rhs (k * P + j);
        let w := if WEIGHT_FP then f32_of_bits r else f32_of_Z r in
        Some (int32 (bits_of_f32 (f32_add (f32_of_bits out_act) (f32_mul (f32_of_bits l) w))))) 0;
      aset out (i * P + j) out_act) out) out.

Definition should_stream_systolic_array (idx : Z) : bool :=
  existsb (fun delta => (idx + Z.of_nat delta) mod SA_SIZE =? SA_SIZE - 1) (seq 0 (Z.to_nat ACT_PER_BUS)).

Section Driver.
Context {S : Type} {A : Accelerator S}.

(** One bus word in, one out: [smmStream] on the last word of a column. *)
Definition send (idx v : Z) (s : S) : option (Z * S) :=
  if should_stream_systolic_array idx then smmStream (idx mod SA_SIZE) v s else smmQueue (idx mod SA_SIZE) v s.

(** What both loops do with the result: the number of streams and the output. *)
Definition receive (idx res lastOut : Z) (st : Z * list Z * Z) : option (Z * list Z * Z) :=
  let '(num_streams, out, outPtr) := st in
  let num_streams := if should_stream_systolic_array idx then num_streams + 1 else num_streams in
  if 2 * SA_SIZE - 1 <=? num_streams then
    _ ← assert_ (outPtr <? lastOut);
    out ← aset out outPtr (uint32 res);
    Some (num_streams, out, outPtr + 1)
  else Some (num_streams, out, outPtr).

Definition systolic_array_matrix_multiply (lhs rhs out : list Z) (M N P lhs_size out_size : Z) (s : S)
  : option (list Z * S) :=
  _ ← assert_ (N =? SA_SIZE);
  _ ← assert_ (P =? SA_SIZE);
  let weight_array_len := ceil_div (N * P) W_PER_BUS in
  s ← for_up 0 weight_array_len (fun i s =>
    w ← aget rhs i; '(_, s) ← smmParamWrite (i * W_PER_BUS) w s; Some s) s;
  _ ← assert_ (4 <=? SA_SIZE);
  let lastOut := out_size in
  let lastIn := lhs_size in
  '(s, st, inPtr) ← for_up 0 (ceil_div (M * SA_SIZE) ACT_PER_BUS) (fun n '(s, st, inPtr) =>
    let idx := n * ACT_PER_BUS in
    _ ← assert_ (inPtr <? lastIn);
    inputWord ← aget lhs inPtr;
    '(res, s) ← send idx inputWord s;
    st ← receive idx res lastOut st;
    Some (s, st, inPtr + 1)) (s, (0, out, 0), 0);
  '(s, st, _) ← while_fuel (Z.to_nat (out_size + MAX_ACT_COL * (2 * SA_SIZE))) (fun '(_, (_, _, outPtr), _) => outPtr <? lastOut)
    (fun '(s, st, n) =>
      let idx := n * ACT_PER_BUS in
      '(res, s) ← send idx 0 s;
      st ← receive idx res lastOut st;
      Some (s, st, n + 1)) (s, st, ceil_div (M * SA_SIZE) ACT_PER_BUS);
  Some (st.1.2, s).
End Driver.

(** ** The test *)

Definition fill_matrix_int (conv : Z -> Z) (NR NC : Z) (f : Z -> Z -> Z) (mat : list Z) : option (list Z) :=
  for_up 0 NR (fun r mat => for_up 0 NC (fun c mat => aset mat (r * NC + c) (conv (f r c))) mat) mat.

Definition fill_matrix_fp (conv : Z -> Z) (NR NC : Z) (f : Z -> Z -> f32) (mat : list Z) : option (list Z) :=
  for_up 0 NR (fun r mat => for_up 0 NC (fun c mat => aset mat (r * NC + c) (conv (bits_of_f32 (f r c)))) mat) mat.

Definition test_systolic_array_matrix_multiply {S} {A : Accelerator S} (RES_NUM_ROWS : Z) (s : S) : option (bool * S) :=
  let RES_NUM_COLS := SA_SIZE in
  rhs_weights ← (if WEIGHT_FP
                 then fill_matrix_fp weight_t SA_SIZE SA_SIZE (fun r c => f32_of_Z (c + r * SA_SIZE)) (zeros (SA_SIZE * SA_SIZE))
                 else fill_matrix_int weight_t SA_SIZE SA_SIZE (fun r c => c + r * SA_SIZE) (zeros (SA_SIZE * SA_SIZE)));
  lhs_mult ← (if ACTIVATION_FP
              then fill_matrix_fp activation_t RES_NUM_ROWS SA_SIZE (fun r c => f32_of_Z (10 * r + c)) (zeros (RES_NUM_ROWS * SA_SIZE))
              else fill_matrix_int activation_t RES_NUM_ROWS SA_SIZE (fun r c => 10 * r + c) (zeros (RES_NUM_ROWS * SA_SIZE)));
  compressed_weights ← row_compress_matrix SA_SIZE SA_SIZE rhs_weights W_PER_BUS WEIGHT_BITS;
  compressed_lhs_mult ← row_compress_matrix RES_NUM_ROWS SA_SIZE lhs_mult ACT_PER_BUS ACTIVATION_BITS;
  let res := zeros (RES_NUM_ROWS * RES_NUM_COLS) in
  res ← (if ACTIVATION_FP then matrix_multiply_fp RES_NUM_ROWS SA_SIZE RES_NUM_COLS lhs_mult rhs_weights res
         else matrix_multiply_int RES_NUM_ROWS SA_SIZE RES_NUM_COLS lhs_mult rhs_weights res);
  compressed_result ← row_compress_matrix RES_NUM_ROWS RES_NUM_COLS res ACT_PER_BUS ACTIVATION_BITS;
  let res_systolic_array := zeros (ceil_div (RES_NUM_ROWS * RES_NUM_COLS) ACT_PER_BUS) in
  '(res_systolic_array, s) ← systolic_array_matrix_multiply compressed_lhs_mult compressed_weights res_systolic_array
    RES_NUM_ROWS SA_SIZE RES_NUM_COLS (zlen compressed_lhs_mult) (zlen res_systolic_array) s;
  ok ← for_break 0 (zlen compressed_result) (fun i (ok : bool) =>
    a ← aget res_systolic_array i;
    b ← aget compressed_result i;
    Some (if negb (a =? b) then (true, false) else (false, ok))) true;
  Some (ok, s).

(** [main]: the exit code and whether all tests passed. *)
Definition mat_mult_main {S} {A : Accelerator S} (smmReadFlag : Z -> Z -> S -> option (Z * S)) (s : S) : option (Z * bool * S) :=
  '(kernel_dim, s) ← smmReadFlag 0 0 s;
  _ ← assert_ (SA_SIZE =? kernel_dim);
  if negb (SA_SIZE =? kernel_dim) then Some (-1, false, s)
  else '(b, s) ← test_systolic_array_matrix_multiply 5 s; Some (0, true && b, s).
End MatMulTest.

(** * The test program compares equal results

    The packing of a matrix is [pack] word by word; the driver leaves in its
    output the words of the product the array computes; the reference
    multiplication leaves the same elements.  All for every matrix, every number
    of rows and every accelerator that takes element indices. *)

Section Packing.

Lemma ceil_div_mul q d : 0 < d -> ceil_div (q * d) d = q.
Proof. intros Hd. unfold ceil_div. rewrite <- Z.add_sub_assoc, Z.div_add_l by lia. rewrite Z.div_small by lia. lia. Qed.

(** The [k]-th bus word of a flat array of elements. *)
Definition packed_word (bits per : Z) (mat : list Z) (k : Z) : Z :=
  pack bits per (fun i => Z.land mat.[k * per + i] (Z.ones bits)).

Lemma land_ones_range v bits : 0 <= bits -> 0 <= Z.land v (Z.ones bits) < 2 ^ bits.
Proof. intros Hb. rewrite Z.land_ones by done. by apply Z.mod_pos_bound, Z.pow_pos_nonneg. Qed.

Lemma shiftl_lane v bits per i :
  0 < bits -> 0 <= i < per -> bits * per = 32 -> 0 <= v < 2 ^ bits ->
  uint32 (Z.shiftl (uint32 v) (bits * (per - i - 1))) = Z.shiftl v (bits * (per - i - 1)).
Proof.
  intros Hb Hi H32 Hv. assert (2 ^ bits <= 2 ^ 32) by (apply Z.pow_le_mono_r; nia).
  change uint32 with (wrapU 32). rewrite (wrapU_small 32 v) by lia. apply wrapU_small.
  assert (0 <= bits * (per - i - 1)) by nia. rewrite Z.shiftl_mul_pow2 by done.
  assert (2 ^ bits * 2 ^ (bits * (per - i - 1)) <= 2 ^ 32).
  { rewrite <- Z.pow_add_r by lia. apply Z.pow_le_mono_r; nia. }
  assert (0 < 2 ^ (bits * (per - i - 1))) by (apply Z.pow_pos_nonneg; lia). nia.
Qed.

Lemma row_compress_spec NR NC mat bits per W :
  0 < bits -> 0 < per -> bits * per = 32 -> 0 <= NR -> 0 <= NC -> 0 <= W -> NR * NC = W * per -> zlen mat = NR * NC ->
  row_compress_matrix NR NC mat per bits = Some (mkarray W (packed_word bits per mat)).
Proof.
  intros Hb Hp H32 HNR HNC HW HN Hl. apply wp_eq. unfold row_compress_matrix. rewrite for_up_nest by lia. apply wp_bind.
  apply (wp_for_up (fun g '(res, cur, idx) => res = mkarray (g / per) (packed_word bits per mat) /\ idx = g mod per /\
    cur = pack_n bits per (fun i => Z.land mat.[g / per * per + i] (Z.ones bits)) (Z.to_nat (g mod per)))).
  - nia.
  - rewrite Z.div_0_l, Z.mod_0_l by lia. done.
  - intros g [[res cur] idx] Hg (-> & -> & ->). assert (0 < NC) as HNC' by nia.
    rewrite (Z.mul_comm (g / NC)), <- Z.div_mod by lia. apply wp_bind, wp_aget; [lia|].
    pose proof (Z.mod_pos_bound g per Hp) as Hm. pose proof (Z.div_mod g per ltac:(lia)) as Hdm.
    pose proof (Z.div_pos g per ltac:(lia) Hp) as Hq. rewrite mask_ones by lia.
    rewrite shiftl_lane by (done || lia || (apply land_ones_range; lia)).
    assert (Z.lor (pack_n bits per (fun i => Z.land mat.[g / per * per + i] (Z.ones bits)) (Z.to_nat (g mod per)))
      (Z.shiftl (Z.land mat.[g] (Z.ones bits)) (bits * (per - g mod per - 1))) =
      pack_n bits per (fun i => Z.land mat.[g / per * per + i] (Z.ones bits)) (Z.to_nat (g mod per + 1))) as ->.
    { replace (Z.to_nat (g mod per + 1)) with (S (Z.to_nat (g mod per))) by lia. simpl. rewrite Z2Nat.id by lia.
      do 4 f_equal. f_equal. lia. }
    pose proof (div_mod_succ g per ltac:(lia) Hp) as Hs.
    destruct (Z.eqb_spec (g mod per + 1) per) as [He|He].
    + rewrite (proj2 (Z.eqb_eq (g mod per) (per - 1))) in Hs by lia. destruct Hs as [-> ->]. apply wp_ret.
      split; [|done]. rewrite He. unfold mkarray. replace (Z.to_nat (g / per + 1)) with (Z.to_nat (g / per) + 1)%nat by lia.
      rewrite seq_app, fmap_app. simpl. by rewrite Z2Nat.id by lia.
    + rewrite (proj2 (Z.eqb_neq (g mod per) (per - 1))) in Hs by lia. destruct Hs as [-> ->]. by apply wp_ret.
  - intros [[res cur] idx] (-> & -> & _). rewrite HN, Z.mod_mul, Z.div_mul by lia. by apply wp_ret.
Qed.
End Packing.

(** ** The driver *)

Section Driver.
Context {cfg : Config} {wf : WfConfig cfg} {S : Type} {A : Accelerator S}
  {L : AcceleratorLaws (cfg := cfg) S (H := element_indexed A)}.
Abbreviation K := KERNEL_DIM.
Abbreviation MAC := MAX_ACT_COL.
Abbreviation APB := ACT_PER_BUS.
Abbreviation drv_ok := (@acc_ok cfg S (element_indexed A) L).
Abbreviation drv_arrays := (@acc_arrays cfg S (element_indexed A) L).

Lemma idx_mod n d : 0 <= d < APB -> (n * APB + d) mod SA_SIZE = n mod MAC * APB + d.
Proof.
  intros Hd. geometry. pose proof max_act_col_spec as HK. change SA_SIZE with K. rewrite HK.
  pose proof (Z.mod_pos_bound n MAC max_act_col_pos). rewrite (Z.div_mod n MAC) at 1 by lia. symmetry. apply (Z.mod_unique_pos _ _ (n / MAC)); nia.
Qed.

Lemma should_stream_spec n : should_stream_systolic_array (n * APB) = (n mod MAC =? MAC - 1).
Proof.
  geometry. pose proof max_act_col_spec as HK. pose proof (Z.mod_pos_bound n MAC max_act_col_pos). unfold should_stream_systolic_array.
  change SA_SIZE with K at 2. destruct (Z.eqb_spec (n mod MAC) (MAC - 1)) as [He|He].
  - apply existsb_exists. exists (Z.to_nat (APB - 1)). split; [apply in_seq; lia|].
    rewrite Z2Nat.id, idx_mod by lia. apply Z.eqb_eq. nia.
  - apply not_true_is_false. rewrite existsb_exists. intros (d & Hd & E). apply in_seq in Hd.
    rewrite idx_mod in E by lia. apply Z.eqb_eq in E. nia.
Qed.

(** A call of the driver is a call of the array with the index of the word. *)
Lemma send_spec n v (s : S) : send (n * APB) v s = smm_call (A := element_indexed A) (n mod MAC) v s.
Proof.
  geometry. pose proof (Z.mod_pos_bound n MAC max_act_col_pos). unfold send, smm_call. rewrite should_stream_spec.
  pose proof (idx_mod n 0 ltac:(lia)) as Hm. rewrite !Z.add_0_r in Hm. rewrite Hm, Z.rem_small by lia. done.
Qed.

(** The output once [n] words have been exchanged. *)
Definition exchanged w x (out : list Z) (n : Z) (s : S) (st : Z * list Z * Z) : Prop :=
  drv_ok s /\ Phase w x (n / MAC) (n mod MAC) (drv_arrays s) /\
  st.1.1 = n / MAC /\ st.2 = produced n /\ zlen st.1.2 = zlen out /\
  forall i, 0 <= i -> st.1.2.[i] = if i <? produced n then prod_word w x i else out.[i].

Lemma wp_exchange w x out n v (s : S) st size (Q : Z * S -> Prop) :
  0 <= n -> produced (n + 1) <= size -> size <= zlen out -> exchanged w x out n s st ->
  (forall i, 0 <= i < APB -> act_lane v i = x (n / MAC) (n mod MAC * APB + i)) ->
  (forall r s', wp (receive (n * APB) r size st) (exchanged w x out (n + 1) s') -> Q (r, s')) ->
  wp (send (n * APB) v s) Q.
Proof.
  intros Hn Hsz Hlen (Hok & HP & H1 & H2 & H3 & H4) Hv HQ. rewrite send_spec. geometry.
  apply (wp_smm_call w x n v s); [done|done|done|done|]. intros r s' Hok' HP' Hr. apply HQ.
  destruct st as [[num out'] ptr]. simpl in *. subst num ptr. unfold receive. rewrite should_stream_spec.
  pose proof (div_mod_succ n MAC Hn max_act_col_pos) as Hs.
  assert ((if n mod MAC =? MAC - 1 then n / MAC + 1 else n / MAC) = (n + 1) / MAC) as ->.
  { destruct (n mod MAC =? MAC - 1); lia. }
  assert ((2 * SA_SIZE - 1 <=? (n + 1) / MAC) = (latency <=? n)) as ->.
  { unfold latency. change SA_SIZE with K. destruct (Z.leb_spec (MAC * (2 * K - 1) - 1) n).
    - apply Z.leb_le. apply Z.div_le_lower_bound; lia.
    - apply Z.leb_gt. apply Z.div_lt_upper_bound; lia. }
  unfold produced in *. destruct (Z.leb_spec latency n) as [Hl|Hl].
  - apply wp_bind, wp_assert; [lia|]. apply wp_bind. wp_set o Ho1 Ho2 by lia. apply wp_ret.
    unfold exchanged, produced. simpl. do 3 (split; [done|]). split; [lia|]. split; [lia|]. intros i Hi.
    rewrite Ho2, H4 by done. change (uint32 r) with (wrapU 32 r). rewrite wrapU_small by (rewrite Hr by done; apply prod_word_range). zcases; try lia; try done.
    rewrite Hr by done. f_equal. lia.
  - apply wp_ret. unfold exchanged, produced. simpl. do 3 (split; [done|]). split; [lia|]. split; [lia|]. intros i Hi.
    rewrite H4 by done. zcases; try lia; done.
Qed.

Lemma exchanged_start w x out (s : S) : drv_ok s -> Phase w x 0 0 (drv_arrays s) -> exchanged w x out 0 s (0, out, 0).
Proof.
  intros Hok HP. geometry. assert (produced 0 = 0) as Hp by (unfold produced, latency; nia).
  unfold exchanged. rewrite Hp, Z.div_0_l, Z.mod_0_l by lia. simpl. do 5 (split; [done|]). intros i Hi. zcases; [lia|done].
Qed.

(** The second loop: zeros until the last word has come out. *)
Lemma wp_drain_words w x out size fuel n (s : S) st (Q : S * (Z * list Z * Z) * Z -> Prop) :
  0 <= n -> size = zlen out -> produced n <= size -> (Z.to_nat (size + latency - n) <= fuel)%nat ->
  (forall t r, n / MAC <= t -> x t r = 0) -> exchanged w x out n s st ->
  (forall s' st' n', drv_ok s' -> zlen st'.1.2 = size -> (forall i, 0 <= i < size -> st'.1.2.[i] = prod_word w x i) -> Q (s', st', n')) ->
  wp (while_fuel fuel (fun '(_, (_, _, outPtr), _) => outPtr <? size)
    (fun '(s, st, n) => '(res, s) ← send (n * APB) 0 s; st ← receive (n * APB) res size st; Some (s, st, n + 1)) (s, st, n)) Q.
Proof.
  revert n s st. induction fuel as [|fuel IH]; intros n s st Hn Hsz Hpr Hf Hx He HQ; pose proof He as (E1 & E2 & E3 & E4 & E5 & E6);
    destruct st as [[num o] ptr]; simpl in E3, E4, E5, E6; subst num ptr; cbn [while_fuel];
    destruct (Z.ltb_spec (produced n) size) as [Hlt|Hge].
  2, 4: apply wp_ret, HQ; [done|simpl; lia|simpl; intros i Hi; rewrite E6 by lia; zcases; [done|lia]].
  - unfold produced in *. lia.
  - apply wp_bind, wp_bind. eapply (wp_exchange w x out n 0 s _ size); [done|unfold produced in *; lia|lia|exact He| |].
    { intros i Hi. rewrite act_lane_0, Hx; [done|lia]. }
    intros r s' Hr. apply wp_bind. eapply wp_mono; [exact Hr|]. intros st' He'. apply wp_ret.
    apply IH; [lia|done|unfold produced in *; lia|lia| |done|done]. intros t r' Ht. apply Hx.
    geometry. pose proof (Z.div_le_mono n (n + 1) MAC). lia.
Qed.

Lemma wp_driver lhs rhs out M (s : S) (Q : list Z * S -> Prop) :
  drv_ok s -> 0 <= M -> zlen lhs = M * MAC -> zlen rhs = K * MAX_W_COL -> zlen out = M * MAC ->
  (forall s', drv_ok s' -> Q (mkarray (M * MAC) (prod_word (words_weight (fun k => rhs.[k])) (act_tile lhs 0 M)), s')) ->
  wp (systolic_array_matrix_multiply lhs rhs out M SA_SIZE SA_SIZE (zlen lhs) (zlen out) s) Q.
Proof.
  intros Hok HM Hl Hr Ho HQ. geometry. pose proof max_act_col_spec as HK. pose proof max_w_col_spec as HW.
  unfold systolic_array_matrix_multiply. rewrite Z.eqb_refl. cbn [assert_ mbind option_bind].
  change SA_SIZE with K. replace (ceil_div (K * K) W_PER_BUS) with (K * MAX_W_COL).
  2: { rewrite HW at 3. rewrite Z.mul_assoc. by rewrite ceil_div_mul. }
  replace (ceil_div (M * K) APB) with (M * MAC).
  2: { rewrite HK. rewrite Z.mul_assoc. by rewrite ceil_div_mul. }
  apply wp_bind. apply (wp_load_tile (A := element_indexed A) (fun k => aget rhs k) (fun k => rhs.[k])); [done| |].
  { intros k Hk. apply aget_nthZ. lia. }
  intros s1 Hok1 HP1. apply wp_bind, wp_assert; [lia|]. set (w := words_weight (fun k => rhs.[k])). set (x := act_tile lhs 0 M).
  apply wp_bind. apply (wp_for_up (fun n '(s, st, inPtr) => exchanged w x out n s st /\ inPtr = n)).
  - nia.
  - split; [|done]. apply exchanged_start; [done|apply HP1].
  - intros n [[s2 st] inPtr] Hn [He ->]. apply wp_bind, wp_assert; [lia|]. apply wp_bind, wp_aget; [lia|].
    apply wp_bind. eapply (wp_exchange w x out n _ s2 st (zlen out)); [lia|unfold produced, latency; nia|lia|exact He| |].
    { intros i Hi. pose proof (Z.mod_pos_bound n MAC max_act_col_pos). unfold x.
      rewrite act_tile_word by (split_and?; try apply Z.div_lt_upper_bound; try apply Z.div_pos; lia). f_equal.
      f_equal. rewrite (Z.div_mod n MAC) at 1 by lia. lia. }
    intros r s3 Hrec. apply wp_bind. eapply wp_mono; [exact Hrec|]. intros st' He'. apply wp_ret. done.
  - intros [[s2 st] inPtr] [He ->]. apply wp_bind.
    eapply (wp_drain_words w x out (zlen out)); [nia|done|unfold produced, latency; nia| | |exact He|].
    + unfold latency. nia.
    + intros t r Ht. rewrite Z.div_mul in Ht by lia. unfold x, act_tile. zcases; [lia|done].
    + intros s3 st' n' Hok3 Hlen Hst. apply wp_ret.
      replace st'.1.2 with (mkarray (M * MAC) (prod_word w x)); [by apply HQ|]. apply list_eq_nthZ.
      * rewrite zlen_mkarray by nia. lia.
      * intros i Hi. rewrite zlen_mkarray in Hi by nia. rewrite nthZ_mkarray by done. rewrite Hst by lia. done.
Qed.
End Driver.

(** ** The reference multiplication *)

Lemma f32_add_comm a b : f32_add a b = f32_add b a.
Proof.
  unfold f32_add. destruct a as [sa|sa| |sa ma ea], b as [sb|sb| |sb mb eb]; simpl; try done.
  - by destruct sa, sb.
  - by destruct sa, sb.
  - by rewrite Z.add_comm, (Z.min_comm ea eb).
Qed.

Section Reference.
Context {cfg : Config} {wf : WfConfig cfg}.

(** Equal as unsigned activations. *)
Abbreviation same_act a b := (u_activation_t a = u_activation_t b).

Lemma u_act_cong a b : a mod 2 ^ ACTIVATION_BITS = b mod 2 ^ ACTIVATION_BITS -> same_act a b.
Proof. done. Qed.

Lemma int32_act a : int32 a mod 2 ^ ACTIVATION_BITS = a mod 2 ^ ACTIVATION_BITS.
Proof. geometry. apply (mod_pow2_weaken _ 32); [lia|]. by apply wrapS_mod. Qed.

(** A step of the integer loop and a cell of the array agree modulo the width. *)
Lemma int_step a b l r :
  ACTIVATION_FP = false -> same_act a b -> same_act (activation_t (int32 (a + int32 (l * r)))) (mac l r b).
Proof.
  intros Hfp Hab. geometry. unfold mac. rewrite Hfp. unfold u_activation_t, wrapU, activation_t in *.
  rewrite wrapS_mod, !int32_act by lia. rewrite (Z.add_comm a). rewrite <- (Zplus_mod_idemp_r a), Hab, Zplus_mod_idemp_r. done.
Qed.

Lemma fp_step a l r :
  ACTIVATION_FP = true ->
  int32 (bits_of_f32 (f32_add (f32_of_bits a) (f32_mul (f32_of_bits l) (if WEIGHT_FP then f32_of_bits r else f32_of_Z r)))) = mac l r a.
Proof. intros Hfp. unfold mac. rewrite Hfp. by rewrite f32_add_comm. Qed.

Context (M N P : Z) (lhs rhs : list Z).
Hypothesis (HM : 0 <= M) (HN : 0 <= N) (HP : 0 <= P) (Hl : zlen lhs = M * N) (Hr : zlen rhs = N * P).

(** The sum after [n] terms, as a column of cells computes it. *)
Definition entry (i j n : Z) : Z := partial (fun k c => rhs.[k * P + c]) (fun k => lhs.[i * N + k]) j (Z.to_nat n).

Lemma entry_succ i j n : 0 <= n -> entry i j (n + 1) = mac lhs.[i * N + n] rhs.[n * P + j] (entry i j n).
Proof. intros Hn. unfold entry. replace (Z.to_nat (n + 1)) with (S (Z.to_nat n)) by lia. simpl. by rewrite Z2Nat.id by lia. Qed.

(** The entries that come before [(i, j)] in row-major order are done. *)
Definition done_before (i j : Z) (out : list Z) : Prop :=
  exists f, mat out P M f /\ forall i' j', 0 <= i' < M -> 0 <= j' < P -> i' < i \/ i' = i /\ j' < j -> same_act (f i' j') (entry i' j' N).

Lemma done_row i out : done_before i P out -> done_before (i + 1) 0 out.
Proof. intros (f & Hf & H). exists f. split; [done|]. intros i' j' Hi Hj H'. apply H; [done|done|lia]. Qed.

Lemma done_next i j out f v :
  0 <= i < M -> 0 <= j < P -> mat out P M f ->
  (forall i' j', 0 <= i' < M -> 0 <= j' < P -> i' < i \/ i' = i /\ j' < j -> same_act (f i' j') (entry i' j' N)) ->
  same_act v (entry i j N) -> wp (aset out (i * P + j) v) (done_before i (j + 1)).
Proof.
  intros Hi Hj Hf Hdone Hv. eapply (wp_mset P M); [exact Hf|done|done|]. intros l' Hl'. eexists. split; [exact Hl'|].
  intros i' j' Hi' Hj' H. simpl. destruct (Z.eqb_spec i' i), (Z.eqb_spec j' j); subst; simpl; try done; apply Hdone; lia.
Qed.

Lemma wp_matrix_rows (body : Z -> Z -> list Z -> option (list Z)) out (Q : list Z -> Prop) :
  zlen out = M * P ->
  (forall i j o, 0 <= i < M -> 0 <= j < P -> done_before i j o -> wp (body i j o) (done_before i (j + 1))) ->
  (forall o, zlen o = M * P -> (forall i j, 0 <= i < M -> 0 <= j < P -> same_act o.[i * P + j] (entry i j N)) -> Q o) ->
  wp (for_up 0 M (fun i out => for_up 0 P (fun j out => body i j out) out) out) Q.
Proof.
  intros Hout Hbody HQ. apply (wp_for_up (fun i => done_before i 0)); [lia| | |].
  - eexists. split; [by apply mat_self|]. intros. lia.
  - intros i o Hi Ho. apply (wp_for_up (fun j => done_before i j)); [lia|done| |].
    + intros j o' Hj Ho'. by apply Hbody.
    + intros o'. apply done_row.
  - intros o (f & [Hlen Hf] & H). apply HQ; [done|]. intros i j Hi Hj. rewrite Hf by done. apply H; [done|done|lia].
Qed.

Lemma wp_multiply_int out (Q : list Z -> Prop) :
  ACTIVATION_FP = false -> zlen out = M * P ->
  (forall o, zlen o = M * P -> (forall i j, 0 <= i < M -> 0 <= j < P -> same_act o.[i * P + j] (entry i j N)) -> Q o) ->
  wp (matrix_multiply_int M N P lhs rhs out) Q.
Proof.
  intros Hfp Hout HQ. apply wp_matrix_rows; [done| |done]. intros i j o Hi Hj (f & Hf & Hdone).
  apply wp_bind. eapply (wp_mset P M); [exact Hf|done|done|]. intros o1 Hf1.
  apply (wp_for_up (fun k o => exists g, mat o P M g /\ same_act (g i j) (entry i j k) /\
    forall i' j', 0 <= i' < M -> 0 <= j' < P -> i' < i \/ i' = i /\ j' < j -> same_act (g i' j') (entry i' j' N))).
  - done.
  - eexists. split; [exact Hf1|]. split; [by rewrite !Z.eqb_refl|]. intros i' j' Hi' Hj' H. simpl.
    destruct (Z.eqb_spec i' i), (Z.eqb_spec j' j); simpl; try lia; apply Hdone; lia.
  - intros k o2 Hk (g & Hg & Hs & Hd). apply wp_bind. eapply (wp_mget P M); [exact Hg|done|done|].
    pose proof (idx2_bounds N M i k ltac:(lia) ltac:(lia)). pose proof (idx2_bounds P N k j ltac:(lia) ltac:(lia)).
    apply wp_bind, wp_aget; [lia|]. apply wp_bind, wp_aget; [lia|].
    eapply (wp_mset P M); [exact Hg|done|done|]. intros o3 Hg3. eexists. split; [exact Hg3|]. split.
    + rewrite !Z.eqb_refl, entry_succ by lia. by apply int_step.
    + intros i' j' Hi' Hj' H'. simpl. destruct (Z.eqb_spec i' i), (Z.eqb_spec j' j); simpl; try lia; apply Hd; lia.
  - intros o2 (g & Hg & Hs & Hd). exists g. split; [done|]. intros i' j' Hi' Hj' H'.
    destruct (decide (i' = i /\ j' = j)) as [[-> ->]|]; [done|]. apply Hd; lia.
Qed.

Lemma wp_multiply_fp out (Q : list Z -> Prop) :
  ACTIVATION_FP = true -> zlen out = M * P ->
  (forall o, zlen o = M * P -> (forall i j, 0 <= i < M -> 0 <= j < P -> same_act o.[i * P + j] (entry i j N)) -> Q o) ->
  wp (matrix_multiply_fp M N P lhs rhs out) Q.
Proof.
  intros Hfp Hout HQ. apply wp_matrix_rows; [done| |done]. intros i j o Hi Hj (f & Hf & Hdone).
  apply wp_bind, (wp_for_up (fun k acc => acc = entry i j k)); [lia|done| |].
  - intros k acc Hk ->. pose proof (idx2_bounds N M i k ltac:(lia) ltac:(lia)). pose proof (idx2_bounds P N k j ltac:(lia) ltac:(lia)).
    apply wp_bind, wp_aget; [lia|]. apply wp_bind, wp_aget; [lia|]. apply wp_ret. rewrite entry_succ by lia. by apply fp_step.
  - intros acc ->. by apply (done_next i j o f).
Qed.
End Reference.

(** ** The comparison *)

Section Compare.
Context {cfg : Config} {wf : WfConfig cfg}.
Abbreviation K := KERNEL_DIM.
Abbreviation MAC := MAX_ACT_COL.
Abbreviation APB := ACT_PER_BUS.

(** The elements of an array have the type of an activation, or of a weight. *)
Definition acts_ok (l : list Z) : Prop := forall i, 0 <= i < zlen l -> activation_t l.[i] = l.[i].
Definition weights_ok (l : list Z) : Prop := forall i, 0 <= i < zlen l -> weight_t l.[i] = l.[i].

Lemma land_ones_wrapS w v : 0 < w -> wrapS w (Z.land v (Z.ones w)) = wrapS w v.
Proof. intros Hw. rewrite Z.land_ones by lia. apply wrapS_wrapU. Qed.

Lemma lane_packed bits per l k i :
  0 < bits -> 0 <= i < per -> lane_be bits per (packed_word bits per l k) i = Z.land l.[k * per + i] (Z.ones bits).
Proof. intros Hb Hi. unfold packed_word. rewrite lane_be_pack; [done|done|done|]. intros. apply land_ones_range. lia. Qed.

Lemma act_tile_packed lhs M t r :
  zlen lhs = M * K -> acts_ok lhs -> 0 <= t < M -> 0 <= r < K ->
  act_tile (mkarray (M * MAC) (packed_word ACTIVATION_BITS APB lhs)) 0 M t r = lhs.[t * K + r].
Proof.
  intros Hl Hok Ht Hr. geometry. pose proof max_act_col_spec as HK. pose proof (Z.mod_pos_bound r APB act_per_bus_pos).
  assert (APB <> 0) as Hne by lia. pose proof (Z.div_mod r APB Hne). assert (0 <= r / APB < MAC) by (split; [apply Z.div_pos|apply Z.div_lt_upper_bound]; nia).
  unfold act_tile. zcases; [|lia]. rewrite nthZ_mkarray by nia. unfold act_lane. rewrite lane_packed by lia.
  unfold activation_t. rewrite land_ones_wrapS by lia. replace ((0 + t * MAC + r / APB) * APB + r mod APB) with (t * K + r) by nia.
  apply Hok. nia.
Qed.

Lemma words_weight_packed rhs r c :
  zlen rhs = K * K -> weights_ok rhs -> 0 <= r < K -> 0 <= c < K ->
  words_weight (fun k => (mkarray (K * MAX_W_COL) (packed_word WEIGHT_BITS W_PER_BUS rhs)).[k]) r c = rhs.[r * K + c].
Proof.
  intros Hl Hok Hr Hc. geometry. pose proof max_w_col_spec as HK. pose proof (idx2_bounds K K r c Hr Hc).
  unfold words_weight. set (e := r * K + c) in *. pose proof (Z.mod_pos_bound e W_PER_BUS w_per_bus_pos).
  assert (W_PER_BUS <> 0) as Hne by lia. pose proof (Z.div_mod e W_PER_BUS Hne). assert (0 <= e / W_PER_BUS < K * MAX_W_COL).
  { split; [apply Z.div_pos; lia|]. apply Z.div_lt_upper_bound; [lia|]. nia. }
  rewrite nthZ_mkarray by done. unfold weight_lane. rewrite lane_packed by lia. unfold weight_t. rewrite land_ones_wrapS by lia.
  replace (e / W_PER_BUS * W_PER_BUS + e mod W_PER_BUS) with e by lia. apply Hok. lia.
Qed.

Lemma partial_ext w w' x x' c n :
  (forall r, 0 <= r < Z.of_nat n -> w r c = w' r c /\ x r = x' r) -> partial w x c n = partial w' x' c n.
Proof.
  induction n as [|n IH]; intros H; [done|]. simpl. rewrite IH by (intros r Hr; apply H; lia).
  destruct (H (Z.of_nat n)) as [-> ->]; [lia|done].
Qed.

(** The words of the array and the packed words of the reference are the same. *)
Lemma prod_word_packed M lhs rhs res k :
  0 <= M -> zlen lhs = M * K -> zlen rhs = K * K -> zlen res = M * K -> acts_ok lhs -> weights_ok rhs ->
  (forall i j, 0 <= i < M -> 0 <= j < K -> u_activation_t res.[i * K + j] = u_activation_t (entry K K lhs rhs i j K)) ->
  0 <= k < M * MAC ->
  prod_word (words_weight (fun k => (mkarray (K * MAX_W_COL) (packed_word WEIGHT_BITS W_PER_BUS rhs)).[k]))
    (act_tile (mkarray (M * MAC) (packed_word ACTIVATION_BITS APB lhs)) 0 M) k = packed_word ACTIVATION_BITS APB res k.
Proof.
  intros HM Hl Hr Hres Hlo Hro Hent Hk. geometry. pose proof max_act_col_spec as HK.
  pose proof (Z.mod_pos_bound k MAC max_act_col_pos). assert (MAC <> 0) as Hne by lia. pose proof (Z.div_mod k MAC Hne).
  assert (0 <= k / MAC < M) by (split; [apply Z.div_pos|apply Z.div_lt_upper_bound]; lia).
  unfold prod_word, out_word, packed_word. apply pack_ext. intros i Hi. set (c := k mod MAC * APB + i).
  assert (0 <= c < K) by (unfold c; nia). replace (k * APB + i) with (k / MAC * K + c) by (unfold c; nia).
  rewrite Z.land_ones by lia. change (res.[k / MAC * K + c] mod 2 ^ ACTIVATION_BITS) with (u_activation_t res.[k / MAC * K + c]).
  rewrite Hent by done. unfold dot, entry. f_equal. apply partial_ext. intros r Hr'. split.
  - apply words_weight_packed; lia || done.
  - apply act_tile_packed; lia || done.
Qed.

Lemma for_break_equal (a b : list Z) :
  zlen b <= zlen a -> (forall i, 0 <= i < zlen b -> a.[i] = b.[i]) ->
  for_break 0 (zlen b) (fun i (ok : bool) => x ← aget a i; y ← aget b i; Some (if negb (x =? y) then (true, false) else (false, ok))) true = Some true.
Proof.
  intros Hl H. apply wp_eq, (wp_for_break (fun _ ok => ok = true)); [apply zlen_nonneg|done| |done].
  intros i ok Hi ->. apply wp_bind, wp_aget; [lia|]. apply wp_bind, wp_aget; [lia|]. apply wp_ret. rewrite H by done. by rewrite Z.eqb_refl.
Qed.

(** Filling a matrix. *)
Lemma wp_fill (g : Z -> Z -> Z) NR NC (Q : list Z -> Prop) :
  0 <= NR -> 0 <= NC ->
  (forall o, zlen o = NR * NC -> (forall r c, 0 <= r < NR -> 0 <= c < NC -> o.[r * NC + c] = g r c) -> Q o) ->
  wp (for_up 0 NR (fun r mat => for_up 0 NC (fun c mat => aset mat (r * NC + c) (g r c)) mat) (zeros (NR * NC))) Q.
Proof.
  intros HR HC HQ. rewrite for_up_nest by done.
  apply (wp_for_up (fun n o => zlen o = NR * NC /\ forall i, 0 <= i < n -> o.[i] = g (i / NC) (i mod NC))); [nia| | |].
  - split; [apply zlen_zeros; nia|]. intros. lia.
  - intros n o Hn [Hlen Ho]. assert (0 < NC) by nia. rewrite (Z.mul_comm (n / NC)), <- Z.div_mod by lia.
    wp_set o' H1 H2 by lia. split; [lia|]. intros i Hi. rewrite H2. destruct (Z.eqb_spec i n) as [->|]; [done|]. apply Ho. lia.
  - intros o [Hlen Ho]. apply HQ; [done|]. intros r c Hr Hc. pose proof (idx2_bounds NC NR r c Hr Hc). rewrite Ho by lia.
    f_equal; [symmetry; apply (Z.div_unique_pos _ _ _ c)|symmetry; apply (Z.mod_unique_pos _ _ r)]; lia.
Qed.

Lemma filled_ok conv (g : Z -> Z -> Z) NR NC o :
  (forall v, conv (conv v) = conv v) -> 0 < NC -> zlen o = NR * NC ->
  (forall r c, 0 <= r < NR -> 0 <= c < NC -> o.[r * NC + c] = conv (g r c)) ->
  forall i, 0 <= i < zlen o -> conv o.[i] = o.[i].
Proof.
  intros Hc HNC Hl Ho i Hi. rewrite (Z.div_mod i NC) by lia. pose proof (Z.mod_pos_bound i NC HNC).
  rewrite (Z.mul_comm NC). rewrite Ho; [apply Hc| |done]. split; [apply Z.div_pos|apply Z.div_lt_upper_bound]; lia.
Qed.

Lemma wrapS_idem w v : 0 < w -> wrapS w (wrapS w v) = wrapS w v.
Proof. intros Hw. apply wrapS_cong. by apply wrapS_mod. Qed.
End Compare.

Section Test.
Context {cfg : Config} {wf : WfConfig cfg} {S : Type} {A : Accelerator S}
  {L : AcceleratorLaws (cfg := cfg) S (H := element_indexed A)}.
Abbreviation drv_ok := (@acc_ok cfg S (element_indexed A) L).

(** The reference the test chooses. *)
Definition matrix_multiply (M N P : Z) (lhs rhs out : list Z) : option (list Z) :=
  if ACTIVATION_FP then matrix_multiply_fp M N P lhs rhs out else matrix_multiply_int M N P lhs rhs out.

(** Both sides of the comparison, for any two matrices. *)
Record products_agree (M : Z) (lhs rhs clhs crhs res cres : list Z) (s s' : S) : Prop := {
  pa_lhs : row_compress_matrix M SA_SIZE lhs ACT_PER_BUS ACTIVATION_BITS = Some clhs;
  pa_rhs : row_compress_matrix SA_SIZE SA_SIZE rhs W_PER_BUS WEIGHT_BITS = Some crhs;
  pa_ref : matrix_multiply M SA_SIZE SA_SIZE lhs rhs (zeros (M * SA_SIZE)) = Some res;
  pa_res : row_compress_matrix M SA_SIZE res ACT_PER_BUS ACTIVATION_BITS = Some cres;
  pa_array : let out := zeros (ceil_div (M * SA_SIZE) ACT_PER_BUS) in
    systolic_array_matrix_multiply clhs crhs out M SA_SIZE SA_SIZE (zlen clhs) (zlen out) s = Some (cres, s');
  pa_ok : drv_ok s'
}.

Lemma both_products M lhs rhs (s : S) :
  0 <= M -> zlen lhs = M * SA_SIZE -> zlen rhs = SA_SIZE * SA_SIZE -> acts_ok lhs -> weights_ok rhs -> drv_ok s ->
  exists clhs crhs res cres s', products_agree M lhs rhs clhs crhs res cres s s'.
Proof.
  intros HM Hl Hr Hlo Hro Hok. change SA_SIZE with KERNEL_DIM in *. geometry.
  pose proof max_act_col_spec as HK. pose proof max_w_col_spec as HW.
  assert (wp (matrix_multiply M KERNEL_DIM KERNEL_DIM lhs rhs (zeros (M * KERNEL_DIM))) (fun o => zlen o = M * KERNEL_DIM /\
    forall i j, 0 <= i < M -> 0 <= j < KERNEL_DIM ->
      u_activation_t o.[i * KERNEL_DIM + j] = u_activation_t (entry KERNEL_DIM KERNEL_DIM lhs rhs i j KERNEL_DIM))) as Hmul.
  { unfold matrix_multiply. destruct ACTIVATION_FP eqn:Hfp; [apply wp_multiply_fp|apply wp_multiply_int]; try done; try lia;
      rewrite zlen_zeros; nia. }
  apply wp_exists in Hmul as (res & Hres & Hlen & Hent).
  set (clhs := mkarray (M * MAX_ACT_COL) (packed_word ACTIVATION_BITS ACT_PER_BUS lhs)).
  set (crhs := mkarray (KERNEL_DIM * MAX_W_COL) (packed_word WEIGHT_BITS W_PER_BUS rhs)).
  assert (forall l, zlen l = M * KERNEL_DIM -> row_compress_matrix M KERNEL_DIM l ACT_PER_BUS ACTIVATION_BITS =
    Some (mkarray (M * MAX_ACT_COL) (packed_word ACTIVATION_BITS ACT_PER_BUS l))) as Hcomp.
  { intros l Hll. apply row_compress_spec; [done|done|apply act_bits_bus|lia|lia|nia|nia|done]. }
  assert (ceil_div (M * KERNEL_DIM) ACT_PER_BUS = M * MAX_ACT_COL) as Hceil by (rewrite HK, Z.mul_assoc; by apply ceil_div_mul).
  assert (wp (systolic_array_matrix_multiply clhs crhs (zeros (M * MAX_ACT_COL)) M KERNEL_DIM KERNEL_DIM (zlen clhs) (zlen (zeros (M * MAX_ACT_COL))) s)
    (fun '(o, s') => o = mkarray (M * MAX_ACT_COL) (packed_word ACTIVATION_BITS ACT_PER_BUS res) /\ drv_ok s')) as Hdrv.
  { apply wp_driver; [done|done|apply zlen_mkarray; nia|apply zlen_mkarray; nia|apply zlen_zeros; nia|].
    intros s' Hs'. split; [|done]. apply list_eq_nthZ; [by rewrite !zlen_mkarray by nia|].
    intros k Hk. rewrite zlen_mkarray in Hk by nia. rewrite !nthZ_mkarray by done. by apply prod_word_packed. }
  apply wp_exists in Hdrv as ([o s'] & Hdrv & -> & Hs').
  exists clhs, crhs, res, (mkarray (M * MAX_ACT_COL) (packed_word ACTIVATION_BITS ACT_PER_BUS res)), s'.
  split; change SA_SIZE with KERNEL_DIM; [by apply Hcomp| |done|by apply Hcomp| |done].
  - apply row_compress_spec; [done|done|apply weight_bits_bus|lia|lia|nia|nia|lia].
  - cbv zeta. by rewrite Hceil.
Qed.

(** The matrices of the test. *)
Lemma wp_test_lhs M (Q : list Z -> Prop) :
  0 <= M -> (forall o, zlen o = M * SA_SIZE -> acts_ok o -> Q o) ->
  wp (if ACTIVATION_FP
      then fill_matrix_fp activation_t M SA_SIZE (fun r c => f32_of_Z (10 * r + c)) (zeros (M * SA_SIZE))
      else fill_matrix_int activation_t M SA_SIZE (fun r c => 10 * r + c) (zeros (M * SA_SIZE))) Q.
Proof.
  intros HM HQ. geometry. change SA_SIZE with KERNEL_DIM in *. assert (forall v, activation_t (activation_t v) = activation_t v) as Hi.
  { intros v. by apply wrapS_idem. }
  destruct ACTIVATION_FP; unfold fill_matrix_fp, fill_matrix_int; apply wp_fill; try lia; intros o Ho1 Ho2;
    (apply HQ; [done|]; refine (filled_ok activation_t _ M KERNEL_DIM o Hi _ Ho1 Ho2); lia).
Qed.

Lemma wp_test_rhs (Q : list Z -> Prop) :
  (forall o, zlen o = SA_SIZE * SA_SIZE -> weights_ok o -> Q o) ->
  wp (if WEIGHT_FP
      then fill_matrix_fp weight_t SA_SIZE SA_SIZE (fun r c => f32_of_Z (c + r * SA_SIZE)) (zeros (SA_SIZE * SA_SIZE))
      else fill_matrix_int weight_t SA_SIZE SA_SIZE (fun r c => c + r * SA_SIZE) (zeros (SA_SIZE * SA_SIZE))) Q.
Proof.
  intros HQ. geometry. change SA_SIZE with KERNEL_DIM in *. assert (forall v, weight_t (weight_t v) = weight_t v) as Hi.
  { intros v. by apply wrapS_idem. }
  destruct WEIGHT_FP; unfold fill_matrix_fp, fill_matrix_int; apply wp_fill; try lia; intros o Ho1 Ho2;
    (apply HQ; [done|]; refine (filled_ok weight_t _ KERNEL_DIM KERNEL_DIM o Hi _ Ho1 Ho2); lia).
Qed.

Lemma test_passes M (s : S) :
  0 <= M -> drv_ok s -> wp (test_systolic_array_matrix_multiply M s) (fun '(ok, s') => ok = true /\ drv_ok s').
Proof.
  intros HM Hok. unfold test_systolic_array_matrix_multiply. apply wp_bind, wp_test_rhs. intros rhs Hr Hro.
  apply wp_bind, wp_test_lhs; [done|]. intros lhs Hl Hlo.
  destruct (both_products M lhs rhs s HM Hl Hr Hlo Hro Hok) as (clhs & crhs & res & cres & s' & [P1 P2 P3 P4 P5 P6]).
  rewrite P2, P1. cbn [mbind option_bind]. fold (matrix_multiply M SA_SIZE SA_SIZE lhs rhs (zeros (M * SA_SIZE))). rewrite P3. cbn [mbind option_bind].
  rewrite P4. cbn [mbind option_bind]. rewrite P5. cbn [mbind option_bind]. rewrite for_break_equal by done. by split.
Qed.
End Test.
