(* ===== verification/LayoutCorrect.v ===== *)
(** * LayoutCorrect: the two layouts of a matrix and the software product

    [rowWise2BlockWise] and [blockWise2RowWise] move the words of a matrix between
    the row-major layout of [conventionalCompute] and the tile columns of the
    accelerator; they are inverse to each other.  [conventionalCompute] computes
    the matrix product of row-major matrices when a word holds four activations
    and four weights, so it agrees with the accelerator on the matrices in the
    other layout. *)

From stdpp Require Import prelude.
From Stdlib Require Import ZArith Lia.
From S2P Require Import Prelude Machine Float32 Systolic SystolicCorrect Accelerator SmmGem SparseMM TileProduct SparseRep SparseSpec.
From S2P Require Import SparseEncode SparseCorrect MatMul.

(** ** Moving words *)

(** A loop that copies word [s g] of [src] to word [d g] of the destination. *)
Lemma wp_scatter (src dst : list Z) N (s d : Z -> Z) (Q : list Z -> Prop) :
  0 <= N -> (forall g, 0 <= g < N -> 0 <= s g < zlen src) -> (forall g, 0 <= g < N -> 0 <= d g < zlen dst) ->
  (forall g h, 0 <= g < N -> 0 <= h < N -> d g = d h -> g = h) ->
  (forall dst', zlen dst' = zlen dst -> (forall g, 0 <= g < N -> dst'.[d g] = src.[s g]) -> Q dst') ->
  wp (for_up 0 N (fun g dst => v ← aget src (s g); aset dst (d g) v) dst) Q.
Proof.
  intros HN Hs Hd Hinj HQ.
  apply (wp_for_up (fun g o => zlen o = zlen dst /\ forall h, 0 <= h < g -> o.[d h] = src.[s h])); [done|split; [done|lia]| |].
  - intros g o Hg [Hl Ho]. apply wp_bind, wp_aget; [by apply Hs|]. wp_set o' H1 H2 by (rewrite Hl; by apply Hd).
    split; [lia|]. intros h Hh. rewrite H2. destruct (Z.eqb_spec (d h) (d g)) as [E|E].
    + apply Hinj in E; [by subst|lia|lia].
    + apply Ho. assert (h <> g) by (intros ->; done). lia.
  - intros o [Hl Ho]. by apply HQ.
Qed.

(** A loop over a linear index as two nested loops. *)
Lemma for_up_split {S} n k (b : Z -> S -> option S) (s : S) :
  0 <= n -> 0 <= k -> for_up 0 (n * k) b s = for_up 0 n (fun i s => for_up 0 k (fun j => b (i * k + j)) s) s.
Proof.
  intros Hn Hk. rewrite (for_up_nest n k (fun i j => b (i * k + j))) by done. apply for_up_ext. intros g s' Hg.
  assert (k <> 0) as H0 by (intros ->; lia). f_equal. pose proof (Z.div_mod g k H0). lia.
Qed.

Section Layout.
Context {cfg : Config} {wf : WfConfig cfg}.
Context (n_row n_col C : Z).
Abbreviation W := MAX_W_COL.
Hypothesis (Hrow : 0 <= n_row) (HC : 0 <= C) (Hcol : n_col = C * W).

(** Word [g] of the block layout is word [row_index g] of the row-major one. *)
Definition row_index (g : Z) : Z :=
  let '(col, row, i) := (g / (n_row * W), g mod (n_row * W) / W, g mod (n_row * W) mod W) in row * n_col + col * W + i.

Lemma block_parts g : 0 <= g < C * (n_row * W) ->
  0 < n_row * W /\ 0 <= g / (n_row * W) < C /\ 0 <= g mod (n_row * W) / W < n_row /\ 0 <= g mod (n_row * W) mod W < W /\
  g = g / (n_row * W) * (n_row * W) + (g mod (n_row * W) / W * W + g mod (n_row * W) mod W).
Proof.
  intros Hg. geometry. assert (0 < n_row * W) as Hp by nia. pose proof (Z.mod_pos_bound g _ Hp) as Hm.
  assert (n_row * W <> 0) as H1 by lia. assert (W <> 0) as H2 by lia.
  pose proof (Z.div_mod g _ H1). pose proof (Z.div_mod (g mod (n_row * W)) W H2). pose proof (Z.mod_pos_bound (g mod (n_row * W)) W max_w_col_pos).
  split; [done|]. split; [split; [apply Z.div_pos|apply Z.div_lt_upper_bound]; lia|].
  split; [split; [apply Z.div_pos|apply Z.div_lt_upper_bound]; lia|]. split; [done|lia].
Qed.

Lemma row_index_spec col row i :
  0 <= col < C -> 0 <= row < n_row -> 0 <= i < W -> row_index ((col * n_row + row) * W + i) = row * n_col + col * W + i.
Proof.
  intros Hc Hr Hi. geometry. unfold row_index. replace ((col * n_row + row) * W + i) with (row * W + i + col * (n_row * W)) by lia.
  assert (0 <= row * W + i < n_row * W) by nia.
  rewrite Z.div_add, Z.mod_add, (Z.div_small (row * W + i)), (Z.mod_small (row * W + i)) by lia.
  assert ((row * W + i) mod W = i) as -> by (rewrite Z.add_comm, Z.mod_add, Z.mod_small; lia).
  rewrite Z.div_add_l, (Z.div_small i) by lia. lia.
Qed.

Lemma row_index_range g : 0 <= g < C * (n_row * W) -> 0 <= row_index g < n_row * n_col.
Proof. intros Hg. destruct (block_parts g Hg) as (H1 & H2 & H3 & H4 & _). unfold row_index. rewrite Hcol. nia. Qed.

Lemma word_index_inj g h : 0 <= g < C * (n_row * W) -> 0 <= h < C * (n_row * W) -> row_index g = row_index h -> g = h.
Proof.
  intros Hg Hh E. destruct (block_parts g Hg) as (_ & G2 & G3 & G4 & G5). destruct (block_parts h Hh) as (_ & H2 & H3 & H4 & H5).
  unfold row_index in E. rewrite Hcol in E. rewrite G5, H5. set (a := g / _) in *. set (b := h / _) in *.
  set (r := g mod _ / _) in *. set (r' := h mod _ / _) in *. set (i := g mod _ mod _) in *. set (i' := h mod _ mod _) in *.
  assert (r = r' /\ a * W + i = b * W + i') as [-> E2] by (apply (Z.div_mod_unique (C * W)); nia).
  assert (a = b /\ i = i') as [-> ->]; [|done]. apply (Z.div_mod_unique W); lia.
Qed.

(** Both functions are one loop over the words of the block layout. *)
Lemma copy_loop (mv : Z -> Z -> list Z -> option (list Z)) dst :
  ('(o, _) ← for_up 0 (n_col / W) (fun col '(o, bp) =>
     let rp := col * W in
     '(o, bp, _) ← for_up 0 n_row (fun row '(o, bp, rp) =>
       o ← for_up 0 W (fun i o => mv (bp + i) (rp + i) o) o; Some (o, bp + W, rp + n_col)) (o, bp, rp);
     Some (o, bp)) (dst, 0);
   Some o) = for_up 0 (C * (n_row * W)) (fun g => mv g (row_index g)) dst.
Proof.
  geometry. replace (n_col / W) with C by (rewrite Hcol, Z.div_mul; lia).
  rewrite for_up_split by nia.
  rewrite (for_up_ext 0 C _ (fun col o => for_up 0 n_row (fun row o => for_up 0 W (fun i => mv ((col * n_row + row) * W + i) (row * n_col + col * W + i)) o) o)).
  2: { intros col o Hc. rewrite for_up_split by lia. apply for_up_ext. intros row o' Hr. apply for_up_ext. intros i o2 Hi.
       rewrite <- row_index_spec by done.
       by replace (col * (n_row * W) + (row * W + i)) with ((col * n_row + row) * W + i) by lia. }
  set (inner := fun col o => for_up 0 n_row _ o).
  pose proof (for_up_track (fun col o => (o, col * n_row * W)) 0 C
    (fun col '(o, bp) =>
     let rp := col * W in
     '(o, bp, _) ← for_up 0 n_row (fun row '(o, bp, rp) =>
       o ← for_up 0 W (fun i o => mv (bp + i) (rp + i) o) o; Some (o, bp + W, rp + n_col)) (o, bp, rp);
     Some (o, bp)) inner dst HC) as Ht.
  cbv beta in Ht. rewrite !Z.mul_0_l in Ht. rewrite Ht; [by destruct (for_up 0 C inner dst)|]. clear Ht.
  intros col o Hc. cbv zeta.
  pose proof (for_up_track (fun row o => (o, (col * n_row + row) * W, row * n_col + col * W)) 0 n_row
    (fun row '(o, bp, rp) => o ← for_up 0 W (fun i o => mv (bp + i) (rp + i) o) o; Some (o, bp + W, rp + n_col))
    (fun row o => for_up 0 W (fun i => mv ((col * n_row + row) * W + i) (row * n_col + col * W + i)) o) o Hrow) as Ht.
  cbv beta in Ht. rewrite Z.mul_0_l, Z.add_0_l, Z.add_0_r in Ht. rewrite Ht; [unfold inner; destruct (for_up 0 n_row _ o); simpl; [do 2 f_equal; lia|done]|].
  intros row o' Hr. destruct (for_up 0 W _ o'); simpl; [|done]. f_equal. f_equal; [f_equal|]; lia.
Qed.

Lemma wp_rowWise2BlockWise rowWise blockWise (Q : list Z -> Prop) :
  zlen rowWise = n_row * n_col -> zlen blockWise = n_row * n_col ->
  (forall b, zlen b = n_row * n_col -> (forall g, 0 <= g < n_row * n_col -> b.[g] = rowWise.[row_index g]) -> Q b) ->
  wp (rowWise2BlockWise rowWise n_row n_col blockWise) Q.
Proof.
  intros Hr Hb HQ. assert (C * (n_row * W) = n_row * n_col) as HN by (rewrite Hcol; lia). geometry.
  unfold rowWise2BlockWise. rewrite (copy_loop (fun bp rp o => v ← aget rowWise rp; aset o bp v)).
  apply (wp_scatter _ _ _ row_index (fun g => g)); [nia| | |done|].
  - intros g Hg. rewrite Hr. by apply row_index_range.
  - intros g Hg. lia.
  - intros b Hl Hcp. apply HQ; [lia|]. intros g Hg. apply Hcp. lia.
Qed.

Lemma wp_blockWise2RowWise blockWise rowWise (Q : list Z -> Prop) :
  zlen rowWise = n_row * n_col -> zlen blockWise = n_row * n_col ->
  (forall r, zlen r = n_row * n_col -> (forall g, 0 <= g < n_row * n_col -> r.[row_index g] = blockWise.[g]) -> Q r) ->
  wp (blockWise2RowWise blockWise n_row n_col rowWise) Q.
Proof.
  intros Hr Hb HQ. assert (C * (n_row * W) = n_row * n_col) as HN by (rewrite Hcol; lia). geometry.
  unfold blockWise2RowWise. rewrite (copy_loop (fun bp rp o => v ← aget blockWise bp; aset o rp v)).
  apply (wp_scatter _ _ _ (fun g => g) row_index); [nia| | |apply word_index_inj|].
  - intros g Hg. lia.
  - intros g Hg. rewrite Hr. by apply row_index_range.
  - intros r Hl Hcp. apply HQ; [lia|]. intros g Hg. apply Hcp. lia.
Qed.

(** Every word of the row-major layout is one of the block layout. *)
Definition block_index (e : Z) : Z :=
  let '(row, col, i) := (e / n_col, e mod n_col / W, e mod n_col mod W) in (col * n_row + row) * W + i.

Lemma row_block_index e : 0 <= e < n_row * n_col -> 0 <= block_index e < n_row * n_col /\ row_index (block_index e) = e.
Proof.
  intros He. geometry. assert (0 < n_col) as Hp by nia. pose proof (Z.mod_pos_bound e n_col Hp). assert (n_col <> 0) as H1 by lia.
  assert (W <> 0) as H2 by lia. pose proof (Z.div_mod e n_col H1). pose proof (Z.div_mod (e mod n_col) W H2).
  pose proof (Z.mod_pos_bound (e mod n_col) W max_w_col_pos). unfold block_index.
  assert (0 <= e / n_col < n_row) by (split; [apply Z.div_pos|apply Z.div_lt_upper_bound]; lia).
  assert (0 <= e mod n_col / W < C) by (split; [apply Z.div_pos|apply Z.div_lt_upper_bound]; lia).
  split; [rewrite Hcol in *; nia|]. rewrite row_index_spec by done. lia.
Qed.

Lemma layout_roundtrip_rows rowWise b0 r0 :
  zlen rowWise = n_row * n_col -> zlen b0 = n_row * n_col -> zlen r0 = n_row * n_col ->
  (b ← rowWise2BlockWise rowWise n_row n_col b0; blockWise2RowWise b n_row n_col r0) = Some rowWise.
Proof.
  intros Hr Hb Hr0. apply wp_eq, wp_bind, wp_rowWise2BlockWise; [done|done|]. intros b Hl Hcp.
  apply wp_blockWise2RowWise; [done|done|]. intros r Hl2 Hcp2. apply list_eq_nthZ; [lia|]. intros e He.
  destruct (row_block_index e ltac:(lia)) as [Hbi <-]. rewrite Hcp2, Hcp by done. done.
Qed.

Lemma layout_roundtrip_blocks blockWise b0 r0 :
  zlen blockWise = n_row * n_col -> zlen b0 = n_row * n_col -> zlen r0 = n_row * n_col ->
  (r ← blockWise2RowWise blockWise n_row n_col r0; rowWise2BlockWise r n_row n_col b0) = Some blockWise.
Proof.
  intros Hr Hb Hr0. apply wp_eq, wp_bind, wp_blockWise2RowWise; [done|done|]. intros r Hl Hcp.
  apply wp_rowWise2BlockWise; [done|done|]. intros b Hl2 Hcp2. apply list_eq_nthZ; [lia|]. intros e He.
  rewrite Hcp2, Hcp by lia. done.
Qed.
End Layout.

(** ** The software product *)

Section Conventional.
Context {cfg : Config} {wf : WfConfig cfg}.
Hypothesis (Hint : ACTIVATION_FP = false) (Hact : ACTIVATION_BITS = 8) (Hweight : WEIGHT_BITS = 8).

Lemma four_acts : ACT_PER_BUS = 4.
Proof. unfold ACT_PER_BUS, BUS_WIDTH. by rewrite Hact. Qed.

Lemma four_weights : W_PER_BUS = 4.
Proof. unfold W_PER_BUS, BUS_WIDTH. by rewrite Hweight. Qed.

(** Element [(t, e)] of a row-major matrix of activations whose rows have [width]
    elements, the first element of a word in its most significant lane; the same
    for weights. *)
Definition row_act (buf : list Z) (width t e : Z) : Z :=
  act_lane buf.[t * (width / ACT_PER_BUS) + e / ACT_PER_BUS] (e mod ACT_PER_BUS).
Definition row_weight (buf : list Z) (width e c : Z) : Z :=
  weight_lane buf.[e * (width / W_PER_BUS) + c / W_PER_BUS] (c mod W_PER_BUS).

(** The element in the mirrored lane of the same word: the order in which a
    little-endian pointer walks over a word. *)
Definition mirror (i : Z) : Z := i + 3 - 2 * (i mod 4).

Lemma mirror_parts i : mirror i / 4 = i / 4 /\ mirror i mod 4 = 3 - i mod 4.
Proof.
  unfold mirror. pose proof (Z.div_mod i 4 ltac:(lia)). pose proof (Z.mod_pos_bound i 4 ltac:(lia)).
  replace (i + 3 - 2 * (i mod 4)) with (3 - i mod 4 + i / 4 * 4) by lia.
  rewrite Z.div_add, Z.mod_add, Z.div_small, Z.mod_small by lia. lia.
Qed.

Lemma mirror_mirror i : mirror (mirror i) = i.
Proof. unfold mirror at 1. destruct (mirror_parts i) as [_ ->]. unfold mirror. lia. Qed.

Lemma mirror_range i n : 0 <= i < 4 * n -> 0 <= mirror i < 4 * n.
Proof. intros Hi. pose proof (Z.div_mod i 4 ltac:(lia)). pose proof (Z.mod_pos_bound i 4 ltac:(lia)). unfold mirror. lia. Qed.

Lemma mirror_at i j : 0 <= j < 4 -> mirror (i * 4 + j) = i * 4 + (3 - j).
Proof. intros Hj. unfold mirror. rewrite (Z.add_comm (i * 4) j), Z.mod_add, Z.mod_small by lia. lia. Qed.

Lemma zsum_mirror f n : 0 <= n -> zsum (fun i => f (mirror i)) (4 * n) = zsum f (4 * n).
Proof.
  intros Hn. rewrite (Z.mul_comm 4), !zsum_nest by lia. apply zsum_ext. intros i Hi. unfold zsum. simpl.
  rewrite !(mirror_at i) by lia.
  change (Z.of_nat 0) with 0. change (Z.of_nat 1) with 1. change (Z.of_nat 2) with 2. change (Z.of_nat 3) with 3.
  change (3 - 0) with 3. change (3 - 1) with 2. change (3 - 2) with 1. change (3 - 3) with 0. lia.
Qed.

(** What the little-endian pointers read. *)
Lemma uelem_row_act buf width t e :
  width mod 4 = 0 -> activation_t (uelem buf (t * width + mirror e)) = row_act buf width t e.
Proof.
  intros Hw. unfold uelem, row_act, act_lane. rewrite lane_be_le by (rewrite Hact; lia). rewrite four_acts.
  pose proof (Z.div_mod width 4 ltac:(lia)). destruct (mirror_parts e) as [E1 E2]. pose proof (Z.mod_pos_bound e 4 ltac:(lia)).
  replace (t * width + mirror e) with (mirror e + t * (width / 4) * 4) by lia. rewrite Z.div_add, Z.mod_add, E1, E2 by lia.
  do 2 f_equal; [f_equal; lia|lia].
Qed.

Lemma wp_get_weight buf width e c (Q : Z -> Prop) :
  width mod 4 = 0 -> 0 <= e -> 0 <= c < width -> (e + 1) * (width / 4) <= zlen buf ->
  Q (row_weight buf width e c) -> wp (get_weight buf (mirror c + e * width)) Q.
Proof.
  intros Hw He Hc Hlen HQ. unfold get_weight. rewrite four_weights. pose proof (Z.div_mod width 4 ltac:(lia)).
  destruct (mirror_parts c) as [E1 E2]. pose proof (Z.mod_pos_bound c 4 ltac:(lia)).
  replace (mirror c + e * width) with (mirror c + e * (width / 4) * 4) by lia. rewrite Z.div_add, Z.mod_add, E1, E2 by lia.
  assert (0 <= c / 4 < width / 4) by (split; [apply Z.div_pos|apply Z.div_lt_upper_bound]; lia).
  apply wp_bind, wp_aget; [nia|]. apply wp_ret. unfold row_weight, weight_lane in HQ. rewrite lane_be_le in HQ by (rewrite Hweight; lia).
  rewrite four_weights in HQ. replace (c / 4 + e * (width / 4)) with (e * (width / 4) + c / 4) by lia.
  by replace (3 - c mod 4) with (4 - c mod 4 - 1) by lia.
Qed.

Section Product.
Context (n I O : Z) (input weight : list Z).
Hypothesis (Hn : 0 <= n) (HI : 0 <= I) (HO : 0 <= O) (HI4 : I mod 4 = 0) (HO4 : O mod 4 = 0).
Hypothesis (Hinput : n * (I / 4) <= zlen input) (Hkernel : I * (O / 4) <= zlen weight).

(** Entry [(t, c)] of the product of the row-major matrices. *)
Definition row_product (t c : Z) : Z := zsum (fun e => row_act input I t e * row_weight weight O e c) I.

Lemma conv_mac_int sum w x : conv_mac sum w x mod 2 ^ 32 = (sum + x * w) mod 2 ^ 32.
Proof.
  unfold conv_mac. rewrite Hint. unfold int32. rewrite wrapS_mod by lia. rewrite <- Zplus_mod_idemp_r, wrapS_mod, Zplus_mod_idemp_r by lia.
  f_equal. lia.
Qed.

Lemma wp_conv_sum t c (Q : Z -> Prop) :
  0 <= t < n -> 0 <= c < O -> (forall sum, sum mod 2 ^ 32 = row_product t c mod 2 ^ 32 -> Q sum) ->
  wp (for_up 0 I (fun i sum => wt ← get_weight weight (mirror c + mirror i * O); x ← get_act input (t * I + i);
        Some (conv_mac sum wt x)) 0) Q.
Proof.
  intros Ht Hc HQ. pose proof (Z.div_mod I 4 ltac:(lia)) as DI. pose proof (Z.div_mod O 4 ltac:(lia)) as DO.
  apply (wp_for_up (fun i sum => sum mod 2 ^ 32 =
    zsum (fun i => row_act input I t (mirror i) * row_weight weight O (mirror i) c) i mod 2 ^ 32)); [done|done| |].
  - intros i sum Hi Hs. pose proof (mirror_range i (I / 4) ltac:(lia)) as Hm. apply wp_bind, wp_get_weight; [done|lia|done|nia|].
    apply wp_bind, wp_get_act; [unfold elements; rewrite four_acts; nia|].
    rewrite <- (mirror_mirror i) at 2. rewrite uelem_row_act by done. apply wp_ret.
    rewrite conv_mac_int, zsum_succ by lia. by rewrite <- Zplus_mod_idemp_l, Hs, Zplus_mod_idemp_l.
  - intros sum Hs. apply HQ. rewrite Hs. unfold row_product. f_equal.
    pose proof (zsum_mirror (fun e => row_act input I t e * row_weight weight O e c) (I / 4)) as Hz.
    replace (4 * (I / 4)) with I in Hz by lia. apply Hz, Z.div_pos; lia.
Qed.

(** Element [e] of the output as a little-endian pointer sees it. *)
Definition conv_elem (e : Z) : Z := u_activation_t (row_product (e / O) (mirror (e mod O))).

Lemma wp_conv_elem t j w out (Q : list Z -> Prop) :
  0 <= t < n -> 0 <= j < O / 4 -> 0 <= w < 4 -> zlen out = n * (O / 4) ->
  (forall e, 0 <= e < t * O + j * 4 + w -> uelem out e = conv_elem e) ->
  (forall out', zlen out' = n * (O / 4) -> (forall e, 0 <= e < t * O + j * 4 + (w + 1) -> uelem out' e = conv_elem e) -> Q out') ->
  wp (sum ← for_up 0 I (fun i sum =>
        wt ← get_weight weight (j * W_PER_BUS + (i + 3 - 2 * (Z.rem i ACT_PER_BUS)) * O + w);
        x ← get_act input (t * I / ACT_PER_BUS * ACT_PER_BUS + i);
        Some (conv_mac sum wt x)) 0;
      set_act out ((t * O / ACT_PER_BUS + j) * ACT_PER_BUS + w) (activation_t sum)) Q.
Proof.
  intros Ht Hj Hw Hl Hout HQ. rewrite four_acts, four_weights. pose proof (Z.div_mod I 4 ltac:(lia)) as DI. pose proof (Z.div_mod O 4 ltac:(lia)) as DO.
  replace (t * I / 4 * 4) with (t * I) by (rewrite DI at 2; rewrite HI4, Z.add_0_r, (Z.mul_comm 4), Z.mul_assoc, Z.div_mul; lia).
  replace (t * O / 4) with (t * (O / 4)) by (rewrite DO at 2; rewrite HO4, Z.add_0_r, (Z.mul_comm 4), Z.mul_assoc, Z.div_mul; lia).
  pose proof (mirror_at j w Hw) as Hmj. set (c := mirror (j * 4 + w)). assert (mirror c = j * 4 + w) as Hmc by apply mirror_mirror.
  rewrite (for_up_ext 0 I _ (fun i sum => wt ← get_weight weight (mirror c + mirror i * O); x ← get_act input (t * I + i); Some (conv_mac sum wt x))).
  2: { intros i sum Hi. rewrite Z.rem_mod_nonneg by lia. unfold mirror at 2. rewrite Hmc.
       by replace (j * 4 + (i + 3 - 2 * (i mod 4)) * O + w) with (j * 4 + w + (i + 3 - 2 * (i mod 4)) * O) by lia. }
  apply wp_bind, wp_conv_sum; [done|lia|]. intros sum Hs. apply wp_set_act; [unfold elements; rewrite four_acts; nia|].
  intros out' Hl' He. apply HQ; [lia|]. intros e Hb. rewrite He. destruct (Z.eqb_spec e ((t * (O / 4) + j) * 4 + w)) as [->|Hne].
  - unfold conv_elem, u_activation_t, activation_t. rewrite wrapU_wrapS by (rewrite Hact; lia).
    replace ((t * (O / 4) + j) * 4 + w) with (j * 4 + w + t * O) by lia. rewrite Z.div_add, Z.mod_add, Z.div_small, Z.mod_small by lia.
    apply (mod_pow2_weaken _ 32); [rewrite Hact; lia|]. exact Hs.
  - apply Hout. lia.
Qed.

Lemma wp_conventionalCompute out (Q : list Z -> Prop) :
  zlen out = n * (O / 4) ->
  (forall out', zlen out' = n * (O / 4) ->
     (forall t c, 0 <= t < n -> 0 <= c < O -> row_act out' O t c = activation_t (row_product t c)) -> Q out') ->
  wp (conventionalCompute n input weight I O out) Q.
Proof.
  intros Hl HQ. pose proof (Z.div_mod O 4 ltac:(lia)) as DO. assert (0 <= O / 4) as HO' by (apply Z.div_pos; lia). unfold conventionalCompute.
  apply (wp_for_up (fun t o => zlen o = n * (O / 4) /\ forall e, 0 <= e < t * O -> uelem o e = conv_elem e)); [done|split; [done|lia]| |].
  - intros t o Ht [Ho1 Ho2]. rewrite four_acts at 1.
    apply (wp_for_up (fun j o => zlen o = n * (O / 4) /\ forall e, 0 <= e < t * O + j * 4 -> uelem o e = conv_elem e)); [done| | |].
    + split; [done|]. intros e He. apply Ho2. lia.
    + intros j o1 Hj [Hj1 Hj2]. cbv zeta. rewrite four_acts at 1.
      apply (wp_for_up (fun w o => zlen o = n * (O / 4) /\ forall e, 0 <= e < t * O + j * 4 + w -> uelem o e = conv_elem e)); [done| | |].
      * split; [done|]. intros e He. apply Hj2. lia.
      * intros w o2 Hw [Hw1 Hw2]. cbv zeta. by apply wp_conv_elem.
      * intros o2 [Hw1 Hw2]. split; [done|]. intros e He. apply Hw2. lia.
    + intros o1 [Hj1 Hj2]. split; [done|]. intros e He. apply Hj2. lia.
  - intros o [Ho1 Ho2]. apply HQ; [done|]. intros t c Ht Hc. pose proof (mirror_range c (O / 4) ltac:(lia)) as Hm.
    rewrite <- uelem_row_act by done. rewrite Ho2 by nia. unfold conv_elem.
    replace (t * O + mirror c) with (mirror c + t * O) by lia. rewrite Z.div_add, Z.mod_add, Z.div_small, Z.mod_small by lia.
    rewrite mirror_mirror, Z.add_0_l. apply wrapS_wrapU.
Qed.
End Product.

(** ** The accelerator on the block layout *)

Lemma same_cols : MAX_ACT_COL = MAX_W_COL.
Proof. unfold MAX_ACT_COL, MAX_W_COL. by rewrite four_acts, four_weights. Qed.

Lemma cols_four : KERNEL_DIM = MAX_W_COL * 4.
Proof. rewrite <- four_weights. apply max_w_col_spec. Qed.

(** The word and the lane of an element, by tile. *)
Lemma tile_parts e : 0 <= e ->
  e / 4 = e / KERNEL_DIM * MAX_W_COL + e mod KERNEL_DIM / 4 /\ e mod 4 = e mod KERNEL_DIM mod 4 /\
  0 <= e mod KERNEL_DIM / 4 < MAX_W_COL /\ 0 <= e mod KERNEL_DIM < KERNEL_DIM.
Proof.
  intros He. geometry. pose proof cols_four as HK. assert (0 < KERNEL_DIM) as Hp by lia. assert (KERNEL_DIM <> 0) as H0 by lia.
  pose proof (Z.div_mod e KERNEL_DIM H0) as Hd. pose proof (Z.mod_pos_bound e KERNEL_DIM Hp). set (a := e / KERNEL_DIM) in *. set (b := e mod KERNEL_DIM) in *.
  replace e with (b + a * MAX_W_COL * 4) by nia. rewrite Z.div_add, Z.mod_add by lia. split; [lia|]. split; [done|].
  split; [split; [apply Z.div_pos|apply Z.div_lt_upper_bound]; lia|lia].
Qed.

Lemma block_word_bounds n C W a t i :
  0 <= a < C -> 0 <= t < n -> 0 <= i < W -> 0 <= (a * n + t) * W + i < n * (C * W).
Proof.
  intros Ha Ht Hi. pose proof (idx2_bounds n C a t Ha Ht) as H1. pose proof (idx2_bounds W (C * n) (a * n + t) i H1 Hi). lia.
Qed.

(** A matrix of activations in the block layout. *)
Lemma act_mat_block m R buf blocks t e :
  0 <= R -> 0 <= seq_len m -> 0 <= t < seq_len m -> 0 <= e < R * KERNEL_DIM ->
  (forall g, 0 <= g < seq_len m * (R * MAX_W_COL) -> blocks.[g] = buf.[row_index (seq_len m) (R * MAX_W_COL) g]) ->
  act_mat m blocks t e = row_act buf (R * KERNEL_DIM) t e.
Proof.
  intros HR Hs Ht He Hb. geometry. pose proof cols_four as HK. destruct (tile_parts e ltac:(lia)) as (E1 & E2 & E3 & E4).
  assert (0 <= e / KERNEL_DIM < R) by (split; [apply Z.div_pos|apply Z.div_lt_upper_bound]; lia).
  unfold act_mat, act_tile, row_act. rewrite four_acts, same_cols. zcases; [|lia]. rewrite <- E2.
  replace (e / KERNEL_DIM * MAX_W_COL * seq_len m + t * MAX_W_COL + e mod KERNEL_DIM / 4)
    with ((e / KERNEL_DIM * seq_len m + t) * MAX_W_COL + e mod KERNEL_DIM / 4) by lia.
  rewrite Hb by (apply block_word_bounds; lia). rewrite (row_index_spec (seq_len m) (R * MAX_W_COL) R) by (done || lia).
  do 2 f_equal. rewrite E1. replace (R * KERNEL_DIM) with (R * MAX_W_COL * 4) by nia. rewrite Z.div_mul by lia. lia.
Qed.

(** A matrix of weights in the block layout. *)
Lemma weight_mat_block m R C buf blocks e c :
  0 <= R -> 0 <= C -> tiles_in_row m = R -> 0 <= e < R * KERNEL_DIM -> 0 <= c < C * KERNEL_DIM ->
  (forall g, 0 <= g < R * KERNEL_DIM * (C * MAX_W_COL) -> blocks.[g] = buf.[row_index (R * KERNEL_DIM) (C * MAX_W_COL) g]) ->
  weight_mat m blocks e c = row_weight buf (C * KERNEL_DIM) e c.
Proof.
  intros HR HC HRm He Hc Hb. geometry. pose proof cols_four as HK. destruct (tile_parts e ltac:(lia)) as (_ & _ & _ & Ee).
  destruct (tile_parts c ltac:(lia)) as (C1 & C2 & C3 & C4). assert (KERNEL_DIM <> 0) as H0 by lia. pose proof (Z.div_mod e KERNEL_DIM H0) as De.
  assert (0 <= c / KERNEL_DIM < C) by (split; [apply Z.div_pos|apply Z.div_lt_upper_bound]; lia).
  unfold weight_mat, weight_tile, words_weight, row_weight, TILE. rewrite four_weights, HRm.
  replace (e mod KERNEL_DIM * KERNEL_DIM + c mod KERNEL_DIM) with (c mod KERNEL_DIM + e mod KERNEL_DIM * MAX_W_COL * 4) by nia.
  rewrite Z.div_add, Z.mod_add, <- C2 by lia.
  replace ((c / KERNEL_DIM * R + e / KERNEL_DIM) * (KERNEL_DIM * MAX_W_COL) + (c mod KERNEL_DIM / 4 + e mod KERNEL_DIM * MAX_W_COL))
    with ((c / KERNEL_DIM * (R * KERNEL_DIM) + e) * MAX_W_COL + c mod KERNEL_DIM / 4) 
    by (revert De; generalize (e / KERNEL_DIM), (e mod KERNEL_DIM); intros ? ? ->; ring).
  rewrite Hb by (apply block_word_bounds; lia). rewrite (row_index_spec (R * KERNEL_DIM) (C * MAX_W_COL) C) by (done || lia).
  do 2 f_equal. rewrite C1. replace (C * KERNEL_DIM) with (C * MAX_W_COL * 4) by nia. rewrite Z.div_mul by lia. lia.
Qed.
End Conventional.
