(* ===== verification/Transpose.v ===== *)
(** * Transpose: the matrix transpositions of the attention layer

    Translates [src/transformer_layers/transpose.cc].  [transpose] works on
    row-major word buffers, [transpose_rearranged] on the tiled layout of the
    accelerator, [multihead_transpose] moves whole words.  The theorems: each
    writes every word of its output and puts entry [(r, c)] at [(c, r)]. *)

From stdpp Require Import prelude.
From Stdlib Require Import ZArith Lia.
From S2P Require Import Prelude Machine Float32 Systolic SystolicCorrect.

Section Transpose.
Context {cfg : Config}.

(** The inner loop over [s], gathering lane [k] of [ACT_PER_BUS] words. *)
Definition gather_lane (word : Z -> option Z) (k : Z) : option Z :=
  for_up 0 ACT_PER_BUS (fun s result =>
    v ← word s;
    Some (Z.lor result (uint32 (Z.shiftl
      (Z.land (Z.shiftr v ((ACT_PER_BUS - 1 - k) * ACTIVATION_BITS)) ACTIVATION_MASK)
      ((ACT_PER_BUS - 1 - s) * ACTIVATION_BITS))))) 0.

Definition transpose (input : list Z) (width height : Z) (output : list Z) : option (list Z) :=
  let height_tile := height / ACT_PER_BUS in
  let width_tile := width / ACT_PER_BUS in
  '(output, _) ← for_up 0 height_tile (fun i st =>
    for_up 0 width_tile (fun j '(output, swap) =>
      swap ← for_up 0 ACT_PER_BUS (fun k swap =>
        v ← aget input ((i * ACT_PER_BUS + k) * width_tile + j);
        aset swap k v) swap;
      output ← for_up 0 ACT_PER_BUS (fun k output =>
        result ← gather_lane (fun s => aget swap s) k;
        aset output ((j * ACT_PER_BUS + k) * height_tile + i) result) output;
      Some (output, swap)) st) (output, zeros ACT_PER_BUS);
  Some output.

Definition transpose_rearranged (input : list Z) (width height : Z) (output : list Z) : option (list Z) :=
  let tileRow := height / KERNEL_DIM in
  let tileCol := width / KERNEL_DIM in
  for_up 0 tileRow (fun i output =>
    for_up 0 tileCol (fun j output =>
      let tileInputPtr := (j * tileRow + i) * (KERNEL_DIM * MAX_ACT_COL) in
      let tileOutputPtr := (i * tileCol + j) * (KERNEL_DIM * MAX_ACT_COL) in
      for_up 0 MAX_ACT_COL (fun m output =>
        for_up 0 ACT_PER_BUS (fun indexInBus output =>
          for_up 0 MAX_ACT_COL (fun k output =>
            result ← gather_lane (fun s =>
              aget input (tileInputPtr + (ACT_PER_BUS * k + s) * MAX_ACT_COL + m)) indexInBus;
            aset output (tileOutputPtr + m * ACT_PER_BUS * MAX_ACT_COL + indexInBus * MAX_ACT_COL + k) result)
          output) output) output) output) output.

Definition multihead_transpose (input : list Z) (seq_len head_hidden_size num_head : Z) (output : list Z)
  : option (list Z) :=
  '(output, _) ← for_up 0 seq_len (fun i st =>
    for_up 0 num_head (fun n '(output, op) =>
      let input_ptr := i * head_hidden_size + n * seq_len * head_hidden_size in
      '(output, op, _) ← for_up 0 head_hidden_size (fun j '(output, op, ip) =>
        v ← aget input ip;
        output ← aset output op v;
        Some (output, op + 1, ip + 1)) (output, op, input_ptr);
      Some (output, op)) st) (output, 0);
  Some output.

(** ** Entries *)

(** Entry [(r, c)] of a row-major matrix whose rows are [wt] words. *)
Definition row_entry (buf : list Z) (wt r c : Z) : Z :=
  lane_be ACTIVATION_BITS ACT_PER_BUS buf.[r * wt + c / ACT_PER_BUS] (c mod ACT_PER_BUS).

(** Entry [(t, e)] of a matrix with [n] rows in the tiled layout. *)
Definition tiled_entry (buf : list Z) (n t e : Z) : Z :=
  lane_be ACTIVATION_BITS ACT_PER_BUS
    buf.[e / KERNEL_DIM * (MAX_ACT_COL * n) + t * MAX_ACT_COL + e mod KERNEL_DIM / ACT_PER_BUS]
    (e mod KERNEL_DIM mod ACT_PER_BUS).
End Transpose.

Section Correct.
Context {cfg : Config} {wf : WfConfig cfg}.
Abbreviation K := KERNEL_DIM.
Abbreviation MAC := MAX_ACT_COL.
Abbreviation APB := ACT_PER_BUS.

(** [gather_lane] packs the lanes. *)
Lemma wp_gather_lane word f k (Q : Z -> Prop) :
  0 <= k < APB -> (forall s, 0 <= s < APB -> word s = Some (f s)) ->
  Q (pack ACTIVATION_BITS APB (fun s => lane_be ACTIVATION_BITS APB (f s) k)) ->
  wp (gather_lane word k) Q.
Proof.
  intros Hk Hw HQ. geometry. unfold gather_lane.
  apply (wp_pack_loop _ (fun s => lane_be ACTIVATION_BITS APB (f s) k)); [|done].
  intros s r Hs. rewrite Hw by done. apply wp_bind, wp_ret, wp_ret. f_equal.
  replace ((APB - 1 - k) * ACTIVATION_BITS) with (ACTIVATION_BITS * (APB - k - 1)) by lia.
  replace ((APB - 1 - s) * ACTIVATION_BITS) with (ACTIVATION_BITS * (APB - s - 1)) by lia.
  apply shift_word_small; [done|]. apply lane_be_range. lia.
Qed.

Lemma lane_gathered f k s :
  0 <= s < APB ->
  lane_be ACTIVATION_BITS APB (pack ACTIVATION_BITS APB (fun s => lane_be ACTIVATION_BITS APB (f s) k)) s =
  lane_be ACTIVATION_BITS APB (f s) k.
Proof. intros. geometry. rewrite lane_be_pack; [done|lia|done|]. intros. apply lane_be_range. lia. Qed.

(** ** The tiled transposition writes its output in order *)

(** Word [g] of the transposed matrix; [g] counts the words of the output. *)
Definition rearranged_word (input : list Z) (tileRow tileCol g : Z) : Z :=
  let k := g mod MAC in
  let b := g / MAC mod APB in
  let m := g / MAC / APB mod MAC in
  let j := g / MAC / APB / MAC mod tileCol in
  let i := g / MAC / APB / MAC / tileCol in
  pack ACTIVATION_BITS APB (fun s => lane_be ACTIVATION_BITS APB
    input.[(j * tileRow + i) * (K * MAC) + (APB * k + s) * MAC + m] b).

Definition written (F : Z -> Z) (n : Z) (g : Z) (out : list Z) : Prop :=
  zlen out = n /\ forall x, 0 <= x < g -> out.[x] = F x.

Lemma written_step F n g out v (Q : list Z -> Prop) :
  0 <= g < n -> written F n g out -> v = F g ->
  (forall out', written F n (g + 1) out' -> Q out') -> wp (aset out g v) Q.
Proof.
  intros Hg [Hl Hw] -> HQ. apply wp_aset; [lia|]. intros out' Hl' Ho. apply HQ. split; [lia|].
  intros x Hx. rewrite Ho. zcases; [by subst|]. apply Hw. lia.
Qed.

Lemma div_mod_unique a b q r : 0 <= r < b -> a = q * b + r -> a / b = q /\ a mod b = r.
Proof.
  intros Hr ->. rewrite Z.add_comm, Z.div_add, Z.mod_add, Z.div_small, Z.mod_small by lia. lia.
Qed.

Lemma wp_transpose_rearranged input width height output (Q : list Z -> Prop) :
  let TR := height / K in let TC := width / K in
  0 <= height -> 0 <= width ->
  TR * TC * (K * MAC) <= zlen input -> TR * TC * (K * MAC) <= zlen output ->
  (forall out, written (rearranged_word input TR TC) (zlen output) (TR * TC * (K * MAC)) out -> Q out) ->
  wp (transpose_rearranged input width height output) Q.
Proof.
  intros TR TC Hh Hw Hin Hout HQ. geometry. pose proof max_act_col_spec as HM.
  assert (0 <= TR) by (apply Z.div_pos; lia). assert (0 <= TC) by (apply Z.div_pos; lia).
  set (W := written (rearranged_word input TR TC) (zlen output)). unfold transpose_rearranged. fold TR TC.
  apply (wp_for_up (fun i => W (i * TC * (K * MAC)))); [done|split; [done|lia]| |done].
  intros i o1 Hi H1.
  apply (wp_for_up (fun j => W ((i * TC + j) * (K * MAC)))); [done|by rewrite Z.add_0_r| |
    by replace ((i * TC + TC) * (K * MAC)) with ((i + 1) * TC * (K * MAC)) by lia].
  intros j o2 Hj H2.
  apply (wp_for_up (fun m => W (((i * TC + j) * MAC + m) * (APB * MAC)))); [lia| | |].
  { replace (((i * TC + j) * MAC + 0) * (APB * MAC)) with ((i * TC + j) * (K * MAC)) by (rewrite HM; lia). done. }
  2:{ intros o. by replace (((i * TC + j) * MAC + MAC) * (APB * MAC)) with ((i * TC + (j + 1)) * (K * MAC)) by (rewrite HM; lia). }
  intros m o3 Hm H3.
  apply (wp_for_up (fun b => W ((((i * TC + j) * MAC + m) * APB + b) * MAC))); [lia| | |].
  { by replace ((((i * TC + j) * MAC + m) * APB + 0) * MAC) with (((i * TC + j) * MAC + m) * (APB * MAC)) by lia. }
  2:{ intros o. by replace ((((i * TC + j) * MAC + m) * APB + APB) * MAC) with (((i * TC + j) * MAC + (m + 1)) * (APB * MAC)) by lia. }
  intros b o4 Hb H4.
  apply (wp_for_up (fun k => W ((((i * TC + j) * MAC + m) * APB + b) * MAC + k))); [lia| | |].
  { by rewrite Z.add_0_r. }
  2:{ intros o. by replace ((((i * TC + j) * MAC + m) * APB + b) * MAC + MAC) with ((((i * TC + j) * MAC + m) * APB + (b + 1)) * MAC) by lia. }
  intros k o5 Hk H5. apply wp_bind.
  apply (wp_gather_lane _ (fun s => input.[(j * TR + i) * (K * MAC) + (APB * k + s) * MAC + m])); [done| |].
  { intros s Hs. apply aget_nthZ. assert (0 <= APB * k + s < K) by nia.
    assert (0 <= (APB * k + s) * MAC + m < K * MAC) by nia. assert (0 <= j * TR + i < TC * TR) by nia. nia. }
  replace ((i * TC + j) * (K * MAC) + m * APB * MAC + b * MAC + k)
    with ((((i * TC + j) * MAC + m) * APB + b) * MAC + k) by (rewrite HM; lia).
  set (g := (((i * TC + j) * MAC + m) * APB + b) * MAC + k) in *.
  destruct (div_mod_unique g MAC (((i * TC + j) * MAC + m) * APB + b) k Hk eq_refl) as [D1 M1].
  destruct (div_mod_unique (g / MAC) APB ((i * TC + j) * MAC + m) b Hb D1) as [D2 M2].
  destruct (div_mod_unique (g / MAC / APB) MAC (i * TC + j) m Hm D2) as [D3 M3].
  destruct (div_mod_unique (g / MAC / APB / MAC) TC i j Hj D3) as [D4 M4].
  apply (written_step (rearranged_word input TR TC) (zlen output)).
  - unfold g. rewrite HM in Hout. assert (0 <= i * TC + j < TR * TC) by nia.
    assert (0 <= (i * TC + j) * MAC + m < TR * TC * MAC) by nia.
    assert (0 <= ((i * TC + j) * MAC + m) * APB + b < TR * TC * MAC * APB) by nia. nia.
  - done.
  - unfold rearranged_word. by rewrite M1, M2, M3, M4, D4.
  - intros out' Ho. rewrite Z.add_assoc. done.
Qed.

(** An index of the tiled layout, split into tile, word and lane. *)
Lemma split_index n e :
  0 <= e < n * K -> exists j m b, 0 <= j < n /\ 0 <= m < MAC /\ 0 <= b < APB /\
    e = j * K + (m * APB + b) /\ e / K = j /\ e mod K / APB = m /\ e mod K mod APB = b.
Proof.
  intros He. geometry. pose proof max_act_col_spec as HM.
  assert (0 <= e mod K < K) as H1 by (apply Z.mod_pos_bound; lia).
  assert (e = K * (e / K) + e mod K) as H2 by (apply Z.div_mod; lia).
  assert (0 <= e mod K mod APB < APB) as H3 by (apply Z.mod_pos_bound; lia).
  assert (e mod K = APB * (e mod K / APB) + e mod K mod APB) as H4 by (apply Z.div_mod; lia).
  exists (e / K), (e mod K / APB), (e mod K mod APB).
  split; [split; [apply Z.div_pos; lia|apply Z.div_lt_upper_bound; lia]|].
  split; [split; [apply Z.div_pos; lia|apply Z.div_lt_upper_bound; lia]|].
  split; [done|]. split; [lia|done].
Qed.

Lemma rearranged_entry input TR TC n out t e :
  0 <= t < TR * K -> 0 <= e < TC * K ->
  written (rearranged_word input TR TC) n (TR * TC * (K * MAC)) out ->
  tiled_entry out (TC * K) e t = tiled_entry input (TR * K) t e.
Proof.
  intros Ht He [Hl Hw]. geometry. pose proof max_act_col_spec as HM.
  destruct (split_index TR t Ht) as (i & k & s & Hi & Hk & Hs & Et & E1 & E2 & E3).
  destruct (split_index TC e He) as (j & m & b & Hj & Hm & Hb & Ee & E4 & E5 & E6).
  unfold tiled_entry. rewrite E1, E2, E3, E4, E5, E6.
  set (g := (((i * TC + j) * MAC + m) * APB + b) * MAC + k).
  replace (i * (MAC * (TC * K)) + e * MAC + k) with g by (subst e g; rewrite HM; lia).
  destruct (div_mod_unique g MAC (((i * TC + j) * MAC + m) * APB + b) k Hk eq_refl) as [D1 M1].
  destruct (div_mod_unique (g / MAC) APB ((i * TC + j) * MAC + m) b Hb D1) as [D2 M2].
  destruct (div_mod_unique (g / MAC / APB) MAC (i * TC + j) m Hm D2) as [D3 M3].
  destruct (div_mod_unique (g / MAC / APB / MAC) TC i j Hj D3) as [D4 M4].
  assert (0 <= g < TR * TC * (K * MAC)) as Hg.
  { unfold g. rewrite HM. assert (0 <= i * TC + j < TR * TC) by nia.
    assert (0 <= (i * TC + j) * MAC + m < TR * TC * MAC) by nia.
    assert (0 <= ((i * TC + j) * MAC + m) * APB + b < TR * TC * MAC * APB) by nia. nia. }
  rewrite Hw by done. unfold rearranged_word. rewrite M1, M2, M3, M4, D4, lane_gathered by done.
  do 2 f_equal. subst t. lia.
Qed.

(** Matrices in the tiled layout are determined by their entries. *)
Lemma tiled_ext T C (a b : list Z) :
  0 <= T -> 0 <= C ->
  zlen a = T * C * (K * MAC) -> zlen b = zlen a ->
  (forall i, 0 <= i < zlen a -> 0 <= a.[i] < 2 ^ 32) -> (forall i, 0 <= i < zlen b -> 0 <= b.[i] < 2 ^ 32) ->
  (forall t e, 0 <= t < T * K -> 0 <= e < C * K -> tiled_entry a (T * K) t e = tiled_entry b (T * K) t e) -> a = b.
Proof.
  intros HT HC Ha Hb Ra Rb He. geometry. pose proof max_act_col_spec as HM. pose proof act_bits_bus as HB.
  apply list_eq_nthZ; [done|]. intros g Hg.
  assert (0 < T * K) as HTK by nia. set (n := T * K) in *.
  assert (0 <= g mod (MAC * n) < MAC * n) as Hr by (apply Z.mod_pos_bound; nia).
  assert (g = MAC * n * (g / (MAC * n)) + g mod (MAC * n)) as Dg by (apply Z.div_mod; nia).
  assert (0 <= g mod (MAC * n) mod MAC < MAC) as Hw by (apply Z.mod_pos_bound; lia).
  assert (g mod (MAC * n) = MAC * (g mod (MAC * n) / MAC) + g mod (MAC * n) mod MAC) as Dw by (apply Z.div_mod; lia).
  set (c := g / (MAC * n)) in *. set (t := g mod (MAC * n) / MAC) in *. set (w := g mod (MAC * n) mod MAC) in *.
  assert (0 <= t < n) as Ht by nia. assert (0 <= c < C) as Hc.
  { split; [apply Z.div_pos; nia|]. apply Z.div_lt_upper_bound; [nia|]. rewrite Ha in Hg. unfold n in *. nia. }
  apply (lanes_ext ACTIVATION_BITS APB); [lia|lia|rewrite HB; by apply Ra|rewrite HB; apply Rb; lia|].
  intros l Hl. assert (0 <= c * K + (w * APB + (APB - l - 1)) < C * K) as Hcol by nia.
  specialize (He t _ Ht Hcol). unfold tiled_entry in He.
  assert (0 <= w * APB + (APB - l - 1) < K) as Hb1 by nia. assert (0 <= APB - l - 1 < APB) as Hb2 by lia.
  destruct (div_mod_unique _ K c _ Hb1 eq_refl) as [E1 E2]. rewrite E1, E2 in He.
  destruct (div_mod_unique _ APB w _ Hb2 eq_refl) as [E3 E4].
  rewrite E3, E4, !lane_be_le in He by lia.
  replace (APB - (APB - l - 1) - 1) with l in He by lia.
  by replace (c * (MAC * n) + t * MAC + w) with g in He by lia.
Qed.

Lemma rearranged_word_range input TR TC g : 0 <= rearranged_word input TR TC g < 2 ^ 32.
Proof.
  geometry. rewrite <- act_bits_bus. apply pack_range; [lia|lia|]. intros. apply lane_be_range. lia.
Qed.

(** ** The row-major transposition *)

(** The output words of columns below [i], and of column [i] up to row [r]. *)
Definition transposed (input : list Z) (wt ht i r : Z) (out : list Z) : Prop :=
  forall x y, 0 <= x < wt * APB -> 0 <= y < ht -> y < i \/ (y = i /\ x < r) ->
    out.[x * ht + y] = pack ACTIVATION_BITS APB
      (fun s => lane_be ACTIVATION_BITS APB input.[(y * APB + s) * wt + x / APB] (x mod APB)).

Lemma wp_transpose input width height output (Q : list Z -> Prop) :
  let ht := height / APB in let wt := width / APB in
  0 <= height -> 0 <= width -> ht * APB * wt <= zlen input -> wt * APB * ht <= zlen output ->
  (forall out, zlen out = zlen output -> transposed input wt ht ht 0 out -> Q out) ->
  wp (transpose input width height output) Q.
Proof.
  intros ht wt Hh Hw Hin Hout HQ. geometry. unfold transpose. fold ht wt.
  assert (0 <= ht) by (apply Z.div_pos; lia). assert (0 <= wt) by (apply Z.div_pos; lia).
  apply wp_bind. apply (wp_for_up (fun i '(o, sw) =>
    zlen o = zlen output /\ zlen sw = APB /\ transposed input wt ht i 0 o)); [done| | |].
  { split; [done|]. split; [apply zlen_zeros; lia|]. intros x y Hx Hy. lia. }
  2:{ intros [o sw] (Hl & _ & Ho). by apply HQ. }
  intros i [o1 sw1] Hi (Hl1 & Hs1 & Ho1).
  apply (wp_for_up (fun j '(o, sw) =>
    zlen o = zlen output /\ zlen sw = APB /\ transposed input wt ht i (j * APB) o)); [done|done| |].
  2:{ intros [o sw] (Hl & Hs & Ho). split; [done|]. split; [done|]. intros x y Hx Hy Hxy. apply Ho; lia. }
  intros j [o2 sw2] Hj (Hl2 & Hs2 & Ho2). apply wp_bind.
  apply (wp_for_up (fun k sw => zlen sw = APB /\
    forall s, 0 <= s < k -> sw.[s] = input.[(i * APB + s) * wt + j])); [lia|split; [done|lia]| |].
  { intros k sw Hk [Hsl Hsw]. assert (0 <= i * APB + k < ht * APB) by nia. apply wp_bind, wp_aget; [nia|]. apply wp_aset; [lia|]. intros sw' Hl' Hs'.
    split; [lia|]. intros s Hs. rewrite Hs'. zcases; [by subst|]. apply Hsw. lia. }
  intros sw3 [Hsl Hsw]. apply wp_bind.
  apply (wp_for_up (fun k o => zlen o = zlen output /\ transposed input wt ht i (j * APB + k) o)); [lia| | |].
  { by rewrite Z.add_0_r. }
  2:{ intros o [Hl Ho]. apply wp_ret. split; [done|]. split; [done|]. by replace ((j + 1) * APB) with (j * APB + APB) by lia. }
  intros k o3 Hk [Hl3 Ho3]. apply wp_bind.
  apply (wp_gather_lane _ (fun s => input.[(i * APB + s) * wt + j])); [done| |].
  { intros s Hs. rewrite aget_nthZ by lia. by rewrite Hsw. }
  assert (0 <= j * APB + k < wt * APB) as Hrow by nia.
  apply wp_aset; [nia|]. intros o4 Hl4 Ho4. split; [lia|]. intros x y Hx Hy Hxy.
  rewrite Ho4, idx2_eqb by lia. destruct (Z.eqb_spec x (j * APB + k)) as [->|]; simpl.
  - destruct (Z.eqb_spec y i) as [->|]; [|apply Ho3; lia].
    by destruct (div_mod_unique (j * APB + k) APB j k Hk eq_refl) as [-> ->].
  - apply Ho3; lia.
Qed.

Lemma transposed_entry input wt ht out r c :
  transposed input wt ht ht 0 out -> 0 <= r < ht * APB -> 0 <= c < wt * APB ->
  row_entry out ht c r = row_entry input wt r c.
Proof.
  intros Ho Hr Hc. geometry. unfold row_entry.
  assert (0 <= r mod APB < APB) by (apply Z.mod_pos_bound; lia).
  assert (0 <= r / APB < ht) by (split; [apply Z.div_pos; lia|apply Z.div_lt_upper_bound; lia]).
  rewrite Ho, lane_gathered by lia. do 2 f_equal.
  rewrite (Z.div_mod r APB) at 3 by lia. lia.
Qed.

(** ** Heads *)

Lemma wp_multihead_transpose input seq hid heads output (Q : list Z -> Prop) :
  0 <= seq -> 0 <= hid -> 0 <= heads ->
  heads * seq * hid <= zlen input -> seq * heads * hid <= zlen output ->
  (forall out, zlen out = zlen output ->
     (forall i n j, 0 <= i < seq -> 0 <= n < heads -> 0 <= j < hid ->
        out.[(i * heads + n) * hid + j] = input.[(n * seq + i) * hid + j]) -> Q out) ->
  wp (multihead_transpose input seq hid heads output) Q.
Proof.
  intros Hs Hh Hn Hin Hout HQ. unfold multihead_transpose. apply wp_bind.
  set (F g := input.[(g / hid mod heads * seq + g / hid / heads) * hid + g mod hid]).
  apply (wp_for_up (fun i '(o, op) => op = i * heads * hid /\ written F (zlen output) op o)); [done| | |].
  { split; [done|]. split; [done|lia]. }
  2:{ intros [o op] [-> [Hl Ho]]. apply HQ; [done|]. intros i n j Hi Hn' Hj.
      rewrite Ho by (assert (0 <= i * heads + n < seq * heads) by nia; nia). unfold F.
      destruct (div_mod_unique ((i * heads + n) * hid + j) hid (i * heads + n) j Hj eq_refl) as [-> ->].
      by destruct (div_mod_unique (i * heads + n) heads i n Hn' eq_refl) as [-> ->]. }
  intros i [o1 op1] Hi [-> H1].
  apply (wp_for_up (fun n '(o, op) => op = (i * heads + n) * hid /\ written F (zlen output) op o)); [done| | |].
  { split; [lia|done]. }
  2:{ intros [o op] [-> Ho]. split; [lia|done]. }
  intros n [o2 op2] Hn' [-> H2]. apply wp_bind.
  apply (wp_for_up (fun j '(o, op, ip) => op = (i * heads + n) * hid + j /\ ip = (n * seq + i) * hid + j /\
    written F (zlen output) op o)); [done| | |].
  { split; [lia|]. split; [lia|done]. }
  2:{ intros [[o op] ip] (-> & -> & Ho). apply wp_ret. split; [lia|done]. }
  intros j [[o3 op3] ip3] Hj (-> & -> & H3). apply wp_bind.
  assert (0 <= n * seq + i < heads * seq) by nia. assert (0 <= i * heads + n < seq * heads) by nia.
  apply wp_aget; [nia|]. apply wp_bind. apply (written_step F (zlen output)); [nia|done| |].
  - unfold F. destruct (div_mod_unique ((i * heads + n) * hid + j) hid (i * heads + n) j Hj eq_refl) as [-> ->].
    by destruct (div_mod_unique (i * heads + n) heads i n Hn' eq_refl) as [-> ->].
  - intros o4 Ho4. apply wp_ret. split; [lia|]. split; [lia|done].
Qed.
End Correct.
