(* ===== verification/Rows.v ===== *)
(** * Rows: in-place passes over the rows of a matrix of activations

    Softmax and normalisation read and rewrite a buffer row by row, through an
    index function that gives element [p] of row [i]: row-major or tiled.  This
    file has the frame reasoning they share: a pass that maps every element of a
    row leaves the other rows alone. *)

From stdpp Require Import prelude.
From Stdlib Require Import ZArith Lia.
From S2P Require Import Prelude Machine.

Section Rows.
Context {cfg : Config} {wf : WfConfig cfg}.
Abbreviation K := KERNEL_DIM.
Abbreviation APB := ACT_PER_BUS.

(** ** One row *)

Section Row.
Context (idx : Z -> Z) (N : Z).
Hypothesis Hinj : forall p q, 0 <= p < N -> 0 <= q < N -> idx p = idx q -> p = q.

(** The elements of the row below [p] are [f] of the old ones, all else is unchanged. *)
Definition mapped (f : Z -> Z) (p : Z) (buf buf' : list Z) : Prop :=
  zlen buf' = zlen buf /\
  (forall q, 0 <= q < p -> uelem buf' (idx q) = f (uelem buf (idx q))) /\
  (forall e, (forall q, 0 <= q < p -> e <> idx q) -> uelem buf' e = uelem buf e).

Lemma mapped_0 f buf : mapped f 0 buf buf.
Proof. split; [done|]. split; [lia|done]. Qed.

Lemma mapped_step f p buf buf1 buf2 :
  0 <= p < N -> mapped f p buf buf1 -> zlen buf2 = zlen buf1 ->
  (forall e, uelem buf2 e = if e =? idx p then f (uelem buf (idx p)) else uelem buf1 e) ->
  mapped f (p + 1) buf buf2.
Proof.
  intros Hp (Hl & Hin & Hout) Hl2 H2. split; [lia|]. split.
  - intros q Hq. rewrite H2. destruct (Z.eqb_spec (idx q) (idx p)) as [E|E].
    + apply Hinj in E; [by subst|lia|lia].
    + apply Hin. assert (q <> p) by congruence. lia.
  - intros e He. rewrite H2. destruct (Z.eqb_spec e (idx p)) as [E|E]; [exfalso; apply (He p); [lia|done]|].
    apply Hout. intros q Hq. apply He. lia.
Qed.

Lemma mapped_next f p buf buf1 : 0 <= p < N -> mapped f p buf buf1 -> uelem buf1 (idx p) = uelem buf (idx p).
Proof. intros Hp (_ & _ & Hout). apply Hout. intros q Hq E. apply Hinj in E; lia. Qed.

End Row.

(** ** All rows *)

(** Different elements of different rows are different elements of the buffer. *)
Definition separate (idx : Z -> Z -> Z) (n N : Z) : Prop :=
  forall i p j q, 0 <= i < n -> 0 <= p < N -> 0 <= j < n -> 0 <= q < N -> idx i p = idx j q -> i = j /\ p = q.

(** The first [k] rows have been mapped, row [i] by [F i]. *)
Definition rowwise (idx : Z -> Z -> Z) (N : Z) (F : Z -> Z -> Z) (k : Z) (buf buf' : list Z) : Prop :=
  zlen buf' = zlen buf /\
  (forall i p, 0 <= i < k -> 0 <= p < N -> uelem buf' (idx i p) = F i (uelem buf (idx i p))) /\
  (forall e, (forall i p, 0 <= i < k -> 0 <= p < N -> e <> idx i p) -> uelem buf' e = uelem buf e).

Lemma rowwise_step idx n N F k buf b1 b2 :
  separate idx n N -> 0 <= k < n -> rowwise idx N F k buf b1 -> mapped (idx k) (F k) N b1 b2 ->
  rowwise idx N F (k + 1) buf b2.
Proof.
  intros Hsep Hk (Hl & Hin & Hout) (Hl2 & Hin2 & Hout2). split; [lia|]. split.
  - intros i p Hi Hp. destruct (Z.eq_dec i k) as [->|].
    + rewrite Hin2 by done. f_equal. apply Hout. intros j q Hj Hq E. apply Hsep in E; lia.
    + rewrite Hout2; [apply Hin; lia|]. intros q Hq E. apply Hsep in E; lia.
  - intros e He. rewrite Hout2 by (intros q Hq; apply He; lia). apply Hout. intros i p Hi Hp. apply He; lia.
Qed.

Lemma wp_rows idx n N F (body : Z -> list Z -> option (list Z)) buf (Q : list Z -> Prop) :
  0 <= n -> separate idx n N ->
  (forall i b, 0 <= i < n -> zlen b = zlen buf ->
     (forall p, 0 <= p < N -> uelem b (idx i p) = uelem buf (idx i p)) ->
     wp (body i b) (fun b' => mapped (idx i) (F i) N b b')) ->
  (forall buf', rowwise idx N F n buf buf' -> Q buf') ->
  wp (for_up 0 n body buf) Q.
Proof.
  intros Hn Hsep Hbody HQ. apply (wp_for_up (fun k b => rowwise idx N F k buf b)); [done| | |done].
  - split; [done|]. split; [lia|done].
  - intros k b Hk Hb. pose proof Hb as (Hl & _ & Hout). eapply wp_mono; [apply Hbody; [done|done|]|].
    + intros p Hp. apply Hout. intros i q Hi Hq E. apply Hsep in E; lia.
    + intros b2 Hm. by apply (rowwise_step idx n N F k buf b).
Qed.

(** ** The two layouts of a matrix of activations *)
Definition row_index (seq_len i p : Z) : Z := i * (seq_len / APB) * APB + p.
Definition tiled_index (seq_len i p : Z) : Z := i * K + p / K * (seq_len * K) + p mod K.

Lemma row_index_inj seq_len i p j q :
  seq_len mod APB = 0 -> 0 <= p < seq_len -> 0 <= q < seq_len ->
  row_index seq_len i p = row_index seq_len j q -> i = j /\ p = q.
Proof.
  intros Hm Hp Hq. geometry. assert (seq_len = APB * (seq_len / APB)) as E by (apply Z_div_exact_full_2; lia).
  unfold row_index. replace (i * (seq_len / APB) * APB) with (i * seq_len) by (rewrite E at 1; lia).
  replace (j * (seq_len / APB) * APB) with (j * seq_len) by (rewrite E at 1; lia). intros He.
  assert (i = j) by nia. subst. lia.
Qed.

Lemma tiled_index_inj seq_len i p j q :
  0 <= i < seq_len -> 0 <= j < seq_len -> 0 <= p -> 0 <= q ->
  tiled_index seq_len i p = tiled_index seq_len j q -> i = j /\ p = q.
Proof.
  intros Hi Hj Hp Hq He. geometry. unfold tiled_index in He.
  assert (0 <= p mod K < K) by (apply Z.mod_pos_bound; lia). assert (0 <= q mod K < K) by (apply Z.mod_pos_bound; lia).
  assert (p = K * (p / K) + p mod K) by (apply Z.div_mod; lia).
  assert (q = K * (q / K) + q mod K) by (apply Z.div_mod; lia).
  assert (0 <= i * K + p mod K < seq_len * K) by nia. assert (0 <= j * K + q mod K < seq_len * K) by nia.
  assert (p / K = q / K) as E by nia. rewrite E in *. assert (i = j) by nia. subst. lia.
Qed.

(** The tiled loops over [c] tiles visit the row in the order of [tiled_index]. *)
Lemma tiled_loop {X} seq_len c i (b : Z -> X -> option X) (x : X) :
  0 <= c ->
  for_up 0 c (fun j => for_up 0 K (fun k => b (i * K + j * (seq_len * K) + k))) x =
  for_up 0 (c * K) (fun p => b (tiled_index seq_len i p)) x.
Proof.
  intros. geometry.
  by rewrite (for_up_nest c K (fun j k => b (i * K + j * (seq_len * K) + k))) by lia.
Qed.

Lemma tiled_index_bounds seq_len c i p :
  0 <= i < seq_len -> 0 <= p < c * K -> 0 <= tiled_index seq_len i p < seq_len * (c * K).
Proof.
  intros Hi Hp. geometry. unfold tiled_index. assert (0 <= p mod K < K) by (apply Z.mod_pos_bound; lia).
  assert (0 <= p / K < c) by (split; [apply Z.div_pos; lia|apply Z.div_lt_upper_bound; lia]).
  assert (0 <= i * K + p mod K < seq_len * K) by nia.
  assert (p / K * (seq_len * K) + seq_len * K <= c * (seq_len * K)) by nia. nia.
Qed.
End Rows.
