(* ===== verification/Softmax.v ===== *)
(** * Softmax: the softmax of the attention scores

    Translates [src/transformer_layers/softmax.cc].  The integer version looks
    every score up in a table of exponentials, accumulates the row sum and
    divides; the floating-point version uses the library function [exp], which
    is a parameter of the model.  A row is visited either row-major
    ([compute]) or through the tiled layout ([computeRearranged]). *)

From stdpp Require Import prelude.
From Stdlib Require Import ZArith Lia SpecFloat.
From S2P Require Import Prelude Machine Float32 Rows.

Definition lookup : list Z :=
  [4; 5; 7; 8; 11; 14; 18; 23; 30; 38; 49; 63; 80; 103; 132; 170;
   0; 0; 0; 0; 0; 0; 0; 0; 1; 1; 1; 1; 1; 2; 2; 3].

Section Softmax.
Context {cfg : Config}.

(** ** Integer activations *)

(** [*p = lookup[ *p >> (ACTIVATION_BITS - 5)]; sum += *p;] *)
Definition exp_elem (e : Z) (st : list Z * Z) : option (list Z * Z) :=
  let '(input, sum) := st in
  u ← get_uact input e;
  v ← aget lookup (Z.shiftr u (ACTIVATION_BITS - 5));
  input ← set_act input e v;
  w ← get_uact input e;
  Some (input, int32 (sum + w)).

(** [*p / ((sum >> 8) + 1)]: the operands are [int] for activations narrower
    than 32 bits and unsigned otherwise. *)
Definition softmax_div (u sum : Z) : option Z :=
  let d := int32 (Z.shiftr sum 8 + 1) in
  let d := if ACTIVATION_BITS =? 32 then uint32 d else d in
  if d =? 0 then None else Some (Z.quot u d).

Definition norm_elem (sum e : Z) (input : list Z) : option (list Z) :=
  u ← get_uact input e;
  q ← softmax_div u sum;
  set_act input e q.

(** [sum = (sum == 0) ? sum + 1 : sum] *)
Definition fix_sum (sum : Z) : Z := if sum =? 0 then sum + 1 else sum.

Definition softmax_compute_int (seq_len : Z) (input : list Z) : option (list Z) :=
  for_up 0 seq_len (fun i input =>
    let input_uptr := i * (seq_len / ACT_PER_BUS) * ACT_PER_BUS in
    '(input, sum) ← for_up 0 seq_len (fun j => exp_elem (input_uptr + j)) (input, 0);
    let sum := fix_sum sum in
    for_up 0 seq_len (fun j => norm_elem sum (input_uptr + j)) input) input.

Definition softmax_computeRearranged_int (seq_len : Z) (input : list Z) : option (list Z) :=
  for_up 0 seq_len (fun i input =>
    let input_uptr := i * KERNEL_DIM in
    '(input, sum) ← for_up 0 (seq_len / KERNEL_DIM) (fun j =>
      for_up 0 KERNEL_DIM (fun k => exp_elem (input_uptr + j * (seq_len * KERNEL_DIM) + k))) (input, 0);
    let sum := fix_sum sum in
    for_up 0 (seq_len / KERNEL_DIM) (fun j =>
      for_up 0 KERNEL_DIM (fun k => norm_elem sum (input_uptr + j * (seq_len * KERNEL_DIM) + k))) input) input.

Definition post_softmax_int (seq_len headSize : Z) (input : list Z) : option (list Z) :=
  for_up 0 (seq_len * headSize) (fun i input =>
    v ← get_act input i;
    set_act input i (activation_t (Z.quot v 64))) input.

(** ** Floating-point activations *)

Section Float.
Variable exp : f64 -> f64.

(** [in_aux.fp = exp(in_aux.fp) / 8; sum += in_aux.fp;] *)
Definition exp_elem_fp (e : Z) (st : list Z * f32) : option (list Z * f32) :=
  let '(input, sum) := st in
  u ← get_uact input e;
  let fp := f32_of_f64 (f64_div (exp (f64_of_f32 (f32_of_bits u))) (f64_of_Z 8)) in
  input ← set_act input e (bits_of_f32 fp);
  Some (input, f32_add sum fp).

(** [in_aux.fp = in_aux.fp / ((sum / 256) + 1)] *)
Definition norm_elem_fp (sum : f32) (e : Z) (input : list Z) : option (list Z) :=
  u ← get_uact input e;
  set_act input e (bits_of_f32
    (f32_div (f32_of_bits u) (f32_add (f32_div sum (f32_of_Z 256)) (f32_of_Z 1)))).

Definition fix_sum_fp (sum : f32) : f32 := if f32_nonzero sum then sum else f32_add sum (f32_of_Z 1).

Definition softmax_compute_fp (seq_len : Z) (input : list Z) : option (list Z) :=
  for_up 0 seq_len (fun i input =>
    let input_uptr := i * (seq_len / ACT_PER_BUS) * ACT_PER_BUS in
    '(input, sum) ← for_up 0 seq_len (fun j => exp_elem_fp (input_uptr + j)) (input, f32_of_Z 0);
    let sum := fix_sum_fp sum in
    for_up 0 seq_len (fun j => norm_elem_fp sum (input_uptr + j)) input) input.

Definition softmax_computeRearranged_fp (seq_len : Z) (input : list Z) : option (list Z) :=
  for_up 0 seq_len (fun i input =>
    let input_uptr := i * KERNEL_DIM in
    '(input, sum) ← for_up 0 (seq_len / KERNEL_DIM) (fun j =>
      for_up 0 KERNEL_DIM (fun k => exp_elem_fp (input_uptr + j * (seq_len * KERNEL_DIM) + k)))
      (input, f32_of_Z 0);
    let sum := fix_sum_fp sum in
    for_up 0 (seq_len / KERNEL_DIM) (fun j =>
      for_up 0 KERNEL_DIM (fun k => norm_elem_fp sum (input_uptr + j * (seq_len * KERNEL_DIM) + k))) input) input.

(** [in_aux.fp = *input_ptr] converts the bit pattern as a number. *)
Definition post_softmax_fp (seq_len headSize : Z) (input : list Z) : option (list Z) :=
  for_up 0 (seq_len * headSize) (fun i input =>
    v ← get_act input i;
    set_act input i (bits_of_f32 (f32_div (f32_of_Z v) (f32_of_Z 64)))) input.

(** ** The methods, as the configuration selects them *)

Definition softmax_compute (seq_len : Z) (input : list Z) : option (list Z) :=
  if ACTIVATION_FP then softmax_compute_fp seq_len input else softmax_compute_int seq_len input.

Definition softmax_computeRearranged (seq_len : Z) (input : list Z) : option (list Z) :=
  if ACTIVATION_FP then softmax_computeRearranged_fp seq_len input else softmax_computeRearranged_int seq_len input.

Definition post_softmax (seq_len headSize : Z) (input : list Z) : option (list Z) :=
  if ACTIVATION_FP then post_softmax_fp seq_len headSize input else post_softmax_int seq_len headSize input.

(** ** The fixed-point variant *)

(** [round]: halfway cases away from zero. *)
Definition f64_round (f : f64) : option Z :=
  match f with
  | S754_zero _ => Some 0
  | S754_finite s p e =>
      Some (cond_Zopp s (if 0 <=? e then Zpos p * 2 ^ e else (Zpos p + 2 ^ (- e - 1)) / 2 ^ (- e)))
  | _ => None
  end.

Definition float_to_fixed (value : f32) (fractional_bits : Z) : option Z :=
  z ← f64_round (f64_of_f32 (f32_mul value (f32_of_Z (Z.shiftl 1 fractional_bits))));
  if (- 2 ^ 31 <=? z) && (z <? 2 ^ 31) then Some z else None.

Definition fixed_to_float (fixed_value fractional_bits : Z) : f32 :=
  f32_div (f32_of_Z fixed_value) (f32_of_Z (Z.shiftl 1 fractional_bits)).

Definition softmax_fixed (fractional_bits : Z) (input : list Z) : option (list Z) :=
  let chunk_size := zlen input / ACT_PER_BUS in
  for_up 0 ACT_PER_BUS (fun i input =>
    max0 ← aget input (i * chunk_size);
    max_val ← for_up (i * chunk_size + 1) ((i + 1) * chunk_size) (fun j max_val =>
      v ← aget input j;
      Some (if max_val <? v then v else max_val)) max0;
    '(input, sum_exp) ← for_up (i * chunk_size) ((i + 1) * chunk_size) (fun j '(input, sum_exp) =>
      v ← aget input j;
      exp_val ← float_to_fixed
        (f32_of_f64 (exp (f64_of_f32 (fixed_to_float (int32 (v - max_val)) fractional_bits)))) fractional_bits;
      input ← aset input j exp_val;
      Some (input, int32 (sum_exp + exp_val))) (input, 0);
    for_up (i * chunk_size) ((i + 1) * chunk_size) (fun j input =>
      v ← aget input j;
      if sum_exp =? 0 then None else
      aset input j (Z.quot (int32 (Z.shiftl v fractional_bits)) sum_exp)) input) input.

Definition computeFloat (in_matrix : list Z) (seq_len : Z) : option (list f32) :=
  let fractional_bits := 16 in
  input_act ← for_up 0 (seq_len / ACT_PER_BUS) (fun i input_act =>
    value ← aget in_matrix i;
    for_up 0 ACT_PER_BUS (fun j input_act =>
      aset input_act (i * ACT_PER_BUS + j)
        (activation_t (Z.land (Z.shiftr value (ACTIVATION_BITS * j)) ACTIVATION_MASK))) input_act) (zeros seq_len);
  input_fixed ← for_up 0 seq_len (fun i input_fixed =>
    v ← aget input_act i;
    f ← float_to_fixed (f32_of_Z v) fractional_bits;
    aset input_fixed i f) (zeros seq_len);
  input_fixed ← softmax_fixed fractional_bits input_fixed;
  Some (List.map (fun v => fixed_to_float v fractional_bits) input_fixed).
End Float.
End Softmax.

(** ** What the integer version computes *)

Section Integer.
Context {cfg : Config} {wf : WfConfig cfg}.
Abbreviation K := KERNEL_DIM.
Abbreviation APB := ACT_PER_BUS.

(** The exponential of a score. *)
Definition lut (u : Z) : Z := lookup.[Z.shiftr u (ACTIVATION_BITS - 5)].

(** The value stored for a score in a row whose exponentials sum to [sum]. *)
Definition softmax_value (u sum : Z) : Z := lut u / (fix_sum sum / 256 + 1).

Lemma table_index u : 0 <= u < 2 ^ ACTIVATION_BITS -> 0 <= Z.shiftr u (ACTIVATION_BITS - 5) < 32.
Proof.
  intros Hu. rewrite Z.shiftr_div_pow2 by (destruct wf_act as [-> | [-> | ->]]; lia).
  assert (2 ^ ACTIVATION_BITS = 2 ^ (ACTIVATION_BITS - 5) * 32) as E.
  { change 32 with (2 ^ 5). rewrite <- Z.pow_add_r; [f_equal; lia| |lia]. destruct wf_act as [-> | [-> | ->]]; lia. }
  assert (0 < 2 ^ (ACTIVATION_BITS - 5)) by (apply Z.pow_pos_nonneg; [lia|destruct wf_act as [-> | [-> | ->]]; lia]).
  split; [apply Z.div_pos; lia|apply Z.div_lt_upper_bound; lia].
Qed.

Lemma table_range i : 0 <= lookup.[i] <= 170.
Proof.
  destruct (Z.lt_ge_cases i 0) as [Hi|Hi]; [unfold nthZ, aget; zcases; [simpl; lia|lia]|].
  destruct (Z.lt_ge_cases i 32) as [Hj|Hj].
  - assert (forallb (fun k => (0 <=? lookup.[Z.of_nat k]) && (lookup.[Z.of_nat k] <=? 170)) (seq 0 32) = true) as H
      by (vm_compute; reflexivity).
    rewrite forallb_forall in H. specialize (H (Z.to_nat i)). rewrite Z2Nat.id in H by lia.
    assert (List.In (Z.to_nat i) (seq 0 32)) as Hin by (apply in_seq; lia). specialize (H Hin). lia.
  - unfold nthZ. destruct (aget lookup i) eqn:E; [|simpl; lia].
    apply aget_Some_bounds in E. change (zlen lookup) with 32 in E. lia.
Qed.

Lemma lut_range u : 0 <= lut u <= 170.
Proof. apply table_range. Qed.

Lemma lut_stored u : u_activation_t (lut u) = lut u.
Proof.
  pose proof (lut_range u). apply wrapU_small. destruct wf_act as [-> | [-> | ->]]; lia.
Qed.

(** One row: the elements [idx 0, ..., idx (N - 1)], all different. *)
Section Row.
Context (idx : Z -> Z) (N : Z).
Hypothesis HN : 0 <= N.
Hypothesis Hsum : N * 170 < 2 ^ 31.
Hypothesis Hinj : forall p q, 0 <= p < N -> 0 <= q < N -> idx p = idx q -> p = q.

Definition row_sum (buf : list Z) : Z := zsum (fun p => lut (uelem buf (idx p))) N.

Lemma zsum_lut_range buf p : 0 <= p <= N -> 0 <= zsum (fun q => lut (uelem buf (idx q))) p <= p * 170.
Proof.
  intros Hp. assert (forall n, 0 <= n -> 0 <= zsum (fun q => lut (uelem buf (idx q))) n <= n * 170) as H; [|apply H; lia].
  refine (Zup_ind _ 0 _ _); [done|]. intros n Hn IH. rewrite zsum_succ by done. pose proof (lut_range (uelem buf (idx n))). lia.
Qed.

Lemma wp_exp_row buf (Q : list Z * Z -> Prop) :
  (forall p, 0 <= p < N -> 0 <= idx p < elements buf) ->
  (forall buf', mapped idx lut N buf buf' -> Q (buf', row_sum buf)) ->
  wp (for_up 0 N (fun p => exp_elem (idx p)) (buf, 0)) Q.
Proof.
  intros Hidx HQ.
  apply (wp_for_up (fun p '(b, s) => mapped idx lut p buf b /\ s = zsum (fun q => lut (uelem buf (idx q))) p)).
  - done.
  - split; [apply mapped_0|done].
  - intros p [b s] Hp [Hm ->]. unfold exp_elem. pose proof Hm as (Hl & _).
    assert (0 <= idx p < elements b) as He by (unfold elements; rewrite Hl; by apply Hidx).
    apply wp_bind, wp_get_uact; [done|]. rewrite (mapped_next idx N Hinj lut p buf b) by done.
    pose proof (table_index _ (uelem_range buf (idx p))) as Hti.
    apply wp_bind, wp_aget; [by change (zlen lookup) with 32|]. fold (lut (uelem buf (idx p))).
    apply wp_bind, wp_set_act; [done|]. intros b2 Hl2 Hb2. rewrite lut_stored in Hb2.
    apply wp_bind, wp_get_uact; [unfold elements in *; by rewrite Hl2|]. apply wp_ret.
    split; [by apply (mapped_step idx N Hinj lut p buf b)|]. rewrite zsum_succ, Hb2, Z.eqb_refl by lia.
    pose proof (zsum_lut_range buf p ltac:(lia)). pose proof (lut_range (uelem buf (idx p))).
    apply wrapS_small; lia.
  - intros [b s] [Hm ->]. by apply HQ.
Qed.

Lemma softmax_div_spec u sum :
  0 <= u <= 170 -> 0 <= sum < 2 ^ 31 -> softmax_div u (fix_sum sum) = Some (u / (fix_sum sum / 256 + 1)).
Proof.
  intros Hu Hs. unfold softmax_div. assert (1 <= fix_sum sum < 2 ^ 31) as Hf by (unfold fix_sum; zcases; lia).
  rewrite Z.shiftr_div_pow2 by lia. change (2 ^ 8) with 256.
  assert (0 <= fix_sum sum / 256 < 2 ^ 23) as Hd.
  { split; [apply Z.div_pos; lia|apply Z.div_lt_upper_bound; lia]. }
  unfold int32, uint32. rewrite wrapS_small, wrapU_small by lia.
  assert ((if ACTIVATION_BITS =? 32 then fix_sum sum / 256 + 1 else fix_sum sum / 256 + 1) = fix_sum sum / 256 + 1) as ->
    by (by destruct (ACTIVATION_BITS =? 32)).
  destruct (Z.eqb_spec (fix_sum sum / 256 + 1) 0); [lia|]. by rewrite Z.quot_div_nonneg by lia.
Qed.

Lemma softmax_value_range u sum : 0 <= sum -> 0 <= softmax_value u sum <= 170.
Proof.
  intros Hs. unfold softmax_value. pose proof (lut_range u).
  assert (0 <= fix_sum sum / 256) by (apply Z.div_pos; [unfold fix_sum; zcases; lia|lia]).
  split; [apply Z.div_pos; lia|]. apply Z.div_le_upper_bound; nia.
Qed.

(** A whole row. *)
Lemma wp_softmax_row buf (Q : list Z -> Prop) :
  (forall p, 0 <= p < N -> 0 <= idx p < elements buf) ->
  (forall buf', mapped idx (fun u => softmax_value u (row_sum buf)) N buf buf' -> Q buf') ->
  wp ('(input, sum) ← for_up 0 N (fun p => exp_elem (idx p)) (buf, 0);
      for_up 0 N (fun p => norm_elem (fix_sum sum) (idx p)) input) Q.
Proof.
  intros Hidx HQ. apply wp_bind, wp_exp_row; [done|]. intros b1 (Hl1 & Hin1 & Hout1).
  pose proof (zsum_lut_range buf N ltac:(lia)) as Hr. fold (row_sum buf) in Hr.
  apply (wp_for_up (fun p b => mapped idx (fun v => v / (fix_sum (row_sum buf) / 256 + 1)) p b1 b)).
  - done.
  - apply mapped_0.
  - intros p b Hp Hm. pose proof Hm as (Hl & _). unfold norm_elem.
    assert (0 <= idx p < elements b) as He by (unfold elements; rewrite Hl, Hl1; by apply Hidx).
    apply wp_bind, wp_get_uact; [done|]. rewrite (mapped_next idx N Hinj _ p b1 b), Hin1 by done.
    pose proof (lut_range (uelem buf (idx p))).
    rewrite softmax_div_spec by lia. apply wp_bind, wp_ret. apply wp_set_act; [done|]. intros b2 Hl2 Hb2.
    apply (mapped_step idx N Hinj _ p b1 b); [done|done|done|]. intros e. rewrite Hb2, Hin1 by done.
    destruct (e =? idx p); [|done]. fold (softmax_value (uelem buf (idx p)) (row_sum buf)).
    pose proof (softmax_value_range (uelem buf (idx p)) (row_sum buf) ltac:(lia)).
    apply wrapU_small. destruct wf_act as [-> | [-> | ->]]; lia.
  - intros b (Hl & Hin & Hout). apply HQ. split; [lia|]. split.
    + intros q Hq. rewrite Hin, Hin1 by done. done.
    + intros e He. rewrite Hout, Hout1; done.
Qed.
End Row.

(** All rows: element [p] of row [i] is [idx i p]; every row is divided by its own sum. *)
Definition softmaxed (idx : Z -> Z -> Z) (n N : Z) (buf buf' : list Z) : Prop :=
  rowwise idx N (fun i u => softmax_value u (row_sum (idx i) N buf)) n buf buf'.

Lemma wp_softmax_rows idx n N (body : Z -> list Z -> option (list Z)) buf (Q : list Z -> Prop) :
  0 <= n -> 0 <= N -> N * 170 < 2 ^ 31 -> separate idx n N ->
  (forall i b, 0 <= i < n -> body i b =
     ('(input, sum) ← for_up 0 N (fun p => exp_elem (idx i p)) (b, 0);
      for_up 0 N (fun p => norm_elem (fix_sum sum) (idx i p)) input)) ->
  (forall i p, 0 <= i < n -> 0 <= p < N -> 0 <= idx i p < elements buf) ->
  (forall buf', softmaxed idx n N buf buf' -> Q buf') ->
  wp (for_up 0 n body buf) Q.
Proof.
  intros Hn HN Hsum Hsep Hbody Hidx HQ.
  apply (wp_rows idx n N) with (F := fun i u => softmax_value u (row_sum (idx i) N buf)); [done|done| |done].
  intros i b Hi Hl Hrow. rewrite Hbody by done. apply wp_softmax_row; [done|done| | |].
  - intros p q Hp Hq E. by apply (Hsep i p i q) in E as [_ ->].
  - intros p Hp. unfold elements. rewrite Hl. by apply Hidx.
  - intros b2 Hm. replace (row_sum (idx i) N buf) with (row_sum (idx i) N b); [done|].
    apply zsum_ext. intros p Hp. by rewrite Hrow.
Qed.

Lemma wp_softmax_compute_int seq_len buf (Q : list Z -> Prop) :
  0 <= seq_len -> seq_len * 170 < 2 ^ 31 -> seq_len mod APB = 0 -> seq_len * seq_len <= elements buf ->
  (forall buf', softmaxed (row_index seq_len) seq_len seq_len buf buf' -> Q buf') ->
  wp (softmax_compute_int seq_len buf) Q.
Proof.
  intros Hs Hb Hm Hl HQ. geometry. unfold softmax_compute_int.
  apply (wp_softmax_rows (row_index seq_len) seq_len seq_len); try done.
  - intros i p j q Hi Hj Hp Hq. by apply row_index_inj.
  - intros i p Hi Hp. assert (seq_len = APB * (seq_len / APB)) as E by (apply Z_div_exact_full_2; lia).
    unfold row_index. replace (i * (seq_len / APB) * APB) with (i * seq_len) by (rewrite E at 1; lia). nia.
Qed.

Lemma wp_softmax_computeRearranged_int seq_len buf (Q : list Z -> Prop) :
  0 <= seq_len -> seq_len * 170 < 2 ^ 31 -> seq_len * seq_len <= elements buf ->
  (forall buf', softmaxed (tiled_index seq_len) seq_len (seq_len / K * K) buf buf' -> Q buf') ->
  wp (softmax_computeRearranged_int seq_len buf) Q.
Proof.
  intros Hs Hb Hl HQ. geometry. unfold softmax_computeRearranged_int.
  assert (0 <= seq_len / K) by (apply Z.div_pos; lia).
  assert (K * (seq_len / K) <= seq_len) by (apply Z.mul_div_le; lia).
  apply (wp_softmax_rows (tiled_index seq_len) seq_len (seq_len / K * K)); try done; try nia.
  - intros i p j q Hi Hj Hp Hq. apply tiled_index_inj; lia.
  - intros i b Hi. rewrite tiled_loop by done. destruct (for_up 0 (seq_len / K * K) _ _) as [[b1 s]|]; simpl; [|done].
    by rewrite (tiled_loop seq_len (seq_len / K) i (fun e => norm_elem (fix_sum s) e)).
  - intros i p Hi Hp. pose proof (tiled_index_bounds seq_len (seq_len / K) i p Hi Hp). nia.
Qed.

(** The table is increasing in the (signed) score. *)
Lemma lut_mono u v :
  0 <= u < 2 ^ ACTIVATION_BITS -> 0 <= v < 2 ^ ACTIVATION_BITS ->
  activation_t u <= activation_t v -> lut u <= lut v.
Proof.
  intros Hu Hv Huv. unfold lut. pose proof (table_index u Hu) as Iu. pose proof (table_index v Hv) as Iv.
  assert (5 <= ACTIVATION_BITS) by (destruct wf_act as [-> | [-> | ->]]; lia).
  rewrite !Z.shiftr_div_pow2 in * by lia. set (d := 2 ^ (ACTIVATION_BITS - 5)) in *.
  assert (2 ^ (ACTIVATION_BITS - 1) = d * 16 /\ 2 ^ ACTIVATION_BITS = d * 32) as [E1 E2].
  { unfold d. change 16 with (2 ^ 4). change 32 with (2 ^ 5). rewrite <- !Z.pow_add_r by lia. split; f_equal; lia. }
  assert (0 < d) by (apply Z.pow_pos_nonneg; lia).
  assert (forall x, 0 <= x < 2 ^ ACTIVATION_BITS -> activation_t x = if x <? d * 16 then x else x - d * 32) as Hact.
  { intros x Hx. unfold activation_t. destruct (Z.ltb_spec x (d * 16)); [apply wrapS_small; lia|].
    rewrite (wrapS_cong _ x (x - d * 32)); [apply wrapS_small; lia|].
    rewrite <- E2. replace (x - 2 ^ ACTIVATION_BITS) with (x + -1 * 2 ^ ACTIVATION_BITS) by lia. by rewrite Z.mod_add by lia. }
  rewrite !Hact in Huv by done.
  assert (forallb (fun a => forallb (fun b =>
    implb (if (a <? 16) then (b <? 16) && (a <=? b) else (b <? 16) || (a <=? b)) (lookup.[a] <=? lookup.[b]))
    (Z.of_nat <$> seq 0 32)) (Z.of_nat <$> seq 0 32) = true) as Ht by (vm_compute; reflexivity).
  assert (forall z, 0 <= z < 32 -> List.In z (Z.of_nat <$> seq 0 32)) as Hin.
  { intros z Hz. apply list_elem_of_In, list_elem_of_fmap. exists (Z.to_nat z). split; [lia|]. apply elem_of_seq. lia. }
  rewrite forallb_forall in Ht. specialize (Ht _ (Hin _ Iu)). rewrite forallb_forall in Ht. specialize (Ht _ (Hin _ Iv)).
  assert (forall x, 0 <= x -> (x / d <? 16) = (x <? d * 16)) as Hlt.
  { intros x Hx. destruct (Z.ltb_spec x (d * 16)); [apply Z.ltb_lt, Z.div_lt_upper_bound; lia|].
    apply Z.ltb_ge, Z.div_le_lower_bound; lia. }
  rewrite !Hlt in Ht by lia.
  assert (u <= v -> u / d <= v / d) as Hdiv by (intros; apply Z.div_le_mono; lia).
  destruct (Z.ltb_spec u (d * 16)), (Z.ltb_spec v (d * 16)), (Z.leb_spec (u / d) (v / d));
    cbn [implb andb orb] in Ht; cbn iota in Huv; try (apply Z.leb_le in Ht; done); exfalso; lia.
Qed.
End Integer.
