(* ===== verification/AddNorm.v ===== *)
(** * AddNorm: residual addition and normalisation

    Translates [src/transformer_layers/addNorm.cc], both the fixed-point and
    the floating-point build.  Buffers are word arrays seen as arrays of
    activations; a row is visited row-major ([compute]) or through the tiled
    layout ([computeRearranged]). *)

From stdpp Require Import prelude.
From Stdlib Require Import ZArith Lia SpecFloat.
From S2P Require Import Prelude Machine Float32 Rows.

Record AddNormalize := mkAddNormalize {
  an_seq_len : Z;
  an_input_dim : Z;
  an_kernel_dim : Z;
  an_max_col : Z
}.

Section AddNorm.
Context {cfg : Config}.

(** ** Fixed point *)

(** [*output_ptr = (activation_t) ( *output_ptr + *input_ptr)] *)
Definition add_elem (input : list Z) (e : Z) (output : list Z) : option (list Z) :=
  y ← get_act output e;
  x ← get_act input e;
  set_act output e (activation_t (y + x)).

(** [sum += *output_ptr] *)
Definition sum_elem (output : list Z) (e sum : Z) : option Z :=
  y ← get_act output e;
  Some (int32 (sum + y)).

(** [(int32_t) (sum / input_dim_)]: [input_dim_] is a [size_t], so the division
    is the unsigned one on 64 bits. *)
Definition mean_of (sum dim : Z) : option Z :=
  if dim =? 0 then None else Some (int32 (uint64 sum / dim)).

(** [variance += ( *output_ptr - mean) ^ 2] *)
Definition variance_elem (output : list Z) (mean e variance : Z) : option Z :=
  y ← get_act output e;
  Some (int32 (variance + Z.lxor (int32 (y - mean)) 2)).

(** [(int32_t) ((1 << 2) / (sqrt((double) variance) + 1))] *)
Definition sd_inv_of (variance : Z) : option Z :=
  f64_to_int32 (f64_div (f64_of_Z 4) (f64_add (f64_sqrt (f64_of_Z variance)) (f64_of_Z 1))).

(** [*p = (activation_t) (( *p - mean) * sd_inv / ACT_PER_BUS)] *)
Definition scale_elem (mean sd_inv e : Z) (output : list Z) : option (list Z) :=
  y ← get_act output e;
  set_act output e (activation_t (Z.quot (int32 (int32 (y - mean) * sd_inv)) ACT_PER_BUS)).

Definition addnorm_compute_int (a : AddNormalize) (input output : list Z) : option (list Z) :=
  for_up 0 (an_seq_len a) (fun i output =>
    let base := i * (an_input_dim a / ACT_PER_BUS) * ACT_PER_BUS in
    '(output, sum) ← for_up 0 (an_input_dim a) (fun j '(output, sum) =>
      output ← add_elem input (base + j) output;
      sum ← sum_elem output (base + j) sum;
      Some (output, sum)) (output, 0);
    mean ← mean_of sum (an_input_dim a);
    variance ← for_up 0 (an_input_dim a) (fun j => variance_elem output mean (base + j)) 0;
    let variance := Z.quot variance (an_input_dim a) in
    sd_inv ← sd_inv_of variance;
    for_up 0 (an_input_dim a) (fun j => scale_elem mean sd_inv (base + j)) output) output.

Definition addnorm_computeRearranged_int (a : AddNormalize) (input output : list Z) : option (list Z) :=
  output ← for_up 0 (an_seq_len a * an_input_dim a) (fun i => add_elem input i) output;
  for_up 0 (an_seq_len a) (fun i output =>
    let kd := an_kernel_dim a in
    let base := i * kd in
    sum ← for_up 0 (an_input_dim a / kd) (fun j =>
      for_up 0 kd (fun k => sum_elem output (base + j * (an_seq_len a * kd) + k))) 0;
    mean ← mean_of sum (an_input_dim a);
    variance ← for_up 0 (an_input_dim a / kd) (fun j =>
      for_up 0 kd (fun k => variance_elem output mean (base + j * (an_seq_len a * kd) + k))) 0;
    let variance := Z.quot variance (an_input_dim a) in
    sd_inv ← sd_inv_of variance;
    for_up 0 (an_input_dim a / kd) (fun j =>
      for_up 0 kd (fun k => scale_elem mean sd_inv (base + j * (an_seq_len a * kd) + k))) output) output.

(** ** Floating point *)

(** [out_aux.fp += in_aux.fp] on element [e], without storing it. *)
Definition added_fp (input output : list Z) (e : Z) : option f32 :=
  x ← get_act input e;
  y ← get_act output e;
  Some (f32_add (f32_of_bits y) (f32_of_bits x)).

Definition add_elem_fp (input : list Z) (e : Z) (output : list Z) : option (list Z) :=
  v ← added_fp input output e;
  set_act output e (bits_of_f32 v).

Definition sum_elem_fp (output : list Z) (e : Z) (sum : f32) : option f32 :=
  y ← get_act output e;
  Some (f32_add sum (f32_of_bits y)).

(** [variance += pow(out_aux.fp - mean, 2.0)]: the square of a [float] is exact
    as a [double]; the sum is rounded to [float]. *)
Definition variance_elem_fp (output : list Z) (mean : f32) (e : Z) (variance : f32) : option f32 :=
  y ← get_act output e;
  let d := f64_of_f32 (f32_sub (f32_of_bits y) mean) in
  Some (f32_of_f64 (f64_add (f64_of_f32 variance) (f64_mul d d))).

(** [1.0 / (sd + 1)] with [float sd = sqrt(variance / (int) input_dim_)], a [double]. *)
Definition sd_inv_fp (variance : f32) (dim : Z) : f64 :=
  let v := f32_div variance (f32_of_Z dim) in
  let sd := f32_of_f64 (f64_sqrt (f64_of_f32 v)) in
  f64_div (f64_of_Z 1) (f64_of_f32 (f32_add sd (f32_of_Z 1))).

Definition scale_elem_fp (mean : f32) (sd_inv : f64) (e : Z) (output : list Z) : option (list Z) :=
  y ← get_act output e;
  let v := f64_div (f64_mul (f64_of_f32 (f32_sub (f32_of_bits y) mean)) sd_inv) (f64_of_Z ACT_PER_BUS) in
  set_act output e (bits_of_f32 (f32_of_f64 v)).

Definition addnorm_compute_fp (a : AddNormalize) (input output : list Z) : option (list Z) :=
  for_up 0 (an_seq_len a) (fun i output =>
    let base := i * (an_input_dim a / ACT_PER_BUS) * ACT_PER_BUS in
    sum ← for_up 0 (an_input_dim a) (fun j sum =>
      v ← added_fp input output (base + j);
      Some (f32_add sum v)) (f32_of_Z 0);
    let mean := f32_div sum (f32_of_Z (an_input_dim a)) in
    variance ← for_up 0 (an_input_dim a) (fun j => variance_elem_fp output mean (base + j)) (f32_of_Z 0);
    let sd_inv := sd_inv_fp variance (an_input_dim a) in
    for_up 0 (an_input_dim a) (fun j => scale_elem_fp mean sd_inv (base + j)) output) output.

Definition addnorm_computeRearranged_fp (a : AddNormalize) (input output : list Z) : option (list Z) :=
  output ← for_up 0 (an_seq_len a * an_input_dim a) (fun i => add_elem_fp input i) output;
  for_up 0 (an_seq_len a) (fun i output =>
    let kd := an_kernel_dim a in
    let base := i * kd in
    sum ← for_up 0 (an_input_dim a / kd) (fun j =>
      for_up 0 kd (fun k => sum_elem_fp output (base + j * (an_seq_len a * kd) + k))) (f32_of_Z 0);
    let mean := f32_div sum (f32_of_Z (an_input_dim a)) in
    variance ← for_up 0 (an_input_dim a / kd) (fun j =>
      for_up 0 kd (fun k => variance_elem_fp output mean (base + j * (an_seq_len a * kd) + k))) (f32_of_Z 0);
    let sd_inv := sd_inv_fp variance (an_input_dim a) in
    for_up 0 (an_input_dim a / kd) (fun j =>
      for_up 0 kd (fun k => scale_elem_fp mean sd_inv (base + j * (an_seq_len a * kd) + k))) output) output.

Definition addnorm_compute (a : AddNormalize) (input output : list Z) : option (list Z) :=
  if ACTIVATION_FP then addnorm_compute_fp a input output else addnorm_compute_int a input output.

Definition addnorm_computeRearranged (a : AddNormalize) (input output : list Z) : option (list Z) :=
  if ACTIVATION_FP then addnorm_computeRearranged_fp a input output else addnorm_computeRearranged_int a input output.
End AddNorm.

(** ** What the fixed-point version computes *)

Section Integer.
Context {cfg : Config} {wf : WfConfig cfg}.
Abbreviation K := KERNEL_DIM.
Abbreviation APB := ACT_PER_BUS.

(** Element [e] of a buffer as an activation. *)
Definition selem (buf : list Z) (e : Z) : Z := activation_t (uelem buf e).

(** The value written for [x] in a row with the given mean and scale. *)
Definition norm_value (mean sd_inv x : Z) : Z := Z.quot (int32 (int32 (x - mean) * sd_inv)) APB.

(** The sum and the variance the code computes for a row [x 0, ..., x (N - 1)]. *)
Definition row_total (x : Z -> Z) (N : Z) : Z := int32 (zsum x N).
Definition row_variance (x : Z -> Z) (N mean : Z) : Z :=
  int32 (zsum (fun p => Z.lxor (int32 (x p - mean)) 2) N).

Section Row.
Context (idx : Z -> Z) (N : Z).
Hypothesis HN : 0 <= N.

Lemma int32_add a b : int32 (int32 a + b) = int32 (a + b).
Proof.
  apply wrapS_cong. unfold int32. rewrite <- Zplus_mod_idemp_l, wrapS_mod by lia. by rewrite Zplus_mod_idemp_l.
Qed.

(** A loop that adds up [f] of the elements. *)
Lemma sum_loop (body : Z -> Z -> option Z) (f : Z -> Z) (buf : list Z) :
  (forall p, 0 <= p < N -> 0 <= idx p < elements buf) ->
  (forall p s, 0 <= p < N -> body p s = Some (int32 (s + f (selem buf (idx p))))) ->
  for_up 0 N body 0 = Some (int32 (zsum (fun p => f (selem buf (idx p))) N)).
Proof.
  intros Hidx Hb. apply wp_eq.
  apply (wp_for_up (fun p s => s = int32 (zsum (fun p => f (selem buf (idx p))) p))); [done|done| |done].
  intros p s Hp ->. rewrite Hb by done. apply wp_ret. rewrite int32_add, zsum_succ by lia. done.
Qed.

Lemma get_act_selem buf e : 0 <= e < elements buf -> get_act buf e = Some (selem buf e).
Proof. intros He. apply wp_eq. by apply wp_get_act. Qed.

Hypothesis Hinj : forall p q, 0 <= p < N -> 0 <= q < N -> idx p = idx q -> p = q.

Lemma wp_scale_row mean sd_inv buf (Q : list Z -> Prop) :
  (forall p, 0 <= p < N -> 0 <= idx p < elements buf) ->
  (forall buf', mapped idx (fun u => u_activation_t (norm_value mean sd_inv (activation_t u))) N buf buf' -> Q buf') ->
  wp (for_up 0 N (fun p => scale_elem mean sd_inv (idx p)) buf) Q.
Proof.
  intros Hidx HQ.
  apply (wp_for_up (fun p b => mapped idx (fun u => u_activation_t (norm_value mean sd_inv (activation_t u))) p buf b));
    [done|apply mapped_0| |done].
  intros p b Hp Hm. pose proof Hm as (Hl & _). unfold scale_elem.
  assert (0 <= idx p < elements b) as He by (unfold elements; rewrite Hl; by apply Hidx).
  apply wp_bind, wp_get_act; [done|]. rewrite (mapped_next idx N Hinj _ p buf b) by done.
  apply wp_set_act; [done|]. intros b2 Hl2 Hb2. apply (mapped_step idx N Hinj _ p buf b); [done|done|done|].
  intros e. rewrite Hb2. destruct (e =? idx p); [|done]. unfold u_activation_t, activation_t.
  apply wrapU_wrapS. apply act_bits_pos.
Qed.

(** One row of the second phase: with a mean, what is left is the scale. *)
Lemma norm_row_eq dim buf mean (total : option Z) (var : Z -> option Z) (scale : Z -> Z -> option (list Z)) :
  total = for_up 0 N (fun p => sum_elem buf (idx p)) 0 ->
  (forall mean, var mean = for_up 0 N (fun p => variance_elem buf mean (idx p)) 0) ->
  (forall mean sd_inv, scale mean sd_inv = for_up 0 N (fun p => scale_elem mean sd_inv (idx p)) buf) ->
  (forall p, 0 <= p < N -> 0 <= idx p < elements buf) ->
  mean_of (row_total (fun p => selem buf (idx p)) N) dim = Some mean ->
  (sum ← total;
   mean ← mean_of sum dim;
   variance ← var mean;
   let variance := Z.quot variance dim in
   sd_inv ← sd_inv_of variance;
   scale mean sd_inv) =
  (sd_inv ← sd_inv_of (Z.quot (row_variance (fun p => selem buf (idx p)) N mean) dim);
   for_up 0 N (fun p => scale_elem mean sd_inv (idx p)) buf).
Proof.
  intros -> Ev Es Hidx Hm.
  rewrite (sum_loop _ (fun x => x) buf Hidx).
  2:{ intros p s Hp. unfold sum_elem. by rewrite get_act_selem by (by apply Hidx). }
  cbn [mbind option_bind]. fold (row_total (fun p => selem buf (idx p)) N). rewrite Hm. cbn [mbind option_bind].
  rewrite Ev, (sum_loop _ (fun x => Z.lxor (int32 (x - mean)) 2) buf Hidx).
  2:{ intros p s Hp. unfold variance_elem. by rewrite get_act_selem by (by apply Hidx). }
  cbn [mbind option_bind]. cbv zeta. fold (row_variance (fun p => selem buf (idx p)) N mean).
  destruct (sd_inv_of _); [|done]. cbn [mbind option_bind]. apply Es.
Qed.
End Row.

(** ** The residual addition *)

Definition residual (input output : list Z) (e : Z) : Z := activation_t (selem output e + selem input e).

Lemma wp_residual n input output (Q : list Z -> Prop) :
  0 <= n -> n <= elements input -> n <= elements output ->
  (forall out, zlen out = zlen output ->
     (forall e, 0 <= e < n -> uelem out e = u_activation_t (residual input output e)) ->
     (forall e, n <= e -> uelem out e = uelem output e) -> Q out) ->
  wp (for_up 0 n (fun i => add_elem input i) output) Q.
Proof.
  intros Hn Hi Ho HQ. pose proof act_bits_pos.
  apply (wp_for_up (fun k b => zlen b = zlen output /\
    (forall e, uelem b e = if (0 <=? e) && (e <? k) then u_activation_t (residual input output e) else uelem output e))).
  - done.
  - split; [done|]. intros e. zcases; simpl; try done; lia.
  - intros k b Hk [Hl Hb]. unfold add_elem. assert (0 <= k < elements b) by (unfold elements in *; rewrite Hl; lia).
    apply wp_bind, wp_get_act; [done|]. apply wp_bind, wp_get_act; [lia|]. apply wp_set_act; [done|].
    intros b2 Hl2 Hb2. split; [lia|]. intros e. rewrite Hb2, !Hb.
    destruct (Z.eqb_spec e k) as [->|]; zcases; simpl; try done; lia.
  - intros b [Hl Hb]. apply HQ; [done| |]; intros e He; rewrite Hb; zcases; simpl; try done; lia.
Qed.

Lemma selem_stored out e v : uelem out e = u_activation_t v -> selem out e = activation_t v.
Proof. intros E. unfold selem. rewrite E. apply wrapS_wrapU. Qed.

Lemma activation_range_idem v : activation_t (activation_t v) = activation_t v.
Proof. pose proof act_bits_pos. apply wrapS_small; [done|]. by apply wrapS_range. Qed.

(** ** The tiled version *)

(** Element [p] of row [i] after the residual addition. *)
Definition tiled_residual (a : AddNormalize) (input output : list Z) (i p : Z) : Z :=
  residual input output (tiled_index (an_seq_len a) i p).

(** Row [i] of the second phase. *)
Definition tiled_row (a : AddNormalize) (i : Z) (output : list Z) : option (list Z) :=
  sum ← for_up 0 (an_input_dim a / K) (fun j =>
    for_up 0 K (fun k => sum_elem output (i * K + j * (an_seq_len a * K) + k))) 0;
  mean ← mean_of sum (an_input_dim a);
  variance ← for_up 0 (an_input_dim a / K) (fun j =>
    for_up 0 K (fun k => variance_elem output mean (i * K + j * (an_seq_len a * K) + k))) 0;
  let variance := Z.quot variance (an_input_dim a) in
  sd_inv ← sd_inv_of variance;
  for_up 0 (an_input_dim a / K) (fun j =>
    for_up 0 K (fun k => scale_elem mean sd_inv (i * K + j * (an_seq_len a * K) + k))) output.

Section Tiled.
Context (a : AddNormalize) (input output : list Z).
Abbreviation n := (an_seq_len a).
Abbreviation d := (an_input_dim a).
Hypothesis HK : an_kernel_dim a = K.
Hypothesis Hn : 0 <= n.
Hypothesis Hd : 0 <= d.
Hypothesis Hmod : d mod K = 0.
Hypothesis Hi : n * d <= elements input.
Hypothesis Ho : n * d <= elements output.

Definition scale_of_row (mean : Z -> Z) (i : Z) : option Z :=
  sd_inv_of (Z.quot (row_variance (tiled_residual a input output i) d (mean i)) d).

Lemma whole_rows : d = d / K * K /\ 0 <= d / K.
Proof. geometry. split; [rewrite Z.mul_comm; apply Z_div_exact_full_2; lia|apply Z.div_pos; lia]. Qed.

Lemma tiled_bounds i p : 0 <= i < n -> 0 <= p < d -> 0 <= tiled_index n i p < n * d.
Proof. intros H1 H2. destruct whole_rows as [E _]. rewrite E in *. by apply tiled_index_bounds. Qed.

(** The output after the residual addition, which row [i] has not changed yet. *)
Definition added (i : Z) (b : list Z) : Prop :=
  zlen b = zlen output /\ forall p, 0 <= p < d -> uelem b (tiled_index n i p) = u_activation_t (tiled_residual a input output i p).

Lemma tiled_row_eq i b mean :
  0 <= i < n -> added i b ->
  mean_of (row_total (tiled_residual a input output i) d) d = Some (mean i) ->
  tiled_row a i b = (sd_inv ← scale_of_row mean i; for_up 0 d (fun p => scale_elem (mean i) sd_inv (tiled_index n i p)) b).
Proof.
  intros Hin [Hl Hb] Hm. destruct whole_rows as [E Hc]. unfold tiled_row, scale_of_row.
  assert (forall p, 0 <= p < d -> selem b (tiled_index n i p) = tiled_residual a input output i p) as Hx.
  { intros p Hp. rewrite (selem_stored _ _ _ (Hb p Hp)). apply activation_range_idem. }
  rewrite (norm_row_eq (tiled_index n i) d Hd d b (mean i)).
  - unfold row_variance. rewrite (zsum_ext _ (fun p => Z.lxor (int32 (tiled_residual a input output i p - mean i)) 2)); [done|].
    intros p Hp. by rewrite Hx.
  - by rewrite tiled_loop, <- E by done.
  - intros m. by rewrite tiled_loop, <- E by done.
  - intros m sd. by rewrite tiled_loop, <- E by done.
  - intros p Hp. pose proof (tiled_bounds i p Hin Hp). unfold elements in *. rewrite Hl. lia.
  - unfold row_total. rewrite (zsum_ext _ (tiled_residual a input output i)); [done|]. intros p Hp. by apply Hx.
Qed.

Lemma wp_tiled_row i b mean sd_inv (Q : list Z -> Prop) :
  0 <= i < n -> added i b ->
  mean_of (row_total (tiled_residual a input output i) d) d = Some (mean i) -> scale_of_row mean i = Some sd_inv ->
  (forall b', mapped (tiled_index n i) (fun u => u_activation_t (norm_value (mean i) sd_inv (activation_t u))) d b b' -> Q b') ->
  wp (tiled_row a i b) Q.
Proof.
  intros Hin Hb Hm Hs HQ. rewrite (tiled_row_eq i b mean Hin Hb Hm), Hs. cbn [mbind option_bind]. apply wp_scale_row; try done.
  - intros p q Hp Hq E. apply tiled_index_inj in E; lia.
  - intros p Hp. pose proof (tiled_bounds i p Hin Hp). destruct Hb as [Hl _]. unfold elements in *. rewrite Hl. lia.
Qed.

Lemma rearranged_rows :
  addnorm_computeRearranged_int a input output =
  (o ← for_up 0 (n * d) (fun i => add_elem input i) output; for_up 0 n (tiled_row a) o).
Proof. unfold addnorm_computeRearranged_int. by rewrite HK. Qed.

Lemma wp_added (Q : list Z -> Prop) :
  (forall o, zlen o = zlen output -> (forall i, 0 <= i < n -> added i o) -> Q o) -> wp (for_up 0 (n * d) (fun i => add_elem input i) output) Q.
Proof.
  intros HQ. apply wp_residual; [nia|done|done|]. intros o Hl Hin _. apply HQ; [done|]. intros i Hi'. split; [done|].
  intros p Hp. unfold tiled_residual. apply Hin. by apply tiled_bounds.
Qed.

Lemma wp_addnorm_rearranged (mean sd_inv : Z -> Z) (Q : list Z -> Prop) :
  (forall i, 0 <= i < n -> mean_of (row_total (tiled_residual a input output i) d) d = Some (mean i) /\ scale_of_row mean i = Some (sd_inv i)) ->
  (forall out, zlen out = zlen output ->
     (forall i p, 0 <= i < n -> 0 <= p < d ->
        uelem out (tiled_index n i p) = u_activation_t (norm_value (mean i) (sd_inv i) (tiled_residual a input output i p))) -> Q out) ->
  wp (addnorm_computeRearranged_int a input output) Q.
Proof.
  intros Hrow HQ. rewrite rearranged_rows. apply wp_bind, wp_added. intros o Hlo Hadd.
  apply (wp_rows (tiled_index n) n d) with (F := fun i u => u_activation_t (norm_value (mean i) (sd_inv i) (activation_t u))); [done| | |].
  - intros i p j q H1 H2 H3 H4. apply tiled_index_inj; lia.
  - intros i b Hi' Hlb Hrb. destruct (Hrow i Hi') as [Hm Hs]. destruct (Hadd i Hi') as [Hl Ha].
    apply (wp_tiled_row i b mean (sd_inv i)); try done. split; [congruence|]. intros p Hp. by rewrite Hrb, Ha.
  - intros out (Hl & Hin & _). apply HQ; [congruence|]. intros i p Hi' Hp. destruct (Hadd i Hi') as [_ Ha]. rewrite Hin, Ha by done.
    f_equal. f_equal. unfold u_activation_t, activation_t. rewrite wrapS_wrapU. apply activation_range_idem.
Qed.

(** A row without a scale makes the whole call undefined. *)
Lemma addnorm_rearranged_undefined (mean : Z -> Z) i :
  (forall i, 0 <= i < n -> mean_of (row_total (tiled_residual a input output i) d) d = Some (mean i)) ->
  0 <= i < n -> scale_of_row mean i = None -> addnorm_computeRearranged_int a input output = None.
Proof.
  intros Hm Hin Hs. rewrite rearranged_rows. destruct (for_up 0 (n * d) _ output) as [o|] eqn:Eo; [|done]. cbn [mbind option_bind].
  assert (forall i, 0 <= i < n -> added i o) as Hadd.
  { pattern o. apply (wp_some _ _ _ Eo), wp_added. auto. }
  rewrite (for_up_app 0 i n) by lia. destruct (for_up 0 i (tiled_row a) o) as [b|] eqn:Eb; [|done]. cbn [mbind option_bind].
  rewrite for_up_step by lia. rewrite (tiled_row_eq i b mean); [by rewrite Hs|done| |by apply Hm].
  refine (for_up_Some (fun k b => forall j, k <= j < n -> added j b) 0 i (tiled_row a) o b _ Eb _ _ i _); [lia| |clear b Eb|lia].
  - intros j Hj. apply Hadd. lia.
  - intros k b b1 Hk Hb Eb j Hj.
    destruct (scale_of_row mean k) as [sd|] eqn:Ek; [|by rewrite (tiled_row_eq k b mean), Ek in Eb; [|lia|apply Hb; lia|apply Hm; lia]].
    assert (mapped (tiled_index n k) (fun u => u_activation_t (norm_value (mean k) sd (activation_t u))) d b b1) as (Hl1 & _ & Hout).
    { pattern b1. apply (wp_some _ _ _ Eb), (wp_tiled_row k b mean sd); [lia|apply Hb; lia|apply Hm; lia|done|done]. }
    destruct (Hb j ltac:(lia)) as [Hl Ha]. split; [congruence|]. intros p Hp. rewrite Hout by (intros q Hq E; apply tiled_index_inj in E; lia).
    by apply Ha.
Qed.
End Tiled.

(** ** Rows of bytes

    For 8-bit activations and a row length that is a power of two, what a row is
    scaled by, without the machine arithmetic of the code. *)

(** [x ^ 2] flips bit 1: two less where it is set, two more where it is clear. *)
Definition flip2 (x : Z) : Z := if Z.odd (x / 2) then x - 2 else x + 2.

Definition floor_mean (x : Z -> Z) (N : Z) : Z := zsum x N / N.
Definition spread (x : Z -> Z) (N : Z) : Z := Z.quot (zsum (fun p => flip2 (x p - floor_mean x N)) N) N.

(** The integer part of [4 / (sqrt v + 1)]. *)
Definition byte_scale (v : Z) : Z := if v =? 0 then 4 else if v =? 1 then 2 else if v <=? 9 then 1 else 0.

(** [s * (sqrt v + 1) <= 4], for [0 <= s <= 4] and without a square root. *)
Lemma byte_scale_floor v s : 0 <= v -> 0 <= s <= 4 -> s <= byte_scale v <-> s * s * v <= (4 - s) * (4 - s).
Proof.
  intros Hv Hs. assert (s = 0 \/ s = 1 \/ s = 2 \/ s = 3 \/ s = 4) as [->|[->|[->|[->| ->]]]] by lia; unfold byte_scale; zcases; lia.
Qed.

Lemma lxor_flip2 x : Z.lxor x 2 = flip2 x.
Proof.
  unfold flip2. assert (Z.odd (x / 2) = Z.testbit x 1) as ->.
  { rewrite Z.testbit_odd, Z.shiftr_div_pow2 by lia. done. }
  assert (forall y, Z.testbit y 1 = false -> Z.lxor y 2 = y + 2) as Hclear.
  { intros y Hy. symmetry. apply Z.add_nocarry_lxor. apply Z.bits_inj'. intros b Hb. rewrite Z.land_spec, Z.bits_0.
    change 2 with (2 ^ 1). rewrite Z.pow2_bits_eqb by lia. destruct (Z.eqb_spec 1 b) as [<-|]; [by rewrite Hy|apply andb_false_r]. }
  destruct (Z.testbit x 1) eqn:E; [|by apply Hclear].
  assert (Z.lxor (Z.lxor x 2) 2 = Z.lxor x 2 + 2) as H2.
  { apply Hclear. by rewrite Z.lxor_spec, E. }
  rewrite Z.lxor_assoc, Z.lxor_nilpotent, Z.lxor_0_r in H2. lia.
Qed.

(** The scale of all spreads a row of bytes can have, by computation. *)
Lemma sd_inv_bytes v : -300 <= v <= 300 -> sd_inv_of v = if v <? 0 then None else Some (byte_scale v).
Proof.
  intros Hv.
  assert (forallb (fun k => let v := Z.of_nat k - 300 in
    bool_decide (sd_inv_of v = if v <? 0 then None else Some (byte_scale v))) (seq 0 601) = true) as H by (vm_compute; reflexivity).
  rewrite forallb_forall in H. specialize (H (Z.to_nat (v + 300)) ltac:(apply in_seq; lia)). cbv zeta in H.
  rewrite Z2Nat.id in H by lia. replace (v + 300 - 300) with v in H by lia. by apply bool_decide_eq_true in H.
Qed.

Lemma mean_of_pow2 sum k : - 2 ^ 31 <= sum < 2 ^ 31 -> 0 <= k < 32 -> mean_of sum (2 ^ k) = Some (sum / 2 ^ k).
Proof.
  intros Hs Hk. unfold mean_of. assert (0 < 2 ^ k) by lia. destruct (Z.eqb_spec (2 ^ k) 0); [lia|]. f_equal.
  assert (- 2 ^ 31 <= sum / 2 ^ k < 2 ^ 31) as Hr.
  { split; [apply Z.div_le_lower_bound; nia|apply Z.div_lt_upper_bound; nia]. }
  assert (uint64 sum / 2 ^ k = sum / 2 ^ k + (if sum <? 0 then 2 ^ (64 - k) else 0)) as ->.
  { unfold uint64, wrapU. destruct (Z.ltb_spec sum 0).
    - replace (sum mod 2 ^ 64) with (sum + 2 ^ (64 - k) * 2 ^ k).
      + by rewrite Z.div_add by lia.
      + rewrite <- Z.pow_add_r by lia. replace (64 - k + k) with 64 by lia.
        apply (Z.mod_unique_pos _ _ (-1)); lia.
    - rewrite Z.mod_small by lia. lia. }
  rewrite <- (wrapS_small 32 (sum / 2 ^ k)) at 2 by (done || lia). apply wrapS_cong.
  destruct (sum <? 0); [|by rewrite Z.add_0_r].
  replace (2 ^ (64 - k)) with (2 ^ (32 - k) * 2 ^ 32) by (rewrite <- Z.pow_add_r by lia; f_equal; lia).
  by rewrite Z.mod_add by lia.
Qed.

Lemma zsum_between f n lo hi : 0 <= n -> (forall i, 0 <= i < n -> lo <= f i <= hi) -> n * lo <= zsum f n <= n * hi.
Proof.
  intros Hn. revert n Hn. refine (Zup_ind _ 0 _ _); [rewrite zsum_0; lia|]. intros n Hn IH H.
  rewrite zsum_succ by lia. pose proof (IH ltac:(intros; apply H; lia)). specialize (H n ltac:(lia)). lia.
Qed.

(** A row of bytes of length [2 ^ k]: no sum leaves 32 bits. *)
Lemma byte_row (x : Z -> Z) k :
  0 <= k <= 22 -> (forall p, 0 <= p < 2 ^ k -> -128 <= x p < 128) ->
  mean_of (row_total x (2 ^ k)) (2 ^ k) = Some (floor_mean x (2 ^ k)) /\
  Z.quot (row_variance x (2 ^ k) (floor_mean x (2 ^ k))) (2 ^ k) = spread x (2 ^ k) /\ -300 <= spread x (2 ^ k) <= 300 /\
  -128 <= floor_mean x (2 ^ k) < 128.
Proof.
  intros Hk Hx. set (N := 2 ^ k) in *. assert (0 < N <= 2 ^ 22) as HN by (split; [apply Z.pow_pos_nonneg; lia|apply Z.pow_le_mono_r; lia]).
  assert (-128 * N <= zsum x N <= 127 * N) as Hs.
  { pose proof (zsum_between x N (-128) 127 ltac:(lia) ltac:(intros p Hp; specialize (Hx p Hp); lia)). lia. }
  assert (row_total x N = zsum x N) as Et by (unfold row_total, int32; apply wrapS_small; lia).
  assert (-128 <= floor_mean x N < 128) as Hm.
  { unfold floor_mean. split; [apply Z.div_le_lower_bound; lia|apply Z.div_lt_upper_bound; lia]. }
  assert (forall p, 0 <= p < N -> int32 (x p - floor_mean x N) = x p - floor_mean x N) as Ei.
  { intros p Hp. specialize (Hx p Hp). apply wrapS_small; lia. }
  assert (Z.abs (zsum (fun p => flip2 (x p - floor_mean x N)) N) <= N * 257) as Hv.
  { apply zsum_bound; [lia|]. intros p Hp. specialize (Hx p Hp). unfold flip2. destruct (Z.odd _); lia. }
  assert (row_variance x N (floor_mean x N) = zsum (fun p => flip2 (x p - floor_mean x N)) N) as Ev.
  { unfold row_variance. rewrite (zsum_ext _ (fun p => flip2 (x p - floor_mean x N))) by (intros p Hp; by rewrite Ei, lxor_flip2).
    apply wrapS_small; lia. }
  rewrite Et, Ev. split; [unfold N; apply mean_of_pow2; fold N; lia|]. split; [done|]. split; [|done]. unfold spread.
  split; [apply Z.quot_le_lower_bound; lia|apply Z.quot_le_upper_bound; lia].
Qed.
End Integer.
