(* ===== verification/Dense.v ===== *)
(** * Dense: the fully connected layer

    Translates [src/transformer_layers/dense.cc].  A layer holds its weights in
    one of the formats and the multiplier built for its sizes; [compute] picks
    the overload of [SparseMatrixMultiplier::compute] for the format.  Members a
    constructor leaves uninitialised are [None]; using one is undefined. *)

From stdpp Require Import prelude.
From Stdlib Require Import ZArith Lia.
From S2P Require Import Prelude Machine Float32 Accelerator SmmGem SparseMM.

Record Dense := mkDense {
  d_input_size : Z;
  d_output_size : Z;
  d_weight : list Z;
  d_flag : option (list Z);
  d_bias : option (list Z);       (* nullptr is [None] *)
  d_col_ptr : option (list Z);
  d_row_ptr : option (list Z);
  d_values : option (list Z);     (* tile pointers, as offsets into [d_weight] *)
  d_hidden_flag : option (list Z);
  d_format : Format;
  d_multiplier : SparseMatrixMultiplier
}.

(** The common constructor. *)
Definition Dense_new (seq_len input_size output_size : Z) (weightDense : list Z) (format : Format) : Dense :=
  {| d_input_size := input_size; d_output_size := output_size; d_weight := weightDense;
     d_flag := None; d_bias := None; d_col_ptr := None; d_row_ptr := None; d_values := None;
     d_hidden_flag := None; d_format := format;
     d_multiplier := mkMultiplier input_size output_size seq_len format |}.

(** The constructor for the flag-based formats. *)
Definition Dense_new_flag (seq_len input_size output_size : Z) (weightDense flagDense hidden_flag : list Z)
    (format : Format) : Dense :=
  let d := Dense_new seq_len input_size output_size weightDense format in
  {| d_input_size := d_input_size d; d_output_size := d_output_size d; d_weight := d_weight d;
     d_flag := Some flagDense; d_bias := d_bias d; d_col_ptr := None; d_row_ptr := None; d_values := None;
     d_hidden_flag := Some hidden_flag; d_format := d_format d; d_multiplier := d_multiplier d |}.

(** The constructor for CSC and CSR. *)
Definition Dense_new_ptrs (seq_len input_size output_size : Z) (weightDense col_ptr row_ptr values : list Z)
    (format : Format) : Dense :=
  let d := Dense_new seq_len input_size output_size weightDense format in
  {| d_input_size := d_input_size d; d_output_size := d_output_size d; d_weight := d_weight d;
     d_flag := None; d_bias := d_bias d; d_col_ptr := Some col_ptr; d_row_ptr := Some row_ptr;
     d_values := Some values; d_hidden_flag := None; d_format := d_format d; d_multiplier := d_multiplier d |}.

Section Dense.
Context {cfg : Config} {S : Type} {A : Accelerator S}.
Variable SW_MULT : bool.

(** The pointer arguments a format passes without looking at them ([nullptr],
    or [flag] for the formats that ignore it) are empty arrays. *)
Definition multiplyweight (d : Dense) (input : list Z) (st : S * list Z) : option (S * list Z) :=
  match d_format d with
  | WITH_FLAG =>
      flag ← d_flag d;
      compute_values SW_MULT (d_multiplier d) input flag [] (d_weight d) st
  | DYNAMIC | NON_PRUNED =>
      compute_values SW_MULT (d_multiplier d) input (default [] (d_flag d)) [] (d_weight d) st
  | HIDDEN_KEY =>
      hidden_flag ← d_hidden_flag d;
      compute_values SW_MULT (d_multiplier d) input hidden_flag [] (d_weight d) st
  | META_DATA =>
      flag ← d_flag d;
      hidden_flag ← d_hidden_flag d;
      compute_values SW_MULT (d_multiplier d) input flag hidden_flag (d_weight d) st
  | CSC | CSR =>
      col_ptr ← d_col_ptr d;
      row_ptr ← d_row_ptr d;
      values ← d_values d;
      compute_ptrs (d_multiplier d) input col_ptr row_ptr (d_weight d) values st
  | INTERLEAVED => compute_values SW_MULT (d_multiplier d) input [] [] (d_weight d) st
  end.

Definition addbias (d : Dense) (seq_len : Z) (bias output : list Z) : option (list Z) :=
  for_up 0 seq_len (fun idx output =>
    for_up 0 (d_output_size d) (fun feature_idx output =>
      b ← aget bias feature_idx;
      o ← aget output (idx * d_output_size d + feature_idx);
      aset output (idx * d_output_size d + feature_idx)
        (if ACTIVATION_FP then bits_of_f32 (f32_add (f32_of_bits o) (f32_of_Z b)) else uint32 (o + b)))
      output) output.

Definition Dense_compute (d : Dense) (seq_len : Z) (input : list Z) (st : S * list Z) : option (S * list Z) :=
  '(s, output) ← multiplyweight d input st;
  match d_bias d with
  | Some bias => output ← addbias d seq_len bias output; Some (s, output)
  | None => Some (s, output)
  end.
End Dense.
