(* ===== verification/SelfAttention.v ===== *)
(** * SelfAttention: one attention head

    Translates [src/transformer_layers/selfattention.cc].  A head owns three
    dense layers, two multipliers and five intermediate buffers; the buffers are
    zeroed by the constructor only, so [compute] accumulates into what they hold.
    The output is written through a pointer into a larger buffer, which the
    caller ([TransformerBlock]) turns into an offset. *)

From stdpp Require Import prelude.
From Stdlib Require Import ZArith Lia.
From S2P Require Import Prelude Machine Float32 Accelerator SmmGem SparseMM Dense Transpose Softmax.

Record SingleHeadSelfAttn := mkHead {
  query_layer : Dense;
  key_layer : Dense;
  value_layer : Dense;
  mult_QKT : SparseMatrixMultiplier;
  mult_att_v : SparseMatrixMultiplier;
  query_layer_out : list Z;
  key_layer_out : list Z;
  key_transposed_layer_out : list Z;
  value_layer_out : list Z;
  attention_scores : list Z;
  pre_seq_len_ : Z;
  input_dim_ : Z;
  head_hidden_size_ : Z
}.

Section SelfAttention.
Context {cfg : Config}.

(** The base constructor, with the three layers the derived ones add. *)
Definition Head_base (pre_seq_len input_dim head_hidden_size : Z) (query key value : Dense) : SingleHeadSelfAttn :=
  let layer_size := pre_seq_len * head_hidden_size / ACT_PER_BUS in
  {| query_layer := query; key_layer := key; value_layer := value;
     mult_QKT := mkMultiplier head_hidden_size pre_seq_len pre_seq_len NON_PRUNED;
     mult_att_v := mkMultiplier pre_seq_len head_hidden_size pre_seq_len NON_PRUNED;
     query_layer_out := zeros layer_size; key_layer_out := zeros layer_size;
     key_transposed_layer_out := zeros layer_size; value_layer_out := zeros layer_size;
     attention_scores := zeros (pre_seq_len * pre_seq_len / ACT_PER_BUS);
     pre_seq_len_ := pre_seq_len; input_dim_ := input_dim; head_hidden_size_ := head_hidden_size |}.

(** The constructor for the flag-based formats: [weightVector] and [flagVector]
    point to the three entries of this head. *)
Definition Head_new (pre_seq_len input_dim head_hidden_size : Z) (weightVector flagVector : list (list Z))
    (hidden_flag : list Z) (sparseFormat : Format) : option SingleHeadSelfAttn :=
  let layer i := w ← aget weightVector i; f ← aget flagVector i;
                 Some (Dense_new_flag pre_seq_len input_dim head_hidden_size w f hidden_flag sparseFormat) in
  q ← layer 0; k ← layer 1; v ← layer 2;
  Some (Head_base pre_seq_len input_dim head_hidden_size q k v).

(** The constructor for CSC and CSR. *)
Definition Head_new_ptrs (pre_seq_len input_dim head_hidden_size : Z)
    (weightVector col_ptr row_ptr values : list (list Z)) (sparseFormat : Format) : option SingleHeadSelfAttn :=
  let layer i := w ← aget weightVector i; c ← aget col_ptr i; r ← aget row_ptr i; v ← aget values i;
                 Some (Dense_new_ptrs pre_seq_len input_dim head_hidden_size w c r v sparseFormat) in
  q ← layer 0; k ← layer 1; v ← layer 2;
  Some (Head_base pre_seq_len input_dim head_hidden_size q k v).

Definition set_buffers (h : SingleHeadSelfAttn) (q k kt v sc : list Z) : SingleHeadSelfAttn :=
  {| query_layer := query_layer h; key_layer := key_layer h; value_layer := value_layer h;
     mult_QKT := mult_QKT h; mult_att_v := mult_att_v h;
     query_layer_out := q; key_layer_out := k; key_transposed_layer_out := kt; value_layer_out := v;
     attention_scores := sc; pre_seq_len_ := pre_seq_len_ h; input_dim_ := input_dim_ h;
     head_hidden_size_ := head_hidden_size_ h |}.

Context {S : Type} {A : Accelerator S}.
Variable exp : f64 -> f64.
Variable SW_MULT : bool.

(** From the three projections to the output: scores, softmax, weighted sum. *)
Definition attend (h : SingleHeadSelfAttn) (seq_len : Z) (q k v : list Z) (st : S * list Z)
  : option (list Z * list Z * (S * list Z)) :=
  let '(s, output) := st in
  kt ← transpose_rearranged k (head_hidden_size_ h) (pre_seq_len_ h) (key_transposed_layer_out h);
  '(s, sc) ← compute_values SW_MULT (mult_QKT h) q [] [] kt (s, attention_scores h);
  sc ← softmax_computeRearranged exp seq_len sc;
  '(s, output) ← compute_values SW_MULT (mult_att_v h) sc [] [] v (s, output);
  output ← post_softmax seq_len (head_hidden_size_ h) output;
  Some (kt, sc, (s, output)).

Definition Head_compute (h : SingleHeadSelfAttn) (seq_len : Z) (input : list Z) (st : S * list Z)
  : option (SingleHeadSelfAttn * (S * list Z)) :=
  let '(s, output) := st in
  '(s, q) ← Dense_compute SW_MULT (query_layer h) seq_len input (s, query_layer_out h);
  '(s, k) ← Dense_compute SW_MULT (key_layer h) seq_len input (s, key_layer_out h);
  '(s, v) ← Dense_compute SW_MULT (value_layer h) seq_len input (s, value_layer_out h);
  '(kt, sc, st) ← attend h seq_len q k v (s, output);
  Some (set_buffers h q k kt v sc, st).
End SelfAttention.
