(* ===== verification/TransformerBlock.v ===== *)
(** * TransformerBlock: the encoder block

    Translates [src/transformer_layers/transformerBlock.cc].  The heads write
    their outputs at offsets into the shared buffer [multihead_out]; a pointer
    into a buffer is the suffix of the buffer from its offset on. *)

From stdpp Require Import prelude.
From Stdlib Require Import ZArith Lia.
From S2P Require Import Prelude Machine Float32 Accelerator SmmGem SparseMM Dense Transpose Softmax AddNorm SelfAttention.

Record TransformerBlock := mkBlock {
  num_heads_ : Z;
  block_head_hidden_size : Z;
  block_input_dim : Z;
  ff_size_ : Z;
  selfatten : list SingleHeadSelfAttn;
  addNorm : AddNormalize;
  condense : Dense;
  feedForward0 : Dense;
  feedForward1 : Dense
}.

(** [buf + off] as an argument: [f] sees the words from [off] on. *)
Definition with_offset {X} (off : Z) (buf : list Z) (f : list Z -> option (X * list Z)) : option (X * list Z) :=
  if (0 <=? off) && (off <=? zlen buf) then
    '(x, tail) ← f (drop (Z.to_nat off) buf);
    Some (x, take (Z.to_nat off) buf ++ tail)
  else None.

Section TransformerBlock.
Context {cfg : Config}.

Definition build_heads (num_heads : Z) (head : Z -> option SingleHeadSelfAttn) : option (list SingleHeadSelfAttn) :=
  for_up 0 num_heads (fun n heads =>
    _ ← assert_ (n <? 16);
    h ← head n;
    Some (heads ++ [h])) [].

(** The constructor for the flag-based formats; writing the array
    [selfatten[16]] beyond its end is undefined. *)
Definition Block_new (pre_seq_len input_dim head_hidden_size num_heads ff_size : Z)
    (weightVector flagVector : list (list Z)) (hidden_flag : list Z)
    (sparseFormatQVK sparseFormatCondense sparseFormatFF0 sparseFormatFF1 : Format) : option TransformerBlock :=
  heads ← build_heads num_heads (fun n =>
    Head_new pre_seq_len input_dim head_hidden_size (drop (Z.to_nat (n * 3)) weightVector)
      (drop (Z.to_nat (n * 3)) flagVector) hidden_flag sparseFormatQVK);
  let layer i isz osz fmt := w ← aget weightVector i; f ← aget flagVector i;
                             Some (Dense_new_flag pre_seq_len isz osz w f hidden_flag fmt) in
  cond ← layer (num_heads * 3) (num_heads * head_hidden_size) input_dim sparseFormatCondense;
  ff0 ← layer (num_heads * 3 + 1) input_dim ff_size sparseFormatFF0;
  ff1 ← layer (num_heads * 3 + 2) ff_size input_dim sparseFormatFF1;
  Some {| num_heads_ := num_heads; block_head_hidden_size := head_hidden_size; block_input_dim := input_dim;
          ff_size_ := ff_size; selfatten := heads;
          addNorm := mkAddNormalize pre_seq_len input_dim KERNEL_DIM MAX_ACT_COL;
          condense := cond; feedForward0 := ff0; feedForward1 := ff1 |}.

(** The constructor for CSC and CSR. *)
Definition Block_new_ptrs (pre_seq_len input_dim head_hidden_size num_heads ff_size : Z)
    (weightVector col_ptr row_ptr values : list (list Z)) (sparseFormat : Format) : option TransformerBlock :=
  heads ← build_heads num_heads (fun n =>
    let off := Z.to_nat (n * 3) in
    Head_new_ptrs pre_seq_len input_dim head_hidden_size (drop off weightVector)
      (drop off col_ptr) (drop off row_ptr) (drop off values) sparseFormat);
  let layer i isz osz := w ← aget weightVector i; c ← aget col_ptr i; r ← aget row_ptr i; v ← aget values i;
                         Some (Dense_new_ptrs pre_seq_len isz osz w c r v sparseFormat) in
  cond ← layer (num_heads * 3) (num_heads * head_hidden_size) input_dim;
  ff0 ← layer (num_heads * 3 + 1) input_dim ff_size;
  ff1 ← layer (num_heads * 3 + 2) ff_size input_dim;
  Some {| num_heads_ := num_heads; block_head_hidden_size := head_hidden_size; block_input_dim := input_dim;
          ff_size_ := ff_size; selfatten := heads;
          addNorm := mkAddNormalize pre_seq_len input_dim KERNEL_DIM MAX_ACT_COL;
          condense := cond; feedForward0 := ff0; feedForward1 := ff1 |}.

Definition set_heads (b : TransformerBlock) (hs : list SingleHeadSelfAttn) : TransformerBlock :=
  {| num_heads_ := num_heads_ b; block_head_hidden_size := block_head_hidden_size b;
     block_input_dim := block_input_dim b; ff_size_ := ff_size_ b; selfatten := hs;
     addNorm := addNorm b; condense := condense b; feedForward0 := feedForward0 b; feedForward1 := feedForward1 b |}.

Context {S : Type} {A : Accelerator S}.
Variable exp : f64 -> f64.
Variable SW_MULT : bool.

(** The loop over the heads; [seq_len * head_hidden_size_ >> 2] words per head. *)
Definition heads_compute (b : TransformerBlock) (seq_len : Z) (input : list Z)
    (st : list SingleHeadSelfAttn * S * list Z) : option (list SingleHeadSelfAttn * S * list Z) :=
  for_up 0 (num_heads_ b) (fun n '(hs, s, multihead_out) =>
    h ← aget hs n;
    let off := n * Z.shiftr (seq_len * block_head_hidden_size b) 2 in
    '((h, s), multihead_out) ← with_offset off multihead_out (fun out =>
      '(h, (s, out)) ← Head_compute exp SW_MULT h seq_len input (s, out);
      Some ((h, s), out));
    hs ← aset hs n h;
    Some (hs, s, multihead_out)) st.

Record BlockBuffers := mkBuffers {
  bb_output : list Z;
  bb_multihead : list Z;
  bb_condense : list Z;
  bb_ff : list Z
}.

(** [compute]; the statistics and printing calls have no effect on the state. *)
Definition Block_compute (b : TransformerBlock) (seq_len : Z) (input : list Z) (s : S) (bufs : BlockBuffers)
  : option (TransformerBlock * S * BlockBuffers) :=
  '(hs, s, multihead_out) ← heads_compute b seq_len input (selfatten b, s, bb_multihead bufs);
  '(s, condense_out) ← Dense_compute SW_MULT (condense b) seq_len multihead_out (s, bb_condense bufs);
  condense_out ← addnorm_computeRearranged (addNorm b) input condense_out;
  '(s, intermediateFF) ← Dense_compute SW_MULT (feedForward0 b) seq_len condense_out (s, bb_ff bufs);
  '(s, output) ← Dense_compute SW_MULT (feedForward1 b) seq_len intermediateFF (s, bb_output bufs);
  output ← addnorm_computeRearranged (addNorm b) condense_out output;
  Some (set_heads b hs, s, mkBuffers output multihead_out condense_out intermediateFF).
End TransformerBlock.
