(* ===== verification/Inference.v ===== *)
(** * Inference: the program [transformer.cc]

    Translates [src/transformer.cc] and [src/transformer.h]: the model
    dimensions, the generation of the input and the weights, the conversion of
    the weights to the interleaved format, the construction and the run of the
    encoder block, and [main] with its guards.  [rand] is the stream of results
    of the C library function; a call of [exit(1)] is [inr]. *)

From stdpp Require Import prelude.
From Stdlib Require Import ZArith Lia.
From S2P Require Import Prelude Machine Float32 Accelerator SmmGem SparseMM SparseRep.
From S2P Require Import Dense Transpose Softmax AddNorm SelfAttention TransformerBlock.

Inductive Model := libritrans | librispeech | test_model.

Record Dims := mkDims {
  D_Q : Z;
  D_SEQ : Z;
  D_MODEL : Z;
  NUM_HEAD : Z;
  D_FF : Z
}.

Definition dims (m : Model) : Dims :=
  match m with
  | libritrans => {| D_Q := 64; D_SEQ := 128; D_MODEL := 256; NUM_HEAD := 4; D_FF := 2048 |}
  | librispeech => {| D_Q := 128; D_SEQ := 128; D_MODEL := 512; NUM_HEAD := 4; D_FF := 2048 |}
  | test_model => {| D_Q := 32; D_SEQ := 32; D_MODEL := 64; NUM_HEAD := 2; D_FF := 64 |}
  end.

(** Outcome of a run: a value, or [exit(1)]. *)
Definition or_exit (X : Type) : Type := (X + unit)%type.

Section Inference.
Context {cfg : Config}.

(** ** Test data *)

Definition fill_kernel (rand : nat -> Z) (size : Z) (st : list Z * nat) : option (list Z * nat) :=
  for_up 0 size (fun i '(tensor, p) =>
    tensor ← aset tensor i (uint32 (rand p));
    Some (tensor, S p)) st.

Definition fill_sparse_weight (rand : nat -> Z) (d_model d_q_bus : Z) (st : list Z * nat) : option (list Z * nat) :=
  let size := d_model * d_q_bus in
  for_up 0 size (fun i '(kernel, p) =>
    kernel ← aset kernel i (uint32 (rand p));
    Some (kernel, S p)) st.

(** ** Building the model *)

Definition head_qkv_size (D : Dims) : Z := D_Q D * D_MODEL D / W_PER_BUS.
Definition head_flag_size (D : Dims) : Z := D_Q D * D_MODEL D / (32 * KERNEL_DIM * MAX_W_COL).

(** The three kernels of a head, then those of the condense and feed-forward
    layers, in the order they are generated; the flags stay zero. *)
Definition build_weights (rand : nat -> Z) (D : Dims) (p : nat) : option (list (list Z) * nat) :=
  '(weights, p) ← for_up 0 (NUM_HEAD D) (fun n '(weights, p) =>
    '(q, p) ← fill_sparse_weight rand (D_MODEL D) (D_Q D / W_PER_BUS) (zeros (head_qkv_size D), p);
    '(k, p) ← fill_sparse_weight rand (D_MODEL D) (D_Q D / W_PER_BUS) (zeros (head_qkv_size D), p);
    '(v, p) ← fill_sparse_weight rand (D_MODEL D) (D_Q D / W_PER_BUS) (zeros (head_qkv_size D), p);
    Some (weights ++ [q; k; v], p)) ([], p);
  '(c, p) ← fill_sparse_weight rand (D_MODEL D) (NUM_HEAD D * D_Q D / W_PER_BUS)
              (zeros (NUM_HEAD D * D_Q D * D_MODEL D / W_PER_BUS), p);
  '(f0, p) ← fill_sparse_weight rand (D_MODEL D) (D_FF D / W_PER_BUS) (zeros (D_MODEL D * D_FF D / W_PER_BUS), p);
  '(f1, p) ← fill_sparse_weight rand (D_FF D) (D_MODEL D / W_PER_BUS) (zeros (D_FF D * D_MODEL D / W_PER_BUS), p);
  Some (weights ++ [c; f0; f1], p).

Definition build_flags (D : Dims) : list (list Z) :=
  replicate (Z.to_nat (3 * NUM_HEAD D)) (zeros (head_flag_size D)) ++
  [zeros (NUM_HEAD D * D_Q D * D_MODEL D / (32 * KERNEL_DIM * MAX_W_COL));
   zeros (D_MODEL D * D_FF D / (32 * KERNEL_DIM * MAX_W_COL));
   zeros (D_MODEL D * D_FF D / (32 * KERNEL_DIM * MAX_W_COL))].

(** [if (format == INTERLEAVED) dense2interleavedMetaData(weightVec[i], ...) else if (format != NON_PRUNED) exit(1)] *)
Definition convert_weight (fmt : Format) (i n_row n_col : Z) (weights : list (list Z))
  : option (or_exit (list (list Z))) :=
  match fmt with
  | INTERLEAVED =>
      w ← aget weights i;
      w ← dense2interleavedMetaData w n_row n_col;
      weights ← aset weights i w;
      Some (inl weights)
  | NON_PRUNED => Some (inl weights)
  | _ => Some (inr ())
  end.

(** Running the next conversion unless the program has exited. *)
Definition and_then {X Y} (r : option (or_exit X)) (f : X -> option (or_exit Y)) : option (or_exit Y) :=
  r ≫= fun x => match x with inl x => f x | inr e => Some (inr e) end.

Definition convert_weights (D : Dims) (fQVK fCondense fFF0 fFF1 : Format) (weights : list (list Z))
  : option (or_exit (list (list Z))) :=
  and_then (match fQVK with
    | INTERLEAVED => for_up 0 (NUM_HEAD D * 3) (fun i r =>
        and_then (Some r) (convert_weight INTERLEAVED i (D_MODEL D) (D_Q D / W_PER_BUS))) (inl weights)
    | NON_PRUNED => Some (inl weights)
    | _ => Some (inr ())
    end) (fun weights =>
  and_then (convert_weight fCondense (NUM_HEAD D * 3) (NUM_HEAD D * D_Q D) (D_MODEL D / W_PER_BUS) weights) (fun weights =>
  and_then (convert_weight fFF0 (NUM_HEAD D * 3 + 1) (D_MODEL D) (D_FF D / W_PER_BUS) weights) (fun weights =>
  convert_weight fFF1 (NUM_HEAD D * 3 + 2) (D_FF D) (D_MODEL D / W_PER_BUS) weights))).

(** ** Inference *)

Context {S : Type} {A : Accelerator S}.
Variable exp : f64 -> f64.
Variable SW_MULT : bool.

Definition inference (rand : nat -> Z) (D : Dims) (fQVK fCondense fFF0 fFF1 : Format) (s : S) (p : nat)
  : option (or_exit (list Z * S * nat)) :=
  let hidden_flag := 0xAAAAAAAA in
  let act_words x := x / ACT_PER_BUS in
  let out := zeros (act_words (D_SEQ D * D_MODEL D)) in
  let multihead_out := zeros (act_words (D_SEQ D * NUM_HEAD D * D_Q D)) in
  let condense_out := zeros (act_words (D_SEQ D * D_MODEL D)) in
  let intermediateFF := zeros (act_words (D_SEQ D * D_FF D)) in
  '(tensor_in, p) ← fill_kernel rand (act_words (D_SEQ D * D_MODEL D)) (zeros (act_words (D_SEQ D * D_MODEL D)), p);
  '(weightVec, p) ← build_weights rand D p;
  and_then (convert_weights D fQVK fCondense fFF0 fFF1 weightVec) (fun weightVec =>
  block ← Block_new (D_SEQ D) (D_MODEL D) (D_Q D) (NUM_HEAD D) (D_FF D) weightVec (build_flags D)
            [hidden_flag] fQVK fCondense fFF0 fFF1;
  '(_, s, bufs) ← Block_compute exp SW_MULT block (D_SEQ D) tensor_in s
            (mkBuffers out multihead_out condense_out intermediateFF);
  Some (inl (bb_output bufs, s, p))).

(** The format a sparsity percentage selects. *)
Definition format_of (sparsity : Z) : Format := if sparsity =? 0 then NON_PRUNED else INTERLEAVED.

(** One iteration of the loop of [main]; [readFlag] is [smmReadFlag(0, 0)]. *)
Definition run (rand : nat -> Z) (D : Dims) (readFlag : S -> option (Z * S)) (sp : Z * Z * Z * Z) (s : S) (p : nat)
  : option (or_exit (list Z * S * nat)) :=
  let '(qvk, cond, ff0, ff1) := sp in
  '(kernel_dim, s) ← readFlag s;
  if negb (kernel_dim =? SA_SIZE) then Some (inr ()) else
  if SW_MULT && negb ((qvk =? 0) && (cond =? 0) && (ff0 =? 0) && (ff1 =? 0)) then Some (inr ()) else
  inference rand D (format_of qvk) (format_of cond) (format_of ff0) (format_of ff1) s p.

(** [main]: the arguments come in groups of four (after [atoi]); the results are
    the outputs of the runs. *)
Fixpoint main_runs (rand : nat -> Z) (D : Dims) (readFlag : S -> option (Z * S)) (runs : nat) (args : list Z)
    (s : S) (p : nat) : option (or_exit (list (list Z))) :=
  match runs with
  | O => Some (inl [])
  | Datatypes.S runs =>
      match args with
      | a :: b :: c :: d :: args =>
          and_then (run rand D readFlag (a, b, c, d) s p) (fun '(out, s, p) =>
          and_then (main_runs rand D readFlag runs args s p) (fun outs => Some (inl (out :: outs))))
      | _ => None
      end
  end.

Definition main (rand : nat -> Z) (D : Dims) (readFlag : S -> option (Z * S)) (args : list Z) (s : S)
  : option (or_exit (list (list Z))) :=
  let argc := zlen args + 1 in
  if negb ((argc - 1) mod 4 =? 0) || (argc =? 1) then Some (inr ()) else
  main_runs rand D readFlag (Z.to_nat ((argc - 1) / 4)) args s O.
End Inference.
