(* ===== verification/AttentionCorrect.v ===== *)
(** * AttentionCorrect: the attention head computes attention

    For integer activations and weights of the same width, [attend] leaves in
    its output the attention of the projections: scores are inner products of
    query and key rows, each row of scores goes through the table softmax, and
    the weights combine the value rows, all modulo the activation width.  The
    theorem composes the specifications of the transposition, of the two tiled
    products on the accelerator, of the softmax and of the final scaling. *)

From stdpp Require Import prelude.
From Stdlib Require Import ZArith Lia.
From S2P Require Import Prelude Machine Float32 Systolic SystolicCorrect Accelerator SmmGem SparseMM TileProduct SparseRep SparseSpec.
From S2P Require Import SparseEncode SparseCorrect MatMul Transpose Rows Softmax Dense SelfAttention.

(** Sums read backwards. *)
Lemma zsum_first f n : 0 <= n -> zsum f (n + 1) = f 0 + zsum (fun i => f (1 + i)) n.
Proof.
  intros Hn. rewrite (Z.add_comm n), zsum_app by lia. f_equal.
Qed.

Lemma zsum_rev f n : 0 <= n -> zsum (fun i => f (n - 1 - i)) n = zsum f n.
Proof.
  intros Hn. revert n Hn f. refine (Zup_ind _ 0 _ _); [done|]. intros n Hn IH f.
  rewrite zsum_first, zsum_succ by done. rewrite <- (IH f), Z.add_comm. f_equal.
  - apply zsum_ext. intros i Hi. f_equal. lia.
  - f_equal. lia.
Qed.

Section Layout.
Context {cfg : Config} {wf : WfConfig cfg}.
Abbreviation K := KERNEL_DIM.
Abbreviation MAC := MAX_ACT_COL.
Abbreviation APB := ACT_PER_BUS.

(** Entry [(t, e)] of a tiled matrix with [n] rows, as a signed activation. *)
Definition sentry (buf : list Z) (n t e : Z) : Z := activation_t (tiled_entry buf n t e).

Lemma act_mat_entry m buf t e : 0 <= t < seq_len m -> act_mat m buf t e = sentry buf (seq_len m) t e.
Proof.
  intros Ht. unfold act_mat, act_tile, sentry, tiled_entry, act_lane. destruct (Z.ltb_spec t (seq_len m)); [|lia].
  do 3 f_equal. lia.
Qed.

(** Weights as wide as activations: a kernel is a tiled matrix. *)
Lemma weight_mat_entry m kernel e c :
  WEIGHT_BITS = ACTIVATION_BITS -> 0 <= e ->
  weight_mat m kernel e c = sentry kernel (tiles_in_row m * K) e c.
Proof.
  intros Hw He. geometry. pose proof max_act_col_spec as HM. pose proof max_w_col_spec as HW.
  assert (W_PER_BUS = APB) as E1 by (unfold W_PER_BUS, ACT_PER_BUS; by rewrite Hw).
  assert (MAX_W_COL = MAC) as E2 by (rewrite E1 in HW; nia).
  unfold weight_mat, weight_tile, words_weight, sentry, tiled_entry, weight_lane, weight_t, activation_t, TILE.
  rewrite Hw, E1, E2. assert (0 <= c mod K < K) by (apply Z.mod_pos_bound; lia).
  assert ((e mod K * K + c mod K) / APB = e mod K * MAC + c mod K / APB) as ->.
  { rewrite HM at 2. replace (e mod K * (MAC * APB) + c mod K) with (c mod K + e mod K * MAC * APB) by lia.
    rewrite Z.div_add by lia. lia. }
  assert ((e mod K * K + c mod K) mod APB = c mod K mod APB) as ->.
  { rewrite HM at 2. replace (e mod K * (MAC * APB) + c mod K) with (c mod K + e mod K * MAC * APB) by lia.
    by rewrite Z.mod_add by lia. }
  do 3 f_equal. assert (e = K * (e / K) + e mod K) as Ee by (apply Z.div_mod; lia). 
  rewrite Ee at 3. lia.
Qed.

(** Lane [l] of the bus is lane [APB - 1 - l] of the byte order in memory. *)
Definition flip (e : Z) : Z := e + (APB - 1) - 2 * (e mod APB).

Lemma flip_split w l : 0 <= l < APB -> flip (w * APB + l) = w * APB + (APB - 1 - l).
Proof. intros Hl. unfold flip. destruct (div_mod_unique (w * APB + l) APB w l Hl eq_refl) as [_ ->]. lia. Qed.

Lemma entry_uelem buf n t e :
  0 <= e -> tiled_entry buf n t e = uelem buf (tiled_index n t (flip e)).
Proof.
  intros He. geometry. pose proof max_act_col_spec as HM.
  destruct (split_index (e / K + 1) e) as (j & w & l & Hj & Hw & Hl & Ee & E1 & E2 & E3).
  { assert (0 <= e mod K < K) by (apply Z.mod_pos_bound; lia).
    assert (e = K * (e / K) + e mod K) by (apply Z.div_mod; lia). lia. }
  unfold tiled_entry. rewrite E1, E2, E3. rewrite lane_be_le by lia. unfold uelem.
  assert (flip e = j * K + (w * APB + (APB - 1 - l))) as Ef.
  { rewrite Ee. replace (j * K + (w * APB + l)) with ((j * MAC + w) * APB + l) by (rewrite HM; lia).
    rewrite flip_split by done. rewrite HM. lia. }
  assert (0 <= w * APB + (APB - 1 - l) < K) as Hb by nia.
  destruct (div_mod_unique (flip e) K j _ Hb Ef) as [D1 M1].
  assert (0 <= APB - 1 - l < APB) as Hl' by lia.
  assert (tiled_index n t (flip e) = (j * (MAC * n) + t * MAC + w) * APB + (APB - 1 - l)) as Et.
  { unfold tiled_index. rewrite D1, M1, HM. lia. }
  destruct (div_mod_unique _ APB _ _ Hl' Et) as [-> ->]. f_equal. lia.
Qed.

Lemma flip_bounds c e : 0 <= e < c * K -> 0 <= flip e < c * K.
Proof.
  intros He. geometry. pose proof max_act_col_spec as HM.
  assert (0 <= e mod APB < APB) by (apply Z.mod_pos_bound; lia).
  assert (e = APB * (e / APB) + e mod APB) by (apply Z.div_mod; lia).
  assert (0 <= e / APB < c * MAC) by (split; [apply Z.div_pos; lia|apply Z.div_lt_upper_bound; nia]).
  unfold flip. nia.
Qed.

(** A sum over a row does not depend on the order of the lanes. *)
Lemma zsum_flip f c : 0 <= c -> zsum (fun e => f (flip e)) (c * K) = zsum f (c * K).
Proof.
  intros Hc. geometry. pose proof max_act_col_spec as HM. replace (c * K) with (c * MAC * APB) by (rewrite HM; lia).
  rewrite !(zsum_nest _ (c * MAC) APB) by nia. apply zsum_ext. intros w Hw. cbn beta.
  rewrite <- (zsum_rev (fun l => f (w * APB + l))) by lia. apply zsum_ext. intros l Hl. by rewrite flip_split.
Qed.
End Layout.

(** ** Integer products in terms of entries *)

Section Product.
Context {cfg : Config} {wf : WfConfig cfg} {S : Type} {A : Accelerator S}
  {L : AcceleratorLaws (cfg := cfg) S}.
Hypothesis Hint : ACTIVATION_FP = false.
Abbreviation K := KERNEL_DIM.
Abbreviation MAC := MAX_ACT_COL.
Abbreviation APB := ACT_PER_BUS.

(** A kernel of [R] by [C] tiles fits a multiplier of these sizes. *)
Lemma whole_tiles_fit m R C kernel :
  WEIGHT_BITS = ACTIVATION_BITS -> 0 <= R -> 0 <= C -> input_size_ m = R * K -> output_size_ m = C * K ->
  zlen kernel = R * C * (K * MAC) ->
  fits m (R * K) (C * MAC) kernel /\ tiles_in_row m = R /\ tiles_in_col m = C.
Proof.
  intros Hw HR HC Hi Ho Hk. geometry. pose proof max_act_col_spec as HM. pose proof max_w_col_spec as HW.
  assert (W_PER_BUS = APB) as E1 by (unfold W_PER_BUS, ACT_PER_BUS; by rewrite Hw).
  assert (MAX_W_COL = MAC) as E2 by (rewrite E1 in HW; nia).
  split; [split; try done; nia|]. split; [unfold tiles_in_row; rewrite Hi|unfold tiles_in_col; rewrite Ho]; apply Z.div_mul; lia.
Qed.

(** [run] runs the tiles of a kernel: all of them, or those that are not zero
    column by column or row by row. *)
Definition runs_tiles {T} {B : Accelerator T} (m : SparseMatrixMultiplier) (kernel : list Z)
    (run : list Z -> T * list Z -> option (T * list Z)) : Prop :=
  (forall input st, run input st = dense_ref m kernel input st) \/
  (forall input st, run input st = sparse_ref m input kernel st) \/
  (forall input st, run input st = sparse_ref_rows m input kernel st).

(** Every such run accumulates all tiles. *)
Lemma wp_runs_tiles m n_row n_col kernel input run (s : S) out (Q : S * list Z -> Prop) :
  fits m n_row n_col kernel -> runs_tiles m kernel run -> 0 <= seq_len m ->
  tiles_in_row m * MAC * seq_len m <= zlen input -> tiles_in_col m * MAC * seq_len m <= zlen out -> acc_ok s -> words_ok out ->
  (forall s' out', acc_ok s' -> accumulated m kernel input (fun _ => true) (fun _ => tiles_in_row m) out out' -> Q (s', out')) ->
  wp (run input (s, out)) Q.
Proof.
  intros Hfit Hrun Hn Hin Hout Hok Hwo HQ.
  destruct Hrun as [-> | [-> | ->]].
  - by apply (wp_dense_ref m n_row n_col).
  - apply (wp_sparse_ref m n_row n_col); try done. intros s' out' Hs' Ha. apply HQ; [done|]. by apply accumulated_sparse.
  - apply (wp_sparse_ref_rows m n_row n_col); try done. intros s' out' Hs' Ha. apply HQ; [done|]. by apply accumulated_sparse.
Qed.

(** A product on the accelerator, for sizes that are whole tiles. *)
Lemma wp_run_entries m R C kernel input run (s : S) out (Q : S * list Z -> Prop) :
  WEIGHT_BITS = ACTIVATION_BITS -> runs_tiles m kernel run ->
  0 <= R -> 0 <= C -> 0 <= seq_len m -> input_size_ m = R * K -> output_size_ m = C * K ->
  zlen kernel = R * C * (K * MAC) -> R * MAC * seq_len m <= zlen input -> C * MAC * seq_len m <= zlen out ->
  acc_ok s -> words_ok out ->
  (forall s' out', acc_ok s' -> zlen out' = zlen out -> words_ok out' ->
     (forall t c, 0 <= t < seq_len m -> 0 <= c < C * K ->
        sentry out' (seq_len m) t c = activation_t (sentry out (seq_len m) t c +
          zsum (fun e => sentry input (seq_len m) t e * sentry kernel (R * K) e c) (R * K))) ->
     (forall k, C * MAC * seq_len m <= k < zlen out -> out'.[k] = out.[k]) -> Q (s', out')) ->
  wp (run input (s, out)) Q.
Proof.
  intros Hw Hrun HR HC Hn Hi Ho Hk Hin Hout Hok Hwo HQ.
  pose proof (whole_tiles_fit m R C kernel Hw HR HC Hi Ho Hk) as (Hfit & ER & EC).
  apply (wp_runs_tiles m _ _ kernel input run s out Q Hfit Hrun Hn); [by rewrite ER|by rewrite EC|done|done|].
  intros s' out' Hok' Hacc. pose proof Hacc as [Hl Hacc']. apply HQ; [done|done| | |].
  - intros k Hk'. rewrite Hacc' by lia. destruct (k <? _); [|apply Hwo; lia]. apply word_acc_range. apply Hwo. lia.
  - intros t c Ht Hc. rewrite <- !act_mat_entry by done.
    rewrite (accumulated_product Hint m kernel input out out' t c); try done; try (rewrite ?EC, ?ER; lia).
    unfold product. rewrite ER. do 2 f_equal. apply zsum_ext. intros e He.
    rewrite act_mat_entry by done. by rewrite weight_mat_entry, ER by (done || lia).
  - geometry. intros k Hk'. rewrite Hacc', EC by lia. zcases; [lia|done].
Qed.

(** The dense product. *)
Lemma runs_dense m R C kernel :
  WEIGHT_BITS = ACTIVATION_BITS -> format_ m = NON_PRUNED -> 0 <= R -> 0 <= C -> input_size_ m = R * K -> output_size_ m = C * K ->
  zlen kernel = R * C * (K * MAC) -> runs_tiles m kernel (fun input => compute_values false m input [] [] kernel).
Proof.
  intros Hw Hf HR HC Hi Ho Hk. destruct (whole_tiles_fit m R C kernel Hw HR HC Hi Ho Hk) as (Hfit & _ & _).
  left. intros input st. unfold compute_values. rewrite Hf. by apply (computeNonPruned_ref m _ _ kernel Hfit).
Qed.

Lemma wp_product_entries m R C kernel input (s : S) out (Q : S * list Z -> Prop) :
  WEIGHT_BITS = ACTIVATION_BITS -> format_ m = NON_PRUNED ->
  0 <= R -> 0 <= C -> 0 <= seq_len m -> input_size_ m = R * K -> output_size_ m = C * K ->
  zlen kernel = R * C * (K * MAC) -> R * MAC * seq_len m <= zlen input -> C * MAC * seq_len m <= zlen out ->
  acc_ok s -> words_ok out ->
  (forall s' out', acc_ok s' -> zlen out' = zlen out -> words_ok out' ->
     (forall t c, 0 <= t < seq_len m -> 0 <= c < C * K ->
        sentry out' (seq_len m) t c = activation_t (sentry out (seq_len m) t c +
          zsum (fun e => sentry input (seq_len m) t e * sentry kernel (R * K) e c) (R * K))) ->
     (forall k, C * MAC * seq_len m <= k < zlen out -> out'.[k] = out.[k]) -> Q (s', out')) ->
  wp (compute_values false m input [] [] kernel (s, out)) Q.
Proof.
  intros Hw Hf HR HC Hn Hi Ho Hk. apply (wp_run_entries m R C kernel input (fun input => compute_values false m input [] [] kernel)); try done.
  by apply (runs_dense m R C).
Qed.
End Product.

(** ** Softmax and scaling in terms of entries *)

Section Entries.
Context {cfg : Config} {wf : WfConfig cfg}.
Abbreviation K := KERNEL_DIM.
Abbreviation MAC := MAX_ACT_COL.
Abbreviation APB := ACT_PER_BUS.

Lemma softmaxed_entry c buf buf' t u :
  0 <= c -> softmaxed (tiled_index (c * K)) (c * K) (c * K) buf buf' -> 0 <= t < c * K -> 0 <= u < c * K ->
  tiled_entry buf' (c * K) t u =
  softmax_value (tiled_entry buf (c * K) t u) (zsum (fun u => lut (tiled_entry buf (c * K) t u)) (c * K)).
Proof.
  intros Hc (_ & Hin & _) Ht Hu. rewrite !entry_uelem by lia. rewrite Hin by (done || by apply flip_bounds).
  f_equal. unfold row_sum. rewrite <- (zsum_flip (fun p => lut (uelem buf (tiled_index (c * K) t p)))) by done.
  apply zsum_ext. intros p Hp. by rewrite entry_uelem by lia.
Qed.

Lemma wp_post_softmax_int n d buf (Q : list Z -> Prop) :
  0 <= n -> 0 <= d -> n * d <= elements buf ->
  (forall buf', zlen buf' = zlen buf ->
     (forall e, 0 <= e < n * d -> uelem buf' e = u_activation_t (Z.quot (activation_t (uelem buf e)) 64)) ->
     (forall k, n * d <= k * APB -> buf'.[k] = buf.[k]) -> Q buf') ->
  wp (post_softmax_int n d buf) Q.
Proof.
  intros Hn Hd Hl HQ. unfold post_softmax_int. pose proof act_bits_pos.
  apply (wp_for_up (fun k b => zlen b = zlen buf /\ (forall e, uelem b e =
    if (0 <=? e) && (e <? k) then u_activation_t (Z.quot (activation_t (uelem buf e)) 64) else uelem buf e) /\
    (forall w, n * d <= w * APB -> b.[w] = buf.[w]))).
  - nia.
  - split; [done|]. split; [|done]. intros e. zcases; simpl; try done; lia.
  - intros k b Hk (Hlb & Hb & Hfr). assert (0 <= k < elements b) by (unfold elements in *; rewrite Hlb; lia).
    apply wp_bind, wp_get_act; [done|]. apply wp_set_act_word; [done|]. intros b2 Hl2 Hb2 Hfr2. split; [lia|].
    split; [|intros w Hw; rewrite Hfr2, Hfr by (done || (geometry; Z.div_mod_to_equations; nia)); done].
    intros e. rewrite Hb2, !Hb. unfold u_activation_t, activation_t. rewrite wrapU_wrapS by done.
    destruct (Z.eqb_spec e k) as [->|]; zcases; simpl; try done; lia.
  - intros b (Hlb & Hb & Hfr). apply HQ; [done| |done]. intros e He. rewrite Hb. zcases; simpl; try done; lia.
Qed.
End Entries.

(** ** The attention head *)

Section Attention.
Context {cfg : Config} {wf : WfConfig cfg} {S : Type} {A : Accelerator S}
  {L : AcceleratorLaws (cfg := cfg) S}.
Abbreviation K := KERNEL_DIM.
Abbreviation MAC := MAX_ACT_COL.
Abbreviation APB := ACT_PER_BUS.

Section Spec.
Context (q k v : Z -> Z -> Z) (seq hid : Z).

(** The score of key row [u] for query row [t]. *)
Definition att_score (t u : Z) : Z :=
  activation_t (zsum (fun e => q t e * k u e) hid).

(** The weight of row [u] for query row [t]: the softmax of the scores, read back
    as a signed activation. *)
Definition att_weight (t u : Z) : Z :=
  activation_t (softmax_value (u_activation_t (att_score t u))
    (zsum (fun u => lut (u_activation_t (att_score t u))) seq)).

(** The output: the weighted sum of the value rows, divided by 64. *)
Definition att_output (t c : Z) : Z :=
  activation_t (Z.quot (activation_t (zsum (fun u => att_weight t u * v u c) seq)) 64).
End Spec.

(** The state of a head right after construction. *)
Record fresh_head (h : SingleHeadSelfAttn) (seq hid : Z) : Prop := {
  fh_seq : pre_seq_len_ h = seq;
  fh_hid : head_hidden_size_ h = hid;
  fh_qkt : mult_QKT h = mkMultiplier hid seq seq NON_PRUNED;
  fh_att : mult_att_v h = mkMultiplier seq hid seq NON_PRUNED;
  fh_kt : zlen (key_transposed_layer_out h) = seq * hid / APB;
  fh_scores : attention_scores h = zeros (seq * seq / APB)
}.

Lemma Head_base_fresh seq dim hid dq dk dv :
  0 <= seq -> 0 <= hid -> fresh_head (Head_base seq dim hid dq dk dv) seq hid.
Proof.
  intros. geometry. split; try done. apply zlen_zeros. apply Z.div_pos; nia.
Qed.

Lemma sentry_zeros n r t e : sentry (zeros n) r t e = 0.
Proof.
  geometry. unfold sentry, tiled_entry. rewrite nthZ_zeros, lane_be_0. apply wrapS_small; [lia|].
  pose proof (Z.pow_pos_nonneg 2 (ACTIVATION_BITS - 1)). lia.
Qed.

Lemma sentry_unsigned buf n t e : u_activation_t (sentry buf n t e) = tiled_entry buf n t e.
Proof.
  geometry. unfold sentry, u_activation_t, activation_t. rewrite wrapU_wrapS by lia.
  apply wrapU_small. apply lane_be_range. lia.
Qed.

Lemma words_div a b : a * K * (b * K) / APB = a * b * (K * MAC).
Proof.
  geometry. pose proof max_act_col_spec as HM. rewrite HM at 2.
  replace (a * K * (b * (MAC * APB))) with (a * b * (K * MAC) * APB) by lia. apply Z.div_mul. lia.
Qed.

Hypothesis Hint : ACTIVATION_FP = false.
Hypothesis Hsame : WEIGHT_BITS = ACTIVATION_BITS.
Variable exp : f64 -> f64.

(** The scores, from the transposed keys. *)
Lemma wp_scores a b h q kt (s : S) (Q : S * list Z -> Prop) k :
  0 <= a -> 0 <= b -> fresh_head h (a * K) (b * K) -> acc_ok s ->
  zlen q = a * b * (K * MAC) -> zlen kt = a * b * (K * MAC) ->
  (forall t e, 0 <= t < a * K -> 0 <= e < b * K -> tiled_entry kt (b * K) e t = tiled_entry k (a * K) t e) ->
  (forall s' sc, acc_ok s' -> zlen sc = a * a * (K * MAC) ->
     (forall t u, 0 <= t < a * K -> 0 <= u < a * K -> sentry sc (a * K) t u = att_score (sentry q (a * K)) (sentry k (a * K)) (b * K) t u) ->
     Q (s', sc)) ->
  wp (compute_values false (mult_QKT h) q [] [] kt (s, attention_scores h)) Q.
Proof.
  intros Ha Hb Hh Hok Hq Hkt Ht HQ. geometry. rewrite (fh_qkt _ _ _ Hh), (fh_scores _ _ _ Hh), words_div.
  assert (zlen (zeros (a * a * (K * MAC))) = a * a * (K * MAC)) as Hz by (apply zlen_zeros; nia).
  apply (wp_product_entries Hint _ b a); simpl; try done; try lia; try nia; [apply words_ok_zeros|].
  intros s' sc Hok' Hl _ Hsc _. apply HQ; [done|lia|]. intros t u Ht' Hu.
  rewrite Hsc, sentry_zeros, Z.add_0_l by done. unfold att_score. f_equal. apply zsum_ext. intros e He.
  unfold sentry at 2 4. by rewrite Ht.
Qed.

(** The softmax of the scores. *)
Lemma wp_weights a b sc q k (Q : list Z -> Prop) :
  0 <= a -> a * K * 170 < 2 ^ 31 -> zlen sc = a * a * (K * MAC) ->
  (forall t u, 0 <= t < a * K -> 0 <= u < a * K -> sentry sc (a * K) t u = att_score (sentry q (a * K)) (sentry k (a * K)) (b * K) t u) ->
  (forall sc', zlen sc' = a * a * (K * MAC) ->
     (forall t u, 0 <= t < a * K -> 0 <= u < a * K -> sentry sc' (a * K) t u = att_weight (sentry q (a * K)) (sentry k (a * K)) (a * K) (b * K) t u) ->
     Q sc') ->
  wp (softmax_computeRearranged exp (a * K) sc) Q.
Proof.
  intros Ha Hbound Hl Hsc HQ. geometry. pose proof max_act_col_spec as HM.
  unfold softmax_computeRearranged. rewrite Hint.
  apply wp_softmax_computeRearranged_int; [nia|done|unfold elements; rewrite Hl; nia|].
  intros sc' Hs. rewrite Z.div_mul in Hs by lia. pose proof Hs as (Hl' & _). apply HQ; [lia|].
  intros t u Ht Hu. unfold sentry at 1. rewrite (softmaxed_entry a sc sc') by done.
  unfold att_weight. do 2 f_equal.
  - by rewrite <- Hsc, sentry_unsigned.
  - apply zsum_ext. intros u' Hu'. by rewrite <- Hsc, sentry_unsigned.
Qed.

Lemma wp_attend a b h q k v (s : S) out (Q : list Z * list Z * (S * list Z) -> Prop) :
  0 <= a -> 0 <= b -> a * K * 170 < 2 ^ 31 -> fresh_head h (a * K) (b * K) -> acc_ok s ->
  zlen q = a * b * (K * MAC) -> zlen k = a * b * (K * MAC) -> zlen v = a * b * (K * MAC) ->
  a * b * (K * MAC) <= zlen out -> words_ok out ->
  (forall t c, 0 <= t < a * K -> 0 <= c < b * K -> sentry out (a * K) t c = 0) ->
  (forall kt sc s' out', acc_ok s' -> zlen out' = zlen out ->
     (forall t c, 0 <= t < a * K -> 0 <= c < b * K ->
        sentry out' (a * K) t c = att_output (sentry q (a * K)) (sentry k (a * K)) (sentry v (a * K)) (a * K) (b * K) t c) ->
     (forall k, a * b * (K * MAC) <= k < zlen out -> out'.[k] = out.[k]) -> Q (kt, sc, (s', out'))) ->
  wp (attend exp false h (a * K) q k v (s, out)) Q.
Proof.
  intros Ha Hb Hbound Hh Hok Hq Hk Hv Hout Hwo Hzero HQ. geometry. pose proof max_act_col_spec as HM.
  unfold attend. rewrite (fh_seq _ _ _ Hh), (fh_hid _ _ _ Hh). pose proof (fh_kt _ _ _ Hh) as Hkt0.
  rewrite words_div in Hkt0.
  apply wp_bind, wp_transpose_rearranged; rewrite ?Z.div_mul by lia; [nia|nia|lia|lia|].
  intros kt Hkt. pose proof Hkt as [Hlkt _]. apply wp_bind.
  apply (wp_scores a b) with (k := k); try done; [lia| |].
  { intros t e Ht He. eapply rearranged_entry; [done|done|exact Hkt]. }
  intros s1 sc Hok1 Hlsc Hsc. apply wp_bind.
  apply (wp_weights a b sc q k); try done. intros sc' Hlsc' Hsc'. apply wp_bind.
  rewrite (fh_att _ _ _ Hh).
  apply (wp_product_entries Hint _ a b); simpl; try done; try lia; try nia.
  intros s2 o1 Hok2 Hlo1 _ Ho1 Hf1. apply wp_bind. unfold post_softmax. rewrite Hint.
  apply wp_post_softmax_int; [nia|nia|unfold elements; nia|].
  intros o2 Hlo2 Ho2 Hf2. apply wp_ret, HQ; [done|lia| |intros w Hw; rewrite Hf2, Hf1 by nia; done]. intros t c Ht Hc.
  unfold sentry at 1. rewrite entry_uelem by lia.
  assert (0 <= tiled_index (a * K) t (flip c) < a * K * (b * K)) as Hidx.
  { apply tiled_index_bounds; [done|]. by apply flip_bounds. }
  rewrite Ho2, <- entry_uelem by (done || lia). fold (sentry o1 (a * K) t c).
  rewrite Ho1, Hzero, Z.add_0_l by done. etransitivity; [apply wrapS_wrapU|]. unfold att_output, activation_t.
  do 3 f_equal. apply zsum_ext. intros u Hu. by rewrite Hsc'.
Qed.
End Attention.

(** * A layer stores its kernel in one of eight formats

    [stored] and [stored_ptrs] relate a dense kernel to what the encoders of
    [sparse_rep.cc] make of it for a dense layer; [layer_of] is what the rest of
    the program needs to know of a layer: it has no bias and runs the tiles of
    that kernel.  Every stored layer is such a layer, so the theorems about heads
    and blocks hold for every format, and for layers of different formats in
    one block. *)

Section Layer.
Context {cfg : Config}.
Abbreviation K := KERNEL_DIM.
Abbreviation MAC := MAX_ACT_COL.
(** [a] tiles of rows, multiplied by a kernel [w] of [r] by [c] tiles. *)
Context (a r c : Z) (w : list Z).

Definition layer_multiplier (fmt : Format) : SparseMatrixMultiplier := mkMultiplier (r * K) (c * K) (a * K) fmt.

Record layer_of (l : Dense) : Prop := {
  ly_bias : d_bias l = None;
  ly_mult : exists fmt, d_multiplier l = layer_multiplier fmt;
  ly_len : zlen w = r * c * (K * MAC);
  ly_runs : forall S (A : Accelerator S), runs_tiles (d_multiplier l) w (fun input => multiplyweight false l input)
}.

(** The kernel as a layer with one buffer of values holds it: the values, and the
    two further buffers ([flag] and [hidden_flag]). *)
Inductive stored : Format -> list Z -> list Z -> list Z -> Prop :=
| stored_dense fl hid : stored NON_PRUNED w fl hid
| stored_dynamic fl hid : WEIGHT_FP = false -> stored DYNAMIC w fl hid
| stored_interleaved w' fl hid :
    32 <= r -> block_start (layer_multiplier INTERLEAVED) w c <= interleaved_size (r * K) (c * MAX_W_COL) ->
    dense2interleavedMetaData w (r * K) (c * MAX_W_COL) = Some w' -> stored INTERLEAVED w' fl hid
| stored_flags w' fl hid :
    flags_tiles (layer_multiplier WITH_FLAG) w fl ->
    remove_zero_tiles w (r * K) (c * MAX_W_COL) = Some w' -> stored WITH_FLAG w' fl hid
| stored_key w' fl key rest :
    key_free (layer_multiplier HIDDEN_KEY) w key ->
    interleave_hidden_flag_zero_free w (r * K) (c * MAX_W_COL) key = Some w' -> stored HIDDEN_KEY w' fl (key :: rest)
| stored_levels m1 m2 w' m1' m2' :
    c <= zlen m1 -> c * r <= zlen m2 ->
    dense2metaData w (r * K) (c * MAX_W_COL) m1 m2 = Some (w', m1', m2') -> stored META_DATA w' m1' m2'.

(** With pointers to the tiles, which stay in the dense kernel. *)
Inductive stored_ptrs : Format -> list Z -> list Z -> list Z -> Prop :=
| stored_csc cp ri vs nnz cp' ri' vs' :
    c + 1 <= zlen cp -> c * r <= zlen ri -> c * r <= zlen vs ->
    dense2csc w (r * K) (c * MAX_W_COL) cp ri vs = Some (nnz, cp', ri', vs') -> stored_ptrs CSC cp' ri' vs'
| stored_csr ci rp vs nnz ci' rp' vs' :
    r + 1 <= zlen rp -> r * c <= zlen ci -> r * c <= zlen vs ->
    dense2csr w (r * K) (c * MAX_W_COL) ci rp vs = Some (nnz, ci', rp', vs') -> stored_ptrs CSR ci' rp' vs'.

Context {wf : WfConfig cfg}.
Hypothesis Hsame : WEIGHT_BITS = ACTIVATION_BITS.
Hypothesis Hr : 0 <= r.
Hypothesis Hc : 0 <= c.
Hypothesis Hlen : zlen w = r * c * (K * MAC).

Lemma layer_fits fmt :
  fits (layer_multiplier fmt) (r * K) (c * MAX_W_COL) w /\
  tiles_in_row (layer_multiplier fmt) = r /\ tiles_in_col (layer_multiplier fmt) = c.
Proof.
  assert (MAX_W_COL = MAC) as ->.
  { geometry. pose proof max_act_col_spec. pose proof max_w_col_spec as HW.
    assert (W_PER_BUS = ACT_PER_BUS) as E by (unfold W_PER_BUS, ACT_PER_BUS; by rewrite Hsame). rewrite E in HW. nia. }
  by apply whole_tiles_fit.
Qed.

Lemma stored_layer fmt w' fl hid :
  stored fmt w' fl hid -> layer_of (Dense_new_flag (a * K) (r * K) (c * K) w' fl hid fmt).
Proof.
  intros Hs. destruct (layer_fits fmt) as (Hfit & ER & EC). split; [done|by exists fmt|done|]. intros S A. simpl.
  destruct Hs as [fl hid|fl hid Hw|w' fl hid H32 Hsz He|w' fl hid Hfl He|w' fl key rest Hk He|m1 m2 w' m1' m2' H1 H2 He];
    [left; intros input st; by apply (computeNonPruned_ref _ _ _ w Hfit)|right; left; intros input st ..].
  - by apply (computeDynamic_ref _ (r * K) (c * MAX_W_COL)).
  - pattern w'. apply (wp_some _ _ _ He), (wp_dense2interleavedMetaData _ _ _ w Hfit); [by rewrite EC|]. intros nk L1 Hb.
    apply (computeInterleavedMetaData_ref (layer_multiplier INTERLEAVED) (r * K) (c * MAX_W_COL)); simpl; try done; rewrite ?EC, ?ER; lia.
  - pattern w'. apply (wp_some _ _ _ He), (wp_remove_zero_tiles _ _ _ w Hfit). intros nk L1 Hp.
    by apply (computeWithFlag_ref _ (r * K) (c * MAX_W_COL)).
  - pattern w'. apply (wp_some _ _ _ He), (wp_interleave_hidden_flag_zero_free _ _ _ w Hfit). intros nk L1 Hp Hf.
    by apply (computeHiddenKey_ref _ (r * K) (c * MAX_W_COL) w Hfit input key).
  - apply (wp_some _ _ (fun '(w', m1', m2') => computeMetaData _ input m1' m2' w' st = _) He), (wp_dense2metaData _ _ _ w Hfit); [by rewrite EC|by rewrite EC, ER|].
    intros nk n1 n2 L1 L2 L3 Hp Hm1 Hm2.
    apply (computeMetaData_ref (layer_multiplier META_DATA) (r * K) (c * MAX_W_COL)); simpl; try done; rewrite ?EC, ?ER; lia.
Qed.

Lemma stored_ptrs_layer fmt cp rp vs :
  stored_ptrs fmt cp rp vs -> layer_of (Dense_new_ptrs (a * K) (r * K) (c * K) w cp rp vs fmt).
Proof.
  intros Hs. destruct (layer_fits fmt) as (Hfit & ER & EC). split; [done|by exists fmt|done|]. intros S A. simpl. right.
  destruct Hs as [cp ri vs nnz cp' ri' vs' H1 H2 H3 He|ci rp vs nnz ci' rp' vs' H1 H2 H3 He]; [left|right]; intros input st.
  - apply (wp_some _ _ (fun '(_, cp', ri', vs') => computeCSC _ input cp' ri' w vs' st = _) He), (wp_dense2csc _ _ _ w Hfit); [by rewrite EC|by rewrite EC, ER ..|].
    intros cp2 ri2 vs2 L1 L2 L3 Hp Hr2. apply (computeCSC_ref (layer_multiplier CSC) (r * K) (c * MAX_W_COL)); simpl; try done; rewrite ?EC, ?ER; lia.
  - apply (wp_some _ _ (fun '(_, ci', rp', vs') => computeCSR _ input ci' rp' w vs' st = _) He), (wp_dense2csr _ _ _ w Hfit); [by rewrite ER|by rewrite EC, ER ..|].
    intros ci2 rp2 vs2 L1 L2 L3 Hp Hr2. apply (computeCSR_ref (layer_multiplier CSR) (r * K) (c * MAX_W_COL)); simpl; try done; rewrite ?EC, ?ER; lia.
Qed.
End Layer.
