(* ===== verification/BlockCorrect.v ===== *)
(** * BlockCorrect: the encoder block computes the encoder

    The reference semantics of the encoder block is a composition of functions on
    matrices of activations ([Z -> Z -> Z]): projections, attention per head,
    concatenation of the heads, residual normalisation and the feed-forward
    part.  The lemmas here show that [Block_compute] leaves that composition in
    its output buffer, for integer activations and weights of the same width,
    on any accelerator that satisfies the interface. *)

From stdpp Require Import prelude.
From Stdlib Require Import ZArith Lia.
From S2P Require Import Prelude Machine Float32 Systolic SystolicCorrect Accelerator SmmGem SparseMM TileProduct MatMul Transpose Rows.
From S2P Require Import Softmax AddNorm Dense SelfAttention TransformerBlock AttentionCorrect.

(** ** Reference semantics *)

Section Reference.
Context {cfg : Config}.
Implicit Types X Y W : Z -> Z -> Z.

(** The product of [X] and [W] over [n] columns, at the width of an activation. *)
Definition project (n : Z) X W (t c : Z) : Z := activation_t (zsum (fun e => X t e * W e c) n).

(** One row after the residual addition, its mean and its scale. *)
Definition residual_row X Y (t p : Z) : Z := activation_t (Y t p + X t p).
Definition mean_at (dim : Z) X Y (t : Z) : Z := default 0 (mean_of (row_total (residual_row X Y t) dim) dim).
Definition scale_at (dim : Z) X Y (t : Z) : option Z :=
  sd_inv_of (Z.quot (row_variance (residual_row X Y t) dim (mean_at dim X Y t)) dim).

(** The residual normalisation of [Y] with the input [X]. *)
Definition normalise (dim : Z) X Y (t c : Z) : Z :=
  activation_t (norm_value (mean_at dim X Y t) (default 0 (scale_at dim X Y t)) (residual_row X Y t c)).

(** Every row has a scale: the conversion of the reciprocal deviation to an
    integer is defined. *)
Definition scalable (seq dim : Z) X Y : Prop := forall t, 0 <= t < seq -> is_Some (scale_at dim X Y t).

(** The block on an input [X] with the weight matrices [W 0], [W 1], ... in the
    order of the weight vector: query, key and value of every head, then the
    condensing layer and the two feed-forward layers. *)
Section Block.
Context (seq dim hid ff heads : Z) (W : Z -> Z -> Z -> Z) (X : Z -> Z -> Z).

Definition head_ref (n : Z) : Z -> Z -> Z :=
  att_output (project dim X (W (n * 3))) (project dim X (W (n * 3 + 1))) (project dim X (W (n * 3 + 2))) seq hid.

Definition multihead_ref (t c : Z) : Z := head_ref (c / hid) t (c mod hid).
Definition condense_ref : Z -> Z -> Z := project (heads * hid) multihead_ref (W (heads * 3)).
Definition attended_ref : Z -> Z -> Z := normalise dim X condense_ref.
Definition ff_ref : Z -> Z -> Z :=
  project ff (project dim attended_ref (W (heads * 3 + 1))) (W (heads * 3 + 2)).
Definition block_ref : Z -> Z -> Z := normalise dim attended_ref ff_ref.
End Block.

(** ** The references depend on the entries of their matrices only *)

Lemma project_ext n X X' W t c :
  (forall e, 0 <= e < n -> X t e = X' t e) -> project n X W t c = project n X' W t c.
Proof. intros HX. unfold project. f_equal. apply zsum_ext. intros e He. by rewrite HX. Qed.

Lemma att_score_ext q q' k k' seq hid t u :
  (forall e, 0 <= e < hid -> q t e = q' t e) ->
  (forall u e, 0 <= u < seq -> 0 <= e < hid -> k u e = k' u e) -> 0 <= u < seq ->
  att_score q k hid t u = att_score q' k' hid t u.
Proof. intros Hq Hk Hu. unfold att_score. f_equal. apply zsum_ext. intros e He. by rewrite Hq, Hk. Qed.

Lemma att_output_ext q q' k k' v v' seq hid t c :
  (forall t e, 0 <= t < seq -> 0 <= e < hid -> q t e = q' t e) ->
  (forall u e, 0 <= u < seq -> 0 <= e < hid -> k u e = k' u e) ->
  (forall u e, 0 <= u < seq -> 0 <= e < hid -> v u e = v' u e) ->
  0 <= t < seq -> 0 <= c < hid -> att_output q k v seq hid t c = att_output q' k' v' seq hid t c.
Proof.
  intros Hq Hk Hv Ht Hc. unfold att_output. do 3 f_equal. apply zsum_ext. intros u Hu. rewrite Hv by done. f_equal.
  assert (forall u, 0 <= u < seq -> att_score q k hid t u = att_score q' k' hid t u) as Hs.
  { intros w Hw. apply (att_score_ext _ _ _ _ seq); auto. }
  unfold att_weight. rewrite Hs by done. do 2 f_equal. apply zsum_ext. intros w Hw. by rewrite Hs.
Qed.

Lemma residual_row_ext X X' Y Y' t p : X t p = X' t p -> Y t p = Y' t p -> residual_row X Y t p = residual_row X' Y' t p.
Proof. unfold residual_row. by intros -> ->. Qed.

Section Rows.
Context (dim : Z) (X X' Y Y' : Z -> Z -> Z) (t : Z).
Hypothesis HX : forall p, 0 <= p < dim -> X t p = X' t p.
Hypothesis HY : forall p, 0 <= p < dim -> Y t p = Y' t p.

Lemma mean_at_ext : mean_at dim X Y t = mean_at dim X' Y' t.
Proof.
  unfold mean_at, row_total. rewrite (zsum_ext _ (residual_row X' Y' t)); [done|].
  intros p Hp. apply residual_row_ext; auto.
Qed.

Lemma scale_at_ext : scale_at dim X Y t = scale_at dim X' Y' t.
Proof.
  unfold scale_at, row_variance. rewrite mean_at_ext.
  rewrite (zsum_ext _ (fun p => Z.lxor (int32 (residual_row X' Y' t p - mean_at dim X' Y' t)) 2)); [done|].
  intros p Hp. by rewrite (residual_row_ext X X' Y Y') by auto.
Qed.

Lemma normalise_ext c : 0 <= c < dim -> normalise dim X Y t c = normalise dim X' Y' t c.
Proof.
  intros Hc. unfold normalise. rewrite mean_at_ext, scale_at_ext. by rewrite (residual_row_ext X X' Y Y') by auto.
Qed.
End Rows.
End Reference.

(** ** Buffers in pieces *)

Section Pieces.
Context {cfg : Config} {wf : WfConfig cfg}.
Abbreviation K := KERNEL_DIM.
Abbreviation MAC := MAX_ACT_COL.
Abbreviation APB := ACT_PER_BUS.

Lemma nthZ_app (l1 l2 : list Z) i : (l1 ++ l2).[i] = if i <? zlen l1 then l1.[i] else l2.[i - zlen l1].
Proof.
  unfold nthZ. destruct (Z.ltb_spec i (zlen l1)); [by rewrite aget_app_l|by rewrite aget_app_r].
Qed.

Lemma zlen_take (l : list Z) n : 0 <= n <= zlen l -> zlen (take (Z.to_nat n) l) = n.
Proof. unfold zlen. intros H. rewrite length_take. lia. Qed.

Lemma zlen_drop (l : list Z) n : 0 <= n <= zlen l -> zlen (drop (Z.to_nat n) l) = zlen l - n.
Proof. unfold zlen. intros H. rewrite length_drop. lia. Qed.

(** A buffer whose words from [n] on are zero. *)
Lemma drop_zeros (l : list Z) n :
  0 <= n <= zlen l -> (forall k, n <= k < zlen l -> l.[k] = 0) -> drop (Z.to_nat n) l = zeros (zlen l - n).
Proof.
  intros Hn Hz. apply list_eq_nthZ; rewrite zlen_drop by done; [by rewrite zlen_zeros by lia|].
  intros i Hi. rewrite nthZ_zeros. rewrite <- (Hz (n + i)) by lia.
  rewrite <- (take_drop (Z.to_nat n) l) at 2. rewrite nthZ_app, zlen_take by done. zcases; [lia|]. f_equal. lia.
Qed.

(** The word of an entry, relative to a number of whole tile columns. *)
Lemma entry_word_bounds n t e :
  0 <= t < n -> 0 <= e ->
  e / K * (MAC * n) <= e / K * (MAC * n) + t * MAC + e mod K / APB < (e / K + 1) * (MAC * n).
Proof.
  intros Ht He. geometry. assert (0 <= e mod K < K) as Hm by (apply Z.mod_pos_bound; lia).
  pose proof max_act_col_spec as HM.
  assert (0 <= e mod K / APB < MAC) by (split; [apply Z.div_pos; lia|apply Z.div_lt_upper_bound; nia]). nia.
Qed.

Lemma sentry_app_l l1 l2 g n t e :
  zlen l1 = g * (MAC * n) -> 0 <= t < n -> 0 <= e < g * K -> sentry (l1 ++ l2) n t e = sentry l1 n t e.
Proof.
  intros Hl Ht He. geometry. pose proof (entry_word_bounds n t e Ht (proj1 He)) as Hb.
  assert (e / K < g) by (apply Z.div_lt_upper_bound; lia).
  unfold sentry, tiled_entry. rewrite nthZ_app. destruct (Z.ltb_spec
    (e / K * (MAC * n) + t * MAC + e mod K / APB) (zlen l1)); [done|nia].
Qed.

Lemma sentry_app_r l1 l2 g n t e :
  zlen l1 = g * (MAC * n) -> 0 <= t < n -> 0 <= e -> sentry (l1 ++ l2) n t (g * K + e) = sentry l2 n t e.
Proof.
  intros Hl Ht He. geometry. pose proof (entry_word_bounds n t e Ht He) as Hb.
  assert (0 <= e / K) by (apply Z.div_pos; lia).
  unfold sentry, tiled_entry. rewrite (Z.add_comm (g * K)), Z.div_add, Z.mod_add by lia. rewrite nthZ_app.
  destruct (Z.ltb_spec ((e / K + g) * (MAC * n) + t * MAC + e mod K / APB) (zlen l1)); [nia|].
  do 3 f_equal. lia.
Qed.
End Pieces.

(** ** Layers and heads *)

Section Layers.
Context {cfg : Config} {wf : WfConfig cfg} {S : Type} {A : Accelerator S} {L : AcceleratorLaws (cfg := cfg) S}.
Abbreviation K := KERNEL_DIM.
Abbreviation MAC := MAX_ACT_COL.
Hypothesis Hint : ACTIVATION_FP = false.
Hypothesis Hsame : WEIGHT_BITS = ACTIVATION_BITS.
Variable exp : f64 -> f64.

(** A layer into a zeroed buffer. *)
Lemma wp_layer a d b w l input n (s : S) (Q : S * list Z -> Prop) :
  0 <= a -> 0 <= d -> 0 <= b -> layer_of a d b w l -> a * d * (K * MAC) <= zlen input ->
  a * b * (K * MAC) <= n -> acc_ok s ->
  (forall s' out, acc_ok s' -> zlen out = n ->
     (forall t c, 0 <= t < a * K -> 0 <= c < b * K ->
        sentry out (a * K) t c = project (d * K) (sentry input (a * K)) (sentry w (d * K)) t c) -> Q (s', out)) ->
  wp (Dense_compute false l (a * K) input (s, zeros n)) Q.
Proof.
  intros Ha Hd Hb [Hbias [fmt Hm] Hw Hrun] Hi Hn Hok HQ. geometry. unfold Dense_compute. rewrite Hbias. apply wp_bind.
  assert (zlen (zeros n) = n) as Hz by (apply zlen_zeros; nia). specialize (Hrun S A). rewrite Hm in Hrun.
  apply (wp_run_entries Hint (layer_multiplier a d b fmt) d b w input (fun input => multiplyweight false l input)); simpl;
    try done; try lia; try nia; [apply words_ok_zeros|].
  intros s' out Hok' Hl _ Ho _. apply wp_ret, HQ; [done|lia|]. intros t c Ht Hc.
  rewrite Ho, sentry_zeros by done. by rewrite Z.add_0_l.
Qed.

(** A new head, into a zeroed buffer that may be longer than what the head
    writes. *)
Lemma wp_head a b d dq dk dv wq wk wv input n (s : S) (Q : SingleHeadSelfAttn * (S * list Z) -> Prop) :
  0 <= a -> 0 <= b -> 0 <= d -> a * K * 170 < 2 ^ 31 ->
  layer_of a d b wq dq -> layer_of a d b wk dk -> layer_of a d b wv dv ->
  a * d * (K * MAC) <= zlen input -> acc_ok s -> a * b * (K * MAC) <= n ->
  (forall h' s' out, acc_ok s' -> zlen out = n ->
     (forall t c, 0 <= t < a * K -> 0 <= c < b * K ->
        let X := sentry input (a * K) in
        sentry (query_layer_out h') (a * K) t c = project (d * K) X (sentry wq (d * K)) t c /\
        sentry (key_layer_out h') (a * K) t c = project (d * K) X (sentry wk (d * K)) t c /\
        sentry (value_layer_out h') (a * K) t c = project (d * K) X (sentry wv (d * K)) t c /\
        sentry out (a * K) t c =
          att_output (project (d * K) X (sentry wq (d * K))) (project (d * K) X (sentry wk (d * K)))
            (project (d * K) X (sentry wv (d * K))) (a * K) (b * K) t c) ->
     (forall k, a * b * (K * MAC) <= k < n -> out.[k] = 0) -> Q (h', (s', out))) ->
  wp (Head_compute exp false (Head_base (a * K) (d * K) (b * K) dq dk dv) (a * K) input (s, zeros n)) Q.
Proof.
  intros Ha Hb Hd Hseq Lq Lk Lv Hi Hok Hn HQ. geometry.
  assert (zlen (zeros n) = n) as Hz by (apply zlen_zeros; nia).
  unfold Head_compute. simpl query_layer. simpl key_layer. simpl value_layer.
  simpl query_layer_out at 1. simpl key_layer_out at 1. simpl value_layer_out at 1. rewrite !words_div.
  apply wp_bind, (wp_layer a d b wq); try done. intros s1 q Hs1 Lq' Hq.
  apply wp_bind, (wp_layer a d b wk); try done. intros s2 k Hs2 Lk' Hk.
  apply wp_bind, (wp_layer a d b wv); try done. intros s3 v Hs3 Lv' Hv.
  apply wp_bind, (wp_attend Hint Hsame exp a b); try done; try lia;
    [apply Head_base_fresh; nia|apply words_ok_zeros|intros; apply sentry_zeros|].
  intros kt sc s' out' Hs' Hl Ho Hf. apply wp_ret, HQ; [done|lia| |].
  - intros t c Ht Hc X. simpl. rewrite Hq, Hk, Hv, Ho by done. do 3 (split; [done|]).
    by apply att_output_ext.
  - intros w Hw. rewrite Hf by lia. apply nthZ_zeros.
Qed.
End Layers.

(** ** The loop over the heads *)

Section Heads.
Context {cfg : Config} {wf : WfConfig cfg} {S : Type} {A : Accelerator S} {L : AcceleratorLaws (cfg := cfg) S}.
Abbreviation K := KERNEL_DIM.
Abbreviation MAC := MAX_ACT_COL.
Hypothesis Hint : ACTIVATION_FP = false.
Hypothesis Hsame : WEIGHT_BITS = ACTIVATION_BITS.
Hypothesis Hbits : ACTIVATION_BITS = 8.
Variable exp : f64 -> f64.

Lemma build_heads_Some H head hs :
  0 <= H -> build_heads H head = Some hs ->
  zlen hs = H /\ forall n, 0 <= n < H -> exists h, aget hs n = Some h /\ head n = Some h.
Proof.
  intros HH E. unfold build_heads in E.
  apply (for_up_Some (fun k hs => zlen hs = k /\ forall n, 0 <= n < k -> exists h, aget hs n = Some h /\ head n = Some h)
    0 H _ _ _ HH E).
  - split; [done|]. intros n Hn. lia.
  - intros i l l1 Hi [Hl Hh] E1. apply bind_Some in E1 as (_ & _ & E1). apply bind_Some in E1 as (h & Eh & [= <-]).
    split; [rewrite zlen_app, Hl; done|]. intros n Hn. destruct (Z.eq_dec n i) as [->|].
    + exists h. split; [|done]. rewrite aget_app_r by lia. by replace (i - zlen l) with 0 by lia.
    + destruct (Hh n) as (h' & E1 & E2); [lia|]. exists h'. split; [|done]. by rewrite aget_app_l by lia.
Qed.

(** Writing through a pointer into a buffer whose rest is still zero. *)
Lemma wp_with_offset {X} off buf (f : list Z -> option (X * list Z)) (Q : X * list Z -> Prop) :
  0 <= off <= zlen buf -> (forall k, off <= k < zlen buf -> buf.[k] = 0) ->
  wp (f (zeros (zlen buf - off))) (fun '(x, tail) => Q (x, take (Z.to_nat off) buf ++ tail)) ->
  wp (with_offset off buf f) Q.
Proof.
  intros Hoff Hz Hf. unfold with_offset. destruct (Z.leb_spec 0 off); [|lia]. destruct (Z.leb_spec off (zlen buf)); [|lia].
  cbn [andb]. apply wp_bind. rewrite drop_zeros by done. eapply wp_mono; [exact Hf|]. intros [x tail] HQ. by apply wp_ret.
Qed.

(** [seq_len * head_hidden_size_ >> 2] is the size of a head's output for 8-bit
    activations. *)
Lemma head_words a b : Z.shiftr (a * K * (b * K)) 2 = a * b * (K * MAC).
Proof.
  rewrite Z.shiftr_div_pow2 by lia. rewrite <- words_div. f_equal. unfold ACT_PER_BUS. rewrite Hbits. done.
Qed.

(** Entry [i] of the weight vector, as a matrix of [rows] rows. *)
Definition weight_at (ws : list (list Z)) (rows i : Z) : Z -> Z -> Z := sentry (default [] (aget ws i)) rows.

(** Entry [i] of the weight vector is the kernel of the layer [l]. *)
Definition layer_at (a : Z) (ws : list (list Z)) (i r c : Z) (l : Dense) : Prop :=
  exists w, aget ws i = Some w /\ layer_of a r c w l.

(** Head [n] is a new head with the layers of its three entries. *)
Definition head_at (a b d : Z) (ws : list (list Z)) (n : Z) (h : SingleHeadSelfAttn) : Prop :=
  exists dq dk dv, h = Head_base (a * K) (d * K) (b * K) dq dk dv /\
    layer_at a ws (n * 3) d b dq /\ layer_at a ws (n * 3 + 1) d b dk /\ layer_at a ws (n * 3 + 2) d b dv.

Lemma aget_drop {X} (l : list X) n i : 0 <= n -> 0 <= i -> aget (drop (Z.to_nat n) l) i = aget l (n + i).
Proof.
  intros Hn Hi. unfold aget. destruct (Z.ltb_spec i 0), (Z.ltb_spec (n + i) 0); try lia.
  rewrite lookup_drop. f_equal. lia.
Qed.

Section Loop.
Context (a b d H N : Z) (ws : list (list Z)) (input : list Z) (blk : TransformerBlock).
Hypothesis Ha : 0 <= a.
Hypothesis Hb : 0 <= b.
Hypothesis Hd : 0 <= d.
Hypothesis HH : 0 <= H.
Hypothesis Hseq : a * K * 170 < 2 ^ 31.
Hypothesis Hinput : a * d * (K * MAC) <= zlen input.
Hypothesis HN : H * (a * b * (K * MAC)) <= N.
Hypothesis Hheads : num_heads_ blk = H.
Hypothesis Hhid : block_head_hidden_size blk = b * K.
Hypothesis Hbuilt : zlen (selfatten blk) = H /\ forall n, 0 <= n < H -> exists h, aget (selfatten blk) n = Some h /\ head_at a b d ws n h.

Abbreviation ref := (multihead_ref (a * K) (d * K) (b * K) (weight_at ws (d * K)) (sentry input (a * K))).
Abbreviation words := (a * b * (K * MAC)).

(** The first [k] heads have run. *)
Record heads_done (k : Z) (hs : list SingleHeadSelfAttn) (s : S) (out : list Z) : Prop := {
  hd_heads : zlen hs = H;
  hd_rest : forall n, k <= n -> aget hs n = aget (selfatten blk) n;
  hd_acc : acc_ok s;
  hd_len : zlen out = N;
  hd_zero : forall w, k * words <= w < N -> out.[w] = 0;
  hd_out : forall t c, 0 <= t < a * K -> 0 <= c < k * (b * K) -> sentry out (a * K) t c = ref t c
}.

(** The output of head [k] goes behind those of the first [k] heads. *)
Lemma heads_done_append k hs h s s' out tail :
  0 <= k < H -> heads_done k hs s out -> acc_ok s' -> zlen tail = N - k * words ->
  (forall t c, 0 <= t < a * K -> 0 <= c < b * K ->
     sentry tail (a * K) t c = head_ref (a * K) (d * K) (b * K) (weight_at ws (d * K)) (sentry input (a * K)) k t c) ->
  (forall w, words <= w < N - k * words -> tail.[w] = 0) ->
  heads_done (k + 1) (<[Z.to_nat k := h]> hs) s' (take (Z.to_nat (k * words)) out ++ tail).
Proof.
  intros Hk [H1 H2 H3 H4 H5 H6] Hs Hl Ht Hz. geometry.
  assert (0 <= k * words <= zlen out) as Hoff by (rewrite H4; nia).
  assert (zlen (take (Z.to_nat (k * words)) out) = k * b * (MAC * (a * K))) as Hlt by (rewrite zlen_take by done; lia).
  split.
  - by rewrite zlen_insert.
  - intros n Hn. rewrite aget_insert by lia. destruct (Z.eqb_spec n k); [lia|]. apply H2. lia.
  - done.
  - rewrite zlen_app, zlen_take by done. lia.
  - intros w Hw. rewrite nthZ_app, zlen_take by done. destruct (Z.ltb_spec w (k * words)); [nia|]. apply Hz. nia.
  - intros t c Ht' Hc. destruct (Z.ltb_spec c (k * (b * K))).
    + rewrite (sentry_app_l _ _ (k * b)) by (done || lia). rewrite <- H6 by lia.
      rewrite <- (take_drop (Z.to_nat (k * words)) out) at 2. by rewrite (sentry_app_l _ _ (k * b)) by (done || lia).
    + replace c with (k * b * K + (c - k * (b * K))) at 1 by lia. rewrite (sentry_app_r _ _ (k * b)) by (done || lia).
      rewrite Ht by lia. unfold multihead_ref.
      by destruct (div_mod_unique c (b * K) k (c - k * (b * K))) as [-> ->]; [lia|lia|].
Qed.

Lemma wp_heads (s : S) (Q : list SingleHeadSelfAttn * S * list Z -> Prop) :
  acc_ok s -> (forall hs s' out, heads_done H hs s' out -> Q (hs, s', out)) ->
  wp (heads_compute exp false blk (a * K) input (selfatten blk, s, zeros N)) Q.
Proof.
  intros Hok HQ. geometry. destruct Hbuilt as [Hlen Hnew]. unfold heads_compute. rewrite Hheads, Hhid, head_words.
  assert (zlen (zeros N) = N) as HzN by (apply zlen_zeros; nia).
  apply (wp_for_up (fun k '(hs, s, out) => heads_done k hs s out)); [done| | |intros [[hs s'] out] HD; by apply HQ].
  - split; try done; [intros; apply nthZ_zeros|]. intros t c Ht Hc. lia.
  - intros k [[hs s1] out] Hk HD. destruct (Hnew k Hk) as (h & Eh & dq & dk & dv & -> & (wq & Eq & Lq) & (wk & Ek & Lk) & (wv & Ev & Lv)).
    eapply wp_bind, wp_get_eq; [rewrite (hd_rest _ _ _ _ HD) by lia; exact Eh|].
    apply wp_bind, wp_with_offset; [rewrite (hd_len _ _ _ _ HD); nia| |].
    { rewrite (hd_len _ _ _ _ HD). apply (hd_zero _ _ _ _ HD). }
    rewrite (hd_len _ _ _ _ HD). apply wp_bind.
    eapply (wp_head Hint Hsame exp a b d dq dk dv wq wk wv); try done; try nia; [apply (hd_acc _ _ _ _ HD)|].
    intros h' s' tail Hs' Hl Ht Hz. apply wp_ret. eapply wp_bind, wp_get_eq.
    { apply aset_spec. rewrite (hd_heads _ _ _ _ HD). lia. }
    apply wp_ret. apply (heads_done_append k _ _ s1); try done. intros t c Ht' Hc.
    destruct (Ht t c Ht' Hc) as (_ & _ & _ & ->). unfold head_ref, weight_at. by rewrite Eq, Ek, Ev.
Qed.
End Loop.
End Heads.

(** ** Residual normalisation *)

Section Norm.
Context {cfg : Config} {wf : WfConfig cfg}.
Abbreviation K := KERNEL_DIM.
Abbreviation MAC := MAX_ACT_COL.
Context (a d : Z) (input output : list Z).
Hypothesis Ha : 0 <= a.
Hypothesis Hd : 0 < d.
Abbreviation layer := (mkAddNormalize (a * K) (d * K) K MAC).
Abbreviation X := (sentry input (a * K)).
Abbreviation Y := (sentry output (a * K)).

Lemma residual_row_tiled t e : 0 <= e -> residual_row X Y t e = tiled_residual layer input output t (flip e).
Proof. intros He. unfold residual_row, tiled_residual, residual, selem, sentry. by rewrite !entry_uelem by done. Qed.

(** The order of the lanes does not matter for the sums over a row. *)
Lemma residual_row_sum f t :
  zsum (fun e => f (tiled_residual layer input output t e)) (d * K) = zsum (fun e => f (residual_row X Y t e)) (d * K).
Proof.
  rewrite <- (zsum_flip (fun e => f (tiled_residual layer input output t e))) by lia.
  apply zsum_ext. intros e He. by rewrite residual_row_tiled by lia.
Qed.

Lemma row_scale t :
  is_Some (scale_at (d * K) X Y t) ->
  mean_of (row_total (tiled_residual layer input output t) (d * K)) (d * K) = Some (mean_at (d * K) X Y t) /\
  sd_inv_of (Z.quot (row_variance (tiled_residual layer input output t) (d * K) (mean_at (d * K) X Y t)) (d * K)) =
    Some (default 0 (scale_at (d * K) X Y t)).
Proof.
  intros [sd Hsd]. geometry. split.
  - unfold mean_at, row_total. rewrite (residual_row_sum (fun x => x)). unfold mean_of.
    destruct (Z.eqb_spec (d * K) 0); [nia|done].
  - rewrite Hsd. change (default 0 (Some sd)) with sd. rewrite <- Hsd. unfold scale_at, row_variance.
    by rewrite (residual_row_sum (fun x => Z.lxor (int32 (x - mean_at (d * K) X Y t)) 2)).
Qed.

Lemma wp_normalise (Q : list Z -> Prop) :
  ACTIVATION_FP = false -> a * d * (K * MAC) <= zlen input -> a * d * (K * MAC) <= zlen output ->
  scalable (a * K) (d * K) X Y ->
  (forall out, zlen out = zlen output ->
     (forall t c, 0 <= t < a * K -> 0 <= c < d * K -> sentry out (a * K) t c = normalise (d * K) X Y t c) -> Q out) ->
  wp (addnorm_computeRearranged layer input output) Q.
Proof.
  intros Hint Hi Ho Hsc HQ. geometry. pose proof max_act_col_spec as HM.
  unfold addnorm_computeRearranged. rewrite Hint.
  apply (wp_addnorm_rearranged layer input output) with (mean := mean_at (d * K) X Y) (sd_inv := fun t => default 0 (scale_at (d * K) X Y t));
    simpl; try done; [nia|nia|apply Z.mod_mul; lia|unfold elements; nia|unfold elements; nia| |].
  - intros t Ht. apply row_scale. by apply Hsc.
  - intros out Hl Hout. apply HQ; [done|]. intros t c Ht Hc. unfold sentry at 1. rewrite entry_uelem by lia.
    rewrite Hout by (done || by apply flip_bounds). rewrite <- residual_row_tiled by lia.
    apply wrapS_wrapU.
Qed.
End Norm.

(** ** The block *)

Section Block.
Context {cfg : Config} {wf : WfConfig cfg} {S : Type} {A : Accelerator S} {L : AcceleratorLaws (cfg := cfg) S}.
Abbreviation K := KERNEL_DIM.
Abbreviation MAC := MAX_ACT_COL.
Hypothesis Hint : ACTIVATION_FP = false.
Hypothesis Hsame : WEIGHT_BITS = ACTIVATION_BITS.
Hypothesis Hbits : ACTIVATION_BITS = 8.
Variable exp : f64 -> f64.

(** Sizes in tiles: sequence length, head size, model dimension, feed-forward
    dimension; and the number of heads. *)
Context (a b d f H : Z) (ws : list (list Z)).

(** The number of rows of entry [i] of the weight vector. *)
Definition weight_rows (i : Z) : Z :=
  if i =? H * 3 then H * (b * K) else if i =? H * 3 + 2 then f * K else d * K.
Definition weight_matrix (i : Z) : Z -> Z -> Z := weight_at ws (weight_rows i) i.

(** The buffers of a run: zeroed and large enough. *)
Record zero_buffers (bufs : BlockBuffers) : Prop := {
  zb_multihead : exists n, bb_multihead bufs = zeros n /\ H * (a * b * (K * MAC)) <= n;
  zb_condense : exists n, bb_condense bufs = zeros n /\ a * d * (K * MAC) <= n;
  zb_ff : exists n, bb_ff bufs = zeros n /\ a * f * (K * MAC) <= n;
  zb_output : exists n, bb_output bufs = zeros n /\ a * d * (K * MAC) <= n
}.

(** A new block whose layers have the kernels of the weight vector. *)
Record layered_block (blk : TransformerBlock) : Prop := {
  lb_heads : num_heads_ blk = H;
  lb_hid : block_head_hidden_size blk = b * K;
  lb_norm : addNorm blk = mkAddNormalize (a * K) (d * K) K MAC;
  lb_built : zlen (selfatten blk) = H /\ forall n, 0 <= n < H -> exists h, aget (selfatten blk) n = Some h /\ head_at a b d ws n h;
  lb_condense : layer_at a ws (H * 3) (H * b) d (condense blk);
  lb_ff0 : layer_at a ws (H * 3 + 1) d f (feedForward0 blk);
  lb_ff1 : layer_at a ws (H * 3 + 2) f d (feedForward1 blk)
}.

Section Run.
Context (input : list Z).
Abbreviation X := (sentry input (a * K)).
Abbreviation multihead := (multihead_ref (a * K) (d * K) (b * K) weight_matrix X).
Abbreviation condensed := (condense_ref (a * K) (d * K) (b * K) H weight_matrix X).
Abbreviation attended := (attended_ref (a * K) (d * K) (b * K) H weight_matrix X).
Abbreviation fed := (ff_ref (a * K) (d * K) (b * K) (f * K) H weight_matrix X).
Abbreviation result := (block_ref (a * K) (d * K) (b * K) (f * K) H weight_matrix X).

(** Both normalisations of the block are defined. *)
Definition block_scalable : Prop :=
  scalable (a * K) (d * K) X condensed /\ scalable (a * K) (d * K) attended fed.

Hypothesis Ha : 0 <= a.
Hypothesis Hb : 0 <= b.
Hypothesis Hd : 0 < d.
Hypothesis Hf : 0 <= f.
Hypothesis HH : 0 <= H.

(** The weights of the heads have the model dimension as their number of rows. *)
Lemma multihead_weights t c :
  0 <= c < H * (b * K) ->
  multihead_ref (a * K) (d * K) (b * K) (weight_at ws (d * K)) X t c = multihead t c.
Proof.
  intros Hc. geometry. unfold multihead_ref. set (n := c / (b * K)).
  assert (0 < b * K) as Hp by nia.
  assert (0 <= n < H) by (split; [apply Z.div_pos; lia|apply Z.div_lt_upper_bound; nia]).
  unfold head_ref, weight_matrix, weight_rows.
  repeat match goal with |- context [?x =? ?y] => destruct (Z.eqb_spec x y); [lia|] end. done.
Qed.

(** One layer of the block on a buffer whose entries are known. *)
Lemma wp_block_layer r c i l buf n (M : Z -> Z -> Z) (s : S) (Q : S * list Z -> Prop) :
  0 <= r -> 0 <= c -> layer_at a ws i r c l -> weight_rows i = r * K ->
  a * r * (K * MAC) <= zlen buf -> a * c * (K * MAC) <= n -> acc_ok s ->
  (forall t e, 0 <= t < a * K -> 0 <= e < r * K -> sentry buf (a * K) t e = M t e) ->
  (forall s' out, acc_ok s' -> zlen out = n ->
     (forall t e, 0 <= t < a * K -> 0 <= e < c * K ->
        sentry out (a * K) t e = project (r * K) M (weight_matrix i) t e) -> Q (s', out)) ->
  wp (Dense_compute false l (a * K) buf (s, zeros n)) Q.
Proof.
  intros Hr Hc (w & Ew & Hl) Erows Hbuf Hn Hok HM HQ.
  apply (wp_layer Hint Hsame a r c w); try done. intros s' out Hs' Hlo Hout. apply HQ; [done|done|].
  intros t e Ht He. rewrite Hout by done. unfold weight_matrix, weight_at. rewrite Ew, Erows.
  apply project_ext. auto.
Qed.

(** One normalisation of the block. *)
Lemma wp_block_norm buf out (M N : Z -> Z -> Z) (Q : list Z -> Prop) :
  a * d * (K * MAC) <= zlen buf -> a * d * (K * MAC) <= zlen out -> scalable (a * K) (d * K) M N ->
  (forall t e, 0 <= t < a * K -> 0 <= e < d * K -> sentry buf (a * K) t e = M t e) ->
  (forall t e, 0 <= t < a * K -> 0 <= e < d * K -> sentry out (a * K) t e = N t e) ->
  (forall out', zlen out' = zlen out ->
     (forall t e, 0 <= t < a * K -> 0 <= e < d * K -> sentry out' (a * K) t e = normalise (d * K) M N t e) -> Q out') ->
  wp (addnorm_computeRearranged (mkAddNormalize (a * K) (d * K) K MAC) buf out) Q.
Proof.
  intros Hbuf Hout Hsc HM HN HQ. apply (wp_normalise a d); try done.
  - intros t Ht. rewrite (scale_at_ext (d * K) _ M _ N) by auto. by apply Hsc.
  - intros out' Hl Ho. apply HQ; [done|]. intros t e Ht He. rewrite Ho by done. apply normalise_ext; auto.
Qed.

Lemma wp_block blk bufs (s : S) (Q : TransformerBlock * S * BlockBuffers -> Prop) :
  a * K * 170 < 2 ^ 31 -> layered_block blk -> zero_buffers bufs ->
  a * d * (K * MAC) <= zlen input -> acc_ok s -> block_scalable ->
  (forall hs s' bufs', acc_ok s' -> zlen (bb_output bufs') = zlen (bb_output bufs) ->
     (forall t c, 0 <= t < a * K -> 0 <= c < H * (b * K) -> sentry (bb_multihead bufs') (a * K) t c = multihead t c) ->
     (forall t c, 0 <= t < a * K -> 0 <= c < d * K -> sentry (bb_condense bufs') (a * K) t c = attended t c) ->
     (forall t c, 0 <= t < a * K -> 0 <= c < d * K -> sentry (bb_output bufs') (a * K) t c = result t c) ->
     Q (set_heads blk hs, s', bufs')) ->
  wp (Block_compute exp false blk (a * K) input s bufs) Q.
Proof.
  intros Hseq [B1 B2 B3 B4 B5 B6 B7]
    [(nm & Zm & Lm) (nc & Zc & Lc) (nf & Zf & Lf) (no & Zo & Lo)] Hin Hok [Hsc1 Hsc2] HQ. geometry.
  assert (zlen (bb_output bufs) = no) as Lo' by (rewrite Zo; apply zlen_zeros; nia).
  unfold Block_compute. rewrite Zm, Zc, Zf, Zo, B3. apply wp_bind.
  apply (wp_heads Hint Hsame Hbits exp a b d H nm ws); try done; [lia|].
  intros hs s1 mh HD. apply wp_bind.
  assert (forall t c, 0 <= t < a * K -> 0 <= c < H * (b * K) -> sentry mh (a * K) t c = multihead t c) as Hmh.
  { intros t c Ht Hc. rewrite (hd_out _ _ _ _ _ _ _ _ _ _ _ _ HD) by done. by apply multihead_weights. }
  apply (wp_block_layer (H * b) d (H * 3) _ _ _ multihead); try done; try nia;
    [unfold weight_rows; zcases; lia|rewrite (hd_len _ _ _ _ _ _ _ _ _ _ _ _ HD); nia
    |apply (hd_acc _ _ _ _ _ _ _ _ _ _ _ _ HD)|intros; apply Hmh; lia|].
  intros s2 co Hs2 Lco Hco. apply wp_bind. apply (wp_block_norm _ _ X condensed); try done; try lia.
  { intros t e Ht He. rewrite Hco by done. unfold condense_ref. by rewrite Z.mul_assoc. }
  intros at_ Lat Hat. apply wp_bind.
  apply (wp_block_layer d f (H * 3 + 1) _ _ _ attended); try done; try lia; [unfold weight_rows; zcases; lia|].
  intros s3 f0 Hs3 Lf0 Hf0. apply wp_bind.
  apply (wp_block_layer f d (H * 3 + 2) _ _ _ (project (d * K) attended (weight_matrix (H * 3 + 1))));
    try done; try lia; [unfold weight_rows; zcases; lia|].
  intros s4 o Hs4 Lo4 Ho. apply wp_bind. apply (wp_block_norm _ _ attended fed); try done; try lia.
  intros out Lout Hout. apply wp_ret, HQ; simpl; try done. lia.
Qed.
End Run.
End Block.

(** * The constructors of the block

    Both constructors of [TransformerBlock], one for the formats with a buffer of
    values and one for CSC and CSR, build a block whose layers have the kernels
    of the dense weight vector, when each layer is given what the encoder of its
    format makes of its kernel. *)

Section Built.
Context {cfg : Config}.
Abbreviation K := KERNEL_DIM.
Abbreviation MAC := MAX_ACT_COL.
Context (a b d f H : Z) (ws : list (list Z)).

(** Entry [i] of the dense weights is a kernel of [r] by [c] tiles. *)
Definition kernel_at (i r c : Z) (w : list Z) : Prop := aget ws i = Some w /\ zlen w = r * c * (K * MAC).

(** Entry [i] of the vectors a block is built from stores that kernel. *)
Definition stored_at (ws' fs : list (list Z)) (hidden : list Z) (fmt : Format) (i r c : Z) : Prop :=
  exists w w' fl, kernel_at i r c w /\ aget ws' i = Some w' /\ aget fs i = Some fl /\ stored a r c w fmt w' fl hidden.
Definition stored_ptrs_at (cps rps vss : list (list Z)) (fmt : Format) (i r c : Z) : Prop :=
  exists w cp rp vs, kernel_at i r c w /\ aget cps i = Some cp /\ aget rps i = Some rp /\ aget vss i = Some vs /\
    stored_ptrs r c w fmt cp rp vs.

(** [at_ i r c] for all layers of the block. *)
Definition all_layers (heads condense ff0 ff1 : Z -> Z -> Z -> Prop) : Prop :=
  (forall i, 0 <= i < H * 3 -> heads i d b) /\ condense (H * 3) (H * b) d /\ ff0 (H * 3 + 1) d f /\ ff1 (H * 3 + 2) f d.

(** A block that one of the two constructors has built from the kernels [ws]. *)
Inductive built (blk : TransformerBlock) : Prop :=
| built_values ws' fs hidden fQVK fCondense fFF0 fFF1 :
    Block_new (a * K) (d * K) (b * K) H (f * K) ws' fs hidden fQVK fCondense fFF0 fFF1 = Some blk ->
    all_layers (stored_at ws' fs hidden fQVK) (stored_at ws' fs hidden fCondense)
      (stored_at ws' fs hidden fFF0) (stored_at ws' fs hidden fFF1) -> built blk
| built_pointers cps rps vss fmt :
    Block_new_ptrs (a * K) (d * K) (b * K) H (f * K) ws cps rps vss fmt = Some blk ->
    all_layers (stored_ptrs_at cps rps vss fmt) (stored_ptrs_at cps rps vss fmt)
      (stored_ptrs_at cps rps vss fmt) (stored_ptrs_at cps rps vss fmt) -> built blk.

Context {wf : WfConfig cfg}.
Hypothesis Hsame : WEIGHT_BITS = ACTIVATION_BITS.

Lemma layer_stored ws' fs hidden fmt i r c l :
  0 <= r -> 0 <= c -> stored_at ws' fs hidden fmt i r c ->
  (w ← aget ws' i; fl ← aget fs i; Some (Dense_new_flag (a * K) (r * K) (c * K) w fl hidden fmt)) = Some l ->
  layer_at a ws i r c l.
Proof.
  intros Hr Hc (w & w' & fl & [Hw Hl] & -> & -> & Hs) [= <-]. exists w. split; [done|]. by apply stored_layer.
Qed.

Lemma layer_stored_ptrs cps rps vss fmt i r c l :
  0 <= r -> 0 <= c -> stored_ptrs_at cps rps vss fmt i r c ->
  (w ← aget ws i; cp ← aget cps i; rp ← aget rps i; v ← aget vss i;
   Some (Dense_new_ptrs (a * K) (r * K) (c * K) w cp rp v fmt)) = Some l ->
  layer_at a ws i r c l.
Proof.
  intros Hr Hc (w & cp & rp & vs & [Hw Hl] & Hcp & Hrp & Hvs & Hs). rewrite Hw, Hcp, Hrp, Hvs. intros [= <-].
  exists w. split; [done|]. by apply stored_ptrs_layer.
Qed.

(** A head is built from the entries [n * 3] to [n * 3 + 2]. *)
Lemma head_layers (layer : Z -> option Dense) n h :
  (forall i l, 0 <= i < 3 -> layer i = Some l -> layer_at a ws (n * 3 + i) d b l) ->
  (q ← layer 0; k ← layer 1; v ← layer 2; Some (Head_base (a * K) (d * K) (b * K) q k v)) = Some h -> head_at a b d ws n h.
Proof.
  intros Hl E. apply bind_Some in E as (q & Eq & E). apply bind_Some in E as (k & Ek & E). apply bind_Some in E as (v & Ev & [= <-]).
  apply Hl in Eq, Ek, Ev; [|lia ..]. rewrite Z.add_0_r in Eq. by exists q, k, v.
Qed.

(** The common part of the two constructors. *)
Lemma block_layers (head : Z -> option SingleHeadSelfAttn) (cond ff0 ff1 : option Dense) blk :
  0 <= H -> (forall n h, 0 <= n < H -> head n = Some h -> head_at a b d ws n h) ->
  (forall l, cond = Some l -> layer_at a ws (H * 3) (H * b) d l) ->
  (forall l, ff0 = Some l -> layer_at a ws (H * 3 + 1) d f l) ->
  (forall l, ff1 = Some l -> layer_at a ws (H * 3 + 2) f d l) ->
  (hs ← build_heads H head; c ← cond; l0 ← ff0; l1 ← ff1;
   Some (mkBlock H (b * K) (d * K) (f * K) hs (mkAddNormalize (a * K) (d * K) K MAC) c l0 l1)) = Some blk ->
  layered_block a b d f H ws blk.
Proof.
  intros HH Hh Hc H0 H1 E. apply bind_Some in E as (hs & Eh & E). apply bind_Some in E as (c & Ec & E).
  apply bind_Some in E as (l0 & E0 & E). apply bind_Some in E as (l1 & E1 & [= <-]).
  split; simpl; auto. destruct (build_heads_Some H head hs HH Eh) as [Hl Hn]. split; [done|].
  intros n Hn'. destruct (Hn n Hn') as (h & Hg & Hb). exists h. auto.
Qed.

Lemma built_layered blk :
  0 <= b -> 0 <= d -> 0 <= f -> 0 <= H -> built blk -> layered_block a b d f H ws blk.
Proof.
  intros Hb Hd Hf HH [ws' fs hidden fQVK fCondense fFF0 fFF1 E (L1 & L2 & L3 & L4)|cps rps vss fmt E (L1 & L2 & L3 & L4)].
  - refine (block_layers _ _ _ _ blk HH _ _ _ _ E); rewrite ?Z.mul_assoc.
    + intros n h Hn. apply head_layers. intros i l Hi. rewrite !aget_drop by lia. apply layer_stored; try done. apply L1. lia.
    + intros l. apply layer_stored; [nia|done|done].
    + intros l. by apply layer_stored.
    + intros l. by apply layer_stored.
  - refine (block_layers _ _ _ _ blk HH _ _ _ _ E); rewrite ?Z.mul_assoc.
    + intros n h Hn. apply head_layers. intros i l Hi. rewrite !aget_drop by lia. apply layer_stored_ptrs; try done. apply L1. lia.
    + intros l. apply layer_stored_ptrs; [nia|done|done].
    + intros l. by apply layer_stored_ptrs.
    + intros l. by apply layer_stored_ptrs.
Qed.
End Built.
