(* ===== verification/InferenceCorrect.v ===== *)
(** * InferenceCorrect: the whole program computes the encoder

    First the weights in the formats of a run: [convert_weights] of
    [transformer.cc] replaces the kernels of the layers that run in the
    interleaved format by what the encoder makes of them.  When each of
    those kernels is convertible, the result stores every kernel in the format of
    its layer.  Then [main] itself. *)

From stdpp Require Import prelude.
From Stdlib Require Import ZArith Lia.
From S2P Require Import Prelude Machine Float32 Systolic SystolicCorrect Accelerator SmmGem SparseMM TileProduct SparseRep SparseSpec.
From S2P Require Import SparseEncode SparseCorrect MatMul Transpose Rows Softmax AddNorm Dense SelfAttention TransformerBlock Inference.
From S2P Require Import AttentionCorrect BlockCorrect.

Section Conversion.
Context {cfg : Config} {wf : WfConfig cfg}.
Abbreviation K := KERNEL_DIM.
Abbreviation MAC := MAX_ACT_COL.
Context (a b d f H : Z) (ws : list (list Z)) (fQVK fCondense fFF0 fFF1 : Format).

(** The layer of entry [i] of the weight vector: its size in tiles, its format. *)
Definition by_layer {X} (heads condense ff0 ff1 : X) (i : Z) : X :=
  if i <? H * 3 then heads else if i =? H * 3 then condense else if i =? H * 3 + 1 then ff0 else ff1.
Definition layer_rows : Z -> Z := by_layer d (H * b) d f.
Definition layer_cols : Z -> Z := by_layer b d f d.
Definition layer_format : Z -> Format := by_layer fQVK fCondense fFF0 fFF1.

(** The formats [main] selects, with the conditions of the interleaved one: at
    least 32 rows of tiles, and room for the blocks. *)
Definition convertible (i : Z) : Prop :=
  layer_format i = NON_PRUNED \/
  layer_format i = INTERLEAVED /\ 32 <= layer_rows i /\
  forall w, aget ws i = Some w ->
    block_start (layer_multiplier a (layer_rows i) (layer_cols i) INTERLEAVED) w (layer_cols i) <=
    interleaved_size (layer_rows i * K) (layer_cols i * MAX_W_COL).

Lemma by_layer_head {X} (x y z t : X) i : 0 <= i < H * 3 -> by_layer x y z t i = x.
Proof. intros Hi. unfold by_layer. by destruct (Z.ltb_spec i (H * 3)); [|lia]. Qed.

Lemma by_layer_last {X} (x y z t : X) :
  by_layer x y z t (H * 3) = y /\ by_layer x y z t (H * 3 + 1) = z /\ by_layer x y z t (H * 3 + 2) = t.
Proof. unfold by_layer. repeat split; zcases; lia || done. Qed.

Hypothesis Hsame : WEIGHT_BITS = ACTIVATION_BITS.
Hypothesis (Hb : 0 <= b) (Hd : 0 <= d) (Hf : 0 <= f) (HH : 0 <= H).
Hypothesis HQVK : fQVK = NON_PRUNED \/ fQVK = INTERLEAVED.
Hypothesis Hlen : zlen ws = H * 3 + 3.
Hypothesis Hkernels : forall i, 0 <= i < H * 3 + 3 -> exists w, kernel_at ws i (layer_rows i) (layer_cols i) w.
Hypothesis Hconv : forall i, 0 <= i < H * 3 + 3 -> convertible i.

Lemma layer_sizes i : 0 <= layer_rows i /\ 0 <= layer_cols i.
Proof. unfold layer_rows, layer_cols, by_layer. zcases; nia. Qed.

(** The first [k] entries have been converted. *)
Definition converted (k : Z) (cur : list (list Z)) : Prop :=
  zlen cur = H * 3 + 3 /\ forall i, 0 <= i < H * 3 + 3 ->
    if i <? k then exists w w', kernel_at ws i (layer_rows i) (layer_cols i) w /\ aget cur i = Some w' /\
      forall fl hid, stored a (layer_rows i) (layer_cols i) w (layer_format i) w' fl hid
    else aget cur i = aget ws i.

Lemma wp_convert_weight k cur n_row n_col (Q : or_exit (list (list Z)) -> Prop) :
  0 <= k < H * 3 + 3 -> n_row = layer_rows k * K -> n_col = layer_cols k * MAX_W_COL -> converted k cur ->
  (forall cur', converted (k + 1) cur' -> Q (inl cur')) -> wp (convert_weight (layer_format k) k n_row n_col cur) Q.
Proof.
  intros Hk -> -> [Hl Hc] HQ. destruct (Hkernels k Hk) as (w & Hw & Lw). destruct (layer_sizes k) as [Hr0 Hc0].
  assert (aget cur k = Some w) as Hcur by (specialize (Hc k Hk); rewrite Z.ltb_irrefl in Hc; by rewrite Hc).
  assert (forall cur' w', zlen cur' = zlen cur -> aget cur' k = Some w' ->
    (forall i, i <> k -> aget cur' i = aget cur i) ->
    (forall fl hid, stored a (layer_rows k) (layer_cols k) w (layer_format k) w' fl hid) -> converted (k + 1) cur') as Hstep.
  { intros cur' w' Hl' Hk' Hi' Hs. split; [lia|]. intros i Hi. specialize (Hc i Hi). destruct (Z.eq_dec i k) as [->|Hne].
    - destruct (Z.ltb_spec k (k + 1)); [|lia]. by exists w, w'.
    - rewrite Hi' by done. destruct (Z.ltb_spec i k), (Z.ltb_spec i (k + 1)); try lia; done. }
  unfold convert_weight. destruct (Hconv k Hk) as [Hf' | (Hf' & H32 & Hsz)]; rewrite Hf' in *.
  - apply HQ. apply (Hstep cur w); try done. intros fl hid. constructor.
  - rewrite Hcur. simpl. apply wp_bind. specialize (Hsz w Hw).
    destruct (layer_fits a (layer_rows k) (layer_cols k) w Hsame Hr0 Hc0 Lw INTERLEAVED) as (Hfit & ER & EC).
    assert (wp (dense2interleavedMetaData w (layer_rows k * K) (layer_cols k * MAX_W_COL)) (fun _ => True)) as Hwp
      by (apply (wp_dense2interleavedMetaData _ _ _ w Hfit); [by rewrite EC|done]).
    apply wp_exists in Hwp as (w' & He & _). rewrite He. simpl. rewrite aset_spec by lia. simpl. apply HQ.
    apply (Hstep _ w'); [by rewrite zlen_insert| | |].
    + by rewrite aget_insert, Z.eqb_refl by lia.
    + intros i Hi. rewrite aget_insert by lia. by destruct (Z.eqb_spec i k).
    + intros fl hid. by constructor.
Qed.

Lemma converted_start : converted 0 ws.
Proof. split; [done|]. intros i Hi. by destruct (Z.ltb_spec i 0); [lia|]. Qed.

Lemma tile_columns x : x * K / W_PER_BUS = x * MAX_W_COL.
Proof. geometry. rewrite max_w_col_spec, Z.mul_assoc. apply Z.div_mul. lia. Qed.

(** The kernels of the heads. *)
Lemma wp_convert_heads :
  wp (match fQVK with
      | INTERLEAVED => for_up 0 (H * 3) (fun i r => and_then (Some r) (convert_weight INTERLEAVED i (d * K) (b * K / W_PER_BUS))) (inl ws)
      | NON_PRUNED => Some (inl ws)
      | _ => Some (inr ())
      end) (fun r => exists cur, r = inl cur /\ converted (H * 3) cur).
Proof.
  destruct HQVK as [E|E]; rewrite E.
  - exists ws. split; [done|]. split; [done|]. intros i Hi. destruct (Z.ltb_spec i (H * 3)); [|done].
    destruct (Hkernels i Hi) as (w & Hw). exists w, w. split; [done|]. split; [apply Hw|].
    intros fl hid. replace (layer_format i) with NON_PRUNED; [constructor|]. unfold layer_format. by rewrite by_layer_head by lia.
  - apply (wp_for_up (fun k r => exists cur, r = inl cur /\ converted k cur)); [lia|by exists ws; split; [|apply converted_start]| |done].
    intros i r Hi (cur & -> & Hcur). unfold and_then. cbn [mbind option_bind].
    assert (layer_format i = INTERLEAVED) as <- by (unfold layer_format; by rewrite by_layer_head).
    apply wp_convert_weight; [lia| | |done|intros cur' Hc'; by exists cur'].
    + unfold layer_rows. by rewrite by_layer_head.
    + unfold layer_cols. by rewrite by_layer_head, tile_columns.
Qed.

(** All conversions of [inference]. *)
Lemma wp_convert_weights seq :
  wp (convert_weights (mkDims (b * K) seq (d * K) H (f * K)) fQVK fCondense fFF0 fFF1 ws)
    (fun r => exists cur, r = inl cur /\ converted (H * 3 + 3) cur).
Proof.
  unfold convert_weights. simpl. unfold and_then at 1. apply wp_bind.
  eapply wp_mono; [exact wp_convert_heads|]. intros r (cur & -> & Hcur).
  destruct (by_layer_last fQVK fCondense fFF0 fFF1) as (E1 & E2 & E3).
  destruct (by_layer_last d (H * b) d f) as (R1 & R2 & R3). destruct (by_layer_last b d f d) as (C1 & C2 & C3).
  fold (layer_format (H * 3)) in E1. fold (layer_format (H * 3 + 1)) in E2. fold (layer_format (H * 3 + 2)) in E3.
  rewrite <- E1, <- E2, <- E3, !tile_columns. unfold and_then. apply wp_bind, wp_convert_weight; [lia| | |done|].
  { unfold layer_rows. rewrite R1. lia. }
  { unfold layer_cols. by rewrite C1. }
  intros cur1 Hc1. apply wp_bind, wp_convert_weight; [lia|unfold layer_rows; by rewrite R2|unfold layer_cols; by rewrite C2|done|].
  intros cur2 Hc2. rewrite <- Z.add_assoc in Hc2. apply wp_convert_weight; [lia|unfold layer_rows; by rewrite R3|unfold layer_cols; by rewrite C3|done|].
  intros cur3 Hc3. rewrite <- Z.add_assoc in Hc3. by exists cur3.
Qed.

(** The converted weights store every kernel in the format of its layer. *)
Lemma converted_stored cur fs hidden :
  zlen fs = H * 3 + 3 -> converted (H * 3 + 3) cur ->
  all_layers b d f H (stored_at a ws cur fs hidden fQVK) (stored_at a ws cur fs hidden fCondense)
    (stored_at a ws cur fs hidden fFF0) (stored_at a ws cur fs hidden fFF1).
Proof.
  intros Hfs [Hl Hc].
  assert (forall i, 0 <= i < H * 3 + 3 -> stored_at a ws cur fs hidden (layer_format i) i (layer_rows i) (layer_cols i)) as Hs.
  { intros i Hi. specialize (Hc i Hi). destruct (Z.ltb_spec i (H * 3 + 3)); [|lia]. destruct Hc as (w & w' & Hw & Hw' & Hs).
    destruct (aget_is_Some fs i) as [fl Hfl]; [lia|]. exists w, w', fl. auto. }
  destruct (by_layer_last fQVK fCondense fFF0 fFF1) as (E1 & E2 & E3).
  destruct (by_layer_last d (H * b) d f) as (R1 & R2 & R3). destruct (by_layer_last b d f d) as (C1 & C2 & C3).
  unfold layer_format, layer_rows, layer_cols in Hs. split; [|split; [|split]].
  - intros i Hi. specialize (Hs i ltac:(lia)). by rewrite !by_layer_head in Hs.
  - specialize (Hs (H * 3) ltac:(lia)). by rewrite E1, R1, C1 in Hs.
  - specialize (Hs (H * 3 + 1) ltac:(lia)). by rewrite E2, R2, C2 in Hs.
  - specialize (Hs (H * 3 + 2) ltac:(lia)). by rewrite E3, R3, C3 in Hs.
Qed.
End Conversion.

(** * The program runs the encoder on the data it draws

    The input tensor and the kernels are consecutive pieces of the stream of
    [rand]; [main] converts the kernels to the format its arguments select,
    builds an encoder block from them, runs it and returns the reference encoder
    of the input with the dense kernels. *)

(** [n] words of the stream from position [p] on. *)
Definition draw (rand : nat -> Z) (p : nat) (n : Z) : list Z := mkarray n (fun i => uint32 (rand (p + Z.to_nat i)%nat)).

Lemma zlen_draw rand p n : 0 <= n -> zlen (draw rand p n) = n.
Proof. apply zlen_mkarray. Qed.

Lemma zlen_drop_gen {X} (l : list X) n : 0 <= n <= zlen l -> zlen (drop (Z.to_nat n) l) = zlen l - n.
Proof. intros Hn. unfold zlen in *. rewrite length_drop. lia. Qed.

(** A loop that fills a buffer from the stream. *)
Lemma fill_draw rand p n :
  0 <= n ->
  for_up 0 n (fun i '(l, p) => l ← aset l i (uint32 (rand p)); Some (l, S p)) (zeros n, p) = Some (draw rand p n, (p + Z.to_nat n)%nat).
Proof.
  intros Hn. apply wp_eq.
  apply (wp_for_up (fun i '(l, q) => zlen l = n /\ q = (p + Z.to_nat i)%nat /\ forall j, 0 <= j < i -> l.[j] = uint32 (rand (p + Z.to_nat j)%nat))).
  - done.
  - split; [by apply zlen_zeros|]. split; [lia|]. lia.
  - intros i [l q] Hi (Hl & -> & Hv). apply wp_bind. wp_set l' H1 H2 by lia. apply wp_ret. split; [lia|]. split; [lia|].
    intros j Hj. rewrite H2. destruct (Z.eqb_spec j i) as [->|]; [done|]. apply Hv. lia.
  - intros [l q] (Hl & -> & Hv). f_equal. apply list_eq_nthZ; [by rewrite zlen_draw|]. intros j Hj. unfold draw.
    rewrite nthZ_mkarray by lia. apply Hv. lia.
Qed.

Section Weights.
Context {cfg : Config} {wf : WfConfig cfg}.
Abbreviation K := KERNEL_DIM.
Abbreviation MAC := MAX_ACT_COL.
Hypothesis Hsame : WEIGHT_BITS = ACTIVATION_BITS.
Context (rand : nat -> Z) (a b d f H : Z).
Hypothesis (Ha : 0 <= a) (Hb : 0 <= b) (Hd : 0 < d) (Hf : 0 <= f) (HH : 0 <= H <= 16).

(** The model of these sizes, in tiles. *)
Definition tiled_dims : Dims := {| D_Q := b * K; D_SEQ := a * K; D_MODEL := d * K; NUM_HEAD := H; D_FF := f * K |}.

Lemma tiles_words x : x * K / W_PER_BUS = x * MAC.
Proof.
  geometry. assert (W_PER_BUS = ACT_PER_BUS) as -> by (unfold W_PER_BUS, ACT_PER_BUS; by rewrite Hsame).
  rewrite max_act_col_spec, Z.mul_assoc. apply Z.div_mul. lia.
Qed.

Lemma acts_words x : x * K / ACT_PER_BUS = x * MAC.
Proof. geometry. rewrite max_act_col_spec, Z.mul_assoc. apply Z.div_mul. lia. Qed.

(** A kernel of [r] by [c] tiles. *)
Definition kernel_words (r c : Z) : Z := r * c * (K * MAC).

Lemma kernel_words_nonneg r c : 0 <= r -> 0 <= c -> 0 <= kernel_words r c.
Proof. intros. geometry. unfold kernel_words. apply Z.mul_nonneg_nonneg; nia. Qed.

Lemma fill_sparse_draw r c p :
  0 <= r -> 0 <= c ->
  fill_sparse_weight rand (r * K) (c * K / W_PER_BUS) (zeros (kernel_words r c), p) =
  Some (draw rand p (kernel_words r c), (p + Z.to_nat (kernel_words r c))%nat).
Proof.
  intros Hr Hc. rewrite tiles_words. unfold fill_sparse_weight.
  replace (r * K * (c * MAC)) with (kernel_words r c) by (unfold kernel_words; lia).
  apply fill_draw. by apply kernel_words_nonneg.
Qed.

Abbreviation nq := (kernel_words d b).

(** The weight vector: three kernels per head, then the three other layers. *)
Definition drawn_weights (p : nat) : list (list Z) :=
  let q := (p + Z.to_nat (H * 3 * nq))%nat in
  let r := (q + Z.to_nat (kernel_words d (H * b)))%nat in
  let t := (r + Z.to_nat (kernel_words d f))%nat in
  mkarray (H * 3) (fun i => draw rand (p + Z.to_nat (i * nq))%nat nq) ++
  [draw rand q (kernel_words d (H * b)); draw rand r (kernel_words d f); draw rand t (kernel_words f d)].

Lemma build_weights_drawn p :
  exists p', build_weights rand tiled_dims p = Some (drawn_weights p, p').
Proof.
  geometry. pose proof (kernel_words_nonneg d b ltac:(lia) Hb) as Hnq. unfold build_weights, head_qkv_size. simpl.
  assert (b * K * (d * K) / W_PER_BUS = nq) as ->.
  { rewrite (Z.mul_comm (b * K)), Z.mul_assoc, tiles_words. unfold kernel_words. lia. }
  assert (H * (b * K) * (d * K) / W_PER_BUS = kernel_words d (H * b)) as ->.
  { replace (H * (b * K) * (d * K)) with (H * b * (d * K) * K) by lia. rewrite tiles_words. unfold kernel_words. lia. }
  assert (d * K * (f * K) / W_PER_BUS = kernel_words d f) as ->.
  { rewrite Z.mul_assoc, tiles_words. unfold kernel_words. lia. }
  assert (f * K * (d * K) / W_PER_BUS = kernel_words f d) as ->.
  { rewrite Z.mul_assoc, tiles_words. unfold kernel_words. lia. }
  assert (for_up 0 H (fun n '(weights, p) =>
    '(q, p) ← fill_sparse_weight rand (d * K) (b * K / W_PER_BUS) (zeros nq, p);
    '(k, p) ← fill_sparse_weight rand (d * K) (b * K / W_PER_BUS) (zeros nq, p);
    '(v, p) ← fill_sparse_weight rand (d * K) (b * K / W_PER_BUS) (zeros nq, p);
    Some (weights ++ [q; k; v], p)) ([], p) =
    Some (mkarray (H * 3) (fun i => draw rand (p + Z.to_nat (i * nq))%nat nq), (p + Z.to_nat (H * 3 * nq))%nat)) as ->.
  { apply wp_eq, (wp_for_up (fun n '(ws, q) => ws = mkarray (n * 3) (fun i => draw rand (p + Z.to_nat (i * nq))%nat nq) /\
      q = (p + Z.to_nat (n * 3 * nq))%nat)); [lia|split; [done|lia]| |by intros [ws q] [-> ->]].
    intros n [ws q] Hn [-> ->]. do 3 (rewrite fill_sparse_draw by lia; cbn [mbind option_bind]). apply wp_ret. split; [|nia].
    unfold mkarray. replace (Z.to_nat ((n + 1) * 3)) with (Z.to_nat (n * 3) + 3)%nat by lia. rewrite seq_app, fmap_app. simpl.
    f_equal. replace (Z.of_nat (Z.to_nat (n * 3))) with (n * 3) by lia.
    replace (Z.of_nat (S (Z.to_nat (n * 3)))) with (n * 3 + 1) by lia. replace (Z.of_nat (S (S (Z.to_nat (n * 3))))) with (n * 3 + 2) by lia.
    assert (0 <= n * 3 * nq) as Hm by nia.
    assert (forall k, 0 <= k -> (p + Z.to_nat ((n * 3 + k) * nq) = p + Z.to_nat (n * 3 * nq) + Z.to_nat (k * nq))%nat) as Hpos.
    { intros k Hk. rewrite Z.mul_add_distr_r, Z2Nat.inj_add by nia. lia. }
    rewrite !Hpos by lia. by replace (Z.to_nat (2 * nq)) with (Z.to_nat nq + Z.to_nat nq)%nat by lia; rewrite Z.mul_1_l, Nat.add_assoc. }
  cbn [mbind option_bind]. rewrite Z.mul_assoc. rewrite fill_sparse_draw by nia. cbn [mbind option_bind].
  rewrite fill_sparse_draw by nia. cbn [mbind option_bind]. rewrite fill_sparse_draw by nia. cbn [mbind option_bind]. eexists. done.
Qed.

Lemma zlen_drawn p : zlen (drawn_weights p) = H * 3 + 3.
Proof. unfold drawn_weights. rewrite zlen_app, zlen_mkarray by lia. done. Qed.

Lemma drawn_last p i : 0 <= i -> aget (drawn_weights p) (H * 3 + i) = aget (drop (Z.to_nat (H * 3)) (drawn_weights p)) i.
Proof. intros Hi. rewrite aget_drop by lia. done. Qed.

Lemma drawn_kernels p i :
  0 <= i < H * 3 + 3 -> exists w, kernel_at (drawn_weights p) i (layer_rows b d f H i) (layer_cols b d f H i) w.
Proof.
  intros Hi. unfold kernel_at, layer_rows, layer_cols, by_layer, drawn_weights.
  pose proof (kernel_words_nonneg d b ltac:(lia) Hb). pose proof (kernel_words_nonneg d f ltac:(lia) Hf).
  pose proof (kernel_words_nonneg f d Hf ltac:(lia)). pose proof (kernel_words_nonneg d (H * b) ltac:(lia) ltac:(nia)).
  assert (zlen (mkarray (H * 3) (fun i => draw rand (p + Z.to_nat (i * nq)) nq)) = H * 3) as Hl by (apply zlen_mkarray; lia).
  destruct (Z.ltb_spec i (H * 3)).
  { rewrite aget_app_l, aget_mkarray by lia. eexists. split; [done|]. by rewrite zlen_draw. }
  rewrite aget_app_r, Hl by lia.
  assert (i - H * 3 = 0 \/ i - H * 3 = 1 \/ i - H * 3 = 2) as [E | [E | E]] by lia; rewrite E; eexists; (split; [reflexivity|]);
    rewrite zlen_draw by done; zcases; unfold kernel_words; try lia.
Qed.

Lemma build_heads_total n head :
  0 <= n <= 16 -> (forall i, 0 <= i < n -> is_Some (head i)) -> is_Some (build_heads n head).
Proof.
  intros Hn Hh. assert (wp (build_heads n head) (fun _ => True)) as Hw.
  { apply (wp_for_up (fun _ _ => True)); [lia|done| |done]. intros i hs Hi _. apply wp_bind, wp_assert; [lia|].
    destruct (Hh i Hi) as [h ->]. done. }
  destruct (build_heads n head); [by eexists|done].
Qed.

Lemma layer_total (ws fs : list (list Z)) i (g : list Z -> list Z -> Dense) :
  0 <= i < zlen ws -> zlen ws <= zlen fs -> exists dl, (w ← aget ws i; fl ← aget fs i; Some (g w fl)) = Some dl.
Proof.
  intros Hi Hf'. destruct (aget_is_Some ws i Hi) as [w ->]. destruct (aget_is_Some fs i) as [fl ->]; [lia|]. by eexists.
Qed.

Lemma Block_new_total seq dim hid ff ws fs hidden f1 f2 f3 f4 :
  zlen ws = H * 3 + 3 -> zlen ws <= zlen fs -> is_Some (Block_new seq dim hid H ff ws fs hidden f1 f2 f3 f4).
Proof.
  intros Hw Hfs. unfold Block_new. destruct (build_heads_total H (fun n => Head_new seq dim hid (drop (Z.to_nat (n * 3)) ws)
    (drop (Z.to_nat (n * 3)) fs) hidden f1)) as [hs ->]; [done| |].
  - intros i Hi. unfold Head_new.
    assert (zlen (drop (Z.to_nat (i * 3)) ws) = zlen ws - i * 3 /\ zlen (drop (Z.to_nat (i * 3)) fs) = zlen fs - i * 3) as [L1 L2].
    { split; apply zlen_drop_gen; lia. }
    destruct (layer_total (drop (Z.to_nat (i * 3)) ws) (drop (Z.to_nat (i * 3)) fs) 0 (fun w fl => Dense_new_flag seq dim hid w fl hidden f1)) as [q ->]; [lia|lia|].
    destruct (layer_total (drop (Z.to_nat (i * 3)) ws) (drop (Z.to_nat (i * 3)) fs) 1 (fun w fl => Dense_new_flag seq dim hid w fl hidden f1)) as [k ->]; [lia|lia|].
    destruct (layer_total (drop (Z.to_nat (i * 3)) ws) (drop (Z.to_nat (i * 3)) fs) 2 (fun w fl => Dense_new_flag seq dim hid w fl hidden f1)) as [v ->]; [lia|lia|].
    by eexists.
  - simpl. destruct (layer_total ws fs (H * 3) (fun w fl => Dense_new_flag seq (H * hid) dim w fl hidden f2)) as [c ->]; [lia|lia|]. simpl.
    destruct (layer_total ws fs (H * 3 + 1) (fun w fl => Dense_new_flag seq dim ff w fl hidden f3)) as [c0 ->]; [lia|lia|]. simpl.
    destruct (layer_total ws fs (H * 3 + 2) (fun w fl => Dense_new_flag seq ff dim w fl hidden f4)) as [c1 ->]; [lia|lia|]. by eexists.
Qed.
End Weights.

(** ** The program *)

Section Program.
Context {cfg : Config} {wf : WfConfig cfg} {S : Type} {A : Accelerator S} {L : AcceleratorLaws (cfg := cfg) S}.
Abbreviation K := KERNEL_DIM.
Abbreviation MAC := MAX_ACT_COL.
Hypothesis Hint : ACTIVATION_FP = false.
Hypothesis Hsame : WEIGHT_BITS = ACTIVATION_BITS.
Hypothesis Hbits : ACTIVATION_BITS = 8.
Variable exp : f64 -> f64.
Context (rand : nat -> Z) (a b d f H : Z).
Hypothesis (Ha : 0 <= a) (Hb : 0 <= b) (Hd : 0 < d) (Hf : 0 <= f) (HH : 0 <= H <= 16) (Hseq : a * K * 170 < 2 ^ 31).
Abbreviation D := (tiled_dims a b d f H).

(** The input tensor and the weights of a run that starts at position [p]. *)
Definition run_input (p : nat) : list Z := draw rand p (a * d * (K * MAC)).
Definition run_weights (p : nat) : list (list Z) := drawn_weights rand b d f H (p + Z.to_nat (a * d * (K * MAC))).

(** The reference encoder on that data. *)
Definition run_encoder (p : nat) : Z -> Z -> Z :=
  block_ref (a * K) (d * K) (b * K) (f * K) H (weight_matrix b d f H (run_weights p)) (sentry (run_input p) (a * K)).

Lemma act_words_tiles x y : x * K * (y * K) / ACT_PER_BUS = x * y * (K * MAC).
Proof. rewrite Z.mul_assoc, acts_words. lia. Qed.

(** The layers of the drawn kernels can be converted to these formats. *)
Definition run_convertible (p : nat) (fQVK fCondense fFF0 fFF1 : Format) : Prop :=
  forall i, 0 <= i < H * 3 + 3 -> convertible a b d f H (run_weights p) fQVK fCondense fFF0 fFF1 i.

Lemma zlen_build_flags : zlen (build_flags D) = H * 3 + 3.
Proof. unfold build_flags. simpl. rewrite zlen_app. unfold zlen. rewrite length_replicate. simpl. lia. Qed.

Lemma wp_inference fQVK fCondense fFF0 fFF1 (s : S) p (Q : or_exit (list Z * S * nat) -> Prop) :
  fQVK = NON_PRUNED \/ fQVK = INTERLEAVED -> run_convertible p fQVK fCondense fFF0 fFF1 ->
  acc_ok s -> block_scalable a b d f H (run_weights p) (run_input p) ->
  (forall out s' p', acc_ok s' -> (forall t c, 0 <= t < a * K -> 0 <= c < d * K -> sentry out (a * K) t c = run_encoder p t c) ->
     Q (inl (out, s', p'))) ->
  wp (inference exp false rand D fQVK fCondense fFF0 fFF1 s p) Q.
Proof.
  intros HQVK Hconv Hok Hsc HQ. geometry. assert (0 <= a * d * (K * MAC)) as Hn by (apply Z.mul_nonneg_nonneg; nia).
  unfold inference. simpl. rewrite act_words_tiles. unfold fill_kernel. rewrite fill_draw by done. cbn [mbind option_bind].
  destruct (build_weights_drawn Hsame rand a b d f H Hb Hd Hf HH (p + Z.to_nat (a * d * (K * MAC)))) as [p' ->].
  cbn [mbind option_bind]. fold (run_weights p). fold (run_input p). unfold and_then. apply wp_bind.
  assert (zlen (run_weights p) = H * 3 + 3) as Hlw by (by apply zlen_drawn). pose proof zlen_build_flags as Hlf.
  eapply wp_mono; [apply (wp_convert_weights a b d f H (run_weights p)); try done; try lia; intros i Hi; apply drawn_kernels; (done || lia)|].
  intros r (cur & -> & Hcur).
  destruct (Block_new_total H HH (a * K) (d * K) (b * K) (f * K) cur (build_flags D) [0xAAAAAAAA] fQVK fCondense fFF0 fFF1)
    as [blk Hblk]; [apply Hcur|rewrite Hlf; by apply Z.eq_le_incl, Hcur|]. rewrite Hblk. cbn [mbind option_bind]. apply wp_bind.
  apply (wp_block Hint Hsame Hbits exp a b d f H (run_weights p) (run_input p) Ha Hb Hd Hf (proj1 HH) blk); try done.
  - apply built_layered; try done; try lia. eapply built_values; [exact Hblk|]. apply converted_stored; (done || lia).
  - replace (a * K * H * (b * K)) with (H * a * K * (b * K)) by lia. rewrite !act_words_tiles.
    split; simpl; eexists; (split; [reflexivity|]); unfold kernel_words; lia.
  - unfold run_input. rewrite zlen_draw; lia.
  - intros hs s' bufs' Hs' _ _ _ Hout. apply wp_ret. by apply HQ.
Qed.
End Program.
