(* ===== verification/Demo.v ===== *)
(** * Demo: small concrete instances

    A 4 x 4 array with 8-bit activations and weights (one bus word per row of a
    tile), a core with one freshly built device behind its instructions, and a
    kernel of two tile rows whose first tile is zero.  Examples and witnesses
    evaluate the model on them. *)

From stdpp Require Import prelude.
From Stdlib Require Import ZArith Lia.
From S2P Require Import Prelude Machine Float32 Systolic SystolicCorrect Gem5Device Accelerator SmmGem AcceleratorInstances SparseMM.
From S2P Require Import TileProduct SparseRep SparseSpec.

Definition demo : Config := int8_cfg 4.

#[export] Instance demo_wf : WfConfig demo := int8_wf4.

Definition demo_params : Gem5.Params := {|
  Gem5.p_pio_addr := 0x10020000; Gem5.p_pio_size := 4096; Gem5.p_cpus := [0; 1] |}.

Definition demo_core : Core := {|
  xregs := zeros 31; threadId := 0;
  smm := Gem5.SystolicMatrixMultiplication_new (cfg := demo) demo_params |}.

Lemma demo_core_ok : core_ok (cfg := demo) demo_core.
Proof. by apply core_ok_new. Qed.

(** An 8 x 4 matrix of weights as two tiles; the first one is zero. *)
Definition demo_kernel : list Z := [0; 0; 0; 0; 0x01020304; 0; 0xFF000000; 7].

(** Four rows of eight activations, tile after tile. *)
Definition demo_input : list Z :=
  [0x01010101; 0x02020202; 0x03030303; 0x04040404; 0x01000000; 0x00010000; 0xFE000100; 0x7F7F7F7F].

Definition demo_mult (fmt : Format) : SparseMatrixMultiplier := mkMultiplier 8 4 4 fmt.

Lemma demo_fits fmt : fits (cfg := demo) (demo_mult fmt) 8 1 demo_kernel.
Proof. by split. Qed.

(** The accelerator of the demonstration core. *)
#[export] Instance demo_accelerator : Accelerator Core := Gem5Accelerator (cfg := demo).
#[export] Instance demo_laws : AcceleratorLaws (cfg := demo) Core := Gem5Laws (cfg := demo).

(** Tables of the entries of a matrix. *)
Definition tabulate (n m : Z) (f : Z -> Z -> Z) : list (list Z) := mkarray n (fun t => mkarray m (f t)).
Definition table (l : list (list Z)) (t c : Z) : Z := (default [] (aget l t)).[c].

Lemma table_entries n m f l t c :
  tabulate n m f = l -> 0 <= t < n -> 0 <= c < m -> f t c = table l t c.
Proof.
  intros <- Ht Hc. unfold table, tabulate. rewrite aget_mkarray by done. simpl. by rewrite nthZ_mkarray.
Qed.
