(* ===== verification/DeviceTheorems.v ===== *)
(** * DeviceTheorems: the systolic array and its two implementations

    The properties of the accelerator: the arithmetic of a column of cells, the
    pipeline steps of the gem5 device behind the instructions and of the software
    array, the intrinsics, and the isolation of the tiles. *)

From stdpp Require Import prelude.
From Stdlib Require Import ZArith Lia.
From S2P Require Import Prelude Machine Float32 Systolic SystolicCorrect Gem5Device TypedArrays Accelerator SmmGem AcceleratorInstances.
From S2P Require Import SparseMM TileProduct MatMul Demo.

(** ** The pipeline *)

Section Steps.
Context {cfg : Config} {wf : WfConfig cfg}.
Abbreviation K := KERNEL_DIM.

(** The bus word [v] carries the elements of the current vector [x T] from word [q] on. *)
Definition carries (x : Z -> Z -> Z) (T q v : Z) : Prop :=
  forall i, 0 <= i < ACT_PER_BUS -> act_lane v i = x T (q * ACT_PER_BUS + i).

(** After a step that leaves the pipeline at [(T, q)], the word returned is word
    [q] of the output vector whose input entered [2 * K - 1] vectors before. *)
Definition stepped {S} (ok : S -> Prop) (arrays : S -> SA) w (x : Z -> Z -> Z) (T q : Z) (res : Z * S) : Prop :=
  ok res.2 /\ Phase w x T q (arrays res.2) /\
  (2 * K - 1 <= T -> res.1 = out_word w (x (T - (2 * K - 1))) q).

(** C34: the streaming instruction.  [smmStream] on the gem5 core stores the last
    word of the current vector, advances the whole array by one step and
    returns the first word of the output vector that is due. *)
Theorem gem5_stream_step w x T v c :
  core_ok c -> 0 <= T -> Phase w x T (MAX_ACT_COL - 1) (core_arrays c) -> carries x T (MAX_ACT_COL - 1) v ->
  wp (smmStream_asm v 0 c) (stepped core_ok core_arrays w x (T + 1) 0).
Proof.
  intros Hc HT HP Hv. eapply wp_mono; [apply (law_stream (S := Core) (AcceleratorLaws := Gem5Laws) w x T v c Hc HT HP Hv)|].
  intros [r c'] H. exact H.
Qed.

(** The queueing instruction.  [smmQueue] stores a word that is not the last of
    the current vector and returns the next word of the output that is due. *)
Theorem gem5_queue_step w x T q v c :
  core_ok c -> 0 <= q -> q + 1 < MAX_ACT_COL -> 0 <= T -> Phase w x T q (core_arrays c) -> carries x T q v ->
  wp (smmQueue_asm q v 0 c) (stepped core_ok core_arrays w x T (q + 1)).
Proof.
  intros Hc H0 Hq HT HP Hv.
  eapply wp_mono; [apply (law_queue (S := Core) (AcceleratorLaws := Gem5Laws) w x T q v c Hc H0 Hq HT HP Hv)|].
  intros [r c'] H. exact H.
Qed.

(** The software array.  [streamInOut] of the emulator, called with the
    element index of the last word, takes the same step as the device. *)
Theorem emulator_stream_step w x T v s :
  0 <= T -> Phase w x T (MAX_ACT_COL - 1) (emu_arrays s) -> carries x T (MAX_ACT_COL - 1) v ->
  wp (streamInOut ((MAX_ACT_COL - 1) * ACT_PER_BUS) v s)
    (stepped (fun _ => True) emu_arrays w x (T + 1) 0).
Proof. intros HT HP Hv. eapply wp_streamInOut; try done. Qed.

(** A column of cells is an inner product.  With integer activations the value
    leaving column [c] is the inner product of the input vector and the column
    of weights, modulo the width of an activation. *)
Theorem column_inner_product w x c :
  ACTIVATION_FP = false -> dot w x c = u_activation_t (zsum (fun r => x r * w r c) K).
Proof. intros H. by apply dot_int. Qed.

(** [addActIn32] adds lane by lane, and no lane carries into another. *)
Theorem add_lanes memory result :
  0 <= memory < 2 ^ 32 ->
  wp (addActIn32 memory result) (fun sum => 0 <= sum < 2 ^ 32 /\
    forall i, 0 <= i < ACT_PER_BUS ->
      lane_le ACTIVATION_BITS sum i =
      u_activation_t (add_act (activation_t (lane_le ACTIVATION_BITS memory i))
                              (activation_t (lane_le ACTIVATION_BITS result i)))).
Proof. intros Hm. apply wp_addActIn32; [done|]. intros r Hr Hl. by split. Qed.

End Steps.

(** *** Witnesses *)

(** The weights of the fresh arrays are zero; the input vectors all are the lanes of [v]. *)
Lemma fresh_phase {cfg : Config} {wf : WfConfig cfg} (a : SA) x :
  Shape a -> sa_w a = zeros (KERNEL_DIM * KERNEL_DIM) -> Phase (fun _ _ => 0) x 0 0 a.
Proof.
  intros Ha Hw. apply Phase_start; [done|]. rewrite Hw. geometry. split; [rewrite zlen_zeros; nia|].
  intros. apply nthZ_zeros.
Qed.

Lemma gem5_stream_step_witness :
  wp (smmStream_asm (cfg := demo) 0x01020304 0 demo_core)
    (stepped (cfg := demo) (core_ok (cfg := demo)) (core_arrays (cfg := demo)) (fun _ _ => 0)
       (fun _ r => act_lane (cfg := demo) 0x01020304 r) (0 + 1) 0).
Proof.
  apply (gem5_stream_step (cfg := demo)); [exact demo_core_ok|done| |intros i Hi; reflexivity].
  apply (fresh_phase (cfg := demo)); [|reflexivity]. apply (Gem5.tile_new_shape (cfg := demo)).
Defined.

Lemma gem5_queue_step_witness :
  let c := {| xregs := zeros 31; threadId := 0;
              smm := Gem5.SystolicMatrixMultiplication_new (cfg := int8_cfg 8) demo_params |} in
  wp (smmQueue_asm (cfg := int8_cfg 8) 0 7 0 c)
    (stepped (cfg := int8_cfg 8) (core_ok (cfg := int8_cfg 8)) (core_arrays (cfg := int8_cfg 8)) (fun _ _ => 0)
       (fun _ r => act_lane (cfg := int8_cfg 8) 7 r) 0 (0 + 1)).
Proof.
  apply (gem5_queue_step (cfg := int8_cfg 8)); [by apply core_ok_new|done|done|done| |intros i Hi; reflexivity].
  apply (fresh_phase (cfg := int8_cfg 8)); [|reflexivity]. apply (Gem5.tile_new_shape (cfg := int8_cfg 8)).
Defined.

Lemma emulator_stream_step_witness :
  wp (streamInOut (cfg := demo) ((MAX_ACT_COL (cfg := demo) - 1) * ACT_PER_BUS (cfg := demo)) 5
        (SystolicMatrixMultiplication_new (cfg := demo)))
    (stepped (cfg := demo) (fun _ => True) emu_arrays (fun _ _ => 0) (fun _ r => act_lane (cfg := demo) 5 r) (0 + 1) 0).
Proof.
  apply (emulator_stream_step (cfg := demo)); [done| |intros i Hi; reflexivity].
  apply (fresh_phase (cfg := demo)); [|reflexivity]. apply (Gem5.tile_new_shape (cfg := demo)).
Defined.

Lemma column_inner_product_witness :
  dot (cfg := demo) (fun r c => r + c) (fun r => 3 - r) 1 =
  u_activation_t (cfg := demo) (zsum (fun r => (3 - r) * (r + 1)) (KERNEL_DIM (cfg := demo))).
Proof. by apply (column_inner_product (cfg := demo) (fun r c => r + c) (fun r => 3 - r) 1). Defined.

Lemma add_lanes_witness :
  wp (addActIn32 (cfg := demo) 0x7F00FF01 0x01FF0102) (fun sum => 0 <= sum < 2 ^ 32 /\
    forall i, 0 <= i < ACT_PER_BUS (cfg := demo) ->
      lane_le 8 sum i =
      u_activation_t (cfg := demo) (add_act (cfg := demo) (activation_t (cfg := demo) (lane_le 8 0x7F00FF01 i))
                                                          (activation_t (cfg := demo) (lane_le 8 0x01FF0102 i)))).
Proof. apply (add_lanes (cfg := demo)); lia. Defined.

(** ** Intrinsics and tiles *)

Section Intrinsics.
Context {cfg : Config}.

(** C35: each intrinsic makes exactly one call of the device.  Over its moves to X7, X8
    and X9, the instruction word, its decoding and its execution: [smmStream],
    [smmQueue] and [smmParamWrite] call the device operation they name with the
    32-bit value, the tile and the index the caller passed; [smmReadFlag] passes its
    second argument as the value and the thread of the core as the tile, and its
    first argument nowhere.  The device becomes what the call makes of it, and X10 and
    the return value hold what it answered. *)
Theorem intrinsics_call_device rm rn tid c :
  zlen (xregs c) = 31 -> - 2 ^ 31 <= tid < 2 ^ 31 -> - 2 ^ 31 <= rm < 2 ^ 31 ->
  (block_call (smmStream_block rn tid) c = Some (StreamInOut tid (uint32 rn)) /\
   block_call (smmQueue_block rm rn tid) c = Some (InputQueue tid rm (uint32 rn)) /\
   block_call (smmParamWrite_block rm rn tid) c = Some (LoadWeights tid rm (uint32 rn)) /\
   block_call (smmReadFlag_block rn tid) c = Some (ReadFlag (threadId c) (uint32 tid))) /\
  smmStream_asm rn tid c =
    ('(r, d) ← Gem5.streamInOut tid (uint32 rn) (smm c);
     Some (uint64 r, {| xregs := clobber c [(7, rn); (8, tid); (10, r)]; threadId := threadId c; smm := d |})) /\
  smmQueue_asm rm rn tid c =
    ('(r, d) ← Gem5.inputQueue tid rm (uint32 rn) (smm c);
     Some (uint64 r, {| xregs := clobber c [(9, rm); (7, rn); (8, tid); (10, r)]; threadId := threadId c; smm := d |})) /\
  smmParamWrite_asm rm rn tid c =
    ('(b, d) ← Gem5.loadWeights tid rm (uint32 rn) (smm c);
     Some (uint64 (if (b : bool) then 1 else 0),
           {| xregs := clobber c [(9, rm); (7, rn); (8, tid); (10, if (b : bool) then 1 else 0)];
              threadId := threadId c; smm := d |})) /\
  smmReadFlag_asm rn tid c =
    Some (uint64 (uint32 KERNEL_DIM),
          {| xregs := clobber c [(9, 0xdeadbeef); (7, rn); (8, tid); (10, uint32 KERNEL_DIM)]; threadId := threadId c; smm := smm c |}).
Proof.
  intros Hx Ht Hr. split; [by apply block_calls|]. split; [by apply smmStream_asm_spec|]. split; [by apply smmQueue_asm_spec|].
  split; [by apply smmParamWrite_asm_spec|by apply smmReadFlag_asm_spec].
Qed.

(** What an operation on one tile preserves: every other tile, and the number of tiles. *)
Lemma on_tile_frame {A} (f : Gem5.SATile -> option (A * Gem5.SATile)) tid d a d' :
  Gem5.on_tile f tid d = Some (a, d') ->
  length (Gem5.tiles d') = length (Gem5.tiles d) /\
  forall tid', tid' <> tid -> Gem5.get_tile d' tid' = Gem5.get_tile d tid'.
Proof.
  unfold Gem5.on_tile. destruct (Gem5.get_tile d tid) as [t|] eqn:Et; [|done]. cbn [mbind option_bind].
  destruct (f t) as [[a0 t']|]; [|done]. cbn [mbind option_bind].
  unfold Gem5.set_tile. unfold Gem5.get_tile in Et.
  destruct (aget (Gem5.tiles d) tid) as [ot|] eqn:Eg; [|done]. apply aget_Some_bounds in Eg.
  rewrite aset_spec by done. cbn [mbind option_bind]. intros [= <- <-]. cbn [Gem5.tiles].
  split; [by rewrite length_insert|]. intros tid' Hne. unfold Gem5.get_tile. cbn [Gem5.tiles].
  rewrite aget_insert by done. by destruct (Z.eqb_spec tid' tid).
Qed.

(** Tiles are isolated.  An operation of one hardware thread leaves the tiles of
    all others unchanged, whatever it writes, queues or streams. *)
Theorem tile_isolation tid tid' idx v d :
  tid' <> tid ->
  (forall b d', Gem5.loadWeights tid idx v d = Some (b, d') -> Gem5.get_tile d' tid' = Gem5.get_tile d tid') /\
  (forall r d', Gem5.inputQueue tid idx v d = Some (r, d') -> Gem5.get_tile d' tid' = Gem5.get_tile d tid') /\
  (forall r d', Gem5.streamInOut tid v d = Some (r, d') -> Gem5.get_tile d' tid' = Gem5.get_tile d tid').
Proof. intros Hne. repeat split; intros r d' H; by apply on_tile_frame in H as [_ H]; apply H. Qed.

End Intrinsics.

(** The arrays keep their types.  Whatever calls are made on a new device, with
    any tile, index and value, and checkpoints included, the five arrays of every
    tile keep their lengths and hold values of their declared types, and every
    value a call returns is a 32-bit word. *)
Theorem device_types {cfg : Config} {wf : WfConfig cfg} p d r d' :
  device_reaches p d -> device_step d r d' ->
  device_typed d' /\ forall v, r = Some v -> 0 <= v < 2 ^ 32.
Proof. intros Hd Hs. eapply device_step_typed; [exact Hs|by eapply device_reaches_typed]. Qed.

(** C40: a checkpoint destroys the tiles for good.  [serialize] deletes the tiles and keeps
    their pointers.  Whatever calls follow, a restore included, the three
    operations on a tile that the device had at the checkpoint are undefined, and so is
    another checkpoint if it had any; a restore only appends new tiles behind the
    deleted ones. *)
Theorem checkpoint_deletes_tiles {cfg : Config} {wf : WfConfig cfg} d d' d2 :
  Gem5.serialize d = Some d' -> rtc (fun x y => exists r, device_step x r y) d' d2 ->
  (forall tid idx v, tid < zlen (Gem5.tiles d) ->
     Gem5.loadWeights tid idx v d2 = None /\ Gem5.inputQueue tid idx v d2 = None /\ Gem5.streamInOut tid v d2 = None) /\
  (Gem5.tiles d <> [] -> Gem5.serialize d2 = None).
Proof.
  intros Hs Hr. assert (deleted (zlen (Gem5.tiles d)) d2) as Hd.
  { apply serialize_deletes in Hs. induction Hr as [|x y z [r Hxy] _ IH]; [done|]. apply IH. by apply (device_step_deleted _ x r). }
  split.
  - intros tid idx v Hlt. destruct Hd as [_ Hd]. unfold Gem5.loadWeights, Gem5.inputQueue, Gem5.streamInOut, Gem5.on_tile.
    by rewrite (Hd tid Hlt).
  - intros Hne. apply (deleted_serialize (zlen (Gem5.tiles d))); [|done]. destruct (Gem5.tiles d); [done|]. unfold zlen. simpl. lia.
Qed.

Lemma device_types_witness :
  exists d', Gem5.streamInOut (cfg := demo) 1 0xFFFFFFFF (smm demo_core) = Some (0, d') /\ device_typed (cfg := demo) d'.
Proof.
  eexists. split; [vm_compute; reflexivity|].
  eapply (device_types (cfg := demo) demo_params (smm demo_core) (Some 0)); [apply (reaches_new (cfg := demo))|].
  apply (step_stream (cfg := demo) 1 0xFFFFFFFF). vm_compute. reflexivity.
Defined.

Lemma intrinsics_call_device_witness :
  smmStream_asm (cfg := demo) 5 1 demo_core =
    ('(r, d) ← Gem5.streamInOut (cfg := demo) 1 (uint32 5) (smm demo_core);
     Some (uint64 r, {| xregs := clobber demo_core [(7, 5); (8, 1); (10, r)]; threadId := threadId demo_core; smm := d |})).
Proof. by apply (intrinsics_call_device (cfg := demo) 0 5 1 demo_core). Defined.

Lemma tile_isolation_witness :
  exists b d', Gem5.loadWeights (cfg := demo) 0 4 7 (smm demo_core) = Some (b, d') /\
    Gem5.get_tile d' 1 = Gem5.get_tile (smm demo_core) 1.
Proof.
  do 2 eexists. split; [vm_compute; reflexivity|].
  apply (proj1 (tile_isolation (cfg := demo) 0 1 4 7 (smm demo_core) ltac:(done))) with (b := true).
  vm_compute. reflexivity.
Defined.

(** The device is saved, restored with one more CPU, and used again. *)
Lemma checkpoint_deletes_tiles_witness :
  exists d' d2, Gem5.serialize (smm demo_core) = Some d' /\ Gem5.unserialize (cfg := demo) demo_params d' = d2 /\
    Gem5.streamInOut (cfg := demo) 0 7 d2 = None.
Proof.
  do 2 eexists. split; [vm_compute; reflexivity|]. split; [reflexivity|].
  eapply (checkpoint_deletes_tiles (cfg := demo) (smm demo_core)) with (tid := 0) (idx := 0); [vm_compute; reflexivity| |vm_compute; reflexivity].
  eapply rtc_l; [eexists; apply (step_unserialize (cfg := demo) demo_params)|apply rtc_refl].
Defined.

(** ** Floating-point bit patterns *)

(** Reading a bit pattern as a [float] and writing it back gives the pattern
    back, for every pattern that is not a NaN: the two views of the unions
    [arith_activation_t] and [arith_weight_t] lose nothing. *)
Theorem float_bits_roundtrip b : is_nan_bits b = false -> bits_of_f32 (f32_of_bits b) = uint32 b.
Proof. apply bits_of_f32_of_bits. Qed.

Lemma float_bits_roundtrip_witness : bits_of_f32 (f32_of_bits 0xC0490FDB) = uint32 0xC0490FDB.
Proof. by apply (float_bits_roundtrip 0xC0490FDB). Defined.
