(* ===== verification/TestTheorems.v ===== *)
(** * TestTheorems: what the test program of the accelerator shows

    [mat_mult_test.cpp] compares the array with a software product on one pair of
    matrices.  Here the comparison is shown to succeed for every pair, on every
    accelerator behind element indices, and the whole program to report success
    on the software array; on the simulated device it leaves the array's memory
    when a row takes more than two bus words. *)

From stdpp Require Import prelude.
From Stdlib Require Import ZArith Lia.
From S2P Require Import Prelude Machine Float32 Systolic SystolicCorrect Gem5Device Accelerator SmmGem AcceleratorInstances MatMulTest Demo.

(** C32: for any two matrices of activations and weights, and any number of rows of
    the first, packing both, streaming them through the array and collecting the
    words gives exactly the packed words of the product that the reference
    multiplication computes, in integer and in floating-point builds; no
    assertion of the driver fails, no access leaves a buffer and the drain loop
    ends. *)
Theorem driver_product {cfg : Config} {wf : WfConfig cfg} {S : Type} {A : Accelerator S}
    {L : AcceleratorLaws (cfg := cfg) S (H := element_indexed A)} (M : Z) (lhs rhs : list Z) (s : S) :
  0 <= M -> zlen lhs = M * SA_SIZE -> zlen rhs = SA_SIZE * SA_SIZE -> acts_ok lhs -> weights_ok rhs ->
  @acc_ok cfg S (element_indexed A) L s ->
  exists clhs crhs res cres s', products_agree M lhs rhs clhs crhs res cres s s'.
Proof. apply both_products. Qed.

(** The flag instruction of the [DEVELOP] build. *)
Definition read_flag_dev {cfg : Config} (val tid : Z) (l : list SystolicMatrixMultiplication)
  : option (Z * list SystolicMatrixMultiplication) := k ← smmReadFlag_dev val tid l; Some (k, l).

(** In a [DEVELOP] build of any well-formed configuration, [main] of the test
    program finishes with exit code 0 and reports that all tests passed. *)
Theorem test_program_passes (cfg : Config) (wf : WfConfig cfg) :
  wp (mat_mult_main (A := DevelopAccelerator) read_flag_dev smmList_new) (fun '(code, passed, _) => code = 0 /\ passed = true).
Proof.
  unfold mat_mult_main, read_flag_dev, smmReadFlag_dev. simpl. unfold readFlag. rewrite Z.eqb_refl. simpl. apply wp_bind.
  eapply wp_mono; [apply (test_passes (A := DevelopAccelerator) (L := DevelopElementLaws) 5); [done|apply list_ok_new]|].
  intros [ok s'] [-> _]. by apply wp_ret.
Qed.

Lemma driver_product_witness :
  exists clhs crhs res cres s',
    products_agree (cfg := demo) (A := Gem5Accelerator (cfg := demo)) (L := ElementLaws (cfg := demo) demo_laws (or_intror eq_refl)) 2
      [1; 2; 3; 4; -5; 6; -7; 8] (mkarray 16 (fun i => i - 8)) clhs crhs res cres demo_core s'.
Proof.
  apply (driver_product (cfg := demo) (A := Gem5Accelerator (cfg := demo)) (L := ElementLaws (cfg := demo) demo_laws (or_intror eq_refl))).
  - done.
  - reflexivity.
  - reflexivity.
  - intros i Hi. change (zlen [1; 2; 3; 4; -5; 6; -7; 8]) with 8 in Hi.
    assert (i = 0 \/ i = 1 \/ i = 2 \/ i = 3 \/ i = 4 \/ i = 5 \/ i = 6 \/ i = 7) as Hc by lia.
    repeat (destruct Hc as [->|Hc]; [reflexivity|]). by subst i.
  - intros i Hi. change (zlen (mkarray 16 (fun i => i - 8))) with 16 in Hi. rewrite nthZ_mkarray by done.
    apply wrapS_small; [reflexivity|]. change (2 ^ (WEIGHT_BITS - 1)) with 128. lia.
  - apply demo_core_ok.
Defined.

Lemma test_program_passes_witness :
  wp (mat_mult_main (cfg := int8_cfg 8) (A := DevelopAccelerator (cfg := int8_cfg 8)) (read_flag_dev (cfg := int8_cfg 8)) (smmList_new (cfg := int8_cfg 8)))
    (fun '(code, passed, _) => code = 0 /\ passed = true).
Proof. exact (test_program_passes (int8_cfg 8) int8_wf8). Defined.

(** The device takes the index of a bus word, the test program passes the index of
    an element: on a 16 x 16 array the words 2 and 3 of a row go outside the
    array's memory. *)
Definition core16 : Core := {|
  xregs := zeros 31; threadId := 0;
  smm := Gem5.SystolicMatrixMultiplication_new (cfg := int8_cfg 16) demo_params |}.

Example test_program_device_16 :
  test_systolic_array_matrix_multiply (cfg := int8_cfg 16) (A := Gem5Accelerator (cfg := int8_cfg 16)) 5 core16 = None.
Proof. by vm_compute. Qed.
