(* ===== verification/ProductTheorems.v ===== *)
(** * ProductTheorems: the matrix products, format by format

    The properties of the accelerator's products: one tile, the dense and the
    sparse product, and for every weight format the round trip through its
    encoder.  Each theorem is followed by a witness on the instances of [Demo]. *)

From stdpp Require Import prelude.
From Stdlib Require Import ZArith Lia.
From S2P Require Import Prelude Machine Float32 Systolic SystolicCorrect Gem5Device Accelerator SmmGem AcceleratorInstances SparseMM.
From S2P Require Import TileProduct SparseRep SparseSpec SparseEncode SparseCorrect MatMul LayoutCorrect Demo.

#[local] Arguments processMultiplication : simpl never.

(** The side conditions on the sizes of the demonstration buffers. *)
Ltac demo_sizes := first [exact (words_ok_zeros _) | exact (demo_fits _) | vm_compute; congruence].

Section Integer.
Context {cfg : Config} {wf : WfConfig cfg} {S : Type} {A : Accelerator S} {L : AcceleratorLaws (cfg := cfg) S}.
Context (m : SparseMatrixMultiplier) (n_row n_col : Z) (kernel input : list Z).

(** What a product must leave in the output: every entry has accumulated, modulo
    the width of an activation, the entry of the matrix product. *)
Definition multiplied (out : list Z) (res : S * list Z) : Prop :=
  acc_ok res.1 /\ zlen res.2 = zlen out /\
  forall t c, 0 <= t < seq_len m -> 0 <= c < tiles_in_col m * KERNEL_DIM ->
    act_mat m res.2 t c = activation_t (act_mat m out t c + product m kernel input t c).

(** The sizes of the buffers a product works on. *)
Record sized (out : list Z) : Prop := {
  sz_fits : fits m n_row n_col kernel;
  sz_seq : 0 <= seq_len m;
  sz_input : tiles_in_row m * MAX_ACT_COL * seq_len m <= zlen input;
  sz_out : tiles_in_col m * MAX_ACT_COL * seq_len m <= zlen out;
  sz_words : words_ok out
}.

Lemma multiplied_accumulated out s' out' :
  ACTIVATION_FP = false -> sized out -> acc_ok s' ->
  accumulated m kernel input (fun _ => true) (fun _ => tiles_in_row m) out out' -> multiplied out (s', out').
Proof.
  intros Hint [Hf Hs Hi Ho Hw] Hok Hacc. split; [done|]. split; [apply Hacc|]. intros t c Ht Hc.
  apply (accumulated_product Hint); try done. by eapply fits_R_nonneg.
Qed.

(** C4: the dense product.  On any accelerator that satisfies the interface, with
    integer activations, [SparseMatrixMultiplier::compute] in the format
    [NON_PRUNED] never leaves its buffers and adds to every entry of the output
    the entry of the product of the activations and the weights, modulo the
    width of an activation. *)
Theorem nonpruned_product (s : S) out :
  ACTIVATION_FP = false -> format_ m = NON_PRUNED -> sized out -> acc_ok s ->
  wp (compute_values false m input [] [] kernel (s, out)) (multiplied out).
Proof.
  intros Hint Hfmt Hsz Hok. unfold compute_values. rewrite Hfmt. destruct Hsz as [Hf Hs Hi Ho Hw] eqn:E.
  rewrite (computeNonPruned_ref m n_row n_col kernel Hf). eapply wp_dense_ref; try done.
  intros s' out' Hok' Hacc. by apply multiplied_accumulated.
Qed.

End Integer.

Lemma nonpruned_product_witness :
  wp (compute_values (cfg := demo) false (demo_mult NON_PRUNED) demo_input [] [] demo_kernel (demo_core, zeros 4))
     (multiplied (cfg := demo) (demo_mult NON_PRUNED) demo_kernel demo_input (zeros 4)).
Proof. apply (nonpruned_product (cfg := demo) _ 8 1); [done|done|split; demo_sizes|exact demo_core_ok]. Defined.

(** ** One tile *)

Section Tile.
Context {cfg : Config} {wf : WfConfig cfg} {S : Type} {A : Accelerator S} {L : AcceleratorLaws (cfg := cfg) S}.

(** The tile product has been added to the output tile, nothing else has changed. *)
Definition tile_multiplied m input row col values vptr (out : list Z) (res : S * list Z) : Prop :=
  acc_ok res.1 /\
  tile_added (weight_tile values vptr) (act_tile input (row * MAX_ACT_COL * seq_len m) (seq_len m))
    (col * MAX_ACT_COL * seq_len m) (MAX_ACT_COL * seq_len m) out res.2.

(** C6: one tile.  Whatever the accelerator did before, [processMultiplication]
    adds, word by word, the product of the weight tile at [vptr] and the
    [seq_len] rows of the activation tile [row] to the output tile [col], and
    leaves every other word of the output unchanged; floating point included. *)
Theorem tile_product m input row col values vptr (s : S) out :
  acc_ok s -> 0 <= seq_len m -> 0 <= row -> 0 <= col -> 0 <= vptr ->
  (row + 1) * MAX_ACT_COL * seq_len m <= zlen input ->
  (col + 1) * MAX_ACT_COL * seq_len m <= zlen out -> vptr + TILE <= zlen values ->
  wp (processMultiplication m input row col values vptr (s, out))
    (tile_multiplied m input row col values vptr out).
Proof. intros. apply wp_processMultiplication; try done. Qed.

End Tile.

Lemma tile_product_witness :
  wp (processMultiplication (cfg := demo) (demo_mult CSR) demo_input 1 0 demo_kernel 4 (demo_core, zeros 4))
    (tile_multiplied (cfg := demo) (demo_mult CSR) demo_input 1 0 demo_kernel 4 (zeros 4)).
Proof.
  apply (tile_product (cfg := demo) (demo_mult CSR) demo_input 1 0 demo_kernel 4);
    [exact demo_core_ok|vm_compute; congruence ..].
Defined.

(** ** The formats *)

Section Formats.
Context {cfg : Config} {wf : WfConfig cfg}.
Context (m : SparseMatrixMultiplier) (n_row n_col : Z) (kernel : list Z).
Hypothesis Hfit : fits m n_row n_col kernel.
Abbreviation R := (tiles_in_row m).
Abbreviation C := (tiles_in_col m).

(** A computation on a format is the reference, for every accelerator. *)
Definition computes_sparse (run : forall S (A : Accelerator S), list Z -> S * list Z -> option (S * list Z)) : Prop :=
  forall S (A : Accelerator S) input st, run S A input st = sparse_ref m input kernel st.

(** C7: compressed columns.  [dense2csc] succeeds, counts the non-zero tiles, and
    [compute] on its arrays runs exactly those tiles of the dense kernel,
    column by column, on any accelerator in any state. *)
Theorem csc_roundtrip col_ptr row_ind values :
  format_ m = CSC -> C + 1 <= zlen col_ptr -> C * R <= zlen row_ind -> C * R <= zlen values ->
  wp (dense2csc kernel n_row n_col col_ptr row_ind values) (fun '(nnz, col_ptr, row_ind, values) =>
    nnz = cnt (nz_tile kernel) (C * R) /\
    computes_sparse (fun S A input => compute_ptrs m input col_ptr row_ind kernel values)).
Proof.
  intros Hfmt H1 H2 H3. apply (wp_dense2csc m n_row n_col kernel Hfit); [done|done|done|].
  intros cp ri vs L1 L2 L3 Hp Hr. split; [done|]. intros S A input st. unfold compute_ptrs. rewrite Hfmt.
  apply (computeCSC_ref m n_row n_col); try done; lia.
Qed.

(** C38: compressed rows.  [dense2csr] succeeds on buffers that are long enough,
    counts the tiles that are not all zeros, and the product in the format CSR on
    the arrays it fills runs exactly those tiles of the dense kernel, row by row. *)
Theorem csr_roundtrip col_ptr row_ptr values :
  format_ m = CSR -> R + 1 <= zlen row_ptr -> R * C <= zlen col_ptr -> R * C <= zlen values ->
  wp (dense2csr kernel n_row n_col col_ptr row_ptr values) (fun '(nnz, col_ptr, row_ptr, values) =>
    nnz = cnt (nz_rows m kernel) (R * C) /\
    forall S (A : Accelerator S) input st,
      compute_ptrs m input col_ptr row_ptr kernel values st = sparse_ref_rows m input kernel st).
Proof.
  intros Hfmt H1 H2 H3. apply (wp_dense2csr m n_row n_col kernel Hfit); [done|done|done|].
  intros cp rp vs L1 L2 L3 Hp Hr. split; [done|]. intros S A input st. unfold compute_ptrs. rewrite Hfmt.
  apply (computeCSR_ref m n_row n_col); try done; lia.
Qed.

(** C8: two-level metadata.  The same for [dense2metaData] and META_DATA. *)
Theorem metadata_roundtrip m1 m2 :
  format_ m = META_DATA -> C <= zlen m1 -> C * R <= zlen m2 ->
  wp (dense2metaData kernel n_row n_col m1 m2) (fun '(values, m1, m2) =>
    computes_sparse (fun S A input => compute_values false m input m1 m2 values)).
Proof.
  intros Hfmt H1 H2. apply (wp_dense2metaData m n_row n_col kernel Hfit); [done|done|].
  intros nk m1' m2' L1 L2 L3 Hp Hm1 Hm2 S A input st. unfold compute_values. rewrite Hfmt.
  apply (computeMetaData_ref m n_row n_col); try done; lia.
Qed.

(** C9: interleaved metadata, for kernels of at least 32 tile rows whose blocks
    fit the buffer the encoder allocates. *)
Theorem interleaved_roundtrip :
  format_ m = INTERLEAVED -> 32 <= R -> block_start m kernel C <= interleaved_size n_row n_col ->
  wp (dense2interleavedMetaData kernel n_row n_col) (fun values =>
    computes_sparse (fun S A input => compute_values false m input [] [] values)).
Proof.
  intros Hfmt HR Hsz. apply (wp_dense2interleavedMetaData m n_row n_col kernel Hfit); [done|].
  intros nk L1 Hb S A input st. unfold compute_values. rewrite Hfmt.
  apply (computeInterleavedMetaData_ref m n_row n_col); try done; lia.
Qed.

(** Flag bits.  [remove_zero_tiles] and WITH_FLAG, with a flag word array in
    which the bit of a tile is set exactly for the zero tiles. *)
Theorem flag_roundtrip flag :
  format_ m = WITH_FLAG -> flags_tiles m kernel flag ->
  wp (remove_zero_tiles kernel n_row n_col) (fun values =>
    computes_sparse (fun S A input => compute_values false m input flag [] values)).
Proof.
  intros Hfmt Hfl. apply (wp_remove_zero_tiles m n_row n_col kernel Hfit).
  intros nk L1 Hp S A input st. unfold compute_values. rewrite Hfmt.
  by apply (computeWithFlag_ref m n_row n_col).
Qed.

(** C10: hidden keys.  [interleave_hidden_flag_zero_free] and HIDDEN_KEY, when no
    non-zero tile starts with the key. *)
Theorem hidden_key_roundtrip key :
  format_ m = HIDDEN_KEY -> key_free m kernel key ->
  wp (interleave_hidden_flag_zero_free kernel n_row n_col key) (fun values =>
    computes_sparse (fun S A input => compute_values false m input [key] [] values)).
Proof.
  intros Hfmt Hk. apply (wp_interleave_hidden_flag_zero_free m n_row n_col kernel Hfit).
  intros nk L1 Hp Hf S A input st. unfold compute_values. rewrite Hfmt.
  by apply (computeHiddenKey_ref m n_row n_col kernel Hfit input key).
Qed.

(** Dynamic skipping.  DYNAMIC on the dense kernel runs exactly the non-zero
    tiles, for integer weights. *)
Theorem dynamic_sparse row_ptr col_ind :
  format_ m = DYNAMIC -> WEIGHT_FP = false ->
  computes_sparse (fun S A input => compute_values false m input row_ptr col_ind kernel).
Proof.
  intros Hfmt Hw S A input st. unfold compute_values. rewrite Hfmt. by apply (computeDynamic_ref m n_row n_col).
Qed.

End Formats.

(** ** Witnesses for the formats *)

Lemma csc_roundtrip_witness :
  wp (dense2csc (cfg := demo) demo_kernel 8 1 (zeros 2) (zeros 2) (zeros 2)) (fun '(nnz, col_ptr, row_ind, values) =>
    nnz = cnt (nz_tile (cfg := demo) demo_kernel) (tiles_in_col (cfg := demo) (demo_mult CSC) * tiles_in_row (cfg := demo) (demo_mult CSC)) /\
    computes_sparse (cfg := demo) (demo_mult CSC) demo_kernel
      (fun S A input => compute_ptrs (cfg := demo) (demo_mult CSC) input col_ptr row_ind demo_kernel values)).
Proof. apply (csc_roundtrip (cfg := demo) _ _ _ _ (demo_fits CSC)); vm_compute; congruence. Defined.

Lemma csr_roundtrip_witness :
  wp (dense2csr (cfg := demo) demo_kernel 8 1 (zeros 2) (zeros 3) (zeros 2)) (fun '(nnz, col_ptr, row_ptr, values) =>
    nnz = cnt (nz_rows (cfg := demo) (demo_mult CSR) demo_kernel) (tiles_in_row (cfg := demo) (demo_mult CSR) * tiles_in_col (cfg := demo) (demo_mult CSR)) /\
    forall S (A : Accelerator S) input st,
      compute_ptrs (cfg := demo) (demo_mult CSR) input col_ptr row_ptr demo_kernel values st =
      sparse_ref_rows (cfg := demo) (demo_mult CSR) input demo_kernel st).
Proof. apply (csr_roundtrip (cfg := demo) _ _ _ _ (demo_fits CSR)); vm_compute; congruence. Defined.

Lemma metadata_roundtrip_witness :
  wp (dense2metaData (cfg := demo) demo_kernel 8 1 (zeros 1) (zeros 2)) (fun '(values, m1, m2) =>
    computes_sparse (cfg := demo) (demo_mult META_DATA) demo_kernel
      (fun S A input => compute_values (cfg := demo) false (demo_mult META_DATA) input m1 m2 values)).
Proof. apply (metadata_roundtrip (cfg := demo) _ _ _ _ (demo_fits META_DATA)); vm_compute; congruence. Defined.

(** A column of 32 tiles, every other one zero. *)
Definition tall_kernel : list Z := mkarray 128 (fun i => if Z.even (i / 4) then 0 else i).

Lemma tall_fits : fits (cfg := demo) (mkMultiplier 128 4 4 INTERLEAVED) 128 1 tall_kernel.
Proof. split; vm_compute; congruence. Qed.

Lemma interleaved_roundtrip_witness :
  wp (dense2interleavedMetaData (cfg := demo) tall_kernel 128 1) (fun values =>
    computes_sparse (cfg := demo) (mkMultiplier 128 4 4 INTERLEAVED) tall_kernel
      (fun S A input => compute_values (cfg := demo) false (mkMultiplier 128 4 4 INTERLEAVED) input [] [] values)).
Proof. apply (interleaved_roundtrip (cfg := demo) _ _ _ _ tall_fits); vm_compute; congruence. Defined.

Lemma flag_roundtrip_witness :
  wp (remove_zero_tiles (cfg := demo) demo_kernel 8 1) (fun values =>
    computes_sparse (cfg := demo) (demo_mult WITH_FLAG) demo_kernel
      (fun S A input => compute_values (cfg := demo) false (demo_mult WITH_FLAG) input [0x80000000] [] values)).
Proof.
  apply (flag_roundtrip (cfg := demo) _ _ _ _ (demo_fits WITH_FLAG)); [done|]. intros g Hg.
  change (0 <= g < 2) in Hg. assert (g = 0 \/ g = 1) as [-> | ->] by lia; vm_compute; split; congruence.
Defined.

Lemma hidden_key_roundtrip_witness :
  wp (interleave_hidden_flag_zero_free (cfg := demo) demo_kernel 8 1 0xAAAAAAAA) (fun values =>
    computes_sparse (cfg := demo) (demo_mult HIDDEN_KEY) demo_kernel
      (fun S A input => compute_values (cfg := demo) false (demo_mult HIDDEN_KEY) input [0xAAAAAAAA] [] values)).
Proof.
  apply (hidden_key_roundtrip (cfg := demo) _ _ _ _ (demo_fits HIDDEN_KEY)); [done|]. intros g Hg.
  change (0 <= g < 2) in Hg. assert (g = 0 \/ g = 1) as [-> | ->] by lia; vm_compute; congruence.
Defined.

Lemma dynamic_sparse_witness :
  computes_sparse (cfg := demo) (demo_mult DYNAMIC) demo_kernel
    (fun S A input => compute_values (cfg := demo) false (demo_mult DYNAMIC) input [] [] demo_kernel).
Proof. by apply (dynamic_sparse (cfg := demo) _ _ _ _ (demo_fits DYNAMIC)). Defined.

(** ** Order of accumulation *)

(** CSR and CSC agree in every mode.  Each word of the output accumulates the
    tiles of its column in the same order, so running the non-zero tiles row by
    row or column by column leaves bit-identical outputs, floating point
    included. *)
Theorem row_column_order {cfg : Config} {wf : WfConfig cfg} {S : Type} {A : Accelerator S}
    {L : AcceleratorLaws (cfg := cfg) S} m n_row n_col kernel input (s : S) out :
  sized m n_row n_col kernel input out -> acc_ok s ->
  wp (sparse_ref m input kernel (s, out)) (fun by_columns =>
    wp (sparse_ref_rows m input kernel (s, out)) (fun by_rows => by_columns.2 = by_rows.2)).
Proof.
  intros [Hf Hs Hi Ho Hw] Hok. eapply wp_sparse_ref; try done. intros s1 o1 _ H1.
  eapply wp_sparse_ref_rows; try done. intros s2 o2 _ H2. by eapply accumulated_unique.
Qed.

Lemma row_column_order_witness :
  wp (sparse_ref (cfg := demo) (demo_mult CSC) demo_input demo_kernel (demo_core, zeros 4)) (fun by_columns =>
    wp (sparse_ref_rows (cfg := demo) (demo_mult CSC) demo_input demo_kernel (demo_core, zeros 4))
      (fun by_rows => by_columns.2 = by_rows.2)).
Proof. apply (row_column_order (cfg := demo) _ 8 1); [split; demo_sizes|exact demo_core_ok]. Defined.

(** ** Software and hardware *)

(** The two layouts.  Converting a matrix of words from rows to blocks and back,
    or from blocks to rows and back, gives the matrix back, whatever the target
    buffers held before. *)
Theorem layout_roundtrip {cfg : Config} {wf : WfConfig cfg} n_row C (words b0 r0 : list Z) :
  0 <= n_row -> 0 <= C -> zlen words = n_row * (C * MAX_W_COL) -> zlen b0 = n_row * (C * MAX_W_COL) -> zlen r0 = n_row * (C * MAX_W_COL) ->
  (b ← rowWise2BlockWise words n_row (C * MAX_W_COL) b0; blockWise2RowWise b n_row (C * MAX_W_COL) r0) = Some words /\
  (r ← blockWise2RowWise words n_row (C * MAX_W_COL) r0; rowWise2BlockWise r n_row (C * MAX_W_COL) b0) = Some words.
Proof. intros Hr HC Hw Hb Hr0. split; [by apply (layout_roundtrip_rows n_row _ C)|by apply (layout_roundtrip_blocks n_row _ C)]. Qed.

Lemma layout_roundtrip_witness :
  (b ← rowWise2BlockWise (cfg := demo) [1; 2; 3; 4; 5; 6] 2 3 (zeros 6); blockWise2RowWise (cfg := demo) b 2 3 (zeros 6)) = Some [1; 2; 3; 4; 5; 6].
Proof. apply (layout_roundtrip (cfg := demo) 2 3 [1; 2; 3; 4; 5; 6] (zeros 6) (zeros 6)); done. Defined.

(** The accelerator on the block layout computes the product of the row-major
    matrices. *)
Lemma wp_array_blocks {cfg : Config} {wf : WfConfig cfg} {S : Type} {A : Accelerator S} {L : AcceleratorLaws (cfg := cfg) S}
    (m : SparseMatrixMultiplier) (R C : Z) (input weight blocks kernel : list Z) (s : S) :
  ACTIVATION_FP = false -> ACTIVATION_BITS = 8 -> WEIGHT_BITS = 8 -> format_ m = NON_PRUNED ->
  0 <= R -> 0 <= C -> 0 <= seq_len m -> input_size_ m = R * KERNEL_DIM -> output_size_ m = C * KERNEL_DIM ->
  zlen blocks = seq_len m * (R * MAX_W_COL) -> zlen kernel = R * KERNEL_DIM * (C * MAX_W_COL) ->
  (forall g, 0 <= g < R * KERNEL_DIM * (C * MAX_W_COL) -> kernel.[g] = weight.[row_index (R * KERNEL_DIM) (C * MAX_W_COL) g]) ->
  (forall g, 0 <= g < seq_len m * (R * MAX_W_COL) -> blocks.[g] = input.[row_index (seq_len m) (R * MAX_W_COL) g]) -> acc_ok s ->
  wp (compute_values false m blocks [] [] kernel (s, zeros (seq_len m * (C * MAX_W_COL)))) (fun '(_, out) =>
    zlen out = seq_len m * (C * MAX_W_COL) /\
    forall t c, 0 <= t < seq_len m -> 0 <= c < C * KERNEL_DIM ->
      act_mat m out t c = activation_t (row_product (R * KERNEL_DIM) (C * KERNEL_DIM) input weight t c)).
Proof.
  intros Hint Ha Hw Hfmt HR HC Hn HI HO Hbl Hkl Hk Hb Hok. geometry. pose proof (cols_four Hw) as HK.
  assert (fits m (R * KERNEL_DIM) (C * MAX_W_COL) kernel) as Hfit by (split; rewrite ?(four_weights Hw); (done || nia)).
  assert (tiles_in_row m = R) as HRm by (unfold tiles_in_row; rewrite HI; apply Z.div_mul; lia).
  assert (tiles_in_col m = C) as HCm by (unfold tiles_in_col; rewrite HO; apply Z.div_mul; lia).
  assert (MAX_ACT_COL = MAX_W_COL) as Hcols by (by apply same_cols). set (zs := zeros _).
  assert (zlen zs = seq_len m * (C * MAX_W_COL)) as Hz by (apply zlen_zeros; nia).
  assert (sized m (R * KERNEL_DIM) (C * MAX_W_COL) kernel blocks zs) as Hsz.
  { split; [done|done|rewrite HRm, Hcols; lia|rewrite HCm, Hcols; lia|apply words_ok_zeros]. }
  unfold compute_values. rewrite Hfmt, (computeNonPruned_ref m _ _ kernel Hfit).
  pose proof Hsz as [Z1 Z2 Z3 Z4 Z5]. eapply wp_dense_ref; try done. intros s' out Hok' Hacc.
  destruct (multiplied_accumulated m _ _ kernel blocks zs s' out Hint Hsz Hok' Hacc) as (_ & Hlen & Hprod). simpl in Hlen, Hprod.
  split; [lia|]. intros t c Ht Hc. rewrite Hprod by (rewrite ?HCm; done).
  assert (act_mat m zs t c = 0) as ->.
  { unfold act_mat, act_tile, zs. rewrite nthZ_zeros, act_lane_0. by destruct (t <? seq_len m). }
  f_equal. unfold product, row_product. rewrite HRm. apply zsum_ext. intros e He.
  rewrite (act_mat_block Ha Hw m R input blocks t e HR Hn Ht He Hb).
  by rewrite (weight_mat_block Hw m R C weight kernel e c HR HC HRm He Hc Hk).
Qed.

(** The product in software, and on the accelerator between two conversions. *)
Definition software_agrees {cfg : Config} {S : Type} {A : Accelerator S} (m : SparseMatrixMultiplier) (R C : Z)
    (input weight o1 o2 o3 o4 : list Z) (s : S) : Prop :=
  wp (rowWise2BlockWise weight (input_size_ m) (C * MAX_W_COL) o1) (fun kernel =>
  wp (rowWise2BlockWise input (seq_len m) (R * MAX_W_COL) o2) (fun blocks =>
  wp (compute_values false m blocks [] [] kernel (s, zeros (zlen o3))) (fun '(_, out) =>
  wp (blockWise2RowWise out (seq_len m) (C * MAX_W_COL) o3) (fun by_array =>
  wp (compute_values true m input [] [] weight (s, o4)) (fun '(_, by_software) =>
    forall t c, 0 <= t < seq_len m -> 0 <= c < output_size_ m ->
      row_act by_array (output_size_ m) t c = row_act by_software (output_size_ m) t c))))).

(** The software product and the accelerator agree.  For 8-bit integer
    activations and weights, [compute] in software mode on the row-major input
    and weights leaves in the output the same matrix as [compute] on any
    accelerator after both have been converted to the block layout and the
    result back. *)
Theorem conventional_array {cfg : Config} {wf : WfConfig cfg} {S : Type} {A : Accelerator S} {L : AcceleratorLaws (cfg := cfg) S}
    (m : SparseMatrixMultiplier) (R C : Z) (input weight o1 o2 o3 o4 : list Z) (s : S) :
  ACTIVATION_FP = false -> ACTIVATION_BITS = 8 -> WEIGHT_BITS = 8 -> format_ m = NON_PRUNED ->
  0 <= R -> 0 <= C -> 0 <= seq_len m -> input_size_ m = R * KERNEL_DIM -> output_size_ m = C * KERNEL_DIM ->
  zlen input = seq_len m * (R * MAX_W_COL) -> zlen weight = R * KERNEL_DIM * (C * MAX_W_COL) ->
  zlen o1 = zlen weight -> zlen o2 = zlen input -> zlen o3 = seq_len m * (C * MAX_W_COL) -> zlen o4 = zlen o3 -> acc_ok s ->
  software_agrees m R C input weight o1 o2 o3 o4 s.
Proof.
  intros Hint Ha Hw Hfmt HR HC Hn HI HO Hin Hwt H1 H2 H3 H4 Hok. unfold software_agrees. geometry. pose proof (cols_four Hw) as HK.
  rewrite HI, HO in *. apply (wp_rowWise2BlockWise (R * KERNEL_DIM) (C * MAX_W_COL) C); [nia|done|done|done|lia|]. intros kernel Hkl Hk.
  apply (wp_rowWise2BlockWise (seq_len m) (R * MAX_W_COL) R); [done|done|done|done|lia|]. intros blocks Hbl Hb.
  rewrite H3. eapply wp_mono; [by apply (wp_array_blocks m R C input weight)|]. intros [s' out] [Hlen Hprod].
  apply (wp_blockWise2RowWise (seq_len m) (C * MAX_W_COL) C); [done|done|done|lia|lia|]. intros by_array Hal Har.
  unfold compute_values. rewrite Hfmt, HI, HO. apply wp_bind, wp_assert; [done|]. apply wp_bind.
  assert (forall q, (q * KERNEL_DIM) / 4 = q * MAX_W_COL) as Hq4 by (intros q; rewrite HK, Z.mul_assoc; apply Z.div_mul; lia).
  assert (forall q, (q * KERNEL_DIM) mod 4 = 0) as Hm4 by (intros q; rewrite HK, Z.mul_assoc; apply Z.mod_mul; lia).
  apply (wp_conventionalCompute Hint Ha Hw); rewrite ?Hq4; try (done || nia). intros by_software _ Hsoft. apply wp_ret.
  intros t c Ht Hc. rewrite Hsoft by done.
  rewrite <- (act_mat_block Ha Hw m C by_array out t c HC Hn Ht Hc) by (intros g Hg; symmetry; apply Har; lia).
  by apply Hprod.
Qed.

Lemma conventional_array_witness :
  software_agrees (cfg := demo) (demo_mult NON_PRUNED) 2 1 demo_input demo_kernel (zeros 8) (zeros 8) (zeros 4) (zeros 4) demo_core.
Proof. by apply (conventional_array (cfg := demo)); (reflexivity || apply demo_core_ok || done). Defined.

(** ** Where the code does not do what it means to *)

(** Short columns.  The encoder writes the metadata bits of a block from bit 0
    on, the multiplier reads them from bit [32 - min(32, tile rows)] on.  For a
    kernel of fewer than 32 tile rows the two do not meet: here the product is
    undefined, it reads activations outside the input, where the reference is
    defined. *)
Theorem interleaved_short_columns :
  exists values,
    dense2interleavedMetaData (cfg := demo) demo_kernel 8 1 = Some values /\
    compute_values (cfg := demo) false (demo_mult INTERLEAVED) demo_input [] [] values (demo_core, zeros 4) = None /\
    sparse_ref (cfg := demo) (demo_mult INTERLEAVED) demo_input demo_kernel (demo_core, zeros 4) <> None.
Proof. eexists. split; [vm_compute; reflexivity|]. split; vm_compute; congruence. Qed.

(** The allocation of the interleaved kernel is too small.  With 60 columns of
    one non-zero tile each, [dense2interleavedMetaData] writes past the end of
    the buffer it has allocated. *)
Theorem interleaved_allocation :
  dense2interleavedMetaData (cfg := demo) (mkarray 240 (fun _ => 1)) 4 60 = None.
Proof. vm_compute. reflexivity. Qed.

Definition wide : Config := int8_cfg 8.
Definition wide_core : Core := {|
  xregs := zeros 31; threadId := 0;
  smm := Gem5.SystolicMatrixMultiplication_new (cfg := wide) demo_params |}.
Definition wide_identity : list Z :=
  mkarray 16 (fun k => if k mod 2 =? k / 8 then Z.shiftl 1 (8 * (3 - (k / 2) mod 4)) else 0).

(** The two builds disagree when a tile row takes more than one bus word.
    [processMultiplication] numbers the bus words of a row 0, 1, ...; the gem5
    device takes that number, the software array of the [DEVELOP] build takes
    the index of the first element.  On an 8 x 8 array, multiplying by the
    identity gives the input back on the device and something else in the
    [DEVELOP] build. *)
Theorem develop_index_units :
  let m := mkMultiplier 8 8 8 NON_PRUNED in
  let x := mkarray 16 (fun i => 0x01020304 + i) in
  let device := processMultiplication (cfg := wide) (A := Gem5Accelerator (cfg := wide)) m x 0 0 wide_identity 0 (wide_core, zeros 16) in
  let develop := processMultiplication (cfg := wide) (A := DevelopAccelerator (cfg := wide)) m x 0 0 wide_identity 0
                   (smmList_new (cfg := wide), zeros 16) in
  match device, develop with
  | Some (_, o1), Some (_, o2) => o1 = x /\ o2 <> x
  | _, _ => False
  end.
Proof. vm_compute. split; [reflexivity|congruence]. Qed.
