(* ===== verification/LayerTheorems.v ===== *)
(** * LayerTheorems: the layers of the transformer

    The properties of the layers built on the accelerator: an attention head
    end to end, transpositions, softmax, residual normalisation, and the guards
    of the program. *)

From stdpp Require Import prelude.
From Stdlib Require Import ZArith Lia SpecFloat.
From S2P Require Import Prelude Machine Float32 Systolic SystolicCorrect Gem5Device Accelerator SmmGem AcceleratorInstances SparseMM.
From S2P Require Import TileProduct SparseRep SparseCorrect MatMul Transpose Rows Softmax AddNorm Dense SelfAttention TransformerBlock.
From S2P Require Import Inference AttentionCorrect BlockCorrect InferenceCorrect Demo.

(** ** Attention *)

Section Attention.
Context {cfg : Config} {wf : WfConfig cfg} {S : Type} {A : Accelerator S} {L : AcceleratorLaws (cfg := cfg) S}.
Abbreviation K := KERNEL_DIM.
Abbreviation MAC := MAX_ACT_COL.
Hypothesis Hint : ACTIVATION_FP = false.
Hypothesis Hsame : WEIGHT_BITS = ACTIVATION_BITS.
Variable exp : f64 -> f64.

(** What a run of the block leaves in its output buffer. *)
Definition block_result (a b d f H : Z) (ws : list (list Z)) (input : list Z)
    (res : TransformerBlock * S * BlockBuffers) : Prop :=
  let '(_, s', bufs') := res in
  acc_ok s' /\
  forall t c, 0 <= t < a * K -> 0 <= c < d * K ->
    sentry (bb_output bufs') (a * K) t c =
    block_ref (a * K) (d * K) (b * K) (f * K) H (weight_matrix b d f H ws) (sentry input (a * K)) t c.

(** C2: the encoder block refines the encoder.  A block built by one of its two
    constructors from 8-bit kernels (weights as wide as activations) that the
    encoders have stored, and run on zeroed buffers on any accelerator that
    satisfies the interface, returns and leaves in its output the reference
    encoder of the input with the dense kernels [ws]: per head the attention of
    the three projections, the heads side by side, the condensing layer, residual
    normalisation, the two feed-forward layers and the second normalisation.
    [a], [b], [d] and [f] are the sequence length, head size, model and
    feed-forward dimension in tiles, and [a * K * 170 < 2 ^ 31] keeps the sums of the
    softmax in an int.  The formats may differ from layer to layer; each has its
    conditions ([built], [stored], [stored_ptrs]): INTERLEAVED at least 32 rows of
    tiles and an encoded kernel that fits the allocation of the encoder,
    WITH_FLAG flag words that mark exactly the zero tiles, HIDDEN_KEY no non-zero
    tile that starts with the key, DYNAMIC integer weights, META_DATA, CSC and CSR
    buffers long enough for the encoder (in META_DATA all layers of the block
    share the second level), NON_PRUNED none.  On the values: the scale of every
    row is defined in both normalisations. *)
Theorem block_encoder a b d f H ws blk input bufs (s : S) :
  ACTIVATION_BITS = 8 -> 0 <= a -> 0 <= b -> 0 < d -> 0 <= f -> 0 <= H -> a * K * 170 < 2 ^ 31 ->
  built a b d f H ws blk -> zero_buffers a b d f H bufs -> a * d * (K * MAC) <= zlen input -> acc_ok s ->
  block_scalable a b d f H ws input ->
  wp (Block_compute exp false blk (a * K) input s bufs) (block_result a b d f H ws input).
Proof.
  intros Hbits Ha Hb Hd Hf HH Hseq Hbuilt Hz Hi Hok Hsc.
  apply (wp_block Hint Hsame Hbits exp a b d f H ws input Ha Hb Hd Hf HH blk); try done.
  apply built_layered; (done || lia).
Qed.

(** What a run of a head leaves in its buffers and in its output. *)
Definition head_result (a b d : Z) (wq wk wv input : list Z) (res : SingleHeadSelfAttn * (S * list Z)) : Prop :=
  let '(h', (s', out)) := res in
  let P w := project (d * K) (sentry input (a * K)) (sentry w (d * K)) in
  acc_ok s' /\
  forall t c, 0 <= t < a * K -> 0 <= c < b * K ->
    sentry (query_layer_out h') (a * K) t c = P wq t c /\
    sentry (key_layer_out h') (a * K) t c = P wk t c /\
    sentry (value_layer_out h') (a * K) t c = P wv t c /\
    sentry out (a * K) t c = att_output (P wq) (P wk) (P wv) (a * K) (b * K) t c.

(** C3: an attention head end to end, for every integer width (weights as wide as
    activations).  A head built by the constructor for the formats with one
    buffer of values, from three kernels that satisfy the condition [stored] of
    their format (INTERLEAVED: at least 32 rows of tiles, and the encoded kernels
    fit the allocation of the encoder; WITH_FLAG: the flag words mark exactly the
    zero tiles; HIDDEN_KEY: no non-zero tile starts with the key; DYNAMIC: integer
    weights; META_DATA: long enough buffers, and one second level for the three
    kernels; NON_PRUNED: none), leaves in its buffers the three projections of the
    input with the dense kernels, and in the output their attention: the value
    rows weighted by the table softmax of the inner products of query and key
    rows, divided by 64.  [a * K * 170 < 2 ^ 31] keeps the sums of the softmax in an
    int.  CSC and CSR heads are covered as parts of a block. *)
Theorem head_attention a b d fmt wq wk wv vq vk vv fq fk fv hidden input h n (s : S) :
  0 <= a -> 0 <= b -> 0 <= d -> a * K * 170 < 2 ^ 31 ->
  Head_new (a * K) (d * K) (b * K) [vq; vk; vv] [fq; fk; fv] hidden fmt = Some h ->
  stored a d b wq fmt vq fq hidden -> stored a d b wk fmt vk fk hidden -> stored a d b wv fmt vv fv hidden ->
  zlen wq = d * b * (K * MAC) -> zlen wk = d * b * (K * MAC) -> zlen wv = d * b * (K * MAC) ->
  a * d * (K * MAC) <= zlen input -> acc_ok s -> a * b * (K * MAC) <= n ->
  wp (Head_compute exp false h (a * K) input (s, zeros n)) (head_result a b d wq wk wv input).
Proof.
  intros Ha Hb Hd Hn [= <-] Sq Sk Sv Lq Lk Lv Hi Hok Hl.
  apply (wp_head Hint Hsame exp a b d _ _ _ wq wk wv); try done; by apply stored_layer.
Qed.

(** A layer that the constructors have made of a kernel [w] of [r] by [c] tiles as
    the encoder of its format has stored it. *)
Inductive encoded_layer (a r c : Z) (w : list Z) : Dense -> Prop :=
| encoded_values fmt w' fl hid :
    stored a r c w fmt w' fl hid -> encoded_layer a r c w (Dense_new_flag (a * K) (r * K) (c * K) w' fl hid fmt)
| encoded_pointers fmt cp rp vs :
    stored_ptrs r c w fmt cp rp vs -> encoded_layer a r c w (Dense_new_ptrs (a * K) (r * K) (c * K) w cp rp vs fmt).

(** What a layer leaves in its output: the product with the dense kernel, added to
    what was there; the words after it are unchanged. *)
Definition layer_result (a r c : Z) (w input out : list Z) (res : S * list Z) : Prop :=
  let '(s', out') := res in
  acc_ok s' /\ zlen out' = zlen out /\
  (forall t k, 0 <= t < a * K -> 0 <= k < c * K ->
     sentry out' (a * K) t k = activation_t (sentry out (a * K) t k +
       zsum (fun e => sentry input (a * K) t e * sentry w (r * K) e k) (r * K))) /\
  (forall i, c * MAC * (a * K) <= i < zlen out -> out'.[i] = out.[i]).

(** C5: pruning is lossless, in every format.  [Dense::compute] of a layer whose
    kernel the encoder of one of the eight formats has stored (under the
    conditions of [stored] and [stored_ptrs]: INTERLEAVED at least 32 rows of
    tiles and a kernel that fits the allocation, WITH_FLAG flags of exactly the
    zero tiles, HIDDEN_KEY no non-zero tile that starts with the key, DYNAMIC
    integer weights, META_DATA, CSC and CSR long enough buffers) runs to its end on any
    accelerator that satisfies the interface, whatever its output holds: it adds
    to every entry the entry of the product of the input with the dense kernel,
    modulo the width of an activation, and leaves the words after the product
    unchanged. *)
Theorem layer_product a r c w l input out (s : S) :
  0 <= a -> 0 <= r -> 0 <= c -> zlen w = r * c * (K * MAC) -> encoded_layer a r c w l ->
  a * r * (K * MAC) <= zlen input -> a * c * (K * MAC) <= zlen out -> words_ok out -> acc_ok s ->
  wp (Dense_compute false l (a * K) input (s, out)) (layer_result a r c w input out).
Proof.
  intros Ha Hr Hc Hw Hl Hi Ho Hwo Hok. geometry.
  assert (layer_of a r c w l) as [Hbias [fmt Hm] _ Hrun] by (destruct Hl; [by apply stored_layer|by apply stored_ptrs_layer]).
  unfold Dense_compute. rewrite Hbias. apply wp_bind. specialize (Hrun S A). rewrite Hm in Hrun.
  by apply (wp_run_entries Hint (layer_multiplier a r c fmt) r c w input (fun input => multiplyweight false l input)); simpl; try done; nia.
Qed.

End Attention.

(** *** Witnesses: one tile of everything, two heads *)

Definition demo_weights : list (list Z) :=
  [[1; 2; 3; 4]; [5; 6; 7; 8]; [0x01000000; 0; 0; 9];
   [0x00010000; 2; 0x03000000; 4]; [1; 0; 0; 1]; [0x01010101; 0; 0; 0];
   [1; 0x00000100; 0x00010000; 0x01000000; 0; 0; 0; 0];
   [0x01000000; 0x00010000; 0x00000100; 1]; [0x01000000; 0x00010000; 0x00000100; 1]].

(** The heads use hidden keys, the condensing layer flags (its second tile is
    zero), the feed-forward layers the dense kernels. *)
Definition demo_keyed (w : list Z) : list Z := default [] (interleave_hidden_flag_zero_free (cfg := demo) w 4 1 0xAAAAAAAA).
Definition demo_stored : list (list Z) :=
  Eval vm_compute in (demo_keyed <$> take 6 demo_weights) ++
    [default [] (remove_zero_tiles (cfg := demo) (default [] (demo_weights !! 6%nat)) 8 1)] ++ drop 7 demo_weights.

Definition demo_flags : list (list Z) := replicate 6 [] ++ [[0x40000000]; []; []].

Definition demo_block : option TransformerBlock :=
  Block_new (cfg := demo) (1 * KERNEL_DIM (cfg := demo)) (1 * KERNEL_DIM (cfg := demo)) (1 * KERNEL_DIM (cfg := demo)) 2
    (1 * KERNEL_DIM (cfg := demo)) demo_stored demo_flags [0xAAAAAAAA] HIDDEN_KEY WITH_FLAG DYNAMIC NON_PRUNED.

Definition demo_row : list Z := [0x08040201; 0x10203040; 0x05060708; 0x01020408].

(** One tile of everything on the demonstration array: the conditions on the two
    normalisations, checked on tables of the intermediate matrices. *)
Section Tables.
Context (f H : Z) (ws : list (list Z)) (row : list Z) (heads_t attended_t : list (list Z)).
Abbreviation tab_X := (sentry (cfg := demo) row 4).
Abbreviation tab_W := (weight_matrix (cfg := demo) 1 1 f H ws).
Abbreviation tab_condensed := (project (cfg := demo) (H * 4) (table heads_t) (tab_W (H * 3))).
Abbreviation tab_fed := (project (cfg := demo) (f * 4) (project (cfg := demo) 4 (table attended_t) (tab_W (H * 3 + 1))) (tab_W (H * 3 + 2))).
Hypothesis Hheads : tabulate 4 (H * 4) (multihead_ref (cfg := demo) 4 4 4 tab_W tab_X) = heads_t.
Hypothesis Hattended : tabulate 4 4 (normalise (cfg := demo) 4 tab_X tab_condensed) = attended_t.

Lemma condensed_entry t c : 0 <= t < 4 -> condense_ref (cfg := demo) 4 4 4 H tab_W tab_X t c = tab_condensed t c.
Proof. intros Ht. apply project_ext. intros e He. by apply (table_entries 4 (H * 4)). Qed.

Lemma attended_entry t c : 0 <= t < 4 -> 0 <= c < 4 -> attended_ref (cfg := demo) 4 4 4 H tab_W tab_X t c = table attended_t t c.
Proof.
  intros Ht Hc. unfold attended_ref.
  rewrite (normalise_ext (cfg := demo) 4 tab_X tab_X _ tab_condensed); [|done|intros; by apply condensed_entry|done].
  by apply (table_entries 4 4).
Qed.

Lemma scalable_by_tables :
  (forall t, 0 <= t < 4 -> is_Some (scale_at (cfg := demo) 4 tab_X tab_condensed t)) ->
  (forall t, 0 <= t < 4 -> is_Some (scale_at (cfg := demo) 4 (table attended_t) tab_fed t)) ->
  block_scalable (cfg := demo) 1 1 1 f H ws row.
Proof.
  intros H1 H2. split; intros t Ht; change (0 <= t < 4) in Ht; change (1 * KERNEL_DIM (cfg := demo)) with 4.
  - rewrite (scale_at_ext (cfg := demo) 4 tab_X tab_X _ tab_condensed); [by apply H1|done|intros; by apply condensed_entry].
  - rewrite (scale_at_ext (cfg := demo) 4 _ (table attended_t) _ tab_fed); [by apply H2|intros; by apply attended_entry|].
    intros p Hp. unfold ff_ref. apply project_ext. intros e He. apply project_ext. intros e' He'. by apply attended_entry.
Qed.
End Tables.

(** Four rows. *)
Lemma four_rows (P : Z -> Prop) : P 0 -> P 1 -> P 2 -> P 3 -> forall t, 0 <= t < 4 -> P t.
Proof. intros H0 H1 H2 H3 t Ht. by assert (t = 0 \/ t = 1 \/ t = 2 \/ t = 3) as [-> | [-> | [-> | ->]]] by lia. Qed.

(** The tables of a run, computed stage by stage. *)
Definition heads_of (f H : Z) (ws : list (list Z)) (row : list Z) : list (list Z) :=
  tabulate 4 (H * 4) (multihead_ref (cfg := demo) 4 4 4 (weight_matrix (cfg := demo) 1 1 f H ws) (sentry (cfg := demo) row 4)).
Definition attended_of (f H : Z) (ws : list (list Z)) (row : list Z) (heads_t : list (list Z)) : list (list Z) :=
  tabulate 4 4 (normalise (cfg := demo) 4 (sentry (cfg := demo) row 4)
    (project (cfg := demo) (H * 4) (table heads_t) (weight_matrix (cfg := demo) 1 1 f H ws (H * 3)))).

Definition heads_table : list (list Z) := Eval vm_compute in heads_of 1 2 demo_weights demo_row.
Definition attended_table : list (list Z) := Eval vm_compute in attended_of 1 2 demo_weights demo_row heads_table.

Lemma demo_scalable : block_scalable (cfg := demo) 1 1 1 1 2 demo_weights demo_row.
Proof.
  apply (scalable_by_tables 1 2 demo_weights demo_row heads_table attended_table); [vm_compute; reflexivity|vm_compute; reflexivity|..];
    apply four_rows; vm_compute; by eexists.
Qed.

Lemma demo_key_stored w : zlen w = 4 -> w.[0] <> 0xAAAAAAAA -> is_Some (interleave_hidden_flag_zero_free (cfg := demo) w 4 1 0xAAAAAAAA) ->
  stored (cfg := demo) 1 1 1 w HIDDEN_KEY (demo_keyed w) [] [0xAAAAAAAA].
Proof.
  intros Hl Hw [w' He]. constructor.
  - intros g Hg _. assert (g = 0) as -> by (change (0 <= g < 1) in Hg; lia). exact Hw.
  - unfold demo_keyed. change (4 * 1) with 4 in *. by rewrite He.
Qed.

Lemma demo_built blk : demo_block = Some blk -> built (cfg := demo) 1 1 1 1 2 demo_weights blk.
Proof.
  intros Hb. apply (built_values 1 1 1 1 2 demo_weights blk demo_stored demo_flags [0xAAAAAAAA] HIDDEN_KEY WITH_FLAG DYNAMIC NON_PRUNED Hb).
  split; [|split; [|split]].
  - intros i Hi. assert (i = 0 \/ i = 1 \/ i = 2 \/ i = 3 \/ i = 4 \/ i = 5) as Hc by lia.
    repeat destruct Hc as [-> | Hc]; try subst i; (do 3 eexists; split; [split; reflexivity|]; split; [reflexivity|]; split; [reflexivity|]);
      (apply demo_key_stored; [reflexivity|vm_compute; congruence|vm_compute; by eexists]).
  - do 3 eexists. split; [split; reflexivity|]. split; [reflexivity|]. split; [reflexivity|]. constructor; [|reflexivity].
    intros g Hg. assert (g = 0 \/ g = 1) as [-> | ->] by (change (0 <= g < 2) in Hg; lia); by vm_compute.
  - do 3 eexists. split; [split; reflexivity|]. split; [reflexivity|]. split; [reflexivity|]. by constructor.
  - do 3 eexists. split; [split; reflexivity|]. split; [reflexivity|]. split; [reflexivity|]. by constructor.
Qed.

Lemma layer_product_witness :
  let w := default [] (demo_weights !! 6%nat) in let v := default [] (demo_stored !! 6%nat) in
  wp (Dense_compute (cfg := demo) false (Dense_new_flag (1 * KERNEL_DIM (cfg := demo)) (2 * KERNEL_DIM (cfg := demo)) (1 * KERNEL_DIM (cfg := demo)) v [0x40000000] [] WITH_FLAG)
        (1 * KERNEL_DIM (cfg := demo)) demo_input (demo_core, zeros 4))
     (layer_result (cfg := demo) 1 2 1 w demo_input (zeros 4)).
Proof.
  intros w v. apply (layer_product (cfg := demo) eq_refl eq_refl 1 2 1 w);
    [lia|lia|lia|reflexivity| |vm_compute; congruence|vm_compute; congruence|apply words_ok_zeros|exact demo_core_ok].
  apply encoded_values. constructor; [|reflexivity].
  intros g Hg. assert (g = 0 \/ g = 1) as [-> | ->] by (change (0 <= g < 2) in Hg; lia); by vm_compute.
Defined.

Definition demo_buffers : BlockBuffers := mkBuffers (zeros 4) (zeros 8) (zeros 4) (zeros 4).

Lemma demo_zero_buffers : zero_buffers (cfg := demo) 1 1 1 1 2 demo_buffers.
Proof. split; eexists; (split; [reflexivity|vm_compute; congruence]). Qed.

Lemma block_encoder_witness :
  exists blk, demo_block = Some blk /\
  wp (Block_compute (cfg := demo) (fun x => x) false blk (1 * KERNEL_DIM (cfg := demo)) demo_row demo_core demo_buffers)
     (block_result (cfg := demo) 1 1 1 1 2 demo_weights demo_row).
Proof.
  eexists. split; [reflexivity|].
  apply (block_encoder (cfg := demo) eq_refl eq_refl (fun x => x) 1 1 1 1 2 demo_weights);
    [reflexivity|lia|lia|lia|lia|lia|vm_compute; congruence|by apply demo_built|exact demo_zero_buffers
    |vm_compute; congruence|exact demo_core_ok|exact demo_scalable].
Defined.

Definition demo_head : option SingleHeadSelfAttn :=
  Head_new (cfg := demo) (1 * KERNEL_DIM (cfg := demo)) (1 * KERNEL_DIM (cfg := demo)) (1 * KERNEL_DIM (cfg := demo))
    [[1; 2; 3; 4]; [5; 6; 7; 8]; [0x01000000; 0; 0; 9]] [[]; []; []] [] NON_PRUNED.

Lemma head_attention_witness :
  exists h, demo_head = Some h /\
  wp (Head_compute (cfg := demo) (fun x => x) false h (1 * KERNEL_DIM (cfg := demo)) demo_row (demo_core, zeros 4))
     (head_result (cfg := demo) 1 1 1 [1; 2; 3; 4] [5; 6; 7; 8] [0x01000000; 0; 0; 9] demo_row).
Proof.
  eexists. split; [reflexivity|].
  apply (head_attention (cfg := demo) eq_refl eq_refl (fun x => x) 1 1 1 NON_PRUNED [1; 2; 3; 4] [5; 6; 7; 8] [0x01000000; 0; 0; 9]
    [1; 2; 3; 4] [5; 6; 7; 8] [0x01000000; 0; 0; 9] [] [] [] []); try (vm_compute; congruence); [apply stored_dense ..|exact demo_core_ok].
Defined.

(** ** Transpositions *)

Section Transposes.
Context {cfg : Config} {wf : WfConfig cfg}.
Abbreviation K := KERNEL_DIM.
Abbreviation MAC := MAX_ACT_COL.
Abbreviation APB := ACT_PER_BUS.

(** [transpose_rearranged] transposes.  On a matrix of [TR] by [TC] tiles it
    stays in its buffers and puts entry [(t, e)] at [(e, t)]. *)
Theorem rearranged_transposes input TR TC output :
  0 <= TR -> 0 <= TC -> TR * TC * (K * MAC) <= zlen input -> TR * TC * (K * MAC) <= zlen output ->
  wp (transpose_rearranged input (TC * K) (TR * K) output) (fun out =>
    zlen out = zlen output /\
    forall t e, 0 <= t < TR * K -> 0 <= e < TC * K -> tiled_entry out (TC * K) e t = tiled_entry input (TR * K) t e).
Proof.
  intros HR HC Hi Ho. geometry. apply wp_transpose_rearranged; rewrite ?Z.div_mul by lia; try nia.
  intros out Hout. split; [apply Hout|]. intros t e Ht He. by eapply rearranged_entry.
Qed.

(** Transposing twice is the identity, word for word. *)
Theorem rearranged_involution input TR TC :
  0 <= TR -> 0 <= TC -> zlen input = TR * TC * (K * MAC) -> words_ok input ->
  (once ← transpose_rearranged input (TC * K) (TR * K) (zeros (zlen input));
   transpose_rearranged once (TR * K) (TC * K) (zeros (zlen input))) = Some input.
Proof.
  intros HR HC Hl Hw. geometry. pose proof (zlen_nonneg input). apply wp_eq, wp_bind.
  assert (zlen (zeros (zlen input)) = zlen input) as Hz by (apply zlen_zeros; lia).
  apply wp_transpose_rearranged; rewrite ?Z.div_mul by lia; try nia. intros o1 H1. pose proof H1 as [L1 _].
  apply wp_transpose_rearranged; rewrite ?Z.div_mul by lia; try nia. intros o2 H2. pose proof H2 as [L2 W2].
  apply (tiled_ext TR TC); try done; try lia.
  - intros i Hi. rewrite W2 by nia. apply rearranged_word_range.
  - intros t e Ht He. rewrite (rearranged_entry o1 TC TR (zlen (zeros (zlen input))) o2 e t); [|done|done|exact H2].
    by apply (rearranged_entry input TR TC (zlen (zeros (zlen input))) o1 t e).
Qed.

End Transposes.

Lemma rearranged_transposes_witness :
  wp (transpose_rearranged (cfg := demo) demo_input (2 * KERNEL_DIM (cfg := demo)) (1 * KERNEL_DIM (cfg := demo)) (zeros 8))
    (fun out => zlen out = zlen (zeros 8) /\
      forall t e, 0 <= t < 1 * KERNEL_DIM (cfg := demo) -> 0 <= e < 2 * KERNEL_DIM (cfg := demo) ->
        tiled_entry (cfg := demo) out (2 * KERNEL_DIM (cfg := demo)) e t =
        tiled_entry (cfg := demo) demo_input (1 * KERNEL_DIM (cfg := demo)) t e).
Proof. apply (rearranged_transposes (cfg := demo)); vm_compute; congruence. Defined.

Lemma demo_input_words : words_ok demo_input.
Proof.
  intros i Hi. change (zlen demo_input) with 8 in Hi.
  assert (i = 0 \/ i = 1 \/ i = 2 \/ i = 3 \/ i = 4 \/ i = 5 \/ i = 6 \/ i = 7) as Hc by lia.
  repeat (destruct Hc as [-> | Hc]; [vm_compute; split; congruence|]). subst. vm_compute. split; congruence.
Qed.

Lemma rearranged_involution_witness :
  (once ← transpose_rearranged (cfg := demo) demo_input (2 * KERNEL_DIM (cfg := demo)) (1 * KERNEL_DIM (cfg := demo))
            (zeros (zlen demo_input));
   transpose_rearranged (cfg := demo) once (1 * KERNEL_DIM (cfg := demo)) (2 * KERNEL_DIM (cfg := demo))
            (zeros (zlen demo_input))) = Some demo_input.
Proof. apply (rearranged_involution (cfg := demo) demo_input 1 2); [done|done|reflexivity|exact demo_input_words]. Defined.

(** ** Softmax *)

Section SoftmaxRows.
Context {cfg : Config} {wf : WfConfig cfg}.
Abbreviation K := KERNEL_DIM.

(** C36: the integer softmax.  Both layouts replace every score [u] of a row by
    [lut u / (sum / 256 + 1)], where [sum] is the sum of the table values of that
    row (1 if it is 0), and leave everything else unchanged; no table access,
    division or sum leaves its range. *)
Theorem softmax_rows exp seq_len buf :
  ACTIVATION_FP = false -> 0 <= seq_len -> seq_len * 170 < 2 ^ 31 -> seq_len * seq_len <= elements buf ->
  wp (softmax_computeRearranged exp seq_len buf)
     (softmaxed (tiled_index seq_len) seq_len (seq_len / K * K) buf) /\
  (seq_len mod ACT_PER_BUS = 0 ->
   wp (softmax_compute exp seq_len buf) (softmaxed (row_index seq_len) seq_len seq_len buf)).
Proof.
  intros Hi Hs Hb He. unfold softmax_computeRearranged, softmax_compute. rewrite Hi. split.
  - by apply wp_softmax_computeRearranged_int.
  - intros Hm. by apply wp_softmax_compute_int.
Qed.

(** The softmax keeps the order of the scores.  Its values are between 0 and
    170, and a larger (signed) score never gets a smaller value. *)
Theorem softmax_order u v sum :
  0 <= u < 2 ^ ACTIVATION_BITS -> 0 <= v < 2 ^ ACTIVATION_BITS -> 0 <= sum ->
  0 <= softmax_value u sum <= 170 /\
  (activation_t u <= activation_t v -> softmax_value u sum <= softmax_value v sum).
Proof.
  intros Hu Hv Hs. split; [by apply softmax_value_range|]. intros Huv.
  assert (0 <= fix_sum sum) by (unfold fix_sum; destruct (Z.eqb_spec sum 0); lia).
  assert (0 <= fix_sum sum / 256) by (apply Z.div_pos; lia).
  unfold softmax_value. apply Z.div_le_mono; [lia|]. by apply lut_mono.
Qed.

End SoftmaxRows.

Lemma softmax_rows_witness :
  wp (softmax_computeRearranged (cfg := demo) (fun x => x) 4 demo_input)
     (softmaxed (cfg := demo) (tiled_index (cfg := demo) 4) 4 (4 / KERNEL_DIM (cfg := demo) * KERNEL_DIM (cfg := demo)) demo_input).
Proof. refine (proj1 (softmax_rows (cfg := demo) (fun x => x) 4 demo_input _ _ _ _)); vm_compute; congruence. Defined.

Lemma softmax_order_witness :
  softmax_value (cfg := demo) 0x80 300 <= softmax_value (cfg := demo) 0x7F 300.
Proof. by apply (softmax_order (cfg := demo) 0x80 0x7F 300). Defined.

(** A large weight changes sign.  For 8-bit activations the table values above
    127 do not fit a signed activation: the largest score in a row of small ones
    keeps the value 170, which the next product reads as -86. *)
Example softmax_weight_sign :
  wp (softmax_computeRearranged (cfg := demo) (fun x => x) 4 [0x7F; 0; 0; 0]) (fun out =>
    uelem (cfg := demo) out 0 = 170 /\ get_act (cfg := demo) out 0 = Some (-86)).
Proof. vm_compute. split; reflexivity. Qed.

(** ** Residual addition and normalisation *)

Section Norm.
Context {cfg : Config} {wf : WfConfig cfg}.
Abbreviation K := KERNEL_DIM.

(** What the layer leaves in the output: element [p] of row [i], at the place the
    tiled layout gives it, for rows of [N] bytes. *)
Definition normalised (a : AddNormalize) (input output : list Z) (N : Z) (out : list Z) : Prop :=
  zlen out = zlen output /\
  forall i p, 0 <= i < an_seq_len a -> 0 <= p < N ->
    let x := tiled_residual a input output i in
    get_act out (tiled_index (an_seq_len a) i p) = Some (wrapS 8 (Z.quot ((x p - floor_mean x N) * byte_scale (spread x N)) 4)).

(** C37: residual addition and normalisation of bytes.  For 8-bit activations and rows of
    length [2 ^ k], up to [2 ^ 22], [computeRearranged] adds the input to the output at the width of an
    activation, and with [m] the floor of the mean of a row replaces each element
    [x] of it by [(x - m) * s / 4] at that width; [s] is the integer part of
    [4 / (sqrt v + 1)], and [v], the code's variance, is the average of the
    differences [x - m], each with bit 1 flipped ([^ 2] is an exclusive or).  This
    happens exactly when no [v] is negative: otherwise the call is undefined. *)
Theorem addnorm_rows a input output k :
  ACTIVATION_FP = false -> ACTIVATION_BITS = 8 -> an_kernel_dim a = K -> 0 <= an_seq_len a ->
  an_input_dim a = 2 ^ k -> 0 <= k <= 22 -> 2 ^ k mod K = 0 ->
  an_seq_len a * 2 ^ k <= elements input -> an_seq_len a * 2 ^ k <= elements output ->
  let v i := spread (tiled_residual a input output i) (2 ^ k) in
  ((forall i, 0 <= i < an_seq_len a -> 0 <= v i) ->
   wp (addnorm_computeRearranged a input output) (normalised a input output (2 ^ k))) /\
  (forall i, 0 <= i < an_seq_len a -> v i < 0 -> addnorm_computeRearranged a input output = None).
Proof.
  intros Hint H8 HK Hn Hd Hk Hmod Hi Ho v. unfold addnorm_computeRearranged. rewrite Hint. rewrite <- Hd in *.
  assert (0 <= an_input_dim a) by (rewrite Hd; apply Z.pow_nonneg; lia).
  set (mean i := floor_mean (tiled_residual a input output i) (an_input_dim a)).
  assert (forall i p, -128 <= tiled_residual a input output i p < 128) as Hb.
  { intros i p. unfold tiled_residual, residual, activation_t. rewrite H8. pose proof (wrapS_range 8 (selem output (tiled_index (an_seq_len a) i p) + selem input (tiled_index (an_seq_len a) i p)) ltac:(lia)). lia. }
  assert (forall i, mean_of (row_total (tiled_residual a input output i) (an_input_dim a)) (an_input_dim a) = Some (mean i) /\
    scale_of_row a input output mean i = (if v i <? 0 then None else Some (byte_scale (v i)))) as Hrow.
  { intros i. destruct (byte_row (tiled_residual a input output i) k Hk (fun p _ => Hb i p)) as (M & V & R & _).
    unfold mean, v, scale_of_row. rewrite Hd in *. split; [done|]. rewrite V. by apply sd_inv_bytes. }
  split.
  - intros Hv. apply (wp_addnorm_rearranged a input output HK Hn H Hmod Hi Ho mean (fun i => byte_scale (v i))).
    + intros i Hi'. destruct (Hrow i) as [M S]. split; [done|]. rewrite S. by rewrite (proj2 (Z.ltb_ge _ _)) by (by apply Hv).
    + intros out Hl Hout. split; [done|]. intros i p Hi' Hp x. destruct (byte_row x k Hk (fun p _ => Hb i p)) as (_ & _ & R & Hm).
      rewrite <- Hd in Hm, R. assert (ACT_PER_BUS = 4) as E4 by (unfold ACT_PER_BUS; by rewrite H8).
      assert (0 <= tiled_index (an_seq_len a) i p < an_seq_len a * an_input_dim a) as Hin by (by apply (tiled_bounds a input output)). pose proof (Hb i p) as Hx.
      rewrite get_act_selem by (unfold elements in *; rewrite Hl; lia). rewrite (selem_stored _ _ _ (Hout i p Hi' Hp)).
      unfold activation_t, norm_value. rewrite H8, E4. do 3 f_equal. unfold mean, v. rewrite <- Hd. fold x.
      assert (0 <= byte_scale (spread x (an_input_dim a)) <= 4) by (unfold byte_scale; zcases; lia).
      unfold int32. change (tiled_residual a input output i p) with (x p). rewrite (wrapS_small 32 (x p - _)) by (unfold x in *; lia).
      apply wrapS_small; [lia|]. unfold x in *. nia.
  - intros i Hi' Hv. apply (addnorm_rearranged_undefined a input output HK Hn H Hmod Hi Ho mean i); [intros j _; apply Hrow|done|].
    destruct (Hrow i) as [_ ->]. by rewrite (proj2 (Z.ltb_lt _ _)).
Qed.

End Norm.

(** The mean of a row.  [sum / input_dim_] divides a signed sum by a [size_t],
    so the sum is first converted to an unsigned 64-bit number; for a dimension
    that is a power of two the result is nevertheless the floor of the mean. *)
Theorem mean_power_of_two sum k :
  - 2 ^ 31 <= sum < 2 ^ 31 -> 0 <= k < 32 -> mean_of sum (2 ^ k) = Some (sum / 2 ^ k).
Proof. apply mean_of_pow2. Qed.

Lemma mean_power_of_two_witness : mean_of (-7) (2 ^ 2) = Some (-7 / 2 ^ 2).
Proof. apply (mean_power_of_two (-7) 2); lia. Defined.

(** Two rows of four bytes: one whose scale is 2, and one that has none. *)
Lemma addnorm_rows_witness :
  wp (addnorm_computeRearranged (cfg := demo) (mkAddNormalize 1 4 4 1) [0x01010101] [0x09050300])
     (normalised (cfg := demo) (mkAddNormalize 1 4 4 1) [0x01010101] [0x09050300] (2 ^ 2)) /\
  addnorm_computeRearranged (cfg := demo) (mkAddNormalize 1 4 4 1) [0] [0x04000000] = None.
Proof.
  split.
  - apply (addnorm_rows (cfg := demo) (mkAddNormalize 1 4 4 1) [0x01010101] [0x09050300] 2);
      [reflexivity|reflexivity|reflexivity|vm_compute; congruence|reflexivity|lia|reflexivity|vm_compute; congruence|vm_compute; congruence|].
    intros i Hi. assert (i = 0) as -> by (change (0 <= i < 1) in Hi; lia). vm_compute. congruence.
  - apply (addnorm_rows (cfg := demo) (mkAddNormalize 1 4 4 1) [0] [0x04000000] 2) with (i := 0);
      [reflexivity|reflexivity|reflexivity|vm_compute; congruence|reflexivity|lia|reflexivity|vm_compute; congruence|vm_compute; congruence| |].
    + change (0 <= 0 < 1). lia.
    + vm_compute. reflexivity.
Defined.

(** The variance is not a variance.  [(x - mean) ^ 2] is an exclusive or, so
    the sum can be negative; for the row 0, 0, 0, 4 the square root is a NaN and
    its conversion to [int32_t] is undefined. *)
Theorem addnorm_variance_xor :
  row_variance (fun p => if p =? 3 then 4 else 0) 4 1 = -8 /\
  addnorm_computeRearranged (cfg := demo) (mkAddNormalize 1 4 4 1) [0] [0x04000000] = None.
Proof. vm_compute. split; reflexivity. Qed.

(** ** The program *)

(** ** The program *)



(** The models of [transformer.h] have such dimensions on arrays of 4, 8, 16 and 32. *)
Lemma models_tiled {cfg : Config} (m : Model) :
  SA_SIZE = 4 \/ SA_SIZE = 8 \/ SA_SIZE = 16 \/ SA_SIZE = 32 ->
  exists a b d f H, dims m = tiled_dims a b d f H /\ 0 <= a /\ 0 <= b /\ 0 < d /\ 0 <= f /\ 0 <= H <= 16 /\ a * KERNEL_DIM * 170 < 2 ^ 31.
Proof.
  intros HK. destruct (dims m) as [q n dm h ff] eqn:E. exists (n / SA_SIZE), (q / SA_SIZE), (dm / SA_SIZE), (ff / SA_SIZE), h.
  unfold tiled_dims, KERNEL_DIM. destruct m; injection E as <- <- <- <- <-; destruct HK as [-> | [-> | [-> | ->]]]; (split; [reflexivity|]);
    repeat apply conj; vm_compute; (reflexivity || discriminate).
Qed.





Section Program.
Context {cfg : Config} {S : Type} {A : Accelerator S}.
Variable exp : f64 -> f64.

(** The guards of [main].  The program exits before doing anything unless the
    number of arguments is a positive multiple of four; a run exits when the
    array reports another dimension than the program was compiled for; and the
    software multiplication exits on any sparsity percentage other than zero. *)
Theorem main_guards SW_MULT rand D (readFlag : S -> option (Z * S)) args sp s k s' p :
  (args = [] \/ zlen args mod 4 <> 0 -> main exp SW_MULT rand D readFlag args s = Some (inr ())) /\
  (readFlag s = Some (k, s') -> k <> SA_SIZE -> run exp SW_MULT rand D readFlag sp s p = Some (inr ())) /\
  (readFlag s = Some (SA_SIZE, s') -> SW_MULT = true -> sp <> (0, 0, 0, 0) ->
   run exp SW_MULT rand D readFlag sp s p = Some (inr ())).
Proof.
  split; [|split].
  - intros H. unfold main. replace (zlen args + 1 - 1) with (zlen args) by lia.
    destruct H as [->|H]; [done|]. by destruct (Z.eqb_spec (zlen args mod 4) 0).
  - intros Hf Hk. destruct sp as [[[a b] c] d]. unfold run. rewrite Hf. cbn [mbind option_bind].
    by destruct (Z.eqb_spec k SA_SIZE).
  - intros Hf -> Hsp. destruct sp as [[[a b] c] d]. unfold run. rewrite Hf. cbn [mbind option_bind].
    rewrite Z.eqb_refl. simpl negb. cbn iota.
    destruct (Z.eqb_spec a 0), (Z.eqb_spec b 0), (Z.eqb_spec c 0), (Z.eqb_spec d 0); try done. by subst.
Qed.

End Program.

(** The guards on the [DEVELOP] build, whose [smmReadFlag] answers [KERNEL_DIM]. *)
Lemma main_guards_witness :
  main (cfg := demo) (A := DevelopAccelerator (cfg := demo)) (fun x => x) false (fun _ => 0) (dims test_model)
    (fun l => k ← smmReadFlag_dev (cfg := demo) 0 0 l; Some (k, l)) [0; 0; 0] (smmList_new (cfg := demo)) = Some (inr ()).
Proof.
  apply (main_guards (cfg := demo) (A := DevelopAccelerator (cfg := demo)) (fun x => x) false (fun _ => 0) (dims test_model)
    (fun l => k ← smmReadFlag_dev (cfg := demo) 0 0 l; Some (k, l)) [0; 0; 0] (0, 0, 0, 0)
    (smmList_new (cfg := demo)) 4 (smmList_new (cfg := demo)) O). right. vm_compute. congruence.
Defined.
